(* ===== verification/_CoqProject ===== *)
-Q . S2P
Prelude.v
Common.v
Match.v
Matchcomp.v
Numnicks.v
Findserver.v
Crule.v
Dbuf.v
IPcheck.v
Nametable.v
Hash.v
Whowas.v
Chantext.v
Channel.v
Mmatch.v
Bans.v
Chanmode.v
Setmode.v
Address.v
Parse.v
Umode.v
Watch.v
Targets.v
Silence.v
Nick.v
Netjoin.v
