(* ===== verification/Prelude.v ===== *)
(** * A verification library of ircd (IRC-Hispano)

    The program is the IRC server of the directory [src/ircd] with its headers in
    [src/include]: a single process that serves clients and links to other
    servers.  Everything that is decided about clients goes through a small
    number of data structures and algorithms, and these are what this library
    models, from the C text, with the theorems that make them correct.

    ** The parts and their files

    - Prelude.v (this file): the type [result] of what a piece of C can do, C
      strings and buffers, pointers into buffers ([rd], [wr], [deref]), machine
      words ([u16], [u32], ...), and the lemmas and hints the other files share.
    - Common.v: the character tables of ircd/common.c and the comparison of
      names without regard to case; [case_equiv] is the equivalence that names
      of clients and channels are compared by, everywhere below.
    - Match.v: match(), match_case() and collapse() of ircd/match.c, against the
      usual meaning of a wildcard mask ([glob]).
    - Mmatch.v: mmatch() of ircd/match.c, whether a mask covers another one.
    - Matchcomp.v: matchcomp() and matchexec() of ircd/match.c, the masks that are
      compiled before they are compared with many names.
    - Findserver.v: the searches for a server by a mask (ircd/numnicks.c and
      ircd/s_serv.h), over the table of servers.
    - Numnicks.v: the numerics of clients and servers and their base-64 text
      (ircd/numnicks.c).
    - Crule.v: the parser, printer and evaluator of connection rules
      (ircd/crule.c).
    - Dbuf.v: the queues of bytes between the sockets and the parser
      (ircd/dbuf.c): chains of blocks on one heap with one free list.
    - IPcheck.v: the registry of addresses with its throttle (ircd/IPcheck.c).
    - Nametable.v: the interface of a table of names, a type class with its laws.
    - Hash.v: the chained hash tables of ircd/hash.c, with pointers; an instance
      of the interface.
    - Whowas.v: the history of nicks (ircd/whowas.c): a ring of entries on linked
      lists that are kept by pointers to pointers.
    - Address.v: addresses and ranges of addresses as text (ircd/support.c), over
      the masks of IPcheck.v.
    - Chantext.v: the functions of ircd/channel.c on keys, masks and names.
    - Channel.v: channels, members, zombies and invitations (ircd/channel.c, and
      what ircd/s_misc.c and ircd/s_bdd.c do to them), proved against the
      interface of Nametable.v and instantiated with Hash.v.
    - Bans.v: the list of bans of a channel and the answers about bans that are
      remembered in the flags of its members (ircd/channel.c), over Match.v and
      Mmatch.v, with the static buffers that names are composed in.
    - Chanmode.v: the modes of a channel as bits, letters and fields of a record,
      and who may speak on a channel (ircd/channel.c).
    - Setmode.v: set_mode_local() of ircd/channel.c, the whole of what MODE of a
      client does to a channel, over Channel.v, Bans.v and Chanmode.v, with the
      texts for the others and for taking the change back.
    - Parse.v: the way of a line from the bytes of a connection to a command and
      its parameters (ircd/parse.c, dopacket() of ircd/packet.c), over the numerics
      of Numnicks.v through the interface [Directory].
    - Umode.v: the modes of users, m_umode() and m_svsumode() of ircd/s_user.c, with
      the texts that other servers set them by and the counts of operators and the
      lists of who gets which notices.
    - Watch.v: the lists of watched nicks (ircd/m_watch.c), blocks that are linked
      to users on both sides, and strtoken() of ircd/support.c.
    - Targets.v: the limit of targets of a client, add_target() and
      check_target_limit() of ircd/s_user.c, in time.
    - Silence.v: the masks a user silences (ircd/s_user.c), over Mmatch.v,
      Chantext.v and Bans.v, with its own static buffers of names.
    - Nick.v: nicks that other servers send and their collisions, m_nick_remoto()
      of ircd/s_user.c.
    - Netjoin.v: two servers at the ends of a link, each with the handler of Nick.v.

    Each file has the same order: the definitions, named after the functions of
    the source, then lemmas, then the theorems that matter.  The parts meet where
    the source calls across files: names are hashed and compared by Common.v,
    channels are found through Hash.v, keys and names are handled by Chantext.v.

    ** How C is modelled

    A function that can go wrong has the type [result]: [Ok a] is a normal return,
    [Ub] a read or write outside an object, a use of a pointer that is null or
    freed, or of a value that was never set, or an assert() that fails (a parameter
    [NDEBUG] where the result without asserts matters too).  Recursion that is not structural has
    fuel, and [Fuel] says that it ran out; every function with fuel has a theorem
    or lemma that its fuel (a length of the input, a number of cells, plus one) is
    enough, so that the theorems that say [Ok] include termination.  Static and
    global variables are fields of a state record that is passed along.  Heap
    cells with aliases are finite maps from locations (dbuf blocks, hash and
    whowas links, channel blocks); a list whose cells have one owner is a list.
    Integers are [Z] with the wrap-around of their width written out where it can
    matter.  Sequences of calls are lists of events run by a [step] function, and
    invariants are proved by induction on them.  Where a freed block is read, its
    content is an argument, or the read is [Ub].

    ** What the theorems show

    - equivalence and functional correctness: match() decides [glob] when a
      second NUL follows the string, and never misses a string of the mask otherwise;
      collapse() preserves [glob] and is idempotent; mmatch() decides the covering of
      masks with a character that is no wildcard token by token, a preorder that
      implies inclusion; strhash() is a number in base 257; crule_eval() is the truth
      of a rule about the answers of match(); compall(), is_utf8() and pretty_mask()
      agree with their references, and pretty_mask() stays inside its buffers;
      the numeric of a new client is free and is found again, and an assert() fails
      when there is none; a compiled mask decides [glob], with the byte before the
      string read, and its filters lose no match; a search by a
      mask finds a server just if there is one; an address lies in a range just if
      the mask accepts it; a client finds in the tree of commands exactly the names
      of the table; the lines that are handled do not depend on how their bytes
      arrive; the text that announces a change of modes tells exactly what changed.
    - round trips: base 64 of numerics and of IPv6 addresses (exactly for those
      addresses that survive), printing and parsing of rules, addresses as text
      (again exactly those that survive), a line and its command, the modes in the NICK
      of a user and what the next server reads there.
    - refinement: the dbuf heap implements one queue per connection; the hash
      chains implement sets of named elements; the whowas ring implements the
      list of the last entries; the linked blocks of watches implement a list of
      nicks per user; a server that is told of a change of user modes has the modes
      of the server that made it.
    - invariants: the registry of addresses counts exactly the connected clients;
      channels and members stay consistent whatever clients do, and no pointer to
      a freed block is followed; no ban of a list covers another, and what members
      remember about bans is what the list says, but for what match() takes from the rest
      of the buffer of names; a registered channel follows the
      modes of its record; no silence covers another and none is lost or freed
      twice; no two clients have one nick.
    - safety: a server speaks only for the clients behind its link, and a client
      for itself; without being operator of a channel nobody changes its modes, and
      nobody gets a privileged user mode from his own command; two servers whose
      users sign on and leave while messages are under way never have two users under a
      nick, and know the same users when the link is quiet, unless a freed block
      holds the time of a newcomer by chance.
    - liveness and termination: the link does get quiet; a client that waits gets a
      new target after a bounded number of tries, and in every stretch of time no
      more targets than its credit; the loop over strtoken() goes over the words of
      every text.
    - errors: what the code does on the inputs that it does not handle, each with
      the input: reads past a terminator, operands that are never set, counters
      that wrap, addresses that do not survive their encoding, flags that leak
      from one channel to the next, remembered answers about bans that outlive a
      nick, bans that hit by the rest of an earlier name or are replaced by bans that
      hit others, an address that overflows its buffer, freed blocks that are compared
      with masks and times.

    ** What is not modelled, and why

    The socket loop, the resolver and the reading of configuration (ircd/s_bsd.c,
    res.c, s_auth.c, s_conf.c, class.c, ircd.c) are system calls and callbacks of
    libevent, which is vendored.  The output functions (ircd/send.c, sprintf_irc.c,
    s_err.c, s_numeric.c) and the commands that format replies (querycmds.c,
    whocmds.c, opercmds.c) write text to sockets.  persistent_malloc.c and
    runmalloc.c are allocators over memory-mapped files; the models allocate from
    fresh locations.  The replicated database (s_bdd.c) is a store of such memory;
    where the modelled code asks it a question, the answer is an argument.  Of
    s_user.c registration, the local NICK, messages, WHOIS and OPER, of s_serv.c the
    links of servers, and of channel.c the modes that servers set
    (set_mode_remoto), BURST, topics and lists are not modelled: they join most of
    the parts above on records of clients that have many fields no part here needs.
    A line ends as the command it calls: what the command does is not part of
    Parse.v.  In Nick.v and Netjoin.v the modes, channels and history of the client
    are left out, what hSeekClient() finds (Hash.v) is found in a finite map, and the
    link keeps the order of the packets; changes of nick are in the theorems of
    Nick.v but not in the histories of Netjoin.v.  matchdecomp(), mmexec() and
    matchcompIP() have no callers.  Code that the build leaves out (DEBUGMODE,
    GODMODE, ESNET_NEG, ZLIB_ESNET, FERGUSON_FLUSHER) is not modelled.

    ** Plan

    What would come next: changes of nick in the histories of Netjoin.v and BURST
    with set_mode_remoto() as its counterpart for channels, over Setmode.v; topics;
    the tables of the database. *)

From Stdlib Require Export ZArith Ascii String List Bool Lia.
From stdpp Require Export base numbers option list gmap strings fin_maps.

Open Scope Z_scope.

(** * Results: what a piece of C can do

    [Ok a] is a normal result.  [Ub] is a read or write outside the object a
    pointer points into (undefined behaviour of C), [Fuel] marks a loop whose
    fuel ran out: a theorem that a function returns [Ok _] says that the C
    code terminates without touching foreign memory. *)

Inductive result (A : Type) : Type :=
  | Ok (a : A)
  | Ub
  | Fuel.
Arguments Ok {A} _.
Arguments Ub {A}.
Arguments Fuel {A}.

#[export] Instance result_ret : MRet result := @Ok.
#[export] Instance result_bind : MBind result := fun A B f m =>
  match m with Ok a => f a | Ub => Ub | Fuel => Fuel end.
#[export] Instance result_eq_dec `{EqDecision A} : EqDecision (result A).
Proof. solve_decision. Defined.

Definition of_option {A} (o : option A) : result A :=
  match o with Some a => Ok a | None => Ub end.

(** The computation ends, and a normal result satisfies [P]. *)
Definition ends {A} (P : A -> Prop) (r : result A) : Prop :=
  match r with Ok a => P a | Ub => True | Fuel => False end.

Lemma ends_bind {A B} (P : A -> Prop) (Q : B -> Prop) m (f : A -> result B) :
  ends P m -> (forall a, P a -> ends Q (f a)) -> ends Q (m ≫= f).
Proof. destruct m; simpl; auto. Qed.

Lemma ends_mono {A} (P Q : A -> Prop) m : ends P m -> (forall a, P a -> Q a) -> ends Q m.
Proof. destruct m; simpl; auto. Qed.

(** A sequence that returned has returned at each step. *)
Lemma bind_Ok {A B} (m : result A) (f : A -> result B) b : m ≫= f = Ok b -> exists a, m = Ok a /\ f a = Ok b.
Proof. destruct m as [a| |]; [|done..]. by exists a. Qed.

(** * Characters and C strings *)

Declare Scope ircd_scope.
Delimit Scope ircd_scope with ircd.

Definition NUL : ascii := Ascii.zero.

(** A C string is the list of the characters before its terminator, so that
    [*p] is the head of the list or [NUL], and [p + 1] its tail. *)
Definition cstring := list ascii.
Definition chr (p : cstring) : ascii := hd NUL p.
Definition adv (p : cstring) : cstring := tl p.

(** The characters of a C string are not [NUL]. *)
Definition is_cstr (s : list ascii) : Prop := Forall (fun c => c <> NUL) s.

#[export] Instance is_cstr_dec s : Decision (is_cstr s).
Proof. unfold is_cstr. apply _. Defined.

(** Literals. *)
Definition str (s : string) : list ascii := list_ascii_of_string s.

(** [char] is signed on the platforms the server runs on. *)
Definition CHAR_MIN : Z := -128.
Definition CHAR_MAX : Z := 127.
Definition UCHAR_MAX : Z := 255.

Definition uchar (c : ascii) : Z := Z.of_N (N_of_ascii c).
Definition to_char (z : Z) : ascii := ascii_of_N (Z.to_N (z mod 256)).
Definition schar (c : ascii) : Z :=
  if decide (uchar c < 128) then uchar c else uchar c - 256.

(** Unsigned machine words. *)
Definition u8 (z : Z) : Z := z mod 2 ^ 8.
Definition u16 (z : Z) : Z := z mod 2 ^ 16.
Definition u32 (z : Z) : Z := z mod 2 ^ 32.
Definition u64 (z : Z) : Z := z mod 2 ^ 64.

(** * Memory reads through a pointer into a buffer

    A pointer into a buffer that may be overrun is the rest of the buffer
    from the pointed element on, the terminator included. *)
Definition deref (p : list ascii) : result ascii := of_option (head p).

(** Reads and writes of a buffer by index: out of range is [Ub]. *)
Definition rd {A} (mem : list A) (i : nat) : result A := of_option (mem !! i).
Definition wr {A} (mem : list A) (i : nat) (x : A) : result (list A) :=
  if decide (i < length mem)%nat then Ok (<[i := x]> mem) else Ub.

(** [strlen] and [strcpy] of the C library, on a buffer that holds a terminator. *)
Fixpoint strlen (p : list ascii) : result nat :=
  match p with
  | [] => Ub
  | c :: p' => if decide (c = NUL) then Ok O else n ← strlen p'; Ok (S n)
  end.

Fixpoint strcpy (mem : list ascii) (off : nat) (src : list ascii) : result (list ascii) :=
  match src with
  | [] => Ub
  | c :: src' =>
      mem ← wr mem off c;
      if decide (c = NUL) then Ok mem else strcpy mem (S off) src'
  end.

(** [flags & mask] as a condition, and [flags & ~mask] *)
Definition has (flags mask : Z) : bool := bool_decide (Z.land flags mask <> 0).
Definition clear (flags mask : Z) : Z := Z.land flags (Z.lnot mask).

(** [for (curr = &chain; (tmp = *curr); curr = &tmp->next)
       if (tmp->value == p) { *curr = tmp->next; free_link(tmp); break; }] *)
Fixpoint unlink {A} (value : A -> nat) (p : nat) (l : list A) : list A :=
  match l with
  | [] => []
  | x :: l => if decide (value x = p) then l else x :: unlink value p l
  end.

(** The text of the C string at the start of a buffer. *)
Fixpoint c_text (p : list ascii) : cstring :=
  match p with
  | [] => []
  | c :: p' => if decide (c = NUL) then [] else c :: c_text p'
  end.

(** * Automation *)

Create HintDb ircd.

(** Split the conditions of the code, in the goal and in the context. *)
Ltac split_if :=
  repeat match goal with
  | |- context [if decide ?P then _ else _] => destruct (decide P)
  | H : context [if decide ?P then _ else _] |- _ => destruct (decide P)
  end; simplify_eq/=.

(** The steps of a sequence that returned, as hypotheses. *)
Ltac inv_bind H :=
  match type of H with
  | _ ≫= _ = Ok _ =>
      let a := fresh "a" in let Ha := fresh "Ha" in apply bind_Ok in H as (a&Ha&H); inv_bind H
  | _ => idtac
  end.

(** * Generic lemmas *)

Section chars.

Lemma uchar_range c : 0 <= uchar c < 256.
Proof.
  unfold uchar. pose proof (N_ascii_bounded c). lia.
Qed.

Lemma schar_range c : CHAR_MIN <= schar c <= CHAR_MAX.
Proof.
  unfold schar, CHAR_MIN, CHAR_MAX. pose proof (uchar_range c).
  case_decide; lia.
Qed.

Lemma uchar_inj a b : uchar a = uchar b -> a = b.
Proof.
  unfold uchar. intros H. rewrite <- (ascii_N_embedding a).
  rewrite <- (ascii_N_embedding b). f_equal. lia.
Qed.

Lemma schar_0 c : schar c = 0 <-> c = NUL.
Proof.
  split.
  - intros H. apply uchar_inj. unfold schar in H.
    pose proof (uchar_range c). replace (uchar NUL) with 0 by reflexivity.
    case_decide; lia.
  - intros ->. reflexivity.
Qed.

Lemma schar_inj a b : schar a = schar b -> a = b.
Proof.
  intros H. apply uchar_inj. unfold schar in H.
  pose proof (uchar_range a). pose proof (uchar_range b).
  repeat case_decide; lia.
Qed.

(** All the characters, for properties of the character tables. *)
Definition all_ascii : list ascii := map ascii_of_nat (seq 0 256).

Lemma elem_of_all_ascii c : c ∈ all_ascii.
Proof.
  unfold all_ascii. apply list_elem_of_In, in_map_iff.
  exists (nat_of_ascii c). split; [apply ascii_nat_embedding|].
  apply in_seq. pose proof (nat_ascii_bounded c). lia.
Qed.

Lemma forall_ascii (P : ascii -> bool) :
  forallb P all_ascii = true -> forall c, P c = true.
Proof.
  intros H c. rewrite forallb_forall in H. apply H.
  apply list_elem_of_In, elem_of_all_ascii.
Qed.

Lemma forall_ascii_dec (P : ascii -> Prop) `{forall c, Decision (P c)} :
  forallb (fun c => bool_decide (P c)) all_ascii = true -> forall c, P c.
Proof.
  intros Hall c. pose proof (forall_ascii _ Hall c) as Hc.
  by apply bool_decide_eq_true in Hc.
Qed.

End chars.

(** Concatenation of bit fields. *)
Lemma lor_shiftl_add x d n :
  0 <= n -> 0 <= d < 2 ^ n -> Z.lor (Z.shiftl x n) d = x * 2 ^ n + d.
Proof.
  intros Hn Hd. rewrite <- Z.shiftl_mul_pow2 by done. symmetry. apply Z.add_nocarry_lor.
  apply Z.bits_inj'. intros m Hm. rewrite Z.land_spec, Z.bits_0.
  destruct (decide (m < n)).
  - by rewrite Z.shiftl_spec_low.
  - rewrite <- (Z.mod_small d (2 ^ n)), (Z.mod_pow2_bits_high d), andb_false_r; [done|lia..].
Qed.

Section cstrings.

Lemma is_cstr_nil : is_cstr [].
Proof. constructor. Qed.

Lemma is_cstr_cons c s : is_cstr (c :: s) <-> c <> NUL /\ is_cstr s.
Proof. unfold is_cstr. by rewrite Forall_cons. Qed.

Lemma is_cstr_tail c s : is_cstr (c :: s) -> is_cstr s.
Proof. by intros [_ ?]%is_cstr_cons. Qed.

Lemma is_cstr_app s t : is_cstr (s ++ t) <-> is_cstr s /\ is_cstr t.
Proof. unfold is_cstr. by rewrite Forall_app. Qed.

Lemma chr_nul s : is_cstr s -> chr s = NUL <-> s = [].
Proof.
  intros Hs. destruct s as [|c s]; simpl; [done|].
  apply is_cstr_cons in Hs as [Hc _]. naive_solver.
Qed.

Lemma is_cstr_adv s : is_cstr s -> is_cstr (adv s).
Proof. destruct s; [done|]. by intros [_ ?]%is_cstr_cons. Qed.

Lemma strlen_app s r : is_cstr s -> strlen (s ++ NUL :: r) = Ok (length s).
Proof.
  induction s as [|c s IH]; [done|]. intros [Hc Hs]%is_cstr_cons. simpl.
  rewrite decide_False by done. by rewrite IH.
Qed.

Lemma c_text_app s r : is_cstr s -> c_text (s ++ NUL :: r) = s.
Proof.
  induction s as [|c s IH]; [done|]. intros [Hc Hs]%is_cstr_cons. simpl.
  rewrite decide_False by done. by rewrite IH.
Qed.

End cstrings.

#[export] Hint Resolve is_cstr_nil is_cstr_adv : ircd.
#[export] Hint Resolve is_cstr_tail : ircd.

Section buffers.

Context {A : Type}.
Implicit Types mem : list A.

Lemma rd_middle mem l1 x l2 i :
  mem = l1 ++ x :: l2 -> i = length l1 -> rd mem i = Ok x.
Proof. intros -> ->. unfold rd. by rewrite list_lookup_middle. Qed.

Lemma wr_middle mem l1 x l2 i y :
  mem = l1 ++ x :: l2 -> i = length l1 -> wr mem i y = Ok (l1 ++ y :: l2).
Proof.
  intros -> ->. unfold wr. rewrite decide_True.
  - by rewrite insert_app_r_alt, Nat.sub_diag by done.
  - rewrite length_app. simpl. lia.
Qed.

(** A buffer read at [length out + length gap] while its front is rewritten at
    [length out]: the shape of a loop that compacts a string in place. *)
Lemma rd_gap (out gap : list A) x r i :
  i = (length out + length gap)%nat -> rd (out ++ gap ++ x :: r) i = Ok x.
Proof.
  intros ->. apply (rd_middle _ (out ++ gap) x r); by rewrite ?app_assoc, ?length_app.
Qed.

Lemma rd_gap_next (out gap : list A) x y r i :
  i = S (length out + length gap) -> rd (out ++ gap ++ x :: y :: r) i = Ok y.
Proof.
  intros ->. apply (rd_middle _ (out ++ gap ++ [x]) y r).
  - by rewrite <- !app_assoc.
  - rewrite !length_app. simpl. lia.
Qed.

Lemma wr_gap (out gap : list A) x r :
  wr (out ++ gap ++ x :: r) (length out) x = Ok ((out ++ [x]) ++ tl (gap ++ [x]) ++ r).
Proof.
  rewrite <- app_assoc. destruct gap as [|g gap].
  - by apply (wr_middle _ out x).
  - rewrite (wr_middle _ out g (gap ++ x :: r)) by done. simpl. by rewrite <- app_assoc.
Qed.

Lemma rd_gap_last (out gap : list A) x r i :
  i = (length out + length gap)%nat ->
  rd ((out ++ [x]) ++ tl (gap ++ [x]) ++ r) i = Ok x.
Proof.
  intros ->. destruct gap as [|g gap]; simpl.
  - apply (rd_middle _ out x r); [by rewrite <- app_assoc|lia].
  - apply (rd_middle _ ((out ++ [x]) ++ gap) x r); [by rewrite <- !app_assoc|].
    rewrite !length_app. simpl. lia.
Qed.

Lemma length_tl_snoc (gap : list A) x : length (tl (gap ++ [x])) = length gap.
Proof. destruct gap; simpl; [done|]. rewrite length_app. simpl. lia. Qed.

Lemma rd_Some mem i x : mem !! i = Some x -> rd mem i = Ok x.
Proof. unfold rd. by intros ->. Qed.

Lemma rd_lt mem i : (i < length mem)%nat -> exists x, rd mem i = Ok x /\ mem !! i = Some x.
Proof. intros [x Hx]%lookup_lt_is_Some. exists x. by rewrite (rd_Some _ _ x). Qed.

Lemma wr_lt mem i x : (i < length mem)%nat -> wr mem i x = Ok (<[i := x]> mem).
Proof. intros. unfold wr. by rewrite decide_True. Qed.

Lemma wr_Ok mem i x mem' : wr mem i x = Ok mem' -> (i < length mem)%nat /\ mem' = <[i := x]> mem.
Proof. unfold wr. case_decide; intros; by simplify_eq. Qed.

Lemma wr_length mem i x mem' : wr mem i x = Ok mem' -> length mem' = length mem.
Proof. unfold wr. case_decide; intros; simplify_eq. by rewrite length_insert. Qed.

End buffers.

(** * Chains of links *)

Lemma unlink_split {A} (value : A -> nat) p l :
  NoDup (value <$> l) -> p ∈ value <$> l ->
  exists l1 x l2, l = l1 ++ x :: l2 /\ value x = p /\ unlink value p l = l1 ++ l2.
Proof.
  induction l as [|x l IH]; [by intros _ ?%elem_of_nil|]. rewrite fmap_cons. intros [Hx Hnd]%NoDup_cons Hp.
  simpl. destruct (decide (value x = p)) as [E|Hne].
  - by exists [], x, l.
  - apply elem_of_cons in Hp as [->|Hp]; [done|]. destruct (IH Hnd Hp) as (l1&y&l2&->&?&->).
    by exists (x :: l1), y, l2.
Qed.

Lemma unlink_outside {A} (value : A -> nat) p l : (p ∉ value <$> l) -> unlink value p l = l.
Proof.
  induction l as [|x l IH]; [done|]. rewrite fmap_cons. intros [Hne Hp]%not_elem_of_cons. simpl.
  rewrite decide_False by done. by rewrite IH.
Qed.

Lemma unlink_perm {A} (value : A -> nat) p l :
  NoDup (value <$> l) -> p ∈ value <$> l ->
  value <$> l ≡ₚ p :: (value <$> unlink value p l).
Proof.
  intros Hnd Hp. destruct (unlink_split value p l Hnd Hp) as (l1&x&l2&->&<-&->).
  rewrite !fmap_app, fmap_cons. by rewrite Permutation_middle.
Qed.

Lemma unlink_elem {A} (value : A -> nat) p q l :
  NoDup (value <$> l) -> q ∈ value <$> unlink value p l <-> q ∈ value <$> l /\ q <> p.
Proof.
  intros Hnd. destruct (decide (p ∈ value <$> l)) as [Hp|Hp].
  - assert (HP := unlink_perm value p l Hnd Hp). rewrite HP in Hnd. apply NoDup_cons in Hnd as [Hn _].
    rewrite (elem_of_Permutation_proper _ _ _ HP), elem_of_cons. 
    split; [intros Hq; split; [by right|by intros ->]|]. intros [[->|?] ?]; done.
  - rewrite unlink_outside by done. split; [|by intros []]. intros Hq. split; [done|]. by intros ->.
Qed.

Lemma unlink_NoDup {A} (value : A -> nat) p l :
  NoDup (value <$> l) -> NoDup (value <$> unlink value p l).
Proof.
  intros Hnd. destruct (decide (p ∈ value <$> l)) as [Hp|Hp]; [|by rewrite unlink_outside].
  rewrite (unlink_perm value p l Hnd Hp) in Hnd. by apply NoDup_cons in Hnd as [_ ?].
Qed.

Lemma unlink_length {A} (value : A -> nat) p l :
  NoDup (value <$> l) -> p ∈ value <$> l -> length l = S (length (unlink value p l)).
Proof.
  intros Hnd Hp. assert (H := Permutation_length (unlink_perm value p l Hnd Hp)). simpl in H.
  by rewrite !length_fmap in H.
Qed.

Lemma unlink_fmap {A} (value : A -> nat) p l : value <$> unlink value p l = unlink id p (value <$> l).
Proof.
  induction l as [|x l IH]; [done|]. csimpl. unfold id at 1. destruct (decide (value x = p)); [done|].
  csimpl. by rewrite IH.
Qed.

Lemma unlink_twice p (l : list nat) : NoDup l -> unlink id p (unlink id p l) = unlink id p l.
Proof.
  intros Hnd. apply unlink_outside. rewrite unlink_elem by (by rewrite list_fmap_id). by intros [_ []].
Qed.

Lemma unlink_absent p (l : list nat) : (p ∉ l) -> unlink id p l = l.
Proof. intros Hp. apply unlink_outside. by rewrite list_fmap_id. Qed.

(** * Bits *)

Lemma land_pow2 f k : 0 <= k -> Z.land f (2 ^ k) <> 0 <-> Z.testbit f k = true.
Proof.
  intros Hk. split.
  - intros H. destruct (Z.testbit f k) eqn:E; [done|]. destruct H. apply Z.bits_inj'. intros n Hn.
    rewrite Z.land_spec, Z.bits_0. destruct (decide (n = k)) as [->|]; [by rewrite E|].
    by rewrite Z.pow2_bits_false, andb_false_r by congruence.
  - intros E H. apply (f_equal (fun z => Z.testbit z k)) in H.
    by rewrite Z.land_spec, Z.pow2_bits_true, E, Z.bits_0 in H by done.
Qed.

Lemma has_bit k f : 0 <= k -> has f (2 ^ k) = Z.testbit f k.
Proof.
  intros Hk. apply eq_true_iff_eq. unfold has. by rewrite bool_decide_eq_true, land_pow2.
Qed.

Lemma clear_bit f mask k : 0 <= k -> Z.testbit (clear f mask) k = Z.testbit f k && negb (Z.testbit mask k).
Proof. intros Hk. unfold clear. by rewrite Z.land_spec, Z.lnot_spec. Qed.

(** The masks of one bit; those that are numbers are recognised by computing. *)
Class OneBit (F : Z) : Prop := one_bit : 0 < F /\ 2 ^ Z.log2 F = F.
#[export] Instance OneBit_dec F : Decision (OneBit F).
Proof. unfold OneBit. apply _. Defined.
#[export] Hint Extern 0 (OneBit ?F) => (assert_fails (is_var F); apply (bool_decide_unpack _); vm_compute; exact I) : typeclass_instances.

Section one_bit.
Context (F : Z) `{OneBit F}.
Implicit Types a b : Z.

Lemma has_testbit a : has a F = Z.testbit a (Z.log2 F).
Proof. destruct H as [_ E]. rewrite <- E at 1. apply has_bit, Z.log2_nonneg. Qed.

Lemma has_union a b : has (Z.lor a b) F = has a F || has b F.
Proof. rewrite !has_testbit. by rewrite Z.lor_spec. Qed.

Lemma has_inter a b : has (Z.land a b) F = has a F && has b F.
Proof. rewrite !has_testbit. by rewrite Z.land_spec. Qed.

Lemma has_without a b : has (clear a b) F = has a F && negb (has b F).
Proof. rewrite !has_testbit. apply clear_bit, Z.log2_nonneg. Qed.

Lemma has_zero : has 0 F = false.
Proof. done. Qed.
End one_bit.

(** * Numbers as text

    [sprintf] of "%d" and [atoi] of the C library, for [int] of 32 bits: [strtol]
    clamps to a [long], of which [atoi] keeps the low half. *)

Definition s32 (z : Z) : Z := if decide (u32 z < 2 ^ 31) then u32 z else u32 z - 2 ^ 32.

Definition digit (d : Z) : ascii := to_char (48 + d).
Definition is_digit (c : ascii) : bool := bool_decide (48 <= uchar c <= 57).

Fixpoint dec_digits (fuel : nat) (n : Z) (acc : list ascii) : list ascii :=
  match fuel with
  | O => acc
  | S fuel =>
      let acc := digit (n mod 10) :: acc in
      if decide (n < 10) then acc else dec_digits fuel (n / 10) acc
  end.

Definition dec (n : Z) : list ascii :=
  if decide (n < 0) then "-"%char :: dec_digits 20 (- n) [] else dec_digits 20 n [].

Fixpoint atoi_digits (v : Z) (s : list ascii) : Z :=
  match s with
  | [] => v
  | c :: s => if is_digit c then atoi_digits (10 * v + (uchar c - 48)) s else v
  end.

Definition atoi_signed (s : list ascii) : Z :=
  match s with
  | c :: s' =>
      if decide (c = "-"%char) then - atoi_digits 0 s'
      else if decide (c = "+"%char) then atoi_digits 0 s' else atoi_digits 0 s
  | [] => 0
  end.

Fixpoint skip_spaces (s : list ascii) : list ascii :=
  match s with
  | c :: s' => if decide (c = " "%char \/ 9 <= uchar c <= 13) then skip_spaces s' else s
  | [] => []
  end.

Definition atoi (s : list ascii) : Z :=
  s32 (Z.max (- 2 ^ 63) (Z.min (2 ^ 63 - 1) (atoi_signed (skip_spaces s)))).

Section decimal.

Lemma digit_spec d : 0 <= d < 10 -> is_digit (digit d) = true /\ uchar (digit d) = 48 + d.
Proof.
  intros Hd. assert (uchar (digit d) = 48 + d) as E.
  { unfold digit, to_char, uchar. rewrite N_ascii_embedding; rewrite Z.mod_small by lia; lia. }
  split; [|done]. unfold is_digit. apply bool_decide_eq_true. lia.
Qed.

Lemma dec_digits_spec fuel n acc :
  0 <= n < 10 ^ Z.of_nat fuel -> (0 < fuel)%nat ->
  exists c ds, dec_digits fuel n acc = c :: ds ++ acc /\ Forall (fun d => is_digit d = true) (c :: ds) /\
    forall v r, atoi_digits v (c :: ds ++ r) = atoi_digits (v * 10 ^ Z.of_nat (S (length ds)) + n) r.
Proof.
  revert n acc. induction fuel as [|fuel IH]; intros n acc Hn Hf; [lia|]. cbn [dec_digits].
  destruct (digit_spec (n mod 10)) as [Hd Ev]; [by apply Z.mod_pos_bound|].
  destruct (decide (n < 10)) as [Hs|Hs].
  - exists (digit (n mod 10)), []. split_and!; [done|by constructor|]. intros v r. cbn [app atoi_digits length].
    rewrite Hd, Ev. f_equal. rewrite Z.mod_small by lia. lia.
  - destruct fuel as [|fuel]; [simpl in Hn; lia|].
    destruct (IH (n / 10) (digit (n mod 10) :: acc)) as (c&ds&->&Hds&Hv); [|lia|].
    { rewrite Nat2Z.inj_succ, Z.pow_succ_r in Hn by lia. split; [apply Z.div_pos; lia|apply Z.div_lt_upper_bound; lia]. }
    exists c, (ds ++ [digit (n mod 10)]). rewrite <- app_assoc. split_and!; [done| |].
    + apply Forall_cons. apply Forall_cons in Hds as [??]. split; [done|]. apply Forall_app. split; [done|by constructor].
    + intros v r. rewrite <- app_assoc. rewrite Hv. cbn [app atoi_digits]. rewrite Hd, Ev, length_app. cbn [length].
      f_equal. rewrite Nat.add_1_r, (Nat2Z.inj_succ (S _)), Z.pow_succ_r by lia. pose proof (Z.div_mod n 10). lia.
Qed.

Lemma is_digit_not c : is_digit c = true ->
  c <> " "%char /\ ~ 9 <= uchar c <= 13 /\ c <> "-"%char /\ c <> "+"%char /\ c <> NUL.
Proof.
  unfold is_digit. rewrite bool_decide_eq_true. intros H.
  split_and!; [intros ->; vm_compute in H; by destruct H|lia|intros ->; vm_compute in H; by destruct H..].
Qed.

Lemma dec_digit_text n : 0 <= n < 2 ^ 31 ->
  exists c ds, dec n = c :: ds /\ Forall (fun d => is_digit d = true) (dec n) /\ atoi (dec n) = n.
Proof.
  intros Hn. unfold dec. rewrite decide_False by lia.
  destruct (dec_digits_spec 20 n []) as (c&ds&->&Hds&Hv); [lia|lia|]. rewrite app_nil_r. exists c, ds. split_and!; [done..|].
  apply Forall_cons in Hds as [Hc _]. destruct (is_digit_not c Hc) as (H1&H2&H3&H4&_).
  unfold atoi. cbn [skip_spaces]. rewrite decide_False by tauto. cbn [atoi_signed].
  rewrite !decide_False by done. specialize (Hv 0 []). rewrite app_nil_r in Hv. rewrite Hv. cbn [atoi_digits].
  unfold s32, u32. rewrite Z.mul_0_l, Z.add_0_l, Z.min_r, Z.max_r, Z.mod_small by lia. by rewrite decide_True by lia.
Qed.

Lemma atoi_dec n : 0 <= n < 2 ^ 31 -> atoi (dec n) = n.
Proof. intros Hn. by destruct (dec_digit_text n Hn) as (?&?&_&_&?). Qed.

End decimal.
