(* ===== verification/Common.v ===== *)
(** Character tables and case-insensitive comparison: ircd/common.c and
    include/common.h.  The three tables are written out as the source has them
    (the CHAR_MIN < 0 layout, 0x80..0xff first); the table generator of the same
    file (makeTables, not compiled into the server) is modelled too, and
    [makeTables_reproduces_tables] checks the checked-in tables against it. *)

From S2P Require Import Prelude.

(** * Character classes (include/common.h) *)

Definition NTL_ALNUM : Z := 0x0001.
Definition NTL_ALPHA : Z := 0x0002.
Definition NTL_CNTRL : Z := 0x0004.
Definition NTL_DIGIT : Z := 0x0008.
Definition NTL_GRAPH : Z := 0x0010.
Definition NTL_LOWER : Z := 0x0020.
Definition NTL_PRINT : Z := 0x0040.
Definition NTL_PUNCT : Z := 0x0080.
Definition NTL_SPACE : Z := 0x0100.
Definition NTL_UPPER : Z := 0x0200.
Definition NTL_IRCCH : Z := 0x0400.
Definition NTL_IRCCL : Z := 0x0800.
Definition NTL_IRCNK : Z := 0x1000.
Definition NTL_IRCUI : Z := 0x2000.
Definition NTL_IRCHN : Z := 0x4000.
Definition NTL_IRCIP : Z := 0x8000.
Definition NTL_EOL : Z := 0x10000.

(** * The tables *)

Definition NTL_tolower_tab : list ascii := map ascii_of_N [
   0x80; 0x81; 0x82; 0x83; 0x84; 0x85; 0x86; 0x87;
   0x88; 0x89; 0x8a; 0x8b; 0x8c; 0x8d; 0x8e; 0x8f;
   0x90; 0x91; 0x92; 0x93; 0x94; 0x95; 0x96; 0x97;
   0x98; 0x99; 0x9a; 0x9b; 0x9c; 0x9d; 0x9e; 0x9f;
   0xa0; 0xa1; 0xa2; 0xa3; 0xa4; 0xa5; 0xa6; 0xa7;
   0xa8; 0xa9; 0xaa; 0xab; 0xac; 0xad; 0xae; 0xaf;
   0xb0; 0xb1; 0xb2; 0xb3; 0xb4; 0xb5; 0xb6; 0xb7;
   0xb8; 0xb9; 0xba; 0xbb; 0xbc; 0xbd; 0xbe; 0xbf;
   0xe0; 0xe1; 0xe2; 0xe3; 0xe4; 0xe5; 0xe6; 0xe7;
   0xe8; 0xe9; 0xea; 0xeb; 0xec; 0xed; 0xee; 0xef;
   0xd0; 0xf1; 0xf2; 0xf3; 0xf4; 0xf5; 0xf6; 0xd7;
   0xf8; 0xf9; 0xfa; 0xfb; 0xfc; 0xfd; 0xfe; 0xdf;
   0xe0; 0xe1; 0xe2; 0xe3; 0xe4; 0xe5; 0xe6; 0xe7;
   0xe8; 0xe9; 0xea; 0xeb; 0xec; 0xed; 0xee; 0xef;
   0xf0; 0xf1; 0xf2; 0xf3; 0xf4; 0xf5; 0xf6; 0xf7;
   0xf8; 0xf9; 0xfa; 0xfb; 0xfc; 0xfd; 0xfe; 0xff;
   0x00; 0x01; 0x02; 0x03; 0x04; 0x05; 0x06; 0x07;
   0x08; 0x09; 0x0a; 0x0b; 0x0c; 0x0d; 0x0e; 0x0f;
   0x10; 0x11; 0x12; 0x13; 0x14; 0x15; 0x16; 0x17;
   0x18; 0x19; 0x1a; 0x1b; 0x1c; 0x1d; 0x1e; 0x1f;
   0x20; 0x21; 0x22; 0x23; 0x24; 0x25; 0x26; 0x27;
   0x28; 0x29; 0x2a; 0x2b; 0x2c; 0x2d; 0x2e; 0x2f;
   0x30; 0x31; 0x32; 0x33; 0x34; 0x35; 0x36; 0x37;
   0x38; 0x39; 0x3a; 0x3b; 0x3c; 0x3d; 0x3e; 0x3f;
   0x40; 0x61; 0x62; 0x63; 0x64; 0x65; 0x66; 0x67;
   0x68; 0x69; 0x6a; 0x6b; 0x6c; 0x6d; 0x6e; 0x6f;
   0x70; 0x71; 0x72; 0x73; 0x74; 0x75; 0x76; 0x77;
   0x78; 0x79; 0x7a; 0x7b; 0x7c; 0x7d; 0x7e; 0x5f;
   0x60; 0x61; 0x62; 0x63; 0x64; 0x65; 0x66; 0x67;
   0x68; 0x69; 0x6a; 0x6b; 0x6c; 0x6d; 0x6e; 0x6f;
   0x70; 0x71; 0x72; 0x73; 0x74; 0x75; 0x76; 0x77;
   0x78; 0x79; 0x7a; 0x7b; 0x7c; 0x7d; 0x7e; 0x7f
  ]%N.

Definition NTL_toupper_tab : list ascii := map ascii_of_N [
   0x80; 0x81; 0x82; 0x83; 0x84; 0x85; 0x86; 0x87;
   0x88; 0x89; 0x8a; 0x8b; 0x8c; 0x8d; 0x8e; 0x8f;
   0x90; 0x91; 0x92; 0x93; 0x94; 0x95; 0x96; 0x97;
   0x98; 0x99; 0x9a; 0x9b; 0x9c; 0x9d; 0x9e; 0x9f;
   0xa0; 0xa1; 0xa2; 0xa3; 0xa4; 0xa5; 0xa6; 0xa7;
   0xa8; 0xa9; 0xaa; 0xab; 0xac; 0xad; 0xae; 0xaf;
   0xb0; 0xb1; 0xb2; 0xb3; 0xb4; 0xb5; 0xb6; 0xb7;
   0xb8; 0xb9; 0xba; 0xbb; 0xbc; 0xbd; 0xbe; 0xbf;
   0xc0; 0xc1; 0xc2; 0xc3; 0xc4; 0xc5; 0xc6; 0xc7;
   0xc8; 0xc9; 0xca; 0xcb; 0xcc; 0xcd; 0xce; 0xcf;
   0xd0; 0xd1; 0xd2; 0xd3; 0xd4; 0xd5; 0xd6; 0xd7;
   0xd8; 0xd9; 0xda; 0xdb; 0xdc; 0xdd; 0xde; 0xdf;
   0xc0; 0xc1; 0xc2; 0xc3; 0xc4; 0xc5; 0xc6; 0xc7;
   0xc8; 0xc9; 0xca; 0xcb; 0xcc; 0xcd; 0xce; 0xcf;
   0xf0; 0xd1; 0xd2; 0xd3; 0xd4; 0xd5; 0xd6; 0xf7;
   0xd8; 0xd9; 0xda; 0xdb; 0xdc; 0xdd; 0xde; 0xff;
   0x00; 0x01; 0x02; 0x03; 0x04; 0x05; 0x06; 0x07;
   0x08; 0x09; 0x0a; 0x0b; 0x0c; 0x0d; 0x0e; 0x0f;
   0x10; 0x11; 0x12; 0x13; 0x14; 0x15; 0x16; 0x17;
   0x18; 0x19; 0x1a; 0x1b; 0x1c; 0x1d; 0x1e; 0x1f;
   0x20; 0x21; 0x22; 0x23; 0x24; 0x25; 0x26; 0x27;
   0x28; 0x29; 0x2a; 0x2b; 0x2c; 0x2d; 0x2e; 0x2f;
   0x30; 0x31; 0x32; 0x33; 0x34; 0x35; 0x36; 0x37;
   0x38; 0x39; 0x3a; 0x3b; 0x3c; 0x3d; 0x3e; 0x3f;
   0x40; 0x41; 0x42; 0x43; 0x44; 0x45; 0x46; 0x47;
   0x48; 0x49; 0x4a; 0x4b; 0x4c; 0x4d; 0x4e; 0x4f;
   0x50; 0x51; 0x52; 0x53; 0x54; 0x55; 0x56; 0x57;
   0x58; 0x59; 0x5a; 0x5b; 0x5c; 0x5d; 0x5e; 0x5f;
   0x60; 0x41; 0x42; 0x43; 0x44; 0x45; 0x46; 0x47;
   0x48; 0x49; 0x4a; 0x4b; 0x4c; 0x4d; 0x4e; 0x4f;
   0x50; 0x51; 0x52; 0x53; 0x54; 0x55; 0x56; 0x57;
   0x58; 0x59; 0x5a; 0x5b; 0x5c; 0x5d; 0x5e; 0x7f
  ]%N.

Definition NTL_char_attrib : list Z := [
   0x0400; 0x0400; 0x0400; 0x0400; 0x0400; 0x0400; 0x0400; 0x0400;
   0x0400; 0x0400; 0x0400; 0x0400; 0x0400; 0x0400; 0x0400; 0x0400;
   0x0400; 0x0400; 0x0400; 0x0400; 0x0400; 0x0400; 0x0400; 0x0400;
   0x0400; 0x0400; 0x0400; 0x0400; 0x0400; 0x0400; 0x0400; 0x0400;
   0x0000; 0x0400; 0x0400; 0x0400; 0x0400; 0x0400; 0x0400; 0x0400;
   0x0400; 0x0400; 0x0400; 0x0400; 0x0400; 0x0400; 0x0400; 0x0400;
   0x0400; 0x0400; 0x0400; 0x0400; 0x0400; 0x0400; 0x0400; 0x0400;
   0x0400; 0x0400; 0x0400; 0x0400; 0x0400; 0x0400; 0x0400; 0x0400;
   0x2c00; 0x2c00; 0x2c00; 0x2c00; 0x2c00; 0x2c00; 0x2c00; 0x2c00;
   0x2c00; 0x2c00; 0x2c00; 0x2c00; 0x2c00; 0x2c00; 0x2c00; 0x2c00;
   0x2c00; 0x2c00; 0x2c00; 0x2c00; 0x2c00; 0x2c00; 0x2c00; 0x0400;
   0x2c00; 0x2c00; 0x2c00; 0x2c00; 0x2c00; 0x2c00; 0x2c00; 0x0400;
   0x2400; 0x2400; 0x2400; 0x2400; 0x2400; 0x2400; 0x2400; 0x2400;
   0x2400; 0x2400; 0x2400; 0x2400; 0x2400; 0x2400; 0x2400; 0x2400;
   0x2400; 0x2400; 0x2400; 0x2400; 0x2400; 0x2400; 0x2400; 0x0400;
   0x2400; 0x2400; 0x2400; 0x2400; 0x2400; 0x2400; 0x2400; 0x0400;
   0x0404; 0x0404; 0x0404; 0x0404; 0x0404; 0x0404; 0x0404; 0x0004;
   0x0404; 0x0504; 0x10504; 0x0504; 0x0504; 0x10504; 0x0404; 0x0404;
   0x0404; 0x0404; 0x0404; 0x0404; 0x0404; 0x0404; 0x0404; 0x0404;
   0x0404; 0x0404; 0x0404; 0x0404; 0x0404; 0x0404; 0x0404; 0x0404;
   0x0140; 0x04d0; 0x04d0; 0x04d0; 0x04d0; 0x04d0; 0x04d0; 0x24d0;
   0x04d0; 0x04d0; 0x04d0; 0x04d0; 0x00d0; 0x874d0; 0xe4d0; 0x04d0;
   0x8f459; 0x8f459; 0x8f459; 0x8f459; 0x8f459; 0x8f459; 0x8f459; 0x8f459;
   0x8f459; 0x8f459; 0x04d0; 0x04d0; 0x04d0; 0x04d0; 0x04d0; 0x04d0;
   0x04d0; 0xc7653; 0xc7653; 0xc7653; 0xc7653; 0xc7653; 0xc7653; 0xc7653;
   0xc7653; 0xc7653; 0xc7653; 0xc7653; 0xc7653; 0xc7653; 0xc7653; 0xc7653;
   0xc7653; 0xc7653; 0xc7653; 0xc7653; 0xc7653; 0xc7653; 0xc7653; 0xc7653;
   0xc7653; 0xc7653; 0xc7653; 0x7653; 0x7653; 0x7653; 0x7653; 0x874d0;
   0x34d0; 0xa7473; 0xa7473; 0xa7473; 0xa7473; 0xa7473; 0xa7473; 0xa7473;
   0xa7473; 0xa7473; 0xa7473; 0xa7473; 0xa7473; 0xa7473; 0xa7473; 0xa7473;
   0xa7473; 0xa7473; 0xa7473; 0xa7473; 0xa7473; 0xa7473; 0xa7473; 0xa7473;
   0xa7473; 0xa7473; 0xa7473; 0x7473; 0x7473; 0x7473; 0x7473; 0x0400
  ].

(** [tab[c - CHAR_MIN]]. *)
Definition tab_index (c : ascii) : nat := Z.to_nat (schar c - CHAR_MIN).

Definition toLower (c : ascii) : ascii := nth (tab_index c) NTL_tolower_tab NUL.
Definition toUpper (c : ascii) : ascii := nth (tab_index c) NTL_toupper_tab NUL.

Definition char_attrib (c : ascii) : Z := nth (tab_index c) NTL_char_attrib 0.
Definition has_attrib (macro : Z) (c : ascii) : bool :=
  bool_decide (Z.land (char_attrib c) macro <> 0).

Definition isAlnum := has_attrib NTL_ALNUM.
Definition isAlpha := has_attrib NTL_ALPHA.
Definition isDigit := has_attrib NTL_DIGIT.
Definition isSpace := has_attrib NTL_SPACE.
Definition isIrcCh := has_attrib NTL_IRCCH.
Definition isIrcNk := has_attrib NTL_IRCNK.
Definition isIrcHn := has_attrib NTL_IRCHN.
Definition isEol := has_attrib NTL_EOL.

#[global] Arguments toLower : simpl never.
#[global] Arguments toUpper : simpl never.
#[global] Arguments has_attrib : simpl never.
#[global] Arguments char_attrib : simpl never.

(** * Comparison of strings up to case *)

Fixpoint strCasecmp (a b : cstring) : Z :=
  if decide (toLower (chr a) = toLower (chr b)) then
    match a with
    | [] => 0
    | _ :: ra => strCasecmp ra (adv b)
    end
  else schar (chr a) - schar (chr b).

Fixpoint strCasediff (a b : cstring) : Z :=
  if decide (toLower (chr a) = toLower (chr b)) then
    match a with
    | [] => 0
    | _ :: ra => strCasediff ra (adv b)
    end
  else 1.

Fixpoint strnCasecmp_loop (a b : cstring) (left_ : nat) : Z :=
  if decide (toLower (chr a) = toLower (chr b)) then
    match a, left_ with
    | [], _ => 0
    | _, O => 0
    | _ :: ra, S left_ => strnCasecmp_loop ra (adv b) left_
    end
  else schar (chr a) - schar (chr b).

Definition strnCasecmp (a b : cstring) (n : nat) : Z :=
  match n with
  | O => 0
  | S left_ => strnCasecmp_loop a b left_
  end.

Definition strChattr (s : cstring) : Z :=
  fold_left (fun x c => Z.land x (char_attrib c)) s (Z.lnot 0).

Definition strnChattr (s : cstring) (n : nat) : Z := strChattr (take n s).

(** * The table generator *)

Module MakeTables.

Record tables := Tables {
  tolower : list ascii;
  toupper : list ascii;
  attrib : list Z
}.

(** [for (i = CHAR_MIN; i <= CHAR_MAX; i++)] *)
Definition char_loop : list Z := seqZ CHAR_MIN (CHAR_MAX - CHAR_MIN + 1).

Definition index (i : Z) : nat := Z.to_nat (i - CHAR_MIN).

Definition with_attrib (f : list Z -> list Z) (t : tables) : tables :=
  Tables (tolower t) (toupper t) (f (attrib t)).

Definition zeroTables : tables :=
  Tables (map to_char char_loop) (map to_char char_loop) (map (fun _ => 0) char_loop).

Definition markString (macro : Z) (s : list ascii) : tables -> tables :=
  with_attrib (fun a => fold_left
    (fun a c => alter (fun x => Z.lor x macro) (tab_index c) a) s a).

Definition unMarkString (macro : Z) (s : list ascii) : tables -> tables :=
  with_attrib (fun a => fold_left
    (fun a c => alter (fun x => Z.land x (Z.lnot macro)) (tab_index c) a) s a).

Definition markRange (macro : Z) (from to : ascii) : tables -> tables :=
  with_attrib (fun a => fold_left
    (fun a i =>
       if decide (uchar (to_char i) >= uchar from /\ uchar (to_char i) <= uchar to)
       then alter (fun x => Z.lor x macro) (tab_index (to_char i)) a else a)
    char_loop a).

Definition moveMacro (from to : Z) : tables -> tables :=
  with_attrib (fun a => fold_left
    (fun a i => alter (fun x => if decide (Z.land x from <> 0) then Z.lor x to else x)
                  (index i) a)
    char_loop a).

Definition setLowHi (firstlow lastlow firsthi : ascii) (t : tables) : tables :=
  fold_left (fun t i =>
    if decide (uchar (to_char i) >= uchar firstlow /\ uchar (to_char i) <= uchar lastlow)
    then
      let j := schar (to_char (i + (schar firsthi - schar firstlow))) in
      Tables (<[tab_index (to_char j) := to_char i]> (tolower t))
        (<[tab_index (to_char i) := to_char j]> (toupper t)) (attrib t)
    else t) char_loop t.

(** The calls of makeTables, in order (FIXME is not defined). *)
Definition makeTables_sets : list (tables -> tables) :=
  [ markRange NTL_LOWER "a" "z"; markString NTL_LOWER (str "{|}~");
    markRange NTL_UPPER "A" "Z"; markString NTL_UPPER (str "[\]^");
    markRange NTL_DIGIT "0" "9";
    markRange NTL_CNTRL (to_char 0) (to_char 31);
    markString NTL_PUNCT ("!"%char :: to_char 34 :: str "#$%&'()*+,-./:;<=>?@_`");
    markString NTL_SPACE (map to_char [9; 10; 11; 12; 13; 32]);
    moveMacro (Z.lor NTL_LOWER NTL_UPPER) NTL_ALPHA;
    moveMacro (Z.lor NTL_ALPHA NTL_DIGIT) NTL_ALNUM;
    moveMacro (Z.lor NTL_ALNUM NTL_PUNCT) NTL_GRAPH;
    moveMacro NTL_GRAPH NTL_PRINT;
    markString NTL_PRINT (str " ");
    markRange NTL_IRCCH (to_char 0) (to_char UCHAR_MAX);
    unMarkString NTL_IRCCH (map to_char [7; 32; 44; 160]);
    markRange NTL_IRCCL (to_char 0xc0) (to_char 0xd6);
    markRange NTL_IRCCL (to_char 0xd8) (to_char 0xde);
    moveMacro NTL_ALNUM NTL_IRCHN;
    markString NTL_IRCHN (str "-_.");
    moveMacro NTL_DIGIT NTL_IRCIP;
    markString NTL_IRCIP (str ".");
    moveMacro (Z.lor NTL_DIGIT NTL_ALPHA) NTL_IRCNK;
    markString NTL_IRCNK (str "-_`");
    moveMacro NTL_ALNUM NTL_IRCUI;
    markRange NTL_IRCUI (to_char 0xe0) (to_char 0xf6);
    markRange NTL_IRCUI (to_char 0xf8) (to_char 0xfe);
    markRange NTL_IRCUI (to_char 0xc0) (to_char 0xd6);
    markRange NTL_IRCUI (to_char 0xd8) (to_char 0xde);
    markString NTL_IRCUI (str ".-_^'`~");
    markString NTL_EOL (map to_char [10; 13]);
    setLowHi "a" "z" "A";
    setLowHi (to_char 0xe0) (to_char 0xf6) (to_char 0xc0);
    setLowHi (to_char 0xf8) (to_char 0xfe) (to_char 0xd8);
    setLowHi "{" "~" "[";
    setLowHi (to_char 0xd0) (to_char 0xd0) (to_char 0xd0);
    setLowHi (to_char 0xf0) (to_char 0xf0) (to_char 0xf0) ].

Definition makeTables : tables :=
  fold_left (fun t f => f t) makeTables_sets zeroTables.

End MakeTables.

(** * Properties *)

(** Every class bit that include/common.h names. *)
Definition NTL_classes : Z := fold_right Z.lor 0
  [NTL_ALNUM; NTL_ALPHA; NTL_CNTRL; NTL_DIGIT; NTL_GRAPH; NTL_LOWER; NTL_PRINT;
   NTL_PUNCT; NTL_SPACE; NTL_UPPER; NTL_IRCCH; NTL_IRCCL; NTL_IRCNK; NTL_IRCUI;
   NTL_IRCHN; NTL_IRCIP; NTL_EOL].

(** The checked-in tables are those that the generator of the same file
    writes: both case tables are reproduced exactly, and the attribute table
    agrees with the generated one on every character class of common.h. *)
Theorem makeTables_reproduces_tables :
  MakeTables.tolower MakeTables.makeTables = NTL_tolower_tab /\
  MakeTables.toupper MakeTables.makeTables = NTL_toupper_tab /\
  map (Z.land NTL_classes) (MakeTables.attrib MakeTables.makeTables) =
  map (Z.land NTL_classes) NTL_char_attrib.
Proof. vm_compute. auto. Qed.

(** The attribute table was nevertheless edited by hand: letters, digits, '-'
    and '_' carry bits above NTL_EOL that no class names and the generator does
    not write. *)
Theorem char_attrib_edited_by_hand :
  MakeTables.attrib MakeTables.makeTables <> NTL_char_attrib /\
  Z.ldiff (char_attrib "a") NTL_classes = 0xa0000 /\
  Z.ldiff (char_attrib "A") NTL_classes = 0xc0000 /\
  Z.ldiff (char_attrib "0") NTL_classes = 0x80000.
Proof. by vm_compute. Qed.

Lemma toLower_NUL c : toLower c = NUL <-> c = NUL.
Proof.
  revert c. apply (forall_ascii_dec (fun c => toLower c = NUL <-> c = NUL)).
  vm_compute. reflexivity.
Qed.

Lemma toLower_eq_NUL c : toLower c = toLower NUL -> c = NUL.
Proof. apply toLower_NUL. Qed.

Lemma toLower_idem c : toLower (toLower c) = toLower c.
Proof.
  revert c. apply (forall_ascii_dec (fun c => toLower (toLower c) = toLower c)).
  vm_compute. reflexivity.
Qed.

(** Two strings are the same name when they agree up to case. *)
Definition case_equiv (a b : cstring) : Prop := map toLower a = map toLower b.

#[export] Instance case_equiv_equivalence : Equivalence case_equiv.
Proof. split; unfold case_equiv; congruence. Qed.

#[export] Instance case_equiv_dec a b : Decision (case_equiv a b).
Proof. unfold case_equiv. apply _. Defined.

#[export] Instance cons_case_equiv c : Proper (case_equiv ==> case_equiv) (cons c).
Proof. unfold case_equiv. intros a b H. simpl. congruence. Qed.

#[export] Instance app_case_equiv : Proper (case_equiv ==> case_equiv ==> case_equiv) app.
Proof. unfold case_equiv. intros a b H a' b' H'. rewrite !map_app. congruence. Qed.

Lemma case_equiv_cons a b s t :
  case_equiv (a :: s) (b :: t) <-> toLower a = toLower b /\ case_equiv s t.
Proof. unfold case_equiv. simpl. split; [by intros [= ? ?]|by intros [-> ->]]. Qed.

Lemma case_equiv_length s t : case_equiv s t -> length s = length t.
Proof. unfold case_equiv. intros H. by rewrite <- (length_map toLower s), H, length_map. Qed.

(** Facts about the head characters that the comparison loops test. *)
Lemma toLower_chr_nil b :
  is_cstr b -> toLower NUL = toLower (chr b) <-> b = [].
Proof.
  intros Hb. split; [|by intros ->].
  intros H. apply chr_nul; [done|]. apply toLower_NUL. by rewrite <- H.
Qed.

Lemma toLower_nil_chr a :
  is_cstr a -> toLower (chr a) = toLower NUL <-> a = [].
Proof. intros Ha. rewrite <- toLower_chr_nil by done. naive_solver. Qed.

Lemma chr_diff_nonzero a b :
  toLower (chr a) <> toLower (chr b) -> schar (chr a) - schar (chr b) <> 0.
Proof. intros H H0. apply H. f_equal. apply schar_inj. lia. Qed.

Lemma strCasediff_equiv a b :
  is_cstr a -> is_cstr b ->
  strCasediff a b = if decide (case_equiv a b) then 0 else 1.
Proof.
  intros Ha. revert b. induction a as [|c a IH]; intros b Hb; simpl.
  - destruct (decide (_ = _)) as [E|E], (decide _) as [E'|E']; try done.
    + apply toLower_chr_nil in E; [|done]. subst. by destruct E'.
    + destruct b; [done|]. apply case_equiv_length in E'. done.
  - apply is_cstr_cons in Ha as [Hc Ha].
    destruct (decide (_ = _)) as [E|E].
    + destruct b as [|d b]; simpl in *.
      { by apply toLower_eq_NUL in E. }
      rewrite IH by (eauto with ircd).
      apply decide_ext. rewrite case_equiv_cons. naive_solver.
    + rewrite decide_False; [done|]. intros He.
      destruct b as [|d b]; [by apply case_equiv_length in He|].
      apply case_equiv_cons in He as [? _]. done.
Qed.

Lemma strCasecmp_spec a b :
  is_cstr a -> is_cstr b -> strCasecmp a b = 0 <-> case_equiv a b.
Proof.
  intros Ha. revert b. induction a as [|c a IH]; intros b Hb; simpl.
  - destruct (decide (_ = _)) as [E|E].
    + apply toLower_chr_nil in E; [|done]. by subst.
    + split; [intros; by destruct (chr_diff_nonzero [] b E)|].
      destruct b; [done|]. by intros ?%case_equiv_length.
  - apply is_cstr_cons in Ha as [Hc Ha].
    destruct (decide (_ = _)) as [E|E].
    + destruct b as [|d b]; simpl in *; [by apply toLower_eq_NUL in E|].
      rewrite IH by (eauto with ircd).
      rewrite case_equiv_cons. naive_solver.
    + split; [intros; by destruct (chr_diff_nonzero (c :: a) b E)|].
      destruct b as [|d b]; [by intros ?%case_equiv_length|].
      by intros [? _]%case_equiv_cons.
Qed.

(** strCasediff() tells exactly whether two names are the same up to case,
    and agrees with strCasecmp(), which orders them. *)
Theorem strCasediff_spec a b :
  is_cstr a -> is_cstr b ->
  strCasediff a b = (if decide (case_equiv a b) then 0 else 1) /\
  (strCasediff a b = 0 <-> strCasecmp a b = 0).
Proof.
  intros Ha Hb. rewrite strCasediff_equiv, strCasecmp_spec by done.
  split; [done|]. by destruct (decide (case_equiv a b)).
Qed.

(** Witness of [strCasediff_spec]. *)
Lemma strCasediff_spec_witness :
  strCasediff (str "NiCk[]") (str "nIcK{}") =
    (if decide (case_equiv (str "NiCk[]") (str "nIcK{}")) then 0 else 1) /\
  (strCasediff (str "NiCk[]") (str "nIcK{}") = 0 <-> strCasecmp (str "NiCk[]") (str "nIcK{}") = 0).
Proof. apply strCasediff_spec; apply (bool_decide_unpack _); vm_compute; exact I. Defined.

Lemma strCasediff_0 a b : is_cstr a -> is_cstr b -> strCasediff a b = 0 <-> case_equiv a b.
Proof. intros. rewrite strCasediff_equiv by done. by destruct (decide (case_equiv a b)). Qed.

Lemma strnCasecmp_loop_spec a b n :
  is_cstr a -> is_cstr b ->
  strnCasecmp_loop a b n = 0 <-> case_equiv (take (S n) a) (take (S n) b).
Proof.
  intros Ha. revert b n. induction a as [|c a IH]; intros b n Hb; simpl.
  - destruct (decide (_ = _)) as [E|E].
    + apply toLower_chr_nil in E; [|done]. by subst.
    + split; [intros; by destruct (chr_diff_nonzero [] b E)|].
      destruct b; [done|]. by intros ?%case_equiv_length.
  - apply is_cstr_cons in Ha as [Hc Ha].
    destruct (decide (_ = _)) as [E|E].
    + destruct b as [|d b]; simpl in *; [by apply toLower_eq_NUL in E|].
      rewrite case_equiv_cons.
      destruct n as [|n]; [naive_solver|].
      rewrite IH by (eauto with ircd). naive_solver.
    + split; [intros; by destruct (chr_diff_nonzero (c :: a) b E)|].
      destruct b as [|d b]; [by intros ?%case_equiv_length|].
      by intros [? _]%case_equiv_cons.
Qed.

Lemma strnCasecmp_spec a b n :
  is_cstr a -> is_cstr b ->
  strnCasecmp a b n = 0 <-> case_equiv (take n a) (take n b).
Proof.
  intros Ha Hb. destruct n as [|n]; [done|]. by apply strnCasecmp_loop_spec.
Qed.
