(* ===== verification/Match.v ===== *)
(** Wildcard masks: match, match_case and collapse of ircd/match.c.

    [match_gen] is the common text of match() and match_case(), which differ
    only in the folding of characters (toLower, or none).  The mask is only
    read up to its terminator and is a [cstring]; the string argument is read
    through [deref], because the search loop after a star can run past the
    terminator.  The specification is [glob], the usual meaning of the mask
    as a sequence of tokens. *)

From S2P Require Import Prelude Common.

(** * Masks as token sequences: the specification *)

Inductive token := Star | Any | Lit (c : ascii).

#[export] Instance token_eq_dec : EqDecision token.
Proof. solve_decision. Defined.

Definition is_wild (c : ascii) : Prop := c = "*"%char \/ c = "?"%char.
#[export] Instance is_wild_dec c : Decision (is_wild c).
Proof. unfold is_wild. apply _. Defined.

(** Does a mask start with an escaped wildcard? *)
Definition escaped (m : cstring) : Prop :=
  chr m = "\"%char /\ is_wild (chr (adv m)).
#[export] Instance escaped_dec m : Decision (escaped m).
Proof. unfold escaped. apply _. Defined.

(** The tokens of a mask: a backslash escapes a wildcard and stands for
    itself elsewhere. *)
Fixpoint tokens (m : cstring) : list token :=
  match m with
  | [] => []
  | c :: m' =>
      if decide (c = "*"%char) then Star :: tokens m'
      else if decide (c = "?"%char) then Any :: tokens m'
      else match m' with
           | d :: m'' =>
               if decide (c = "\"%char /\ is_wild d) then Lit d :: tokens m''
               else Lit c :: tokens m'
           | [] => [Lit c]
           end
  end.

(** The strings a token sequence stands for, up to the folding [fold]. *)
Inductive glob (fold : ascii -> ascii) : list token -> list ascii -> Prop :=
  | glob_nil : glob fold [] []
  | glob_lit c a ts s :
      fold a = fold c -> glob fold ts s -> glob fold (Lit c :: ts) (a :: s)
  | glob_any a ts s : glob fold ts s -> glob fold (Any :: ts) (a :: s)
  | glob_star_nil ts s : glob fold ts s -> glob fold (Star :: ts) s
  | glob_star_cons a ts s :
      glob fold (Star :: ts) s -> glob fold (Star :: ts) (a :: s).
#[export] Hint Constructors glob : ircd.

#[export] Instance glob_dec fold ts s : Decision (glob fold ts s).
Proof.
  revert s. induction ts as [|[| |c] ts IH]; intros s.
  - destruct s; [left; constructor|right; by inversion 1].
  - induction s as [|a s IHs].
    + destruct (IH []); [left; by constructor|right; by inversion 1].
    + destruct (IH (a :: s)); [left; by constructor|].
      destruct IHs; [left; by constructor|right; by inversion 1].
  - destruct s as [|a s]; [right; by inversion 1|].
    destruct (IH s); [left; by constructor|right; by inversion 1].
  - destruct s as [|a s]; [right; by inversion 1|].
    destruct (decide (fold a = fold c)); [|right; by inversion 1].
    destruct (IH s); [left; by constructor|right; by inversion 1].
Defined.

(** * match() and match_case() *)

Section match_gen.

Variable fold : ascii -> ascii.

(** Where control goes after a run of the mask: to the caller with a value,
    to got_star with the pointers [m] and [s], or back to the last try. *)
Inductive control :=
  | Return (r : Z)
  | GotStar (m : cstring) (s : list ascii)
  | Rollback.

(** One literal character of the mask and the rest, the escape resolved:
    [case '\\': if ( *m == '?' || *m == '*') ch = *m++]. *)
Definition unescape (ch : ascii) (m : cstring) : ascii * cstring :=
  if decide (ch = "\"%char /\ is_wild (chr m)) then (chr m, adv m) else (ch, m).

(** The head of the mask, up to its first star or its end. *)
Fixpoint match_head (m : cstring) (s : list ascii) : result control :=
  match m with
  | [] => c ← deref s; Ok (Return (schar c))
  | ch :: m' =>
      if decide (ch = "*"%char) then Ok (GotStar m' s)
      else if decide (ch = "?"%char) then
        c ← deref s;
        if decide (c = NUL) then Ok (Return 1) else match_head m' (tl s)
      else
        let lit ch k :=
          c ← deref s;
          if decide (fold c <> fold ch) then Ok (Return 1)
          else if decide (c = NUL) then Ok (Return 1) else k (tl s) in
        match m' with
        | d :: m'' =>
            if decide (ch = "\"%char /\ is_wild d)
            then lit d (match_head m'') else lit ch (match_head m')
        | [] => lit ch (match_head m')
        end
  end.

(** After a star: the run of further stars and question marks.  The result is
    the character to seek, the mask after it, the rollback point and the
    string pointer. *)
Inductive skipped :=
  | SkipReturn (r : Z)
  | SkipLit (ch : ascii) (m bm : cstring) (s : list ascii).

Fixpoint star_skip (m bm : cstring) (s : list ascii) : result skipped :=
  match m with
  | [] => Ok (SkipReturn 0)
  | ch :: m' =>
      if decide (ch = "?"%char) then
        c ← deref s;
        if decide (c = NUL) then Ok (SkipReturn 1) else star_skip m' m' (tl s)
      else if decide (ch = "*"%char) then star_skip m' m' s
      else let '(ch, m'') := unescape ch m' in Ok (SkipLit ch m'' bm s)
  end.

(** [while (fold( *s++) != ch) if (!*s) return 1;] *)
Fixpoint seek (ch : ascii) (s : list ascii) : result (option (list ascii)) :=
  match s with
  | [] => Ub
  | c :: s' =>
      if decide (fold c = ch) then Ok (Some s')
      else d ← deref s'; if decide (d = NUL) then Ok None else seek ch s'
  end.

(** The rest of a chunk, up to the next star or the end of the mask. *)
Fixpoint match_chunk (m : cstring) (s : list ascii) : result control :=
  match m with
  | [] => c ← deref s; if decide (c = NUL) then Ok (Return 0) else Ok Rollback
  | ch :: m' =>
      if decide (ch = "*"%char) then Ok (GotStar m' s)
      else if decide (ch = "?"%char) then
        c ← deref s;
        if decide (c = NUL) then Ok (Return 1) else match_chunk m' (tl s)
      else
        let lit ch k :=
          c ← deref s;
          if decide (fold c <> fold ch) then Ok Rollback
          else if decide (c = NUL) then Ok (Return 1) else k (tl s) in
        match m' with
        | d :: m'' =>
            if decide (ch = "\"%char /\ is_wild d)
            then lit d (match_chunk m'') else lit ch (match_chunk m')
        | [] => lit ch (match_chunk m')
        end
  end.

(** The got_star label: skip, seek, compare a chunk, and start again either at
    the next star or one character further. *)
Fixpoint got_star (fuel : nat) (m : cstring) (s : list ascii) : result Z :=
  match fuel with
  | O => Fuel
  | S fuel =>
      k ← star_skip m m s;
      match k with
      | SkipReturn r => Ok r
      | SkipLit ch m' bm s' =>
          o ← seek (fold ch) s';
          match o with
          | None => Ok 1
          | Some bs =>
              k ← match_chunk m' bs;
              match k with
              | Return r => Ok r
              | GotStar m'' s'' => got_star fuel m'' s''
              | Rollback => got_star fuel bm bs
              end
          end
      end
  end.

Definition match_gen (mask : cstring) (string : list ascii) : result Z :=
  k ← match_head mask string;
  match k with
  | Return r => Ok r
  | GotStar m s => got_star (S (length m + length s)) m s
  | Rollback => Ub
  end.

End match_gen.

(** [match] is a keyword of the logic, hence the underscore. *)
Definition match_ : cstring -> list ascii -> result Z := match_gen toLower.
Definition match_case : cstring -> list ascii -> result Z := match_gen (fun c => c).

(** * collapse()

    The function rewrites the mask in place: [b] writes behind [m], which reads.
    The buffer is modelled with both indices; [collapse_go] is the stream it
    produces. *)

(** [if (star && ( *m != '?')) { *b++ = '*'; star = 0; }] *)
Definition pack_star (mem : list ascii) (b m : nat) (star : bool)
    : result (list ascii * nat * bool) :=
  c ← rd mem m;
  if decide (star = true /\ c <> "?"%char) then
    mem ← wr mem b "*"%char; Ok (mem, S b, false)
  else Ok (mem, b, star).

(** [*m == '\\' && (m[1] == '*' || m[1] == '?')] *)
Definition rd_escaped (mem : list ascii) (m : nat) : result bool :=
  c ← rd mem m;
  if decide (c = "\"%char) then d ← rd mem (S m); Ok (bool_decide (is_wild d)) else Ok false.

(** [*b++ = *m; if (escaped) *b++ = *++m;] *)
Definition pack_copy (mem : list ascii) (b m : nat) : result (list ascii * nat * nat) :=
  c ← rd mem m;
  mem ← wr mem b c;
  esc ← rd_escaped mem m;
  if esc : bool then d ← rd mem (S m); mem ← wr mem (S b) d; Ok (mem, S (S b), S m)
  else Ok (mem, S b, m).

(** The second loop, entered at the first star that a wildcard follows. *)
Fixpoint collapse_pack (fuel : nat) (mem : list ascii) (b m : nat) (star : bool)
    : result (list ascii) :=
  match fuel with
  | O => Fuel
  | S fuel =>
      c ← rd mem m;
      '(mem, b, m, star) ← (
        if decide (c = "*"%char) then Ok (mem, b, m, true)
        else
          '(mem, b, star) ← pack_star mem b m star;
          '(mem, b, m) ← pack_copy mem b m;
          Ok (mem, b, m, star));
      c ← rd mem m;
      if decide (c = NUL) then Ok mem else collapse_pack fuel mem b (S m) star
  end.

(** The first loop, which looks for a star that a wildcard follows. *)
Fixpoint collapse_scan (fuel : nat) (mem : list ascii) (m : nat) : result (list ascii) :=
  match fuel with
  | O => Fuel
  | S fuel =>
      c ← rd mem m;
      run ← (if decide (c = "*"%char) then d ← rd mem (S m); Ok (bool_decide (is_wild d))
             else Ok false);
      if run : bool then collapse_pack (length mem) mem m m false
      else
        esc ← rd_escaped mem m;
        let m := if esc : bool then S m else m in
        c ← rd mem m;
        if decide (c = NUL) then Ok mem else collapse_scan fuel mem (S m)
  end.

(** [None] is the null pointer. *)
Definition collapse (mask : option (list ascii)) : result (option (list ascii)) :=
  match mask with
  | None => Ok None
  | Some mem => mem ← collapse_scan (length mem) mem 0; Ok (Some mem)
  end.

(** The reduced mask as a function of the mask. *)
Fixpoint collapse_go (star : bool) (m : cstring) : cstring :=
  let pending := if star then ["*"%char] else [] in
  match m with
  | [] => pending
  | c :: m' =>
      if decide (c = "*"%char) then collapse_go true m'
      else if decide (c = "?"%char) then c :: collapse_go star m'
      else match m' with
           | d :: m'' =>
               if decide (c = "\"%char /\ is_wild d)
               then pending ++ c :: d :: collapse_go false m''
               else pending ++ c :: collapse_go false m'
           | [] => pending ++ [c]
           end
  end.

(** * The token view of a mask *)

(** One case per kind of token; [mask_view_tokens] makes it an induction
    principle for the functions that walk a mask. *)
Inductive mask_view : cstring -> list token -> Prop :=
  | mv_nil : mask_view [] []
  | mv_star m ts : mask_view m ts -> mask_view ("*"%char :: m) (Star :: ts)
  | mv_any m ts : mask_view m ts -> mask_view ("?"%char :: m) (Any :: ts)
  | mv_esc d m ts :
      is_wild d -> mask_view m ts -> mask_view ("\"%char :: d :: m) (Lit d :: ts)
  | mv_lit c m ts :
      ~ is_wild c -> ~ (c = "\"%char /\ is_wild (chr m)) ->
      mask_view m ts -> mask_view (c :: m) (Lit c :: ts).

Lemma not_wild_NUL : ~ is_wild NUL.
Proof. by intros [?|?]. Qed.

Lemma wild_not_NUL d : is_wild d -> d <> NUL.
Proof. by intros [->| ->]. Qed.

Lemma not_is_wild c : ~ is_wild c <-> c <> "*"%char /\ c <> "?"%char.
Proof. unfold is_wild. tauto. Qed.

Lemma tokens_lit c m :
  ~ is_wild c -> ~ (c = "\"%char /\ is_wild (chr m)) ->
  tokens (c :: m) = Lit c :: tokens m.
Proof.
  intros [Hs Hq]%not_is_wild He. simpl. rewrite !decide_False by done.
  destruct m as [|d m]; [done|]. by rewrite decide_False.
Qed.

Lemma tokens_esc d m : is_wild d -> tokens ("\"%char :: d :: m) = Lit d :: tokens m.
Proof. intros Hd. simpl. by rewrite decide_True. Qed.

Lemma mask_view_tokens m : mask_view m (tokens m).
Proof.
  remember (length m) as n eqn:Hn. revert m Hn.
  induction (lt_wf n) as [n _ IH]. intros [|c m] ->; [constructor|].
  destruct (decide (c = "*"%char)) as [->|Hs].
  { apply mv_star. eapply IH; [|done]. simpl. lia. }
  destruct (decide (c = "?"%char)) as [->|Hq].
  { apply mv_any. eapply IH; [|done]. simpl. lia. }
  destruct (decide (c = "\"%char /\ is_wild (chr m))) as [[-> Hd]|He].
  - destruct m as [|d m]; [by destruct not_wild_NUL|].
    rewrite tokens_esc by done. apply mv_esc; [done|]. eapply IH; [|done]. simpl. lia.
  - rewrite tokens_lit by (rewrite ?not_is_wild; done).
    apply mv_lit; [by apply not_is_wild|done|]. eapply IH; [|done]. simpl. lia.
Qed.

Lemma mask_view_det m ts : mask_view m ts -> ts = tokens m.
Proof.
  induction 1; subst; [done..| |].
  - by rewrite tokens_esc.
  - by rewrite tokens_lit.
Qed.

(** * Laws of [glob] *)

Section glob.

Variable fold : ascii -> ascii.
Abbreviation glob := (glob fold).

(** The characters that a token sequence needs at least. *)
Definition minlen (ts : list token) : nat := length (filter (.≠ Star) ts).

Definition star_free (ts : list token) : Prop := Forall (.≠ Star) ts.

Lemma minlen_cons t ts : minlen (t :: ts) = ((if decide (t = Star) then 0 else 1) + minlen ts)%nat.
Proof. unfold minlen. rewrite filter_cons. by repeat case_decide. Qed.

Lemma minlen_app ts us : minlen (ts ++ us) = (minlen ts + minlen us)%nat.
Proof. unfold minlen. by rewrite filter_app, length_app. Qed.

Lemma glob_nil_inv s : glob [] s <-> s = [].
Proof. split; [by inversion 1|intros ->; constructor]. Qed.

Lemma glob_lit_inv c ts s :
  glob (Lit c :: ts) s <-> exists a s', s = a :: s' /\ fold a = fold c /\ glob ts s'.
Proof. split; [inversion 1; naive_solver|intros (a&s'&->&?&?); by constructor]. Qed.

Lemma glob_any_inv ts s :
  glob (Any :: ts) s <-> exists a s', s = a :: s' /\ glob ts s'.
Proof. split; [inversion 1; naive_solver|intros (a&s'&->&?); by constructor]. Qed.

Lemma glob_lit_cons c ts a s :
  fold a = fold c -> glob (Lit c :: ts) (a :: s) <-> glob ts s.
Proof. intros. rewrite glob_lit_inv. naive_solver. Qed.

Lemma glob_any_cons ts a s : glob (Any :: ts) (a :: s) <-> glob ts s.
Proof. rewrite glob_any_inv. naive_solver. Qed.

Lemma glob_star_app ts u v : glob (Star :: ts) v -> glob (Star :: ts) (u ++ v).
Proof. intros H. induction u; simpl; auto using glob_star_cons. Qed.

Lemma glob_star_inv ts s :
  glob (Star :: ts) s <-> exists u v, s = u ++ v /\ glob ts v.
Proof.
  split.
  - intros H. remember (Star :: ts) as ts' eqn:E. revert E.
    induction H; intros [= ->]; [by exists [], s|].
    destruct IHglob as (u&v&->&?); [done|]. by exists (a :: u), v.
  - intros (u&v&->&?). apply glob_star_app. by constructor.
Qed.

Lemma glob_star_star ts s : glob (Star :: Star :: ts) s <-> glob (Star :: ts) s.
Proof.
  rewrite glob_star_inv. split.
  - intros (u&v&->&?). by apply glob_star_app.
  - intros ?. by exists [], s.
Qed.

Lemma glob_star_any_nil ts : ~ glob (Star :: Any :: ts) [].
Proof.
  rewrite glob_star_inv. intros (u&v&E&H). symmetry in E. apply app_nil in E as [-> ->].
  apply glob_any_inv in H as (?&?&?&_). done.
Qed.

Lemma glob_star_any_cons ts a s :
  glob (Star :: Any :: ts) (a :: s) <-> glob (Star :: ts) s.
Proof.
  rewrite !glob_star_inv. setoid_rewrite glob_any_inv. split.
  - intros (u&v&E&b&s'&->&H).
    destruct u as [|x u]; simplify_eq/=; [by exists [], s'|].
    exists (u ++ [b]), s'. by rewrite <- app_assoc.
  - intros (u&v&->&H). induction u as [|x u _] using rev_ind.
    + by exists [], (a :: v); eauto.
    + exists (a :: u), (x :: v). simpl. rewrite <- app_assoc. eauto 10.
Qed.

Lemma glob_app ts1 ts2 s1 s2 :
  glob ts1 s1 -> glob ts2 s2 -> glob (ts1 ++ ts2) (s1 ++ s2).
Proof. induction 1; simpl; auto with ircd. Qed.

Lemma glob_app_inv ts1 ts2 s :
  glob (ts1 ++ ts2) s -> exists u v, s = u ++ v /\ glob ts1 u /\ glob ts2 v.
Proof.
  revert s. induction ts1 as [|t ts1 IH]; intros s H; [by exists [], s; eauto with ircd|].
  destruct t; simpl in H.
  - apply glob_star_inv in H as (u&v&->&(u'&v'&->&?&?)%IH).
    exists (u ++ u'), v'. rewrite app_assoc. split_and!; [done| |done].
    apply glob_star_inv. eauto.
  - apply glob_any_inv in H as (a&s'&->&(u&v&->&?&?)%IH).
    exists (a :: u), v. auto with ircd.
  - apply glob_lit_inv in H as (a&s'&->&?&(u&v&->&?&?)%IH).
    exists (a :: u), v. auto with ircd.
Qed.

Lemma glob_minlen ts s : glob ts s -> (minlen ts <= length s)%nat.
Proof. unfold minlen. induction 1; simpl; repeat case_decide; simpl in *; try done; lia. Qed.

Lemma glob_star_free_length ts s : star_free ts -> glob ts s -> length s = length ts.
Proof.
  intros Hf H. induction H; inversion_clear Hf; simpl; try done; f_equal; auto.
Qed.

(** A star followed by a chunk that has been found as far left as possible:
    matching the rest after that occurrence loses nothing. *)
Lemma glob_leftmost c ts1 ts2 s1 s2 :
  star_free ts1 -> glob ts1 s1 ->
  glob (ts1 ++ Star :: ts2) (s1 ++ s2) \/
  glob (Star :: Lit c :: ts1 ++ Star :: ts2) (s1 ++ s2) <-> glob (Star :: ts2) s2.
Proof.
  intros Hf H1. pose proof (glob_star_free_length _ _ Hf H1) as Hl. split.
  - intros [H|H].
    + apply glob_app_inv in H as (u&v&E&Hu&Hv).
      apply glob_star_free_length in Hu; [|done].
      apply app_inj_1 in E as [-> ->]; [done|]. congruence.
    + apply glob_star_inv in H as (w&w'&E&H).
      apply glob_lit_inv in H as (a&w''&->&_&H).
      apply glob_app_inv in H as (u&v&->&Hu&Hv).
      apply glob_star_free_length in Hu; [|done].
      assert (exists p, s2 = p ++ v) as [p ->]; [|by apply glob_star_app].
      exists (drop (length s1) (w ++ a :: u)).
      rewrite <- (drop_app_length s1 s2), E.
      replace (w ++ a :: u ++ v) with ((w ++ a :: u) ++ v) by by rewrite <- app_assoc.
      rewrite drop_app_le; [done|]. rewrite length_app. simpl. lia.
  - intros H. left. by apply glob_app.
Qed.

End glob.

(** * Correctness of the matcher

    The string is followed by anything ([buf]): the search loop of the code can
    read past the terminator.  In [zbuf] one more [NUL] follows, which stops it. *)

Definition buf (s tail : list ascii) : list ascii := s ++ NUL :: tail.
#[global] Arguments buf : simpl never.

Lemma length_buf s tail : length (buf s tail) = (length s + S (length tail))%nat.
Proof. unfold buf. by rewrite length_app. Qed.

Definition zbuf (s rest : list ascii) : list ascii := s ++ NUL :: NUL :: rest.
#[global] Arguments zbuf : simpl never.

Lemma length_zbuf s rest : length (zbuf s rest) = (length s + S (S (length rest)))%nat.
Proof. unfold zbuf. by rewrite length_app. Qed.

Section match_spec.

Variable fold : ascii -> ascii.
Hypothesis fold_NUL : forall c, fold c = fold NUL -> c = NUL.
Variable tail : list ascii.

Abbreviation glob := (glob fold).
Abbreviation mem s := (buf s tail).

Lemma deref_mem s : deref (mem s) = Ok (chr s).
Proof. by destruct s. Qed.

Lemma tl_mem a s : tl (mem (a :: s)) = mem s.
Proof. done. Qed.

(** The value returned for a verdict. *)
Definition verdict (r : Z) (P : Prop) : Prop := r = 0 <-> P.

(** Unfolding of the two mask walkers on a literal, escaped or not. *)
Lemma match_head_lit c m s :
  ~ is_wild c -> ~ (c = "\"%char /\ is_wild (chr m)) ->
  match_head fold (c :: m) (mem s) =
  if decide (fold (chr s) <> fold c) then Ok (Return 1)
  else if decide (chr s = NUL) then Ok (Return 1) else match_head fold m (tl (mem s)).
Proof.
  intros [Hs Hq]%not_is_wild He. cbn [match_head]. rewrite !decide_False by done.
  rewrite deref_mem. destruct m as [|d m]; [done|]. by rewrite decide_False.
Qed.

Lemma match_head_esc d m s :
  is_wild d ->
  match_head fold ("\"%char :: d :: m) (mem s) =
  if decide (fold (chr s) <> fold d) then Ok (Return 1)
  else if decide (chr s = NUL) then Ok (Return 1) else match_head fold m (tl (mem s)).
Proof. intros Hd. cbn [match_head]. simpl. rewrite decide_True by done. by rewrite deref_mem. Qed.

Lemma match_head_any m s :
  match_head fold ("?"%char :: m) (mem s) =
  if decide (chr s = NUL) then Ok (Return 1) else match_head fold m (tl (mem s)).
Proof. cbn [match_head]. simpl. by rewrite deref_mem. Qed.

Lemma match_chunk_any m s :
  match_chunk fold ("?"%char :: m) (mem s) =
  if decide (chr s = NUL) then Ok (Return 1) else match_chunk fold m (tl (mem s)).
Proof. cbn [match_chunk]. simpl. by rewrite deref_mem. Qed.

Lemma match_chunk_lit c m s :
  ~ is_wild c -> ~ (c = "\"%char /\ is_wild (chr m)) ->
  match_chunk fold (c :: m) (mem s) =
  if decide (fold (chr s) <> fold c) then Ok Rollback
  else if decide (chr s = NUL) then Ok (Return 1) else match_chunk fold m (tl (mem s)).
Proof.
  intros [Hs Hq]%not_is_wild He. cbn [match_chunk]. rewrite !decide_False by done.
  rewrite deref_mem. destruct m as [|d m]; [done|]. by rewrite decide_False.
Qed.

Lemma match_chunk_esc d m s :
  is_wild d ->
  match_chunk fold ("\"%char :: d :: m) (mem s) =
  if decide (fold (chr s) <> fold d) then Ok Rollback
  else if decide (chr s = NUL) then Ok (Return 1) else match_chunk fold m (tl (mem s)).
Proof. intros Hd. cbn [match_chunk]. simpl. rewrite decide_True by done. by rewrite deref_mem. Qed.

(** What the head comparison establishes. *)
Definition head_post (ts : list token) (s : list ascii) (k : control) : Prop :=
  match k with
  | Return r => verdict r (glob ts s)
  | GotStar m' S' => is_cstr m' /\ exists s', S' = mem s' /\ is_cstr s' /\
      (glob ts s <-> glob (Star :: tokens m') s')
  | Rollback => False
  end.

Lemma head_post_advance ts s ts' s' k :
  (glob ts' s' <-> glob ts s) -> head_post ts s k -> head_post ts' s' k.
Proof.
  intros Hg. destruct k; simpl; unfold verdict; [by rewrite Hg| |done].
  by setoid_rewrite Hg.
Qed.

(** One literal token against the string: either it fails, or both advance. *)
Lemma head_lit_step c ts s (K : result control) :
  c <> NUL -> is_cstr s ->
  (forall a s', s = a :: s' -> a <> NUL -> exists k, K = Ok k /\ head_post ts s' k) ->
  exists k,
    (if decide (fold (chr s) <> fold c) then Ok (Return 1)
     else if decide (chr s = NUL) then Ok (Return 1) else K) = Ok k /\
    head_post (Lit c :: ts) s k.
Proof.
  intros Hc Hs HK. destruct s as [|a s]; simpl in *.
  - exists (Return 1). split; [by case_decide|].
    split; [done|]. by intros (?&?&?&_)%glob_lit_inv.
  - apply is_cstr_cons in Hs as [Ha Hs]. case_decide as E.
    + eexists. split; [done|]. split; [done|].
      intros (?&?&[= <- <-]&?&_)%glob_lit_inv. done.
    + rewrite decide_False by done. destruct (HK a s) as (k&->&Hk); [done..|].
      exists k. split; [done|].
      by apply head_post_advance with ts s; [apply glob_lit_cons|].
Qed.

Lemma match_head_spec m ts s :
  mask_view m ts -> is_cstr m -> is_cstr s ->
  exists k, match_head fold m (mem s) = Ok k /\ head_post ts s k.
Proof.
  intros Hv. revert s. induction Hv as [|m ts Hv IH|m ts Hv IH|d m ts Hd Hv IH|c m ts Hw He Hv IH];
    intros s Hm Hs.
  - simpl. rewrite deref_mem. eexists. split; [done|]. simpl.
    unfold verdict. rewrite schar_0, chr_nul, glob_nil_inv by done. done.
  - eexists. split; [done|]. simpl. split; [by eapply is_cstr_cons|].
    exists s. split_and!; [done..|]. by rewrite (mask_view_det _ _ Hv).
  - rewrite match_head_any. apply is_cstr_tail in Hm. destruct s as [|a s].
    + exists (Return 1). split; [done|]. split; [done|]. by intros (?&?&?&_)%glob_any_inv.
    + apply is_cstr_cons in Hs as [Ha Hs]. rewrite decide_False by done.
      destruct (IH s) as (k&Hk&Hp); [done..|]. exists k. split; [done|].
      by apply head_post_advance with ts s; [apply glob_any_cons|].
  - rewrite match_head_esc by done. apply head_lit_step; [by apply wild_not_NUL|done|].
    intros a s' -> Ha. apply IH; eauto with ircd.
  - rewrite match_head_lit by done. apply is_cstr_cons in Hm as [? ?].
    apply head_lit_step; [done..|]. intros a s' -> Ha. apply IH; eauto with ircd.
Qed.

(** The run of stars and question marks after a star. *)
Definition skip_post (m : cstring) (ts : list token) (s : list ascii) (k : skipped) : Prop :=
  match k with
  | SkipReturn r => verdict r (glob (Star :: ts) s)
  | SkipLit ch m' bm S' => ch <> NUL /\ is_cstr m' /\ is_cstr bm /\
      (length m' < length m)%nat /\ (length bm <= length m)%nat /\
      tokens bm = Lit ch :: tokens m' /\
      exists s', S' = mem s' /\ is_cstr s' /\ (length s' <= length s)%nat /\
        (glob (Star :: ts) s <-> glob (Star :: tokens bm) s')
  end.

Lemma skip_post_advance m' ts' s' m ts s k :
  (length m' <= length m)%nat -> (length s' <= length s)%nat ->
  (glob (Star :: ts) s <-> glob (Star :: ts') s') ->
  skip_post m' ts' s' k -> skip_post m ts s k.
Proof.
  intros ?? Hg. destruct k as [r|ch m'' bm S']; simpl; unfold verdict; [by rewrite Hg|].
  intros (?&?&?&?&?&?&s''&?&?&?&?). split_and!; [done..|lia|lia|done|].
  exists s''. rewrite Hg. split_and!; [done..|lia|done].
Qed.

Lemma star_skip_spec m ts s :
  mask_view m ts -> is_cstr m -> is_cstr s ->
  exists k, star_skip m m (mem s) = Ok k /\ skip_post m ts s k.
Proof.
  intros Hv. revert s. induction Hv as [|m ts Hv IH|m ts Hv IH|d m ts Hd Hv IH|c m ts Hw He Hv IH];
    intros s Hm Hs.
  - exists (SkipReturn 0). split; [done|]. split; [|done]. intros _.
    rewrite <- (app_nil_r s). apply glob_star_app. repeat constructor.
  - apply is_cstr_tail in Hm. destruct (IH s) as (k&Hk&Hp); [done..|].
    exists k. split; [done|]. apply (skip_post_advance m ts s); [simpl; lia|done| |done].
    apply glob_star_star.
  - apply is_cstr_tail in Hm. cbn [star_skip]. simpl. rewrite deref_mem.
    destruct s as [|a s].
    + exists (SkipReturn 1). split; [done|]. split; [done|]. by intros ?%glob_star_any_nil.
    + apply is_cstr_cons in Hs as [Ha Hs]. simpl. rewrite decide_False by done.
      destruct (IH s) as (k&Hk&Hp); [done..|]. exists k. split; [done|].
      apply (skip_post_advance m ts s); [simpl; lia|simpl; lia| |done].
      apply glob_star_any_cons.
  - exists (SkipLit d m ("\"%char :: d :: m) (mem s)).
    split.
    { simpl. unfold unescape. by rewrite decide_True. }
    split_and!; [by apply wild_not_NUL|eauto with ircd|done|simpl; lia|done|by apply tokens_esc|].
    exists s. split_and!; [done..|]. by rewrite (mask_view_det _ _ Hv), <- tokens_esc.
  - assert (Hs' := Hw). apply not_is_wild in Hs' as [? ?].
    exists (SkipLit c m (c :: m) (mem s)). split.
    { cbn [star_skip]. rewrite !decide_False by done. unfold unescape. by rewrite decide_False. }
    split_and!; [by apply is_cstr_cons in Hm as []|eauto with ircd|done|simpl; lia|done
      |by apply tokens_lit|].
    exists s. split_and!; [done..|]. by rewrite (mask_view_det _ _ Hv), <- tokens_lit.
Qed.

(** The search for the first character of a chunk. *)
Lemma seek_spec rest c ts s :
  tail = NUL :: rest -> c <> NUL -> is_cstr s ->
  exists o, seek fold (fold c) (mem s) = Ok o /\
  match o with
  | None => ~ glob (Star :: Lit c :: ts) s
  | Some S' => exists s', S' = mem s' /\ is_cstr s' /\ (length s' < length s)%nat /\
      (glob (Star :: Lit c :: ts) s <-> glob ts s' \/ glob (Star :: Lit c :: ts) s')
  end.
Proof.
  intros Ht Hc. assert (Hnc : fold NUL <> fold c).
  { intros E. apply Hc, fold_NUL. done. }
  assert (Hnil : ~ glob (Star :: Lit c :: ts) []).
  { rewrite glob_star_inv. intros (u&v&E&(?&?&->&_)%glob_lit_inv). by destruct u. }
  assert (Hne : forall a t, fold a <> fold c ->
    glob (Star :: Lit c :: ts) (a :: t) <-> glob (Star :: Lit c :: ts) t).
  { intros a t Ha. split; [|apply glob_star_cons].
    inversion 1 as [| | |? ? H'|]; subst; [|done].
    apply glob_lit_inv in H' as (?&?&[= <- <-]&?&_). done. }
  induction s as [|a s IH]; intros Hs.
  - exists None. split; [|done]. unfold buf. rewrite Ht. simpl. by rewrite decide_False.
  - apply is_cstr_cons in Hs as [Ha Hs]. change (mem (a :: s)) with (a :: mem s).
    cbn [seek]. destruct (decide (fold a = fold c)) as [E|E].
    + exists (Some (mem s)). split; [done|]. exists s. split_and!; [done..|simpl; lia|].
      split.
      * inversion 1 as [| | |? ? H'|]; subst; [|auto].
        apply glob_lit_inv in H' as (?&?&[= <- <-]&?&?). auto.
      * intros [?|?]; [apply glob_star_nil; by apply glob_lit|by apply glob_star_cons].
    + rewrite deref_mem. cbn [mbind result_bind]. destruct s as [|b s].
      * exists None. split; [done|]. by rewrite Hne.
      * assert (b <> NUL) by (by apply is_cstr_cons in Hs as []).
        rewrite decide_False by done.
        destruct IH as (o&->&Ho); [done|]. exists o. split; [done|].
        destruct o as [S'|]; [|by rewrite Hne].
        destruct Ho as (s'&->&?&?&Hg). exists s'. split_and!; [done..|simpl in *; lia|].
        by rewrite Hne.
Qed.

(** A chunk: the comparison that follows the search. *)
Definition chunk_post (m : cstring) (ts : list token) (s : list ascii) (k : control) : Prop :=
  match k with
  | Return r => if decide (r = 0) then glob ts s else (length s < minlen ts)%nat
  | GotStar m' S' => is_cstr m' /\ (length m' < length m)%nat /\
      exists ts1 s1 s', ts = ts1 ++ Star :: tokens m' /\ s = s1 ++ s' /\
        star_free ts1 /\ glob ts1 s1 /\ S' = mem s' /\ is_cstr s'
  | Rollback => ~ glob ts s
  end.

Lemma chunk_post_advance t a m ts s m' k :
  t <> Star -> glob [t] [a] -> (length m < length m')%nat ->
  (glob (t :: ts) (a :: s) <-> glob ts s) ->
  chunk_post m ts s k -> chunk_post m' (t :: ts) (a :: s) k.
Proof.
  intros Ht Hga Hl Hg. destruct k as [r|m'' S'|]; simpl.
  - case_decide; [by rewrite Hg|]. unfold minlen. rewrite filter_cons_True by done. simpl. lia.
  - intros (?&?&ts1&s1&s'&->&->&?&?&->&?). split_and!; [done|lia|].
    exists (t :: ts1), (a :: s1), s'. split_and!; try done; [by constructor|].
    by apply (glob_app fold [t] ts1 [a] s1).
  - by rewrite Hg.
Qed.

Lemma chunk_lit_step c m ts s m' (K : result control) :
  c <> NUL -> is_cstr s -> (length m < length m')%nat ->
  (forall a s', s = a :: s' -> a <> NUL ->
     exists k, K = Ok k /\ chunk_post m ts s' k) ->
  exists k,
    (if decide (fold (chr s) <> fold c) then Ok Rollback
     else if decide (chr s = NUL) then Ok (Return 1) else K) = Ok k /\
    chunk_post m' (Lit c :: ts) s k.
Proof.
  intros Hc Hs Hl HK. destruct s as [|a s].
  - exists Rollback. split; [|by intros (?&?&?&_)%glob_lit_inv].
    rewrite decide_True; [done|]. intros E. by apply Hc, fold_NUL.
  - apply is_cstr_cons in Hs as [Ha Hs]. simpl. case_decide as E.
    + eexists. split; [done|]. intros (?&?&[= <- <-]&?&_)%glob_lit_inv. done.
    + rewrite decide_False by done. destruct (HK a s) as (k&->&Hk); [done..|].
      exists k. split; [done|].
      apply (chunk_post_advance _ _ m); [done| |done|by apply glob_lit_cons|done].
      repeat constructor. done.
Qed.

Lemma match_chunk_spec m ts s :
  mask_view m ts -> is_cstr m -> is_cstr s ->
  exists k, match_chunk fold m (mem s) = Ok k /\ chunk_post m ts s k.
Proof.
  intros Hv. revert s. induction Hv as [|m ts Hv IH|m ts Hv IH|d m ts Hd Hv IH|c m ts Hw He Hv IH];
    intros s Hm Hs.
  - simpl. rewrite deref_mem. simpl. case_decide as E.
    + apply chr_nul in E as ->; [|done]. exists (Return 0). split; [done|]. constructor.
    + exists Rollback. split; [done|]. intros ->%glob_nil_inv. done.
  - apply is_cstr_tail in Hm. exists (GotStar m (mem s)). split; [done|].
    simpl. split_and!; [done|lia|]. exists [], [], s.
    rewrite (mask_view_det _ _ Hv). split_and!; try done; constructor.
  - apply is_cstr_tail in Hm. rewrite match_chunk_any. destruct s as [|a s].
    + exists (Return 1). split; [done|]. unfold chunk_post, minlen. simpl. lia.
    + apply is_cstr_cons in Hs as [Ha Hs]. rewrite decide_False by done.
      destruct (IH s) as (k&Hk&Hp); [done..|]. exists k. split; [done|].
      apply (chunk_post_advance _ _ m); [done| |simpl; lia|apply glob_any_cons|done].
      repeat constructor.
  - rewrite match_chunk_esc by done.
    apply chunk_lit_step with m; [by apply wild_not_NUL|done|simpl; lia|].
    intros a s' -> Ha. apply IH; eauto with ircd.
  - rewrite match_chunk_lit by done. apply is_cstr_cons in Hm as [? ?].
    apply chunk_lit_step with m; [done..|simpl; lia|].
    intros a s' -> Ha. apply IH; eauto with ircd.
Qed.

(** The loop terminates within its fuel and decides the mask after the star. *)
Lemma got_star_spec rest fuel m s :
  tail = NUL :: rest -> is_cstr m -> is_cstr s -> (length m + length s < fuel)%nat ->
  exists r, got_star fold fuel m (mem s) = Ok r /\
    verdict r (glob (Star :: tokens m) s).
Proof.
  intros Ht. revert m s. induction fuel as [|fuel IH]; intros m s Hm Hs Hf; [lia|].
  cbn [got_star].
  destruct (star_skip_spec m (tokens m) s) as (k&->&Hk); [apply mask_view_tokens|done..|].
  destruct k as [r|ch m' bm S']; simpl in Hk |- *; [by exists r|].
  destruct Hk as (Hch&Hm'&Hbm&?&?&Hts&s1&->&Hs1&?&Hg). unfold verdict. setoid_rewrite Hg.
  rewrite Hts.
  destruct (seek_spec rest ch (tokens m') s1) as (o&->&Ho); [done..|]. simpl.
  destruct o as [S'|]; [|by exists 1].
  destruct Ho as (s2&->&Hs2&?&Hg2). setoid_rewrite Hg2.
  destruct (match_chunk_spec m' (tokens m') s2) as (k&->&Hk); [apply mask_view_tokens|done..|].
  simpl. destruct k as [r|m'' S'|]; simpl in Hk.
  - exists r. split; [done|]. case_decide as E; [subst; tauto|].
    split; [done|]. intros [Hk'|Hk']; exfalso; apply glob_minlen in Hk';
      unfold minlen in *; simpl in *; repeat case_decide; simpl in *; try done; lia.
  - destruct Hk as (?&?&ts1&t1&s3&E&->&?&?&->&?). rewrite length_app in *.
    destruct (IH m'' s3) as (r&->&Hr); [done..|lia|]. exists r. split; [done|].
    unfold verdict in Hr. by rewrite Hr, E, glob_leftmost.
  - destruct (IH bm s2) as (r&->&Hr); [done..|lia|]. exists r. split; [done|].
    unfold verdict in Hr. rewrite Hr, Hts. tauto.
Qed.

(** What matches after a star is found without a look behind the terminator. *)
Lemma seek_hit c ts s :
  c <> NUL -> is_cstr s -> glob (Star :: Lit c :: ts) s ->
  exists s', seek fold (fold c) (mem s) = Ok (Some (mem s')) /\ is_cstr s' /\ (length s' < length s)%nat /\
    (glob ts s' \/ glob (Star :: Lit c :: ts) s').
Proof.
  intros Hc. induction s as [|a s IH]; intros Hs Hg.
  - rewrite glob_star_inv in Hg. destruct Hg as (u&v&E&(?&?&->&_)%glob_lit_inv). by destruct u.
  - apply is_cstr_cons in Hs as [Ha Hs]. change (mem (a :: s)) with (a :: mem s). cbn [seek].
    destruct (decide (fold a = fold c)) as [E|E].
    + exists s. split_and!; [done..|simpl; lia|]. inversion Hg as [| | |? ? H'|]; subst; [|by right].
      apply glob_lit_inv in H' as (?&?&[= <- <-]&?&?). by left.
    + assert (Hg' : glob (Star :: Lit c :: ts) s).
      { inversion Hg as [| | |? ? H'|]; subst; [|done]. apply glob_lit_inv in H' as (?&?&[= <- <-]&?&_). done. }
      rewrite deref_mem. cbn [mbind result_bind]. destruct s as [|b s].
      { rewrite glob_star_inv in Hg'. destruct Hg' as (u&v&E'&(?&?&->&_)%glob_lit_inv). by destruct u. }
      assert (b <> NUL) by (by apply is_cstr_cons in Hs as []).
      rewrite decide_False by done. destruct (IH Hs Hg') as (s'&->&?&?&?). exists s'. split_and!; [done..|simpl in *; lia|done].
Qed.

Lemma got_star_hit fuel m s :
  is_cstr m -> is_cstr s -> (length m + length s < fuel)%nat ->
  glob (Star :: tokens m) s -> got_star fold fuel m (mem s) = Ok 0.
Proof.
  revert m s. induction fuel as [|fuel IH]; intros m s Hm Hs Hf Hg; [lia|].
  cbn [got_star].
  destruct (star_skip_spec m (tokens m) s) as (k&->&Hk); [apply mask_view_tokens|done..|].
  destruct k as [r|ch m' bm S']; simpl in Hk |- *; [by rewrite (proj2 Hk)|].
  destruct Hk as (Hch&Hm'&Hbm&?&?&Hts&s1&->&Hs1&?&Hg1). apply Hg1 in Hg. rewrite Hts in Hg.
  destruct (seek_hit ch (tokens m') s1) as (s2&->&Hs2&?&Hg2); [done..|]. cbn [mbind result_bind].
  destruct (match_chunk_spec m' (tokens m') s2) as (k&->&Hk); [apply mask_view_tokens|done..|].
  cbn [mbind result_bind]. destruct k as [r|m'' S'|]; simpl in Hk.
  - case_decide as E; [by subst|]. exfalso. destruct Hg2 as [Hk'|Hk']; apply glob_minlen in Hk';
      unfold minlen in *; simpl in *; repeat case_decide; simpl in *; try done; lia.
  - destruct Hk as (?&?&ts1&t1&s3&E&->&?&?&->&?). rewrite length_app in *.
    apply IH; [done..|lia|]. rewrite E in Hg2. by apply (glob_leftmost fold ch ts1 (tokens m'') t1 s3) in Hg2.
  - apply IH; [done..|lia|]. rewrite Hts. by destruct Hg2.
Qed.

Lemma match_gen_hit mask s :
  is_cstr mask -> is_cstr s -> glob (tokens mask) s -> match_gen fold mask (mem s) = Ok 0.
Proof.
  intros Hm Hs Hg. unfold match_gen.
  destruct (match_head_spec mask (tokens mask) s) as (k&->&Hk); [apply mask_view_tokens|done..|].
  destruct k as [r|m' S'|]; cbn [mbind result_bind]; [by rewrite (proj2 Hk)| |done].
  destruct Hk as (?&s'&->&?&Hg'). apply got_star_hit; [done..| |by apply Hg']. rewrite length_buf. lia.
Qed.

Lemma match_gen_spec_tail rest mask s :
  tail = NUL :: rest -> is_cstr mask -> is_cstr s ->
  exists r, match_gen fold mask (mem s) = Ok r /\ verdict r (glob (tokens mask) s).
Proof.
  intros Ht Hm Hs. unfold match_gen.
  destruct (match_head_spec mask (tokens mask) s) as (k&->&Hk); [apply mask_view_tokens|done..|].
  destruct k as [r|m' S'|]; cbn [mbind result_bind]; [by exists r| |done].
  destruct Hk as (?&s'&->&?&Hg). unfold verdict. setoid_rewrite Hg.
  apply (got_star_spec rest); [done..|]. rewrite length_buf. lia.
Qed.

(** ** Strings with terminators inside

    Whatever is behind the terminator, the matcher ends, and does not read beyond two
    terminators in a row. *)

Definition stops (rollback : Prop) (m : cstring) (s : list ascii) (k : control) : Prop :=
  match k with
  | Return _ => True
  | GotStar m' S' => is_cstr m' /\ (length m' <= length m)%nat /\ exists s', S' = mem s' /\ (length s' <= length s)%nat
  | Rollback => rollback
  end.

Lemma ends_advance rb m s m' s' k :
  (length m <= length m')%nat -> (length s <= length s')%nat -> stops rb m s k -> stops rb m' s' k.
Proof.
  intros Hm Hs. destruct k as [|m'' S'|]; [done| |done]. intros (?&?&s''&?&?).
  split_and!; [done|lia|]. exists s''. split; [done|lia].
Qed.

Lemma ends_lit rb c m s m' fail (K : result control) :
  stops rb m' s fail -> (length m <= length m')%nat ->
  (forall a s', s = a :: s' -> exists k, K = Ok k /\ stops rb m s' k) ->
  exists k, (if decide (fold (chr s) <> fold c) then Ok fail
    else if decide (chr s = NUL) then Ok (Return 1) else K) = Ok k /\ stops rb m' s k.
Proof.
  intros Hf Hl HK. case_decide; [by exists fail|]. case_decide as E; [by exists (Return 1)|].
  destruct s as [|a s]; [done|]. destruct (HK a s) as (k&->&Hk); [done|]. exists k. split; [done|].
  eapply ends_advance; [exact Hl| |exact Hk]. simpl. lia.
Qed.

Lemma match_head_ends m s :
  is_cstr m -> exists k, match_head fold m (mem s) = Ok k /\ stops False m s k.
Proof.
  revert s. induction (mask_view_tokens m) as [|m ts Hv IH|m ts Hv IH|d m ts Hd Hv IH|c m ts Hw He Hv IH]; intros s Hm.
  - simpl. rewrite deref_mem. by eexists.
  - eexists. split; [done|]. apply is_cstr_tail in Hm. split_and!; [done|simpl; lia|by exists s].
  - apply is_cstr_tail in Hm. rewrite match_head_any. case_decide as E; [by eexists|].
    destruct s as [|a s]; [done|]. destruct (IH s Hm) as (k&Hk&Hp). exists k. split; [done|].
    apply (ends_advance _ m s); [simpl; lia..|done].
  - rewrite match_head_esc by done. apply ends_lit with m; [done|simpl; lia|].
    intros a s' ->. apply IH. eauto with ircd.
  - rewrite match_head_lit by done. apply is_cstr_cons in Hm as [_ Hm].
    apply ends_lit with m; [done|simpl; lia|]. intros a s' ->. by apply IH.
Qed.

Lemma match_chunk_ends m s :
  is_cstr m -> exists k, match_chunk fold m (mem s) = Ok k /\ stops True m s k.
Proof.
  revert s. induction (mask_view_tokens m) as [|m ts Hv IH|m ts Hv IH|d m ts Hd Hv IH|c m ts Hw He Hv IH]; intros s Hm.
  - simpl. rewrite deref_mem. cbn [mbind result_bind]. case_decide; by eexists.
  - eexists. split; [done|]. apply is_cstr_tail in Hm. split_and!; [done|simpl; lia|by exists s].
  - apply is_cstr_tail in Hm. rewrite match_chunk_any. case_decide as E; [by eexists|].
    destruct s as [|a s]; [done|]. destruct (IH s Hm) as (k&Hk&Hp). exists k. split; [done|].
    apply (ends_advance _ m s); [simpl; lia..|done].
  - rewrite match_chunk_esc by done. apply ends_lit with m; [done|simpl; lia|].
    intros a s' ->. apply IH. eauto with ircd.
  - rewrite match_chunk_lit by done. apply is_cstr_cons in Hm as [_ Hm].
    apply ends_lit with m; [done|simpl; lia|]. intros a s' ->. by apply IH.
Qed.

Lemma star_skip_ends m s :
  is_cstr m -> exists k, star_skip m m (mem s) = Ok k /\
    match k with
    | SkipReturn _ => True
    | SkipLit ch m' bm S' => ch <> NUL /\ is_cstr m' /\ is_cstr bm /\ (length m' < length m)%nat /\
        (length bm <= length m)%nat /\ exists s', S' = mem s' /\ (length s' <= length s)%nat
    end.
Proof.
  revert s. induction (mask_view_tokens m) as [|m ts Hv IH|m ts Hv IH|d m ts Hd Hv IH|c m ts Hw He Hv IH]; intros s Hm.
  - by eexists.
  - apply is_cstr_tail in Hm. destruct (IH s Hm) as (k&Hk&Hp). exists k. split; [done|]. destruct k; [done|].
    destruct Hp as (?&?&?&?&?&?). split_and!; try done; simpl; lia.
  - apply is_cstr_tail in Hm. cbn [star_skip]. simpl. rewrite deref_mem. cbn [mbind result_bind].
    case_decide as E; [by eexists|]. destruct s as [|a s]; [done|].
    destruct (IH s Hm) as (k&Hk&Hp). exists k. split; [done|]. destruct k; [done|].
    destruct Hp as (?&?&?&?&?&s'&?&?). split_and!; try done; [simpl; lia..|]. exists s'. split; [done|simpl; lia].
  - exists (SkipLit d m ("\"%char :: d :: m) (mem s)). split.
    { simpl. unfold unescape. by rewrite decide_True. }
    split_and!; [by apply wild_not_NUL|eauto with ircd|done|simpl; lia|done|by exists s].
  - assert (Hs' := Hw). apply not_is_wild in Hs' as [? ?].
    exists (SkipLit c m (c :: m) (mem s)). split.
    { cbn [star_skip]. rewrite !decide_False by done. unfold unescape. by rewrite decide_False. }
    split_and!; [by apply is_cstr_cons in Hm as []|eauto with ircd|done|simpl; lia|done|by exists s].
Qed.

Lemma seek_ends rest c s :
  tail = NUL :: rest -> c <> NUL ->
  exists o, seek fold (fold c) (mem s) = Ok o /\
    match o with None => True | Some S' => exists s', S' = mem s' /\ (length s' < length s)%nat end.
Proof.
  intros Ht Hc. assert (Hnc : fold NUL <> fold c) by (intros E; by apply Hc, fold_NUL).
  induction s as [|a s IH].
  - exists None. split; [|done]. unfold buf. rewrite Ht. simpl. by rewrite decide_False.
  - change (mem (a :: s)) with (a :: mem s). cbn [seek]. case_decide; [exists (Some (mem s)); split; [done|]; exists s; split; [done|simpl; lia]|].
    rewrite deref_mem. cbn [mbind result_bind]. case_decide; [by exists None|].
    destruct IH as (o&->&Ho). exists o. split; [done|]. destruct o; [|done].
    destruct Ho as (s'&?&?). exists s'. split; [done|simpl; lia].
Qed.

Lemma got_star_ends rest fuel m s :
  tail = NUL :: rest -> is_cstr m -> (length m + length s < fuel)%nat -> exists r, got_star fold fuel m (mem s) = Ok r.
Proof.
  intros Ht. revert m s. induction fuel as [|fuel IH]; intros m s Hm Hf; [lia|]. cbn [got_star].
  destruct (star_skip_ends m s Hm) as (k&->&Hk). cbn [mbind result_bind].
  destruct k as [r|ch m' bm S']; [by eexists|]. destruct Hk as (Hch&Hm'&Hbm&?&?&s1&->&?).
  destruct (seek_ends rest ch s1 Ht Hch) as (o&->&Ho). cbn [mbind result_bind].
  destruct o as [S2|]; [|by eexists]. destruct Ho as (s2&->&?).
  destruct (match_chunk_ends m' s2 Hm') as (k&->&Hk). cbn [mbind result_bind].
  destruct k as [r|m'' S3|]; [by eexists| |].
  - destruct Hk as (?&?&s3&->&?). apply IH; [done|lia].
  - apply IH; [done|lia].
Qed.

Lemma match_gen_ends_tail rest mask s :
  tail = NUL :: rest -> is_cstr mask -> exists r, match_gen fold mask (mem s) = Ok r.
Proof.
  intros Ht Hm. unfold match_gen. destruct (match_head_ends mask s Hm) as (k&->&Hk). cbn [mbind result_bind].
  destruct k as [r|m' S'|]; [by eexists| |done]. destruct Hk as (?&?&s'&->&?).
  apply (got_star_ends rest); [done..|]. rewrite length_buf. lia.
Qed.

End match_spec.

Lemma match_gen_spec fold (fold_NUL : forall c, fold c = fold NUL -> c = NUL) rest mask s :
  is_cstr mask -> is_cstr s ->
  exists r, match_gen fold mask (zbuf s rest) = Ok r /\ verdict r (glob fold (tokens mask) s).
Proof. by apply (match_gen_spec_tail fold fold_NUL (NUL :: rest) rest). Qed.

(** Terminators inside the string, two at its end *)
Lemma match_gen_ends fold (fold_NUL : forall c, fold c = fold NUL -> c = NUL) rest mask s :
  is_cstr mask -> exists r, match_gen fold mask (zbuf s rest) = Ok r.
Proof. by apply (match_gen_ends_tail fold fold_NUL (NUL :: rest) rest). Qed.

(** C1. match() returns 0 for every string that the mask stands for, up to the case
    folding of the server, whatever the escapes, stars and question marks of the mask
    and whatever lies behind the string in memory.  For other strings it returns
    something else if a second NUL follows the terminator; if not, the search after a
    star can read on and take what it finds for a part of the string
    ([match_reads_past_terminator]).  It ends without reading beyond the first two
    NULs in a row. *)
Theorem match_correct (mask s tail : list ascii) :
  is_cstr mask -> is_cstr s ->
  (glob toLower (tokens mask) s -> match_ mask (s ++ NUL :: tail) = Ok 0) /\
  (~ glob toLower (tokens mask) s -> forall rest, tail = NUL :: rest ->
     exists r, match_ mask (s ++ NUL :: tail) = Ok r /\ r <> 0) /\
  (forall more rest, tail = more ++ NUL :: NUL :: rest -> exists r, match_ mask (s ++ NUL :: tail) = Ok r).
Proof.
  intros Hm Hs. split_and!.
  - by apply match_gen_hit; [apply toLower_eq_NUL|..].
  - intros Hg rest ->. destruct (match_gen_spec toLower toLower_eq_NUL rest mask s Hm Hs) as (r&Hr&Hv).
    exists r. split; [exact Hr|]. intros E. by apply Hg, Hv.
  - intros more rest ->. destruct (match_gen_ends toLower toLower_eq_NUL rest mask (s ++ NUL :: more) Hm) as (r&Hr).
    exists r. unfold zbuf in Hr. by rewrite <- app_assoc in Hr.
Qed.

(** Witness of [match_correct]. *)
Lemma match_correct_witness :
  match_ (str "*!?a*@\*.es") (str "nick!~aUser@*.ES" ++ NUL :: str "left over") = Ok 0 /\
  (exists r, match_ (str "*a*b") (str "xa" ++ NUL :: NUL :: str "b") = Ok r /\ r <> 0) /\
  (exists r, match_ (str "*a*b") (str "xa" ++ NUL :: (str "b" ++ NUL :: NUL :: [])) = Ok r).
Proof.
  split_and!.
  - apply (match_correct (str "*!?a*@\*.es") (str "nick!~aUser@*.ES") (str "left over"));
      apply (bool_decide_unpack _); vm_compute; exact I.
  - apply (match_correct (str "*a*b") (str "xa") (NUL :: str "b")) with (str "b"); [..|reflexivity];
      apply (bool_decide_unpack _); vm_compute; exact I.
  - apply (match_correct (str "*a*b") (str "xa") (str "b" ++ NUL :: NUL :: [])) with (str "b") []; [..|reflexivity];
      apply (bool_decide_unpack _); vm_compute; exact I.
Defined.

(** match_case() is the same decision without any folding. *)
Theorem match_case_correct mask s rest :
  is_cstr mask -> is_cstr s ->
  exists r, match_case mask (zbuf s rest) = Ok r /\
    (r = 0 <-> glob (fun c => c) (tokens mask) s).
Proof. apply match_gen_spec. done. Qed.

(** Witness of [match_case_correct]. *)
Lemma match_case_correct_witness :
  match_case (str "*A?") (zbuf (str "xaAb") []) = Ok 0 /\
  exists r, match_case (str "*A?") (zbuf (str "xaAb") []) = Ok r /\
    (r = 0 <-> glob (fun c => c) (tokens (str "*A?")) (str "xaAb")).
Proof.
  split; [vm_compute; reflexivity|apply (match_case_correct (str "*A?") (str "xaAb") [])];
    apply (bool_decide_unpack _); vm_compute; exact I.
Defined.

(** The search loop dereferences the character after the terminator when the
    string is exhausted at a star: with nothing after the terminator the read is
    out of bounds, and with the right garbage there the function reports a match
    that the string does not have. *)
Theorem match_reads_past_terminator :
  match_ (str "*a*b") (str "xa" ++ [NUL]) = Ub /\
  match_ (str "*a*b") (str "xa" ++ [NUL] ++ str "b" ++ [NUL]) = Ok 0 /\
  ~ glob toLower (tokens (str "*a*b")) (str "xa").
Proof.
  split_and!; [by vm_compute..|].
  destruct (match_gen_spec toLower toLower_eq_NUL [] (str "*a*b") (str "xa")) as (r&E&Hr);
    [apply (bool_decide_unpack _); by vm_compute..|].
  vm_compute in E. intros H%Hr. by simplify_eq.
Qed.

(** * Correctness of collapse() *)

Section collapse_spec.

Lemma collapse_go_lit star c m :
  ~ is_wild c -> ~ (c = "\"%char /\ is_wild (chr m)) ->
  collapse_go star (c :: m) =
  (if star then ["*"%char] else []) ++ c :: collapse_go false m.
Proof.
  intros [Hs Hq]%not_is_wild He. simpl. rewrite !decide_False by done.
  destruct m as [|d m]; [done|]. by rewrite decide_False.
Qed.

Lemma collapse_go_esc star d m :
  is_wild d ->
  collapse_go star ("\"%char :: d :: m) =
  (if star then ["*"%char] else []) ++ "\"%char :: d :: collapse_go false m.
Proof. intros Hd. simpl. by rewrite decide_True. Qed.

Implicit Types out gap r : list ascii.

(** The pending star is written into the gap it has opened. *)
Lemma pack_star_spec out gap c r star :
  (star = true -> gap <> []) ->
  let emit := star && negb (bool_decide (c = "?"%char)) in
  exists gap', (length gap = length gap' + (if emit then 1 else 0))%nat /\
  pack_star (out ++ gap ++ c :: r) (length out) (length out + length gap) star =
  Ok ((out ++ if emit then ["*"%char] else []) ++ gap' ++ c :: r,
      length (out ++ if emit then ["*"%char] else []), star && bool_decide (c = "?"%char)).
Proof.
  intros Hgap. unfold pack_star. rewrite rd_gap by done. simpl.
  destruct star; simpl; [|exists gap; rewrite app_nil_r; split; [lia|done]].
  case_bool_decide as E; simpl.
  - exists gap. rewrite app_nil_r. split; [lia|]. rewrite decide_False by tauto. done.
  - destruct gap as [|g gap]; [by destruct Hgap|]. exists gap. split; [simpl; lia|].
    rewrite decide_True by done. rewrite (wr_middle _ out g (gap ++ c :: r)) by done.
    simpl. rewrite length_app, <- app_assoc. simpl. by rewrite Nat.add_1_r.
Qed.

Lemma rd_escaped_spec out gap c r i :
  i = (length out + length gap)%nat ->
  c <> "\"%char \/ r <> [] ->
  rd_escaped ((out ++ [c]) ++ tl (gap ++ [c]) ++ r) i =
  Ok (bool_decide (c = "\"%char /\ is_wild (chr r))).
Proof.
  intros -> Hr. unfold rd_escaped. rewrite (rd_gap_last out gap c r (length out + length gap)) by done. cbn [mbind result_bind].
  case_decide as E; [|rewrite bool_decide_false by tauto; done].
  destruct r as [|d r]; [naive_solver|].
  rewrite (rd_gap (out ++ [c]) (tl (gap ++ [c])) d r) by (rewrite length_app, length_tl_snoc; simpl; lia).
  cbn [mbind result_bind]. f_equal. apply bool_decide_ext. simpl. tauto.
Qed.

(** The copy of a character, or of an escape and the wildcard it protects. *)
Lemma pack_copy_lit out gap c r :
  ~ (c = "\"%char /\ is_wild (chr r)) -> c <> "\"%char \/ r <> [] ->
  pack_copy (out ++ gap ++ c :: r) (length out) (length out + length gap) =
  Ok ((out ++ [c]) ++ tl (gap ++ [c]) ++ r, length (out ++ [c]), length out + length gap)%nat.
Proof.
  intros He Hr. unfold pack_copy. rewrite rd_gap by done. simpl.
  rewrite wr_gap. simpl. rewrite rd_escaped_spec by done. simpl.
  rewrite bool_decide_false by done. rewrite length_app. simpl. by rewrite Nat.add_1_r.
Qed.

Lemma pack_copy_esc out gap d r :
  is_wild d ->
  exists gap', length gap' = length gap /\
  pack_copy (out ++ gap ++ "\"%char :: d :: r) (length out) (length out + length gap) =
  Ok ((out ++ ["\"%char; d]) ++ gap' ++ r, length (out ++ ["\"%char; d]),
      S (length out + length gap)) /\
  rd ((out ++ ["\"%char; d]) ++ gap' ++ r) (S (length out + length gap)) = Ok d.
Proof.
  intros Hd. set (gap1 := tl (gap ++ ["\"%char])). exists (tl (gap1 ++ [d])).
  assert (Hl : length gap1 = length gap) by apply length_tl_snoc.
  split; [by rewrite length_tl_snoc|].
  replace (out ++ ["\"%char; d]) with ((out ++ ["\"%char]) ++ [d]) by by rewrite <- app_assoc.
  split.
  - unfold pack_copy. rewrite rd_gap by done. simpl. rewrite wr_gap. simpl.
    rewrite rd_escaped_spec by auto. simpl. rewrite bool_decide_true by done.
    fold gap1. rewrite rd_gap by (rewrite length_app; simpl; lia). simpl.
    replace (S (length out)) with (length (out ++ ["\"%char])) by (rewrite length_app; simpl; lia).
    rewrite wr_gap. simpl. by rewrite !length_app, !Nat.add_1_r.
  - apply rd_gap_last. rewrite length_app. simpl. lia.
Qed.


(** One turn of the second loop on anything but a star. *)
Definition pack_turn mem b m star : result (list ascii * nat * nat * bool) :=
  '(mem, b, star) ← pack_star mem b m star;
  '(mem, b, m) ← pack_copy mem b m;
  Ok (mem, b, m, star).

Lemma collapse_pack_S fuel mem b m star c :
  rd mem m = Ok c ->
  collapse_pack (S fuel) mem b m star =
  ('(mem, b, m, star) ← (if decide (c = "*"%char) then Ok (mem, b, m, true)
                         else pack_turn mem b m star);
   c ← rd mem m;
   if decide (c = NUL) then Ok mem else collapse_pack fuel mem b (S m) star).
Proof. intros H. cbn [collapse_pack]. by rewrite H. Qed.

Definition pending (star : bool) : list ascii := if star then ["*"%char] else [].

(** What a turn leaves: the text written, a gap, and the rest at the next
    position to read. *)
Definition turn_post out gap (w r : list ascii) (n : nat) (star : bool) last
    (o : result (list ascii * nat * nat * bool)) : Prop :=
  exists gap', o = Ok ((out ++ w) ++ gap' ++ r, length (out ++ w),
      (length out + length gap + n)%nat, star) /\
    (length (out ++ w) + length gap' = S (length out + length gap + n))%nat /\
    (star = true -> gap' <> []) /\
    rd ((out ++ w) ++ gap' ++ r) (length out + length gap + n) = Ok last.

Lemma pack_turn_lit out gap c r star :
  (star = true -> gap <> []) -> c <> "?"%char ->
  ~ (c = "\"%char /\ is_wild (chr r)) -> c <> "\"%char \/ r <> [] ->
  turn_post out gap (pending star ++ [c]) r 0 false c
    (pack_turn (out ++ gap ++ c :: r) (length out) (length out + length gap) star).
Proof.
  intros Hgap Hq He Hr. unfold pack_turn.
  destruct (pack_star_spec out gap c r star) as (gap'&Hl&->); [done|].
  rewrite bool_decide_false in Hl |- * by done. rewrite andb_true_r, andb_false_r in *.
  cbn [mbind result_bind]. fold (pending star). set (out' := out ++ pending star).
  assert (length out + length gap = length out' + length gap')%nat as E.
  { unfold out', pending. rewrite length_app. destruct star; simpl in *; lia. }
  rewrite E, pack_copy_lit by done. cbn [mbind result_bind].
  exists (tl (gap' ++ [c])). rewrite !(app_assoc out (pending star)), E, Nat.add_0_r. fold out'. split_and!; try done.
  - rewrite length_app, length_tl_snoc. simpl. lia.
  - apply rd_gap_last. lia.
Qed.

Lemma pack_turn_any out gap r star :
  (star = true -> gap <> []) ->
  turn_post out gap ["?"%char] r 0 star "?"%char
    (pack_turn (out ++ gap ++ "?"%char :: r) (length out) (length out + length gap) star).
Proof.
  intros Hgap. unfold pack_turn, pack_star. rewrite rd_gap by done. cbn [mbind result_bind].
  rewrite decide_False by tauto. cbn [mbind result_bind]. rewrite (pack_copy_lit out gap) by (try left; naive_solver).
  cbn [mbind result_bind]. exists (tl (gap ++ ["?"%char])). rewrite Nat.add_0_r.
  split_and!; try done.
  - rewrite length_app, length_tl_snoc. simpl. lia.
  - intros Hs%Hgap. destruct gap as [|g gap]; [done|]. by destruct gap.
  - by apply rd_gap_last.
Qed.

Lemma pack_turn_esc out gap d r star :
  (star = true -> gap <> []) -> is_wild d ->
  turn_post out gap (pending star ++ ["\"%char; d]) r 1 false d
    (pack_turn (out ++ gap ++ "\"%char :: d :: r) (length out) (length out + length gap) star).
Proof.
  intros Hgap Hd. unfold pack_turn.
  destruct (pack_star_spec out gap "\"%char (d :: r) star) as (gap'&Hl&->); [done|].
  rewrite bool_decide_false in Hl |- * by done. rewrite andb_true_r, andb_false_r in *.
  cbn [mbind result_bind]. fold (pending star). set (out' := out ++ pending star).
  assert (length out + length gap = length out' + length gap')%nat as E.
  { unfold out', pending. rewrite length_app. destruct star; simpl in *; lia. }
  rewrite E. destruct (pack_copy_esc out' gap' d r) as (gap2&Hl2&->&Hrd); [done|].
  cbn [mbind result_bind].
  exists gap2. rewrite !(app_assoc out (pending star)), E, Nat.add_1_r. fold out'. split_and!; try done.
  rewrite length_app. simpl. lia.
Qed.

Lemma collapse_pack_spec fuel m ts star out gap r :
  mask_view m ts -> is_cstr m -> (length m < fuel)%nat -> (star = true -> gap <> []) ->
  exists junk, collapse_pack fuel (out ++ gap ++ m ++ NUL :: r) (length out)
    (length out + length gap) star = Ok (out ++ collapse_go star m ++ NUL :: junk ++ r).
Proof.
  intros Hv. revert fuel star out gap.
  induction Hv as [|m ts Hv IH|m ts Hv IH|d m ts Hd Hv IH|c m ts Hw He Hv IH];
    intros fuel star out gap Hm Hf Hgap; (destruct fuel as [|fuel]; [simpl in Hf; lia|]);
    cbn [app]; rewrite (collapse_pack_S _ _ _ _ _ _ (rd_gap out gap _ _ _ eq_refl)).
  - rewrite decide_False by done.
    destruct (pack_turn_lit out gap NUL r star) as (gap'&->&Hl&_&Hrd);
      [done|done|naive_solver|by left|].
    cbn [mbind result_bind]. rewrite Hrd. cbn [mbind result_bind].
    rewrite decide_True by done. exists gap'. f_equal. unfold pending.
    destruct star; simpl; by rewrite <- !app_assoc.
  - apply is_cstr_tail in Hm. rewrite decide_True by done. cbn [mbind result_bind].
    rewrite rd_gap by done. cbn [mbind result_bind]. rewrite decide_False by done.
    destruct (IH fuel true out (gap ++ ["*"%char])) as [junk Hj];
      [done|simpl in Hf; lia|intros _; by destruct gap|].
    exists junk. rewrite <- app_assoc, length_app in Hj. simpl in Hj |- *.
    by rewrite <- Hj, Nat.add_1_r, Nat.add_succ_r.
  - apply is_cstr_tail in Hm. rewrite decide_False by done.
    destruct (pack_turn_any out gap (m ++ NUL :: r) star) as (gap'&->&Hl&Hg'&Hrd); [done|].
    cbn [mbind result_bind]. rewrite Hrd. cbn [mbind result_bind]. rewrite decide_False by done.
    rewrite <- Hl. destruct (IH fuel star (out ++ ["?"%char]) gap') as [junk ->];
      [done|simpl in Hf; lia|done|]. exists junk. by rewrite <- app_assoc.
  - apply is_cstr_cons in Hm as [_ Hm]. apply is_cstr_tail in Hm. rewrite decide_False by done.
    destruct (pack_turn_esc out gap d (m ++ NUL :: r) star) as (gap'&->&Hl&Hg'&Hrd); [done..|].
    cbn [mbind result_bind]. rewrite Hrd. cbn [mbind result_bind].
    rewrite decide_False by by apply wild_not_NUL.
    rewrite <- Hl. edestruct (IH fuel false) as [junk ->];
      [done|simpl in Hf; lia|done|]. exists junk. rewrite collapse_go_esc by done.
    by rewrite <- !app_assoc.
  - apply is_cstr_cons in Hm as [Hc Hm]. assert (Hw' := Hw). apply not_is_wild in Hw' as [? ?].
    rewrite decide_False by done.
    assert (chr (m ++ NUL :: r) = chr m) as Hchr by by destruct m.
    destruct (pack_turn_lit out gap c (m ++ NUL :: r) star) as (gap'&->&Hl&Hg'&Hrd);
      [done|done|by rewrite Hchr|by destruct m; right|].
    cbn [mbind result_bind]. rewrite Hrd. cbn [mbind result_bind].
    rewrite decide_False by done.
    rewrite <- Hl. edestruct (IH fuel false) as [junk ->];
      [done|simpl in Hf; lia|done|]. exists junk. rewrite collapse_go_lit by done.
    by rewrite <- !app_assoc.
Qed.

Lemma collapse_go_star m :
  ~ is_wild (chr m) -> collapse_go true m = "*"%char :: collapse_go false m.
Proof.
  intros Hw. destruct (mask_view_tokens m) as [|m ts ?|m ts ?|d m ts Hd ?|c m ts Hc He ?];
    simpl in Hw.
  - done.
  - destruct Hw. by left.
  - destruct Hw. by right.
  - by rewrite !collapse_go_esc.
  - by rewrite !collapse_go_lit.
Qed.

Lemma collapse_scan_spec fuel m ts pre r :
  mask_view m ts -> is_cstr m -> (length m < fuel)%nat ->
  exists junk, collapse_scan fuel (pre ++ m ++ NUL :: r) (length pre) =
    Ok (pre ++ collapse_go false m ++ NUL :: junk ++ r).
Proof.
  intros Hv. revert fuel pre.
  assert (Hesc : forall pre c m', c <> "\"%char \/ m' <> [] ->
    rd_escaped (pre ++ c :: m') (length pre) = Ok (bool_decide (c = "\"%char /\ is_wild (chr m')))).
  { intros pre c m' H. pose proof (rd_escaped_spec pre [] c m' (length pre)) as E.
    simpl in E. rewrite <- app_assoc in E. apply E; [lia|done]. }
  assert (Hrd : forall (pre : list ascii) c m', rd (pre ++ c :: m') (length pre) = Ok c).
  { intros. by apply (rd_middle _ pre c m'). }
  assert (Hrd1 : forall (pre : list ascii) c d m', rd (pre ++ c :: d :: m') (S (length pre)) = Ok d).
  { intros. apply (rd_middle _ (pre ++ [c]) d m'); [by rewrite <- app_assoc|].
    rewrite length_app. simpl. lia. }
  induction Hv as [|m ts Hv IH|m ts Hv IH|d m ts Hd Hv IH|c m ts Hw He Hv IH];
    intros fuel pre Hm Hf; (destruct fuel as [|fuel]; [simpl in Hf; lia|]);
    cbn [app]; cbn [collapse_scan]; rewrite Hrd; cbn [mbind result_bind].
  - rewrite decide_False by done. cbn [mbind result_bind].
    rewrite Hesc by by left. rewrite bool_decide_false by naive_solver.
    cbn [mbind result_bind]. rewrite Hrd. cbn [mbind result_bind]. rewrite decide_True by done.
    by exists [].
  - apply is_cstr_tail in Hm. rewrite decide_True by done.
    assert (rd (pre ++ "*"%char :: m ++ NUL :: r) (S (length pre)) = Ok (chr m)) as ->.
    { destruct m as [|d m]; apply Hrd1. }
    cbn [mbind result_bind]. case_bool_decide as Hc.
    + destruct (collapse_pack_spec (length (pre ++ "*"%char :: m ++ NUL :: r))
        ("*"%char :: m) (Star :: ts) false pre [] r) as [junk Hj].
      * by constructor.
      * by apply is_cstr_cons.
      * rewrite length_app. simpl. rewrite length_app. simpl. lia.
      * done.
      * exists junk. rewrite Nat.add_0_r in Hj. exact Hj.
    + rewrite Hesc by by left. rewrite bool_decide_false by naive_solver.
      cbn [mbind result_bind]. rewrite Hrd. cbn [mbind result_bind].
      rewrite decide_False by done.
      destruct (IH fuel (pre ++ ["*"%char])) as [junk Hj]; [done|simpl in Hf; lia|].
      exists junk. rewrite length_app, Nat.add_1_r, <- !app_assoc in Hj. simpl in Hj |- *.
      rewrite Hj. by rewrite collapse_go_star.
  - apply is_cstr_tail in Hm. rewrite decide_False by done. cbn [mbind result_bind].
    rewrite Hesc by by left. rewrite bool_decide_false by naive_solver.
    cbn [mbind result_bind]. rewrite Hrd. cbn [mbind result_bind]. rewrite decide_False by done.
    destruct (IH fuel (pre ++ ["?"%char])) as [junk Hj]; [done|simpl in Hf; lia|].
    exists junk. by rewrite length_app, Nat.add_1_r, <- !app_assoc in Hj.
  - apply is_cstr_cons in Hm as [_ Hm]. apply is_cstr_tail in Hm.
    rewrite decide_False by done. cbn [mbind result_bind].
    rewrite Hesc by by right. rewrite bool_decide_true by done.
    cbn [mbind result_bind]. rewrite Hrd1. cbn [mbind result_bind].
    rewrite decide_False by by apply wild_not_NUL.
    destruct (IH fuel (pre ++ ["\"%char; d])) as [junk Hj]; [done|simpl in Hf; lia|].
    exists junk. rewrite collapse_go_esc by done.
    by rewrite length_app, Nat.add_comm, <- !app_assoc in Hj.
  - apply is_cstr_cons in Hm as [Hc Hm]. assert (Hw' := Hw). apply not_is_wild in Hw' as [? ?].
    rewrite decide_False by done. cbn [mbind result_bind].
    rewrite Hesc by by destruct m; right.
    rewrite bool_decide_false by by destruct m.
    cbn [mbind result_bind]. rewrite Hrd. cbn [mbind result_bind]. rewrite decide_False by done.
    destruct (IH fuel (pre ++ [c])) as [junk Hj]; [done|simpl in Hf; lia|].
    exists junk. rewrite collapse_go_lit by done.
    by rewrite length_app, Nat.add_1_r, <- !app_assoc in Hj.
Qed.

Lemma chr_collapse_go m : ~ is_wild (chr m) -> chr (collapse_go false m) = chr m.
Proof.
  intros Hw. destruct (mask_view_tokens m) as [|m ts ?|m ts ?|d m ts Hd ?|c m ts Hc He ?];
    simpl in Hw.
  - done.
  - destruct Hw. by left.
  - destruct Hw. by right.
  - by rewrite !collapse_go_esc.
  - by rewrite !collapse_go_lit.
Qed.

Lemma tokens_pending star m :
  tokens (pending star ++ m) = (if star then [Star] else []) ++ tokens m.
Proof. by destruct star. Qed.

Lemma collapse_go_lit_escape c m :
  ~ (c = "\"%char /\ is_wild (chr m)) ->
  ~ (c = "\"%char /\ is_wild (chr (collapse_go false m))).
Proof. intros He [-> Hw]. apply He. split; [done|]. destruct (decide (is_wild (chr m)));
  [done|]. by rewrite chr_collapse_go in Hw. Qed.

Lemma collapse_go_glob fold m star s :
  glob fold (tokens (collapse_go star m)) s <->
  glob fold ((if star then [Star] else []) ++ tokens m) s.
Proof.
  revert star s. induction (mask_view_tokens m)
    as [|m ts Hv IH|m ts Hv IH|d m ts Hd Hv IH|c m ts Hw He Hv IH]; intros star s.
  - by destruct star.
  - change (collapse_go star ("*"%char :: m)) with (collapse_go true m). rewrite IH.
    destruct star; simpl; [|done]. by rewrite glob_star_star.
  - change (collapse_go star ("?"%char :: m)) with ("?"%char :: collapse_go star m).
    change (tokens ("?"%char :: collapse_go star m)) with (Any :: tokens (collapse_go star m)).
    destruct star; simpl; rewrite glob_any_inv; setoid_rewrite IH; simpl;
      [|by rewrite glob_any_inv].
    destruct s as [|a s]; [split; [by intros (?&?&?&_)|by intros ?%glob_star_any_nil]|].
    rewrite glob_star_any_cons. naive_solver.
  - rewrite collapse_go_esc by done.
    fold (pending star). rewrite tokens_pending, tokens_esc by done.
    destruct star; simpl; rewrite ?glob_star_inv; setoid_rewrite glob_lit_inv; by setoid_rewrite IH.
  - rewrite collapse_go_lit by done.
    fold (pending star). rewrite tokens_pending, tokens_lit by (try done; by apply collapse_go_lit_escape).
    destruct star; simpl; rewrite ?glob_star_inv; setoid_rewrite glob_lit_inv; by setoid_rewrite IH.
Qed.

Lemma collapse_go_twice m star t :
  collapse_go t (collapse_go star m) = collapse_go (t || star) m.
Proof.
  revert star t. induction (mask_view_tokens m)
    as [|m ts Hv IH|m ts Hv IH|d m ts Hd Hv IH|c m ts Hw He Hv IH]; intros star t.
  - by destruct star, t.
  - change (collapse_go ?b ("*"%char :: m)) with (collapse_go true m). by rewrite IH, orb_true_r.
  - change (collapse_go ?b ("?"%char :: ?m)) with ("?"%char :: collapse_go b m). by rewrite <- IH.
  - rewrite !collapse_go_esc by done. destruct star.
    + change (collapse_go t (["*"%char] ++ ?m)) with (collapse_go true m).
      rewrite collapse_go_esc, IH by done. by destruct t.
    + cbn [app]. rewrite collapse_go_esc, IH by done. by destruct t.
  - rewrite !collapse_go_lit by done.
    assert (~ (c = "\"%char /\ is_wild (chr (collapse_go false m))))
      by by apply collapse_go_lit_escape.
    destruct star.
    + change (collapse_go t (["*"%char] ++ ?m)) with (collapse_go true m).
      rewrite collapse_go_lit, IH by done. by destruct t.
    + cbn [app]. rewrite collapse_go_lit, IH by done. by destruct t.
Qed.

Lemma collapse_go_length star m :
  (length (collapse_go star m) <= length m + if star then 1 else 0)%nat.
Proof.
  revert star. induction (mask_view_tokens m)
    as [|m ts Hv IH|m ts Hv IH|d m ts Hd Hv IH|c m ts Hw He Hv IH]; intros star.
  - by destruct star.
  - change (collapse_go star ("*"%char :: m)) with (collapse_go true m).
    specialize (IH true). simpl in *. destruct star; lia.
  - change (collapse_go star ("?"%char :: m)) with ("?"%char :: collapse_go star m).
    specialize (IH star). simpl in *. lia.
  - rewrite collapse_go_esc by done. specialize (IH false).
    destruct star; simpl in *; lia.
  - rewrite collapse_go_lit by done. specialize (IH false).
    destruct star; simpl in *; lia.
Qed.

Lemma collapse_go_cstr star m : is_cstr m -> is_cstr (collapse_go star m).
Proof.
  revert star. induction (mask_view_tokens m)
    as [|m ts Hv IH|m ts Hv IH|d m ts Hd Hv IH|c m ts Hw He Hv IH]; intros star Hm;
    [by destruct star; repeat constructor|apply is_cstr_cons in Hm as [Hc Hm]..].
  - by apply (IH true).
  - apply is_cstr_cons. split; [done|by apply IH].
  - rewrite collapse_go_esc by done. apply is_cstr_cons in Hm as [? ?]. apply is_cstr_app.
    rewrite !is_cstr_cons. split_and!; auto. by destruct star; repeat constructor.
  - rewrite collapse_go_lit by done. apply is_cstr_app. rewrite is_cstr_cons.
    split_and!; auto. by destruct star; repeat constructor.
Qed.

(** The text that collapse() leaves in a buffer. *)
Lemma collapse_spec m rest :
  is_cstr m ->
  exists junk, collapse (Some (m ++ NUL :: rest)) =
    Ok (Some (collapse_go false m ++ NUL :: junk ++ rest)).
Proof.
  intros Hm. destruct (collapse_scan_spec (length (m ++ NUL :: rest)) m (tokens m) [] rest)
    as [junk Hj]; [apply mask_view_tokens|done|rewrite length_app; simpl; lia|].
  exists junk. unfold collapse. simpl in Hj. by rewrite Hj.
Qed.

End collapse_spec.

(** collapse() rewrites the mask in place, inside its buffer and within the
    fuel, to a mask that stands for the same strings, whatever the folding; a
    second call changes nothing. *)
Theorem collapse_correct mask rest :
  is_cstr mask ->
  exists mask' junk,
    collapse (Some (mask ++ NUL :: rest)) = Ok (Some (mask' ++ NUL :: junk ++ rest)) /\
    (forall fold s, glob fold (tokens mask') s <-> glob fold (tokens mask) s) /\
    collapse_go false mask' = mask' /\ mask' = collapse_go false mask.
Proof.
  intros Hm. destruct (collapse_spec mask rest) as [junk ->]; [done|]. exists (collapse_go false mask), junk.
  split_and!; [done| |by apply collapse_go_twice|done].
  intros fold s. by rewrite collapse_go_glob.
Qed.

(** Witness of [collapse_correct]. *)
Lemma collapse_correct_witness :
  collapse (Some (str "a*?**\**" ++ NUL :: [])) = Ok (Some (str "a?*\**" ++ NUL :: "*"%char :: [NUL])) /\
  exists mask' junk,
    collapse (Some (str "a*?**\**" ++ NUL :: [])) = Ok (Some (mask' ++ NUL :: junk ++ [])) /\
    (forall fold s, glob fold (tokens mask') s <-> glob fold (tokens (str "a*?**\**")) s) /\
    collapse_go false mask' = mask' /\ mask' = collapse_go false (str "a*?**\**").
Proof.
  split; [|apply (collapse_correct (str "a*?**\**") []); apply (bool_decide_unpack _); vm_compute; exact I].
  vm_compute. reflexivity.
Defined.
