(* ===== verification/Matchcomp.v ===== *)
(** Matchcomp: the compiled masks of ircd/match.c, matchcomp(), matchexec() and
    matchdecomp().

    A compiled mask is the mask without escapes and in lower case, with 'A' for a
    question mark and 'Z' for a star, the part after the last star reversed and
    moved behind the first one; together with the number of characters that a
    string needs at least.  The theorem is that running a compiled mask is
    match(). *)

From S2P Require Import Prelude Common Match.

(** * matchcomp() *)

Definition ANY : ascii := "A"%char.
Definition STAR : ascii := "Z"%char.

(** The variables of the scan: [out] is what lies between [cmask] and [b]. *)
Record comp := mkComp {
  out : list ascii; fs : option nat; ls : option nat; star : bool;
  cnt : Z; chset : Z; chset2 : Z }.

(** [ls = b; fs = fs ? fs : b; *b++ = 'Z';] *)
Definition put_star (k : comp) : comp :=
  let b := length (out k) in
  mkComp (out k ++ [STAR]) (Some (default b (fs k))) (Some b) (star k) (cnt k) (chset k) (chset2 k).

(** The default case *)
Definition put_char (ch : ascii) (k : comp) : comp :=
  let k := if star k then
             let k := put_star k in
             mkComp (out k) (fs k) (ls k) false (cnt k) (chset k) (Z.land (chset2 k) (Z.lnot NTL_LOWER))
           else k in
  let c := toLower ch in
  mkComp (out k ++ [c]) (fs k) (ls k) (star k) (cnt k + 1) (Z.land (chset k) (char_attrib c))
    (Z.land (chset2 k) (Z.lnot NTL_UPPER)).

Fixpoint comp_scan (m : cstring) (k : comp) : comp :=
  match m with
  | [] => k
  | ch :: m' =>
      if decide (ch = "*"%char) then
        comp_scan m' (mkComp (out k) (fs k) (ls k) true (cnt k) (chset k) (chset2 k))
      else if decide (ch = "?"%char) then
        comp_scan m' (mkComp (out k ++ [ANY]) (fs k) (ls k) (star k) (cnt k + 1) (chset k)
                        (Z.land (chset2 k) (Z.lnot NTL_LOWER)))
      else match m' with
           | d :: m'' =>
               if decide (ch = "\"%char /\ is_wild d) then comp_scan m'' (put_char d k)
               else comp_scan m' (put_char ch k)
           | [] => comp_scan m' (put_char ch k)
           end
  end.

Definition swap (mem : list ascii) (i j : nat) : result (list ascii) :=
  a ← rd mem i; b ← rd mem j; mem ← wr mem i b; wr mem j a.

(** [for (x1 = ls + 1, x2 = (b - 1); x1 < x2; x1++, x2--)] *)
Fixpoint mirror (fuel : nat) (mem : list ascii) (x1 x2 : nat) : result (list ascii) :=
  match fuel with
  | O => Fuel
  | S fuel =>
      if decide (x1 < x2)%nat then mem ← swap mem x1 x2; mirror fuel mem (S x1) (x2 - 1) else Ok mem
  end.

(** [for (loop = 0; loop < lmin; loop++)] *)
Fixpoint swap_blocks (n : nat) (mem : list ascii) (x1 x2 : nat) : result (list ascii) :=
  match n with O => Ok mem | S n => mem ← swap mem x1 x2; swap_blocks n mem (S x1) (S x2) end.

(** [while ((lmin = (l1 < l2) ? l1 : l2))] *)
Fixpoint rotate (fuel : nat) (mem : list ascii) (x1 l1 l2 : nat) : result (list ascii) :=
  match fuel with
  | O => Fuel
  | S fuel =>
      let lmin := if decide (l1 < l2)%nat then l1 else l2 in
      if decide (lmin = O) then Ok mem
      else
        mem ← swap_blocks lmin mem x1 (x1 + l1);
        rotate fuel mem (x1 + lmin)
          (if decide (l1 < l2)%nat then l1 else l1 - lmin) (if decide (l2 < l1)%nat then l2 else l2 - lmin)
  end.

(** The compiled mask, [minlen] and [charset] *)
Definition matchcomp (mask : option cstring) : result (cstring * Z * Z) :=
  let k0 := mkComp [] None None false 0 (Z.lnot 0) (Z.lor NTL_LOWER NTL_UPPER) in
  let k := match mask with Some m => comp_scan m k0 | None => k0 end in
  let charset := Z.lor (chset k) (chset2 k) in
  let k := if star k then put_star k else k in
  let b := length (out k) in
  mem ← match ls k, fs k with
        | Some l, Some f =>
            mem ← mirror (S b) (out k) (S l) (b - 1);
            rotate (S b) mem f (l - f) (b - l)
        | _, _ => Ok (out k)
        end;
  Ok (mem, cnt k, charset).

(** * matchexec()

    The string is a buffer [S] in which it starts at index 1: the function reads
    the byte before it. The pointers are indices; [b] is the last position read in
    the compiled mask [C]. *)

Inductive head := HReturn (r : Z) | HStar (s b : nat).

(** [tryhead]: [s] and [b] are the positions to read next. *)
Fixpoint tryhead (fuel : nat) (S C : list ascii) (s b : nat) : result head :=
  match fuel with
  | O => Fuel
  | Datatypes.S fuel =>
      c ← rd S s; d ← rd C b;
      if decide (toLower c = d /\ c <> NUL) then tryhead fuel S C (s + 1) (b + 1)
      else if decide (c = NUL) then
        if decide (d = NUL) then Ok (HReturn 0)
        else if decide (d = STAR) then
          e ← rd C (b + 1); Ok (HReturn (if decide (e = NUL) then 0 else 1))
        else Ok (HReturn 1)
      else if decide (d = STAR) then Ok (HStar s b)
      else if decide (d = ANY) then tryhead fuel S C (s + 1) (b + 1)
      else Ok (HReturn 1)
  end.

(** [while ( *++s);] *)
Fixpoint to_end (fuel : nat) (S : list ascii) (s : nat) : result nat :=
  match fuel with
  | O => Fuel
  | Datatypes.S fuel => c ← rd S (s + 1); if decide (c = NUL) then Ok (s + 1)%nat else to_end fuel S (s + 1)
  end.

Inductive tail := TReturn (r : Z) | TStar (b : nat).

(** [trytail]: the four comparisons of the source are one turn each. *)
Fixpoint trytail (fuel : nat) (S C : list ascii) (s b : nat) : result tail :=
  match fuel with
  | O => Fuel
  | Datatypes.S fuel =>
      match s with
      | O => Ub
      | Datatypes.S s =>
          c ← rd S s; d ← rd C (b + 1);
          if decide (toLower c = d /\ d <> NUL) then trytail fuel S C s (b + 1)
          else if decide (d = STAR) then Ok (TStar (b + 1))
          else if decide (d = ANY) then trytail fuel S C s (b + 1)
          else Ok (TReturn (if decide (d = NUL) then 0 else 1))
      end
  end.

(** [while ((toLower( *++s) != ch)) if (--trash < 0) return 4;] *)
Fixpoint seek_chunk (fuel : nat) (S : list ascii) (ch : ascii) (s : nat) (trash : Z) : result (option (nat * Z)) :=
  match fuel with
  | O => Fuel
  | Datatypes.S fuel =>
      c ← rd S (s + 1);
      if decide (toLower c = ch) then Ok (Some ((s + 1)%nat, trash))
      else if decide (trash - 1 < 0) then Ok None else seek_chunk fuel S ch (s + 1) (trash - 1)
  end.

Inductive chunk := CReturn (r : Z) | CStar (s b : nat) | CRollback.

(** [trychunk] *)
Fixpoint trychunk (fuel : nat) (S C : list ascii) (s b : nat) : result chunk :=
  match fuel with
  | O => Fuel
  | Datatypes.S fuel =>
      c ← rd S (s + 1); d ← rd C (b + 1);
      if decide (toLower c = d /\ d <> NUL) then trychunk fuel S C (s + 1) (b + 1)
      else if decide (d = NUL) then Ok (CReturn 0)
      else if decide (d = STAR) then Ok (CStar s (b + 1))
      else if decide (d = ANY) then trychunk fuel S C (s + 1) (b + 1)
      else Ok CRollback
  end.

(** [while ((ch = *++b))] *)
Fixpoint chunks (fuel : nat) (S C : list ascii) (s b : nat) (trash : Z) : result Z :=
  match fuel with
  | O => Fuel
  | Datatypes.S fuel =>
      ch ← rd C (b + 1);
      if decide (ch = NUL) then Ok 0
      else
        o ← seek_chunk (length S) S ch s trash;
        match o with
        | None => Ok 4
        | Some (bs, trash) =>
            k ← trychunk (length C) S C bs (b + 1);
            match k with
            | CReturn r => Ok r
            | CStar s b => chunks fuel S C s b trash
            | CRollback => if decide (trash - 1 < 0) then Ok 5 else chunks fuel S C bs b (trash - 1)
            end
        end
  end.

Definition matchexec (S : list ascii) (cmask : cstring) (minlen : Z) : result Z :=
  let C := cmask ++ [NUL] in
  h ← tryhead (length C) S C 1 0;
  match h with
  | HReturn r => Ok r
  | HStar bs b =>
      e ← to_end (length S) S bs;
      let trash := Z.of_nat e - 1 - minlen in
      if decide (trash < 0) then Ok 2
      else
        t ← trytail (length C) S C e b;
        match t with
        | TReturn r => Ok r
        | TStar b => chunks (length S * length C) S C (bs - 1) b trash
        end
  end.

(** * The normal form of a mask

    Stars are moved behind the question marks that follow them. *)

Fixpoint settle (star : bool) (ts : list token) : list token :=
  match ts with
  | [] => if star then [Star] else []
  | Star :: ts => settle true ts
  | Any :: ts => Any :: settle star ts
  | Lit c :: ts => (if star then [Star] else []) ++ Lit c :: settle false ts
  end.

Lemma settle_glob fold star ts s :
  glob fold (settle star ts) s <-> glob fold ((if star then [Star] else []) ++ ts) s.
Proof.
  revert star s. induction ts as [|[| |c] ts IH]; intros star s; cbn [settle].
  - by destruct star.
  - rewrite IH. destruct star; cbn [app]; [by rewrite glob_star_star|done].
  - rewrite glob_any_inv. setoid_rewrite IH. destruct star; cbn [app]; [|by rewrite glob_any_inv].
    destruct s as [|a s]; [split; [by intros (?&?&?&_)|by intros ?%glob_star_any_nil]|].
    rewrite glob_star_any_cons. naive_solver.
  - destruct star; cbn [app]; rewrite ?glob_star_inv; setoid_rewrite glob_lit_inv; by setoid_rewrite IH.
Qed.

(** The characters of a compiled mask *)
Definition enc (t : token) : ascii := match t with Star => STAR | Any => ANY | Lit c => toLower c end.

Lemma toLower_reserved c : toLower c <> STAR /\ toLower c <> ANY.
Proof.
  revert c. apply (forall_ascii_dec (fun c => toLower c <> STAR /\ toLower c <> ANY)). vm_compute. reflexivity.
Qed.

(** The groups of tokens that the stars separate, all but the last *)
Definition flat (gs : list (list token)) : list token := concat (map (cons Star) gs).

(** A group after a star starts with a character. *)
Definition group_ok (g : list token) : Prop := star_free g /\ exists c g', g = Lit c :: g'.

(** What [fs] and [ls] mark: the first star, and the last one before [g]. *)
Inductive marked : list token -> option nat -> option nat -> Prop :=
  | marked_none h : star_free h -> marked h None None
  | marked_some h gs g :
      star_free h -> Forall group_ok gs -> star_free g ->
      marked (h ++ flat gs ++ Star :: g) (Some (length h)) (Some (length (h ++ flat gs))).

(** The last star is followed by a character. *)
Definition settled (ts : list token) (f l : option nat) : Prop :=
  marked ts f l /\ forall k, l = Some k -> exists c, ts !! S k = Some (Lit c).

Lemma flat_app gs gs' : flat (gs ++ gs') = flat gs ++ flat gs'.
Proof. unfold flat. by rewrite map_app, concat_app. Qed.

Lemma marked_star ts f l :
  settled ts f l -> marked (ts ++ [Star]) (Some (default (length ts) f)) (Some (length ts)).
Proof.
  intros [Hm Hl]. destruct Hm as [h Hh|h gs g Hh Hgs Hg].
  - pose proof (marked_some h [] [] Hh) as H. cbn [flat map concat app] in H. rewrite app_nil_r in H. apply H; constructor.
  - destruct (Hl _ eq_refl) as [c Hc]. assert (group_ok g) as Hok.
    { split; [done|]. rewrite app_assoc in Hc. rewrite lookup_app_r in Hc by lia.
      replace (S (length (h ++ flat gs)) - length (h ++ flat gs))%nat with 1%nat in Hc by lia.
      destruct g as [|t g]; [done|]. cbn in Hc. simplify_eq. eauto. }
    pose proof (marked_some h (gs ++ [g]) [] Hh) as H. rewrite flat_app in H. cbn [flat map concat] in H.
    rewrite app_nil_r in H. cbn [default].
    replace ((h ++ flat gs ++ Star :: g) ++ [Star]) with (h ++ (flat gs ++ Star :: g) ++ [Star]) by by rewrite <- !app_assoc.
    apply H; [|constructor]. apply Forall_app. split; [done|]. by constructor.
Qed.

Lemma marked_atom ts f l t : t <> Star -> marked ts f l -> marked (ts ++ [t]) f l.
Proof.
  intros Ht [h Hh|h gs g Hh Hgs Hg].
  - constructor. apply Forall_app. split; [done|]. by constructor.
  - replace ((h ++ flat gs ++ Star :: g) ++ [t]) with (h ++ flat gs ++ Star :: (g ++ [t])) by by rewrite <- !app_assoc.
    constructor; [done..|]. apply Forall_app. split; [done|]. by constructor.
Qed.

Lemma settled_atom ts f l t : t <> Star -> settled ts f l -> settled (ts ++ [t]) f l.
Proof.
  intros Ht [Hm Hl]. split; [by apply marked_atom|]. intros k Hk. destruct (Hl k Hk) as [c Hc]. exists c.
  by eapply lookup_app_l_Some.
Qed.

Lemma settled_star_lit ts f l c :
  settled ts f l -> settled (ts ++ [Star; Lit c]) (Some (default (length ts) f)) (Some (length ts)).
Proof.
  intros Hs. replace (ts ++ [Star; Lit c]) with ((ts ++ [Star]) ++ [Lit c]) by by rewrite <- app_assoc.
  split; [apply marked_atom; [done|by eapply marked_star]|]. intros k [= <-]. exists c.
  rewrite lookup_app_r by (rewrite length_app; simpl; lia). rewrite length_app, Nat.add_1_r, Nat.sub_diag. done.
Qed.

(** * The scan *)

Section scan.

(** [k] has written the tokens [ts]. *)
Record wrote (k : comp) (ts : list token) : Prop := {
  w_out : out k = map enc ts;
  w_marks : settled ts (fs k) (ls k);
  w_cnt : cnt k = Z.of_nat (minlen ts) }.

Lemma wrote_char k ts c :
  wrote k ts ->
  wrote (put_char c k) (ts ++ (if star k then [Star] else []) ++ [Lit c]) /\ star (put_char c k) = false.
Proof.
  intros [Ho Hm Hc]. unfold put_char. destruct (star k) eqn:Es; cbn [star app]; (split; [|done]); constructor;
    cbn [out fs ls cnt put_star].
  - rewrite Ho, map_app, <- app_assoc. done.
  - rewrite Ho, length_map. by eapply settled_star_lit.
  - rewrite Hc, minlen_app, !minlen_cons. change (minlen []) with 0%nat. simpl. lia.
  - by rewrite Ho, map_app.
  - by apply settled_atom.
  - rewrite Hc, minlen_app, !minlen_cons. change (minlen []) with 0%nat. simpl. lia.
Qed.

(** The scan walks the tokens of the mask. *)
Definition scan_token (k : comp) (t : token) : comp :=
  match t with
  | Star => mkComp (out k) (fs k) (ls k) true (cnt k) (chset k) (chset2 k)
  | Any => mkComp (out k ++ [ANY]) (fs k) (ls k) (star k) (cnt k + 1) (chset k) (Z.land (chset2 k) (Z.lnot NTL_LOWER))
  | Lit c => put_char c k
  end.

Lemma comp_scan_tokens m k : comp_scan m k = foldl scan_token k (tokens m).
Proof.
  revert k. induction (mask_view_tokens m) as [|m us _ IH|m us _ IH|d m us Hd _ IH|c m us Hw He _ IH]; intros k;
    cbn [foldl scan_token]; rewrite <- ?IH; [done..| |].
  - cbn [comp_scan]. by rewrite (decide_True (P := _ /\ _)).
  - apply not_is_wild in Hw as [H1 H2]. cbn [comp_scan]. rewrite !decide_False by done.
    destruct m as [|d m]; [done|]. by rewrite decide_False.
Qed.

Lemma comp_scan_spec m k ts :
  wrote k ts ->
  let k' := comp_scan m k in
  exists us, wrote k' (ts ++ us) /\ settle (star k) (tokens m) = us ++ (if star k' then [Star] else []).
Proof.
  rewrite comp_scan_tokens. generalize (tokens m). intros tm. revert k ts.
  induction tm as [|t tm IH]; intros k ts Hk; [exists []; by rewrite app_nil_r|].
  cbn [foldl]. destruct t as [| |c].
  - apply (IH (scan_token k Star) ts). by destruct Hk.
  - destruct (IH (scan_token k Any) (ts ++ [Any])) as (vs&Hw&Hs).
    { destruct Hk as [Ho Hm Hc]. constructor; cbn.
      - by rewrite Ho, map_app.
      - by apply settled_atom.
      - rewrite Hc, minlen_app, !minlen_cons. change (minlen []) with 0%nat. simpl. lia. }
    exists (Any :: vs). rewrite <- app_assoc in Hw. split; [exact Hw|]. cbn [settle app]. f_equal. exact Hs.
  - destruct (wrote_char k ts c Hk) as [Hk1 Hst]. destruct (IH _ _ Hk1) as (vs&Hw&Hs).
    exists ((if star k then [Star] else []) ++ Lit c :: vs). cbn [settle scan_token]. rewrite Hst in Hs.
    split; [by rewrite <- !app_assoc in Hw|]. rewrite Hs. by rewrite <- !app_assoc.
Qed.

(** The two character sets *)
Definition lit_bit (i : Z) (t : token) : bool :=
  match t with Lit c => Z.testbit (char_attrib (toLower c)) i | _ => true end.
Definition not_lit (t : token) : bool := match t with Lit _ => false | _ => true end.

Lemma comp_scan_chset m k i :
  Z.testbit (chset (comp_scan m k)) i = Z.testbit (chset k) i && forallb (lit_bit i) (tokens m).
Proof.
  rewrite comp_scan_tokens. revert k. induction (tokens m) as [|t ts IH]; intros k; cbn [foldl forallb]; [by rewrite andb_true_r|].
  rewrite IH. destruct t as [| |c]; [done|done|]. unfold scan_token, put_char.
  destruct (star k); cbn [chset put_star]; by rewrite Z.land_spec, andb_assoc.
Qed.

(** Bit 9 is NTL_UPPER. *)
Lemma comp_scan_chset2 m k :
  Z.testbit (chset2 (comp_scan m k)) 9 = Z.testbit (chset2 k) 9 && forallb not_lit (tokens m).
Proof.
  rewrite comp_scan_tokens. revert k. induction (tokens m) as [|t ts IH]; intros k; cbn [foldl forallb]; [by rewrite andb_true_r|].
  rewrite IH. destruct t as [| |c]; [done| |]; unfold scan_token, put_char.
  - cbn [chset2]. by rewrite Z.land_spec, andb_true_r.
  - destruct (star k); cbn [chset2 put_star]; rewrite !Z.land_spec; by rewrite ?andb_false_r.
Qed.

End scan.

(** * The rotation in place *)

Lemma swap_spec p a q b r :
  swap (p ++ a :: q ++ b :: r) (length p) (length p + S (length q)) = Ok (p ++ b :: q ++ a :: r).
Proof.
  unfold swap. rewrite (rd_middle _ p a (q ++ b :: r) (length p)) by done. cbn [mbind result_bind].
  rewrite (rd_middle _ (p ++ a :: q) b r) by (rewrite ?length_app, <- ?app_assoc; done). cbn [mbind result_bind].
  rewrite (wr_middle _ p a (q ++ b :: r)) by done. cbn [mbind result_bind].
  rewrite (wr_middle _ (p ++ b :: q) b r) by (rewrite ?length_app, <- ?app_assoc; done).
  by rewrite <- app_assoc.
Qed.

Lemma mirror_spec fuel p w r x1 x2 :
  (length w < fuel)%nat -> x1 = length p -> (S x2 = length p + length w \/ (length w <= 1 /\ x2 <= x1))%nat ->
  mirror fuel (p ++ w ++ r) x1 x2 = Ok (p ++ rev w ++ r).
Proof.
  revert p w r x1 x2. induction fuel as [|fuel IH]; intros p w r x1 x2 Hf -> Hx; [lia|]. cbn [mirror].
  destruct w as [|a w]; [rewrite decide_False by (simpl in Hx; lia); done|].
  destruct w as [|b w _] using rev_ind; [rewrite decide_False by (simpl in Hx; lia); done|].
  cbn [length] in *. rewrite length_app in *. cbn [length] in *. rewrite decide_True by lia.
  replace x2 with (length p + S (length w))%nat by lia.
  replace (p ++ (a :: w ++ [b]) ++ r) with (p ++ a :: w ++ b :: r) by (cbn [app]; by rewrite <- app_assoc).
  rewrite swap_spec. cbn [mbind result_bind].
  specialize (IH (p ++ [b]) w (a :: r) (S (length p)) (length p + S (length w) - 1)%nat).
  rewrite <- !app_assoc in IH. cbn [app] in IH. rewrite IH; [|lia|rewrite length_app; simpl; lia|rewrite length_app; simpl; lia].
  cbn [rev]. rewrite rev_app_distr. cbn [rev app]. by rewrite <- app_assoc.
Qed.

Lemma swap_blocks_spec a p x b r :
  length a = length b ->
  swap_blocks (length a) (p ++ a ++ x ++ b ++ r) (length p) (length p + length a + length x) =
    Ok (p ++ b ++ x ++ a ++ r).
Proof.
  revert p x b. induction a as [|c a IH]; intros p x [|d b] Hl; simpl in Hl; try done.
  cbn [swap_blocks length]. injection Hl as Hl.
  replace (p ++ (c :: a) ++ x ++ (d :: b) ++ r) with (p ++ c :: (a ++ x) ++ d :: (b ++ r))
    by (cbn [app]; by rewrite <- app_assoc).
  replace (length p + S (length a) + length x)%nat with (length p + S (length (a ++ x)))%nat
    by (rewrite length_app; lia).
  rewrite swap_spec. cbn [mbind result_bind].
  specialize (IH (p ++ [d]) (x ++ [c]) b Hl). rewrite !length_app in IH. cbn [length] in IH.
  rewrite <- !app_assoc in IH. cbn [app] in IH. rewrite <- app_assoc. cbn [app].
  replace (S (length p)) with (length p + 1)%nat by lia. rewrite length_app.
  replace (S (length p + S (length a + length x)))%nat with (length p + 1 + length a + (length x + 1))%nat by lia.
  exact IH.
Qed.

Lemma rotate_spec fuel p a b r :
  (length a + length b < fuel)%nat ->
  rotate fuel (p ++ a ++ b ++ r) (length p) (length a) (length b) = Ok (p ++ b ++ a ++ r).
Proof.
  revert p a b r. induction fuel as [|fuel IH]; intros p a b r Hf; [lia|]. cbn [rotate].
  destruct (decide (length a < length b)%nat) as [Hlt|Hge].
  - destruct (decide (length a = 0%nat)) as [E|E]; [apply length_zero_iff_nil in E; by subst|].
    rewrite <- (take_drop (length a) b). set (b1 := take (length a) b). set (b2 := drop (length a) b).
    assert (length b1 = length a) as Hb1 by (subst b1; rewrite length_take; lia).
    pose proof (swap_blocks_spec a p [] b1 (b2 ++ r) (eq_sym Hb1)) as Hs. cbn [app length] in Hs.
    rewrite Nat.add_0_r in Hs. rewrite <- app_assoc, Hs. cbn [mbind result_bind].
    rewrite decide_False by (rewrite length_app; lia).
    specialize (IH (p ++ b1) a b2 r). rewrite length_app, Hb1, <- !app_assoc in IH.
    replace (length (b1 ++ b2) - length a)%nat with (length b2) by (rewrite length_app; lia).
    rewrite IH; [by rewrite <- app_assoc|]. subst b1 b2. rewrite length_drop. lia.
  - destruct (decide (length b = 0%nat)) as [E|E]; [apply length_zero_iff_nil in E; by subst; rewrite !app_nil_l|].
    assert (exists a1 a2, a = a1 ++ a2 /\ length a1 = length b) as (a1&a2&->&Ha1).
    { exists (take (length b) a), (drop (length b) a). rewrite take_drop, length_take. split; [done|lia]. }
    rewrite length_app in *. pose proof (swap_blocks_spec a1 p a2 b r Ha1) as Hs.
    replace (length p + (length a1 + length a2))%nat with (length p + length a1 + length a2)%nat by lia.
    rewrite <- app_assoc, <- Ha1, Hs. cbn [mbind result_bind].
    specialize (IH (p ++ b) a2 a1 r). rewrite length_app, <- Ha1, <- !app_assoc in IH.
    replace (length a1 + length a2 - length a1)%nat with (length a2) by lia.
    destruct (decide (length a1 < length a1 + length a2)%nat) as [Hlt2|Hge2].
    + rewrite IH by lia. by rewrite <- app_assoc.
    + assert (a2 = []) as -> by (apply length_zero_iff_nil; lia). rewrite app_nil_r, Nat.sub_diag.
      destruct fuel as [|fuel]; [lia|]. done.
Qed.

(** The compiled mask of a mask in normal form *)
Definition compiled (h : list token) (rest : option (list (list token) * list token)) : list token :=
  match rest with None => h | Some (gs, g) => h ++ Star :: rev g ++ flat gs end.

Definition plain (h : list token) (rest : option (list (list token) * list token)) : list token :=
  match rest with None => h | Some (gs, g) => h ++ flat gs ++ Star :: g end.

Definition parts_ok (h : list token) (rest : option (list (list token) * list token)) : Prop :=
  star_free h /\ match rest with None => True | Some (gs, g) => Forall group_ok gs /\ star_free g end.

Lemma finish_spec (o : list ascii) ts f l b :
  marked ts f l -> o = map enc ts -> b = length o ->
  exists h rest, ts = plain h rest /\ parts_ok h rest /\
    match l, f with
    | Some l, Some f => mem ← mirror (S b) o (S l) (b - 1); rotate (S b) mem f (l - f) (b - l)
    | _, _ => Ok o
    end = Ok (map enc (compiled h rest)).
Proof.
  intros Hm -> ->. destruct Hm as [h Hh|h gs g Hh Hgs Hg]; [by exists h, None|].
  exists h, (Some (gs, g)). split_and!; [done|done|]. cbn [compiled].
  rewrite !map_app. cbn [map enc]. set (H := map enc h). set (F := map enc (flat gs)). set (G := map enc g).
  pose proof (mirror_spec (S (length (H ++ F ++ STAR :: G))) (H ++ F ++ [STAR]) G [] (S (length (h ++ flat gs)))
    (length (H ++ F ++ STAR :: G) - 1)%nat) as Hmir.
  rewrite !app_nil_r, <- !app_assoc in Hmir. cbn [app] in Hmir.
  assert (length (h ++ flat gs) = length H + length F)%nat as El by (subst H F; rewrite length_app, !length_map; lia).
  rewrite Hmir; [|rewrite !length_app; simpl; lia|rewrite El, !length_app; simpl; lia|left; rewrite !length_app; simpl; lia].
  cbn [mbind result_bind]. pose proof (rotate_spec (S (length (H ++ F ++ STAR :: G))) H F (STAR :: rev G) []) as Hrot.
  rewrite !app_nil_r in Hrot. cbn [length] in Hrot. rewrite length_rev in Hrot.
  replace (length h) with (length H) by (subst H; by rewrite length_map).
  replace (length (h ++ flat gs) - length H)%nat with (length F) by lia.
  replace (length (H ++ F ++ STAR :: G) - length (h ++ flat gs))%nat with (S (length G))
    by (rewrite El, !length_app; simpl; lia).
  rewrite Hrot by (rewrite !length_app; simpl; lia). subst H F G. rewrite ?map_app, map_rev. done.
Qed.

Lemma matchcomp_spec mask :
  exists h rest charset, settle false (tokens mask) = plain h rest /\ parts_ok h rest /\
    matchcomp (Some mask) = Ok (map enc (compiled h rest), Z.of_nat (minlen (plain h rest)), charset).
Proof.
  set (k0 := mkComp [] None None false 0 (Z.lnot 0) (Z.lor NTL_LOWER NTL_UPPER)).
  assert (wrote k0 []) as H0 by (constructor; [done|split; [by repeat constructor|done]|done]).
  destruct (comp_scan_spec mask k0 [] H0) as (us&Hw&Hs). cbn [app star k0] in Hw, Hs.
  unfold matchcomp. fold k0. set (k := comp_scan mask k0) in *.
  set (k' := if star k then put_star k else k).
  assert (out k' = map enc (settle false (tokens mask)) /\
    marked (settle false (tokens mask)) (fs k') (ls k') /\ cnt k' = Z.of_nat (minlen (settle false (tokens mask)))) as (Ho&Hm&Hc).
  { destruct Hw as [Ho Hm Hc]. rewrite Hs. subst k'. destruct (star k) eqn:Es; cbn [put_star out fs ls cnt].
    - rewrite map_app, Ho, Hc, minlen_app. change (minlen [Star]) with 0%nat. rewrite Nat.add_0_r.
      split_and!; [done| |done].
      rewrite length_map. by eapply marked_star.
    - rewrite app_nil_r. split_and!; [done|apply Hm|done]. }
  destruct (finish_spec (out k') _ (fs k') (ls k') (length (out k')) Hm Ho eq_refl) as (h&rest&Hp&Hok&Hf).
  exists h, rest. eexists. split_and!; [done|done|]. rewrite <- Hp, <- Hc.
  destruct (ls k') as [l|], (fs k') as [f|]; cbn [mbind result_bind] in *; rewrite ?Hf; cbn [mbind result_bind]; try done.
  all: by injection Hf as ->.
Qed.

(** * matchexec() *)

(** A token other than a star against a character *)
Definition fits (t : token) (a : ascii) : Prop :=
  match t with Lit c => toLower a = toLower c | Any => True | Star => False end.
#[export] Instance fits_dec t a : Decision (fits t a).
Proof. destruct t; simpl; apply _. Defined.

Lemma glob_fits ts s : star_free ts -> glob toLower ts s <-> Forall2 fits ts s.
Proof.
  intros Hf. revert s. induction Hf as [|t ts Ht _ IH]; intros s.
  - rewrite glob_nil_inv. split; [intros ->; constructor|by inversion 1].
  - destruct t as [| |c]; [done|rewrite glob_any_inv|rewrite glob_lit_inv]; (split;
      [intros (a&s'&->&H)|inversion 1 as [|? a ? s' H1 H2]; subst; exists a, s']).
    + constructor; [done|by apply IH].
    + split; [done|by apply IH].
    + destruct H as [? ?]. constructor; [done|by apply IH].
    + split_and!; [done|done|by apply IH].
Qed.

(** The comparison of the code: equal, or 'A' *)
Lemma enc_any t : t <> Star -> enc t = ANY <-> t = Any.
Proof. destruct t as [| |c]; simpl; [done|done|]. intros _. split; [by intros ?%(proj2 (toLower_reserved c))|done]. Qed.

Lemma enc_not_star t : t <> Star -> enc t <> STAR.
Proof. destruct t as [| |c]; simpl; [done|done|]. intros _. apply toLower_reserved. Qed.

Definition lits_ok (ts : list token) : Prop := Forall (fun t => t <> Lit NUL) ts.

Lemma enc_not_nul t : t <> Lit NUL -> enc t <> NUL.
Proof. destruct t as [| |c]; simpl; [done|done|]. intros Hn E%(proj1 (toLower_NUL c)). by subst. Qed.

Lemma fits_enc t a : t <> Star -> fits t a <-> toLower a = enc t \/ enc t = ANY.
Proof.
  intros Ht. rewrite enc_any by done. destruct t as [| |c]; simpl; [done| |]; intuition congruence.
Qed.

(** One comparison of [tryhead], [trytail] and [trychunk] with the token [t]: *)
Lemma compare_cases {B} t a (P : Prop) `{Decision P} (next fail star' : B) :
  t <> Star -> P ->
  (if decide (toLower a = enc t /\ P) then next
   else if decide (enc t = STAR) then star' else if decide (enc t = ANY) then next else fail) =
  if decide (fits t a) then next else fail.
Proof.
  intros Ht HP. pose proof (fits_enc t a Ht) as Hf. pose proof (enc_not_star t Ht).
  rewrite (decide_False (P := enc t = STAR)) by done.
  destruct (decide (fits t a)) as [Hy|Hn].
  - apply Hf in Hy as [Hy|Hy]; [by rewrite decide_True|]. destruct (decide _); [done|]. by rewrite decide_True.
  - rewrite !decide_False by tauto. done.
Qed.

(** Reading at the seam of two lists *)
Lemma rd_here (S0 : list ascii) c S1 : rd (S0 ++ c :: S1) (length S0) = Ok c.
Proof. by apply (rd_middle _ S0 c S1). Qed.

Lemma rd_next (S0 : list ascii) c d S1 : rd (S0 ++ c :: d :: S1) (length S0 + 1) = Ok d.
Proof. apply (rd_middle _ (S0 ++ [c]) d S1); [by rewrite <- app_assoc|by rewrite length_app]. Qed.

Definition head_end (r s : list ascii) (i j : nat) : head :=
  match s, r with
  | [], d :: r' =>
      if decide (d = NUL) then HReturn 0
      else match r' with e :: _ => HReturn (if decide (e = NUL) then 0 else 1) | [] => HReturn 1 end
  | _, d :: _ => if decide (d = STAR) then HStar i j else HReturn 1
  | _, [] => HReturn 1
  end.

(** What follows the head in a compiled mask *)
Definition head_rest (r : list ascii) : Prop := r = [NUL] \/ exists e r', r = STAR :: e :: r'.

Lemma tryhead_spec h s fuel (S0 C0 r : list ascii) :
  star_free h -> lits_ok h -> is_cstr s -> head_rest r -> (length h < fuel)%nat ->
  exists k, tryhead fuel (S0 ++ s ++ [NUL]) (C0 ++ map enc h ++ r) (length S0) (length C0) = Ok k /\
    ((exists h0 s', s = h0 ++ s' /\ Forall2 fits h h0 /\ k = head_end r s' (length S0 + length h) (length C0 + length h)) \/
     (k = HReturn 1 /\ forall h0 s', s = h0 ++ s' -> ~ Forall2 fits h h0)).
Proof.
  intros Hh Hl Hs Hr. revert s S0 C0 fuel Hs. induction h as [|t h IH]; intros s S0 C0 [|fuel] Hs Hf; try (simpl in Hf; lia).
  - cbn [tryhead map app length]. exists (head_end r s (length S0 + 0) (length C0 + 0)). split; [|by left; exists [], s].
    rewrite !Nat.add_0_r.
    assert (exists c s1, s ++ [NUL] = c :: s1 /\ (c = NUL <-> s = [])) as (c&s1&->&Hc).
    { destruct s as [|c s]; [by exists NUL, []|]. apply is_cstr_cons in Hs as [? _]. exists c, (s ++ [NUL]). by split_and!. }
    rewrite rd_here. cbn [mbind result_bind]. destruct Hr as [->|(e&r'&->)].
    + rewrite rd_here. cbn [mbind result_bind]. destruct (decide (toLower c = NUL /\ c <> NUL)) as [[E ?]|_].
      { by apply (proj1 (toLower_NUL _)) in E. }
      destruct (decide (c = NUL)) as [E|E]; [apply Hc in E; by subst s|].
      rewrite !decide_False by done. destruct s; [by destruct E; apply Hc|done].
    + rewrite rd_here. cbn [mbind result_bind].
      rewrite (decide_False (P := _ /\ _)) by (intros [E _]; by apply toLower_reserved in E).
      destruct (decide (c = NUL)) as [E|E].
      * apply Hc in E as ->. rewrite decide_False, decide_True by done.
        rewrite rd_next. done.
      * rewrite decide_True by done. destruct s; [by destruct E; apply Hc|done].
  - inversion_clear Hh as [|? ? Ht Hh']. inversion_clear Hl as [|? ? Hn Hl'].
    cbn [tryhead map app]. destruct s as [|a s].
    + cbn [app]. rewrite !rd_here. cbn [mbind result_bind]. rewrite (decide_False (P := _ /\ _)) by tauto.
      rewrite decide_True by done. rewrite !decide_False by (by apply enc_not_nul || by apply enc_not_star).
      exists (HReturn 1). split; [done|]. right. split; [done|]. intros h0 s' E. symmetry in E. apply app_nil in E as [-> ->].
      by inversion 1.
    + apply is_cstr_cons in Hs as [Ha Hs]. cbn [app]. rewrite !rd_here. cbn [mbind result_bind].
      rewrite (decide_False (P := a = NUL)) by done. rewrite compare_cases by done.
      replace (S0 ++ a :: s ++ [NUL]) with ((S0 ++ [a]) ++ s ++ [NUL]) by by rewrite <- app_assoc.
      replace (C0 ++ enc t :: map enc h ++ r) with ((C0 ++ [enc t]) ++ map enc h ++ r) by by rewrite <- app_assoc.
      destruct (decide (fits t a)) as [Hy|Hy].
      * destruct (IH Hh' Hl' s (S0 ++ [a]) (C0 ++ [enc t]) fuel Hs) as (k&Hk&H); [simpl in Hf; lia|].
        rewrite !length_app in Hk. exists k. split; [exact Hk|]. destruct H as [(h0&s'&->&?&->)|[-> H]].
        -- left. exists (a :: h0), s'. split_and!; [done|by constructor|]. rewrite !length_app. simpl. f_equal; lia.
        -- right. split; [done|]. intros [|a' h0] s' E Hx; inversion Hx; simplify_eq/=. by eapply H.
      * exists (HReturn 1). split; [done|]. right. split; [done|]. intros [|a' h0] s' E Hx; inversion Hx; by simplify_eq/=.
Qed.

Lemma to_end_spec fuel (S0 : list ascii) c s :
  is_cstr s -> (length s < fuel)%nat ->
  to_end fuel (S0 ++ c :: s ++ [NUL]) (length S0) = Ok (length S0 + 1 + length s)%nat.
Proof.
  revert S0 c s. induction fuel as [|fuel IH]; intros S0 c s Hs Hf; [lia|]. cbn [to_end].
  destruct s as [|d s].
  - cbn [app]. rewrite rd_next. cbn [mbind result_bind]. rewrite decide_True by done. simpl. f_equal. lia.
  - apply is_cstr_cons in Hs as [Hd Hs]. cbn [app]. rewrite rd_next. cbn [mbind result_bind].
    rewrite decide_False by done.
    replace (S0 ++ c :: d :: s ++ [NUL]) with ((S0 ++ [c]) ++ d :: s ++ [NUL]) by by rewrite <- app_assoc.
    replace (length S0 + 1)%nat with (length (S0 ++ [c])) by by rewrite length_app.
    rewrite IH by (done || (simpl in Hf; lia)). rewrite length_app. simpl. f_equal. lia.
Qed.

(** What follows a group in a compiled mask *)
Definition group_rest (r : list ascii) : Prop := exists d r', r = d :: r' /\ (d = NUL \/ d = STAR).

Definition tail_end (r : list ascii) (j : nat) : tail :=
  match r with d :: _ => if decide (d = STAR) then TStar j else TReturn 0 | [] => TReturn 0 end.

Lemma trytail_spec g fuel (S0 w post C0 r : list ascii) y :
  star_free g -> lits_ok g -> group_rest r -> S0 <> [] -> (length g <= length w)%nat -> (length g < fuel)%nat ->
  exists k, trytail fuel (S0 ++ w ++ post) (C0 ++ y :: map enc (rev g) ++ r) (length S0 + length w) (length C0) = Ok k /\
    ((exists w0 t, w = w0 ++ t /\ Forall2 fits g t /\ k = tail_end r (length C0 + 1 + length g)) \/
     (k = TReturn 1 /\ forall w0 t, w = w0 ++ t -> ~ Forall2 fits g t)).
Proof.
  intros Hg Hl Hr H0. revert fuel w post C0 y. induction g as [|t g IH] using rev_ind; intros [|fuel] w post C0 y Hw Hf; try (simpl in Hf; lia).
  - cbn [trytail rev map app]. destruct (length S0 + length w)%nat as [|n] eqn:En; [destruct S0; [done|simpl in En; lia]|].
    destruct (rd_lt (S0 ++ w ++ post) n) as (c&->&_); [rewrite !length_app; lia|].
    destruct Hr as (d&r'&->&Hd). cbn [mbind result_bind]. rewrite rd_next. cbn [mbind result_bind].
    exists (tail_end (d :: r') (length C0 + 1)). split; [|left; exists w, []; rewrite app_nil_r, Nat.add_0_r; by split_and!].
    destruct Hd as [->| ->]; cbn [tail_end].
    + rewrite (decide_False (P := _ /\ _)) by tauto. by rewrite !decide_False, decide_True by done.
    + rewrite (decide_False (P := _ /\ _)) by (intros [E _]; by apply toLower_reserved in E). by rewrite !decide_True.
  - apply Forall_app in Hg as [Hg Ht]. apply Forall_app in Hl as [Hl Hn].
    apply Forall_cons in Ht as [Ht _]. apply Forall_cons in Hn as [Hn _]. rewrite length_app in *. cbn [length] in *.
    destruct w as [|a w _] using rev_ind; [simpl in Hw; lia|]. rewrite length_app in *. cbn [length] in *.
    rewrite rev_app_distr. cbn [trytail rev map app].
    replace (length S0 + (length w + 1))%nat with (S (length (S0 ++ w))) by (rewrite length_app; lia).
    replace (S0 ++ (w ++ [a]) ++ post) with ((S0 ++ w) ++ a :: post) by by rewrite <- !app_assoc.
    rewrite rd_here, rd_next. cbn [mbind result_bind].
    rewrite (compare_cases t a (enc t <> NUL)) by (done || by apply enc_not_nul).
    replace (C0 ++ y :: enc t :: map enc (rev g) ++ r) with ((C0 ++ [y]) ++ enc t :: map enc (rev g) ++ r) by by rewrite <- app_assoc.
    destruct (decide (fits t a)) as [Hy|Hy].
    + destruct (IH Hg Hl fuel w (a :: post) (C0 ++ [y]) (enc t)) as (k&Hk&H); [lia|lia|].
      rewrite !length_app in Hk. rewrite <- (app_assoc S0 w), length_app. exists k. split; [exact Hk|].
      destruct H as [(w0&u&->&Hu&->)|[-> H]].
      * left. exists w0, (u ++ [a]). rewrite <- app_assoc, length_app. split_and!; [done| |f_equal; simpl; lia].
        apply Forall2_app; [done|]. by repeat constructor.
      * right. split; [done|]. intros w0 u E Hx. apply Forall2_app_inv_l in Hx as (u1&u2&Hu1&Hu2&->).
        inversion Hu2 as [|? b ? ? ? Hnil]; subst. inversion Hnil; subst. rewrite app_assoc in E.
        apply app_inj_tail in E as [-> _]. by eapply H.
    + exists (TReturn 1). rewrite decide_False by by apply enc_not_nul. split; [done|]. right. split; [done|].
      intros w0 u E Hx. apply Forall2_app_inv_l in Hx as (u1&u2&Hu1&Hu2&->).
      inversion Hu2 as [|? b ? ? Hb Hnil]; subst. inversion Hnil; subst. rewrite app_assoc in E.
      apply app_inj_tail in E as [_ ->]. done.
Qed.

Lemma seek_chunk_spec fuel ch (S0 m post : list ascii) x trash :
  0 <= trash < Z.of_nat (length m) -> (length m < fuel)%nat ->
  exists o, seek_chunk fuel (S0 ++ x :: m ++ post) ch (length S0) trash = Ok o /\
    match o with
    | Some (p, tr) => exists m1 a m2, m = m1 ++ a :: m2 /\ toLower a = ch /\ Forall (fun b => toLower b <> ch) m1 /\
        p = (length S0 + 1 + length m1)%nat /\ tr = trash - Z.of_nat (length m1) /\ 0 <= tr
    | None => forall m1 a m2, m = m1 ++ a :: m2 -> toLower a = ch -> trash < Z.of_nat (length m1)
    end.
Proof.
  revert S0 m x trash. induction fuel as [|fuel IH]; intros S0 m x trash Ht Hf; [lia|].
  destruct m as [|a m]; [simpl in Ht; lia|]. cbn [seek_chunk app]. rewrite rd_next. cbn [mbind result_bind].
  destruct (decide (toLower a = ch)) as [E|E].
  { eexists. split; [done|]. exists [], a, m. simpl. split_and!; try done; lia. }
  destruct (decide (trash - 1 < 0)) as [Hn|Hn].
  { exists None. split; [done|]. intros [|b m1] a' m2 Em Ha; simplify_eq/=; lia. }
  replace (S0 ++ x :: a :: m ++ post) with ((S0 ++ [x]) ++ a :: m ++ post) by by rewrite <- app_assoc.
  replace (length S0 + 1)%nat with (length (S0 ++ [x])) by by rewrite length_app.
  destruct (IH (S0 ++ [x]) m a (trash - 1)) as (o&->&H); [simpl in Ht; lia|simpl in Hf; lia|]. exists o. split; [done|].
  destruct o as [[p tr]|].
  - destruct H as (m1&b&m2&->&Hb&Hm1&->&->&?). exists (a :: m1), b, m2. rewrite length_app. cbn [length app].
    split_and!; [done|done|by constructor|lia|lia|lia].
  - intros [|b m1] a' m2 Em Ha; [by simplify_eq/=|]. injection Em as <- Em. specialize (H m1 a' m2 Em Ha). simpl. lia.
Qed.

Definition chunk_end (r : list ascii) (i j : nat) : chunk :=
  match r with d :: _ => if decide (d = NUL) then CReturn 0 else CStar i j | [] => CReturn 0 end.

Lemma trychunk_spec g fuel (S0 m post C0 r : list ascii) x y :
  star_free g -> lits_ok g -> group_rest r -> post <> [] -> (length g <= length m)%nat -> (length g < fuel)%nat ->
  exists k, trychunk fuel (S0 ++ x :: m ++ post) (C0 ++ y :: map enc g ++ r) (length S0) (length C0) = Ok k /\
    ((exists m1 m2, m = m1 ++ m2 /\ Forall2 fits g m1 /\ k = chunk_end r (length S0 + length g) (length C0 + 1 + length g)) \/
     (k = CRollback /\ forall m1 m2, m = m1 ++ m2 -> ~ Forall2 fits g m1)).
Proof.
  intros Hg Hl Hr Hp. revert fuel S0 m C0 x y. induction g as [|t g IH]; intros [|fuel] S0 m C0 x y Hm Hf; try (simpl in Hf; lia).
  - cbn [trychunk map app]. destruct Hr as (d&r'&->&Hd).
    assert (exists c l, m ++ post = c :: l) as (c&l&->) by (destruct m; [destruct post; [done|by eexists _, _]|by eexists _, _]).
    rewrite rd_next. cbn [mbind result_bind]. rewrite rd_next. cbn [mbind result_bind].
    exists (chunk_end (d :: r') (length S0) (length C0 + 1)).
    split; [|left; exists [], m; rewrite !Nat.add_0_r; by split_and!]. destruct Hd as [->| ->]; cbn [chunk_end].
    + rewrite (decide_False (P := _ /\ _)) by tauto. by rewrite !decide_True.
    + rewrite (decide_False (P := _ /\ _)) by (intros [E _]; by apply toLower_reserved in E).
      rewrite !(decide_False (P := STAR = NUL)) by done. by rewrite decide_True.
  - inversion_clear Hg as [|? ? Ht Hg']. inversion_clear Hl as [|? ? Hn Hl'].
    destruct m as [|a m]; [simpl in Hm; lia|]. cbn [trychunk map app].
    rewrite rd_next. cbn [mbind result_bind]. rewrite rd_next. cbn [mbind result_bind].
    rewrite (decide_False (P := enc t = NUL)) by by apply enc_not_nul.
    rewrite (compare_cases t a (enc t <> NUL)) by (done || by apply enc_not_nul).
    destruct (decide (fits t a)) as [Hy|Hy].
    + replace (S0 ++ x :: a :: m ++ post) with ((S0 ++ [x]) ++ a :: m ++ post) by by rewrite <- app_assoc.
      replace (C0 ++ y :: enc t :: map enc g ++ r) with ((C0 ++ [y]) ++ enc t :: map enc g ++ r) by by rewrite <- app_assoc.
      destruct (IH Hg' Hl' fuel (S0 ++ [x]) m (C0 ++ [y]) a (enc t)) as (k&Hk&H); [simpl in *; lia|simpl in *; lia|].
      rewrite !length_app in Hk. exists k. split; [exact Hk|]. destruct H as [(m1&m2&->&?&->)|[-> H]].
      * left. exists (a :: m1), m2. split_and!; [done|by constructor|]. rewrite !length_app. simpl. f_equal; lia.
      * right. split; [done|]. intros [|b m1] m2 E Hx; inversion Hx; simplify_eq/=. by eapply H.
    + exists CRollback. split; [done|]. right. split; [done|]. intros [|b m1] m2 E Hx; inversion Hx; by simplify_eq/=.
Qed.

(** * The chunks *)

Lemma glob_star_lit_cons c ts a s :
  toLower a = toLower c ->
  glob toLower (Star :: Lit c :: ts) (a :: s) <-> glob toLower ts s \/ glob toLower (Star :: Lit c :: ts) s.
Proof.
  intros Ha. rewrite !glob_star_inv. split.
  - intros ([|b u]&v&E&H); simplify_eq/=; [left|right; by exists u, v].
    apply glob_lit_inv in H as (b&s'&Eb&_&H). by simplify_eq.
  - intros [H|(u&v&->&H)]; [exists [], (a :: s)|by exists (a :: u), v]. split; [done|]. by constructor.
Qed.

Lemma glob_star_skip c ts m s :
  Forall (fun b => toLower b <> toLower c) m ->
  glob toLower (Star :: Lit c :: ts) (m ++ s) <-> glob toLower (Star :: Lit c :: ts) s.
Proof.
  intros Hm. split; [|apply glob_star_app]. induction Hm as [|b m Hb _ IH]; [done|]. intros H. apply IH.
  apply glob_star_inv in H as ([|b' u]&v&E&H); simplify_eq/=.
  - apply glob_lit_inv in H as (b'&s'&Eb&Hb'&_). by simplify_eq.
  - rewrite H1. by apply glob_star_app; constructor.
Qed.

(** The groups and a last star *)
Definition groups (gs : list (list token)) : list token := flat gs ++ [Star].

Lemma groups_star gs : exists ts, groups gs = Star :: ts.
Proof. destruct gs as [|g gs]; [by exists []|]. by eexists. Qed.

Lemma flat_cons g gs : flat (g :: gs) = Star :: g ++ flat gs.
Proof. done. Qed.

Lemma group_rest_flat gs : group_rest (map enc (flat gs) ++ [NUL]).
Proof. destruct gs as [|g gs]; [by exists NUL, []; auto|]. rewrite flat_cons. eexists _, _. split; [done|by right]. Qed.

Lemma chunks_spec fuel gs (S0 m post C0 : list ascii) x trash :
  gs <> [] -> Forall group_ok gs -> lits_ok (flat gs) -> post <> [] ->
  trash = Z.of_nat (length m) - Z.of_nat (minlen (flat gs)) -> 0 <= trash -> (length m < fuel)%nat ->
  exists r, chunks fuel (S0 ++ x :: m ++ post) (C0 ++ map enc (flat gs) ++ [NUL]) (length S0) (length C0) trash = Ok r /\
    (r = 0 <-> glob toLower (groups gs) m).
Proof.
  revert gs S0 m C0 x trash. induction fuel as [|fuel IH]; intros gs S0 m C0 x trash Hne Hgs Hl Hp Ht H0 Hf; [lia|].
  destruct gs as [|g gs]; [done|]. apply Forall_cons in Hgs as [[Hg (c&g'&Eg)] Hgs']. subst g.
  rewrite flat_cons in *. cbn [app] in *. apply Forall_cons in Hl as [_ Hl]. apply Forall_cons in Hl as [Hc Hl].
  apply Forall_app in Hl as [Hlg Hl]. inversion_clear Hg as [|? ? _ Hg'].
  rewrite !minlen_cons, minlen_app in Ht. cbn [decide] in Ht. rewrite decide_True, decide_False in Ht by done.
  assert (Hml : minlen g' = length g').
  { clear -Hg'. induction Hg' as [|t g Ht _ IH]; [done|]. rewrite minlen_cons, decide_False by done. simpl. by rewrite IH. }
  cbn [chunks map enc app]. rewrite rd_next. cbn [mbind result_bind].
  rewrite decide_False by (intros E; apply (proj1 (toLower_NUL c)) in E; by subst).
  destruct (seek_chunk_spec (length (S0 ++ x :: m ++ post)) (toLower c) S0 m post x trash) as (o&->&Ho);
    [lia|rewrite !length_app; simpl; rewrite length_app; lia|].
  cbn [mbind result_bind]. destruct (groups_star gs) as [ts2 Ets].
  assert (Egr : groups ((Lit c :: g') :: gs) = Star :: Lit c :: g' ++ Star :: ts2).
  { unfold groups in *. rewrite flat_cons. cbn [app]. rewrite <- app_assoc. by rewrite Ets. }
  assert (Hshort : forall u, Z.of_nat (length u) < Z.of_nat (1 + (minlen g' + minlen (flat gs)))%nat ->
    ~ glob toLower (Star :: Lit c :: g' ++ Star :: ts2) u).
  { intros u Hu H. apply glob_minlen in H. rewrite <- Ets in H. unfold groups in H.
    rewrite !minlen_cons, !minlen_app, decide_True, decide_False in H by done.
    change (minlen [Star]) with 0%nat in H. lia. }
  destruct o as [[p tr]|].
  2: { exists 4. split; [done|]. split; [done|]. rewrite Egr. intros H. exfalso.
    apply glob_star_inv in H as (u&v&->&H). assert (H' := H). apply glob_lit_inv in H as (a&v'&->&Ha&_).
    specialize (Ho u a v' eq_refl Ha). apply (Hshort (a :: v')); [rewrite length_app in Ht; lia|by constructor]. }
  destruct Ho as (m1&a&m2&->&Ha&Hm1&->&->&Htr). rewrite length_app in *. cbn [length] in *.
  assert (Hiff : glob toLower (groups ((Lit c :: g') :: gs)) (m1 ++ a :: m2) <->
    glob toLower (g' ++ Star :: ts2) m2 \/ glob toLower (Star :: Lit c :: g' ++ Star :: ts2) m2).
  { rewrite Egr, glob_star_skip by done. by apply glob_star_lit_cons. }
  replace (S0 ++ x :: (m1 ++ a :: m2) ++ post) with ((S0 ++ x :: m1) ++ a :: m2 ++ post) by (rewrite <- !app_assoc; done).
  replace (length S0 + 1 + length m1)%nat with (length (S0 ++ x :: m1)) by (rewrite length_app; simpl; lia).
  set (S1 := S0 ++ x :: m1) in *.
  replace (C0 ++ STAR :: toLower c :: map enc (g' ++ flat gs) ++ [NUL])
    with ((C0 ++ [STAR]) ++ toLower c :: map enc g' ++ (map enc (flat gs) ++ [NUL])) by (rewrite map_app, <- !app_assoc; done).
  destruct (trychunk_spec g' (length C0 + S (S (length (map enc (g' ++ flat gs) ++ [NUL])))) S1 m2 post
    (C0 ++ [STAR]) (map enc (flat gs) ++ [NUL]) a (toLower c)) as (k&Hk&H);
    [done|done|apply group_rest_flat|done|lia|rewrite length_app, map_app, !length_app, !length_map; lia|].
  rewrite (length_app C0 [STAR]) in Hk. cbn [length] in Hk. rewrite Hk. cbn [mbind result_bind].
  destruct H as [(c2&m3&->&Hfit&->)|[-> Hno]].
  - rewrite length_app in *. rewrite glob_leftmost, <- Ets in Hiff by (try done; by apply glob_fits).
    pose proof (Forall2_length _ _ _ Hfit) as Hlen.
    destruct gs as [|g2 gs].
    { exists 0. split; [done|]. split; [|done]. intros _. apply Hiff. rewrite <- (app_nil_r m3).
      apply glob_star_app. by repeat constructor. }
    change (chunk_end (map enc (flat (g2 :: gs)) ++ [NUL]) ?i ?j) with (CStar i j). cbv iota beta.
    assert (exists w y, a :: c2 = w ++ [y]) as (w&y&Ew).
    { destruct (exists_last (l := a :: c2)) as (w&y&E); [done|by exists w, y]. }
    assert (length w = length c2) as Hw by (apply (f_equal length) in Ew; rewrite length_app in Ew; simpl in Ew; lia).
    replace (S1 ++ a :: (c2 ++ m3) ++ post) with ((S1 ++ w) ++ y :: m3 ++ post)
      by (transitivity (S1 ++ (a :: c2) ++ m3 ++ post); [rewrite Ew|]; rewrite <- !app_assoc; done).
    replace ((C0 ++ [STAR]) ++ toLower c :: map enc g' ++ map enc (flat (g2 :: gs)) ++ [NUL])
      with ((C0 ++ STAR :: toLower c :: map enc g') ++ map enc (flat (g2 :: gs)) ++ [NUL]) by (rewrite <- !app_assoc; done).
    replace (length S1 + length g')%nat with (length (S1 ++ w)) by (rewrite length_app; lia).
    replace (length C0 + length [STAR] + 1 + length g')%nat with (length (C0 ++ STAR :: toLower c :: map enc g'))
      by (rewrite !length_app; simpl; rewrite length_map; lia).
    destruct (IH (g2 :: gs) (S1 ++ w) m3 (C0 ++ STAR :: toLower c :: map enc g') y (trash - Z.of_nat (length m1)))
      as (r&Hr&Hg2); [done|done|done|done|lia|lia|lia|]. exists r. split; [exact Hr|]. by rewrite Hg2, Hiff.
  - assert (Hm2 : glob toLower (groups ((Lit c :: g') :: gs)) (m1 ++ a :: m2) <-> glob toLower (groups ((Lit c :: g') :: gs)) m2).
    { rewrite Hiff, Egr. split; [|by right]. intros [H|H]; [|done]. exfalso.
      apply glob_app_inv in H as (u&v&->&Hu&_). eapply Hno; [done|]. by apply glob_fits. }
    destruct (decide (trash - Z.of_nat (length m1) - 1 < 0)) as [Hn|Hn].
    + exists 5. split; [done|]. split; [done|]. rewrite Hm2, Egr. intros H. exfalso. apply (Hshort m2); [lia|done].
    + replace ((C0 ++ [STAR]) ++ toLower c :: map enc g' ++ map enc (flat gs) ++ [NUL])
        with (C0 ++ map enc (flat ((Lit c :: g') :: gs)) ++ [NUL])
        by (rewrite flat_cons; cbn [map enc app]; rewrite map_app, <- !app_assoc; done).
      destruct (IH ((Lit c :: g') :: gs) S1 m2 C0 a (trash - Z.of_nat (length m1) - 1)) as (r&Hr&Hg2);
        [done| | |done| |lia|lia|exists r; split; [exact Hr|]; by rewrite Hg2, Hm2].
      * constructor; [|done]. split; [by constructor|eauto].
      * rewrite flat_cons. constructor; [done|]. constructor; [done|]. by apply Forall_app.
      * rewrite flat_cons. cbn [app]. rewrite !minlen_cons, minlen_app, decide_True, decide_False by done. lia.
Qed.

(** * The whole function *)

Lemma tokens_no_nul m : is_cstr m -> lits_ok (tokens m).
Proof.
  unfold lits_ok. induction (mask_view_tokens m) as [|m ts _ IH|m ts _ IH|d m ts Hd _ IH|c m ts Hw He _ IH]; intros Hm;
    [constructor|apply is_cstr_cons in Hm as [Hc Hm]..].
  - constructor; auto.
  - constructor; auto.
  - apply is_cstr_cons in Hm as [? Hm]. constructor; [congruence|auto].
  - constructor; [congruence|auto].
Qed.

Lemma settle_lits star ts : lits_ok ts -> lits_ok (settle star ts).
Proof.
  unfold lits_ok. intros H. revert star. induction H as [|t ts Ht _ IH]; intros star; [by destruct star; repeat constructor|].
  destruct t; cbn [settle]; [done|by constructor|]. destruct star; cbn [app]; repeat constructor; done.
Qed.

Lemma minlen_settle star ts : minlen (settle star ts) = minlen ts.
Proof.
  revert star. induction ts as [|[| |c] ts IH]; intros star; cbn [settle].
  - by destruct star.
  - by rewrite IH, minlen_cons.
  - by rewrite !minlen_cons, IH.
  - rewrite minlen_app, !minlen_cons, IH. by destruct star.
Qed.

Lemma minlen_rev ts : minlen (rev ts) = minlen ts.
Proof. induction ts as [|t ts IH]; [done|]. cbn [rev]. rewrite minlen_app, IH, !minlen_cons. change (minlen []) with 0%nat. lia. Qed.

Lemma length_settle star ts : (length (settle star ts) <= length ts + (if star then 1 else 0))%nat.
Proof.
  revert star. induction ts as [|[| |c] ts IH]; intros star; cbn [settle].
  - by destruct star.
  - etrans; [apply IH|]. simpl. destruct star; lia.
  - simpl. specialize (IH star). destruct star; lia.
  - specialize (IH false). rewrite length_app. destruct star; simpl in *; lia.
Qed.

Lemma length_tokens m : (length (tokens m) <= length m)%nat.
Proof.
  assert (forall ts, mask_view m ts -> (length ts <= length m)%nat) as H; [|apply H, mask_view_tokens].
  intros ts Hv. induction Hv; simpl; lia.
Qed.

Lemma length_compiled h rest : length (compiled h rest) = length (plain h rest).
Proof. destruct rest as [[gs g]|]; [|done]. cbn [compiled plain].
  rewrite !length_app. cbn [length]. rewrite length_app, length_rev. lia.
Qed.

Lemma minlen_full ts : star_free ts -> minlen ts = length ts.
Proof. induction 1 as [|t ts Ht _ IH]; [done|]. rewrite minlen_cons, decide_False by done. simpl. by rewrite IH. Qed.

(** Stars alone, between the head and the tail *)
Lemma glob_head_tail h gs g s :
  star_free h -> star_free g ->
  glob toLower (h ++ flat gs ++ Star :: g) s <->
  exists h0 m t, s = h0 ++ m ++ t /\ Forall2 fits h h0 /\ glob toLower (groups gs) m /\ Forall2 fits g t.
Proof.
  intros Hh Hg. split.
  - intros (h0&s1&->&H1&H2)%glob_app_inv. apply glob_fits in H1; [|done].
    replace (flat gs ++ Star :: g) with (groups gs ++ g) in H2 by (unfold groups; by rewrite <- app_assoc).
    apply glob_app_inv in H2 as (m&t&->&H2&H3). apply glob_fits in H3; [|done]. by exists h0, m, t.
  - intros (h0&m&t&->&H1&H2&H3). apply glob_app; [by apply glob_fits|].
    replace (flat gs ++ Star :: g) with (groups gs ++ g) by (unfold groups; by rewrite <- app_assoc).
    apply glob_app; [done|by apply glob_fits].
Qed.

(** A string cut in two ways *)
Lemma app_two_ends {A} (h u w t : list A) :
  h ++ u = w ++ t -> (length t <= length u)%nat -> exists m, u = m ++ t /\ w = h ++ m.
Proof.
  intros E Hle. assert (length h <= length w)%nat as Hlw.
  { apply (f_equal length) in E. rewrite !length_app in E. lia. }
  symmetry in E. exists (drop (length h) w). assert (take (length h) w = h) as Etk.
  { apply (f_equal (take (length h))) in E. rewrite take_app_le in E by done. by rewrite E, take_app_length. }
  split; [|rewrite <- (take_drop (length h) w) at 1; by rewrite Etk].
  apply (f_equal (drop (length h))) in E. rewrite drop_app_le in E by done. by rewrite E, drop_app_length.
Qed.

(** After the head: [S] is the buffer, [C] the compiled mask. *)
Definition after_head (k : head) (S C : list ascii) (minlen : Z) : result Z :=
  match k with
  | HReturn r => Ok r
  | HStar bs b =>
      e ← to_end (length S) S bs;
      let trash := Z.of_nat e - 1 - minlen in
      if decide (trash < 0) then Ok 2
      else
        t ← trytail (length C) S C e b;
        match t with
        | TReturn r => Ok r
        | TStar b => chunks (length S * length C) S C (bs - 1) b trash
        end
  end.

Lemma matchexec_unfold S cmask minlen :
  matchexec S cmask minlen =
  (h ← tryhead (length (cmask ++ [NUL])) S (cmask ++ [NUL]) 1 0; after_head h S (cmask ++ [NUL]) minlen).
Proof. done. Qed.

Section rest.
Context (h : list token) (gs : list (list token)) (g : list token).
Context (Hh : star_free h) (Hg : star_free g) (Hgs : Forall group_ok gs).
Context (Hlgs : lits_ok (flat gs)) (Hlg : lits_ok g).

Lemma minlen_plain : minlen (h ++ flat gs ++ Star :: g) = (length h + (minlen (flat gs) + length g))%nat.
Proof. by rewrite !minlen_app, minlen_cons, decide_True, (minlen_full h), (minlen_full g) by done. Qed.

(** The string ends with the head. *)
Lemma head_end_nil h0 d r' i j :
  Forall2 fits h h0 -> map enc (rev g ++ flat gs) ++ [NUL] = d :: r' ->
  exists r, head_end (STAR :: d :: r') [] i j = HReturn r /\ (r = 0 <-> glob toLower (h ++ flat gs ++ Star :: g) h0).
Proof.
  intros Hfit E. cbn [head_end]. rewrite decide_False by done. eexists. split; [done|].
  assert (Hlen := Forall2_length _ _ _ Hfit). destruct (decide (d = NUL)) as [->|Hd].
  - split; [intros _|done]. assert (rev g ++ flat gs = []) as [Eg Ef]%app_nil.
    { destruct (rev g ++ flat gs) as [|t l] eqn:El; [done|]. exfalso. injection E as E _. revert E. apply enc_not_nul.
      assert (lits_ok (t :: l)) as Hl; [|by apply Forall_cons in Hl as []].
      rewrite <- El. apply Forall_app. split; [|done]. by apply Forall_rev. }
    rewrite Ef. apply (f_equal (@rev token)) in Eg. rewrite rev_involutive in Eg. rewrite Eg. cbn [app rev].
    rewrite <- (app_nil_r h0). apply glob_app; [by apply glob_fits|]. repeat constructor.
  - split; [done|]. intros H%glob_minlen. exfalso. rewrite minlen_plain, <- Hlen in H.
    assert (g = []) as -> by (destruct g; [done|simpl in H; lia]).
    destruct gs as [|g1 gs']; [by injection E as <-|]. apply Forall_cons in Hgs as [[_ (c&g'&->)] _].
    rewrite flat_cons, minlen_cons, decide_True in H by done. cbn [app] in H. rewrite minlen_cons, decide_False in H by done.
    lia.
Qed.

Lemma rest_spec x h0 s' :
  Forall2 fits h h0 -> is_cstr s' ->
  exists r,
    after_head (head_end (STAR :: map enc (rev g ++ flat gs) ++ [NUL]) s' (S (length h)) (length h))
      (x :: (h0 ++ s') ++ [NUL]) (map enc h ++ STAR :: map enc (rev g ++ flat gs) ++ [NUL])
      (Z.of_nat (minlen (h ++ flat gs ++ Star :: g))) = Ok r /\
    (r = 0 <-> glob toLower (h ++ flat gs ++ Star :: g) (h0 ++ s')).
Proof.
  intros Hfit Hs. assert (Hlen := Forall2_length _ _ _ Hfit).
  destruct s' as [|c s'].
  { destruct (map enc (rev g ++ flat gs) ++ [NUL]) as [|d r'] eqn:E; [by apply app_eq_nil in E as [_ ?]|].
    destruct (head_end_nil h0 d r' (S (length h)) (length h) Hfit E) as (r&->&Hr). exists r. by rewrite app_nil_r. }
  cbn [head_end]. rewrite decide_True by done. unfold after_head. apply is_cstr_cons in Hs as [Hc Hs].
  pose proof (to_end_spec (length (x :: (h0 ++ c :: s') ++ [NUL])) (x :: h0) c s' Hs) as He.
  cbn [app length] in He. rewrite <- app_assoc in *. cbn [app length] in *. rewrite Hlen, He by (rewrite !length_app; simpl; rewrite ?length_app; simpl; lia).
  cbn [mbind result_bind]. clear He. rewrite minlen_plain, Hlen.
  destruct (decide _) as [Hn|Hn].
  { exists 2. split; [done|]. split; [done|]. intros H%glob_minlen. exfalso. rewrite minlen_plain, length_app in H. simpl in H. lia. }
  assert (Hw : (length g <= length (h0 ++ c :: s'))%nat) by (rewrite length_app; simpl; lia).
  set (FT := length (map enc h ++ STAR :: map enc (rev g ++ flat gs) ++ [NUL])).
  assert (length g < FT)%nat as HFT.
  { subst FT. rewrite length_app. simpl. rewrite length_app, !length_map, length_app, length_rev. lia. }
  clearbody FT. rewrite (map_app enc (rev g)) in *. rewrite <- !app_assoc in *. cbn [app length] in *.
  destruct (trytail_spec g FT [x] (h0 ++ c :: s') [NUL] (map enc h) (map enc (flat gs) ++ [NUL]) STAR Hg Hlg
    (group_rest_flat gs)) as (k&Hk&H); [done|done|done|].
  rewrite <- !app_assoc in Hk. cbn [app length] in Hk. rewrite length_map, Hlen in Hk.
  replace (1 + length (h0 ++ c :: s'))%nat with (S (length h0) + 1 + length s')%nat in Hk by (rewrite length_app; simpl; lia).
  rewrite Hk. cbn [mbind result_bind]. clear Hk. destruct H as [(w0&t&E&Ht&->)|[-> Hno]].
  2: { exists 1. split; [done|]. split; [done|]. intros H. exfalso. apply glob_head_tail in H as (h1&m&t&E&_&_&Ht); [|done..].
    rewrite app_assoc in E. by eapply Hno. }
  assert (Hlt := Forall2_length _ _ _ Ht).
  destruct (app_two_ends h0 (c :: s') w0 t E) as (m&Em&->); [simpl; lia|].
  clear E. assert (Hiff : glob toLower (h ++ flat gs ++ Star :: g) (h0 ++ c :: s') <-> glob toLower (groups gs) m).
  { rewrite glob_head_tail by done. split; [|intros ?; exists h0, m, t; by rewrite Em].
    intros (h1&m1&t1&E&H1&Hm&H2). apply Forall2_length in H1, H2. rewrite Em in E.
    apply app_inj_1 in E as [_ E]; [|congruence]. apply app_inj_2 in E as [-> _]; [done|congruence]. }
  assert (length m + length t = S (length s'))%nat as Hml.
  { apply (f_equal length) in Em. rewrite length_app in Em. simpl in Em. lia. }
  destruct gs as [|g1 gs'] eqn:Egs.
  { cbn [flat map concat app tail_end]. rewrite decide_False by done. exists 0. split; [done|]. split; [|done]. intros _.
    apply Hiff. rewrite <- (app_nil_r m). apply glob_star_app. repeat constructor. }
  rewrite <- Egs in *.
  change (map enc (flat gs) ++ [NUL]) with (map enc (flat gs) ++ [NUL]).
  assert (exists r1, map enc (flat gs) ++ [NUL] = STAR :: r1) as (r1&Er1) by (rewrite Egs, flat_cons; by eexists).
  replace (tail_end (map enc (flat gs) ++ [NUL])) with (tail_end (STAR :: r1)) by by rewrite Er1.
  cbn [tail_end]. rewrite decide_True by done.
  assert (exists w y, x :: h0 = w ++ [y]) as (w&y&Ew).
  { destruct (exists_last (l := x :: h0)) as (w&y&E); [done|by exists w, y]. }
  assert (length w = length h0) as Hwl by (apply (f_equal length) in Ew; rewrite length_app in Ew; simpl in Ew; lia).
  set (F := (_ * _)%nat).
  replace (x :: h0 ++ c :: s' ++ [NUL]) with (w ++ y :: m ++ (t ++ [NUL])).
  2: { transitivity ((w ++ [y]) ++ (m ++ t) ++ [NUL]); [by rewrite <- !app_assoc|]. by rewrite <- Ew, <- Em. }
  replace (map enc h ++ STAR :: map enc (rev g) ++ map enc (flat gs) ++ [NUL])
    with ((map enc h ++ STAR :: map enc (rev g)) ++ map enc (flat gs) ++ [NUL]) by by rewrite <- app_assoc.
  replace (S (length h0) - 1)%nat with (length w) by lia.
  replace (length (map enc h) + 1 + length g)%nat with (length (map enc h ++ STAR :: map enc (rev g)))
    by (rewrite length_app; simpl; rewrite !length_map, length_rev; lia).
  destruct (chunks_spec F gs w m (t ++ [NUL]) (map enc h ++ STAR :: map enc (rev g)) y
    (Z.of_nat (S (length h0) + 1 + length s') - 1 - Z.of_nat (length h0 + (minlen (flat gs) + length g))))
    as (r&Hr&Hrg); [by rewrite Egs|done|done|by destruct t|lia|lia| |exists r; split; [exact Hr|by rewrite Hrg, Hiff]].
  subst F. rewrite !length_app. simpl. rewrite !length_app. simpl. nia.
Qed.
End rest.

(** The buffer in which [x] is the byte before the string *)
Lemma matchexec_compiled h rest (x : ascii) (s : list ascii) :
  parts_ok h rest -> lits_ok (plain h rest) -> is_cstr s ->
  exists r, matchexec (x :: s ++ [NUL]) (map enc (compiled h rest)) (Z.of_nat (minlen (plain h rest))) = Ok r /\
    (r = 0 <-> glob toLower (plain h rest) s).
Proof.
  intros [Hh Hrest] Hl Hs. rewrite matchexec_unfold.
  assert (lits_ok h) as Hlh by (destruct rest as [[gs g]|]; [by apply Forall_app in Hl as [? _]|done]).
  set (R := match rest with None => [NUL] | Some (gs, g) => STAR :: map enc (rev g ++ flat gs) ++ [NUL] end).
  assert (map enc (compiled h rest) ++ [NUL] = map enc h ++ R) as ->.
  { subst R. destruct rest as [[gs g]|]; [|done]. cbn [compiled]. rewrite map_app, <- app_assoc. done. }
  assert (head_rest R) as HR.
  { subst R. destruct rest as [[gs g]|]; [right|by left]. destruct (map enc (rev g ++ flat gs)); by eexists _, _. }
  destruct (tryhead_spec h s (length (map enc h ++ R)) [x] [] R Hh Hlh Hs HR) as (k&Hk&H).
  { rewrite length_app, length_map. destruct HR as [->|(?&?&->)]; simpl; lia. }
  cbn [app length] in Hk. rewrite Hk. cbn [mbind result_bind]. clear Hk. destruct H as [(h0&s'&->&Hfit&->)|[-> Hno]].
  2: { exists 1. split; [done|]. split; [done|]. intros Hg. exfalso. destruct rest as [[gs g]|]; cbn [plain] in Hg.
    - apply glob_app_inv in Hg as (u&v&->&Hu&_). eapply Hno; [done|]. by apply glob_fits.
    - eapply (Hno s []); [by rewrite app_nil_r|]. by apply glob_fits. }
  apply is_cstr_app in Hs as [Hs0 Hs']. assert (Hlen := Forall2_length _ _ _ Hfit).
  destruct rest as [[gs g]|]; cbn [plain] in *; subst R.
  2: { destruct s' as [|c s']; cbn [head_end].
    - exists 0. rewrite decide_True by done. split; [done|]. split; [|done]. intros _. rewrite app_nil_r. by apply glob_fits.
    - rewrite decide_False by done. exists 1. split; [done|]. split; [done|]. intros Hg%glob_fits; [|done].
      apply Forall2_length in Hg. rewrite length_app in Hg. simpl in Hg. lia. }
  destruct Hrest as [Hgs Hg]. apply Forall_app in Hl as [_ Hl]. apply Forall_app in Hl as [Hlgs Hlg].
  apply Forall_cons in Hlg as [_ Hlg].
  apply (rest_spec h gs g Hh Hg Hgs Hlgs Hlg x h0 s' Hfit Hs').
Qed.

Lemma matchexec_spec mask :
  is_cstr mask ->
  exists cmask minlen charset,
    matchcomp (Some mask) = Ok (cmask, minlen, charset) /\ (length cmask <= length mask)%nat /\
    forall x s, is_cstr s ->
      exists r, matchexec (x :: s ++ [NUL]) cmask minlen = Ok r /\ (r = 0 <-> glob toLower (tokens mask) s).
Proof.
  intros Hm. destruct (matchcomp_spec mask) as (h&rest&cs&Ep&Hok&Hc). eexists _, _, cs. split; [exact Hc|]. split.
  - rewrite length_map, length_compiled, <- Ep. etrans; [apply length_settle|]. rewrite Nat.add_0_r. apply length_tokens.
  - intros x s Hs. destruct (matchexec_compiled h rest x s) as (r&Hr&Hg); [done| |done|].
    { rewrite <- Ep. by apply settle_lits, tokens_no_nul. }
    exists r. split; [done|]. rewrite Hg, <- Ep. apply (settle_glob toLower false).
Qed.

(** C2. Every mask compiles to at most as many characters as it has, and running the
    compiled mask over a string ends with 0 exactly when the string is one of those
    that the mask stands for.  It reads nothing behind the terminator, but the byte
    [x] before the string, whose value does not matter: that byte must be there to be
    read.  So it agrees with match() where match() sees a second NUL behind the string,
    and match() returns 0 whenever it does, whatever is behind the string. *)
Theorem matchexec_correct (mask s : list ascii) x rest :
  is_cstr mask -> is_cstr s ->
  exists cmask minlen charset,
    matchcomp (Some mask) = Ok (cmask, minlen, charset) /\ (length cmask <= length mask)%nat /\
    exists r r', matchexec (x :: s ++ [NUL]) cmask minlen = Ok r /\ match_ mask (zbuf s rest) = Ok r' /\
      (r = 0 <-> glob toLower (tokens mask) s) /\ (r' = 0 <-> r = 0) /\
      (r = 0 -> forall tail, match_ mask (s ++ NUL :: tail) = Ok 0).
Proof.
  intros Hm Hs. destruct (matchexec_spec mask Hm) as (cmask&minlen&charset&Hc&Hl&He).
  exists cmask, minlen, charset. split_and!; [done|done|]. destruct (He x s Hs) as (r&Hr&Hg).
  destruct (match_gen_spec toLower toLower_eq_NUL rest mask s Hm Hs) as (r'&Hr'&Hg').
  exists r, r'. split_and!; [done|done|done|by rewrite Hg|].
  intros H%Hg tail. by apply match_gen_hit; [apply toLower_eq_NUL|..].
Qed.

(** Witness of [matchexec_correct]. *)
Lemma matchexec_correct_witness :
  exists cmask minlen charset,
    matchcomp (Some (str "Head*CHUNK1*chu\*nK2*ch??k3*TaIl")) = Ok (cmask, minlen, charset) /\
    (length cmask <= length (str "Head*CHUNK1*chu\*nK2*ch??k3*TaIl"))%nat /\
    exists r r', matchexec ("/"%char :: str "headXchunk1chu*nk2YchABk3tail" ++ [NUL]) cmask minlen = Ok r /\
      match_ (str "Head*CHUNK1*chu\*nK2*ch??k3*TaIl") (zbuf (str "headXchunk1chu*nk2YchABk3tail") []) = Ok r' /\
      (r = 0 <-> glob toLower (tokens (str "Head*CHUNK1*chu\*nK2*ch??k3*TaIl")) (str "headXchunk1chu*nk2YchABk3tail")) /\
      (r' = 0 <-> r = 0) /\
      (r = 0 -> forall tail, match_ (str "Head*CHUNK1*chu\*nK2*ch??k3*TaIl") (str "headXchunk1chu*nk2YchABk3tail" ++ NUL :: tail) = Ok 0).
Proof. apply (matchexec_correct _ _ _ []); apply (bool_decide_unpack _); vm_compute; exact I. Defined.

(** * The filters of the comment *)

Lemma class_toLower class c :
  class ∈ [NTL_IRCNK; NTL_IRCUI; NTL_IRCHN] ->
  Z.land (char_attrib c) class <> 0 -> Z.land (char_attrib (toLower c)) class <> 0.
Proof.
  rewrite list_elem_of_In. intros [<-|[<-|[<-|[]]]]; revert c; [apply (forall_ascii_dec (fun c =>
    Z.land (char_attrib c) NTL_IRCNK <> 0 -> Z.land (char_attrib (toLower c)) NTL_IRCNK <> 0))
   |apply (forall_ascii_dec (fun c =>
    Z.land (char_attrib c) NTL_IRCUI <> 0 -> Z.land (char_attrib (toLower c)) NTL_IRCUI <> 0))
   |apply (forall_ascii_dec (fun c =>
    Z.land (char_attrib c) NTL_IRCHN <> 0 -> Z.land (char_attrib (toLower c)) NTL_IRCHN <> 0))]; vm_compute; reflexivity.
Qed.

Lemma toLower_not_upper c : Z.testbit (char_attrib (toLower c)) 9 = false.
Proof. revert c. apply (forall_ascii_dec (fun c => Z.testbit (char_attrib (toLower c)) 9 = false)). vm_compute. reflexivity. Qed.

Lemma lit_bit_upper t : lit_bit 9 t = not_lit t.
Proof. destruct t as [| |c]; [done|done|]. apply toLower_not_upper. Qed.

Lemma matchcomp_charset mask cmask minlen charset :
  matchcomp (Some mask) = Ok (cmask, minlen, charset) ->
  exists set2, charset = Z.lor (chset (comp_scan mask (mkComp [] None None false 0 (Z.lnot 0) (Z.lor NTL_LOWER NTL_UPPER)))) set2 /\
    Z.testbit set2 9 = forallb not_lit (tokens mask).
Proof.
  unfold matchcomp. intros H. match type of H with _ ≫= ?f = _ => set (F := f) in H end.
  match type of H with ?x ≫= _ = _ => destruct x as [mem| |]; try done end. subst F. cbn [mbind result_bind] in H.
  injection H as _ _ <-. eexists. split; [done|]. by rewrite comp_scan_chset2.
Qed.

(** The characters of a string that a mask matches have what those of the mask have. *)
Lemma glob_lit_bit k ts s :
  (forall c, Z.testbit (char_attrib c) k = true -> Z.testbit (char_attrib (toLower c)) k = true) ->
  glob toLower ts s -> Forall (fun c => Z.testbit (char_attrib c) k = true) s -> forallb (lit_bit k) ts = true.
Proof.
  intros Hlow. revert s. induction ts as [|t ts IH]; intros s Hg Hs; [done|]. destruct t as [| |c]; cbn [forallb lit_bit].
  - apply glob_star_inv in Hg as (u&v&->&Hg). apply Forall_app in Hs as [_ Hs]. by eapply IH.
  - apply glob_any_inv in Hg as (a&v&->&Hg). apply Forall_cons in Hs as [_ Hs]. by eapply IH.
  - apply glob_lit_inv in Hg as (a&v&->&Ha&Hg). apply Forall_cons in Hs as [Hc Hs].
    rewrite <- Ha, (Hlow _ Hc). by eapply IH.
Qed.

(** The short cuts around matchexec() of the comment of match.c, which WHO uses,
    lose no match: a string that the mask matches has at least [minlen] characters,
    and when all its characters are of the charset of nicks, of user names or of host
    names, [charset] has the bit of that charset. The bit NTL_UPPER of [charset] is
    set exactly when the mask consists of wild characters. *)
Theorem matchcomp_filters_sound mask cmask minlen charset :
  matchcomp (Some mask) = Ok (cmask, minlen, charset) ->
  (forall s, glob toLower (tokens mask) s ->
    minlen <= Z.of_nat (length s) /\
    forall class, class ∈ [NTL_IRCNK; NTL_IRCUI; NTL_IRCHN] ->
      Forall (fun c => has_attrib class c = true) s -> Z.land charset class <> 0) /\
  (Z.land charset NTL_UPPER <> 0 <-> forall c, Lit c ∉ tokens mask).
Proof.
  intros Hm. destruct (matchcomp_charset _ _ _ _ Hm) as (set2&Ecs&Hs2).
  destruct (matchcomp_spec mask) as (h&rest&cs&Ep&_&Hm'). rewrite Hm in Hm'. injection Hm' as _ -> _. split.
  - intros s Hg. split.
    { apply glob_minlen in Hg. rewrite <- Ep, minlen_settle. lia. }
    intros class Hc Hs. assert (exists k, 0 <= k /\ class = 2 ^ k) as (k&Hk&->).
    { rewrite list_elem_of_In in Hc. destruct Hc as [<-|[<-|[<-|[]]]]; [exists 12|exists 13|exists 14]; done. }
    rewrite land_pow2, Ecs, Z.lor_spec, comp_scan_chset by done. cbn [chset]. rewrite Z.lnot_spec, Z.bits_0 by done.
    cbn [negb andb]. rewrite (glob_lit_bit k (tokens mask) s); [done| |done|].
    + intros c. rewrite <- !land_pow2 by done. by apply class_toLower.
    + eapply Forall_impl; [exact Hs|]. intros c Hb%bool_decide_eq_true. by apply land_pow2.
  - change NTL_UPPER with (2 ^ 9). rewrite land_pow2, Ecs, Z.lor_spec, comp_scan_chset, Hs2 by done. cbn [chset].
    rewrite Z.lnot_spec, Z.bits_0 by done. cbn [negb andb].
    assert (forallb (lit_bit 9) (tokens mask) = forallb not_lit (tokens mask)) as ->.
    { clear. induction (tokens mask) as [|t ts IH]; [done|]. cbn [forallb]. by rewrite lit_bit_upper, IH. }
    rewrite orb_diag, forallb_forall. split.
    + intros H c Hc%list_elem_of_In. by specialize (H _ Hc).
    + intros H [| |c] Hc%list_elem_of_In; [done|done|]. by destruct (H c).
Qed.

(** Witness of [matchcomp_filters_sound]. *)
Lemma matchcomp_filters_sound_witness :
  matchcomp (Some (str "*.com")) = Ok (str "Zmoc.", 4, 25680) /\
  (forall s, glob toLower (tokens (str "*.com")) s ->
    4 <= Z.of_nat (length s) /\
    forall class, class ∈ [NTL_IRCNK; NTL_IRCUI; NTL_IRCHN] ->
      Forall (fun c => has_attrib class c = true) s -> Z.land 25680 class <> 0) /\
  (Z.land 25680 NTL_UPPER <> 0 <-> forall c, Lit c ∉ tokens (str "*.com")).
Proof.
  assert (matchcomp (Some (str "*.com")) = Ok (str "Zmoc.", 4, 25680)) as H by (vm_compute; reflexivity).
  split; [exact H|]. apply (matchcomp_filters_sound (str "*.com") (str "Zmoc.") 4 25680 H).
Defined.

(** The example of the comment *)
Example matchcomp_example :
  option_map (fun r => r.1.1) (match matchcomp (Some (str "Head*CHUNK1*chu\*nK2*ch??k3*TaIl")) with Ok r => Some r | _ => None end) =
  Some (str "headZliatZchunk1Zchu*nk2ZchAAk3").
Proof. vm_compute. reflexivity. Qed.
