(* ===== verification/Numnicks.v ===== *)
(** Numeric nicks: ircd/numnicks.c.

    [base64toint] and [inttobase64] work on character buffers; the tables that
    map numerics to clients (server_list, each server's client_list and the
    allocation counters) are the fields of [state].  A client is a number, the
    null pointer is [None].  An IP address is the list of its eight 16-bit
    segments in host order. *)

From S2P Require Import Prelude Common Match.

(** * The base 64 of numerics *)

Definition NUMNICKLOG : Z := 6.
Definition NUMNICKBASE : Z := 64.
Definition NUMNICKMASK : Z := 63.
Definition NN_MAX_SERVER : Z := 4096.
Definition NN_MAX_CLIENT_SHORT : Z := 4096.
Definition NN_MAX_CLIENT_EXT : Z := 262144.

Definition convert2y : list ascii :=
  str "ABCDEFGHIJKLMNOPQRSTUVWXYZabcdefghijklmnopqrstuvwxyz0123456789[]".

Definition convert2n : list Z := [
   0; 0; 0; 0; 0; 0; 0; 0; 0; 0; 0; 0; 0; 0; 0; 0;
   0; 0; 0; 0; 0; 0; 0; 0; 0; 0; 0; 0; 0; 0; 0; 0;
   0; 0; 0; 0; 0; 0; 0; 0; 0; 0; 0; 0; 0; 0; 0; 0;
   52; 53; 54; 55; 56; 57; 58; 59; 60; 61; 0; 0; 0; 0; 0; 0;
   0; 0; 1; 2; 3; 4; 5; 6; 7; 8; 9; 10; 11; 12; 13; 14;
   15; 16; 17; 18; 19; 20; 21; 22; 23; 24; 25; 62; 0; 63; 0; 0;
   0; 26; 27; 28; 29; 30; 31; 32; 33; 34; 35; 36; 37; 38; 39; 40;
   41; 42; 43; 44; 45; 46; 47; 48; 49; 50; 51; 0; 0; 0; 0; 0;
   0; 0; 0; 0; 0; 0; 0; 0; 0; 0; 0; 0; 0; 0; 0; 0;
   0; 0; 0; 0; 0; 0; 0; 0; 0; 0; 0; 0; 0; 0; 0; 0;
   0; 0; 0; 0; 0; 0; 0; 0; 0; 0; 0; 0; 0; 0; 0; 0;
   0; 0; 0; 0; 0; 0; 0; 0; 0; 0; 0; 0; 0; 0; 0; 0;
   0; 0; 0; 0; 0; 0; 0; 0; 0; 0; 0; 0; 0; 0; 0; 0;
   0; 0; 0; 0; 0; 0; 0; 0; 0; 0; 0; 0; 0; 0; 0; 0;
   0; 0; 0; 0; 0; 0; 0; 0; 0; 0; 0; 0; 0; 0; 0; 0;
   0; 0; 0; 0; 0; 0; 0; 0; 0; 0; 0; 0; 0; 0; 0; 0
].

(** [convert2n[(unsigned char)c]] *)
Definition to_digit (c : ascii) : Z := nth (Z.to_nat (uchar c)) convert2n 0.

Fixpoint base64_loop (i : Z) (s : list ascii) : result Z :=
  match s with
  | [] => Ub
  | c :: s' =>
      if decide (c = NUL) then Ok i
      else base64_loop (u32 (u32 (Z.shiftl i NUMNICKLOG) + to_digit c)) s'
  end.

(** The first character is converted before the loop looks for the terminator. *)
Definition base64toint (s : list ascii) : result Z :=
  match s with [] => Ub | c :: s' => base64_loop (to_digit c) s' end.

Fixpoint inttobase64_loop (buf : list ascii) (off : nat) (v : Z) (count : nat)
    : result (list ascii) :=
  match count with
  | O => Ok buf
  | S count =>
      c ← rd convert2y (Z.to_nat (Z.land v NUMNICKMASK));
      buf ← wr buf (off + count) c;
      inttobase64_loop buf off (Z.shiftr v NUMNICKLOG) count
  end.

(** [off] is the position of the pointer [buf] in its object. *)
Definition inttobase64 (buf : list ascii) (off : nat) (v : Z) (count : nat)
    : result (list ascii) :=
  buf ← wr buf (off + count) NUL;
  inttobase64_loop buf off v count.

(** * The tables of numerics *)

(** struct Server *)
Record Server := mkServer {
  nn_capacity : list ascii;
  nn_mask : Z;
  client_list : list (option nat);
  nn_last : Z }.

(** The static variables of the file and the fields of struct Client it uses:
    [yxx], [serv] and [user->server]. *)
Record state := mkState {
  lastNNServer : Z;
  server_list : list (option nat);
  numerics_extendidos : bool;
  last_nn : Z;
  last_numerics_extendidos : bool;
  yxx : gmap nat (list ascii);
  serv : gmap nat Server;
  user_server : gmap nat nat }.

Definition set_lastNNServer x st := mkState x (server_list st) (numerics_extendidos st)
  (last_nn st) (last_numerics_extendidos st) (yxx st) (serv st) (user_server st).
Definition set_server_list x st := mkState (lastNNServer st) x (numerics_extendidos st)
  (last_nn st) (last_numerics_extendidos st) (yxx st) (serv st) (user_server st).
Definition set_extendidos x st := mkState (lastNNServer st) (server_list st) x
  (last_nn st) (last_numerics_extendidos st) (yxx st) (serv st) (user_server st).
Definition set_last_nn x y st := mkState (lastNNServer st) (server_list st)
  (numerics_extendidos st) x y (yxx st) (serv st) (user_server st).
Definition set_yxx c x st := mkState (lastNNServer st) (server_list st)
  (numerics_extendidos st) (last_nn st) (last_numerics_extendidos st) (<[c := x]> (yxx st))
  (serv st) (user_server st).
Definition set_serv c x st := mkState (lastNNServer st) (server_list st)
  (numerics_extendidos st) (last_nn st) (last_numerics_extendidos st) (yxx st)
  (<[c := x]> (serv st)) (user_server st).

Definition set_capacity x s := mkServer x (nn_mask s) (client_list s) (nn_last s).
Definition set_mask x s := mkServer (nn_capacity s) x (client_list s) (nn_last s).
Definition set_client_list x s := mkServer (nn_capacity s) (nn_mask s) x (nn_last s).
Definition set_nn_last x s := mkServer (nn_capacity s) (nn_mask s) (client_list s) x.

(** Lookups *)

Definition get_yxx st c : result (list ascii) := of_option (yxx st !! c).
Definition get_serv st c : result Server := of_option (serv st !! c).
Definition server_at st (i : Z) : result (option nat) := rd (server_list st) (Z.to_nat i).

Definition FindXNServer (st : state) (numeric : list ascii) : result (option nat) :=
  c0 ← deref numeric; c1 ← deref (tl numeric);
  i ← base64toint [c0; c1; NUL];
  server_at st i.

Definition FindNServer (st : state) (numeric : list ascii) : result (option nat) :=
  len ← strlen numeric;
  if decide (len = 0%nat) then Ok None
  else if decide (len < 3)%nat then i ← base64toint numeric; server_at st i
  else if decide (len = 3%nat) then c ← deref numeric; server_at st (to_digit c)
  else FindXNServer st numeric.

(** The client in the slot that the characters [y] designate. *)
Definition client_slot (st : state) (server : nat) (y : list ascii) : result (Server * nat) :=
  s ← get_serv st server;
  i ← base64toint y;
  Ok (s, Z.to_nat (Z.land i (nn_mask s))).

Definition client_at (st : state) (server : nat) (y : list ascii) : result (option nat) :=
  '(s, i) ← client_slot st server y;
  rd (client_list s) i.

Definition findNUser (st : state) (y : list ascii) : result (option nat) :=
  len ← strlen y;
  if decide (len = 0%nat) then Ok None
  else if decide (len = 5%nat) then
    server ← FindXNServer st y;
    match server with Some srv => client_at st srv (drop 2 y) | None => Ok None end
  else
    server ← FindNServer st y;
    match server with Some srv => client_at st srv (drop 1 y) | None => Ok None end.

(** Registration *)

Definition RemoveYXXClient (st : state) (server : nat) (y : list ascii) : result state :=
  c ← deref y;
  if decide (c = NUL) then Ok st
  else
    '(s, i) ← client_slot st server y;
    l ← wr (client_list s) i None;
    Ok (set_serv server (set_client_list l s) st).

(** [strncpy(dst, src, n)] of the first [n] characters of a longer string. *)
Fixpoint strncpy (dst : list ascii) (off : nat) (src : list ascii) (n : nat)
    : result (list ascii) :=
  match n with
  | O => Ok dst
  | S n =>
      c ← deref src;
      dst ← wr dst off c;
      strncpy dst (S off) (if decide (c = NUL) then src else tl src) n
  end.

(** [reg] is [atoi] of the record that the configuration database has for the
    server, if there is one: the database is looked up only below protocol 10. *)
Definition SetServerYXX_numeric (protocol : Z) (reg : option Z) (sy : list ascii) (s : Server)
    (y : list ascii) : result (list ascii * Server) :=
  if decide (protocol > 9) then
    len ← strlen y;
    '(sy, cap) ← (
      if decide (len = 5%nat) then
        sy ← strncpy sy 0 y 2;
        cap ← strncpy (nn_capacity s) 0 (drop 2 y) 3;
        Ok (sy, cap)
      else
        c0 ← rd y 0; sy ← wr sy 0 c0;
        c1 ← rd y 1; cap ← wr (nn_capacity s) 0 c1;
        c2 ← rd y 2; cap ← wr cap 1 c2;
        Ok (sy, cap));
    mask ← base64toint cap;
    Ok (sy, set_mask mask (set_capacity cap s))
  else
    match reg with
    | None => Ok (sy, s)
    | Some n =>
        c ← (if decide (0 <= n) then rd convert2y (Z.to_nat n) else Ub);
        sy ← wr sy 0 c;
        cap ← inttobase64 (nn_capacity s) 0 63 2;
        Ok (sy, set_mask 63 (set_capacity cap s))
    end.

Definition calloc_clients (n : Z) : list (option nat) := replicate (Z.to_nat n) None.

Definition SetServerYXX (st : state) (protocol : Z) (reg : option Z) (server : nat)
    (y : list ascii) : result state :=
  sy ← get_yxx st server; s ← get_serv st server;
  '(sy, s) ← SetServerYXX_numeric protocol reg sy s y;
  index ← base64toint sy;
  let st := if decide (index >= lastNNServer st)
            then set_lastNNServer (u32 (index + 1)) st else st in
  l ← wr (server_list st) (Z.to_nat index) (Some server);
  Ok (set_serv server (set_client_list (calloc_clients (u32 (nn_mask s + 1))) s)
       (set_yxx server sy (set_server_list l st))).

(** [while (max_clients < capacity) max_clients <<= 1;] *)
Fixpoint capacity_loop (fuel : nat) (max_clients capacity : Z) : result Z :=
  match fuel with
  | O => Fuel
  | S fuel =>
      if decide (max_clients < capacity)
      then capacity_loop fuel (u32 (Z.shiftl max_clients 1)) capacity
      else Ok max_clients
  end.

(** [None]: the server prints an error and exits. *)
Definition SetYXXCapacity (st : state) (c : nat) (capacity : Z) : result (option state) :=
  max_clients ← capacity_loop 32 16 capacity;
  y ← get_yxx st c; s ← get_serv st c;
  index ← base64toint y;
  let ext := bool_decide (index >= NUMNICKBASE) in
  let nn_max_client := if ext then NN_MAX_CLIENT_EXT else NN_MAX_CLIENT_SHORT in
  if decide (max_clients > nn_max_client) then Ok None
  else
    let max_clients := u32 (max_clients - 1) in
    cap ← inttobase64 (nn_capacity s) 0 max_clients (if ext then 3 else 2);
    let s := mkServer cap max_clients (calloc_clients (u32 (max_clients + 1))) (nn_last s) in
    l ← wr (server_list st) (Z.to_nat index) (Some c);
    Ok (Some (set_serv c s (set_server_list l (set_extendidos ext st)))).

Definition SetYXXServerName (st : state) (c : nat) (numeric : Z) : result state :=
  y ← get_yxx st c;
  y ← (if decide (numeric >= NUMNICKBASE) then inttobase64 y 0 numeric 2
       else ch ← rd convert2y (Z.to_nat numeric); wr y 0 ch);
  let st := set_yxx c y st in
  let st := if decide (numeric >= lastNNServer st)
            then set_lastNNServer (u32 (numeric + 1)) st else st in
  l ← wr (server_list st) (Z.to_nat numeric) (Some c);
  Ok (set_server_list l st).

Definition ClearServerYXX (st : state) (server : nat) : result state :=
  y ← get_yxx st server;
  index ← base64toint y;
  cur ← server_at st index;
  if decide (cur = Some server) then
    l ← wr (server_list st) (Z.to_nat index) None;
    Ok (set_server_list l st)
  else Ok st.

(** What exit_client() does to these tables when it exits a user:
    exit_one_client() calls RemoveYXXClient(bcptr->user->server, bcptr->yxx). *)
Definition exit_client_numeric (st : state) (c : nat) : result state :=
  server ← of_option (user_server st !! c);
  y ← get_yxx st c;
  RemoveYXXClient st server y.

Definition SetRemoteNumNick (st : state) (acptr : nat) (y : list ascii) : result state :=
  server ← of_option (user_server st !! acptr);
  len ← strlen y;
  ay ← get_yxx st acptr;
  ay ← (if decide (len = 5%nat) then strcpy ay 0 (drop 2 y)
        else c1 ← rd y 1; ay ← wr ay 0 c1;
             c2 ← rd y 2; ay ← wr ay 1 c2; wr ay 2 NUL);
  let st := set_yxx acptr ay st in
  '(s, i) ← client_slot st server ay;
  old ← rd (client_list s) i;
  st ← match old with Some ghost => exit_client_numeric st ghost | None => Ok st end;
  s ← get_serv st server;
  l ← wr (client_list s) i (Some acptr);
  Ok (set_serv server (set_client_list l s) st).

(** The search for a free slot: not found when [max_client] slots are taken.  Then
    [assert(count < max_client)] fails: unless the server is built with [NDEBUG] it
    aborts, which is [Ub] here. *)
Fixpoint free_slot (NDEBUG : bool) (fuel : nat) (l : list (option nat)) (mask max_client count last : Z)
    : result (Z * bool) :=
  match fuel with
  | O => Fuel
  | S fuel =>
      slot ← rd l (Z.to_nat (Z.land last mask));
      match slot with
      | None => Ok (last, true)
      | Some _ =>
          let count := count + 1 in
          if decide (count = max_client) then if NDEBUG then Ok (last, false) else Ub
          else
            let last := last + 1 in
            let last := if decide (last = max_client) then 0 else last in
            free_slot NDEBUG fuel l mask max_client count last
      end
  end.

Definition SetLocalNumNick (NDEBUG : bool) (st : state) (me cptr : nat) : result (state * Z) :=
  s ← get_serv st me;
  let ext := numerics_extendidos st in
  let max_client := if ext then NN_MAX_CLIENT_EXT else NN_MAX_CLIENT_SHORT in
  let st := if decide (ext <> last_numerics_extendidos st) then set_last_nn 0 ext st else st in
  '(last, found) ← free_slot NDEBUG (Z.to_nat max_client) (client_list s) (nn_mask s) max_client 0
                     (last_nn st);
  if found : bool then
    l ← wr (client_list s) (Z.to_nat (Z.land last (nn_mask s))) (Some cptr);
    let st := set_serv me (set_client_list l s) st in
    y ← get_yxx st cptr;
    y ← inttobase64 y 0 last (if ext then 3 else 2);
    let st := set_yxx cptr y st in
    let next := if decide (last + 1 = max_client) then 0 else last + 1 in
    Ok (set_last_nn next (last_numerics_extendidos st) st, 1)
  else Ok (set_last_nn last (last_numerics_extendidos st) st, 0).

(** Servers behind a protocol 9 link; the result is the buffer YXX. *)
Fixpoint p9_slot (NDEBUG : bool) (fuel : nat) (s : Server) (count : Z) : result (Server * bool) :=
  match fuel with
  | O => Fuel
  | S fuel =>
      slot ← rd (client_list s) (Z.to_nat (nn_last s));
      match slot with
      | None => Ok (s, true)
      | Some _ =>
          if decide (count + 1 = NUMNICKBASE) then if NDEBUG then Ok (s, false) else Ub
          else
            let next := u16 (nn_last s + 1) in
            p9_slot NDEBUG fuel (set_nn_last (if decide (next = NUMNICKBASE) then 0 else next) s)
              (count + 1)
      end
  end.

Definition CreateNNforProtocol9server (NDEBUG : bool) (st : state) (server : nat)
    : result (state * option (list ascii)) :=
  s ← get_serv st server; sy ← get_yxx st server;
  c ← deref sy;
  '(s, found) ← p9_slot NDEBUG (Z.to_nat NUMNICKBASE) s 0;
  if found : bool then
    YXX ← inttobase64 [c; NUL; NUL; NUL] 1 (nn_last s) 2;
    let next := u16 (nn_last s + 1) in
    Ok (set_serv server (set_nn_last (if decide (next = NUMNICKBASE) then 0 else next) s) st,
        Some YXX)
  else Ok (set_serv server s st, None).

(** * IP addresses in base 64 *)

Abbreviation ip_addr := (list Z).
Definition seg (a : ip_addr) (i : nat) : result Z := rd a i.

Definition irc_in_addr_is_ipv4 (a : ip_addr) : bool :=
  bool_decide (take 5 a = [0; 0; 0; 0; 0] /\
    ((nth 5 a 0 = 0 /\ nth 6 a 0 <> 0) \/ nth 5 a 0 = 65535)).

(** [for (ii = 0; (addr->in6_16[ii]) && (ii < 8); ++ii)]: the element is read
    before the bound is tested; the short that follows the array is [past]. *)
Fixpoint lead_loop (fuel : nat) (a : ip_addr) (past : Z) (buf : list ascii) (out ii : nat)
    : result (list ascii * nat * nat) :=
  match fuel with
  | O => Fuel
  | S fuel =>
      x ← seg (a ++ [past]) ii;
      if decide (x <> 0 /\ (ii < 8)%nat) then
        buf ← inttobase64 buf out x 3;
        lead_loop fuel a past buf (out + 3) (S ii)
      else Ok (buf, out, ii)
  end.

(** The search for the longest run of zeros. *)
Fixpoint zeros_loop (fuel : nat) (a : ip_addr) (max_start max_zeros curr_zeros ii : nat)
    : result (nat * nat * nat) :=
  match fuel with
  | O => Fuel
  | S fuel =>
      if decide (ii < 8)%nat then
        x ← seg a ii;
        if decide (x = 0) then zeros_loop fuel a max_start max_zeros (S curr_zeros) (S ii)
        else if decide (max_zeros < curr_zeros)%nat
        then zeros_loop fuel a (ii - curr_zeros) curr_zeros 0 (S ii)
        else zeros_loop fuel a max_start max_zeros curr_zeros (S ii)
      else Ok (max_start, max_zeros, curr_zeros)
  end.

Definition zero_run (a : ip_addr) (zero : nat) : result (nat * nat) :=
  '(max_start, max_zeros, curr_zeros) ← zeros_loop 9 a zero 0 0 zero;
  if decide (max_zeros < curr_zeros)%nat then Ok ((8 - curr_zeros)%nat, curr_zeros)
  else Ok (max_start, max_zeros).

Fixpoint rest_loop (fuel : nat) (a : ip_addr) (max_start max_zeros : nat) (buf : list ascii)
    (out ii : nat) : result (list ascii * nat) :=
  match fuel with
  | O => Fuel
  | S fuel =>
      if decide (ii < 8)%nat then
        if decide (ii = max_start /\ max_zeros <> 0%nat) then
          buf ← wr buf out "_"%char;
          rest_loop fuel a max_start max_zeros buf (S out) (ii + max_zeros)
        else
          x ← seg a ii;
          buf ← inttobase64 buf out x 3;
          rest_loop fuel a max_start max_zeros buf (out + 3) (S ii)
      else Ok (buf, out)
  end.

Definition iptobase64 (buf : list ascii) (a : ip_addr) (past : Z) (v6_ok : bool)
    : result (list ascii) :=
  if irc_in_addr_is_ipv4 a then
    hi ← seg a 6; lo ← seg a 7;
    inttobase64 buf 0 (Z.lor (Z.shiftl hi 16) lo) 6
  else if negb v6_ok then
    s0 ← seg a 0;
    if decide (s0 = 0x2002) then
      hi ← seg a 1; lo ← seg a 2;
      inttobase64 buf 0 (Z.lor (Z.shiftl hi 16) lo) 6
    else strcpy buf 0 (str "AAAAAA" ++ [NUL])
  else
    '(buf, out, zero) ← lead_loop 9 a past buf 0 0;
    '(max_start, max_zeros) ← zero_run a zero;
    '(buf, out) ← rest_loop 9 a max_start max_zeros buf out zero;
    wr buf out NUL.

(** [left] counts down an unsigned int: a negative value would be a huge one. *)
Fixpoint zero_fill (fuel : nat) (left : Z) (a : ip_addr) (pos : nat) : result (ip_addr * nat) :=
  if decide (left = 0) then Ok (a, pos)
  else match fuel with
  | O => Ub
  | S fuel => a ← wr a pos 0; zero_fill fuel (left - 1) a (S pos)
  end.

Fixpoint b64ip_loop (fuel : nat) (input : list ascii) (a : ip_addr) (pos : nat)
    : result ip_addr :=
  match fuel with
  | O => Fuel
  | S fuel =>
      c ← deref input;
      '(input, a, pos) ← (
        if decide (c = "_"%char) then
          len ← strlen input;
          let left := u32 (u64 (25 - Z.of_nat len) / 3 - Z.of_nat pos) in
          '(a, pos) ← zero_fill (8 - pos) left a pos;
          Ok (tl input, a, pos)
        else
          c1 ← deref (tl input); c2 ← deref (tl (tl input));
          let accum := to_digit c in
          let accum := u16 (Z.lor (Z.shiftl accum NUMNICKLOG) (to_digit c1)) in
          let accum := u16 (Z.lor (Z.shiftl accum NUMNICKLOG) (to_digit c2)) in
          a ← wr a pos accum;
          Ok (tl (tl (tl input)), a, S pos));
      if decide (pos < 8)%nat then b64ip_loop fuel input a pos else Ok a
  end.

Definition base64toip (input : list ascii) : result ip_addr :=
  len ← strlen input;
  if decide (len = 6%nat) then
    i ← base64toint input;
    if decide (i = 0) then Ok (replicate 8 0)
    else Ok [0; 0; 0; 0; 0; 65535; u16 (Z.shiftr i 16); Z.land i 65535]
  else b64ip_loop 9 input (replicate 8 0) 0.

(** * Properties of the encoding *)

(** The digits of a number, most significant first. *)
Fixpoint digits (v : Z) (count : nat) : list ascii :=
  match count with
  | O => []
  | S count => digits (v / 64) count ++ [nth (Z.to_nat (v mod 64)) convert2y NUL]
  end.

Section base64.

Implicit Types pre post : list ascii.

Lemma length_digits v n : length (digits v n) = n.
Proof. revert v. induction n as [|n IH]; intros v; simpl; [done|]. rewrite length_app, IH. simpl. lia. Qed.

Lemma land_mask v : Z.land v NUMNICKMASK = v mod 64.
Proof. apply (Z.land_ones v 6). done. Qed.

Lemma rd_convert2y d :
  0 <= d < 64 -> rd convert2y (Z.to_nat d) = Ok (nth (Z.to_nat d) convert2y NUL).
Proof.
  intros Hd. destruct (rd_lt convert2y (Z.to_nat d)) as (x&->&Hx); [simpl; lia|].
  rewrite (nth_lookup_Some _ _ _ _ Hx). done.
Qed.

Lemma digit_convert2y d :
  0 <= d < 64 ->
  let c := nth (Z.to_nat d) convert2y NUL in to_digit c = d /\ c <> NUL /\ c <> "_"%char.
Proof.
  intros Hd. assert (forallb (fun n => let c := nth n convert2y NUL in
    bool_decide (to_digit c = Z.of_nat n /\ c <> NUL /\ c <> "_"%char)) (seq 0 64) = true) as H
    by by vm_compute.
  rewrite forallb_forall in H.
  specialize (H (Z.to_nat d)). rewrite bool_decide_eq_true in H.
  rewrite in_seq, Z2Nat.id in H by lia. apply H. lia.
Qed.

Lemma digits_cstr v n : is_cstr (digits v n).
Proof.
  revert v. induction n as [|n IH]; intros v; [constructor|]. simpl. apply is_cstr_app. split; [done|].
  repeat constructor. apply digit_convert2y, Z.mod_pos_bound. lia.
Qed.

Lemma inttobase64_loop_spec pre mid post v :
  inttobase64_loop (pre ++ mid ++ post) (length pre) v (length mid) =
  Ok (pre ++ digits v (length mid) ++ post).
Proof.
  revert v post. induction mid as [|x mid IH] using rev_ind; intros v post; [done|].
  rewrite length_app, Nat.add_1_r. cbn [inttobase64_loop digits].
  rewrite land_mask, rd_convert2y by (apply Z.mod_pos_bound; lia). cbn [mbind result_bind].
  rewrite (wr_middle _ (pre ++ mid) x post);
    [|by rewrite <- !app_assoc|by rewrite length_app].
  cbn [mbind result_bind]. rewrite Z.shiftr_div_pow2, <- !app_assoc by done. apply IH.
Qed.

(** The digits and a terminator are written at the pointer, nothing else. *)
Lemma inttobase64_spec pre mid x post v :
  inttobase64 (pre ++ mid ++ x :: post) (length pre) v (length mid) =
  Ok (pre ++ digits v (length mid) ++ NUL :: post).
Proof.
  unfold inttobase64. rewrite (wr_middle _ (pre ++ mid) x post);
    [|by rewrite <- !app_assoc|by rewrite length_app].
  cbn [mbind result_bind]. rewrite <- !app_assoc. apply inttobase64_loop_spec.
Qed.

Lemma u32_range z : 0 <= u32 z < 2 ^ 32.
Proof. by apply Z.mod_pos_bound. Qed.

Lemma u32_small z : 0 <= z < 2 ^ 32 -> u32 z = z.
Proof. apply Z.mod_small. Qed.

Lemma u32_step i d : u32 (u32 (Z.shiftl i NUMNICKLOG) + d) = u32 (i * 64 + d).
Proof. unfold u32. rewrite Z.shiftl_mul_pow2 by done. by rewrite Zplus_mod_idemp_l. Qed.

Lemma u32_idem_l a b k : u32 (u32 a * k + b) = u32 (a * k + b).
Proof.
  unfold u32. rewrite <- (Zplus_mod_idemp_l (a mod 2 ^ 32 * k)), Zmult_mod_idemp_l.
  by rewrite Zplus_mod_idemp_l.
Qed.

(** The number that the rest of a string contributes. *)
Definition b64_value (i : Z) (s : list ascii) : Z :=
  fold_left (fun i c => u32 (i * 64 + to_digit c)) s i.

Lemma base64_loop_value i s r :
  is_cstr s -> base64_loop i (s ++ NUL :: r) = Ok (b64_value i s).
Proof.
  revert i. induction s as [|c s IH]; intros i Hs; [done|].
  apply is_cstr_cons in Hs as [Hc Hs]. cbn [app base64_loop].
  rewrite decide_False by done. rewrite u32_step, IH by done. done.
Qed.

Lemma to_digit_range c : 0 <= to_digit c < 64.
Proof. revert c. apply (forall_ascii_dec (fun c => 0 <= to_digit c < 64)). by vm_compute. Qed.

Lemma base64toint_value s r :
  s <> [] -> is_cstr s -> base64toint (s ++ NUL :: r) = Ok (b64_value 0 s).
Proof.
  destruct s as [|c s]; [done|]. intros _ [_ Hs]%is_cstr_cons. cbn [app base64toint].
  rewrite base64_loop_value by done. f_equal. unfold b64_value. simpl. f_equal.
  rewrite u32_small; [done|]. pose proof (to_digit_range c). lia.
Qed.

Lemma b64_value_digits i v n :
  0 <= i < 2 ^ 32 -> b64_value i (digits v n) = u32 (i * 64 ^ Z.of_nat n + v mod 64 ^ Z.of_nat n).
Proof.
  intros Hi. revert v. induction n as [|n IH]; intros v.
  - simpl. rewrite Z.mod_1_r, u32_small; unfold b64_value; simpl; lia.
  - cbn [digits]. unfold b64_value in *. rewrite fold_left_app, IH. cbn [fold_left].
    destruct (digit_convert2y (v mod 64)) as [-> _]; [apply Z.mod_pos_bound; lia|].
    rewrite u32_idem_l. f_equal. rewrite Nat2Z.inj_succ, Z.pow_succ_r by lia.
    rewrite (Z.rem_mul_r v 64 (64 ^ Z.of_nat n)) by lia. lia.
Qed.

Lemma base64toint_digits v n r :
  base64toint (digits v (S n) ++ NUL :: r) = Ok (u32 (v mod 64 ^ Z.of_nat (S n))).
Proof.
  rewrite base64toint_value by (try apply digits_cstr; simpl; by destruct (digits (v / 64) n)).
  rewrite b64_value_digits by lia. done.
Qed.

Lemma b64_value_range i s : 0 <= i < 2 ^ 32 -> 0 <= b64_value i s < 2 ^ 32.
Proof.
  revert i. induction s as [|c s IH]; intros i Hi; [done|]. apply IH, u32_range.
Qed.

End base64.

(** The characters that stand for a digit. *)
Definition is_b64 (c : ascii) : Prop := c ∈ convert2y.
#[export] Instance is_b64_dec c : Decision (is_b64 c).
Proof. unfold is_b64. apply _. Defined.

Lemma is_b64_digit c : is_b64 c -> nth (Z.to_nat (to_digit c)) convert2y NUL = c /\ c <> NUL.
Proof.
  revert c. apply (forall_ascii_dec
    (fun c => is_b64 c -> nth (Z.to_nat (to_digit c)) convert2y NUL = c /\ c <> NUL)).
  by vm_compute.
Qed.

Lemma b64_cstr s : Forall is_b64 s -> is_cstr s.
Proof. intros H. eapply Forall_impl; [exact H|]. intros c Hc. by apply is_b64_digit. Qed.

Lemma digits_value s :
  Forall is_b64 s -> (length s <= 5)%nat ->
  b64_value 0 s < 64 ^ Z.of_nat (length s) /\ digits (b64_value 0 s) (length s) = s.
Proof.
  induction s as [|c s IH] using rev_ind; intros Hs Hl; [done|].
  apply Forall_app in Hs as [Hs Hc]. apply Forall_singleton, is_b64_digit in Hc as [Hc _].
  rewrite length_app in Hl |- *. simpl in Hl |- *. destruct IH as [Hlt IH]; [done|lia|].
  pose proof (to_digit_range c). assert (0 <= b64_value 0 s < 2 ^ 32) by by apply b64_value_range.
  assert (Hp : 64 ^ Z.of_nat (length s) <= 64 ^ 4) by (apply Z.pow_le_mono_r; lia).
  assert (E : b64_value 0 (s ++ [c]) = b64_value 0 s * 64 + to_digit c).
  { unfold b64_value at 1. rewrite fold_left_app. simpl. fold (b64_value 0 s).
    rewrite u32_small; [done|]. simpl in Hp. lia. }
  rewrite E, Nat.add_1_r. split.
  - rewrite Nat2Z.inj_succ, Z.pow_succ_r by lia. lia.
  - cbn [digits]. rewrite Z.div_add_l, (Z.div_small (to_digit c)), Z.add_0_r, IH by lia.
    rewrite Z.add_comm, Z.mod_add, Z.mod_small, Hc by lia. done.
Qed.

(** Numerics survive the wire: writing a number in [count] digits and reading
    it back gives its residue (the number itself whenever the count suffices),
    without touching the buffer elsewhere, and every digit string of at most
    five characters is the writing of the number it is read as. *)
Theorem base64_roundtrip :
  (forall pre mid x post v, mid <> [] ->
     exists buf, inttobase64 (pre ++ mid ++ x :: post) (length pre) v (length mid) =
         Ok (pre ++ buf ++ NUL :: post) /\ length buf = length mid /\
       base64toint (buf ++ NUL :: post) = Ok (u32 (v mod 64 ^ Z.of_nat (length mid)))) /\
  (forall s rest pre mid x post, Forall is_b64 s -> (0 < length s <= 5)%nat ->
     length mid = length s ->
     exists v, base64toint (s ++ NUL :: rest) = Ok v /\ 0 <= v < 64 ^ Z.of_nat (length s) /\
       inttobase64 (pre ++ mid ++ x :: post) (length pre) v (length mid) =
         Ok (pre ++ s ++ NUL :: post)).
Proof.
  split.
  - intros pre mid x post v Hm. exists (digits v (length mid)).
    rewrite inttobase64_spec, length_digits. split_and!; [done..|].
    destruct mid as [|c mid]; [done|]. apply base64toint_digits.
  - intros s rest pre mid x post Hs Hl Hmid. exists (b64_value 0 s).
    rewrite base64toint_value; [|by destruct s; simpl in *; [lia|]|by apply b64_cstr].
    destruct (digits_value s) as [Hlt Hd]; [done|lia|].
    rewrite inttobase64_spec, Hmid, Hd. split_and!; try done.
    by apply b64_value_range.
Qed.

(** Witness of [base64_roundtrip]. *)
Lemma base64_roundtrip_witness :
  (exists buf, inttobase64 (["x"%char] ++ [NUL; NUL; NUL] ++ NUL :: ["y"%char]) 1 200000 3 =
       Ok (["x"%char] ++ buf ++ NUL :: ["y"%char]) /\ length buf = 3%nat /\
     base64toint (buf ++ NUL :: ["y"%char]) = Ok (u32 (200000 mod 64 ^ Z.of_nat 3))) /\
  (exists v, base64toint (str "]B" ++ NUL :: []) = Ok v /\ 0 <= v < 64 ^ Z.of_nat 2 /\
     inttobase64 ([] ++ [NUL; NUL] ++ NUL :: []) 0 v 2 = Ok ([] ++ str "]B" ++ NUL :: [])).
Proof.
  split.
  - apply (proj1 base64_roundtrip ["x"%char] [NUL; NUL; NUL] NUL ["y"%char] 200000). discriminate.
  - apply (proj2 base64_roundtrip (str "]B") [] [] [NUL; NUL] NUL []).
    + apply (bool_decide_unpack _); vm_compute; exact I.
    + simpl. lia.
    + reflexivity.
Defined.

(** The terminator of an empty string is skipped, so that base64toint() reads on
    past the end of its argument: findNUser() does so for a numeric of one
    character that names a server. *)
Theorem base64toint_empty_overread st srv s :
  server_list st !! 0%nat = Some (Some srv) -> serv st !! srv = Some s ->
  base64toint [NUL] = Ub /\ findNUser st (str "A" ++ [NUL]) = Ub.
Proof.
  intros Hl Hs. split; [done|].
  assert (FindNServer st (str "A" ++ [NUL]) = Ok (Some srv)) as E.
  { transitivity (server_at st 0); [reflexivity|]. apply (rd_Some _ _ _ Hl). }
  transitivity (client_at st srv [NUL]).
  { unfold findNUser. rewrite E. reflexivity. }
  unfold client_at, client_slot, get_serv. by rewrite Hs.
Qed.

(** * Local numerics *)

Section local_numerics.

Implicit Types st : state.

(** The limits of the two forms of a numeric, by [numerics_extendidos]. *)
Definition max_client (ext : bool) : Z := if ext then NN_MAX_CLIENT_EXT else NN_MAX_CLIENT_SHORT.
Definition server_width (ext : bool) : nat := if ext then 2 else 1.
Definition client_width (ext : bool) : nat := if ext then 3 else 2.

Lemma max_client_pow ext : max_client ext = 64 ^ Z.of_nat (client_width ext).
Proof. by destruct ext. Qed.

Lemma land_ones_mod i k : 0 <= k -> Z.land i (Z.ones k) = i mod 2 ^ k.
Proof. apply Z.land_ones. Qed.

Lemma wrap_mod last max k :
  0 <= k -> (2 ^ k | max) -> (if decide (last + 1 = max) then 0 else last + 1) mod 2 ^ k = (last + 1) mod 2 ^ k.
Proof.
  intros Hk [q Hq]. case_decide as E; [|done]. rewrite E, Hq, Z.mod_mul, Z.mod_0_l; [done|..];
    pose proof (Z.pow_pos_nonneg 2 k); lia.
Qed.

(** The probe visits consecutive slots, modulo the size of the table. *)
Lemma free_slot_spec NDEBUG fuel l k max count last :
  0 <= k -> Z.of_nat (length l) = 2 ^ k -> (2 ^ k | max) ->
  0 <= last < max -> 0 <= count -> Z.of_nat fuel = max - count -> (0 < fuel)%nat ->
  exists last' (found : bool),
    free_slot NDEBUG fuel l (Z.ones k) max count last =
      (if found || NDEBUG then Ok (last', found) else Ub) /\
    0 <= last' < max /\
    if found then l !! Z.to_nat (last' mod 2 ^ k) = Some None
    else forall j, 0 <= j < max - count ->
      l !! Z.to_nat ((last + j) mod 2 ^ k) <> Some None.
Proof.
  intros Hk Hl Hdiv. revert count last. pose proof (Z.pow_pos_nonneg 2 k) as Hp.
  induction fuel as [|fuel IH]; intros count last Hlast Hc Hf Hf0; [lia|].
  cbn [free_slot]. rewrite land_ones_mod by done.
  destruct (rd_lt l (Z.to_nat (last mod 2 ^ k))) as (slot&->&Hslot).
  { pose proof (Z.mod_pos_bound last (2 ^ k)). lia. }
  cbn [mbind result_bind]. destruct slot as [c|]; [|by exists last, true].
  assert (Htaken : l !! Z.to_nat (last mod 2 ^ k) <> Some None) by by rewrite Hslot.
  case_decide as E.
  - exists last, false. split_and!; [done|lia|lia|]. intros j Hj. replace (last + j) with last by lia. exact Htaken.
  - destruct (IH (count + 1) (if decide (last + 1 = max) then 0 else last + 1))
      as (last'&found&->&Hlast'&Hpost); [case_decide; lia|lia..|].
    exists last', found. split_and!; [done|lia|lia|]. destruct found; [done|].
    intros j Hj. destruct (decide (j = 0)) as [->|Hj0]; [by rewrite Z.add_0_r|].
    specialize (Hpost (j - 1)). replace (last + j) with (last + 1 + (j - 1)) by lia.
    rewrite Zplus_mod, <- (wrap_mod last max k), <- Zplus_mod by done. apply Hpost. lia.
Qed.

(** A probe that fails has seen every slot. *)
Lemma all_slots_seen (l : list (option nat)) k max last :
  0 <= k -> Z.of_nat (length l) = 2 ^ k -> 2 ^ k <= max ->
  (forall j, 0 <= j < max -> l !! Z.to_nat ((last + j) mod 2 ^ k) <> Some None) ->
  Forall is_Some l.
Proof.
  intros Hk Hl Hmax Hall. apply Forall_lookup. intros i x Hi.
  assert (Hlt : (i < length l)%nat) by by eapply lookup_lt_Some.
  pose proof (Z.pow_pos_nonneg 2 k).
  specialize (Hall ((Z.of_nat i - last) mod 2 ^ k)).
  pose proof (Z.mod_pos_bound (Z.of_nat i - last) (2 ^ k)).
  rewrite Zplus_mod_idemp_r, Zplus_minus, (Z.mod_small (Z.of_nat i)), Nat2Z.id, Hi in Hall by lia.
  destruct x; [by eexists|]. exfalso. apply Hall; [lia|done].
Qed.

(** Where findNUser() looks for a numeric of either form. *)
Lemma findNUser_client_at st ext sname y r srv :
  Forall is_b64 sname -> length sname = server_width ext ->
  is_cstr y -> length y = client_width ext ->
  server_list st !! Z.to_nat (b64_value 0 sname) = Some (Some srv) ->
  findNUser st (sname ++ y ++ NUL :: r) = client_at st srv (y ++ NUL :: r).
Proof.
  intros Hs Hls Hy Hly Hsrv. unfold findNUser.
  assert (Hc : is_cstr sname) by by apply b64_cstr.
  assert (strlen (sname ++ y ++ NUL :: r) = Ok (server_width ext + client_width ext)%nat) as Hlen.
  { rewrite app_assoc, strlen_app by by apply is_cstr_app. by rewrite length_app, Hls, Hly. }
  rewrite Hlen. cbn [mbind result_bind].
  destruct ext; simpl in Hls, Hly; cbn [server_width client_width Nat.add].
  - destruct sname as [|c0 [|c1 [|]]]; try done.
    rewrite decide_False, decide_True by done. unfold FindXNServer. cbn [app tl deref head of_option mbind result_bind].
    apply is_cstr_cons in Hc as [? [? _]%is_cstr_cons].
    change [c0; c1; NUL] with ([c0; c1] ++ NUL :: []); rewrite base64toint_value by (repeat constructor; done).
    unfold server_at. cbn [mbind result_bind]. by rewrite (rd_Some _ _ _ Hsrv).
  - destruct sname as [|c0 [|]]; try done.
    rewrite !decide_False by done. unfold FindNServer. rewrite Hlen. cbn [mbind result_bind].
    rewrite decide_False, decide_False, decide_True by (simpl; lia).
    cbn [app deref head of_option mbind result_bind].
    unfold b64_value in Hsrv. simpl in Hsrv. rewrite u32_small in Hsrv
      by (pose proof (to_digit_range c0); lia).
    change (0 * 64 + to_digit c0) with (to_digit c0) in Hsrv.
    unfold server_at. by rewrite (rd_Some _ _ _ Hsrv).
Qed.

(** The digits of a slot number designate that slot. *)
Lemma client_at_digits st srv s k ext v r x :
  serv st !! srv = Some s -> nn_mask s = Z.ones k -> 0 <= k -> 0 <= v < max_client ext ->
  client_list s !! Z.to_nat (v mod 2 ^ k) = Some x ->
  client_at st srv (digits v (client_width ext) ++ NUL :: r) = Ok x.
Proof.
  intros Hs Hm Hk Hv Hx. unfold client_at, client_slot, get_serv. rewrite Hs.
  cbn [of_option mbind result_bind]. rewrite max_client_pow in Hv.
  assert (base64toint (digits v (client_width ext) ++ NUL :: r) = Ok v) as ->.
  { destruct ext; cbn [client_width] in *; rewrite base64toint_digits, Z.mod_small, u32_small;
      simpl in *; try done; lia. }
  cbn [mbind result_bind]. rewrite Hm, land_ones_mod by done. by apply rd_Some.
Qed.

(** The server's own table: a power of two of slots that numerics of the
    current form can address, and a counter within the form's range. *)
Definition local_wf st (me : nat) (s : Server) (k : Z) : Prop :=
  serv st !! me = Some s /\ nn_mask s = Z.ones k /\ 0 <= k /\
  2 ^ k <= max_client (numerics_extendidos st) /\
  Z.of_nat (length (client_list s)) = 2 ^ k /\
  (numerics_extendidos st = last_numerics_extendidos st ->
   0 <= last_nn st < max_client (numerics_extendidos st)).

Lemma pow_divide_max k ext : 0 <= k -> 2 ^ k <= max_client ext -> (2 ^ k | max_client ext).
Proof.
  intros Hk Hle. set (n := if ext then 18 else 12).
  assert (E : max_client ext = 2 ^ n) by by destruct ext.
  rewrite E in *. apply Z.pow_le_mono_r_iff in Hle; [|lia..|unfold n; by destruct ext].
  exists (2 ^ (n - k)). rewrite <- Z.pow_add_r by lia. f_equal. lia.
Qed.

(** C32. While a slot is free, a new local client gets a numeric that no other client
    has, under which findNUser() then finds it, whether the server uses short or
    extended numerics; no other slot changes and the search terminates.  When every
    slot is taken the server aborts in an assert(); built with NDEBUG, the call fails
    and changes no table. *)
Theorem SetLocalNumNick_correct NDEBUG st me cptr s k sname y :
  local_wf st me s k ->
  Forall is_b64 sname -> length sname = server_width (numerics_extendidos st) ->
  server_list st !! Z.to_nat (b64_value 0 sname) = Some (Some me) ->
  yxx st !! cptr = Some y -> length y = 4%nat ->
  (~ Forall is_Some (client_list s) ->
   exists st' i y', SetLocalNumNick NDEBUG st me cptr = Ok (st', 1) /\
     client_list s !! i = Some None /\
     serv st' = <[me := set_client_list (<[i := Some cptr]> (client_list s)) s]> (serv st) /\
     yxx st' = <[cptr := y']> (yxx st) /\ length y' = 4%nat /\
     findNUser st' (sname ++ c_text y' ++ [NUL]) = Ok (Some cptr) /\
     server_list st' = server_list st /\ 0 <= last_nn st' < max_client (numerics_extendidos st')) /\
  (Forall is_Some (client_list s) ->
   if NDEBUG then
     exists st', SetLocalNumNick NDEBUG st me cptr = Ok (st', 0) /\ serv st' = serv st /\ yxx st' = yxx st /\
       server_list st' = server_list st /\ 0 <= last_nn st' < max_client (numerics_extendidos st')
   else SetLocalNumNick NDEBUG st me cptr = Ub).
Proof.
  intros (Hs&Hm&Hk&Hle&Hl&Hlast) Hsn Hsl Hsrv Hy Hyl. pose proof (Z.pow_pos_nonneg 2 k).
  unfold SetLocalNumNick, get_serv. rewrite Hs. cbn [of_option mbind result_bind].
  fold (max_client (numerics_extendidos st)).
  set (ext := numerics_extendidos st) in *.
  set (st1 := if decide (ext <> _) then _ else st).
  assert (Hst1 : serv st1 = serv st /\ yxx st1 = yxx st /\ server_list st1 = server_list st /\
    numerics_extendidos st1 = ext /\ 0 <= last_nn st1 < max_client ext).
  { unfold st1. case_decide as E; simpl; split_and!; try done.
    - by destruct ext.
    - apply Hlast. by destruct ext, (last_numerics_extendidos st).
    - apply Hlast. by destruct ext, (last_numerics_extendidos st). }
  destruct Hst1 as (E1&E2&E3&E4&Hr1). rewrite Hm.
  destruct (free_slot_spec NDEBUG (Z.to_nat (max_client ext)) (client_list s) k (max_client ext) 0
    (last_nn st1)) as (last'&found&->&Hlast'&Hpost);
    [lia|lia|by apply pow_divide_max|lia|lia|lia|lia|].
  destruct found; cycle 1.
  { assert (Hall : Forall is_Some (client_list s)).
    { apply (all_slots_seen _ k (max_client ext) (last_nn st1)); [done..|].
      intros j Hj. apply Hpost. lia. }
    split; [done|intros _]. cbn [orb]. destruct NDEBUG; [|done]. eexists. split; [reflexivity|]. simpl.
    rewrite E1, E2, E4. split_and!; try done; lia. }
  cbn [orb mbind result_bind].
  split; [intros _|intros Hall; exfalso; rewrite Forall_lookup in Hall; by destruct (Hall _ _ Hpost)].
  rewrite land_ones_mod by done. set (i := Z.to_nat (last' mod 2 ^ k)) in *.
  assert (Hi : (i < length (client_list s))%nat) by by eapply lookup_lt_Some.
  rewrite wr_lt by done. cbn [mbind result_bind]. unfold get_yxx. simpl. rewrite E2, Hy.
  cbn [of_option mbind result_bind].
  fold (client_width ext).
  assert (exists rest, inttobase64 y 0 last' (client_width ext) =
      Ok (digits last' (client_width ext) ++ NUL :: rest) /\
      S (client_width ext + length rest) = 4%nat) as (rest&->&Hrest).
  { destruct y as [|a [|b [|c [|d [|]]]]]; try done. destruct ext.
    - exists []. split; [|done]. apply (inttobase64_spec [] [a; b; c] d []).
    - exists [d]. split; [|done]. apply (inttobase64_spec [] [a; b] c [d]). }
  cbn [mbind result_bind]. eexists _, i, (digits last' (client_width ext) ++ NUL :: rest). split; [reflexivity|]. simpl.
  rewrite ?E1, ?E2, ?E4. split_and!; try done.
  - rewrite length_app, length_digits. simpl. lia.
  - rewrite c_text_app by apply digits_cstr.
    rewrite (findNUser_client_at _ ext sname _ [] me); try done; simpl;
      [|apply digits_cstr|apply length_digits|by rewrite E3].
    eapply (client_at_digits _ _ _ k); simpl; [rewrite lookup_insert_eq; done|simpl; done|done..|].
    simpl. by rewrite list_lookup_insert_eq.
  - case_decide; lia.
  - case_decide; lia.
Qed.

End local_numerics.

(** Witness of [SetLocalNumNick_correct]. *)
Definition sample_server : Server :=
  mkServer (str "AP" ++ [NUL; NUL]) 15 ([Some 7%nat; None] ++ replicate 14 None) 0.
Definition sample_state : state :=
  mkState 2 ([None; Some 0%nat] ++ replicate 4094 None) false 0 false
    {[0%nat := str "B" ++ [NUL; NUL; NUL]; 7%nat := str "AA" ++ [NUL; NUL]; 9%nat := replicate 4 NUL]}
    {[0%nat := sample_server]} {[7%nat := 0%nat; 9%nat := 0%nat]}.

Lemma SetLocalNumNick_correct_witness :
  exists st' i y', SetLocalNumNick false sample_state 0 9 = Ok (st', 1) /\
    client_list sample_server !! i = Some None /\
    serv st' = <[0%nat := set_client_list (<[i := Some 9%nat]> (client_list sample_server)) sample_server]> (serv sample_state) /\
    yxx st' = <[9%nat := y']> (yxx sample_state) /\ length y' = 4%nat /\
    findNUser st' (str "B" ++ c_text y' ++ [NUL]) = Ok (Some 9%nat) /\
    server_list st' = server_list sample_state /\ 0 <= last_nn st' < max_client (numerics_extendidos st').
Proof.
  apply (SetLocalNumNick_correct false sample_state 0 9 sample_server 4 (str "B") (replicate 4 NUL));
    [|apply (bool_decide_unpack _); vm_compute; exact I|reflexivity..|].
  - split_and!; try reflexivity; try discriminate; try (intros _; split; [discriminate|reflexivity]).
  - rewrite Forall_lookup. intros H. specialize (H 1%nat None). destruct H as [? H]; [reflexivity|discriminate H].
Defined.

(** * Capacity *)

Section capacity.

Lemma capacity_loop_spec fuel k capacity :
  0 <= k <= 31 -> capacity <= 2 ^ 31 -> 31 - k < Z.of_nat fuel ->
  exists k', capacity_loop fuel (2 ^ k) capacity = Ok (2 ^ k') /\ k <= k' <= 31 /\
    capacity <= 2 ^ k' /\ (k' = k \/ 2 ^ (k' - 1) < capacity).
Proof.
  revert k. induction fuel as [|fuel IH]; intros k Hk Hc Hf; [lia|].
  cbn [capacity_loop]. case_decide as E.
  - assert (k <> 31) by (intros ->; lia).
    rewrite Z.shiftl_mul_pow2, <- Z.pow_add_r by lia. rewrite u32_small.
    2: { split; [apply Z.pow_nonneg; lia|apply Z.pow_lt_mono_r; lia]. }
    destruct (IH (k + 1)) as (k'&->&?&?&Hle); [lia..|]. exists k'. split_and!; [done|lia..|].
    right. destruct Hle as [->|]; [by replace (k + 1 - 1) with k by lia|done].
  - exists k. split_and!; [done|lia..|by left].
Qed.

(** A capacity is rounded up to a power of two of at least 16; the server's
    table gets that many slots and the mask and the advertised capacity agree
    with it.  The server refuses to start exactly when the capacity does not
    fit the form of its own numeric, and the tables it builds are those
    [SetLocalNumNick_correct] asks for. *)
Theorem SetYXXCapacity_correct st c capacity s sname r :
  1 <= capacity <= 2 ^ 31 ->
  serv st !! c = Some s -> length (nn_capacity s) = 4%nat ->
  yxx st !! c = Some (sname ++ NUL :: r) -> Forall is_b64 sname ->
  (0 < length sname <= 2)%nat -> length (server_list st) = Z.to_nat NN_MAX_SERVER ->
  0 <= last_nn st < max_client (last_numerics_extendidos st) ->
  let ext := bool_decide (NUMNICKBASE <= b64_value 0 sname) in
  exists o, SetYXXCapacity st c capacity = Ok o /\
    match o with
    | None => max_client ext < capacity
    | Some st' => capacity <= max_client ext /\ exists s' k,
        4 <= k /\ capacity <= 2 ^ k /\ (k = 4 \/ 2 ^ (k - 1) < capacity) /\
        numerics_extendidos st' = ext /\ local_wf st' c s' k /\
        Forall (.= None) (client_list s') /\
        base64toint (nn_capacity s') = Ok (nn_mask s') /\
        server_list st' !! Z.to_nat (b64_value 0 sname) = Some (Some c)
    end.
Proof.
  intros Hcap Hs Hlc Hy Hsn Hl Hsl Hlast ext. unfold SetYXXCapacity.
  destruct (capacity_loop_spec 32 4 capacity) as (k&Hk&Hk4&Hck&Hmin); [lia..|].
  change 16 with (2 ^ 4). rewrite Hk. cbn [mbind result_bind].
  unfold get_yxx, get_serv. rewrite Hy, Hs. cbn [of_option mbind result_bind].
  assert (sname <> []) by (intros ->; simpl in Hl; lia).
  rewrite base64toint_value by (by try apply b64_cstr).
  cbn [mbind result_bind]. assert (Hv : b64_value 0 sname < 4096).
  { destruct (digits_value sname) as [? _]; [done|lia|].
    assert (64 ^ Z.of_nat (length sname) <= 64 ^ 2) by (apply Z.pow_le_mono_r; lia). lia. }
  pose proof (b64_value_range 0 sname ltac:(lia)).
  rewrite (bool_decide_ext (_ >= _) (NUMNICKBASE <= b64_value 0 sname)) by lia.
  fold ext (max_client ext) (client_width ext).
  pose (n := if ext then 18 else 12). assert (En : max_client ext = 2 ^ n) by by destruct ext.
  assert (4 <= n) by by destruct ext.
  assert (Hpow : 2 ^ k > max_client ext <-> max_client ext < capacity).
  { rewrite En. split; [|lia]. intros Hgt.
    assert (n < k) by (apply Z.gt_lt in Hgt; by apply Z.pow_lt_mono_r_iff in Hgt; lia).
    destruct Hmin as [->|]; [lia|].
    assert (2 ^ n <= 2 ^ (k - 1)) by (apply Z.pow_le_mono_r; lia). lia. }
  case_decide as E; [exists None; split; [done|]; by apply Hpow|].
  assert (0 < 2 ^ k <= 2 ^ n) by (split; [apply Z.pow_pos_nonneg; lia|lia]).
  assert (2 ^ n <= 262144) by by destruct ext.
  rewrite (u32_small (2 ^ k - 1)) by lia.
  assert (exists rest, inttobase64 (nn_capacity s) 0 (2 ^ k - 1) (client_width ext) =
      Ok (digits (2 ^ k - 1) (client_width ext) ++ NUL :: rest)) as (rest&->).
  { destruct (nn_capacity s) as [|a [|b [|c' [|d [|]]]]]; try done. destruct ext.
    - exists []. apply (inttobase64_spec [] [a; b; c'] d []).
    - exists [d]. apply (inttobase64_spec [] [a; b] c' [d]). }
  cbn [mbind result_bind]. rewrite wr_lt by (rewrite Hsl; unfold NN_MAX_SERVER; lia).
  cbn [mbind result_bind]. rewrite (u32_small (_ + 1)) by lia.
  replace (2 ^ k - 1 + 1) with (2 ^ k) by lia.
  eexists (Some _). split; [reflexivity|]. split; [lia|]. simpl.
  eexists _, k. split_and!; try done; [lia|..|]; simpl.
  - unfold local_wf. simpl. rewrite lookup_insert_eq. split_and!; [done| |lia|lia| |].
    + by rewrite Z.ones_equiv, Z.sub_1_r.
    + unfold calloc_clients. simpl. rewrite length_replicate. lia.
    + intros ->. done.
  - by apply Forall_replicate.
  - assert (Hsmall : 2 ^ k - 1 < 64 ^ Z.of_nat (client_width ext)).
    { rewrite <- max_client_pow. lia. }
    destruct ext; cbn [client_width nn_capacity nn_mask] in *; rewrite base64toint_digits, Z.mod_small, u32_small
      by lia; done.
  - rewrite list_lookup_insert_eq; [done|]. rewrite Hsl. unfold NN_MAX_SERVER. lia.
Qed.

(** Witness of [SetYXXCapacity_correct]. *)
Definition boot_state : state :=
  mkState 2 (replicate 4096 None) false 0 false {[0%nat := str "B" ++ [NUL; NUL; NUL]]}
    {[0%nat := mkServer (replicate 4 NUL) 0 [] 0]} ∅.

Lemma SetYXXCapacity_correct_witness :
  let ext := bool_decide (NUMNICKBASE <= b64_value 0 (str "B")) in
  exists o, SetYXXCapacity boot_state 0 1000 = Ok o /\
    match o with
    | None => max_client ext < 1000
    | Some st' => 1000 <= max_client ext /\ exists s' k,
        4 <= k /\ 1000 <= 2 ^ k /\ (k = 4 \/ 2 ^ (k - 1) < 1000) /\
        numerics_extendidos st' = ext /\ local_wf st' 0 s' k /\
        Forall (.= None) (client_list s') /\
        base64toint (nn_capacity s') = Ok (nn_mask s') /\
        server_list st' !! Z.to_nat (b64_value 0 (str "B")) = Some (Some 0%nat)
    end.
Proof.
  apply (SetYXXCapacity_correct boot_state 0 1000 (mkServer (replicate 4 NUL) 0 [] 0)
    (str "B") [NUL; NUL]); try reflexivity; try (split; [discriminate|reflexivity]);
    try (split; discriminate); try (simpl; lia); apply (bool_decide_unpack _); vm_compute; exact I.
Defined.

End capacity.

(** * IP addresses *)

Section ip.

Implicit Types (a l : ip_addr) (pre junk : list ascii).

Definition is_seg (x : Z) : Prop := 0 <= x < 65536.

(** Three digits per segment. *)
Definition enc (l : list Z) : list ascii := concat (map (fun x => digits x 3) l).

Lemma enc_cons x l : enc (x :: l) = digits x 3 ++ enc l.
Proof. done. Qed.

Lemma enc_app l1 l2 : enc (l1 ++ l2) = enc l1 ++ enc l2.
Proof. unfold enc. by rewrite map_app, concat_app. Qed.

Lemma length_enc l : length (enc l) = (3 * length l)%nat.
Proof.
  induction l as [|x l IH]; [done|]. rewrite enc_cons, length_app, length_digits, IH. simpl. lia.
Qed.

Lemma enc_cstr l : is_cstr (enc l).
Proof. induction l; [constructor|]. rewrite enc_cons. apply is_cstr_app. split; [apply digits_cstr|done]. Qed.

(** A write of [n] digits at the end of what has been written so far. *)
Lemma inttobase64_append pre junk v n :
  (n < length junk)%nat ->
  exists junk', length junk = (n + length junk')%nat /\
    inttobase64 (pre ++ junk) (length pre) v n = Ok ((pre ++ digits v n) ++ junk').
Proof.
  intros Hn. exists (NUL :: drop (S n) junk). split; [simpl; rewrite length_drop; lia|].
  destruct (drop n junk) as [|x post] eqn:E.
  { apply (f_equal length) in E. rewrite length_drop in E. simpl in E. lia. }
  pose proof (inttobase64_spec pre (take n junk) x post v) as H.
  rewrite <- E, take_drop, length_take_le in H by lia. rewrite H.
  rewrite <- app_assoc. do 3 f_equal.
  replace (S n) with (n + 1)%nat by lia. by rewrite <- drop_drop, E.
Qed.

Lemma length_snoc {A} (l : list A) x : length (l ++ [x]) = S (length l).
Proof. rewrite length_app. simpl. lia. Qed.

Lemma length_pre3 pre v : (length pre + 3)%nat = length (pre ++ digits v 3).
Proof. by rewrite length_app, length_digits. Qed.

Lemma wr_append pre c junk :
  (0 < length junk)%nat -> wr (pre ++ junk) (length pre) c = Ok ((pre ++ [c]) ++ tl junk).
Proof.
  destruct junk as [|x junk]; simpl; [lia|]. intros _.
  by rewrite (wr_middle _ pre x junk), <- app_assoc.
Qed.

(** The leading nonzero segments *)
Lemma lead_loop_spec fuel a1 l past pre junk :
  let a := a1 ++ l in
  length a = 8%nat -> (length l < fuel)%nat -> (3 * length l < length junk)%nat ->
  exists l1 l2 junk', l = l1 ++ l2 /\ Forall (fun x => x <> 0) l1 /\ (length junk = 3 * length l1 + length junk')%nat /\
    lead_loop fuel a past (pre ++ junk) (length pre) (length a1) =
      Ok ((pre ++ enc l1) ++ junk', length (pre ++ enc l1), length (a1 ++ l1)) /\
    (l2 = [] \/ exists l', l2 = 0 :: l').
Proof.
  revert a1 l pre junk. induction fuel as [|fuel IH]; intros a1 l pre junk a Ha Hf Hj; [lia|].
  cbn [lead_loop]. unfold seg.
  assert (Hr : rd (a ++ [past]) (length a1) = Ok (hd past l)).
  { unfold a. destruct l as [|x l].
    - rewrite app_nil_r. by apply (rd_middle _ a1 past []).
    - rewrite <- app_assoc. by apply (rd_middle _ a1 x (l ++ [past])). }
  rewrite Hr. cbn [mbind result_bind].
  unfold a in Ha. rewrite length_app in Ha. case_decide as E.
  - destruct E as [Hx Hlt]. destruct l as [|x l]; simpl in *; [lia|].
    destruct (inttobase64_append pre junk x 3) as (junk1&Hl1&->); [lia|]. cbn [mbind result_bind].
    destruct (IH (a1 ++ [x]) l (pre ++ digits x 3) junk1) as (l1&l2&junk'&->&?&?&Hg&?).
    + rewrite <- app_assoc, length_app. simpl. lia.
    + lia.
    + lia.
    + exists (x :: l1), l2, junk'. split_and!; [done|by constructor|simpl; lia| |done].
      rewrite length_pre3 with (v := x).
      rewrite length_snoc, <- !app_assoc in Hg.
      rewrite enc_cons. cbn [app] in *. unfold a. rewrite <- !app_assoc. exact Hg.
  - exists [], l, junk. rewrite !app_nil_r. split_and!; [done|constructor|done|done|].
    destruct l as [|x l]; [by left|right]. simpl in *.
    destruct (decide (x = 0)) as [->|]; [by eexists|]. destruct E. split; [done|lia].
Qed.

(** The rest of the address, after or around the run of zeros *)
Lemma rest_loop_plain fuel a1 l ms mz pre junk :
  let a := a1 ++ l in
  length a = 8%nat -> (length l < fuel)%nat -> (3 * length l < length junk)%nat ->
  (mz = 0 \/ ms < length a1)%nat ->
  exists junk', (0 < length junk')%nat /\
    rest_loop fuel a ms mz (pre ++ junk) (length pre) (length a1) =
      Ok ((pre ++ enc l) ++ junk', length (pre ++ enc l)).
Proof.
  revert a1 l pre junk. induction fuel as [|fuel IH]; intros a1 l pre junk a Ha Hf Hj Hms; [lia|].
  cbn [rest_loop]. unfold a in *. rewrite length_app in Ha. destruct l as [|x l]; simpl in Ha, Hf, Hj.
  - rewrite decide_False by lia. exists junk. change (enc []) with (@nil ascii).
    rewrite app_nil_r. done.
  - rewrite decide_True, decide_False by lia. unfold seg.
    rewrite (rd_middle _ a1 x l) by done. cbn [mbind result_bind].
    destruct (inttobase64_append pre junk x 3) as (junk1&Hl1&->); [lia|]. cbn [mbind result_bind].
    destruct (IH (a1 ++ [x]) l (pre ++ digits x 3) junk1) as (junk'&?&Hg).
    + rewrite <- app_assoc, length_app. simpl. lia.
    + lia.
    + lia.
    + rewrite length_app. simpl. lia.
    + exists junk'. split; [done|]. rewrite length_pre3 with (v := x).
      rewrite length_snoc, <- !app_assoc in Hg. cbn [app] in Hg.
      rewrite enc_cons, <- !app_assoc. done.
Qed.

Lemma rest_loop_run fuel a1 l z l2 mz pre junk :
  let a := a1 ++ l ++ z ++ l2 in
  length a = 8%nat -> length z = mz -> mz <> 0%nat ->
  (S (length l) + length l2 < fuel)%nat ->
  (3 * length l + 3 * length l2 + 3 < length junk)%nat ->
  exists junk', (0 < length junk')%nat /\
    rest_loop fuel a (length (a1 ++ l)) mz (pre ++ junk) (length pre) (length a1) =
      Ok ((pre ++ enc l ++ "_"%char :: enc l2) ++ junk',
          length (pre ++ enc l ++ "_"%char :: enc l2)).
Proof.
  revert a1 l pre junk. induction fuel as [|fuel IH]; intros a1 l pre junk a Ha Hz Hmz Hf Hj; [lia|].
  cbn [rest_loop]. unfold a in *. rewrite !length_app in Ha. destruct l as [|x l]; simpl in Ha, Hf, Hj.
  - rewrite decide_True by lia. rewrite app_nil_r, decide_True by lia.
    rewrite wr_append by lia. cbn [mbind result_bind].
    replace (S (length pre)) with (length (pre ++ ["_"%char])) by (rewrite length_app; simpl; lia).
    replace (length a1 + mz)%nat with (length (a1 ++ z)) by (rewrite length_app; lia).
    cbn [app]. rewrite (app_assoc a1 z l2).
    destruct (rest_loop_plain fuel (a1 ++ z) l2 (length a1) mz (pre ++ ["_"%char]) (tl junk))
      as (junk'&?&->).
    + rewrite !length_app. lia.
    + lia.
    + destruct junk; simpl in *; lia.
    + rewrite length_app. lia.
    + exists junk'. split; [done|]. change (enc []) with (@nil ascii).
      by rewrite <- !app_assoc.
  - rewrite decide_True, decide_False; [|rewrite length_app; simpl; lia|lia]. unfold seg.
    rewrite (rd_middle _ a1 x (l ++ z ++ l2)) by done. cbn [mbind result_bind].
    destruct (inttobase64_append pre junk x 3) as (junk1&Hl1&->); [lia|]. cbn [mbind result_bind].
    destruct (IH (a1 ++ [x]) l (pre ++ digits x 3) junk1) as (junk'&?&Hg); [|done|done|lia|lia|].
    + rewrite !length_app. simpl. lia.
    + exists junk'. split; [done|]. rewrite length_pre3 with (v := x).
      rewrite length_snoc, <- !app_assoc in Hg. cbn [app] in Hg |- *.
      rewrite enc_cons, <- !app_assoc. done.
Qed.

(** The decoder, one piece at a time *)

Lemma dec_seg fuel x t a1 y l :
  is_seg x ->
  b64ip_loop (S fuel) (digits x 3 ++ t) (a1 ++ y :: l) (length a1) =
  if decide (S (length a1) < 8)%nat then b64ip_loop fuel t (a1 ++ x :: l) (S (length a1))
  else Ok (a1 ++ x :: l).
Proof.
  intros Hx. unfold is_seg in Hx. cbn [b64ip_loop digits app].
  set (c0 := nth (Z.to_nat (x / 64 / 64 mod 64)) convert2y NUL).
  set (c1 := nth (Z.to_nat (x / 64 mod 64)) convert2y NUL).
  set (c2 := nth (Z.to_nat (x mod 64)) convert2y NUL).
  cbn [app deref head tl of_option mbind result_bind].
  destruct (digit_convert2y (x / 64 / 64 mod 64)) as (E0&_&Hu); [apply Z.mod_pos_bound; lia|].
  destruct (digit_convert2y (x / 64 mod 64)) as (E1&_); [apply Z.mod_pos_bound; lia|].
  destruct (digit_convert2y (x mod 64)) as (E2&_); [apply Z.mod_pos_bound; lia|].
  fold c0 in E0, Hu. fold c1 in E1. fold c2 in E2. rewrite decide_False by done.
  assert (u16 (Z.lor (Z.shiftl (u16 (Z.lor (Z.shiftl (to_digit c0) NUMNICKLOG) (to_digit c1)))
    NUMNICKLOG) (to_digit c2)) = x) as ->.
  { rewrite E0, E1, E2. unfold NUMNICKLOG, u16.
    pose proof (Z.mod_pos_bound x 64). pose proof (Z.mod_pos_bound (x / 64) 64).
    pose proof (Z.div_mod x 64). pose proof (Z.div_mod (x / 64) 64).
    rewrite (Z.mod_small (x / 64 / 64)) by lia. rewrite !lor_shiftl_add by lia.
    rewrite (Z.mod_small (x / 64 / 64 * 2 ^ 6 + _)) by lia. rewrite Z.mod_small by lia. lia. }
  rewrite (wr_middle _ a1 y l) by done. done.
Qed.

Lemma dec_plain fuel l t a1 :
  Forall is_seg l -> l <> [] -> (length a1 + length l = 8)%nat -> (length l < fuel)%nat ->
  b64ip_loop fuel (enc l ++ t) (a1 ++ replicate (length l) 0) (length a1) = Ok (a1 ++ l).
Proof.
  revert fuel a1. induction l as [|x l IH]; intros fuel a1 Hl Hne Hlen Hf; [done|].
  destruct fuel as [|fuel]; [simpl in Hf; lia|]. simpl in Hlen, Hf.
  apply Forall_cons in Hl as [Hx Hl]. rewrite enc_cons, <- app_assoc.
  cbn [length replicate]. rewrite dec_seg by done. case_decide as E.
  - specialize (IH fuel (a1 ++ [x])). rewrite length_snoc, <- !app_assoc in IH.
    apply IH; [done| |lia|lia]. intros ->. simpl in *. lia.
  - assert (length l = 0%nat) as ->%nil_length_inv by lia. done.
Qed.

Lemma zero_fill_spec fuel n a1 l :
  (n <= length l)%nat -> (n <= fuel)%nat ->
  zero_fill fuel (Z.of_nat n) (a1 ++ l) (length a1) =
  Ok (a1 ++ replicate n 0 ++ drop n l, (length a1 + n)%nat).
Proof.
  revert n a1 l. induction fuel as [|fuel IH]; intros n a1 l Hl Hf.
  - assert (n = 0%nat) as -> by lia. simpl. by rewrite Nat.add_0_r.
  - cbn [zero_fill]. destruct n as [|n]; [by rewrite decide_True, Nat.add_0_r|].
    rewrite decide_False by lia. destruct l as [|y l]; simpl in Hl; [lia|].
    rewrite (wr_middle _ a1 y l) by done. cbn [mbind result_bind].
    replace (Z.of_nat (S n) - 1) with (Z.of_nat n) by lia.
    specialize (IH n (a1 ++ [0]) l). rewrite length_snoc, <- !app_assoc in IH.
    cbn [app] in IH. rewrite IH by lia. by rewrite Nat.add_succ_r.
Qed.

Lemma dec_run fuel l2 z a1 r :
  Forall is_seg l2 -> (length a1 + z + length l2 = 8)%nat -> (z <> 0)%nat ->
  (S (length l2) < fuel)%nat ->
  b64ip_loop fuel ("_"%char :: enc l2 ++ NUL :: r) (a1 ++ replicate (z + length l2) 0)
    (length a1) = Ok (a1 ++ replicate z 0 ++ l2).
Proof.
  intros Hl2 Hlen Hz Hf. destruct fuel as [|fuel]; [lia|]. cbn [b64ip_loop deref head of_option mbind result_bind].
  rewrite decide_True by done.
  assert (strlen ("_"%char :: enc l2 ++ NUL :: r) = Ok (S (3 * length l2))) as ->.
  { rewrite app_comm_cons, strlen_app; [simpl; by rewrite length_enc|].
    apply is_cstr_cons. split; [done|apply enc_cstr]. }
  cbn [mbind result_bind].
  assert (u32 (u64 (25 - Z.of_nat (S (3 * length l2))) / 3 - Z.of_nat (length a1)) = Z.of_nat z) as ->.
  { unfold u32, u64. rewrite (Z.mod_small (25 - _)) by lia.
    replace (25 - Z.of_nat (S (3 * length l2))) with ((8 - Z.of_nat (length l2)) * 3) by lia.
    rewrite Z.div_mul by lia. rewrite Z.mod_small by lia. lia. }
  rewrite zero_fill_spec by (rewrite ?length_replicate; lia). cbn [mbind result_bind tl].
  rewrite drop_replicate. replace (z + length l2 - z)%nat with (length l2) by lia.
  case_decide as E.
  - rewrite app_assoc. replace (length a1 + z)%nat with (length (a1 ++ replicate z 0))
      by (rewrite length_app, length_replicate; lia).
    rewrite dec_plain; [by rewrite <- app_assoc|done| |rewrite length_app, length_replicate; lia|lia].
    intros ->. simpl in *. lia.
  - assert (length l2 = 0%nat) as ->%nil_length_inv by lia. done.
Qed.

Lemma dec_text fuel l1 l2 z a1 r :
  Forall is_seg l1 -> Forall is_seg l2 ->
  (length a1 + length l1 + z + length l2 = 8)%nat -> (z <> 0)%nat ->
  (S (length l1 + length l2) < fuel)%nat ->
  b64ip_loop fuel (enc l1 ++ "_"%char :: enc l2 ++ NUL :: r)
    (a1 ++ replicate (length l1 + z + length l2) 0) (length a1) =
  Ok (a1 ++ l1 ++ replicate z 0 ++ l2).
Proof.
  intros Hl1 Hl2. revert fuel a1.
  induction Hl1 as [|x l1 Hx Hl1 IH]; intros fuel a1 Hlen Hz Hf; simpl in Hlen, Hf.
  - apply (dec_run fuel l2 z a1 r); [done|lia|done|lia].
  - destruct fuel as [|fuel]; [lia|]. rewrite enc_cons, <- app_assoc. cbn [length replicate Nat.add].
    rewrite dec_seg, decide_True by (done || lia).
    specialize (IH fuel (a1 ++ [x])). rewrite length_snoc, <- !app_assoc in IH.
    apply IH; [simpl; lia|done|lia].
Qed.

(** The run of zeros that the encoder drops *)

Fixpoint lead (a : ip_addr) : nat :=
  match a with [] => O | x :: a => if decide (x = 0) then O else S (lead a) end.

Lemma lead_app l1 l2 :
  Forall (fun x => x <> 0) l1 -> l2 = [] \/ (exists l', l2 = 0 :: l') ->
  lead (l1 ++ l2) = length l1.
Proof.
  intros H1 H2. induction H1 as [|x l1 Hx H1 IH]; simpl.
  - destruct H2 as [->|[l' ->]]; [done|]. simpl. done.
  - rewrite decide_False by done. by rewrite IH.
Qed.

Lemma zeros_loop_bounds fuel a zero ms mz curr ii :
  length a = 8%nat -> (ii <= 8)%nat -> (8 - ii < fuel)%nat ->
  (zero <= ms)%nat -> (ms + mz <= ii)%nat -> (zero + curr <= ii)%nat ->
  (1 <= mz + curr \/ a !! ii = Some 0%Z)%nat ->
  exists ms' mz' curr', zeros_loop fuel a ms mz curr ii = Ok (ms', mz', curr') /\
    (zero <= ms' /\ ms' + mz' <= 8 /\ zero + curr' <= 8 /\ 1 <= mz' + curr')%nat.
Proof.
  intros Ha. revert ms mz curr ii.
  induction fuel as [|fuel IH]; intros ms mz curr ii Hii Hf H1 H2 H3 H4; [lia|].
  cbn [zeros_loop]. case_decide as E.
  - unfold seg. destruct (rd_lt a ii) as (x&->&Hx); [lia|]. cbn [mbind result_bind].
    repeat case_decide; apply IH; try lia. left. destruct H4; [lia|congruence].
  - exists ms, mz, curr. split_and!; try done; try lia.
    destruct H4 as [|H4]; [done|]. apply lookup_lt_Some in H4. lia.
Qed.

Lemma zero_run_bounds a :
  length a = 8%nat -> (lead a < 8)%nat ->
  exists ms mz, zero_run a (lead a) = Ok (ms, mz) /\
    (lead a <= ms /\ ms + mz <= 8 /\ 1 <= mz)%nat.
Proof.
  intros Ha Hl. unfold zero_run.
  assert (Hz : forall a, (lead a < length a)%nat -> a !! lead a = Some 0).
  { clear. induction a as [|x a IH]; simpl; [lia|]. case_decide; [by subst|].
    intros ?. simpl. apply IH. lia. }
  destruct (zeros_loop_bounds 9 a (lead a) (lead a) 0 0 (lead a))
    as (ms&mz&curr&->&?&?&?&?); [lia..|right; apply Hz; lia|].
  cbn [mbind result_bind]. case_decide; eexists _, _; (split; [done|lia]).
Qed.

(** Does the run the encoder drops consist of zeros? *)
Definition drops_zeros (a : ip_addr) : bool :=
  match zero_run a (lead a) with
  | Ok (ms, mz) => bool_decide (take mz (drop ms a) = replicate mz 0)
  | _ => false
  end.

(** The number of runs of zeros of an address. *)
Fixpoint zero_runs (prev : bool) (a : ip_addr) : nat :=
  match a with
  | [] => O
  | x :: a => if decide (x = 0) then (if prev then O else 1) + zero_runs true a
              else zero_runs false a
  end.

(** Only the positions of the zeros matter. *)
Definition pattern (a : ip_addr) : ip_addr := map (fun x => if decide (x = 0) then 0 else 1) a.

Lemma zeros_loop_pattern fuel a ms mz curr ii :
  zeros_loop fuel (pattern a) ms mz curr ii = zeros_loop fuel a ms mz curr ii.
Proof.
  revert ms mz curr ii. induction fuel as [|fuel IH]; intros ms mz curr ii; [done|].
  cbn [zeros_loop]. case_decide; [|done]. unfold seg, rd, pattern.
  rewrite list_lookup_fmap. destruct (a !! ii) as [x|]; simpl; [|done].
  destruct (decide (x = 0)) as [->|]; simpl; [apply IH|].
  case_decide; apply IH.
Qed.

Lemma lead_pattern a : lead (pattern a) = lead a.
Proof.
  induction a as [|x a IH]; [done|]. simpl. destruct (decide (x = 0)); simpl; [done|].
  f_equal. apply IH.
Qed.

Lemma zero_runs_pattern prev a : zero_runs prev (pattern a) = zero_runs prev a.
Proof.
  revert prev. induction a as [|x a IH]; intros prev; [done|]. simpl.
  destruct (decide (x = 0)); simpl; [f_equal|]; apply IH.
Qed.

Lemma take_pattern ms mz a : take mz (drop ms (pattern a)) = replicate mz 0 <-> take mz (drop ms a) = replicate mz 0.
Proof.
  unfold pattern. rewrite <- fmap_drop. revert mz.
  induction (drop ms a) as [|x l IH]; intros [|mz]; simpl; try done.
  case_decide; split; intros H'; simplify_eq/=; try done; f_equal; by apply IH.
Qed.

Lemma drops_zeros_pattern a : drops_zeros (pattern a) = drops_zeros a.
Proof.
  unfold drops_zeros, zero_run. rewrite lead_pattern, zeros_loop_pattern.
  destruct (zeros_loop 9 a _ _ _ _) as [[[ms mz] curr]| |]; [|done..]. cbn [mbind result_bind].
  case_decide; apply bool_decide_ext, take_pattern.
Qed.

(** All the patterns, to decide what depends on the pattern only *)
Definition patterns : list ip_addr :=
  map (map (fun b : bool => if b then 0 else 1))
    (fold_right (fun _ ls => map (cons true) ls ++ map (cons false) ls) [[]] (seq 0 8)).

Lemma pattern_check (P : ip_addr -> bool) a : length a = 8%nat -> forallb P patterns = true -> P (pattern a) = true.
Proof.
  intros Hl. rewrite forallb_forall. intros H. apply H. unfold patterns. apply in_map_iff.
  exists (map (fun x => bool_decide (x = 0)) a). split.
  - unfold pattern. rewrite map_map. apply map_ext. intros x. by case_bool_decide; case_decide.
  - rewrite <- Hl. clear. generalize 0%nat.
    induction a as [|x a IH]; intros n; simpl; [by left|]. apply in_app_iff.
    case_bool_decide; [left|right]; apply in_map_iff; eexists; (split; [done|apply IH]).
Qed.

Lemma single_run_drops_zeros a :
  length a = 8%nat -> (zero_runs false a <= 1)%nat -> drops_zeros a = true.
Proof.
  rewrite <- zero_runs_pattern, <- drops_zeros_pattern. intros Hl Hr.
  pose proof (pattern_check (fun p => negb (bool_decide (zero_runs false p <= 1)%nat) || drops_zeros p) a Hl) as H.
  cbv beta in H. rewrite bool_decide_true in H by done. apply H. by vm_compute.
Qed.

(** The text of an address that is not an IPv4 one, and what it decodes to. *)
Lemma v6_text a past buf :
  length a = 8%nat -> Forall is_seg a -> length buf = 25%nat ->
  irc_in_addr_is_ipv4 a = false ->
  exists buf' ms mz, iptobase64 buf a past true = Ok buf' /\ zero_run a (lead a) = Ok (ms, mz) /\
    base64toip buf' = Ok (take ms a ++ replicate mz 0 ++ drop (ms + mz) a) /\
    (ms + mz <= 8)%nat.
Proof.
  intros Ha Hs Hb H4. unfold iptobase64. rewrite H4. cbn [negb].
  destruct (lead_loop_spec 9 [] a past [] buf) as (l1&l2&junk&E&Hnz&Hj&Hg&Hl2); [simpl; lia..|].
  cbn [app length] in Hg. rewrite Hg. cbn [mbind result_bind]. assert (Hlead : lead a = length l1).
  { rewrite E. by apply lead_app. }
  rewrite <- Hlead. assert (Ea := Ha). rewrite E, length_app in Ea. destruct Hl2 as [->|[l' ->]].
  - (* no zero at all *)
    rewrite app_nil_r in E. simpl in Ea. assert (lead a = 8%nat) as Hl8 by lia.
    assert (zero_run a (lead a) = Ok (8, 0)%nat) as -> by by rewrite Hl8.
    cbn [mbind result_bind]. rewrite Hl8.
    destruct (rest_loop_plain 9 a [] 8 0 (enc l1) junk) as (junk'&?&Hr);
      [by rewrite app_nil_r|simpl; lia|simpl; lia|by left|].
    rewrite Ha, app_nil_r in Hr. rewrite Hr. cbn [mbind result_bind].
    change (enc []) with (@nil ascii). rewrite app_nil_r, wr_append by done.
    eexists _, 8%nat, 0%nat. split_and!; [done..| |lia].
    rewrite take_ge, drop_ge, app_nil_r by lia. rewrite <- app_assoc, E. cbn [app].
    unfold base64toip. rewrite strlen_app by apply enc_cstr.
    cbn [mbind result_bind]. rewrite length_enc, <- Hlead, Hl8, decide_False by done.
    assert (length l1 = 8%nat) as L1 by lia.
    pose proof (dec_plain 9 l1 (NUL :: tl junk') []) as Hd. rewrite L1 in Hd. cbn [length app] in Hd.
    apply Hd; [by rewrite <- E|by destruct l1|done|lia].
  - simpl in Ea. destruct (zero_run_bounds a) as (ms&mz&Hz&Hb1&Hb2&Hb3); [done|lia|].
    rewrite Hz. cbn [mbind result_bind].
    set (m := (ms - length l1)%nat).
    assert (Hdrop : 0 :: l' = take m (0 :: l') ++ take mz (drop ms a) ++ drop (ms + mz) a).
    { rewrite <- drop_drop, take_drop. replace (drop ms a) with (drop m (0 :: l')).
      { by rewrite take_drop. }
      rewrite E, drop_app_ge by lia. done. }
    assert (Hm : take ms a = l1 ++ take m (0 :: l')).
    { rewrite E, take_app_ge by lia. done. }
    assert (Hlm : length (take m (0 :: l')) = m) by (rewrite length_take; simpl; lia).
    destruct (rest_loop_run 9 l1 (take m (0 :: l')) (take mz (drop ms a)) (drop (ms + mz) a) mz
      (enc l1) junk) as (junk'&?&Hr).
    + rewrite <- Hdrop, length_app. simpl. lia.
    + rewrite length_take, length_drop. lia.
    + lia.
    + rewrite Hlm, length_drop. lia.
    + rewrite Hlm, length_drop. lia.
    + rewrite <- Hdrop, <- E, length_app, Hlm in Hr.
      replace (length l1 + m)%nat with ms in Hr by lia.
      rewrite Hlead, Hr. cbn [mbind result_bind]. rewrite wr_append by done.
      eexists _, ms, mz. split_and!; [done..| |done].
      rewrite <- !app_assoc. cbn [app]. rewrite app_assoc, <- enc_app, <- Hm.
      unfold base64toip. rewrite app_comm_cons, app_assoc, strlen_app.
      2: { rewrite is_cstr_app, is_cstr_cons. split_and!; [apply enc_cstr|done|apply enc_cstr]. }
      cbn [mbind result_bind]. rewrite length_app. cbn [length].
      rewrite !length_enc, length_take, length_drop, decide_False by lia.
      rewrite <- app_assoc. cbn [app].
      pose proof (dec_text 9 (take ms a) (drop (ms + mz) a) mz [] (tl junk')) as Hd.
      rewrite length_take, length_drop in Hd. cbn [length] in Hd.
      replace (ms `min` length a + mz + (length a - (ms + mz)))%nat with 8%nat in Hd by lia.
      apply Hd; [by apply Forall_take|by apply Forall_drop|lia..].
Qed.

End ip.

(** IP addresses on the wire.  The encoder stays inside its 25 bytes, and the
    decoder terminates on its output.  An IPv4 address comes back in its mapped
    form (the unspecified one as all zeros); an IPv6 address comes back unchanged
    exactly when the run that the encoder replaces by an underscore really is
    one of zeros, in particular when the address has at most one run of zeros. *)
Theorem iptobase64_roundtrip a past buf :
  length a = 8%nat -> Forall is_seg a -> length buf = 25%nat ->
  exists buf' a', iptobase64 buf a past true = Ok buf' /\ base64toip buf' = Ok a' /\
    (irc_in_addr_is_ipv4 a = true ->
       a' = if decide (drop 6 a = [0; 0]) then replicate 8 0
            else [0; 0; 0; 0; 0; 65535] ++ drop 6 a) /\
    (irc_in_addr_is_ipv4 a = false -> (a' = a <-> drops_zeros a = true)) /\
    (irc_in_addr_is_ipv4 a = false -> (zero_runs false a <= 1)%nat -> a' = a).
Proof.
  intros Ha Hs Hb. destruct (irc_in_addr_is_ipv4 a) eqn:H4.
  - destruct a as [|a0 [|a1 [|a2 [|a3 [|a4 [|a5 [|hi [|lo [|]]]]]]]]]; try done.
    set (v := Z.lor (Z.shiftl hi 16) lo).
    assert (iptobase64 buf [a0; a1; a2; a3; a4; a5; hi; lo] past true = inttobase64 buf 0 v 6) as ->.
    { unfold iptobase64. by rewrite H4. }
    rewrite !Forall_cons in Hs. destruct Hs as (_&_&_&_&_&_&Hhi&Hlo&_). unfold is_seg in *.
    assert (Ev : v = hi * 65536 + lo) by by apply (lor_shiftl_add hi lo 16).
    pose proof (inttobase64_spec [] (take 6 buf) (nth 6 buf NUL) (drop 7 buf) v) as Hi2.
    rewrite length_take_le in Hi2 by lia.
    assert (Eb : buf = take 6 buf ++ nth 6 buf NUL :: drop 7 buf).
    { do 25 (destruct buf as [|? buf]; [done|]). done. }
    cbn [app length] in Hi2. rewrite <- Eb in Hi2. rewrite Hi2. eexists _, _. split; [done|]. unfold base64toip.
    rewrite strlen_app by apply digits_cstr. cbn [mbind result_bind].
    rewrite length_digits, decide_True by done. rewrite base64toint_digits. cbn [mbind result_bind].
    rewrite Z.mod_small, u32_small by (simpl; lia).
    split; [|by split]. cbn [drop app].
    assert (Hv0 : v = 0 <-> [hi; lo] = [0; 0]).
    { split; [intros ?; do 2 (f_equal; try lia)|intros E; injection E as Eh El; lia]. }
    case_decide as E0; [apply Hv0 in E0; by rewrite decide_True|].
    rewrite decide_False by by rewrite <- Hv0.
    assert (u16 (Z.shiftr v 16) = hi) as ->.
    { unfold u16. rewrite Ev, Z.shiftr_div_pow2, Z.div_add_l, Z.div_small by lia.
      rewrite Z.add_0_r. by apply Z.mod_small. }
    assert (Z.land v 65535 = lo) as ->; [|done].
    change 65535 with (Z.ones 16). rewrite Z.land_ones, Ev by done.
    rewrite Z.add_comm, Z.mod_add by done. by apply Z.mod_small.
  - destruct (v6_text a past buf) as (buf'&ms&mz&->&Hz&Hd&Hm); [done..|].
    eexists buf', _. split; [done|]. split; [exact Hd|].
    assert (Hiff : take ms a ++ replicate mz 0 ++ drop (ms + mz) a = a <-> drops_zeros a = true).
    { unfold drops_zeros. rewrite Hz, bool_decide_eq_true.
      assert (Ea : a = take ms a ++ take mz (drop ms a) ++ drop (ms + mz) a).
      { by rewrite <- drop_drop, !take_drop. }
      split.
      - intros E. assert (E' := eq_trans E Ea). apply app_inv_head in E'.
        clear E. rename E' into E. apply app_inj_1 in E as [-> _]; [done|].
        rewrite length_replicate, length_take, length_drop. lia.
      - intros E. symmetry. etransitivity; [exact Ea|]. by rewrite E. }
    split_and!; [done|done|]. intros _ Hr. apply Hiff. by apply single_run_drops_zeros.
Qed.

(** Witness of [iptobase64_roundtrip]. *)
Lemma iptobase64_roundtrip_witness :
  let a := [0x2001; 0xdb8; 0; 0; 0; 7; 0xffff; 1] in
  exists buf' a', iptobase64 (replicate 25 NUL) a 0 true = Ok buf' /\ base64toip buf' = Ok a' /\
    (irc_in_addr_is_ipv4 a = true ->
       a' = if decide (drop 6 a = [0; 0]) then replicate 8 0
            else [0; 0; 0; 0; 0; 65535] ++ drop 6 a) /\
    (irc_in_addr_is_ipv4 a = false -> (a' = a <-> drops_zeros a = true)) /\
    (irc_in_addr_is_ipv4 a = false -> (zero_runs false a <= 1)%nat -> a' = a).
Proof.
  apply (iptobase64_roundtrip [0x2001; 0xdb8; 0; 0; 0; 7; 0xffff; 1] 0 (replicate 25 NUL));
    [reflexivity| |reflexivity].
  repeat constructor; discriminate.
Defined.

(** With a second, shorter run the count of zeros is not reset: the encoder then
    drops nonzero segments and the address is lost. *)
Theorem iptobase64_loses_segments :
  let a := [0; 0; 1; 0; 1; 0; 1; 0] in
  exists buf', iptobase64 (replicate 25 NUL) a 0 true = Ok buf' /\
    base64toip buf' = Ok [0; 0; 1; 0; 1; 0; 0; 0].
Proof.
  exists (str "AAAAAAAABAAAAAB_" ++ replicate 9 NUL).
  split; vm_compute; reflexivity.
Qed.
