(* ===== verification/Findserver.v ===== *)
(** Findserver: the searches in the table of servers of ircd/numnicks.c,
    markMatchexServer() and find_match_server().

    The state of the numerics is that of Numnicks.v; the names of the clients, as
    buffers with the byte before them, and their flags are maps. *)

From S2P Require Import Prelude Common Match Matchcomp Numnicks.

Definition FLAGS_MAP : Z := 0x00800000.

(** * Definitions *)

(** [for (i = 0; i < lastNNServer; i++)]: matchexec() reads the byte before
    the name, but none behind its terminator. *)
Fixpoint mark_loop (n i : nat) (servers : list (option nat)) (names : gmap nat (ascii * list ascii))
    (cmask : cstring) (minlen : Z) (cnt : Z) (flags : gmap nat Z) : result (Z * gmap nat Z) :=
  match n with
  | O => Ok (cnt, flags)
  | S n =>
      a ← rd servers i;
      match a with
      | None => mark_loop n (S i) servers names cmask minlen cnt flags
      | Some acptr =>
          '(x, name) ← of_option (names !! acptr); f ← of_option (flags !! acptr);
          r ← matchexec (x :: c_text name ++ [NUL]) cmask minlen;
          if decide (r <> 0) then
            mark_loop n (S i) servers names cmask minlen cnt (<[acptr := Z.land f (Z.lnot FLAGS_MAP)]> flags)
          else
            mark_loop n (S i) servers names cmask minlen (cnt + 1) (<[acptr := Z.lor f FLAGS_MAP]> flags)
      end
  end.

Definition markMatchexServer (st : state) (names : gmap nat (ascii * list ascii)) (flags : gmap nat Z)
    (cmask : cstring) (minlen : Z) : result (Z * gmap nat Z) :=
  mark_loop (Z.to_nat (lastNNServer st)) 0 (server_list st) names cmask minlen 0 flags.

Fixpoint find_loop (n i : nat) (servers : list (option nat)) (names : gmap nat (ascii * list ascii))
    (mask : cstring) : result (option nat) :=
  match n with
  | O => Ok None
  | S n =>
      a ← rd servers i;
      match a with
      | None => find_loop n (S i) servers names mask
      | Some acptr =>
          '(_, name) ← of_option (names !! acptr);
          r ← match_ mask name;
          if decide (r = 0) then Ok (Some acptr) else find_loop n (S i) servers names mask
      end
  end.

(** The mask is collapsed in its buffer, which is returned. *)
Definition find_match_server (st : state) (names : gmap nat (ascii * list ascii)) (mask : option (list ascii))
    : result (option nat * option (list ascii)) :=
  match mask with
  | None => Ok (None, None)
  | Some buf =>
      c ← deref buf;
      if decide (c = NUL) then Ok (None, Some buf)
      else
        m ← collapse (Some buf); m ← of_option m;
        o ← find_loop (Z.to_nat (lastNNServer st)) 0 (server_list st) names (c_text m);
        Ok (o, Some m)
  end.

(** * The table of servers *)

(** The loops see every server: none is behind [lastNNServer]. *)
Record table_ok (st : state) : Prop := {
  table_length : length (server_list st) = Z.to_nat NN_MAX_SERVER;
  table_last : 0 <= lastNNServer st <= NN_MAX_SERVER;
  table_below i c : server_list st !! i = Some (Some c) -> Z.of_nat i < lastNNServer st }.

Lemma table_insert st i c l last :
  table_ok st -> wr (server_list st) i c = Ok l ->
  lastNNServer st <= last <= NN_MAX_SERVER -> (c = None \/ Z.of_nat i < last) ->
  length l = Z.to_nat NN_MAX_SERVER /\ 0 <= last <= NN_MAX_SERVER /\
  forall j d, l !! j = Some (Some d) -> Z.of_nat j < last.
Proof.
  intros [Hlen Hlast Hb] [Hi ->]%wr_Ok Hle Hc. rewrite length_insert. split_and!; [done|lia|lia|].
  intros j d [(<-&->&_)|[_ Hj]]%list_lookup_insert_Some; [by destruct Hc|]. apply Hb in Hj. lia.
Qed.

Lemma base64toint_nonneg s v : base64toint s = Ok v -> 0 <= v.
Proof.
  assert (forall i s v, 0 <= i -> base64_loop i s = Ok v -> 0 <= v) as Hloop.
  { intros i t. revert i. induction t as [|c t IH]; intros i w Hi; simpl; [done|].
    case_decide; [intros; by simplify_eq|]. apply IH. by apply Z.mod_pos_bound. }
  destruct s as [|c s]; [done|]. apply Hloop, to_digit_range.
Qed.

(** [if (index >= lastNNServer) lastNNServer = index + 1; server_list[index] = c;] *)
Lemma table_bump st index c l :
  let st1 := if decide (index >= lastNNServer st) then set_lastNNServer (u32 (index + 1)) st else st in
  table_ok st -> 0 <= index -> wr (server_list st1) (Z.to_nat index) (Some c) = Ok l -> table_ok (set_server_list l st1).
Proof.
  intros st1 Ht H0 Hw. assert (server_list st1 = server_list st) as Es by (subst st1; by destruct (decide _)).
  rewrite Es in Hw. destruct Ht as [Hlen Hlast Hb]. pose proof (proj1 (wr_Ok _ _ _ _ Hw)) as Hi. rewrite Hlen in Hi.
  assert (lastNNServer st <= lastNNServer st1 <= NN_MAX_SERVER /\ index < lastNNServer st1) as [H1 H2].
  { subst st1. unfold NN_MAX_SERVER in *. destruct (decide _); cbn [lastNNServer set_lastNNServer]; [|lia].
    unfold u32. rewrite Z.mod_small by lia. lia. }
  destruct (table_insert st _ _ l _ (Build_table_ok _ Hlen Hlast Hb) Hw H1) as (?&?&?); [right; lia|]. by constructor.
Qed.

Lemma table_set_serv c s y st : table_ok st -> table_ok (set_serv c s (set_yxx c y st)).
Proof. by intros []; constructor. Qed.

(** What find_match_server() and markMatchexServer() rely on: no operation on
    the numerics of servers puts a server at or behind [lastNNServer]. (For
    SetYXXCapacity(), which does not move [lastNNServer], the numeric must have been
    set before, as ircd.c does.) *)
Theorem server_table_ok st :
  table_ok st ->
  (forall protocol reg server y st', SetServerYXX st protocol reg server y = Ok st' -> table_ok st') /\
  (forall c numeric st', 0 <= numeric -> SetYXXServerName st c numeric = Ok st' -> table_ok st') /\
  (forall server st', ClearServerYXX st server = Ok st' -> table_ok st') /\
  (forall c capacity y index st', get_yxx st c = Ok y -> base64toint y = Ok index -> index < lastNNServer st ->
     SetYXXCapacity st c capacity = Ok (Some st') -> table_ok st').
Proof.
  intros Ht. split_and!.
  - intros protocol reg server y st' H. unfold SetServerYXX in H. inv_bind H. destruct a1 as [sy s].
    inv_bind H. injection H as <-. apply table_set_serv. eapply table_bump; [done|by eapply base64toint_nonneg|done].
  - intros c numeric st' H0 H. unfold SetYXXServerName in H. inv_bind H. injection H as <-.
    apply (table_bump (set_yxx c a0 st) numeric c a1); [by destruct Ht; constructor|done..].
  - intros server st' H. unfold ClearServerYXX in H. inv_bind H.
    destruct (decide (a1 = Some server)); inv_bind H; injection H as <-; [|done].
    destruct (table_insert st _ _ a2 (lastNNServer st) Ht Ha2) as (?&?&?); [by destruct Ht; lia|by left|]. by constructor.
  - intros c capacity y index st' Hy Hi Hlt H. unfold SetYXXCapacity in H. inv_bind H.
    destruct (decide _); [done|]. inv_bind H. injection H as <-. assert (a2 = index) as -> by congruence.
    apply base64toint_nonneg in Hi.
    destruct (table_insert st _ _ a4 (lastNNServer st) Ht Ha4) as (?&?&?); [by destruct Ht; lia|right; lia|]. by constructor.
Qed.

(** Witness of [server_table_ok]. *)
Lemma server_table_ok_witness :
  table_ok sample_state /\
  (forall protocol reg server y st', SetServerYXX sample_state protocol reg server y = Ok st' -> table_ok st') /\
  (forall c numeric st', 0 <= numeric -> SetYXXServerName sample_state c numeric = Ok st' -> table_ok st') /\
  (forall server st', ClearServerYXX sample_state server = Ok st' -> table_ok st') /\
  (forall c capacity y index st', get_yxx sample_state c = Ok y -> base64toint y = Ok index ->
     index < lastNNServer sample_state -> SetYXXCapacity sample_state c capacity = Ok (Some st') -> table_ok st').
Proof.
  assert (table_ok sample_state) as H.
  { constructor; [vm_compute; reflexivity|vm_compute; split; discriminate|]. intros [|[|i]] c Hi; [done|done|].
    exfalso. assert (replicate 4094 (@None nat) !! i = Some (Some c)) as Hr by exact Hi.
    by apply lookup_replicate in Hr as [? _]. }
  split; [exact H|]. apply (server_table_ok sample_state H).
Defined.

(** * The searches *)

Definition names_ok (st : state) (names : gmap nat (ascii * list ascii)) : Prop :=
  forall i c, server_list st !! i = Some (Some c) ->
    exists x name rest, names !! c = Some (x, zbuf name rest) /\ is_cstr name.

(** The servers whose names are strings of the mask *)
Definition name_of (names : gmap nat (ascii * list ascii)) (c : nat) : cstring := c_text (default (NUL, []) (names !! c)).2.
Definition selected (names : gmap nat (ascii * list ascii)) (ts : list token) (c : nat) : Prop :=
  glob toLower ts (name_of names c).

Lemma name_of_zbuf names c x name rest : names !! c = Some (x, zbuf name rest) -> is_cstr name -> name_of names c = name.
Proof. intros Hn Hc. unfold name_of. rewrite Hn. cbn. unfold zbuf. by rewrite c_text_app. Qed.

Lemma find_server_loop n i (servers : list (option nat)) names mask :
  is_cstr mask ->
  (forall j c, servers !! j = Some (Some c) -> exists x name rest, names !! c = Some (x, zbuf name rest) /\ is_cstr name) ->
  (i + n <= length servers)%nat ->
  exists o, find_loop n i servers names mask = Ok o /\
    match o with
    | Some c => exists j, (i <= j < i + n)%nat /\ servers !! j = Some (Some c) /\ selected names (tokens mask) c /\
        forall k d, (i <= k < j)%nat -> servers !! k = Some (Some d) -> ~ selected names (tokens mask) d
    | None => forall k d, (i <= k < i + n)%nat -> servers !! k = Some (Some d) -> ~ selected names (tokens mask) d
    end.
Proof.
  intros Hm Hn. revert i. induction n as [|n IH]; intros i Hi; [exists None; split; [done|lia]|].
  cbn [find_loop]. destruct (rd_lt servers i) as (a&->&Ha); [lia|]. cbn [mbind result_bind].
  destruct (IH (S i)) as (o&Ho&Hspec); [lia|].
  destruct a as [c|].
  2: { exists o. split; [done|]. destruct o as [c|].
    - destruct Hspec as (j&Hj&Hjc&Hsel&Hfirst). exists j. split_and!; [lia|lia|done|done|]. intros k d Hk Hkd.
      destruct (decide (k = i)) as [->|]; [congruence|]. apply (Hfirst k); [lia|done].
    - intros k d Hk Hkd. destruct (decide (k = i)) as [->|]; [congruence|]. apply (Hspec k); [lia|done]. }
  destruct (Hn i c Ha) as (x&name&rest&Hc&Hcs). rewrite Hc. cbn [of_option mbind result_bind].
  destruct (match_gen_spec toLower toLower_eq_NUL rest mask name Hm Hcs) as (r&Hr&Hg).
  unfold match_ at 1. rewrite Hr. cbn [mbind result_bind].
  assert (Hsel : r = 0 <-> selected names (tokens mask) c).
  { unfold selected. by rewrite (name_of_zbuf _ _ _ _ _ Hc Hcs). }
  destruct (decide (r = 0)) as [E|E].
  { exists (Some c). split; [done|]. exists i. split_and!; [lia|lia|done|by apply Hsel|lia]. }
  exists o. split; [done|]. destruct o as [d|].
  - destruct Hspec as (j&Hj&Hjc&Hs&Hfirst). exists j. split_and!; [lia|lia|done|done|]. intros k e Hk Hke.
    destruct (decide (k = i)) as [->|]; [replace e with c by congruence; by rewrite <- Hsel|]. apply (Hfirst k); [lia|done].
  - intros k e Hk Hke. destruct (decide (k = i)) as [->|]; [replace e with c by congruence; by rewrite <- Hsel|].
    apply (Hspec k); [lia|done].
Qed.

(** find_match_server() finds the server with the least numeric whose name the
    mask stands for, and none only if the mask is empty or no server of the whole
    table has such a name. *)
Theorem find_match_server_correct st names mask rest :
  table_ok st -> names_ok st names -> is_cstr mask ->
  exists o buf, find_match_server st names (Some (mask ++ NUL :: rest)) = Ok (o, Some buf) /\
    match o with
    | Some c => mask <> [] /\ exists j, server_list st !! j = Some (Some c) /\ selected names (tokens mask) c /\
        forall k d, (k < j)%nat -> server_list st !! k = Some (Some d) -> ~ selected names (tokens mask) d
    | None => mask = [] \/ forall k d, server_list st !! k = Some (Some d) -> ~ selected names (tokens mask) d
    end.
Proof.
  intros [Hlen Hlast Hb] Hn Hm. unfold find_match_server.
  destruct mask as [|ch mask].
  { exists None, (NUL :: rest). cbn. split; [done|by left]. }
  set (m := ch :: mask) in *. change (deref (m ++ NUL :: rest)) with (Ok ch). cbn [mbind result_bind].
  rewrite decide_False by (by apply is_cstr_cons in Hm as []).
  destruct (collapse_spec m rest Hm) as [junk ->]. cbn [mbind result_bind of_option].
  pose proof (collapse_go_cstr false m Hm) as Hcs. rewrite c_text_app by done.
  destruct (find_server_loop (Z.to_nat (lastNNServer st)) 0 (server_list st) names (collapse_go false m) Hcs Hn)
    as (o&->&Ho); [lia|]. cbn [mbind result_bind].
  assert (Hsel : forall c, selected names (tokens (collapse_go false m)) c <-> selected names (tokens m) c).
  { intros c. apply collapse_go_glob. }
  eexists o, _. split; [done|]. destruct o as [c|].
  - destruct Ho as (j&Hj&Hjc&Hs&Hfirst). split; [done|]. exists j. split_and!; [done|by apply Hsel|].
    intros k d Hk Hkd. rewrite <- Hsel. apply (Hfirst k); [lia|done].
  - right. intros k d Hkd. rewrite <- Hsel. apply (Ho k); [|done]. apply Hb in Hkd. lia.
Qed.

(** Witness of [find_match_server_correct]. *)
Definition sample_names : gmap nat (ascii * list ascii) := {[0%nat := (NUL, zbuf (str "irc.hispano.org") [])]}.

Lemma sample_table_ok : table_ok sample_state /\ names_ok sample_state sample_names.
Proof.
  assert (forall i c, server_list sample_state !! i = Some (Some c) -> i = 1%nat /\ c = 0%nat) as Hl.
  { intros [|[|i]] c Hi; [done|by injection Hi as <-|]. exfalso.
    assert (replicate 4094 (@None nat) !! i = Some (Some c)) as Hr by exact Hi. by apply lookup_replicate in Hr as [? _]. }
  split.
  - constructor; [vm_compute; reflexivity|vm_compute; split; discriminate|]. by intros i c [-> ->]%Hl.
  - intros i c [-> ->]%Hl. exists NUL, (str "irc.hispano.org"), []. split; [done|].
    apply (bool_decide_unpack _). vm_compute. exact I.
Qed.

Lemma find_match_server_correct_witness :
  exists o buf, find_match_server sample_state sample_names (Some (str "IRC.**" ++ NUL :: [])) = Ok (o, Some buf) /\
    match o with
    | Some c => str "IRC.**" <> [] /\ exists j, server_list sample_state !! j = Some (Some c) /\
        selected sample_names (tokens (str "IRC.**")) c /\
        forall k d, (k < j)%nat -> server_list sample_state !! k = Some (Some d) ->
          ~ selected sample_names (tokens (str "IRC.**")) d
    | None => str "IRC.**" = [] \/ forall k d, server_list sample_state !! k = Some (Some d) ->
        ~ selected sample_names (tokens (str "IRC.**")) d
    end.
Proof.
  apply (find_match_server_correct sample_state sample_names (str "IRC.**") []).
  - apply sample_table_ok.
  - apply sample_table_ok.
  - apply (bool_decide_unpack _). vm_compute. exact I.
Defined.

(** The flags of a client after the loop has visited the servers [l] *)
Definition marked_flag names ts (l : list nat) (c : nat) (f : Z) : Z :=
  if decide (c ∈ l) then
    if decide (selected names ts c) then Z.lor f FLAGS_MAP else Z.land f (Z.lnot FLAGS_MAP)
  else f.

Lemma marked_flag_cons names ts l a c f :
  marked_flag names ts (a :: l) c f =
  marked_flag names ts l c (if decide (c = a) then
    if decide (selected names ts c) then Z.lor f FLAGS_MAP else Z.land f (Z.lnot FLAGS_MAP) else f).
Proof.
  unfold marked_flag. destruct (decide (c = a)) as [->|Hn].
  - rewrite (decide_True (P := a ∈ a :: l)) by left. destruct (decide (a ∈ l)); [|done].
    destruct (decide (selected names ts a)); [by rewrite <- Z.lor_assoc, Z.lor_diag|by rewrite <- Z.land_assoc, Z.land_diag].
  - destruct (decide (c ∈ l)), (decide (c ∈ a :: l)) as [H|H]; try done.
    + by destruct H; right.
    + by apply elem_of_cons in H as [?|?].
Qed.

Section mark.
Context (names : gmap nat (ascii * list ascii)) (ts : list token) (cmask : cstring) (minlen : Z).
(** The compiled mask decides [ts]. *)
Context (Hexec : forall x s, is_cstr s ->
  exists r, matchexec (x :: s ++ [NUL]) cmask minlen = Ok r /\ (r = 0 <-> glob toLower ts s)).

Lemma mark_loop_spec n i (servers : list (option nat)) cnt flags :
  (forall j c, servers !! j = Some (Some c) ->
     (exists x name rest, names !! c = Some (x, zbuf name rest) /\ is_cstr name) /\ is_Some (flags !! c)) ->
  (i + n <= length servers)%nat ->
  let l := omap id (take n (drop i servers)) in
  exists flags', mark_loop n i servers names cmask minlen cnt flags =
      Ok (cnt + Z.of_nat (length (filter (selected names ts) l)), flags') /\
    forall c, flags' !! c = marked_flag names ts l c <$> flags !! c.
Proof.
  revert i cnt flags. induction n as [|n IH]; intros i cnt flags Hs Hi.
  { exists flags. rewrite take_0. cbn. rewrite Z.add_0_r. split; [done|]. intros c. by destruct (flags !! c). }
  cbn [mark_loop]. destruct (rd_lt servers i) as (a&->&Ha); [lia|]. cbn [mbind result_bind].
  rewrite (drop_S _ _ _ Ha). cbn [take omap list_omap id]. destruct a as [c|]; [|apply IH; [done|lia]].
  destruct (Hs i c Ha) as [(x&name&rest&Hc&Hcs) [f Hf]]. rewrite Hc, Hf. cbn [of_option mbind result_bind id].
  unfold zbuf at 1. rewrite c_text_app by done. destruct (Hexec x name Hcs) as (r&->&Hr). cbn [mbind result_bind].
  assert (Hsel : r = 0 <-> selected names ts c) by (unfold selected; by rewrite (name_of_zbuf _ _ _ _ _ Hc Hcs)).
  set (f' := if decide (selected names ts c) then Z.lor f FLAGS_MAP else Z.land f (Z.lnot FLAGS_MAP)).
  destruct (IH (S i) (if decide (selected names ts c) then cnt + 1 else cnt) (<[c := f']> flags)) as (flags'&Hm&Hfl); [|lia|].
  { intros j d Hj. destruct (Hs j d Hj) as [Hn Hd]. split; [done|]. destruct (decide (c = d)) as [->|];
      [rewrite lookup_insert_eq; eauto|by rewrite lookup_insert_ne]. }
  exists flags'. split.
  - rewrite filter_cons. subst f'. destruct (decide (selected names ts c)) as [Hy|Hn].
    + rewrite decide_False by (by intros []; apply Hsel). rewrite Hm. do 2 f_equal. simpl. lia.
    + rewrite decide_True by (by intros ?%Hsel). done.
  - intros d. rewrite Hfl. destruct (decide (c = d)) as [<-|Hd].
    + rewrite lookup_insert_eq, Hf. cbn. by rewrite marked_flag_cons, decide_True.
    + rewrite lookup_insert_ne by done. destruct (flags !! d); cbn; [|done]. by rewrite marked_flag_cons, decide_False.
Qed.
End mark.

(** markMatchexServer(), given a mask that matchcomp() has compiled, terminates,
    returns the number of servers of the whole table whose names the mask stands
    for, and sets FLAGS_MAP of exactly those, clears it for the other servers, and
    touches no other client and no other flag. *)
Theorem markMatchexServer_correct st names flags mask :
  table_ok st -> names_ok st names -> is_cstr mask ->
  (forall i c, server_list st !! i = Some (Some c) -> is_Some (flags !! c)) ->
  exists cmask minlen charset flags', matchcomp (Some mask) = Ok (cmask, minlen, charset) /\
    let l := omap id (server_list st) in
    markMatchexServer st names flags cmask minlen =
      Ok (Z.of_nat (length (filter (selected names (tokens mask)) l)), flags') /\
    forall c, flags' !! c = marked_flag names (tokens mask) l c <$> flags !! c.
Proof.
  intros [Hlen Hlast Hb] Hn Hm Hf. destruct (matchexec_spec mask Hm) as (cmask&minlen&charset&Hc&_&Hexec).
  destruct (mark_loop_spec names (tokens mask) cmask minlen Hexec (Z.to_nat (lastNNServer st)) 0 (server_list st) 0 flags)
    as (flags'&Hmark&Hfl); [intros j c Hj; split; [by eapply Hn|by eapply Hf]|lia|].
  exists cmask, minlen, charset, flags'. split; [done|]. rewrite drop_0 in *.
  assert (omap id (take (Z.to_nat (lastNNServer st)) (server_list st)) = omap id (server_list st)) as E.
  { rewrite <- (take_drop (Z.to_nat (lastNNServer st)) (server_list st)) at 2. rewrite omap_app.
    assert (omap id (drop (Z.to_nat (lastNNServer st)) (server_list st)) = []) as ->; [|by rewrite app_nil_r].
    apply elem_of_nil_inv. intros c ([d|]&Hd&[= ->])%list_elem_of_omap.
    apply list_elem_of_lookup in Hd as [k Hk]. rewrite lookup_drop in Hk. apply Hb in Hk. lia. }
  rewrite E in *. done.
Qed.

(** Witness of [markMatchexServer_correct]. *)
Lemma markMatchexServer_correct_witness :
  exists cmask minlen charset flags', matchcomp (Some (str "*.Hispano.*")) = Ok (cmask, minlen, charset) /\
    let l := omap id (server_list sample_state) in
    markMatchexServer sample_state sample_names {[0%nat := 5; 7%nat := 0x00800001]} cmask minlen =
      Ok (Z.of_nat (length (filter (selected sample_names (tokens (str "*.Hispano.*"))) l)), flags') /\
    forall c, flags' !! c = marked_flag sample_names (tokens (str "*.Hispano.*")) l c <$>
      ({[0%nat := 5; 7%nat := 0x00800001]} : gmap nat Z) !! c.
Proof.
  apply (markMatchexServer_correct sample_state sample_names {[0%nat := 5; 7%nat := 0x00800001]} (str "*.Hispano.*")).
  - apply sample_table_ok.
  - apply sample_table_ok.
  - apply (bool_decide_unpack _). vm_compute. exact I.
  - intros i c Hc. destruct (proj2 sample_table_ok i c Hc) as (x&nm&rest&Hn&_). unfold sample_names in Hn.
    apply lookup_singleton_Some in Hn as [<- _]. by eexists.
Defined.
