(* ===== verification/Crule.v ===== *)
(** Connection rules: ircd/crule.c.

    A rule is a C string; the parser walks it with a pointer, which is the rest
    of the string here.  The expression tree is the inductive type [ctree]: its
    pointers own what they point to, so a tree is a value; the null pointer and
    the uninitialised pointer of a fresh node are leaves of their own.  The
    client list and the table of local clients that the rule functions look at
    are the fields of [env]. *)

From S2P Require Import Prelude Common Match.

(** * Data *)

Definition CR_MAXARGLEN : nat := 80.
Definition CR_MAXARGS : nat := 3.

(** enum crule_token *)
Inductive crule_token :=
  | CR_UNKNOWN | CR_END | CR_AND | CR_OR | CR_NOT | CR_OPENPAREN | CR_CLOSEPAREN
  | CR_COMMA | CR_WORD.
#[export] Instance crule_token_eq_dec : EqDecision crule_token.
Proof. solve_decision. Defined.

(** enum crule_errcode *)
Inductive crule_errcode :=
  | CR_NOERR | CR_UNEXPCTTOK | CR_UNKNWTOK | CR_EXPCTAND | CR_EXPCTOR
  | CR_EXPCTPRIM | CR_EXPCTOPEN | CR_EXPCTCLOSE | CR_UNKNWFUNC | CR_ARGMISMAT.
#[export] Instance crule_errcode_eq_dec : EqDecision crule_errcode.
Proof. solve_decision. Defined.

(** The functions of the rule language: crule_funcptr. *)
Inductive crule_funcptr := crule_connected | crule_directcon | crule_via | crule_directop.
#[export] Instance crule_funcptr_eq_dec : EqDecision crule_funcptr.
Proof. solve_decision. Defined.

(** struct crule_treestruct, by the function it holds.  [TFunc None] is a node
    whose [funcptr] is still null. *)
Inductive ctree :=
  | TNull
  | TUninit
  | TFunc (f : option crule_funcptr) (args : list cstring)
  | TAndor (a b : ctree) (is_or : bool)
  | TNot (a : ctree).
#[export] Instance ctree_eq_dec : EqDecision ctree.
Proof. solve_decision. Defined.

(** The function table, with the entry that ends it. *)
Definition crule_funclist : list (cstring * nat * option crule_funcptr) :=
  [ (str "connected", 1%nat, Some crule_connected);
    (str "directcon", 1%nat, Some crule_directcon);
    (str "via", 2%nat, Some crule_via);
    (str "directop", 0%nat, Some crule_directop);
    ([], 0%nat, None) ].

(** * Evaluation *)

(** What the rule functions read of a client. *)
Record aClient := mkClient {
  name : list ascii;           (* the memory at acptr->name *)
  IsServer : bool;
  IsMe : bool;
  IsAnOper : bool;
  from_fd : nat }.             (* acptr->from->fd *)

(** [client] is the global list, [loc_clients] the table of local clients, one
    entry per descriptor up to [highest_fd]. *)
Record env := mkEnv { client : list aClient; loc_clients : list (option aClient) }.

Definition arg (args : list cstring) (i : nat) : result cstring := rd args i.

Section eval.

Variable e : env.

Fixpoint connected_loop (mask : result cstring) (l : list aClient) : result Z :=
  match l with
  | [] => Ok 0
  | acptr :: l =>
      if negb (IsServer acptr) && negb (IsMe acptr) then connected_loop mask l
      else
        m ← mask; r ← match_ m (name acptr);
        if decide (r <> 0) then connected_loop mask l else Ok 1
  end.

Fixpoint directcon_loop (mask : result cstring) (l : list (option aClient)) : result Z :=
  match l with
  | [] => Ok 0
  | None :: l => directcon_loop mask l
  | Some acptr :: l =>
      if negb (IsServer acptr) then directcon_loop mask l
      else
        m ← mask; r ← match_ m (name acptr);
        if decide (r <> 0) then directcon_loop mask l else Ok 1
  end.

Fixpoint via_loop (mask0 mask1 : result cstring) (l : list aClient) : result Z :=
  match l with
  | [] => Ok 0
  | acptr :: l =>
      if negb (IsServer acptr) && negb (IsMe acptr) then via_loop mask0 mask1 l
      else
        m1 ← mask1; r ← match_ m1 (name acptr);
        if decide (r <> 0) then via_loop mask0 mask1 l
        else
          m0 ← mask0;
          o ← rd (loc_clients e) (from_fd acptr);
          via ← of_option o;
          r ← match_ m0 (name via);
          if decide (r <> 0) then via_loop mask0 mask1 l else Ok 1
  end.

Fixpoint directop_loop (l : list (option aClient)) : result Z :=
  match l with
  | [] => Ok 0
  | None :: l => directop_loop l
  | Some acptr :: l => if IsAnOper acptr then Ok 1 else directop_loop l
  end.

Definition call_func (f : crule_funcptr) (args : list cstring) : result Z :=
  match f with
  | crule_connected => connected_loop (arg args 0) (client e)
  | crule_directcon => directcon_loop (arg args 0) (loc_clients e)
  | crule_via => via_loop (arg args 0) (arg args 1) (client e)
  | crule_directop => directop_loop (loc_clients e)
  end.

(** crule_eval(), crule__andor() and crule__not(): calling a null or
    uninitialised pointer is [Ub]. *)
Fixpoint crule_eval (t : ctree) : result Z :=
  match t with
  | TNull | TUninit | TFunc None _ => Ub
  | TFunc (Some f) args => call_func f args
  | TAndor a b is_or =>
      r1 ← crule_eval a;
      if is_or : bool then
        if decide (r1 <> 0) then Ok 1
        else r2 ← crule_eval b; Ok (if decide (r2 <> 0) then 1 else 0)
      else
        if decide (r1 <> 0) then r2 ← crule_eval b; Ok (if decide (r2 <> 0) then 1 else 0)
        else Ok 0
  | TNot a => r ← crule_eval a; Ok (if decide (r <> 0) then 0 else 1)
  end.

End eval.

(** crule_free(): reading through a null or uninitialised pointer is [Ub]. *)
Fixpoint crule_free (t : ctree) : result unit :=
  match t with
  | TNull | TUninit => Ub
  | TNot a => if decide (a = TNull) then Ok tt else crule_free a
  | TAndor a b _ =>
      _ ← crule_free a;
      if decide (b = TNull) then Ok tt else crule_free b
  | TFunc _ args => Ok tt
  end.

(** * The tokenizer *)

Definition start_char (c : ascii) : bool :=
  isAlpha c || bool_decide (c = "*"%char) || bool_decide (c = "?"%char)
  || bool_decide (c = "."%char) || bool_decide (c = "-"%char).
Definition word_char (c : ascii) : bool :=
  isAlnum c || bool_decide (c = "*"%char) || bool_decide (c = "?"%char)
  || bool_decide (c = "."%char) || bool_decide (c = "-"%char).

(** The result is the error code, the token and the pointer. *)
Fixpoint gettoken_loop (pending : ascii) (rule : cstring)
    : crule_errcode * crule_token * cstring :=
  match rule with
  | [] => (CR_NOERR, CR_END, [])
  | c :: r =>
      if decide (c = " "%char \/ c = "009"%char) then gettoken_loop pending r
      else if decide (c = "&"%char) then
        if decide (pending = NUL) then gettoken_loop "&"%char r
        else if decide (pending = "&"%char) then (CR_NOERR, CR_AND, r)
        else (CR_UNKNWTOK, CR_UNKNOWN, r)
      else if decide (c = "|"%char) then
        if decide (pending = NUL) then gettoken_loop "|"%char r
        else if decide (pending = "|"%char) then (CR_NOERR, CR_OR, r)
        else (CR_UNKNWTOK, CR_UNKNOWN, r)
      else if decide (c = "!"%char) then (CR_NOERR, CR_NOT, r)
      else if decide (c = "("%char) then (CR_NOERR, CR_OPENPAREN, r)
      else if decide (c = ")"%char) then (CR_NOERR, CR_CLOSEPAREN, r)
      else if decide (c = ","%char) then (CR_NOERR, CR_COMMA, r)
      else if decide (c = ":"%char) then (CR_NOERR, CR_END, r)
      else if start_char c then (CR_NOERR, CR_WORD, c :: r)
      else (CR_UNKNWTOK, CR_UNKNOWN, c :: r)
  end.

Definition crule_gettoken (rule : cstring) : crule_errcode * crule_token * cstring :=
  gettoken_loop NUL rule.

Fixpoint crule_getword (maxlen : nat) (rule : cstring) : cstring * cstring :=
  match maxlen, rule with
  | S maxlen, c :: r =>
      if word_char c then let '(w, r) := crule_getword maxlen r in (c :: w, r) else ([], rule)
  | _, _ => ([], rule)
  end.

(** * The parser

    Every parsing function returns the error code, the tree it leaves in the
    root it was given, the token and the pointer. *)
Record parsed := mkParsed {
  errcode : crule_errcode; root : ctree; next_tok : crule_token; ruleptr : cstring }.

(** [collapse] of the local buffer, as text. *)
Definition collapse_text (s : cstring) : result cstring :=
  o ← collapse (Some (s ++ [NUL]));
  match o with Some mem => Ok (c_text mem) | None => Ub end.

(** [strcat]/[strcpy] into [currarg]: the text must fit with its terminator. *)
Definition put_arg (s : cstring) : result cstring :=
  if decide (length s < CR_MAXARGLEN)%nat then Ok s else Ub.

Definition add_word (currarg : cstring) (arglen : nat) (word : cstring) : result (cstring * nat) :=
  if decide (currarg <> []) then
    if decide (arglen + length word < CR_MAXARGLEN - 1)%nat then
      s ← put_arg (currarg ++ " "%char :: word);
      Ok (s, arglen + (length word + 1))%nat
    else Ok (currarg, arglen)
  else s ← put_arg word; Ok (s, length word).

(** [argrootp->arg[argrootp->numargs++] = argelemp] *)
Definition push_arg (args : list cstring) (a : cstring) : result (list cstring) :=
  if decide (length args < CR_MAXARGS)%nat then Ok (args ++ [a]) else Ub.

Fixpoint parsearglist_loop (fuel : nat) (args : list cstring) (currarg : cstring) (arglen : nat)
    (tok : crule_token) (rule : cstring)
    : result (crule_errcode * list cstring * crule_token * cstring) :=
  match fuel with
  | O => Fuel
  | S fuel =>
      if decide (tok = CR_WORD) then
        let '(word, rule) := crule_getword (CR_MAXARGLEN - 1) rule in
        '(currarg, arglen) ← add_word currarg arglen word;
        let '(err, tok, rule) := crule_gettoken rule in
        if decide (err = CR_NOERR) then parsearglist_loop fuel args currarg arglen tok rule
        else Ok (err, args, tok, rule)
      else
        currarg ← collapse_text currarg;
        args ← (if decide (currarg <> []) then push_arg args currarg else Ok args);
        if decide (tok <> CR_COMMA) then Ok (CR_NOERR, args, tok, rule)
        else
          let '(err, tok, rule) := crule_gettoken rule in
          if decide (err = CR_NOERR) then parsearglist_loop fuel args [] arglen tok rule
          else Ok (err, args, tok, rule)
  end.

Definition crule_parsearglist (tok : crule_token) (rule : cstring) :=
  parsearglist_loop (S (S (2 * length rule))) [] [] 0 tok rule.

(** The search through the table; [None] is the return at its end. *)
Definition find_func (funcname : cstring) : option (cstring * nat * option crule_funcptr) :=
  find (fun '(n, _, _) => bool_decide (strCasediff n funcname = 0)) crule_funclist.

Definition crule_parsefunction (tok : crule_token) (rule : cstring) : result parsed :=
  let '(funcname, rule) := crule_getword (CR_MAXARGLEN - 1) rule in
  let '(err, tok, rule) := crule_gettoken rule in
  if decide (err <> CR_NOERR) then Ok (mkParsed err TNull tok rule)
  else if decide (tok = CR_OPENPAREN) then
    match find_func funcname with
    | None => Ok (mkParsed CR_UNKNWFUNC TNull tok rule)
    | Some (_, reqnumargs, funcptr) =>
        let '(err, tok, rule) := crule_gettoken rule in
        if decide (err <> CR_NOERR) then Ok (mkParsed err TNull tok rule)
        else
          '(err, args, tok, rule) ← crule_parsearglist tok rule;
          let fail e := Ok (mkParsed e (TFunc None args) tok rule) in
          if decide (err <> CR_NOERR) then fail err
          else if decide (tok <> CR_CLOSEPAREN) then fail CR_EXPCTCLOSE
          else if decide (reqnumargs <> length args) then fail CR_ARGMISMAT
          else
            let '(err, tok, rule) := crule_gettoken rule in
            if decide (err <> CR_NOERR) then Ok (mkParsed err (TFunc None args) tok rule)
            else Ok (mkParsed CR_NOERR (TFunc funcptr args) tok rule)
    end
  else Ok (mkParsed CR_EXPCTOPEN TNull tok rule).

(** [( *rootp)->arg[1] = t] *)
Definition set_arg1 (root t : ctree) : ctree :=
  match root with TAndor a _ o => TAndor a t o | _ => root end.

(** A fresh operator node: [arg[1]] is not initialised. *)
Definition new_node (root operand : ctree) (is_or : bool) : ctree :=
  if decide (root <> TNull) then TAndor (set_arg1 root operand) TUninit is_or
  else TAndor operand TUninit is_or.

(** The turn of the loops of parseorexpr and parseandexpr that ends them. *)
Definition finish (root operand : ctree) (err missing : crule_errcode) (tok : crule_token)
    (rule : cstring) : parsed :=
  if decide (root <> TNull) then
    if decide (operand <> TNull) then mkParsed err (set_arg1 root operand) tok rule
    else mkParsed missing (set_arg1 root TNull) tok rule
  else mkParsed err operand tok rule.

(** [n] nodes of crule__not above a tree. *)
Fixpoint nots (n : nat) (t : ctree) : ctree :=
  match n with O => t | S n => TNot (nots n t) end.

(** The loops of parseorexpr ([or_loop]), parseandexpr ([and_loop]) and
    parseprimary ([primary_loop], [n] nots already read). *)
Fixpoint or_loop (fuel : nat) (orroot : ctree) (tok : crule_token) (rule : cstring)
    : result parsed :=
  match fuel with
  | O => Fuel
  | S fuel =>
      p ← and_loop fuel TNull tok rule;
      if decide (errcode p = CR_NOERR /\ next_tok p = CR_OR) then
        let orroot := new_node orroot (root p) true in
        let '(err, tok, rule) := crule_gettoken (ruleptr p) in
        if decide (err <> CR_NOERR) then Ok (mkParsed err orroot tok rule)
        else or_loop fuel orroot tok rule
      else Ok (finish orroot (root p) (errcode p) CR_EXPCTAND (next_tok p) (ruleptr p))
  end
with and_loop (fuel : nat) (androot : ctree) (tok : crule_token) (rule : cstring)
    : result parsed :=
  match fuel with
  | O => Fuel
  | S fuel =>
      p ← primary_loop fuel 0 tok rule;
      if decide (errcode p = CR_NOERR /\ next_tok p = CR_AND) then
        let androot := new_node androot (root p) false in
        let '(err, tok, rule) := crule_gettoken (ruleptr p) in
        if decide (err <> CR_NOERR) then Ok (mkParsed err androot tok rule)
        else and_loop fuel androot tok rule
      else Ok (finish androot (root p) (errcode p) CR_EXPCTPRIM (next_tok p) (ruleptr p))
  end
with primary_loop (fuel : nat) (n : nat) (tok : crule_token) (rule : cstring)
    : result parsed :=
  match fuel with
  | O => Fuel
  | S fuel =>
      match tok with
      | CR_OPENPAREN =>
          let '(err, tok, rule) := crule_gettoken rule in
          if decide (err <> CR_NOERR) then Ok (mkParsed err (nots n TNull) tok rule)
          else
            p ← or_loop fuel TNull tok rule;
            let fail e := Ok (mkParsed e (nots n (root p)) (next_tok p) (ruleptr p)) in
            if decide (errcode p <> CR_NOERR) then fail (errcode p)
            else if decide (root p = TNull) then fail CR_EXPCTAND
            else if decide (next_tok p <> CR_CLOSEPAREN) then fail CR_EXPCTCLOSE
            else
              let '(err, tok, rule) := crule_gettoken (ruleptr p) in
              Ok (mkParsed err (nots n (root p)) tok rule)
      | CR_NOT =>
          let '(err, tok, rule) := crule_gettoken rule in
          if decide (err <> CR_NOERR) then Ok (mkParsed err (nots (S n) TNull) tok rule)
          else primary_loop fuel (S n) tok rule
      | CR_WORD =>
          p ← crule_parsefunction tok rule;
          Ok (mkParsed (errcode p) (nots n (root p)) (next_tok p) (ruleptr p))
      | _ =>
          Ok (mkParsed (if decide (n = 0%nat) then CR_NOERR else CR_EXPCTPRIM)
                (nots n TNull) tok rule)
      end
  end.

Definition crule_parseorexpr (fuel : nat) := or_loop fuel TNull.

(** [None] is the null pointer, after the error has been reported and the tree
    freed. *)
Definition crule_parse_fuel (fuel : nat) (rule : cstring) : result (option ctree) :=
  let '(err, tok, r) := crule_gettoken rule in
  if decide (err <> CR_NOERR) then Ok None
  else
    p ← crule_parseorexpr fuel tok r;
    if decide (errcode p = CR_NOERR /\ root p <> TNull /\ next_tok p = CR_END)
    then Ok (Some (root p))
    else if decide (root p <> TNull) then _ ← crule_free (root p); Ok None
    else Ok None.

Definition crule_parse (rule : cstring) : result (option ctree) :=
  crule_parse_fuel (4 * S (length rule)) rule.

(** * Termination and shape of the trees *)

Section parser.

Implicit Types (rule r : cstring) (tok : crule_token).

(** Tokens that have been consumed from the rule: reading one makes progress. *)
Definition is_op (tok : crule_token) : bool :=
  match tok with CR_WORD | CR_END | CR_UNKNOWN => false | _ => true end.
Definition measure tok rule : nat := length rule + if is_op tok then 1 else 0.

(** A word token leaves the pointer at its first character. *)
Definition word_tok tok rule : Prop := tok = CR_WORD -> start_char (chr rule) = true.

Lemma start_char_word c : start_char c = true -> word_char c = true.
Proof.
  revert c. apply (forall_ascii_dec (fun c => start_char c = true -> word_char c = true)).
  by vm_compute.
Qed.

Lemma word_char_not_NUL c : word_char c = true -> c <> NUL.
Proof. by intros H ->. Qed.

Lemma gettoken_loop_spec pending r :
  let '(err, tok, r') := gettoken_loop pending r in
  (measure tok r' <= length r)%nat /\ word_tok tok r'.
Proof.
  revert pending. induction r as [|c r IH]; intros pending; [done|].
  cbn [gettoken_loop].
  assert (Hskip : forall p, let '(err, tok, r') := gettoken_loop p r in
    (measure tok r' <= length (c :: r))%nat /\ word_tok tok r').
  { intros p. specialize (IH p). destruct (gettoken_loop p r) as [[err tok] r'].
    simpl. destruct IH. split; [lia|done]. }
  repeat case_decide; try apply Hskip; try (split; [unfold measure; simpl; lia|done]).
  destruct (start_char c) eqn:E; (split; [unfold measure; simpl; lia|]); by intros ?.
Qed.

Lemma gettoken_spec r err tok r' :
  crule_gettoken r = (err, tok, r') -> (measure tok r' <= length r)%nat /\ word_tok tok r'.
Proof.
  intros E. pose proof (gettoken_loop_spec NUL r) as H. unfold crule_gettoken in E.
  by rewrite E in H.
Qed.

Lemma getword_spec maxlen r w r' :
  crule_getword maxlen r = (w, r') ->
  r = w ++ r' /\ (length w <= maxlen)%nat /\ Forall (fun c => word_char c = true) w.
Proof.
  revert maxlen w r'. induction r as [|c r IH]; intros [|maxlen] w r' E; simplify_eq/=; try (split_and!; [done|simpl; lia|constructor]).
  destruct (word_char c) eqn:Hc; simplify_eq/=; [|split_and!; [done|simpl; lia|done]].
  destruct (crule_getword maxlen r) as [w1 r1] eqn:E1. simplify_eq/=.
  destruct (IH _ _ _ E1) as (->&?&?). split_and!; [done|simpl; lia|by constructor].
Qed.

Lemma getword_progress maxlen r w r' :
  crule_getword (S maxlen) r = (w, r') -> start_char (chr r) = true -> (length r' < length r)%nat.
Proof.
  destruct r as [|c r]; [by intros _ H|]. cbn [chr hd crule_getword]. intros E H%start_char_word.
  rewrite H in E. destruct (crule_getword maxlen r) as [w1 r1] eqn:E1. simplify_eq/=.
  apply getword_spec in E1 as (->&_). rewrite length_app. simpl. lia.
Qed.

(** The arguments of a function node *)
Definition arg_ok (a : cstring) : Prop :=
  a <> [] /\ is_cstr a /\ (length a < CR_MAXARGLEN)%nat /\ collapse_go false a = a.

Definition currarg_ok (currarg : cstring) (arglen : nat) : Prop :=
  is_cstr currarg /\ (length currarg < CR_MAXARGLEN)%nat /\
  (currarg <> [] -> arglen = length currarg).

Lemma collapse_text_spec s : is_cstr s -> collapse_text s = Ok (collapse_go false s).
Proof.
  intros Hs. unfold collapse_text. destruct (collapse_spec s []) as [junk ->]; [done|].
  cbn [mbind result_bind]. rewrite c_text_app; [done|by apply collapse_go_cstr].
Qed.

(** The words of an argument always fit into [currarg]. *)
Lemma add_word_spec currarg arglen word :
  currarg_ok currarg arglen -> is_cstr word -> (length word <= CR_MAXARGLEN - 1)%nat ->
  exists currarg' arglen', add_word currarg arglen word = Ok (currarg', arglen') /\
    currarg_ok currarg' arglen'.
Proof.
  unfold currarg_ok, CR_MAXARGLEN. intros (Hc&Hl&Ha) Hw Hlw. unfold add_word, put_arg, CR_MAXARGLEN.
  case_decide as E.
  - specialize (Ha E). case_decide as E2; [|by eexists _, _].
    rewrite decide_True by (rewrite length_app; simpl; lia). cbn [mbind result_bind].
    eexists _, _. split; [done|]. rewrite is_cstr_app, is_cstr_cons, length_app. simpl.
    split_and!; [done..|lia|intros _; lia].
  - rewrite decide_True by lia. eexists _, _. split; [done|]. split_and!; [done|lia|done].
Qed.

Definition arglist_post (m : nat) : crule_errcode * list cstring * crule_token * cstring -> Prop :=
  fun '(err, args, tok, r) => (measure tok r <= m)%nat /\ word_tok tok r /\
    Forall arg_ok args /\ (length args <= CR_MAXARGS)%nat.

Lemma parsearglist_loop_spec fuel args currarg arglen tok r m :
  (measure tok r < fuel)%nat -> (measure tok r <= m)%nat -> word_tok tok r ->
  currarg_ok currarg arglen -> Forall arg_ok args -> (length args <= CR_MAXARGS)%nat ->
  ends (arglist_post m) (parsearglist_loop fuel args currarg arglen tok r).
Proof.
  revert args currarg arglen tok r. induction fuel as [|fuel IH];
    intros args currarg arglen tok r Hf Hm Ht Hc Ha Hla; [lia|]. cbn [parsearglist_loop].
  case_decide as Ew.
  - specialize (Ht Ew). subst. unfold measure in Hf, Hm. simpl in Hf, Hm.
    destruct (crule_getword (CR_MAXARGLEN - 1) r) as [word r1] eqn:E1.
    pose proof (getword_progress 78 r word r1 E1 Ht). apply getword_spec in E1 as (->&Hlw&Hw).
    destruct (add_word_spec currarg arglen word) as (c'&l'&->&Hc'); [done| |done|].
    { eapply Forall_impl; [exact Hw|]. intros ? ?. by apply word_char_not_NUL. }
    cbn [mbind result_bind]. destruct (crule_gettoken r1) as [[err tok1] r2] eqn:E2.
    apply gettoken_spec in E2 as [Hm2 Ht2].
    case_decide; [apply IH; auto; lia|]. simpl. split_and!; [lia|done..].
  - rewrite collapse_text_spec by apply Hc. cbn [mbind result_bind].
    apply (ends_bind (fun args => Forall arg_ok args /\ (length args <= CR_MAXARGS)%nat)).
    { case_decide as Ec; [|done]. unfold push_arg. case_decide as El; [|done].
      split; [|rewrite length_app; simpl; lia]. apply Forall_app. split; [done|].
      constructor; [|done]. destruct Hc as (?&?&?). split_and!; [done|by apply collapse_go_cstr| |].
      - pose proof (collapse_go_length false currarg). simpl in *. lia.
      - apply collapse_go_twice. }
    intros args' [Ha' Hla']. case_decide as Ecomma; [by split_and!|].
    assert (tok = CR_COMMA) as -> by (by destruct (decide (tok = CR_COMMA))).
    unfold measure in Hf, Hm. simpl in Hf, Hm.
    destruct (crule_gettoken r) as [[err tok1] r2] eqn:E2. apply gettoken_spec in E2 as [Hm2 Ht2].
    case_decide; [apply IH; auto; try lia; by split_and!; [constructor|simpl; unfold CR_MAXARGLEN; lia|]|].
    simpl. split_and!; [lia|done..].
Qed.

(** The trees of a parse that succeeds: every function has its function pointer
    and the arguments it requires, no pointer is uninitialised, and only an
    operand of [&&] or [||] may be missing. *)
Definition reqnumargs (f : crule_funcptr) : nat :=
  match f with crule_connected | crule_directcon => 1 | crule_via => 2 | crule_directop => 0 end.

Fixpoint tree_ok (t : ctree) : Prop :=
  match t with
  | TNull | TUninit | TFunc None _ => False
  | TFunc (Some f) args => length args = reqnumargs f /\ Forall arg_ok args
  | TAndor a b _ => (a = TNull \/ tree_ok a) /\ (b = TNull \/ tree_ok b)
  | TNot a => tree_ok a
  end.

(** What a parsing function leaves behind, from a state of measure [m]. *)
Definition parsed_ok (m : nat) (p : parsed) : Prop :=
  (measure (next_tok p) (ruleptr p) <= m)%nat /\
  word_tok (next_tok p) (ruleptr p) /\
  (errcode p = CR_NOERR -> root p = TNull \/ tree_ok (root p)).

Lemma find_func_spec n x : find_func n = Some x -> chr n <> NUL -> In x crule_funclist /\
  exists name f, x = (name, reqnumargs f, Some f).
Proof.
  unfold find_func. intros Hf Hn. apply find_some in Hf as [Hin Hx]. split; [done|].
  simpl in Hin. destruct Hin as [<-|[<-|[<-|[<-|[<-|[]]]]]].
  - by exists (str "connected"), crule_connected.
  - by exists (str "directcon"), crule_directcon.
  - by exists (str "via"), crule_via.
  - by exists (str "directop"), crule_directop.
  - apply bool_decide_eq_true in Hx. simpl in Hx. case_decide as E; [|done].
    symmetry in E. by apply toLower_eq_NUL in E.
Qed.

Lemma parsefunction_spec r m :
  start_char (chr r) = true -> (length r <= m)%nat ->
  ends (fun p => parsed_ok m p /\ (errcode p = CR_NOERR -> tree_ok (root p)))
    (crule_parsefunction CR_WORD r).
Proof.
  intros Hs Hm. unfold crule_parsefunction.
  assert (Hfail : forall err t tok r', err <> CR_NOERR -> (measure tok r' <= m)%nat ->
    word_tok tok r' ->
    ends (fun p => parsed_ok m p /\ (errcode p = CR_NOERR -> tree_ok (root p)))
      (Ok (mkParsed err t tok r'))).
  { intros err t tok r' He Hm' Hw. by split_and!. }
  destruct (crule_getword (CR_MAXARGLEN - 1) r) as [fn r1] eqn:E1.
  pose proof (getword_progress 78 r fn r1 E1 Hs) as Hp.
  assert (chr fn <> NUL) as Hfn.
  { apply getword_spec in E1 as (->&_&Hw). destruct fn as [|c fn]; [simpl in Hp; lia|].
    apply Forall_cons in Hw as [Hw _]. by apply word_char_not_NUL. }
  destruct (crule_gettoken r1) as [[err tok] r2] eqn:E2. apply gettoken_spec in E2 as [Hm2 Ht2].
  case_decide; [by apply Hfail; [..|lia|]|].
  case_decide; [|by apply Hfail; [..|lia|]]. subst.
  destruct (find_func fn) as [[[nm req] fp]|] eqn:Ef;
    [|by apply Hfail; [..|lia|]].
  apply find_func_spec in Ef as (_&nm'&f&Ef); [|done]. simplify_eq.
  destruct (crule_gettoken r2) as [[err3 tok3] r3] eqn:E3. apply gettoken_spec in E3 as [Hm3 Ht3].
  unfold measure in Hm2. simpl in Hm2.
  case_decide; [by apply Hfail; [..|lia|]|].
  apply (ends_bind (arglist_post (measure tok3 r3))).
  { unfold crule_parsearglist. apply parsearglist_loop_spec; try done.
    - unfold measure in *. destruct (is_op tok3); lia.
    - split_and!; [constructor|simpl; unfold CR_MAXARGLEN; lia|done].
    - simpl. lia. }
  intros [[[err4 args] tok4] r4] (Hm4&Ht4&Ha&Hla).
  case_decide; [by apply Hfail; [..|lia|]|].
  case_decide; [by apply Hfail; [..|lia|]|].
  case_decide as Ereq; [by apply Hfail; [..|lia|]|].
  destruct (crule_gettoken r4) as [[err5 tok5] r5] eqn:E5. apply gettoken_spec in E5 as [Hm5 Ht5].
  assert (length r4 <= m)%nat by (unfold measure in *; lia). case_decide; [by apply Hfail; [..|lia|]|].
  assert (tree_ok (TFunc (Some f) args)); [|split; [split_and!; simpl; [lia|done|auto]|done]].
  split; [|done]. destruct (decide (reqnumargs f = length args)); naive_solver.
Qed.

Lemma nots_ok n t : tree_ok t -> tree_ok (nots n t).
Proof. induction n; simpl; auto. Qed.

(** The tree under construction in the loops of && and ||. *)
Definition open_ok (t : ctree) : Prop :=
  t = TNull \/ exists a o, t = TAndor a TUninit o /\ (a = TNull \/ tree_ok a).

Lemma new_node_ok t x o :
  open_ok t -> x = TNull \/ tree_ok x -> open_ok (new_node t x o).
Proof.
  intros Ht Hx. unfold new_node. right. case_decide as E; [|by eexists _, _].
  destruct Ht as [->|(a&o'&->&Ha)]; [done|]. eexists _, _. split; [done|]. right. simpl. auto.
Qed.

Lemma finish_ok t x err missing tok r :
  open_ok t -> (err = CR_NOERR -> x = TNull \/ tree_ok x) -> missing <> CR_NOERR ->
  errcode (finish t x err missing tok r) = CR_NOERR ->
  root (finish t x err missing tok r) = TNull \/ tree_ok (root (finish t x err missing tok r)).
Proof.
  intros Ht Hx Hm. unfold finish. repeat case_decide; simpl; intros E; try done; [|auto].
  destruct Ht as [->|(a&o&->&Ha)]; [done|]. right. simpl. auto.
Qed.

Lemma finish_tok t x err missing tok r :
  next_tok (finish t x err missing tok r) = tok /\ ruleptr (finish t x err missing tok r) = r.
Proof. unfold finish. repeat case_decide; done. Qed.

Lemma parsed_fail m err t tok r :
  err <> CR_NOERR -> (measure tok r <= m)%nat -> word_tok tok r ->
  ends (parsed_ok m) (Ok (mkParsed err t tok r)).
Proof. intros He Hm Hw. by split_and!. Qed.

(** The three loops end when the fuel exceeds the measure, and leave a tree of
    the right shape. *)
Lemma parser_spec fuel :
  (forall t tok r m, (3 * measure tok r + 3 <= fuel)%nat -> (measure tok r <= m)%nat ->
     word_tok tok r -> open_ok t -> ends (parsed_ok m) (or_loop fuel t tok r)) /\
  (forall t tok r m, (3 * measure tok r + 2 <= fuel)%nat -> (measure tok r <= m)%nat ->
     word_tok tok r -> open_ok t -> ends (parsed_ok m) (and_loop fuel t tok r)) /\
  (forall n tok r m, (3 * measure tok r + 1 <= fuel)%nat -> (measure tok r <= m)%nat ->
     word_tok tok r -> ends (parsed_ok m) (primary_loop fuel n tok r)).
Proof.
  induction fuel as [|fuel (IHor&IHand&IHprim)]; [split_and!; intros; lia|]. split_and!.
  - intros t tok r m Hf Hm Hw Ht. cbn [or_loop].
    apply (ends_bind (parsed_ok (measure tok r))); [apply IHand; [lia|lia|done|by left]|].
    intros p (Hmp&Hwp&Hrp). case_decide as Ec.
    + destruct Ec as [E1 E2]. rewrite E2 in Hmp. unfold measure in Hmp at 1. simpl in Hmp.
      destruct (crule_gettoken (ruleptr p)) as [[err tok2] r2] eqn:Eg.
      apply gettoken_spec in Eg as [Hm2 Ht2]. case_decide; [by apply parsed_fail; [..|lia|]|].
      apply IHor; [lia|lia|done|]. apply new_node_ok; auto.
    + destruct (finish_tok t (root p) (errcode p) CR_EXPCTAND (next_tok p) (ruleptr p)) as [E1 E2].
      split_and!; [rewrite E1, E2; lia|by rewrite E1, E2|]. apply finish_ok; auto.
  - intros t tok r m Hf Hm Hw Ht. cbn [and_loop].
    apply (ends_bind (parsed_ok (measure tok r))); [apply IHprim; [lia|lia|done]|].
    intros p (Hmp&Hwp&Hrp). case_decide as Ec.
    + destruct Ec as [E1 E2]. rewrite E2 in Hmp. unfold measure in Hmp at 1. simpl in Hmp.
      destruct (crule_gettoken (ruleptr p)) as [[err tok2] r2] eqn:Eg.
      apply gettoken_spec in Eg as [Hm2 Ht2]. case_decide; [by apply parsed_fail; [..|lia|]|].
      apply IHand; [lia|lia|done|]. apply new_node_ok; auto.
    + destruct (finish_tok t (root p) (errcode p) CR_EXPCTPRIM (next_tok p) (ruleptr p)) as [E1 E2].
      split_and!; [rewrite E1, E2; lia|by rewrite E1, E2|]. apply finish_ok; auto.
  - intros n tok r m Hf Hm Hw.
    assert (Hdef : ends (parsed_ok m)
      (Ok (mkParsed (if decide (n = 0%nat) then CR_NOERR else CR_EXPCTPRIM) (nots n TNull) tok r))).
    { split_and!; [done..|]. simpl. case_decide; [subst; by left|done]. }
    cbn [primary_loop]. destruct tok; try exact Hdef; clear Hdef.
    + destruct (crule_gettoken r) as [[err tok2] r2] eqn:Eg. apply gettoken_spec in Eg as [Hm2 Ht2].
      unfold measure in Hf, Hm. simpl in Hf, Hm.
      case_decide; [by apply parsed_fail; [..|lia|]|]. apply IHprim; [lia|lia|done].
    + destruct (crule_gettoken r) as [[err tok2] r2] eqn:Eg. apply gettoken_spec in Eg as [Hm2 Ht2].
      unfold measure in Hf, Hm. simpl in Hf, Hm.
      case_decide; [by apply parsed_fail; [..|lia|]|].
      apply (ends_bind (parsed_ok (measure tok2 r2))); [apply IHor; [lia|lia|done|by left]|].
      intros p (Hmp&Hwp&Hrp).
      case_decide; [by apply parsed_fail; [..|lia|]|].
      case_decide; [by apply parsed_fail; [..|lia|]|].
      case_decide; [by apply parsed_fail; [..|lia|]|].
      destruct (crule_gettoken (ruleptr p)) as [[err3 tok3] r3] eqn:Eg.
      apply gettoken_spec in Eg as [Hm3 Ht3]. unfold measure in Hmp at 1.
      split_and!; simpl; [lia|done|]. intros _. right. apply nots_ok.
      destruct (decide (errcode p = CR_NOERR)); naive_solver.
    + unfold measure in Hf, Hm. simpl in Hf, Hm.
      eapply ends_bind; [apply (parsefunction_spec r (length r)); [by apply Hw|done]|].
      intros p ((Hmp&Hwp&_)&Hrp). split_and!; simpl; [lia|done|].
      intros E. right. by apply nots_ok, Hrp.
Qed.

End parser.

(** * Evaluation decides the rule *)

Section evaluation.

Variable e : env.

Definition text (c : aClient) : cstring := c_text (name c).
Definition is_link (c : aClient) : Prop := IsServer c = true \/ IsMe c = true.
Definition matches (mask s : cstring) : Prop := glob toLower (tokens mask) s.

(** Names are terminated, and somewhere behind them in memory two terminators follow
    each other, where match() stops at the latest (see Match.v); every server is
    reached through a local client. *)
Definition name_ok (c : aClient) : Prop := exists s rest, name c = zbuf s rest.
Definition env_ok : Prop :=
  Forall name_ok (client e) /\
  (forall i c, loc_clients e !! i = Some (Some c) -> name_ok c) /\
  Forall (fun c => exists v, loc_clients e !! from_fd c = Some (Some v)) (client e).

(** What match() answers for the name, with what is behind it *)
Definition answer (mask : cstring) (c : aClient) : Prop := match_ mask (name c) = Ok 0.
(** What the mask stands for *)
Definition stands (mask : cstring) (c : aClient) : Prop := matches mask (text c).
(** The two terminators are at the end of the name. *)
Definition clean (c : aClient) : Prop := exists s rest, is_cstr s /\ name c = zbuf s rest.
Definition env_clean : Prop :=
  Forall clean (client e) /\ (forall i c, loc_clients e !! i = Some (Some c) -> clean c).

(** The meaning of a function, for either of the two *)
Definition func_sem (hit : cstring -> aClient -> Prop) (f : crule_funcptr) (args : list cstring) : Prop :=
  match f, args with
  | crule_connected, [m] => exists c, In c (client e) /\ is_link c /\ hit m c
  | crule_directcon, [m] =>
      exists c, In (Some c) (loc_clients e) /\ IsServer c = true /\ hit m c
  | crule_via, [m0; m1] =>
      exists c, In c (client e) /\ is_link c /\ hit m1 c /\
        exists v, loc_clients e !! from_fd c = Some (Some v) /\ hit m0 v
  | crule_directop, [] => exists c, In (Some c) (loc_clients e) /\ IsAnOper c = true
  | _, _ => False
  end.

(** The meaning of a rule *)
Fixpoint rule_sem (hit : cstring -> aClient -> Prop) (t : ctree) : Prop :=
  match t with
  | TFunc (Some f) args => func_sem hit f args
  | TAndor a b is_or => if is_or : bool then rule_sem hit a \/ rule_sem hit b else rule_sem hit a /\ rule_sem hit b
  | TNot a => ~ rule_sem hit a
  | _ => False
  end.

(** Trees in which no operand is missing. *)
Fixpoint complete (t : ctree) : Prop :=
  match t with
  | TNull | TUninit | TFunc None _ => False
  | TFunc (Some f) args => length args = reqnumargs f /\ Forall is_cstr args
  | TAndor a b _ => complete a /\ complete b
  | TNot a => complete a
  end.

(** A C truth value for a proposition. *)
Definition decides (r : result Z) (P : Prop) : Prop :=
  (r = Ok 1 /\ P) \/ (r = Ok 0 /\ ~ P).

Lemma ex_in_skip {A} (P : A -> Prop) a l :
  ~ P a -> (exists x, In x l /\ P x) <-> (exists x, In x (a :: l) /\ P x).
Proof.
  intros Ha. split; intros (x&Hin&Hx); exists x; (split; [|done]).
  - by right.
  - by destruct Hin as [->|].
Qed.

Lemma ex_some_skip {A} (P : A -> Prop) o l :
  (forall a, o = Some a -> ~ P a) ->
  (exists x, In (Some x) l /\ P x) <-> (exists x, In (Some x) (o :: l) /\ P x).
Proof.
  intros Ha. split; intros (x&Hin&Hx); exists x; (split; [|done]).
  - by right.
  - destruct Hin as [E|]; [by destruct (Ha x)|done].
Qed.

Lemma decides_iff r P Q : (P <-> Q) -> decides r P -> decides r Q.
Proof. unfold decides. tauto. Qed.

Lemma match_name_spec m c :
  is_cstr m -> name_ok c -> exists r, match_ m (name c) = Ok r /\ (r = 0 <-> answer m c).
Proof.
  intros Hm (s&rest&E). destruct (match_gen_ends toLower toLower_eq_NUL rest m s Hm) as (r&Hr).
  exists r. unfold answer. rewrite E. unfold match_. rewrite Hr. split; [done|]. split; [by intros ->|by intros [= ->]].
Qed.

Lemma c_text_split (p : list ascii) :
  NUL ∈ p -> exists tail, p = c_text p ++ NUL :: tail /\ is_cstr (c_text p).
Proof.
  induction p as [|c p IH]; [by intros ?%not_elem_of_nil|]. intros H. cbn [c_text]. case_decide as E.
  - subst. exists p. split; [done|constructor].
  - apply elem_of_cons in H as [Ec|H]; [by destruct E|]. destruct (IH H) as (tail&Ep&Hc). exists tail. split.
    + simpl. by rewrite <- Ep.
    + apply is_cstr_cons. by split.
Qed.

(** match() answers for every name that the mask stands for, and for no other one if
    the name is clean. *)
Lemma stands_answer m c : is_cstr m -> name_ok c -> stands m c -> answer m c.
Proof.
  intros Hm (s&rest&E). unfold stands, matches, answer, text. rewrite E.
  assert (Hin : NUL ∈ zbuf s rest) by (unfold zbuf; rewrite elem_of_app, elem_of_cons; auto).
  destruct (c_text_split _ Hin) as (tail&Et&Hc). intros Hg. rewrite Et.
  by apply (match_gen_hit toLower toLower_eq_NUL tail).
Qed.

Lemma clean_answer m c : is_cstr m -> clean c -> answer m c <-> stands m c.
Proof.
  intros Hm (s&rest&Hs&E). unfold stands, matches, answer, text. rewrite E. unfold zbuf at 2.
  rewrite c_text_app by done. destruct (match_gen_spec toLower toLower_eq_NUL rest m s Hm Hs) as (r&Hr&Hv).
  unfold match_. rewrite Hr. unfold verdict in Hv. rewrite <- Hv. split; [by intros [= ->]|by intros ->].
Qed.

Lemma is_link_false c : negb (IsServer c) && negb (IsMe c) = true -> ~ is_link c.
Proof. unfold is_link. by destruct (IsServer c), (IsMe c); simpl; intros ? []. Qed.

Lemma is_link_true c : negb (IsServer c) && negb (IsMe c) = false -> is_link c.
Proof. unfold is_link. destruct (IsServer c), (IsMe c); simpl; auto. Qed.

Lemma connected_spec m l :
  is_cstr m -> Forall name_ok l ->
  decides (connected_loop (Ok m) l) (exists c, In c l /\ is_link c /\ answer m c).
Proof.
  intros Hm Hl. induction Hl as [|c l Hc Hl IH]; [right; naive_solver|]. cbn [connected_loop].
  destruct (negb (IsServer c) && negb (IsMe c)) eqn:E.
  { apply is_link_false in E. eapply decides_iff; [|exact IH]. apply ex_in_skip. tauto. }
  apply is_link_true in E.
  destruct (match_name_spec m c) as (r&Hr&Hiff); [done..|].
  cbn [mbind result_bind]. rewrite Hr. cbn [mbind result_bind]. case_decide as E0.
  - eapply decides_iff; [|exact IH]. apply ex_in_skip. tauto.
  - left. split; [done|]. exists c. split_and!; [by left|done|]. apply Hiff. lia.
Qed.

Lemma directcon_spec m l :
  is_cstr m -> (forall c, In (Some c) l -> name_ok c) ->
  decides (directcon_loop (Ok m) l)
    (exists c, In (Some c) l /\ IsServer c = true /\ answer m c).
Proof.
  intros Hm Hl. induction l as [|[c|] l IH]; [right; naive_solver| |].
  2: { eapply decides_iff; [|apply IH; intros; apply Hl; by right]. by apply ex_some_skip. }
  cbn [directcon_loop]. assert (IH' := IH (fun c H => Hl c (or_intror H))).
  destruct (IsServer c) eqn:E; cbn [negb].
  2: { eapply decides_iff; [|exact IH']. apply ex_some_skip. intros ? [= <-] []. congruence. }
  destruct (match_name_spec m c) as (r&Hr&Hiff); [done|apply Hl; by left|].
  cbn [mbind result_bind]. rewrite Hr. cbn [mbind result_bind]. case_decide as E0.
  - eapply decides_iff; [|exact IH']. apply ex_some_skip. intros ? [= <-]. tauto.
  - left. split; [done|]. exists c. split_and!; [by left|done|]. apply Hiff. lia.
Qed.

Lemma directop_spec l :
  decides (directop_loop l) (exists c, In (Some c) l /\ IsAnOper c = true).
Proof.
  induction l as [|[c|] l IH]; [right; naive_solver| |].
  - cbn [directop_loop]. destruct (IsAnOper c) eqn:E.
    + left. split; [done|]. exists c. split; [by left|done].
    + eapply decides_iff; [|exact IH]. apply ex_some_skip. intros ? [= <-]. congruence.
  - eapply decides_iff; [|exact IH]. by apply ex_some_skip.
Qed.

Lemma via_spec m0 m1 l :
  is_cstr m0 -> is_cstr m1 -> Forall name_ok l ->
  (forall i c, loc_clients e !! i = Some (Some c) -> name_ok c) ->
  Forall (fun c => exists v, loc_clients e !! from_fd c = Some (Some v)) l ->
  decides (via_loop e (Ok m0) (Ok m1) l)
    (exists c, In c l /\ is_link c /\ answer m1 c /\
       exists v, loc_clients e !! from_fd c = Some (Some v) /\ answer m0 v).
Proof.
  intros Hm0 Hm1 Hl Hloc Hfd. induction Hl as [|c l Hc Hl IH]; [right; naive_solver|].
  apply Forall_cons in Hfd as [[v Hv] Hfd]. specialize (IH Hfd). cbn [via_loop].
  destruct (negb (IsServer c) && negb (IsMe c)) eqn:E.
  { apply is_link_false in E. eapply decides_iff; [|exact IH]. apply ex_in_skip. tauto. }
  apply is_link_true in E.
  destruct (match_name_spec m1 c) as (r&Hr&Hiff); [done..|].
  cbn [mbind result_bind]. rewrite Hr. cbn [mbind result_bind]. case_decide as E0.
  { eapply decides_iff; [|exact IH]. apply ex_in_skip. tauto. }
  rewrite (rd_Some _ _ _ Hv). cbn [of_option mbind result_bind].
  destruct (match_name_spec m0 v) as (r0&Hr0&Hiff0); [done|by eapply Hloc|].
  rewrite Hr0. cbn [mbind result_bind]. case_decide as E1.
  - eapply decides_iff; [|exact IH]. apply ex_in_skip.
    intros (?&?&v'&Hv'&?). rewrite Hv in Hv'. injection Hv' as <-. tauto.
  - left. split; [done|]. exists c. split_and!; [by left|done| |].
    + apply Hiff. lia.
    + exists v. split; [done|]. apply Hiff0. lia.
Qed.

Lemma call_func_spec f args :
  env_ok -> length args = reqnumargs f -> Forall is_cstr args ->
  decides (call_func e f args) (func_sem answer f args).
Proof.
  intros (Hc&Hloc&Hfd) Hl Ha.
  destruct f; destruct args as [|m0 [|m1 [|]]]; try done; simpl.
  - apply connected_spec; [by apply Forall_cons in Ha as []|done].
  - apply directcon_spec; [by apply Forall_cons in Ha as []|]. intros c Hin.
    apply list_elem_of_In, list_elem_of_lookup in Hin as [i Hi]. by eapply Hloc.
  - apply Forall_cons in Ha as [? Ha]. apply Forall_cons in Ha as [? Ha]. by apply via_spec.
  - apply directop_spec.
Qed.

Lemma call_func_mono (P Q : cstring -> aClient -> Prop) f args :
  length args = reqnumargs f -> Forall is_cstr args ->
  (forall m c, is_cstr m -> In c (client e) \/ In (Some c) (loc_clients e) -> P m c -> Q m c) ->
  func_sem P f args -> func_sem Q f args.
Proof.
  intros Hl Ha HPQ. destruct f; destruct args as [|m0 [|m1 [|]]]; try done; simpl; intros H.
  - apply Forall_cons in Ha as [? _]. destruct H as (c&?&?&?). exists c. auto.
  - apply Forall_cons in Ha as [? _]. destruct H as (c&?&?&?). exists c. auto.
  - apply Forall_cons in Ha as [? Ha]. apply Forall_cons in Ha as [? _].
    destruct H as (c&?&?&?&v&Hv&?). exists c. split_and!; [auto..|]. exists v. split; [done|].
    apply HPQ; [done| |done]. right. apply list_elem_of_In, list_elem_of_lookup. eauto.
Qed.

Lemma rule_sem_clean t : env_clean -> complete t -> rule_sem answer t <-> rule_sem stands t.
Proof.
  intros [Hc Hloc]. assert (Hcl : forall c, In c (client e) \/ In (Some c) (loc_clients e) -> clean c).
  { intros c [H|H]; apply list_elem_of_In in H; [rewrite Forall_forall in Hc; auto|].
    apply list_elem_of_lookup in H as [i Hi]. eauto. }
  induction t as [| |[f|] args|a IHa b IHb o|a IHa]; simpl; try done.
  - intros [Hl Ha]. split; apply call_func_mono; try done; intros m c Hm Hin; apply clean_answer; auto.
  - intros [Ha Hb]. destruct o; naive_solver.
  - naive_solver.
Qed.

End evaluation.

(** C36. crule_eval() of a complete rule ends without touching a missing argument and
    returns the truth of the rule: && and || are short-circuit conjunction and
    disjunction, and a function holds exactly when some client or link has the
    property and match() answers for its name.  match() does for every name that the
    mask stands for; that it does for no other one, so that the rule has its usual
    meaning, needs a second NUL behind every name, because match() may read on
    otherwise. *)
Theorem crule_eval_correct e t :
  env_ok e -> complete t ->
  ((crule_eval e t = Ok 1 /\ rule_sem e answer t) \/ (crule_eval e t = Ok 0 /\ ~ rule_sem e answer t)) /\
  (forall m c, is_cstr m -> name_ok c -> stands m c -> answer m c) /\
  (env_clean e -> (rule_sem e answer t <-> rule_sem e stands t)).
Proof.
  intros He Ht. split_and!; [|apply stands_answer|by intros; apply rule_sem_clean].
  revert Ht. induction t as [| |[f|] args|a IHa b IHb o|a IHa]; intros Hc; simpl in Hc; try done.
  - destruct Hc as [Hl Ha]. by apply call_func_spec.
  - destruct Hc as [Ha Hb]. simpl.
    destruct (IHa Ha) as [[-> HA]|[-> HA]], (IHb Hb) as [[-> HB]|[-> HB]], o; simpl; tauto.
  - simpl. destruct (IHa Hc) as [[-> HA]|[-> HA]]; simpl; tauto.
Qed.

(** Witness of [crule_eval_correct]. *)
Definition sample_env : env :=
  mkEnv [mkClient (zbuf (str "a.es") []) true false false 1;
         mkClient (zbuf (str "nick") []) false false true 1]
    [None; Some (mkClient (zbuf (str "hub.es") []) true false false 1)].
Definition sample_rule : ctree :=
  TAndor (TFunc (Some crule_via) [str "HUB.*"; str "?.es"])
    (TNot (TFunc (Some crule_directop) [])) false.

Lemma crule_eval_correct_witness :
  crule_eval sample_env sample_rule = Ok 1 /\
  ((crule_eval sample_env sample_rule = Ok 1 /\ rule_sem sample_env answer sample_rule) \/
   (crule_eval sample_env sample_rule = Ok 0 /\ ~ rule_sem sample_env answer sample_rule)) /\
  (forall m c, is_cstr m -> name_ok c -> stands m c -> answer m c) /\
  (rule_sem sample_env answer sample_rule <-> rule_sem sample_env stands sample_rule).
Proof.
  destruct (crule_eval_correct sample_env sample_rule) as (H1&H2&H3).
  - split_and!.
    + repeat constructor; eexists _, []; reflexivity.
    + intros [|[|[|i]]] c Hc; try discriminate. injection Hc as <-. exists (str "hub.es"), []. reflexivity.
    + repeat constructor; eexists; reflexivity.
  - split_and!; try reflexivity; repeat constructor; apply (bool_decide_unpack _);
      vm_compute; exact I.
  - split; [vm_compute; reflexivity|]. split; [exact H1|]. split; [exact H2|]. apply H3. split.
    + repeat constructor; eexists _, []; (split; [|reflexivity]);
        apply (bool_decide_unpack _); vm_compute; exact I.
    + intros [|[|[|i]]] c Hc; try discriminate. injection Hc as <-.
      exists (str "hub.es"), []. split; [|reflexivity].
      apply (bool_decide_unpack _); vm_compute; exact I.
Defined.

(** crule_parse() terminates on every rule, and a rule that parses gives a tree
    in which every function has its pointer and the number of non-empty,
    collapsed arguments it requires and nothing is left uninitialised; only
    operands of && and || may be missing. *)
Theorem crule_parse_shape rule :
  crule_parse rule <> Fuel /\
  forall t, crule_parse rule = Ok (Some t) -> tree_ok t.
Proof.
  assert (ends (fun o => forall t, o = Some t -> tree_ok t) (crule_parse rule)) as H.
  { unfold crule_parse, crule_parse_fuel.
    destruct (crule_gettoken rule) as [[err tok] r] eqn:Eg. apply gettoken_spec in Eg as [Hm Ht].
    case_decide; [done|]. destruct (parser_spec (4 * S (length rule))) as [Hor _].
    eapply ends_bind; [apply (Hor TNull tok r (measure tok r)); [lia|lia|done|by left]|].
    intros p (_&_&Hp). case_decide as E.
    { simpl. intros t [= <-]. destruct E as (E1&E2&_). destruct (Hp E1); done. }
    case_decide; [|done]. apply (ends_bind (fun _ => True)); [|done].
    clear. induction (root p) as [| |f args|a IHa b IHb o|a IHa]; simpl; try done.
    - eapply ends_bind; [exact IHa|]. intros _ _. by case_decide.
    - by case_decide. }
  destruct (crule_parse rule) as [o| |]; simpl in H; try done.
  split; [done|]. intros t [= ->]. by apply H.
Qed.

(** What can go wrong: a missing operand passes the parser and is then called
    through a null pointer; an error right after an operator frees a pointer
    that was never set; a fourth argument is written past the end of the node. *)
Theorem crule_parse_defects :
  (exists t, crule_parse (str "|| directop()") = Ok (Some t) /\
     forall e, crule_eval e t = Ub) /\
  crule_parse (str "directop() || %") = Ub /\
  crule_parse (str "connected(a,b,c,d)") = Ub.
Proof.
  split_and!; [|by vm_compute..].
  exists (TAndor TNull (TFunc (Some crule_directop) []) true). split; [by vm_compute|done].
Qed.

(** Witness of [crule_parse_shape]. *)
Lemma crule_parse_shape_witness :
  let rule := str "!(via(a,b) && & connected(x y)) || directop() : rest" in
  (exists t, crule_parse rule = Ok (Some t) /\ tree_ok t) /\ crule_parse rule <> Fuel.
Proof.
  split.
  - eexists. assert (H : crule_parse (str "!(via(a,b) && & connected(x y)) || directop() : rest") =
      Ok (Some (TAndor (TNot (TAndor (TFunc (Some crule_via) [str "a"; str "b"])
        (TFunc (Some crule_connected) [str "x y"]) false)) (TFunc (Some crule_directop) []) true)))
      by (vm_compute; reflexivity).
    split; [exact H|]. exact (proj2 (crule_parse_shape _) _ H).
  - apply crule_parse_shape.
Defined.

(** * Printing and parsing

    print_tree() is the printer of the stand-alone test parser in the same
    file; a null pointer, or a function that is not in the table, crashes it. *)

Definition func_name (f : crule_funcptr) : cstring :=
  match f with
  | crule_connected => str "connected" | crule_directcon => str "directcon"
  | crule_via => str "via" | crule_directop => str "directop"
  end.

Fixpoint print_args (first : bool) (args : list cstring) : cstring :=
  match args with
  | [] => []
  | a :: args => (if first then [] else str ",") ++ a ++ print_args false args
  end.

Fixpoint print_tree (t : ctree) : result cstring :=
  match t with
  | TNot a => s ← print_tree a; Ok (str "!( " ++ s ++ str ") ")
  | TAndor a b is_or =>
      s1 ← print_tree a; s2 ← print_tree b;
      Ok (str "( " ++ s1 ++ (if is_or : bool then str "|| " else str "&& ") ++ s2 ++ str ") ")
  | TFunc (Some f) args => Ok (func_name f ++ str "(" ++ print_args true args ++ str ") ")
  | _ => Ub
  end.

Section roundtrip.

Implicit Types (t : ctree) (r : cstring).

(** The characters that start a word: a bar is a letter in names, but the
    tokenizer sees an operator first. *)
Definition word_start (c : ascii) : Prop := start_char c = true /\ c <> "|"%char.

(** Arguments of one word that survive the parser unchanged. *)
Definition word_arg (a : cstring) : Prop :=
  word_start (chr a) /\ Forall (fun c => word_char c = true) a /\
  (length a <= CR_MAXARGLEN - 1)%nat /\ collapse_go false a = a.

Fixpoint printable t : Prop :=
  match t with
  | TFunc (Some f) args => length args = reqnumargs f /\ Forall word_arg args
  | TAndor a b _ => printable a /\ printable b
  | TNot a => printable a
  | _ => False
  end.

Fixpoint show t : cstring :=
  match t with
  | TNot a => str "!( " ++ show a ++ str ") "
  | TAndor a b is_or =>
      str "( " ++ show a ++ (if is_or : bool then str "|| " else str "&& ") ++ show b ++ str ") "
  | TFunc (Some f) args => func_name f ++ str "(" ++ print_args true args ++ str ") "
  | _ => []
  end.

Lemma print_show t : printable t -> print_tree t = Ok (show t).
Proof.
  induction t as [| |[f|] args|a IHa b IHb o|a IHa]; simpl; try done.
  - intros [Ha Hb]. by rewrite IHa, IHb.
  - intros Ha. by rewrite IHa.
Qed.

(** The recursion that parsing a printed tree needs. *)
Fixpoint depth t : nat :=
  match t with
  | TNot a => depth a + 4
  | TAndor a b _ => Nat.max (depth a) (depth b) + 4
  | _ => 1
  end.

Lemma depth_show t : printable t -> (depth t <= length (show t))%nat.
Proof.
  induction t as [| |[f|] args|a IHa b IHb o|a IHa]; simpl; try done.
  - intros _. destruct f; simpl; lia.
  - intros [Ha Hb]. specialize (IHa Ha). specialize (IHb Hb).
    rewrite ?length_app. destruct o; simpl; rewrite ?length_app; simpl; lia.
  - intros Ha. specialize (IHa Ha). rewrite ?length_app. simpl. lia.
Qed.

Lemma getword_app maxlen w c r :
  Forall (fun c => word_char c = true) w -> (length w <= maxlen)%nat -> word_char c = false ->
  crule_getword maxlen (w ++ c :: r) = (w, c :: r).
Proof.
  intros Hw. revert maxlen. induction Hw as [|x w Hx Hw IH]; intros maxlen Hl Hc; simpl.
  - destruct maxlen; simpl; [done|]. by rewrite Hc.
  - simpl in Hl. destruct maxlen as [|maxlen]; [lia|]. simpl. rewrite Hx, IH by (done || lia). done.
Qed.

(** A word starts where the tokenizer stops. *)
Lemma start_char_special c :
  word_start c ->
  Forall (fun d => c <> d) [" "%char; "009"%char; "&"%char; "|"%char; "!"%char; "("%char;
    ")"%char; ","%char; ":"%char].
Proof.
  unfold word_start. revert c. apply (forall_ascii_dec (fun c => start_char c = true /\ c <> "|"%char ->
    Forall (fun d => c <> d) [" "%char; "009"%char; "&"%char; "|"%char; "!"%char; "("%char;
    ")"%char; ","%char; ":"%char])). by vm_compute.
Qed.

Lemma gettoken_word a r :
  word_start (chr a) -> crule_gettoken (a ++ r) = (CR_NOERR, CR_WORD, a ++ r).
Proof.
  destruct a as [|c a]; [by intros []|]. intros Hs. simpl in Hs. unfold crule_gettoken.
  cbn [app gettoken_loop]. pose proof (start_char_special c Hs) as H.
  rewrite !Forall_cons in H. destruct H as (?&?&?&?&?&?&?&?&?&_).
  rewrite !decide_False by naive_solver. destruct Hs as [-> _]. done.
Qed.

(** The arguments of a function, up to the closing parenthesis. *)
Lemma parsearglist_loop_print fuel a args acc n r :
  Forall word_arg (a :: args) -> (length acc + S (length args) <= CR_MAXARGS)%nat ->
  (2 * S (length args) <= fuel)%nat ->
  parsearglist_loop fuel acc [] n CR_WORD (a ++ print_args false args ++ ")"%char :: r) =
  Ok (CR_NOERR, acc ++ a :: args, CR_CLOSEPAREN, r).
Proof.
  revert fuel a acc n. induction args as [|a2 args IH]; intros fuel a acc n Ha Hl Hf;
    simpl in Hl, Hf; (destruct fuel as [|[|fuel]]; [lia..|]);
    apply Forall_cons in Ha as [(Hs&Hw&Hla&Hc) Ha].
  all: assert (Hne : a <> []) by (intros ->; by destruct Hs).
  all: assert (Hcs : is_cstr a) by (eapply Forall_impl; [exact Hw|]; intros; by apply word_char_not_NUL).
  all: cbn [parsearglist_loop print_args app]; rewrite decide_True by done.
  - rewrite getword_app by done. unfold add_word, put_arg.
    rewrite decide_False, decide_True by (try tauto; unfold CR_MAXARGLEN in *; lia).
    cbn [mbind result_bind]. change (crule_gettoken (")"%char :: r)) with (CR_NOERR, CR_CLOSEPAREN, r).
    cbn beta iota. rewrite decide_True, decide_False by done.
    rewrite collapse_text_spec, Hc by done. cbn [mbind result_bind].
    rewrite decide_True by done. unfold push_arg. rewrite decide_True by lia.
    cbn [mbind result_bind]. by rewrite decide_True.
  - change ((str "," ++ a2 ++ print_args false args) ++ ")"%char :: r)
      with (","%char :: (a2 ++ print_args false args) ++ ")"%char :: r).
    rewrite getword_app by done. unfold add_word, put_arg.
    rewrite decide_False, decide_True by (try tauto; unfold CR_MAXARGLEN in *; lia).
    cbn [mbind result_bind].
    change (crule_gettoken (","%char :: ?l)) with (CR_NOERR, CR_COMMA, l).
    cbn beta iota. rewrite decide_True, decide_False by done.
    rewrite collapse_text_spec, Hc by done. cbn [mbind result_bind].
    rewrite decide_True by done. unfold push_arg. rewrite decide_True by lia.
    cbn [mbind result_bind]. rewrite decide_False by (intros H; by apply H).
    rewrite <- app_assoc, gettoken_word by (by apply Forall_cons in Ha as [[? _] _]).
    rewrite decide_True by done. rewrite IH by (try done; rewrite ?length_app; simpl; lia).
    by rewrite <- app_assoc.
Qed.

Lemma find_func_name f : find_func (func_name f) = Some (func_name f, reqnumargs f, Some f).
Proof. by destruct f; vm_compute. Qed.

Lemma func_name_word f :
  word_start (chr (func_name f)) /\ Forall (fun c => word_char c = true) (func_name f) /\
  (length (func_name f) <= CR_MAXARGLEN - 1)%nat.
Proof.
  destruct f; (split; [by split; vm_compute|split; [|vm_compute; lia]]);
    apply (bool_decide_unpack _); by vm_compute.
Qed.

(** A printed function, followed by anything that tokenizes. *)
Lemma parsefunction_print f args r tok r' :
  length args = reqnumargs f -> Forall word_arg args ->
  crule_gettoken r = (CR_NOERR, tok, r') ->
  crule_parsefunction CR_WORD (func_name f ++ str "(" ++ print_args true args ++ str ") " ++ r) =
  Ok (mkParsed CR_NOERR (TFunc (Some f) args) tok r').
Proof.
  intros Hl Ha Hr. destruct (func_name_word f) as (_&Hw&Hn). unfold crule_parsefunction.
  change (str "(" ++ ?l) with ("("%char :: l). rewrite getword_app by done.
  change (crule_gettoken ("("%char :: ?l)) with (CR_NOERR, CR_OPENPAREN, l). cbn beta iota.
  rewrite decide_False, decide_True by (done || intros H; by apply H).
  rewrite find_func_name.
  assert (Hargs : (let '(err, tok0, rule0) := crule_gettoken (print_args true args ++ str ") " ++ r) in
    if decide (err <> CR_NOERR) then None else Some (crule_parsearglist tok0 rule0)) =
    Some (Ok (CR_NOERR, args, CR_CLOSEPAREN, " "%char :: r))).
  { destruct args as [|a args].
    - change (crule_gettoken _) with (CR_NOERR, CR_CLOSEPAREN, " "%char :: r). cbn beta iota.
      by rewrite decide_False by (intros H; by apply H).
    - cbn [print_args app]. rewrite <- app_assoc.
      rewrite gettoken_word by (by apply Forall_cons in Ha as [[? _] _]).
      rewrite decide_False by (intros H; by apply H). f_equal. unfold crule_parsearglist.
      change (str ") " ++ r) with (")"%char :: " "%char :: r).
      apply (parsearglist_loop_print _ a args []); [done|..].
      + simpl. unfold CR_MAXARGS. destruct f; simpl in *; lia.
      + rewrite !length_app. simpl. assert (length args <= length (print_args false args))%nat; [|lia].
        clear. induction args as [|a args IH]; simpl; [done|]. rewrite length_app. lia. }
  destruct (crule_gettoken (print_args true args ++ str ") " ++ r)) as [[err3 tok3] r3].
  case_decide; [done|]. injection Hargs as ->. cbn [mbind result_bind].
  rewrite decide_False, decide_False, decide_False by (try tauto; by intros H').
  change (crule_gettoken (" "%char :: r)) with (crule_gettoken r). rewrite Hr.
  by rewrite decide_False by (intros H'; by apply H').
Qed.

(** The turns of the two loops *)
Lemma and_last fuel t x tok0 r0 tok r :
  primary_loop fuel 0 tok0 r0 = Ok (mkParsed CR_NOERR x tok r) -> tok <> CR_AND ->
  and_loop (S fuel) t tok0 r0 = Ok (finish t x CR_NOERR CR_EXPCTPRIM tok r).
Proof. intros H Ht. cbn [and_loop]. rewrite H. cbn [mbind result_bind]. by rewrite decide_False by (simpl; tauto). Qed.

Lemma and_more fuel t x tok0 r0 r tok1 r1 :
  primary_loop fuel 0 tok0 r0 = Ok (mkParsed CR_NOERR x CR_AND r) ->
  crule_gettoken r = (CR_NOERR, tok1, r1) ->
  and_loop (S fuel) t tok0 r0 = and_loop fuel (new_node t x false) tok1 r1.
Proof.
  intros H Hg. cbn [and_loop]. rewrite H. cbn [mbind result_bind ruleptr root].
  rewrite decide_True by done. rewrite Hg. by rewrite decide_False by (intros H'; by apply H').
Qed.

Lemma or_last fuel t x tok0 r0 tok r :
  and_loop fuel TNull tok0 r0 = Ok (mkParsed CR_NOERR x tok r) -> tok <> CR_OR ->
  or_loop (S fuel) t tok0 r0 = Ok (finish t x CR_NOERR CR_EXPCTAND tok r).
Proof. intros H Ht. cbn [or_loop]. rewrite H. cbn [mbind result_bind]. by rewrite decide_False by (simpl; tauto). Qed.

Lemma or_more fuel t x tok0 r0 r tok1 r1 :
  and_loop fuel TNull tok0 r0 = Ok (mkParsed CR_NOERR x CR_OR r) ->
  crule_gettoken r = (CR_NOERR, tok1, r1) ->
  or_loop (S fuel) t tok0 r0 = or_loop fuel (new_node t x true) tok1 r1.
Proof.
  intros H Hg. cbn [or_loop]. rewrite H. cbn [mbind result_bind ruleptr root].
  rewrite decide_True by done. rewrite Hg. by rewrite decide_False by (intros H'; by apply H').
Qed.

Lemma finish_first x tok r missing :
  x <> TNull -> finish TNull x CR_NOERR missing tok r = mkParsed CR_NOERR x tok r.
Proof. intros. unfold finish. by rewrite decide_False by tauto. Qed.

Lemma finish_second a b o tok r missing :
  b <> TNull ->
  finish (new_node TNull a o) b CR_NOERR missing tok r = mkParsed CR_NOERR (TAndor a b o) tok r.
Proof.
  intros. unfold finish, new_node. rewrite (decide_False (P := TNull <> TNull)) by tauto.
  by rewrite !decide_True.
Qed.

Lemma printable_nonnull t : printable t -> t <> TNull.
Proof. by intros H ->. Qed.

Lemma nots_S n t : nots n (TNot t) = nots (S n) t.
Proof. induction n as [|n IH]; [done|]. simpl. by rewrite IH. Qed.

(** A parenthesised expression, from the token after the parenthesis on. *)
Lemma primary_paren fuel n x tok0 r0 r tok r' :
  or_loop fuel TNull tok0 r0 = Ok (mkParsed CR_NOERR x CR_CLOSEPAREN (" "%char :: r)) ->
  x <> TNull -> crule_gettoken r = (CR_NOERR, tok, r') ->
  forall r1, crule_gettoken r1 = (CR_NOERR, tok0, r0) ->
  primary_loop (S fuel) n CR_OPENPAREN r1 = Ok (mkParsed CR_NOERR (nots n x) tok r').
Proof.
  intros Hor Hx Hr r1 Hr1. cbn [primary_loop]. rewrite Hr1.
  rewrite decide_False by (intros H; by apply H). rewrite Hor. cbn [mbind result_bind errcode root next_tok ruleptr].
  rewrite decide_False by (intros H; by apply H). rewrite decide_False by done.
  rewrite decide_False by (intros H; by apply H).
  change (crule_gettoken (" "%char :: r)) with (crule_gettoken r). by rewrite Hr.
Qed.

(** A printed tree parses back as a primary, whatever follows it. *)
Lemma primary_print t :
  printable t -> forall r tok r', crule_gettoken r = (CR_NOERR, tok, r') ->
  exists tok0 r0, crule_gettoken (show t ++ r) = (CR_NOERR, tok0, r0) /\
    forall n fuel, (depth t <= fuel)%nat ->
      primary_loop fuel n tok0 r0 = Ok (mkParsed CR_NOERR (nots n t) tok r').
Proof.
  induction t as [| |[f|] args|a IHa b IHb o|a IHa]; simpl; try done.
  - intros [Hl Ha] r tok r' Hr. exists CR_WORD, (func_name f ++ str "(" ++ print_args true args ++ str ") " ++ r).
    split.
    + replace ((func_name f ++ "("%char :: print_args true args ++ [")"%char; " "%char]) ++ r)
        with (func_name f ++ str "(" ++ print_args true args ++ str ") " ++ r)
        by (simpl; by rewrite <- !app_assoc, <- app_comm_cons, <- app_assoc).
      apply gettoken_word, func_name_word.
    + intros n [|fuel] Hf; [lia|]. cbn [primary_loop].
      rewrite (parsefunction_print f args r tok r') by done. done.
  - intros [Hpa Hpb] r tok r' Hr.
    assert (Hna := printable_nonnull _ Hpa). assert (Hnb := printable_nonnull _ Hpb).
    destruct (IHb Hpb (")"%char :: " "%char :: r) CR_CLOSEPAREN (" "%char :: r) eq_refl)
      as (tb&rb&Hgb&Hb).
    set (rest := show b ++ ")"%char :: " "%char :: r) in *.
    destruct (IHa Hpa ((if o then str "|| " else str "&& ") ++ rest)
      (if o then CR_OR else CR_AND) (" "%char :: rest)) as (ta&ra&Hga&Ha); [by destruct o|].
    exists CR_OPENPAREN, (" "%char :: show a ++ (if o then str "|| " else str "&& ") ++ rest).
    split.
    { unfold rest. destruct o; simpl; by rewrite <- !app_assoc; simpl; rewrite <- !app_assoc. }
    intros n [|fuel] Hf; [lia|]. eapply primary_paren; [|done|exact Hr|exact Hga].
    destruct fuel as [|[|[|fuel]]]; [lia..|]. destruct o.
    + rewrite (or_more _ _ a _ _ (" "%char :: rest) tb rb); [| |exact Hgb].
      * erewrite or_last; [|erewrite and_last; [|apply Hb; lia|done]; by rewrite finish_first|done].
        by rewrite finish_second.
      * erewrite and_last; [|apply Ha; lia|done]. by rewrite finish_first.
    + erewrite or_last; [|erewrite and_more; [|apply Ha; lia|exact Hgb];
        erewrite and_last; [|apply Hb; lia|done]; by rewrite finish_second|done].
      by rewrite finish_first.
  - intros Hpa r tok r' Hr. assert (Hna := printable_nonnull _ Hpa).
    destruct (IHa Hpa (")"%char :: " "%char :: r) CR_CLOSEPAREN (" "%char :: r) eq_refl)
      as (ta&ra&Hga&Ha).
    exists CR_NOT, (str "( " ++ show a ++ ")"%char :: " "%char :: r). split.
    { simpl. by rewrite <- !app_assoc. }
    intros n [|fuel] Hf; [lia|]. cbn [primary_loop].
    change (crule_gettoken (str "( " ++ ?l)) with (CR_NOERR, CR_OPENPAREN, " "%char :: l).
    cbn beta iota. rewrite decide_False by (intros H; by apply H).
    destruct fuel as [|[|[|fuel]]]; [lia..|].
    rewrite (primary_paren _ (S n) a ta ra r tok r'); [by rewrite nots_S| |done|done|exact Hga].
    erewrite or_last; [|erewrite and_last; [|apply Ha; lia|done]; by rewrite finish_first|done].
    by rewrite finish_first.
Qed.

End roundtrip.

(** C35. What print_tree() prints for a rule parses back to the same rule. *)
Theorem crule_print_parse t :
  printable t -> exists s, print_tree t = Ok s /\ crule_parse s = Ok (Some t).
Proof.
  intros Ht. exists (show t). split; [by apply print_show|].
  destruct (primary_print t Ht [] CR_END [] eq_refl) as (tok0&r0&Hg&Hp).
  rewrite app_nil_r in Hg. unfold crule_parse, crule_parse_fuel. rewrite Hg.
  rewrite decide_False by (intros H; by apply H). pose proof (depth_show t Ht).
  assert (Hn := printable_nonnull _ Ht).
  replace (4 * S (length (show t)))%nat with (S (S (4 * length (show t) + 2))) by lia.
  unfold crule_parseorexpr.
  erewrite or_last; [|erewrite and_last; [|apply Hp; lia|done]; by rewrite finish_first|done].
  rewrite finish_first by done. cbn [mbind result_bind errcode root next_tok nots].
  by rewrite decide_True.
Qed.

(** Witness of [crule_print_parse]. *)
Lemma crule_print_parse_witness :
  print_tree sample_rule = Ok (str "( via(HUB.*,?.es) && !( directop() ) ) ") /\
  exists s, print_tree sample_rule = Ok s /\ crule_parse s = Ok (Some sample_rule).
Proof.
  split; [vm_compute; reflexivity|]. apply (crule_print_parse sample_rule).
  repeat split; repeat constructor; try reflexivity; try discriminate;
    apply (bool_decide_unpack _); vm_compute; exact I.
Defined.
