(* ===== verification/Dbuf.v ===== *)
(** Dynamic buffers: ircd/dbuf.c.

    The buffers of all the connections live in one heap and share one free
    list; a DBuf header points to its chain.  The model keeps the pointers: a
    location is a number and the heap a finite map.  ESNET_NEG, ZLIB_ESNET and
    FERGUSON_FLUSHER are not defined, so that dbuf_put() is dbuf_put2().
    [Inv] relates a header to the bytes it holds, and the theorems show that
    the operations implement a queue of bytes. *)

From S2P Require Import Prelude Common.

(** * Data *)

Definition DBUF_SIZE : nat := 2048.

Record DBufBuffer := mkBuffer {
  next : option nat;
  start : nat;               (* offsets into [data] *)
  end_ : nat;
  data : list ascii }.

Record DBuf := mkDBuf { length_ : nat; head : option nat; tail : option nat }.

(** The static variables of the file, and the memory. *)
Record pool := mkPool {
  heap : gmap nat DBufBuffer;
  dbufFreeList : option nat;
  DBufAllocCount : Z;
  DBufUsedCount : Z }.

(** The pointer [h] of dbuf_put2: [&dyn->head], [&dyn->tail] or [&db->next]. *)
Inductive slot := SHead | STail | SNext (l : nat).
#[export] Instance slot_eq_dec : EqDecision slot.
Proof. solve_decision. Defined.

Definition empty_dbuf : DBuf := mkDBuf 0 None None.

Section dbuf.

(** The configured size of the pool, and whether the n-th allocation of memory
    succeeds. *)
Variable BUFFERPOOL : Z.
Variable malloc_ok : Z -> bool.

Definition load (st : pool) (l : nat) : result DBufBuffer := of_option (heap st !! l).
Definition store (st : pool) (l : nat) (b : DBufBuffer) : pool :=
  mkPool (<[l := b]> (heap st)) (dbufFreeList st) (DBufAllocCount st) (DBufUsedCount st).

(** The contents of fresh memory are never read. *)
Definition fresh_buffer : DBufBuffer := mkBuffer None 0 0 (replicate DBUF_SIZE NUL).

Definition dbuf_alloc (st : pool) : result (pool * option nat) :=
  match dbufFreeList st with
  | Some l =>
      db ← load st l;
      Ok (mkPool (heap st) (next db) (DBufAllocCount st) (DBufUsedCount st + 1), Some l)
  | None =>
      if decide (DBufAllocCount st * Z.of_nat DBUF_SIZE < BUFFERPOOL) then
        if malloc_ok (DBufAllocCount st) then
          let l := fresh (dom (heap st)) in
          Ok (mkPool (<[l := fresh_buffer]> (heap st)) None (DBufAllocCount st + 1)
                (DBufUsedCount st + 1), Some l)
        else Ok (st, None)
      else Ok (st, None)
  end.

Definition dbuf_free (st : pool) (l : nat) : result pool :=
  db ← load st l;
  Ok (mkPool (<[l := mkBuffer (dbufFreeList st) (start db) (end_ db) (data db)]> (heap st))
        (Some l) (DBufAllocCount st) (DBufUsedCount st - 1)).

Fixpoint free_chain (fuel : nat) (st : pool) (db : option nat) : result pool :=
  match db with
  | None => Ok st
  | Some l =>
      match fuel with
      | O => Fuel
      | S fuel => b ← load st l; st ← dbuf_free st l; free_chain fuel st (next b)
      end
  end.

Definition dbuf_malloc_error (st : pool) (dyn : DBuf) : result (pool * DBuf * Z) :=
  st ← free_chain (size (heap st)) st (head dyn);
  Ok (st, empty_dbuf, 0).

Definition read_slot (st : pool) (dyn : DBuf) (h : slot) : result (option nat) :=
  match h with
  | SHead => Ok (head dyn)
  | STail => Ok (tail dyn)
  | SNext l => db ← load st l; Ok (next db)
  end.

Definition write_slot (st : pool) (dyn : DBuf) (h : slot) (v : option nat)
    : result (pool * DBuf) :=
  match h with
  | SHead => Ok (st, mkDBuf (length_ dyn) v (tail dyn))
  | STail => Ok (st, mkDBuf (length_ dyn) (head dyn) v)
  | SNext l =>
      db ← load st l;
      Ok (store st l (mkBuffer v (start db) (end_ db) (data db)), dyn)
  end.

(** [memcpy(db->end, buf, chunk)], for [chunk] bytes that fit. *)
Definition append (db : DBufBuffer) (bytes : list ascii) : result DBufBuffer :=
  if decide (end_ db + length bytes <= DBUF_SIZE)%nat then
    Ok (mkBuffer (next db) (start db) (end_ db + length bytes)
      (take (end_ db) (data db) ++ bytes ++ drop (end_ db + length bytes) (data db)))
  else Ub.

(** The buffer behind [h], allocated if there is none; [None] if it cannot be. *)
Definition put_buffer (st : pool) (dyn : DBuf) (h : slot) : result (pool * DBuf * option nat) :=
  o ← read_slot st dyn h;
  match o with
  | Some l => Ok (st, dyn, Some l)
  | None =>
      '(st, o) ← dbuf_alloc st;
      match o with
      | None => Ok (st, dyn, None)
      | Some l =>
          let dyn := mkDBuf (length_ dyn) (head dyn) (Some l) in
          '(st, dyn) ← write_slot st dyn h (Some l);
          db ← load st l;
          Ok (store st l (mkBuffer None 0 0 (data db)), dyn, Some l)
      end
  end.

Fixpoint put_loop (fuel : nat) (st : pool) (dyn : DBuf) (h : slot) (buf : list ascii)
    : result (pool * DBuf * Z) :=
  if decide (buf = []) then Ok (st, dyn, 1)
  else match fuel with
  | O => Fuel
  | S fuel =>
      '(st, dyn, o) ← put_buffer st dyn h;
      match o with
      | None => dbuf_malloc_error st dyn
      | Some l =>
          db ← load st l;
          let chunk := (DBUF_SIZE - end_ db)%nat in
          let chunk := if decide (length buf < chunk)%nat then length buf else chunk in
          db ← append db (take chunk buf);
          put_loop fuel (store st l db) dyn (SNext l) (drop chunk buf)
      end
  end.

Definition dbuf_put2 (st : pool) (dyn : DBuf) (buf : list ascii) : result (pool * DBuf * Z) :=
  let h := if decide (length_ dyn = 0%nat) then SHead else STail in
  let dyn := mkDBuf (length_ dyn + length buf) (head dyn) (tail dyn) in
  put_loop (S (length buf)) st dyn h buf.

Definition dbuf_put := dbuf_put2.

(** The bytes between [start] and [end]. *)
Definition content (db : DBufBuffer) : list ascii :=
  take (end_ db - start db) (drop (start db) (data db)).

(** The pointer dbuf_map returns stands for the bytes it gives access to. *)
Definition dbuf_map (st : pool) (dyn : DBuf) : result (option (list ascii)) :=
  if decide (length_ dyn = 0%nat) then Ok None
  else l ← of_option (head dyn); db ← load st l; Ok (Some (content db)).

Fixpoint delete_loop (fuel : nat) (st : pool) (dyn : DBuf) (length : nat)
    : result (pool * DBuf) :=
  if decide (length = 0%nat) then Ok (st, dyn)
  else match fuel with
  | O => Fuel
  | S fuel =>
      match head dyn with
      | None => Ok (st, dyn)
      | Some l =>
          db ← load st l;
          let chunk := (end_ db - start db)%nat in
          let chunk := if decide (length < chunk)%nat then length else chunk in
          let db := mkBuffer (next db) (start db + chunk) (end_ db) (data db) in
          let st := store st l db in
          let dyn := mkDBuf (length_ dyn - chunk) (head dyn) (tail dyn) in
          if decide (start db = end_ db) then
            st ← dbuf_free st l;
            delete_loop fuel st (mkDBuf (length_ dyn) (next db) (tail dyn)) (length - chunk)
          else delete_loop fuel st dyn (length - chunk)
      end
  end.

Definition dbuf_delete (st : pool) (dyn : DBuf) (length : nat) : result (pool * DBuf) :=
  let length := if decide (length_ dyn < length)%nat then length_ dyn else length in
  '(st, dyn) ← delete_loop (S length) st dyn length;
  match head dyn with
  | None => Ok (st, mkDBuf 0 None None)
  | Some _ => Ok (st, dyn)
  end.

(** The bytes copied to the caller's buffer are returned. *)
Fixpoint get_loop (fuel : nat) (st : pool) (dyn : DBuf) (length : nat) (moved : list ascii)
    : result (pool * DBuf * list ascii) :=
  if decide (length = 0%nat) then Ok (st, dyn, moved)
  else match fuel with
  | O => Fuel
  | S fuel =>
      o ← dbuf_map st dyn;
      match o with
      | None => Ok (st, dyn, moved)
      | Some b =>
          let b := take length b in
          '(st, dyn) ← dbuf_delete st dyn (List.length b);
          get_loop fuel st dyn (length - List.length b) (moved ++ b)
      end
  end.

Definition dbuf_get (st : pool) (dyn : DBuf) (length : nat)
    : result (pool * DBuf * list ascii) := get_loop length st dyn length [].

Definition set_start (db : DBufBuffer) (s : nat) : DBufBuffer :=
  mkBuffer (next db) s (end_ db) (data db).

Fixpoint flush_loop (fuel : nat) (st : pool) (dyn : DBuf) (l : nat) : result (pool * DBuf) :=
  match fuel with
  | O => Fuel
  | S fuel =>
      db ← load st l;
      c ← rd (data db) (start db);
      if isEol c then
        let db := set_start db (S (start db)) in
        let st := store st l db in
        if decide (start db = end_ db) then
          st ← dbuf_free st l;
          match next db with
          | None => Ok (st, mkDBuf 0 None None)
          | Some l' => flush_loop fuel st (mkDBuf (length_ dyn - 1) (Some l') (tail dyn)) l'
          end
        else flush_loop fuel st (mkDBuf (length_ dyn - 1) (head dyn) (tail dyn)) l
      else Ok (st, dyn)
  end.

Definition dbuf_flush (st : pool) (dyn : DBuf) : result (pool * DBuf * nat) :=
  match head dyn with
  | None => Ok (st, dyn, 0%nat)
  | Some l =>
      '(st, dyn) ← flush_loop (S (length_ dyn)) st dyn l;
      Ok (st, dyn, length_ dyn)
  end.

(** [while (start < end && !isEol( *start)) *buf++ = *start++;] *)
Fixpoint to_eol (bytes : list ascii) : list ascii :=
  match bytes with
  | [] => []
  | c :: bytes => if isEol c then [] else c :: to_eol bytes
  end.

(** The scan for the end of a line; the text copied so far and the number of
    bytes it has are [text].  [None]: no line ends within the bytes allowed. *)
Fixpoint getmsg_loop (fuel : nat) (st : pool) (l : nat) (length : nat) (text : list ascii)
    : result (option (list ascii)) :=
  if decide (length = 0%nat) then Ok None
  else match fuel with
  | O => Fuel
  | S fuel =>
      db ← load st l;
      let window := take length (content db) in
      let line := to_eol window in
      if decide (List.length line < List.length window)%nat then Ok (Some (text ++ line))
      else match next db with
      | None => Ok None
      | Some l' => getmsg_loop fuel st l' (length - List.length line) (text ++ line)
      end
  end.

(** [None] is the value 0; otherwise the line, which the caller's buffer
    receives with a terminator. *)
Definition dbuf_getmsg (st : pool) (dyn : DBuf) (length : nat)
    : result (pool * DBuf * option (list ascii)) :=
  '(st, dyn, left_) ← dbuf_flush st dyn;
  if decide (left_ = 0%nat) then Ok (st, dyn, None)
  else
    l ← of_option (head dyn);
    let length := if decide (length_ dyn < length)%nat then length_ dyn else length in
    o ← getmsg_loop length st l length [];
    match o with
    | None => Ok (st, dyn, None)
    | Some text =>
        '(st, dyn) ← dbuf_delete st dyn (List.length text);
        '(st, dyn, _) ← dbuf_flush st dyn;
        Ok (st, dyn, Some text)
    end.

End dbuf.

(** * Representation *)

Section rep.

Implicit Types (st : pool) (dyn : DBuf) (h : gmap nat DBufBuffer) (l : nat) (b : DBufBuffer)
  (bs fs : list (nat * DBufBuffer)).

(** The buffers met from the pointer [o] to the pointer [e]. *)
Fixpoint seg h (o : option nat) bs (e : option nat) : Prop :=
  match bs with
  | [] => o = e
  | (l, b) :: bs => o = Some l /\ h !! l = Some b /\ seg h (next b) bs e
  end.

Definition locs bs : list nat := map fst bs.
Definition stream bs : list ascii := concat (map (fun p => content p.2) bs).

Definition buf_ok b : Prop :=
  (start b < end_ b <= DBUF_SIZE)%nat /\ length (data b) = DBUF_SIZE.

(** A chain of buffers that hold something, a free list apart from it, and the
    two counters. *)
Record chain_ok st dyn bs fs : Prop := {
  ck_chain : seg (heap st) (head dyn) bs None;
  ck_free : seg (heap st) (dbufFreeList st) fs None;
  ck_nodup : NoDup (locs bs ++ locs fs);
  ck_bufs : Forall (fun p => buf_ok p.2) bs;
  ck_frees : Forall (fun p => length (data p.2) = DBUF_SIZE) fs;
  ck_tail : bs <> [] -> tail dyn = last (locs bs);
  ck_count : DBufAllocCount st = DBufUsedCount st + Z.of_nat (length fs) }.

(** The invariant of a header: the chain holds as many bytes as it says. *)
Definition Inv st dyn bs fs : Prop :=
  chain_ok st dyn bs fs /\ length_ dyn = length (stream bs).

(** What an operation on one header leaves alone: the memory of the others. *)
Definition keeps st bs fs st' bs' fs' : Prop :=
  (forall l b, heap st !! l = Some b -> l ∉ locs bs ++ locs fs -> heap st' !! l = Some b) /\
  (forall l, l ∈ locs bs' ++ locs fs' -> l ∈ locs bs ++ locs fs \/ heap st !! l = None).

Lemma keeps_refl st bs fs : keeps st bs fs st bs fs.
Proof. split; auto. Qed.

Lemma keeps_trans st1 bs1 fs1 st2 bs2 fs2 st3 bs3 fs3 :
  keeps st1 bs1 fs1 st2 bs2 fs2 -> keeps st2 bs2 fs2 st3 bs3 fs3 ->
  keeps st1 bs1 fs1 st3 bs3 fs3.
Proof.
  intros [A1 B1] [A2 B2]. split.
  - intros l b Hl Hn. apply A2; [by apply A1|]. intros [?|?]%B1; [done|congruence].
  - intros l [Hl|Hl]%B2; [by apply B1|].
    destruct (decide (l ∈ locs bs1 ++ locs fs1)); [by left|right].
    destruct (heap st1 !! l) as [b|] eqn:E; [|done]. apply A1 in E; [congruence|done].
Qed.

Lemma keeps_perm st bs fs bs' fs' st' :
  locs bs' ++ locs fs' ≡ₚ locs bs ++ locs fs ->
  (forall l, l ∉ locs bs ++ locs fs -> heap st' !! l = heap st !! l) ->
  keeps st bs fs st' bs' fs'.
Proof.
  intros Hp Hh. split; [intros l b Hl Hn; by rewrite Hh|].
  intros l Hl. left. by rewrite <- Hp.
Qed.

(** Another chain, disjoint from the one operated on, survives. *)
Lemma keeps_seg st bs fs st' bs' fs' o bs2 e :
  keeps st bs fs st' bs' fs' -> seg (heap st) o bs2 e ->
  (forall l, l ∈ locs bs2 -> l ∉ locs bs ++ locs fs) -> seg (heap st') o bs2 e.
Proof.
  intros [Hk _]. revert o. induction bs2 as [|[l b] bs2 IH]; intros o; [done|].
  intros (->&Hl&Hs) Hd. simpl. split_and!; [done| |].
  - apply Hk; [done|]. apply Hd. by left.
  - apply IH; [done|]. intros l' Hl'. apply Hd. by right.
Qed.

Lemma seg_app h o bs1 bs2 e :
  seg h o (bs1 ++ bs2) e <-> exists m, seg h o bs1 m /\ seg h m bs2 e.
Proof.
  revert o. induction bs1 as [|[l b] bs1 IH]; intros o; simpl.
  - split; [by eexists|]. by intros (m&->&?).
  - rewrite IH. naive_solver.
Qed.

Lemma seg_insert h o bs e l b : l ∉ locs bs -> seg h o bs e -> seg (<[l := b]> h) o bs e.
Proof.
  revert o. induction bs as [|[l' b'] bs IH]; intros o; [done|].
  intros Hl (->&Hl'&Hs). apply not_elem_of_cons in Hl as [Hne Hl]. simpl in Hne.
  split_and!; [done|by rewrite lookup_insert_ne|by apply IH].
Qed.

Lemma locs_app bs1 bs2 : locs (bs1 ++ bs2) = locs bs1 ++ locs bs2.
Proof. apply map_app. Qed.

Lemma stream_app bs1 bs2 : stream (bs1 ++ bs2) = stream bs1 ++ stream bs2.
Proof. unfold stream. by rewrite map_app, concat_app. Qed.

Lemma stream_cons l b bs : stream ((l, b) :: bs) = content b ++ stream bs.
Proof. done. Qed.

Lemma length_content b : buf_ok b -> length (content b) = (end_ b - start b)%nat.
Proof. intros [? Hl]. unfold content. rewrite length_take, length_drop, Hl. lia. Qed.

Lemma load_seg st o l b bs e : seg (heap st) o ((l, b) :: bs) e -> load st l = Ok b.
Proof. intros (_&Hl&_). unfold load. by rewrite Hl. Qed.

Lemma content_set_start b n :
  (start b + n <= end_ b)%nat -> content (set_start b (start b + n)) = drop n (content b).
Proof.
  intros Hn. unfold content, set_start. simpl. rewrite skipn_firstn_comm, drop_drop.
  f_equal. lia.
Qed.

(** Consuming bytes of the first buffer, but not all of them. *)
Lemma shrink_spec st dyn l b bs fs n :
  Inv st dyn ((l, b) :: bs) fs -> (start b + n < end_ b)%nat ->
  let b' := set_start b (start b + n) in
  let st' := store st l b' in
  let dyn' := mkDBuf (length_ dyn - n) (head dyn) (tail dyn) in
  Inv st' dyn' ((l, b') :: bs) fs /\ keeps st ((l, b) :: bs) fs st' ((l, b') :: bs) fs /\
  stream ((l, b') :: bs) = drop n (stream ((l, b) :: bs)).
Proof.
  intros [[Hc Hf Hnd Hb Hfr Ht Hn] Hlen] Hlt b' st' dyn'.
  apply Forall_cons in Hb as [Hbok Hb]. simpl in Hbok.
  assert (Hst : stream ((l, b') :: bs) = drop n (stream ((l, b) :: bs))).
  { rewrite !stream_cons. unfold b'. rewrite content_set_start by lia.
    rewrite drop_app_le; [done|]. rewrite length_content by done. lia. }
  simpl in Hnd. apply NoDup_cons in Hnd as [Hnin Hnd].
  apply not_elem_of_app in Hnin as [Hnb Hnf]. destruct Hc as (Hh&Hl&Hs).
  split_and!; [|apply keeps_perm; [done|]|done].
  - split.
    + constructor; simpl; try done.
      * split_and!; [done|by rewrite lookup_insert_eq|by apply seg_insert].
      * by apply seg_insert.
      * constructor; [|done]. by apply not_elem_of_app.
      * constructor; [|done]. destruct Hbok. split; simpl; [lia|done].
      * intros _. by apply Ht.
    + rewrite Hst. simpl. rewrite length_drop, Hlen. done.
  - intros l' Hl'. simpl. rewrite lookup_insert_ne; [done|]. intros ->. apply Hl'. by left.
Qed.

(** Freeing the first buffer, whatever its [start] has become. *)
Lemma free_spec st dyn l b bs fs s :
  Inv st dyn ((l, b) :: bs) fs ->
  let st1 := store st l (set_start b s) in
  exists st' fs', dbuf_free st1 l = Ok st' /\
    Inv st' (mkDBuf (length_ dyn - length (content b)) (next b) (tail dyn)) bs fs' /\
    keeps st ((l, b) :: bs) fs st' bs fs' /\ DBufAllocCount st' = DBufAllocCount st.
Proof.
  intros [[Hc Hf Hnd Hb Hfr Ht Hn] Hlen] st1.
  apply Forall_cons in Hb as [Hbok Hb]. simpl in Hbok.
  simpl in Hnd. apply NoDup_cons in Hnd as [Hnin Hnd].
  assert (Hnin' := Hnin). apply not_elem_of_app in Hnin' as [Hnb Hnf].
  destruct Hc as (Hh&Hl&Hs). unfold dbuf_free, load, st1. simpl. rewrite lookup_insert_eq. simpl.
  set (b' := mkBuffer (dbufFreeList st) s (end_ b) (data b)).
  eexists _, ((l, b') :: fs). split; [reflexivity|]. split_and!; [split|apply keeps_perm|done].
  - constructor; simpl; try done.
    + rewrite insert_insert_eq. by apply seg_insert.
    + rewrite insert_insert_eq, lookup_insert_eq. split_and!; [done..|]. by apply seg_insert.
    + apply NoDup_app in Hnd as (Hd1&Hd2&Hd3). apply NoDup_app. split_and!; [done| |].
      * intros l' Hl'. apply not_elem_of_cons. split; [by intros ->|by apply Hd2].
      * by constructor.
    + constructor; [|done]. simpl. by destruct Hbok.
    + intros Hne. rewrite Ht by done. by destruct bs as [|[]].
    + lia.
  - simpl. rewrite Hlen, stream_cons, length_app. lia.
  - simpl. by rewrite <- Permutation_middle.
  - intros l' Hl'. simpl. rewrite insert_insert_eq, lookup_insert_ne; [done|].
    intros ->. apply Hl'. by left.
Qed.

Lemma Inv_nil st dyn fs : Inv st dyn [] fs -> head dyn = None /\ length_ dyn = 0%nat.
Proof. intros [[Hc _ _ _ _ _ _] Hl]. done. Qed.

Lemma Inv_empty st dyn fs : Inv st dyn [] fs -> Inv st empty_dbuf [] fs.
Proof. intros [[Hc ? ? ? ? ? ?] ?]. split; [|done]. by constructor. Qed.

(** * Taking bytes out *)

Lemma delete_loop_0 fuel st dyn : delete_loop fuel st dyn 0 = Ok (st, dyn).
Proof. by destruct fuel. Qed.

Lemma delete_loop_spec fuel st dyn bs fs n :
  Inv st dyn bs fs -> (n <= length (stream bs))%nat -> (n <= fuel)%nat ->
  exists st' dyn' bs' fs', delete_loop fuel st dyn n = Ok (st', dyn') /\
    Inv st' dyn' bs' fs' /\ keeps st bs fs st' bs' fs' /\
    stream bs' = drop n (stream bs).
Proof.
  revert st dyn bs fs n. induction fuel as [|fuel IH]; intros st dyn bs fs n Hi Hn Hf.
  { assert (n = 0%nat) as -> by lia. exists st, dyn, bs, fs.
    split_and!; auto using keeps_refl. }
  destruct (decide (n = 0%nat)) as [->|Hn0].
  { exists st, dyn, bs, fs. rewrite delete_loop_0. split_and!; auto using keeps_refl. }
  cbn [delete_loop]. rewrite decide_False by done.
  destruct bs as [|[l b] bs]; [simpl in Hn; lia|].
  assert (Hhd : head dyn = Some l) by (destruct Hi as [[[? _] _ _ _ _ _ _] _]; done).
  assert (Hbok : buf_ok b) by (destruct Hi as [[_ _ _ Hb _ _ _] _]; by apply Forall_cons in Hb as []).
  assert (Hload : load st l = Ok b) by (destruct Hi as [[Hc _ _ _ _ _ _] _]; by eapply load_seg).
  rewrite Hhd, Hload. cbn [mbind result_bind].
  assert (Hlc := length_content b Hbok). assert (Hse := proj1 Hbok).
  rewrite stream_cons, length_app in Hn. destruct (decide (n < end_ b - start b)%nat) as [Hc|Hc].
  - fold (set_start b (start b + n)). rewrite decide_False by (simpl; lia).
    destruct (shrink_spec st dyn l b bs fs n) as (Hi'&Hk&Hs); [done|lia|].
    rewrite Nat.sub_diag, delete_loop_0, <- Hhd.
    eexists _, _, _, _. split; [reflexivity|]. split_and!; done.
  - replace (start b + (end_ b - start b))%nat with (end_ b) by lia.
    fold (set_start b (end_ b)). rewrite decide_True by done.
    destruct (free_spec st dyn l b bs fs (end_ b)) as (st'&fs'&->&Hi'&Hk&_); [done|].
    cbn [mbind result_bind length_ tail next set_start]. rewrite Hlc in Hi'.
    destruct (IH _ _ _ _ (n - (end_ b - start b))%nat Hi') as (st2&dyn2&bs2&fs2&->&Hi2&Hk2&Hs2);
      [lia..|].
    exists st2, dyn2, bs2, fs2. split_and!; [done..|by eapply keeps_trans|].
    rewrite Hs2, stream_cons, drop_app_ge by lia. by rewrite Hlc.
Qed.

(** [dbuf_delete] drops the first bytes of the queue. *)
Lemma delete_spec st dyn bs fs n :
  Inv st dyn bs fs ->
  exists st' dyn' bs' fs', dbuf_delete st dyn n = Ok (st', dyn') /\
    Inv st' dyn' bs' fs' /\ keeps st bs fs st' bs' fs' /\
    stream bs' = drop n (stream bs).
Proof.
  intros Hi. unfold dbuf_delete. set (m := if decide _ then _ else n).
  assert (Hm : m = (n `min` length (stream bs))%nat).
  { unfold m. rewrite (proj2 Hi). case_decide; lia. }
  destruct (delete_loop_spec (S m) st dyn bs fs m Hi) as (st'&dyn'&bs'&fs'&->&Hi'&Hk&Hs); [lia..|].
  cbn [mbind result_bind].
  assert (Hd : drop m (stream bs) = drop n (stream bs)).
  { rewrite Hm. destruct (decide (n <= length (stream bs))%nat).
    - by rewrite Nat.min_l.
    - rewrite Nat.min_r, !drop_ge by lia. done. }
  rewrite Hd in Hs. destruct bs' as [|[l b] bs'].
  - destruct (Inv_nil _ _ _ Hi') as [-> _]. eexists _, _, [], _. split; [reflexivity|].
    split_and!; [by eapply Inv_empty|done..].
  - destruct (head dyn') eqn:E; [by eexists _, _, _, _|].
    destruct Hi' as [[[Hh _] _ _ _ _ _ _] _]. congruence.
Qed.

(** [dbuf_map] shows a non-empty prefix of the queue. *)
Lemma map_spec st dyn bs fs :
  Inv st dyn bs fs ->
  (stream bs = [] /\ dbuf_map st dyn = Ok None) \/
  (exists c r, stream bs = c ++ r /\ c <> [] /\ dbuf_map st dyn = Ok (Some c)).
Proof.
  intros [[Hc _ _ Hb _ _ _] Hl]. unfold dbuf_map. rewrite Hl.
  destruct bs as [|[l b] bs]; [by left|]. right. destruct Hc as (->&Hlk&_).
  apply Forall_cons in Hb as [Hb _]. exists (content b), (stream bs).
  assert (Hlc := length_content b Hb). destruct Hb as [Hb _]. simpl in Hb.
  rewrite decide_False by (rewrite stream_cons, length_app; lia). unfold load. simpl.
  rewrite Hlk. split_and!; [done|intros E; rewrite E in Hlc; simpl in Hlc; lia|done].
Qed.

Lemma get_loop_spec fuel st dyn bs fs n moved :
  Inv st dyn bs fs -> (n <= fuel)%nat ->
  exists st' dyn' bs' fs', get_loop fuel st dyn n moved =
      Ok (st', dyn', moved ++ take n (stream bs)) /\
    Inv st' dyn' bs' fs' /\ keeps st bs fs st' bs' fs' /\
    stream bs' = drop n (stream bs).
Proof.
  revert st dyn bs fs n moved. induction fuel as [|fuel IH]; intros st dyn bs fs n moved Hi Hf.
  { assert (n = 0%nat) as -> by lia. exists st, dyn, bs, fs. rewrite app_nil_r.
    split_and!; auto using keeps_refl. }
  cbn [get_loop]. destruct (decide (n = 0%nat)) as [->|Hn0].
  { exists st, dyn, bs, fs. rewrite app_nil_r. split_and!; auto using keeps_refl. }
  destruct (map_spec st dyn bs fs Hi) as [[Es ->]|(c&r&Es&Hc&->)]; cbn [mbind result_bind].
  { exists st, dyn, bs, fs. rewrite Es, take_nil, drop_nil, app_nil_r. split_and!; auto using keeps_refl. }
  set (k := List.length (take n c)). assert (Hk : k = (n `min` length c)%nat) by apply length_take.
  assert (length c <> 0%nat) by by destruct c.
  destruct (delete_spec st dyn bs fs k Hi) as (st1&dyn1&bs1&fs1&->&Hi1&Hk1&Hs1).
  cbn [mbind result_bind].
  destruct (IH st1 dyn1 bs1 fs1 (n - k)%nat (moved ++ take n c) Hi1)
    as (st2&dyn2&bs2&fs2&->&Hi2&Hk2&Hs2); [lia|].
  exists st2, dyn2, bs2, fs2. split_and!; [|done|by eapply keeps_trans|].
  - do 2 f_equal. rewrite Hs1, <- app_assoc. f_equal. rewrite Es.
    destruct (decide (n <= length c)%nat).
    + rewrite (take_app_le c) by done. replace (n - k)%nat with 0%nat by lia.
      by rewrite take_0, app_nil_r.
    + rewrite (take_ge c) by lia. replace k with (length c) by lia.
      rewrite drop_app_length, take_app_ge by lia. done.
  - rewrite Hs2, Hs1, drop_drop. f_equal. lia.
Qed.

(** * Lines *)

Fixpoint drop_eol (q : list ascii) : list ascii :=
  match q with [] => [] | c :: r => if isEol c then drop_eol r else c :: r end.

Lemma content_cons b :
  buf_ok b -> exists c, rd (data b) (start b) = Ok c /\
    content b = c :: content (set_start b (S (start b))).
Proof.
  intros [Hs Hl]. destruct (rd_lt (data b) (start b)) as (c&Hr&Hc); [lia|].
  exists c. split; [done|]. unfold content, set_start. simpl.
  rewrite (drop_S _ _ _ Hc). replace (end_ b - start b)%nat with (S (end_ b - S (start b)))%nat by lia.
  done.
Qed.

Lemma content_empty b : (end_ b <= start b)%nat -> content b = [].
Proof. intros H. unfold content. by replace (end_ b - start b)%nat with 0%nat by lia. Qed.

Lemma flush_loop_spec fuel st dyn l b bs fs :
  Inv st dyn ((l, b) :: bs) fs -> (length (stream ((l, b) :: bs)) < fuel)%nat ->
  exists st' dyn' bs' fs', flush_loop fuel st dyn l = Ok (st', dyn') /\
    Inv st' dyn' bs' fs' /\ keeps st ((l, b) :: bs) fs st' bs' fs' /\
    stream bs' = drop_eol (stream ((l, b) :: bs)).
Proof.
  revert st dyn l b bs fs. induction fuel as [|fuel IH]; intros st dyn l b bs fs Hi Hf; [lia|].
  assert (Hbok : buf_ok b) by (destruct Hi as [[_ _ _ Hb _ _ _] _]; by apply Forall_cons in Hb as []).
  assert (Hload : load st l = Ok b) by (destruct Hi as [[Hc _ _ _ _ _ _] _]; by eapply load_seg).
  assert (Hhd : head dyn = Some l) by (destruct Hi as [[[? _] _ _ _ _ _ _] _]; done).
  destruct (content_cons b Hbok) as (c&Hr&Hc).
  cbn [flush_loop]. rewrite Hload. cbn [mbind result_bind]. rewrite Hr. cbn [mbind result_bind].
  destruct (isEol c) eqn:Ec; cycle 1.
  { exists st, dyn, ((l, b) :: bs), fs. split_and!; auto using keeps_refl.
    rewrite stream_cons, Hc. simpl. by rewrite Ec. }
  assert (Hst : drop_eol (stream ((l, b) :: bs)) =
    drop_eol (content (set_start b (S (start b))) ++ stream bs)).
  { rewrite stream_cons, Hc. simpl. by rewrite Ec. }
  rewrite Hst. rewrite stream_cons, Hc in Hf. cbn [app length] in Hf.
  cbn [set_start start end_ next]. case_decide as Ee.
  - destruct (free_spec st dyn l b bs fs (S (start b))) as (st'&fs'&Hfree&Hi'&Hk&_); [done|].
    rewrite Hfree. cbn [mbind result_bind].
    rewrite Hc, (content_empty (set_start b _)) in Hi' by (simpl; lia).
    rewrite (content_empty (set_start b _)) in Hf |- * by (simpl; lia).
    simpl in Hi'. destruct bs as [|[l' b'] bs].
    + destruct Hi' as [Hck Hlen]. assert (Hn : next b = None) by apply Hck. rewrite Hn.
      exists st', (mkDBuf 0 None None), [], fs'. split_and!; [done| |done..].
      apply (Inv_empty st' _ fs' (conj Hck Hlen)).
    + assert (Hn : next b = Some l') by (destruct Hi' as [[[? _] _ _ _ _ _ _] _]; done).
      rewrite Hn in Hi' |- *.
      destruct (IH _ _ _ _ _ _ Hi') as (st2&dyn2&bs2&fs2&->&Hi2&Hk2&Hs2); [simpl in *; lia|].
      exists st2, dyn2, bs2, fs2. split_and!; [done..|by eapply keeps_trans|done].
  - destruct (shrink_spec st dyn l b bs fs 1 Hi) as (Hi'&Hk&Hs); [destruct Hbok; lia|].
    rewrite Nat.add_1_r in Hi', Hk, Hs.
    destruct (IH _ _ _ _ _ _ Hi') as (st2&dyn2&bs2&fs2&Hfl&Hi2&Hk2&Hs2).
    { rewrite stream_cons. lia. }
    rewrite Hfl. exists st2, dyn2, bs2, fs2. split_and!; [done..|by eapply keeps_trans|done].
Qed.

Lemma flush_spec st dyn bs fs :
  Inv st dyn bs fs ->
  exists st' dyn' bs' fs', dbuf_flush st dyn = Ok (st', dyn', length_ dyn') /\
    Inv st' dyn' bs' fs' /\ keeps st bs fs st' bs' fs' /\
    stream bs' = drop_eol (stream bs).
Proof.
  intros Hi. unfold dbuf_flush. destruct bs as [|[l b] bs].
  - destruct (Inv_nil _ _ _ Hi) as [-> E]. exists st, dyn, [], fs. rewrite E.
    split_and!; auto using keeps_refl.
  - assert (Hhd : head dyn = Some l) by (destruct Hi as [[[? _] _ _ _ _ _ _] _]; done).
    rewrite Hhd. destruct (flush_loop_spec (S (length_ dyn)) st dyn l b bs fs Hi)
      as (st'&dyn'&bs'&fs'&->&?); [destruct Hi as [_ ->]; lia|].
    cbn [mbind result_bind]. by exists st', dyn', bs', fs'.
Qed.

Lemma to_eol_app w r :
  to_eol (w ++ r) = if decide (length (to_eol w) < length w)%nat then to_eol w else w ++ to_eol r.
Proof.
  induction w as [|c w IH]; [done|]. simpl. destruct (isEol c); [done|]. rewrite IH. simpl.
  repeat case_decide; try done; lia.
Qed.

Lemma length_to_eol w : (length (to_eol w) <= length w)%nat.
Proof. induction w as [|c w IH]; simpl; [done|]. destruct (isEol c); simpl; lia. Qed.

Lemma to_eol_full w : ~ (length (to_eol w) < length w)%nat -> to_eol w = w.
Proof.
  induction w as [|c w IH]; [done|]. simpl. destruct (isEol c); simpl; [lia|].
  intros H. f_equal. apply IH. lia.
Qed.

(** A line among the first [n] bytes *)
Definition line_within (n : nat) (q : list ascii) : option (list ascii) :=
  let w := take n q in
  if decide (length (to_eol w) < length w)%nat then Some (to_eol w) else None.

Lemma line_within_app n c r :
  line_within n (c ++ r) =
  let line := to_eol (take n c) in
  if decide (length line < length (take n c))%nat then Some line
  else app line <$> line_within (n - length line) r.
Proof.
  unfold line_within. rewrite take_app, to_eol_app. simpl.
  destruct (decide (length (to_eol (take n c)) < length (take n c))%nat) as [E|E]; [rewrite decide_True; [done|rewrite length_app; lia]|].
  pose proof (length_to_eol (take n c)).
  assert (Ew : to_eol (take n c) = take n c).
  { by apply to_eol_full. }
  rewrite !Ew. rewrite !length_app.
  assert (take (n - length (take n c)) r = take (n - length c) r) as ->.
  { rewrite length_take. destruct (decide (n <= length c)%nat); f_equal; lia. }
  repeat case_decide; try done; lia.
Qed.

Lemma getmsg_loop_spec fuel st l b bs n text :
  seg (heap st) (Some l) ((l, b) :: bs) None -> Forall (fun p => buf_ok p.2) ((l, b) :: bs) ->
  (n <= fuel)%nat ->
  getmsg_loop fuel st l n text = Ok (app text <$> line_within n (stream ((l, b) :: bs))).
Proof.
  revert l b bs n text. induction fuel as [|fuel IH]; intros l b bs n text Hs Hb Hf.
  { assert (n = 0%nat) as -> by lia. done. }
  cbn [getmsg_loop]. destruct (decide (n = 0%nat)) as [->|Hn0]; [done|].
  rewrite (load_seg _ _ _ _ _ _ Hs). cbn [mbind result_bind].
  rewrite stream_cons, line_within_app. cbv zeta. case_decide as E; [done|].
  assert (Hlc := length_content b). apply Forall_cons in Hb as [Hb Hbs]. specialize (Hlc Hb).
  destruct Hs as (_&_&Hs). destruct bs as [|[l' b'] bs].
  - simpl in Hs. rewrite Hs. unfold line_within. change (stream []) with (@nil ascii). rewrite take_nil. done.
  - assert (Hn : next b = Some l') by (by destruct Hs). rewrite Hn in Hs |- *.
    pose proof (length_to_eol (take n (content b))).
    rewrite (IH l' b' bs); [|done|done|].
    + f_equal. destruct (line_within _ _); simpl; [by rewrite <- app_assoc|done].
    + destruct Hb as [Hb _]. simpl in Hb. rewrite length_take in *. lia.
Qed.

Lemma drop_eol_head q : match drop_eol q with [] => True | c :: _ => isEol c = false end.
Proof. induction q as [|c q IH]; simpl; [done|]. by destruct (isEol c) eqn:E. Qed.

Lemma to_eol_line line r :
  Forall (fun c => isEol c = false) line -> to_eol (line ++ r) = line ++ to_eol r.
Proof. induction 1 as [|c line Hc _ IH]; [done|]. simpl. by rewrite Hc, IH. Qed.

Lemma to_eol_no_eol w : Forall (fun c => isEol c = false) (to_eol w).
Proof. induction w as [|c w IH]; simpl; [done|]. destruct (isEol c) eqn:E; by constructor. Qed.

Lemma to_eol_split w :
  (length (to_eol w) < length w)%nat -> exists c r, w = to_eol w ++ c :: r /\ isEol c = true.
Proof.
  induction w as [|c w IH]; simpl; [lia|]. destruct (isEol c) eqn:E; [by exists c, w|].
  simpl. intros H. destruct IH as (d&r&Hw&Hd); [lia|]. exists d, r. by rewrite <- Hw.
Qed.

Lemma line_within_Some n q line :
  line_within n q = Some line ->
  (length line < n)%nat /\ Forall (fun c => isEol c = false) line /\
  exists c r, q = line ++ c :: r /\ isEol c = true.
Proof.
  unfold line_within. case_decide as E; intros [= <-]. split_and!.
  - rewrite length_take in E. lia.
  - apply to_eol_no_eol.
  - destruct (to_eol_split _ E) as (c&r&Hw&Hc). exists c, (r ++ drop n q). split; [|done].
    rewrite <- (take_drop n q) at 1. rewrite Hw at 1. by rewrite <- app_assoc.
Qed.

(** What reading a line does to the queue *)
Definition next_line (n : nat) (q : list ascii) : option (list ascii) * list ascii :=
  match line_within n (drop_eol q) with
  | Some line => (Some line, drop_eol (drop (length line) (drop_eol q)))
  | None => (None, drop_eol q)
  end.

Lemma line_within_min n q : line_within (n `min` length q) q = line_within n q.
Proof.
  unfold line_within. destruct (decide (n <= length q)%nat).
  - by rewrite Nat.min_l.
  - by rewrite Nat.min_r, !take_ge by lia.
Qed.

Lemma getmsg_spec st dyn bs fs n :
  Inv st dyn bs fs ->
  exists st' dyn' bs' fs',
    dbuf_getmsg st dyn n = Ok (st', dyn', fst (next_line n (stream bs))) /\
    Inv st' dyn' bs' fs' /\ keeps st bs fs st' bs' fs' /\
    stream bs' = snd (next_line n (stream bs)).
Proof.
  intros Hi. unfold dbuf_getmsg, next_line.
  destruct (flush_spec st dyn bs fs Hi) as (st1&dyn1&bs1&fs1&->&Hi1&Hk1&Hs1).
  cbn [mbind result_bind]. rewrite <- Hs1. rewrite (proj2 Hi1).
  destruct bs1 as [|[l b] bs1].
  { rewrite decide_True by done. exists st1, dyn1, [], fs1.
    change (stream []) with (@nil ascii). unfold line_within. rewrite take_nil. by split_and!. }
  assert (Hck := proj1 Hi1). destruct Hck as [Hc _ _ Hb _ _ _].
  assert (Hhd : head dyn1 = Some l) by (by destruct Hc). rewrite Hhd in Hc |- *.
  assert (Hpos : (0 < length (stream ((l, b) :: bs1)))%nat).
  { assert (Hbb := Hb). apply Forall_cons in Hbb as [Hbb _].
    rewrite stream_cons, length_app, length_content by done. destruct Hbb. simpl in *. lia. }
  rewrite decide_False by lia. cbn [of_option mbind result_bind].
  set (m := if decide _ then _ else n).
  assert (Hm : m = (n `min` length (stream ((l, b) :: bs1)))%nat).
  { unfold m. case_decide; lia. }
  rewrite (getmsg_loop_spec m st1 l b bs1 m []) by done. cbn [mbind result_bind].
  rewrite Hm, line_within_min.
  destruct (line_within n (stream ((l, b) :: bs1))) as [line|]; simpl fmap; cbn [option_map].
  - destruct (delete_spec st1 dyn1 _ fs1 (length line) Hi1) as (st2&dyn2&bs2&fs2&Hd&Hi2&Hk2&Hs2).
    simpl. rewrite Hd. cbn [mbind result_bind].
    destruct (flush_spec st2 dyn2 bs2 fs2 Hi2) as (st3&dyn3&bs3&fs3&->&Hi3&Hk3&Hs3).
    cbn [mbind result_bind]. exists st3, dyn3, bs3, fs3. split_and!; [done..| |].
    + eapply keeps_trans; [exact Hk1|]. by eapply keeps_trans.
    + simpl. by rewrite Hs3, Hs2.
  - exists st1, dyn1, ((l, b) :: bs1), fs1. by split_and!.
Qed.

(** * Putting bytes in *)

Lemma store_store st l b1 b2 : store (store st l b1) l b2 = store st l b2.
Proof. unfold store. simpl. by rewrite insert_insert_eq. Qed.

Lemma store_id st l b : heap st !! l = Some b -> store st l b = st.
Proof. intros H. unfold store. rewrite insert_id by done. by destruct st. Qed.

Lemma load_store st l b : load (store st l b) l = Ok b.
Proof. unfold load, store. simpl. by rewrite lookup_insert_eq. Qed.

Lemma seg_in_dom h o bs e l : seg h o bs e -> l ∈ locs bs -> is_Some (h !! l).
Proof.
  revert o. induction bs as [|[l' b] bs IH]; intros o; [by intros _ ?%elem_of_nil|].
  intros (->&Hl&Hs) [->|Hin]%elem_of_cons; [by eexists|by eapply IH].
Qed.

Lemma seg_size h o bs e : seg h o bs e -> NoDup (locs bs) -> (length bs <= size h)%nat.
Proof.
  intros Hs Hnd. rewrite <- size_dom.
  transitivity (size (list_to_set (locs bs) : gset nat)).
  - rewrite size_list_to_set by done. unfold locs. by rewrite length_map.
  - apply subseteq_size. intros l Hl%elem_of_list_to_set. apply elem_of_dom. by eapply seg_in_dom.
Qed.

Lemma free_chain_spec fuel st dyn bs fs :
  chain_ok st dyn bs fs -> (length bs <= fuel)%nat ->
  exists st' fs', free_chain fuel st (head dyn) = Ok st' /\
    chain_ok st' empty_dbuf [] fs' /\ keeps st bs fs st' [] fs' /\
    DBufAllocCount st' = DBufAllocCount st.
Proof.
  revert st dyn bs fs. induction fuel as [|fuel IH]; intros st dyn bs fs Hc Hf;
    destruct bs as [|[l b] bs]; simpl in Hf; try lia.
  1,2: assert (head dyn = None) as -> by apply Hc; exists st, fs; (split; [done|]);
    (split; [by destruct Hc; constructor|by split; [apply keeps_refl|]]).
  assert (Hhd : head dyn = Some l) by (destruct Hc as [[? _] _ _ _ _ _ _]; done).
  assert (Hl : heap st !! l = Some b) by apply Hc.
  rewrite Hhd. cbn [free_chain]. unfold load. rewrite Hl. cbn [of_option mbind result_bind].
  destruct (free_spec st (mkDBuf (length (stream ((l, b) :: bs))) (head dyn) (tail dyn)) l b bs fs
    (start b)) as (st'&fs'&Hfr&Hi'&Hk&Hac); [split; [|done]; destruct Hc; by constructor|].
  rewrite store_id in Hfr by (by destruct b). rewrite Hfr. cbn [mbind result_bind].
  destruct (IH st' _ bs fs' (proj1 Hi')) as (st2&fs2&Hfc&Hc2&Hk2&Hac2); [lia|].
  simpl in Hfc. exists st2, fs2. split_and!; [done..|by eapply keeps_trans|congruence].
Qed.

Section alloc.

Variable BUFFERPOOL : Z.
Variable malloc_ok : Z -> bool.

(** No buffer is free and none can be allocated. *)
Definition exhausted st : Prop :=
  BUFFERPOOL <= DBufAllocCount st * Z.of_nat DBUF_SIZE \/
  malloc_ok (DBufAllocCount st) = false.

Lemma alloc_spec st dyn bs fs :
  chain_ok st dyn bs fs ->
  (dbuf_alloc BUFFERPOOL malloc_ok st = Ok (st, None) /\ exhausted st) \/
  exists st' l b fs', dbuf_alloc BUFFERPOOL malloc_ok st = Ok (st', Some l) /\
    heap st' !! l = Some b /\ length (data b) = DBUF_SIZE /\ (l ∉ locs bs ++ locs fs') /\
    chain_ok st' dyn bs fs' /\ (forall l', l' <> l -> heap st' !! l' = heap st !! l') /\
    (l ∈ locs fs \/ heap st !! l = None) /\ (forall l', l' ∈ locs fs' -> l' ∈ locs fs).
Proof.
  intros [Hc Hf Hnd Hb Hfr Ht Hn]. unfold dbuf_alloc. destruct fs as [|[l b] fs].
  - simpl in Hf. rewrite Hf. case_decide as Ep; [|left; split; [done|left; lia]].
    destruct (malloc_ok (DBufAllocCount st)) eqn:Em; [right|left; split; [done|by right]].
    set (l := fresh (dom (heap st))).
    assert (Hl : heap st !! l = None) by (apply not_elem_of_dom, is_fresh).
    assert (Hlb : l ∉ locs bs).
    { intros Hin. eapply seg_in_dom in Hin as [? ?]; [|exact Hc]. congruence. }
    eexists _, l, fresh_buffer, []. split; [reflexivity|]. simpl. split_and!.
    + by rewrite lookup_insert_eq.
    + vm_compute; reflexivity.
    + by rewrite app_nil_r.
    + constructor; simpl in *; try done; [by apply seg_insert|lia].
    + intros l' Hne. by rewrite lookup_insert_ne.
    + by right.
    + done.
  - destruct Hf as (Hf&Hl&Hs). rewrite Hf. right. unfold load. rewrite Hl.
    apply Forall_cons in Hfr as [Hlen Hfr]. cbn [of_option mbind result_bind].
    assert (Hnin : l ∉ locs bs ++ locs fs).
    { simpl in Hnd. rewrite <- Permutation_middle in Hnd. by apply NoDup_cons in Hnd as []. }
    eexists _, l, b, fs. split; [reflexivity|]. simpl. split_and!; try done.
    + simpl in Hnd. rewrite <- Permutation_middle in Hnd. apply NoDup_cons in Hnd as [_ Hnd].
      constructor; simpl in *; try done. lia.
    + left. by left.
    + intros l' ?. by right.
Qed.

(** Bytes that fit behind the end of a buffer *)
Lemma append_spec b bytes :
  (start b <= end_ b)%nat -> (end_ b + length bytes <= DBUF_SIZE)%nat ->
  length (data b) = DBUF_SIZE ->
  exists b', append b bytes = Ok b' /\ next b' = next b /\ length (data b') = DBUF_SIZE /\
    start b' = start b /\ end_ b' = (end_ b + length bytes)%nat /\
    content b' = content b ++ bytes.
Proof.
  intros Hs He Hd. unfold append. rewrite decide_True by done.
  eexists. split; [reflexivity|]. simpl. split_and!; try done.
  - rewrite !length_app, length_take, length_drop, Hd. lia.
  - unfold content. simpl.
    assert (Hlt : length (take (end_ b) (data b)) = end_ b) by (rewrite length_take; lia).
    rewrite drop_app_le by lia. rewrite app_assoc.
    assert (length (drop (start b) (take (end_ b) (data b))) = (end_ b - start b)%nat)
      by (rewrite length_drop; lia).
    rewrite take_app_le by (rewrite length_app; lia).
    rewrite take_ge by (rewrite length_app; lia).
    by rewrite skipn_firstn_comm.
Qed.

Definition at_end (h : slot) bs : Prop :=
  match h with SHead => bs = [] | STail => bs <> [] | SNext l => last (locs bs) = Some l end.

Lemma last_split bs l :
  last (locs bs) = Some l -> exists bs0 b, bs = bs0 ++ [(l, b)].
Proof.
  destruct bs as [|p bs] using rev_ind; [done|]. rewrite locs_app. simpl.
  rewrite last_snoc. intros [= <-]. destruct p as [l' b]. by exists bs, b.
Qed.

Lemma last_locs_snoc bs l b : last (locs (bs ++ [(l, b)])) = Some l.
Proof. rewrite locs_app. apply last_snoc. Qed.

(** Writing into the last buffer of the chain *)
Lemma append_last st dyn bs l b fs bytes :
  chain_ok st dyn (bs ++ [(l, b)]) fs -> (end_ b + length bytes <= DBUF_SIZE)%nat ->
  exists b', append b bytes = Ok b' /\
    chain_ok (store st l b') dyn (bs ++ [(l, b')]) fs /\
    stream (bs ++ [(l, b')]) = stream (bs ++ [(l, b)]) ++ bytes /\
    keeps st (bs ++ [(l, b)]) fs (store st l b') (bs ++ [(l, b')]) fs.
Proof.
  intros [Hc Hf Hnd Hb Hfr Ht Hn] Hl.
  apply Forall_app in Hb as [Hb Hbl]. apply Forall_singleton in Hbl as [Hbs Hbd]. simpl in Hbs, Hbd.
  destruct (append_spec b bytes) as (b'&Ha&Hnx&Hd'&Hs'&He'&Hct); [lia..|done|].
  exists b'. split; [done|].
  assert (Hlocs : locs (bs ++ [(l, b')]) = locs (bs ++ [(l, b)])) by by rewrite !locs_app.
  assert (Hnin : (l ∉ locs bs) /\ (l ∉ locs fs)).
  { rewrite locs_app in Hnd. simpl in Hnd. rewrite <- app_assoc in Hnd. simpl in Hnd.
    rewrite <- Permutation_middle in Hnd. apply NoDup_cons in Hnd as [Hnd _].
    by apply not_elem_of_app in Hnd. }
  destruct Hnin as [Hnb Hnf]. apply seg_app in Hc as (mid&Hc1&Hc2).
  destruct Hc2 as (->&Hlk&Hnone). simpl in Hnone. split_and!.
  - constructor; simpl; try done; try (by rewrite Hlocs).
    + apply seg_app. exists (Some l). split; [by apply seg_insert|].
      split_and!; [done|by rewrite lookup_insert_eq|by rewrite Hnx].
    + by apply seg_insert.
    + apply Forall_app. split; [done|]. apply Forall_singleton. split; simpl; [lia|done].
    + intros _. rewrite Hlocs. apply Ht. by destruct bs.
  - rewrite !stream_app. unfold stream at 2 4. simpl. by rewrite !app_nil_r, Hct, app_assoc.
  - apply keeps_perm; [by rewrite Hlocs|]. intros l' Hl'. simpl. rewrite lookup_insert_ne; [done|].
    intros ->. apply Hl'. rewrite locs_app. apply elem_of_app. left. apply elem_of_app. right. by left.
Qed.

(** Linking a new buffer behind the chain and writing into it *)
Lemma attach_spec st dyn (h : slot) bs fs l b bytes n :
  chain_ok st dyn bs fs -> at_end h bs -> h <> STail ->
  heap st !! l = Some b -> length (data b) = DBUF_SIZE -> l ∉ locs bs ++ locs fs ->
  bytes <> [] -> (length bytes <= DBUF_SIZE)%nat ->
  exists st1 dyn1 b' bs',
    write_slot st (mkDBuf n (head dyn) (Some l)) h (Some l) = Ok (st1, dyn1) /\
    load st1 l = Ok b /\ append (mkBuffer None 0 0 (data b)) bytes = Ok b' /\
    chain_ok (store st1 l b') dyn1 (bs' ++ [(l, b')]) fs /\
    stream (bs' ++ [(l, b')]) = stream bs ++ bytes /\ locs bs' = locs bs /\
    length_ dyn1 = n /\
    (forall l', l' <> l -> l' ∉ locs bs -> heap (store st1 l b') !! l' = heap st !! l').
Proof.
  intros [Hc Hf Hnd Hb Hfr Ht Hn] He Hh Hl Hd Hnin Hne Hlen.
  assert (Hpos : (0 < length bytes)%nat) by (destruct bytes; simpl; [done|lia]).
  destruct (append_spec (mkBuffer None 0 0 (data b)) bytes) as (b'&Ha&Hnx&Hd'&Hs'&He'&Hct);
    [simpl; lia..|done|]. simpl in Hnx, Hs', He'.
  assert (Hcont : content b' = bytes) by (rewrite Hct; done).
  assert (Hok : buf_ok b') by (split; [lia|done]).
  assert (Hnin' := Hnin). apply not_elem_of_app in Hnin' as [Hnb Hnf].
  assert (Hnd' : NoDup (locs bs ++ l :: locs fs)).
  { rewrite <- Permutation_middle. by constructor. }
  destruct h as [| |l0]; [|done|]; simpl in He.
  - subst bs. eexists st, _, b', []. simpl. unfold load. rewrite Hl.
    split_and!; [done|done|done| |by unfold stream; simpl; rewrite Hcont, app_nil_r|done|done|].
    + constructor; simpl; try done.
      * by rewrite lookup_insert_eq, Hnx.
      * by apply seg_insert.
      * by constructor.
    + intros l' ? _. by rewrite lookup_insert_ne.
  - destruct (last_split _ _ He) as (bs0&b0&->).
    apply seg_app in Hc as (mid&Hc1&->&Hl0&Hnone). simpl in Hnone.
    apply Forall_app in Hb as [Hb Hb0]. apply Forall_cons in Hb0 as [Hb0 _]. simpl in Hb0.
    set (b0' := mkBuffer (Some l) (start b0) (end_ b0) (data b0)).
    assert (Hl0' : l0 <> l) by (intros ->; apply Hnb; rewrite locs_app; apply elem_of_app; right; by left).
    assert (Hlocs : locs (bs0 ++ [(l0, b0')]) = locs (bs0 ++ [(l0, b0)])) by by rewrite !locs_app.
    rewrite locs_app in Hnb. apply not_elem_of_app in Hnb as [Hnb0 _].
    assert (H0 : (l0 ∉ locs bs0) /\ (l0 ∉ locs fs)).
    { rewrite locs_app in Hnd. simpl in Hnd. rewrite <- app_assoc in Hnd. simpl in Hnd.
      rewrite <- Permutation_middle in Hnd. apply NoDup_cons in Hnd as [Hnd _].
      by apply not_elem_of_app in Hnd. }
    destruct H0 as [H0b H0f].
    eexists (store st l0 b0'), _, b', (bs0 ++ [(l0, b0')]). simpl. unfold load. rewrite Hl0.
    cbn [of_option mbind result_bind]. simpl. rewrite lookup_insert_ne, Hl by done.
    split_and!; [done|done|done| |  |done|done|].
    + constructor; simpl; try done.
      * rewrite <- app_assoc. apply seg_app. exists (Some l0). split.
        { apply seg_insert; [done|]. by apply seg_insert. }
        simpl. rewrite lookup_insert_ne, !lookup_insert_eq, Hnx by done. done.
      * apply seg_insert; [done|]. by apply seg_insert.
      * rewrite locs_app, Hlocs. simpl. by rewrite <- app_assoc.
      * rewrite !Forall_app, !Forall_singleton. split; [split; [exact Hb|exact Hb0]|exact Hok].
      * intros _. by rewrite last_locs_snoc.
    + rewrite !stream_app. unfold stream. simpl. by rewrite !app_nil_r, Hcont.
    + intros l' Hne' Hnl'. rewrite lookup_insert_ne by done. rewrite lookup_insert_ne; [done|].
      intros ->. apply Hnl'. rewrite locs_app. apply elem_of_app. right. by left.
Qed.

Lemma chain_ok_header st dyn n bs fs :
  chain_ok st (mkDBuf n (head dyn) (tail dyn)) bs fs <-> chain_ok st dyn bs fs.
Proof. split; intros [? ? ? ? ? ? ?]; by constructor. Qed.

(** The chain with which the loop goes on after the buffer [h] points to. *)
Definition put_post st bs fs buf n (o : result (pool * DBuf * Z)) : Prop :=
  exists st' dyn' bs' fs' r, o = Ok (st', dyn', r) /\ chain_ok st' dyn' bs' fs' /\
    keeps st bs fs st' bs' fs' /\
    ((r = 1 /\ stream bs' = stream bs ++ buf /\ length_ dyn' = n) \/
     (r = 0 /\ bs' = [] /\ dyn' = empty_dbuf /\ exhausted st')).

(** One turn of the loop: the buffer, and the bytes that go into it. *)
Lemma put_turn st dyn (h : slot) bs fs buf :
  chain_ok st dyn bs fs -> at_end h bs -> buf <> [] ->
  (put_buffer BUFFERPOOL malloc_ok st dyn h = Ok (st, dyn, None) /\ exhausted st) \/
  exists st1 dyn1 l b b' bs' fs',
    put_buffer BUFFERPOOL malloc_ok st dyn h = Ok (st1, dyn1, Some l) /\ load st1 l = Ok b /\
    let room := (DBUF_SIZE - end_ b)%nat in
    let chunk := if decide (length buf < room)%nat then length buf else room in
    append b (take chunk buf) = Ok b' /\
    chain_ok (store st1 l b') dyn1 bs' fs' /\ at_end (SNext l) bs' /\
    stream bs' = stream bs ++ take chunk buf /\ length_ dyn1 = length_ dyn /\
    keeps st bs fs (store st1 l b') bs' fs' /\ (h <> STail -> 0 < chunk)%nat.
Proof.
  intros Hc He Hne. assert (Hpos : (0 < length buf)%nat) by (destruct buf; simpl; [done|lia]).
  unfold put_buffer. destruct (decide (h = STail)) as [->|Hh].
  - right. simpl in He. cbn [read_slot mbind result_bind]. rewrite (ck_tail _ _ _ _ Hc He).
    destruct (last (locs bs)) as [l|] eqn:El; cycle 1.
    { apply last_None in El. by destruct bs. }
    destruct (last_split _ _ El) as (bs0&b&->).
    assert (Hl : heap st !! l = Some b).
    { pose proof (ck_chain _ _ _ _ Hc) as Hs. apply seg_app in Hs as (?&_&_&?&_). done. }
    set (chunk := if decide (length buf < DBUF_SIZE - end_ b)%nat then length buf
                  else (DBUF_SIZE - end_ b)%nat).
    assert (Hbe : (end_ b <= DBUF_SIZE)%nat).
    { pose proof (ck_bufs _ _ _ _ Hc) as Hb. apply Forall_app in Hb as [_ Hb].
      apply Forall_cons in Hb as [Hb _]. destruct Hb. simpl in *. lia. }
    destruct (append_last st dyn bs0 l b fs (take chunk buf)) as (b'&Ha&Hc'&Hs'&Hk); [done| |].
    { rewrite length_take. unfold chunk. case_decide; lia. }
    exists st, dyn, l, b, b', (bs0 ++ [(l, b')]), fs. unfold load. rewrite Hl. fold chunk.
    split_and!; try done. apply last_locs_snoc.
  - assert (Hr : read_slot st dyn h = Ok None).
    { destruct h as [| |l]; simpl in *; [|done|].
      - subst. pose proof (ck_chain _ _ _ _ Hc) as Hs. simpl in Hs. by rewrite Hs.
      - destruct (last_split _ _ He) as (bs0&b&->). pose proof (ck_chain _ _ _ _ Hc) as Hs.
        apply seg_app in Hs as (?&_&_&Hl&Hn). unfold load. rewrite Hl. simpl in *. by rewrite Hn. }
    rewrite Hr. cbn [mbind result_bind].
    destruct (alloc_spec st dyn bs fs Hc) as [[-> Hex]|(st0&l&b&fs'&->&Hl&Hd&Hnin&Hc0&Hoth&Hsrc&Hsub)];
      [by left|right]. cbn [mbind result_bind].
    set (chunk := if decide (length buf < DBUF_SIZE - 0)%nat then length buf
                  else (DBUF_SIZE - 0)%nat).
    assert (Hch : (0 < chunk <= DBUF_SIZE)%nat)
      by (unfold chunk, DBUF_SIZE in *; case_decide; lia).
    assert (Hcl : length (take chunk buf) = chunk)
      by (rewrite length_take; unfold chunk; case_decide; lia).
    destruct (attach_spec st0 dyn h bs fs' l b (take chunk buf) (length_ dyn))
      as (st1&dyn1&b'&bs'&->&Hld&Ha&Hc'&Hs'&Hlocs&Hlen&Hk); try done.
    { intros E. rewrite E in Hcl. simpl in Hcl. lia. }
    { lia. }
    cbn [mbind result_bind]. rewrite Hld. cbn [mbind result_bind].
    eexists _, dyn1, l, (mkBuffer None 0 0 (data b)), b', (bs' ++ [(l, b')]), fs'.
    split; [reflexivity|]. rewrite load_store, !store_store. cbv zeta. cbn [end_]. fold chunk.
    split_and!; try done; [apply last_locs_snoc| |intros _; lia].
    assert (Hni : forall l', l' ∉ locs bs ++ locs fs -> heap st !! l' <> None -> l' <> l).
    { intros l' Hl' Hs ->. destruct Hsrc as [Hin|]; [|done]. apply Hl'. apply elem_of_app. by right. }
    split.
    + intros l' b2 Hl' Hn. rewrite Hk, Hoth; [done|..].
      * apply Hni; [done|congruence].
      * apply Hni; [done|congruence].
      * intros Hin. apply Hn, elem_of_app. by left.
    + intros l' Hin. rewrite locs_app, Hlocs in Hin. simpl in Hin.
      rewrite !elem_of_app in Hin. destruct Hin as [[Hin|Hin]|Hin].
      * left. apply elem_of_app. by left.
      * apply list_elem_of_singleton in Hin as ->. destruct Hsrc; [left; apply elem_of_app; by right|by right].
      * left. apply elem_of_app. right. by apply Hsub.
Qed.

Lemma put_loop_spec fuel st dyn (h : slot) bs fs buf :
  chain_ok st dyn bs fs -> at_end h bs ->
  (length buf + (match h with STail => 1 | _ => 0 end) <= fuel)%nat ->
  put_post st bs fs buf (length_ dyn) (put_loop BUFFERPOOL malloc_ok fuel st dyn h buf).
Proof.
  revert st dyn h bs fs buf. induction fuel as [|fuel IH]; intros st dyn h bs fs buf Hc He Hf;
    (destruct (decide (buf = [])) as [->|Hne];
     [exists st, dyn, bs, fs, 1; cbn [put_loop]; split_and!; [done|done|apply keeps_refl|];
      left; by rewrite app_nil_r|]).
  { destruct buf; [done|simpl in Hf; lia]. }
  cbn [put_loop]. rewrite decide_False by done.
  destruct (put_turn st dyn h bs fs buf Hc He Hne)
    as [[-> Hex]|(st1&dyn1&l&b&b'&bs'&fs'&->&Hl&Ha&Hc'&He'&Hs'&Hlen&Hk&Hch)];
    cbn [mbind result_bind].
  - unfold dbuf_malloc_error.
    destruct (free_chain_spec (size (heap st)) st dyn bs fs Hc) as (st'&fs'&->&Hc'&Hk&Hac).
    { eapply seg_size; [apply Hc|]. pose proof (ck_nodup _ _ _ _ Hc) as Hnd.
      by apply NoDup_app in Hnd as []. }
    exists st', empty_dbuf, [], fs', 0. split_and!; try done. right. split_and!; try done.
    unfold exhausted. by rewrite Hac.
  - rewrite Hl. cbn [mbind result_bind].
    set (chunk := if decide (length buf < DBUF_SIZE - end_ b)%nat then length buf
                  else (DBUF_SIZE - end_ b)%nat) in *.
    rewrite Ha. cbn [mbind result_bind].
    destruct (IH (store st1 l b') dyn1 (SNext l) bs' fs' (drop chunk buf) Hc' He')
      as (st2&dyn2&bs2&fs2&r&->&Hc2&Hk2&Hr).
    { rewrite length_drop. destruct buf; [done|]. destruct h; simpl in *; [|lia|];
        specialize (Hch ltac:(done)); lia. }
    exists st2, dyn2, bs2, fs2, r. split_and!; [done..|by eapply keeps_trans|].
    destruct Hr as [(->&Hs2&Hl2)|Hr]; [left|by right].
    split_and!; [done| |congruence]. by rewrite Hs2, Hs', <- app_assoc, take_drop.
Qed.

Lemma put_spec st dyn bs fs buf :
  Inv st dyn bs fs ->
  exists st' dyn' bs' fs' r, dbuf_put BUFFERPOOL malloc_ok st dyn buf = Ok (st', dyn', r) /\
    Inv st' dyn' bs' fs' /\ keeps st bs fs st' bs' fs' /\
    ((r = 1 /\ stream bs' = stream bs ++ buf) \/
     (r = 0 /\ stream bs' = [] /\ exhausted st')).
Proof.
  intros [Hc Hl]. unfold dbuf_put, dbuf_put2.
  set (dyn1 := mkDBuf (length_ dyn + length buf) (head dyn) (tail dyn)).
  set (h := if decide (length_ dyn = 0%nat) then SHead else STail).
  destruct (put_loop_spec (S (length buf)) st dyn1 h bs fs buf)
    as (st'&dyn'&bs'&fs'&r&->&Hc'&Hk&Hr).
  - by apply chain_ok_header.
  - unfold h. case_decide as E; simpl.
    + destruct bs as [|[l b] bs]; [done|]. exfalso.
      assert (Hb : buf_ok b) by (pose proof (ck_bufs _ _ _ _ Hc) as Hb; by apply Forall_cons in Hb as []).
      rewrite stream_cons, length_app, length_content in Hl by done. destruct Hb. lia.
    + intros ->. done.
  - unfold h. case_decide; lia.
  - exists st', dyn', bs', fs', r. split_and!; [done| |done|].
    + split; [done|]. destruct Hr as [(_&->&->)|(_&->&->&_)]; [|done].
      simpl. rewrite length_app. lia.
    + destruct Hr as [(->&?&_)|(->&->&_&?)]; auto.
Qed.

End alloc.

End rep.

(** * The system of all the buffers, as queues of bytes *)

Inductive op := OPut (buf : list ascii) | OGet (n : nat) | OGetMsg (n : nat) | ODelete (n : nat).
Inductive reply :=
  | RInt (r : Z) | RBytes (b : list ascii) | RLine (o : option (list ascii)) | RVoid.

(** An operation on the header of one connection *)
Definition run (BUFFERPOOL : Z) (malloc_ok : Z -> bool) (o : op) (st : pool) (dyn : DBuf)
    : result (pool * DBuf * reply) :=
  match o with
  | OPut buf => '(st, dyn, r) ← dbuf_put BUFFERPOOL malloc_ok st dyn buf; Ok (st, dyn, RInt r)
  | OGet n => '(st, dyn, b) ← dbuf_get st dyn n; Ok (st, dyn, RBytes b)
  | OGetMsg n => '(st, dyn, l) ← dbuf_getmsg st dyn n; Ok (st, dyn, RLine l)
  | ODelete n => '(st, dyn) ← dbuf_delete st dyn n; Ok (st, dyn, RVoid)
  end.

(** The same operation on a queue of bytes *)
Inductive qstep : op -> list ascii -> reply -> list ascii -> Prop :=
  | q_put buf q : qstep (OPut buf) q (RInt 1) (q ++ buf)
  | q_put_fail buf q : qstep (OPut buf) q (RInt 0) []
  | q_get n q : qstep (OGet n) q (RBytes (take n q)) (drop n q)
  | q_getmsg n q : qstep (OGetMsg n) q (RLine (fst (next_line n q))) (snd (next_line n q))
  | q_delete n q : qstep (ODelete n) q RVoid (drop n q).

(** The headers [hs] of the connections, in one memory with one free list, hold
    the queues [qs]. *)
Definition Rel (st : pool) (hs : list DBuf) (qs : list (list ascii)) : Prop :=
  length hs = length qs /\
  exists bss fs, length bss = length hs /\
    (forall i h bs q, hs !! i = Some h -> bss !! i = Some bs -> qs !! i = Some q ->
       Inv st h bs fs /\ stream bs = q) /\
    (forall i j bs1 bs2 l, i <> j -> bss !! i = Some bs1 -> bss !! j = Some bs2 ->
       l ∈ locs bs1 -> l ∈ locs bs2 -> False).

Section system.

Variable BUFFERPOOL : Z.
Variable malloc_ok : Z -> bool.

Lemma run_spec o st dyn bs fs :
  Inv st dyn bs fs ->
  exists st' dyn' bs' fs' r, run BUFFERPOOL malloc_ok o st dyn = Ok (st', dyn', r) /\
    Inv st' dyn' bs' fs' /\ keeps st bs fs st' bs' fs' /\ qstep o (stream bs) r (stream bs').
Proof.
  intros Hi. destruct o as [buf|n|n|n]; simpl.
  - destruct (put_spec BUFFERPOOL malloc_ok st dyn bs fs buf Hi)
      as (st'&dyn'&bs'&fs'&r&->&Hi'&Hk&Hr).
    exists st', dyn', bs', fs', (RInt r). split_and!; [done..|].
    destruct Hr as [[-> ->]|(->&->&_)]; constructor.
  - destruct (get_loop_spec n st dyn bs fs n [] Hi) as (st'&dyn'&bs'&fs'&Hg&Hi'&Hk&Hs); [lia|].
    unfold dbuf_get. rewrite Hg. exists st', dyn', bs', fs', (RBytes (take n (stream bs))).
    split_and!; [done..|]. rewrite Hs. constructor.
  - destruct (getmsg_spec st dyn bs fs n Hi) as (st'&dyn'&bs'&fs'&->&Hi'&Hk&Hs).
    exists st', dyn', bs', fs', (RLine (fst (next_line n (stream bs)))).
    split_and!; [done..|]. rewrite Hs. constructor.
  - destruct (delete_spec st dyn bs fs n Hi) as (st'&dyn'&bs'&fs'&->&Hi'&Hk&Hs).
    exists st', dyn', bs', fs', RVoid. split_and!; [done..|]. rewrite Hs. constructor.
Qed.

(** The invariant of a header the operation was not about *)
Lemma Inv_other st bs fs st' bs' fs' dyn' dyn2 bs2 :
  keeps st bs fs st' bs' fs' -> Inv st' dyn' bs' fs' -> Inv st dyn2 bs2 fs ->
  (forall l, l ∈ locs bs -> l ∈ locs bs2 -> False) ->
  Inv st' dyn2 bs2 fs' /\ (forall l, l ∈ locs bs' -> l ∈ locs bs2 -> False).
Proof.
  intros Hk [Hc' _] [Hc2 Hl2] Hd.
  assert (Hdis : forall l, l ∈ locs bs2 -> l ∉ locs bs ++ locs fs).
  { intros l Hl [Hin|Hin]%elem_of_app; [by eapply Hd|].
    pose proof (ck_nodup _ _ _ _ Hc2) as Hnd. apply NoDup_app in Hnd as (_&Hnd&_).
    by apply (Hnd l Hl). }
  assert (Hnew : forall l, l ∈ locs bs2 -> l ∉ locs bs' ++ locs fs').
  { intros l Hl Hin. apply Hk in Hin as [Hin|Hin]; [by apply (Hdis l)|].
    eapply seg_in_dom in Hl as [? ?]; [|apply Hc2]. congruence. }
  destruct Hc2 as [Hs Hf Hnd Hb Hfr Ht Hn]. split; [split; [|done]|].
  - destruct Hc' as [_ Hf' Hnd' _ Hfr' _ Hn']. constructor; try done.
    + by eapply keeps_seg.
    + apply NoDup_app in Hnd as (Hnd1&_&_). apply NoDup_app in Hnd' as (_&_&Hnd2).
      apply NoDup_app. split_and!; [done| |done]. intros l Hl Hin. apply (Hnew l Hl), elem_of_app. auto.
  - intros l Hin Hl. apply (Hnew l Hl), elem_of_app. auto.
Qed.

End system.

(** C27. The dynamic buffers of all the connections together implement one queue of
    bytes each: every operation terminates without an invalid access, has on
    its own queue the effect of the queue operation (a put that fails empties
    the buffer) and leaves the queues of all the other connections alone,
    although buffers move between them through the free list. *)
Theorem dbuf_refines_queues BUFFERPOOL malloc_ok o st hs qs i h q :
  Rel st hs qs -> hs !! i = Some h -> qs !! i = Some q ->
  exists st' h' r q', run BUFFERPOOL malloc_ok o st h = Ok (st', h', r) /\ qstep o q r q' /\
    Rel st' (<[i := h']> hs) (<[i := q']> qs).
Proof.
  intros (Hlen&bss&fs&Hlb&Hinv&Hdis) Hh Hq.
  destruct (lookup_lt_is_Some_2 bss i) as [bs Hbs]; [rewrite Hlb; by eapply lookup_lt_Some|].
  destruct (Hinv i h bs q Hh Hbs Hq) as [Hi Hs].
  destruct (run_spec BUFFERPOOL malloc_ok o st h bs fs Hi) as (st'&h'&bs'&fs'&r&Hr&Hi'&Hk&Hst).
  exists st', h', r, (stream bs'). rewrite Hs in Hst. split_and!; [done..|].
  assert (Hoth : forall j hj bsj qj, i <> j -> hs !! j = Some hj -> bss !! j = Some bsj ->
    qs !! j = Some qj -> (Inv st' hj bsj fs' /\ stream bsj = qj) /\
    (forall l, l ∈ locs bs' -> l ∈ locs bsj -> False)).
  { intros j hj bsj qj Hne Hj Hbj Hqj. destruct (Hinv j hj bsj qj Hj Hbj Hqj) as [Hij Hsj].
    destruct (Inv_other st bs fs st' bs' fs' h' hj bsj Hk Hi' Hij); [|done].
    intros l. by apply (Hdis i j bs bsj l). }
  assert (Hget : forall j bsj, bss !! j = Some bsj -> exists hj qj, hs !! j = Some hj /\ qs !! j = Some qj).
  { intros j bsj Hj. apply lookup_lt_Some in Hj.
    destruct (lookup_lt_is_Some_2 hs j) as [hj ?]; [lia|].
    destruct (lookup_lt_is_Some_2 qs j) as [qj ?]; [lia|]. by exists hj, qj. }
  split; [by rewrite !length_insert|].
  exists (<[i := bs']> bss), fs'. rewrite !length_insert. split_and!; [done| |].
  - intros j hj bsj qj Hj Hbj Hqj. destruct (decide (i = j)) as [<-|Hne].
    + rewrite list_lookup_insert_eq in Hj by (by eapply lookup_lt_Some).
      rewrite list_lookup_insert_eq in Hbj by (by eapply lookup_lt_Some).
      rewrite list_lookup_insert_eq in Hqj by (by eapply lookup_lt_Some).
      by simplify_eq.
    + rewrite list_lookup_insert_ne in Hj by done. rewrite list_lookup_insert_ne in Hbj by done.
      rewrite list_lookup_insert_ne in Hqj by done. by eapply Hoth.
  - intros j k bs1 bs2 l Hjk H1 H2 Hl1 Hl2.
    assert (Hii : (i < length bss)%nat) by by eapply lookup_lt_Some.
    destruct (decide (i = j)) as [<-|Hj]; destruct (decide (i = k)) as [<-|Hk']; [done|..].
    + rewrite list_lookup_insert_eq in H1 by done. rewrite list_lookup_insert_ne in H2 by done.
      simplify_eq. destruct (Hget k bs2 H2) as (hk&qk&?&?).
      by eapply (proj2 (Hoth k hk bs2 qk ltac:(done) ltac:(done) H2 ltac:(done))).
    + rewrite list_lookup_insert_ne in H1 by done. rewrite list_lookup_insert_eq in H2 by done.
      simplify_eq. destruct (Hget j bs1 H1) as (hj&qj&?&?).
      by eapply (proj2 (Hoth j hj bs1 qj ltac:(done) ltac:(done) H1 ltac:(done))).
    + rewrite list_lookup_insert_ne in H1 by done. rewrite list_lookup_insert_ne in H2 by done.
      by eapply (Hdis j k).
Qed.

(** Witness of [dbuf_refines_queues]: two connections with nothing queued. *)
Definition start_pool : pool := mkPool ∅ None 0 0.

Lemma dbuf_refines_queues_witness :
  exists st' h' r q',
    run 4096 (fun _ => true) (OPut (str "hola")) start_pool empty_dbuf = Ok (st', h', r) /\
    qstep (OPut (str "hola")) [] r q' /\
    Rel st' (<[1%nat := h']> [empty_dbuf; empty_dbuf]) (<[1%nat := q']> [[]; []]).
Proof.
  apply (dbuf_refines_queues 4096 (fun _ => true) (OPut (str "hola")) start_pool
    [empty_dbuf; empty_dbuf] [[]; []] 1 empty_dbuf []); [|reflexivity..].
  split; [reflexivity|]. exists [[]; []], []. split; [reflexivity|]. split.
  - intros [|[|i]] h bs q H1 H2 H3; try discriminate; injection H1 as <-; injection H2 as <-;
      injection H3 as <-; (split; [split; [|reflexivity]|reflexivity]);
      constructor; try reflexivity; constructor.
  - intros [|[|i]] j bs1 bs2 l _ H1 _ Hl _; try discriminate; injection H1 as <-;
      apply elem_of_nil in Hl; exact Hl.
Defined.

(** dbuf_put() appends the bytes to the queue and returns 1; it returns 0, with
    the buffer emptied and its memory back in the free list, only when the pool
    has its full size or no memory can be had. *)
Theorem dbuf_put_correct BUFFERPOOL malloc_ok st dyn bs fs buf :
  Inv st dyn bs fs ->
  exists st' dyn' bs' fs' r, dbuf_put BUFFERPOOL malloc_ok st dyn buf = Ok (st', dyn', r) /\
    Inv st' dyn' bs' fs' /\
    ((r = 1 /\ stream bs' = stream bs ++ buf) \/
     (r = 0 /\ stream bs' = [] /\
      (BUFFERPOOL <= DBufAllocCount st' * Z.of_nat DBUF_SIZE \/
       malloc_ok (DBufAllocCount st') = false))).
Proof.
  intros Hi. destruct (put_spec BUFFERPOOL malloc_ok st dyn bs fs buf Hi)
    as (st'&dyn'&bs'&fs'&r&?&?&_&?). by exists st', dyn', bs', fs', r.
Qed.

(** Witness of [dbuf_put_correct]: a pool of one buffer cannot take more bytes than
    the buffer has. *)
Lemma dbuf_put_correct_witness :
  exists st' dyn' bs' fs' r,
    dbuf_put 2048 (fun _ => true) start_pool empty_dbuf (replicate 2049 "x"%char) =
      Ok (st', dyn', r) /\
    Inv st' dyn' bs' fs' /\
    ((r = 1 /\ stream bs' = stream [] ++ replicate 2049 "x"%char) \/
     (r = 0 /\ stream bs' = [] /\
      (2048 <= DBufAllocCount st' * Z.of_nat DBUF_SIZE \/
       (fun _ => true) (DBufAllocCount st') = false))).
Proof.
  apply (dbuf_put_correct 2048 (fun _ => true) start_pool empty_dbuf [] []).
  split; [|reflexivity].
  constructor; try reflexivity; try constructor.
Defined.

(** dbuf_getmsg() skips line ends, and returns the next line exactly when it ends
    within the bytes allowed; the line and the line ends after it are removed,
    and otherwise only the leading line ends are. *)
Theorem dbuf_getmsg_correct st dyn bs fs n :
  Inv st dyn bs fs ->
  exists st' dyn' bs' fs' o, dbuf_getmsg st dyn n = Ok (st', dyn', o) /\
    Inv st' dyn' bs' fs' /\
    let q := drop_eol (stream bs) in
    match o with
    | Some line =>
        (length line < n)%nat /\ line <> [] /\ Forall (fun c => isEol c = false) line /\
        exists c r, q = line ++ c :: r /\ isEol c = true /\ stream bs' = drop_eol r
    | None => stream bs' = q /\
        forall line c r, q = line ++ c :: r -> isEol c = true ->
          Forall (fun c => isEol c = false) line -> (n <= length line)%nat
    end.
Proof.
  intros Hi. destruct (getmsg_spec st dyn bs fs n Hi) as (st'&dyn'&bs'&fs'&Hg&Hi'&_&Hs).
  exists st', dyn', bs', fs', (fst (next_line n (stream bs))). split_and!; [done..|]. cbv zeta.
  revert Hs. unfold next_line. pose proof (drop_eol_head (stream bs)) as Hh.
  set (q := drop_eol (stream bs)) in *.
  destruct (line_within n q) as [line|] eqn:El; simpl; intros Hs.
  - destruct (line_within_Some n q line El) as (Hl&Hf&c&r&Hq&Hc). split_and!; [done| |done|].
    + intros ->. rewrite Hq in Hh. simpl in Hh. congruence.
    + exists c, r. split_and!; [done..|]. rewrite Hs, Hq, drop_app_length. simpl. by rewrite Hc.
  - split; [done|]. intros line c r Hq Hc Hf.
    destruct (decide (n <= length line)%nat) as [|Hn]; [done|]. exfalso.
    unfold line_within in El. case_decide as E; [done|]. apply E.
    rewrite Hq, take_app_ge by lia. rewrite (to_eol_line line) by done.
    replace (n - length line)%nat with (S (n - S (length line)))%nat by lia. simpl.
    rewrite Hc, app_nil_r, length_app. simpl. lia.
Qed.

(** Witness of [dbuf_getmsg_correct]. *)
Definition one_line : DBufBuffer :=
  mkBuffer None 0 6 (map to_char [13; 80; 73; 13; 10; 81] ++ replicate 2042 NUL).

Lemma dbuf_getmsg_correct_witness :
  let st := mkPool {[0%nat := one_line]} None 1 1 in
  let dyn := mkDBuf 6 (Some 0%nat) (Some 0%nat) in
  let bs := [(0%nat, one_line)] in
  exists st' dyn' bs' fs' o, dbuf_getmsg st dyn 512 = Ok (st', dyn', o) /\
    Inv st' dyn' bs' fs' /\
    let q := drop_eol (stream bs) in
    match o with
    | Some line =>
        (length line < 512)%nat /\ line <> [] /\ Forall (fun c => isEol c = false) line /\
        exists c r, q = line ++ c :: r /\ isEol c = true /\ stream bs' = drop_eol r
    | None => stream bs' = q /\
        forall line c r, q = line ++ c :: r -> isEol c = true ->
          Forall (fun c => isEol c = false) line -> (512 <= length line)%nat
    end.
Proof.
  apply (dbuf_getmsg_correct (mkPool {[0%nat := one_line]} None 1 1)
    (mkDBuf 6 (Some 0%nat) (Some 0%nat)) [(0%nat, one_line)] [] 512).
  split; [|reflexivity]. constructor; try reflexivity; try (intros _; reflexivity).
  - split_and!; reflexivity.
  - repeat constructor; intros H; inversion H.
  - repeat constructor; simpl; unfold DBUF_SIZE; lia.
  - constructor.
Defined.
