(* ===== verification/IPcheck.v ===== *)
(** The registry of IP addresses: ircd/IPcheck.c, and ipmask_check() of
    ircd/match.c.

    An address is the list of its eight segments in host order.  Each bucket of
    the hash table is a vector of entries; the union of an entry is the type
    [ip_targets_t], read as the tag [free_targets] says.  The clock, the uptime
    and the population of the server are the fields of [env]; whether the
    database of clones has a record for a client (IPbusca_clones() != -1, with
    BDD_CLONES) is an argument.  GODMODE and DEBUGMODE are not defined. *)

From S2P Require Import Prelude Numnicks.

(** * Address masks *)

Fixpoint ipmask_check (addr mask : list Z) (bits : Z) : Z :=
  match addr, mask with
  | x :: addr, y :: mask =>
      if decide (bits < 16) then
        if decide (Z.shiftr (Z.lxor x y) (16 - bits) = 0) then 1 else 0
      else if decide (x <> y) then 0
      else if decide (bits - 16 = 0) then 1
      else ipmask_check addr mask (bits - 16)
  | _, _ => -1
  end.

(** Bit [i] of an address, from the most significant one *)
Definition addr_bit (a : list Z) (i : Z) : bool :=
  Z.testbit (nth (Z.to_nat (i / 16)) a 0) (15 - i mod 16).

Lemma high_bits x y bits :
  0 <= x < 65536 -> 0 <= y < 65536 -> 0 <= bits <= 16 ->
  Z.shiftr (Z.lxor x y) (16 - bits) = 0 <->
  (forall i, 0 <= i < bits -> Z.testbit x (15 - i) = Z.testbit y (15 - i)).
Proof.
  intros Hx Hy Hb. split.
  - intros H i Hi. apply (f_equal (fun z => Z.testbit z (bits - 1 - i))) in H.
    rewrite Z.shiftr_spec, Z.lxor_spec, Z.bits_0 in H by lia.
    replace (bits - 1 - i + (16 - bits)) with (15 - i) in H by lia.
    by apply xorb_eq.
  - intros H. apply Z.bits_inj'. intros n Hn. rewrite Z.shiftr_spec, Z.lxor_spec, Z.bits_0 by lia.
    destruct (decide (n < bits)).
    + specialize (H (bits - 1 - n)). replace (15 - (bits - 1 - n)) with (n + (16 - bits)) in H by lia.
      rewrite H by lia. apply xorb_nilpotent.
    + assert (Hhigh : forall z, 0 <= z < 65536 -> Z.testbit z (n + (16 - bits)) = false).
      { intros z Hz. destruct (decide (z = 0)) as [->|]; [apply Z.bits_0|].
        apply Z.bits_above_log2; [lia|]. apply Z.lt_le_trans with 16; [|lia].
        apply Z.log2_lt_pow2; [lia|]. change (2 ^ 16) with 65536. lia. }
      by rewrite !Hhigh.
Qed.

Lemma word_eq x y : 0 <= x < 65536 -> 0 <= y < 65536 ->
  x = y <-> (forall i, 0 <= i < 16 -> Z.testbit x (15 - i) = Z.testbit y (15 - i)).
Proof.
  intros Hx Hy. rewrite <- (high_bits x y 16) by lia. rewrite Z.shiftr_0_r.
  split; [intros ->; apply Z.lxor_nilpotent|apply Z.lxor_eq].
Qed.

Definition words (a : list Z) : Prop := Forall (fun x => 0 <= x < 65536) a.

Definition same_bits (a b : list Z) (bits : Z) : Prop :=
  forall i, 0 <= i < bits -> addr_bit a i = addr_bit b i.

Lemma addr_bit_head x a i : 0 <= i < 16 -> addr_bit (x :: a) i = Z.testbit x (15 - i).
Proof. intros Hi. unfold addr_bit. by rewrite Z.div_small, Z.mod_small by lia. Qed.

Lemma addr_bit_tail x a i : 0 <= i -> addr_bit (x :: a) (i + 16) = addr_bit a i.
Proof.
  intros Hi. unfold addr_bit. replace (i + 16) with (i + 1 * 16) by lia.
  rewrite Z.div_add, Z_mod_plus_full by lia.
  rewrite Z2Nat.inj_add by (try apply Z.div_pos; lia). by rewrite Nat.add_comm.
Qed.

Lemma same_bits_cons x y a b bits :
  0 <= x < 65536 -> 0 <= y < 65536 -> 16 <= bits ->
  same_bits (x :: a) (y :: b) bits <-> x = y /\ same_bits a b (bits - 16).
Proof.
  intros Hx Hy Hb. rewrite word_eq by done. split.
  - intros H. split; intros i Hi.
    + rewrite <- (addr_bit_head x a i), <- (addr_bit_head y b i) by done. apply H. lia.
    + rewrite <- (addr_bit_tail x a i), <- (addr_bit_tail y b i) by lia. apply H. lia.
  - intros [H1 H2] i Hi. destruct (decide (i < 16)).
    + rewrite !addr_bit_head by lia. apply H1. lia.
    + replace i with ((i - 16) + 16) by lia. rewrite !addr_bit_tail by lia. apply H2. lia.
Qed.

(** The first [bits] bits of an address and a mask are compared: the answer
    is 1 when they agree and 0 when one differs, for 128 bits too. *)
Theorem ipmask_check_correct a b bits :
  length a = 8%nat -> length b = 8%nat -> words a -> words b -> 0 <= bits <= 128 ->
  (ipmask_check a b bits = 1 <-> forall i, 0 <= i < bits -> addr_bit a i = addr_bit b i) /\
  (ipmask_check a b bits = 0 \/ ipmask_check a b bits = 1).
Proof.
  intros Ha Hb Hwa Hwb Hbits. fold (same_bits a b bits).
  assert (Hne : a <> []) by (by intros ->).
  assert (Hlen : length b = length a) by congruence.
  assert (Hcap : 0 <= bits <= 16 * Z.of_nat (length a)) by lia. clear Ha Hb Hbits.
  revert b bits Hlen Hwb Hcap Hne.
  induction Hwa as [|x a Hx Hwa IH]; intros [|y b] bits Hlen Hwb Hcap Hne; try done.
  apply Forall_cons in Hwb as [Hy Hwb]. simpl in Hlen, Hcap. cbn [ipmask_check].
  destruct (decide (bits < 16)).
  - assert (Hs : same_bits (x :: a) (y :: b) bits <-> Z.shiftr (Z.lxor x y) (16 - bits) = 0).
    { rewrite high_bits by lia.
      split; intros H i Hi; specialize (H i Hi); by rewrite !addr_bit_head in * by lia. }
    rewrite Hs. destruct (decide _); naive_solver.
  - rewrite same_bits_cons by lia. destruct (decide (x <> y)); [naive_solver|].
    destruct (decide (bits - 16 = 0)) as [->|].
    + split; [|by right]. split; [|done]. intros _. split; [by apply dec_stable|].
      intros i Hi. lia.
    + rewrite (dec_stable (P := x = y)) by done.
      destruct (IH b (bits - 16)) as [-> ?]; try done; [lia|lia|destruct a; [simpl in *; lia|done]|].
      naive_solver.
Qed.

Lemma ipmask_check_correct_witness :
  ipmask_check [0x2002; 0xc0a8; 0x0001; 0; 0; 0; 0; 0] [0x2002; 0xc0a8; 0; 0; 0; 0; 0; 0] 33 = 1.
Proof.
  apply (ipmask_check_correct [0x2002; 0xc0a8; 0x0001; 0; 0; 0; 0; 0]
    [0x2002; 0xc0a8; 0; 0; 0; 0; 0; 0] 33); [done|done| | |done|].
  1-2: apply (bool_decide_unpack _); vm_compute; exact I.
  intros i Hi. assert (Hall : forallb (fun n => eqb
      (addr_bit [0x2002; 0xc0a8; 0x0001; 0; 0; 0; 0; 0] (Z.of_nat n))
      (addr_bit [0x2002; 0xc0a8; 0; 0; 0; 0; 0; 0] (Z.of_nat n))) (seq 0 33) = true) by (vm_compute; done).
  rewrite forallb_forall in Hall. specialize (Hall (Z.to_nat i)).
  rewrite Z2Nat.id in Hall by lia. apply eqb_prop, Hall, in_seq. lia.
Defined.

(** * Data *)

Definition STARTTARGETS : Z := 10.
Definition TARGET_DELAY : Z := 128.
Definition HASHTABSIZE : Z := 0x2000.
Definition BITMASK : Z := 0xffff.
Definition IPCHECK_CLONE_LIMIT : Z := 4.
Definition IPCHECK_CLONE_PERIOD : Z := 20.
Definition IPCHECK_CLONE_DELAY : Z := 600.
Definition HAS_TARGETS_MAGIC : Z := 15.

(** struct ip_targets_st *)
Record ip_targets_st := mkTargets {
  t_ip : ip_addr; t_free_targets : Z; t_targets : list Z }.

(** The union of an entry: an address, or a pointer to address and targets. *)
Inductive ip_targets_t := U_ip (ip : ip_addr) | U_ptr (p : ip_targets_st).

Record IPregistry := mkEntry {
  ip_targets : ip_targets_t;
  last_connect : Z;            (* 16 bits *)
  connected : Z;               (* 16 bits *)
  connect_attempts : Z;        (* 4 bits *)
  free_targets : Z }.          (* 4 bits *)

Record IPregistry_vector := mkVector { vector : list IPregistry; allocated_length : Z }.

(** The static variables of the file; a bucket that is not in the map is empty,
    as the static table is at the start. *)
Record registry := mkRegistry {
  hashtable : gmap Z IPregistry_vector; count : Z; average_length : Z }.

Record env := mkEnv { now : Z; me_since : Z; population : Z }.

Record client := mkClient {
  ip : ip_addr; nexttarget : Z; firsttime : Z; targets : list Z; MyConnect : bool }.

(** Bit fields of 4 bits *)
Definition u4 (z : Z) : Z := z mod 16.

(** * Entries *)

Definition HAS_TARGETS (e : IPregistry) : bool := bool_decide (free_targets e = HAS_TARGETS_MAGIC).

Definition ptr (e : IPregistry) : result ip_targets_st :=
  match ip_targets e with U_ptr p => Ok p | U_ip _ => Ub end.

Definition IP (e : IPregistry) : result ip_addr :=
  if HAS_TARGETS e then p ← ptr e; Ok (t_ip p)
  else match ip_targets e with U_ip ip => Ok ip | U_ptr _ => Ub end.

Definition FREE_TARGETS (e : IPregistry) : result Z :=
  if HAS_TARGETS e then p ← ptr e; Ok (t_free_targets p) else Ok (free_targets e).

Definition set_targets u e :=
  mkEntry u (last_connect e) (connected e) (connect_attempts e) (free_targets e).
Definition set_last_connect x e :=
  mkEntry (ip_targets e) x (connected e) (connect_attempts e) (free_targets e).
Definition set_connected x e :=
  mkEntry (ip_targets e) (last_connect e) x (connect_attempts e) (free_targets e).
Definition set_attempts x e :=
  mkEntry (ip_targets e) (last_connect e) (connected e) x (free_targets e).
Definition set_free_targets x e :=
  mkEntry (ip_targets e) (last_connect e) (connected e) (connect_attempts e) x.

Section ipcheck.

(** The byte order of the machine, which the hash function sees. *)
Variable htons : Z -> Z.

Definition IPregistry_canonicalize (a : ip_addr) : ip_addr :=
  (if irc_in_addr_is_ipv4 a then [0x2002; nth 6 a 0; nth 7 a 0; 0] else take 4 a) ++ [0; 0; 0; 0].

Definition CALCULATE_HASH (a : ip_addr) : Z :=
  let s i := htons (nth i a 0) in
  Z.land (Z.lxor (Z.lxor (Z.lxor (s 0%nat) (s 1%nat)) (s 2%nat)) (s 3%nat)) (HASHTABSIZE - 1).

Definition NOW (v : env) : Z := u16 (Z.land (now v) BITMASK).
Definition CONNECTED_SINCE (v : env) (e : IPregistry) : Z :=
  u16 (Z.land (now v) BITMASK - last_connect e).

Definition bits_of (a : ip_addr) : Z := if decide (nth 0 a 0 = 0x2002) then 48 else 64.

(** * Vectors *)

Definition bucket (r : registry) (h : Z) : IPregistry_vector :=
  default (mkVector [] 0) (hashtable r !! h).
Definition set_bucket (r : registry) (h : Z) (v : IPregistry_vector) : registry :=
  mkRegistry (<[h := v]> (hashtable r)) (count r) (average_length r).

(** The element is written behind the others, where the allocated length, of
    16 bits, must leave room for it. *)
Definition IPregistry_add (v : IPregistry_vector) (e : IPregistry) : result IPregistry_vector :=
  let len := Z.of_nat (length (vector v)) in
  let alloc := if decide (len = allocated_length v) then u16 (allocated_length v + 4)
               else allocated_length v in
  if decide (len < alloc) then Ok (mkVector (vector v ++ [e]) alloc) else Ub.

(** The result is the index of the entry found. *)
Fixpoint find_loop (l : list IPregistry) (ip : ip_addr) (i : nat) : result (option nat) :=
  match l with
  | [] => Ok None
  | e :: l =>
      eip ← IP e;
      if decide (ipmask_check ip eip (bits_of ip) <> 0) then Ok (Some i)
      else find_loop l ip (S i)
  end.

Definition IPregistry_find (v : IPregistry_vector) (ip : ip_addr) : result (option nat) :=
  find_loop (vector v) ip 0.

(** [if (--count == 0) { count = 10000; average_length = ...; }] *)
Definition tick (v : env) (c avg : Z) : Z * Z :=
  let c := u16 (c - 1) in
  if decide (c = 0) then (10000, u16 (population v / HASHTABSIZE)) else (c, avg).

(** An unconnected entry that is not the one looked for: it expires, loses its
    targets, or is left. *)
Inductive expiry := Expired | Kept (e : IPregistry).

Definition expire_entry (v : env) (e : IPregistry) : result expiry :=
  if decide (connected e = 0) then
    if decide (CONNECTED_SINCE v e > 600) then
      _ ← (if HAS_TARGETS e then p ← ptr e; Ok tt else Ok tt); Ok Expired
    else if decide (CONNECTED_SINCE v e > 120 /\ HAS_TARGETS e = true) then
      p ← ptr e;
      Ok (Kept (set_targets (U_ip (t_ip p)) (set_free_targets (u4 (t_free_targets p)) e)))
    else Ok (Kept e)
  else Ok (Kept e).

(** The loop over the elements before the last one. *)
Fixpoint expire_loop (fuel : nat) (v : env) (l : list IPregistry) (ip : ip_addr)
    (curr : nat) (retval : option nat) (c avg : Z)
    : result (list IPregistry * nat * option nat * Z * Z) :=
  match fuel with
  | O => Fuel
  | S fuel =>
      if decide (curr < length l - 1)%nat then
        e ← rd l curr;
        eip ← IP e;
        if decide (ipmask_check ip eip (bits_of ip) <> 0) then
          expire_loop fuel v l ip (S curr) (Some curr) c avg
        else
          x ← expire_entry v e;
          match x with
          | Expired =>
              last ← rd l (length l - 1);
              let l := removelast (<[curr := last]> l) in
              let '(c, avg) := tick v c avg in
              expire_loop fuel v l ip curr retval c avg
          | Kept e => expire_loop fuel v (<[curr := e]> l) ip (S curr) retval c avg
          end
      else Ok (l, curr, retval, c, avg)
  end.

(** The result is the bucket, the counters and the index of the entry found,
    if any: the callers follow the pointer without a test. *)
Definition IPregistry_find_with_expire (v : env) (vec : IPregistry_vector) (ip : ip_addr)
    (c avg : Z) : result (IPregistry_vector * option nat * Z * Z) :=
  '(l, curr, retval, c, avg) ← expire_loop (S (length (vector vec))) v (vector vec) ip 0 None c avg;
  e ← rd l curr;
  eip ← IP e;
  '(l, retval, c, avg) ← (
    if decide (ipmask_check ip eip (bits_of ip) <> 0) then Ok (l, Some curr, c, avg)
    else
      x ← expire_entry v e;
      match x with
      | Expired => let '(c, avg) := tick v c avg in Ok (removelast l, retval, c, avg)
      | Kept e => Ok (<[curr := e]> l, retval, c, avg)
      end);
  let len := Z.of_nat (length l) in
  let alloc := if decide (allocated_length vec > avg /\ allocated_length vec - len >= 4)
               then len else allocated_length vec in
  Ok (mkVector l alloc, retval, c, avg).

Definition reset_connect_time (v : env) (e : IPregistry) : result IPregistry :=
  ft ← FREE_TARGETS e;
  let previous_free_targets := ft + CONNECTED_SINCE v e / TARGET_DELAY in
  let previous_free_targets :=
    if decide (previous_free_targets > STARTTARGETS) then STARTTARGETS
    else previous_free_targets in
  e ← (if HAS_TARGETS e then
         p ← ptr e;
         Ok (set_targets (U_ptr (mkTargets (t_ip p) previous_free_targets (t_targets p))) e)
       else Ok (set_free_targets previous_free_targets e));
  Ok (set_last_connect (NOW v) e).

(** * Events *)

Definition new_entry (v : env) (canon : ip_addr) (attempts : Z) : IPregistry :=
  mkEntry (U_ip canon) (NOW v) 1 attempts STARTTARGETS.

Definition update_entry (r : registry) (h : Z) (i : nat) (e : IPregistry) : registry :=
  let vec := bucket r h in
  set_bucket r h (mkVector (<[i := e]> (vector vec)) (allocated_length vec)).

Definition set_nexttarget x c := mkClient (ip c) x (firsttime c) (targets c) (MyConnect c).

(** [if (++(entry->connect_attempts) == 0) --(entry->connect_attempts);] *)
Definition bump_attempts (e : IPregistry) : IPregistry :=
  let x := u4 (connect_attempts e + 1) in
  set_attempts (if decide (x = 0) then u4 (x - 1) else x) e.

Definition IPcheck_local_connect (v : env) (clones : bool) (r : registry) (cptr : client)
    : result (registry * client * Z) :=
  let canon := IPregistry_canonicalize (ip cptr) in
  let h := CALCULATE_HASH canon in
  found ← IPregistry_find (bucket r h) canon;
  match found with
  | None =>
      vec ← IPregistry_add (bucket r h) (new_entry v canon 1);
      Ok (set_bucket r h vec, cptr, 0)
  | Some i =>
      entry ← rd (vector (bucket r h)) i;
      let entry := set_connected (u16 (connected entry + 1)) entry in
      if decide (connected entry = 0) then Ok (update_entry r h i entry, cptr, -2)
      else
        let entry := if decide (CONNECTED_SINCE v entry > IPCHECK_CLONE_PERIOD \/ clones = true)
                     then set_attempts 0 entry else entry in
        entry ← reset_connect_time v entry;
        let entry := bump_attempts entry in
        let r := update_entry r h i entry in
        if decide (connect_attempts entry <= IPCHECK_CLONE_LIMIT) then
          ft ← FREE_TARGETS entry;
          let cptr := set_nexttarget (now v -
            TARGET_DELAY * ((if clones then STARTTARGETS else ft) - 1)) cptr in
          Ok (r, cptr, 0)
        else if clones then Ok (r, cptr, 0)
        else if decide (now v - me_since v > IPCHECK_CLONE_DELAY) then Ok (r, cptr, -1)
        else Ok (r, cptr, 0)
  end.

Definition IPcheck_remote_connect (v : env) (r : registry) (cptr : client) (is_burst : bool)
    : result (registry * Z) :=
  let canon := IPregistry_canonicalize (ip cptr) in
  let h := CALCULATE_HASH canon in
  found ← IPregistry_find (bucket r h) canon;
  match found with
  | None =>
      vec ← IPregistry_add (bucket r h) (new_entry v canon (if is_burst then 1 else 0));
      Ok (set_bucket r h vec, 0)
  | Some i =>
      entry ← rd (vector (bucket r h)) i;
      let entry := set_connected (u16 (connected entry + 1)) entry in
      if decide (connected entry = 0) then Ok (update_entry r h i entry, -1)
      else
        let entry := if decide (CONNECTED_SINCE v entry > IPCHECK_CLONE_PERIOD)
                     then set_attempts 0 entry else entry in
        entry ← (if is_burst then Ok entry else reset_connect_time v (bump_attempts entry));
        Ok (update_entry r h i entry, 0)
  end.

(** The pointer that the search returns is followed without a test. *)
Definition found_entry (r : registry) (cptr : client) : result (Z * nat * IPregistry) :=
  let canon := IPregistry_canonicalize (ip cptr) in
  let h := CALCULATE_HASH canon in
  found ← IPregistry_find (bucket r h) canon;
  i ← of_option found;
  entry ← rd (vector (bucket r h)) i;
  Ok (h, i, entry).

Definition IPcheck_connect_fail (r : registry) (cptr : client) : result registry :=
  '(h, i, entry) ← found_entry r cptr;
  Ok (update_entry r h i (set_attempts (u4 (connect_attempts entry - 1)) entry)).

(** The notice that tells the client its counters is not part of the state. *)
Definition IPcheck_connect_succeeded (r : registry) (cptr : client) : result client :=
  '(_, _, entry) ← found_entry r cptr;
  if HAS_TARGETS entry then
    p ← ptr entry;
    Ok (mkClient (ip cptr) (nexttarget cptr) (firsttime cptr) (t_targets p) (MyConnect cptr))
  else Ok cptr.

(** What a local client leaves for the next one from its network. *)
Definition leave_targets (v : env) (canon : ip_addr) (cptr : client) (entry : IPregistry)
    : result IPregistry :=
  entry ← (if HAS_TARGETS entry then
             p ← ptr entry; Ok (set_free_targets (u4 (t_free_targets p)) entry)
           else Ok entry);
  let inheritance :=
    if decide (nexttarget cptr <= now v)
    then u32 (Z.quot (now v - nexttarget cptr) TARGET_DELAY + 1) else 0 in
  let inheritance :=
    if decide (now v - firsttime cptr > 600)
    then u32 (inheritance + Z.quot (now v - firsttime cptr - 600) TARGET_DELAY)
    else inheritance in
  let free := if decide (inheritance < free_targets entry) then inheritance
              else free_targets entry in
  Ok (set_targets (U_ptr (mkTargets canon free (targets cptr)))
        (set_free_targets HAS_TARGETS_MAGIC entry)).

(** When the last client of the network is gone, the connect time is reset. *)
Definition settle (v : env) (entry : IPregistry) : result IPregistry :=
  if decide (connected entry = 0) then
    let entry :=
      if decide (CONNECTED_SINCE v entry > IPCHECK_CLONE_LIMIT * IPCHECK_CLONE_PERIOD)
      then set_attempts 0 entry else entry in
    reset_connect_time v entry
  else Ok entry.

Definition IPcheck_disconnect (v : env) (r : registry) (cptr : client) : result registry :=
  let canon := IPregistry_canonicalize (ip cptr) in
  let h := CALCULATE_HASH canon in
  '(vec, found, c, avg) ←
    IPregistry_find_with_expire v (bucket r h) canon (count r) (average_length r);
  let r := mkRegistry (<[h := vec]> (hashtable r)) c avg in
  i ← of_option found;
  entry ← rd (vector vec) i;
  let entry := set_connected (u16 (connected entry - 1)) entry in
  entry ← settle v entry;
  entry ← (if MyConnect cptr then leave_targets v canon cptr entry else Ok entry);
  Ok (update_entry r h i entry).

Definition IPcheck_nr (r : registry) (cptr : client) : result Z :=
  let canon := IPregistry_canonicalize (ip cptr) in
  let h := CALCULATE_HASH canon in
  found ← IPregistry_find (bucket r h) canon;
  match found with
  | Some i => entry ← rd (vector (bucket r h)) i; Ok (connected entry)
  | None => Ok 0
  end.

End ipcheck.

(** * Networks *)

Section counts.

Variable htons : Z -> Z.
Implicit Types (a : ip_addr) (e : IPregistry) (l : list IPregistry) (v : env).

(** The segments that the search compares: 48 bits of a 6to4 address, 64 bits
    of any other. *)
Definition netkey a : list Z := if decide (nth 0 a 0 = 0x2002) then take 3 a else take 4 a.

Lemma ipmask_check_net a b :
  length a = 8%nat -> length b = 8%nat ->
  ipmask_check a b (bits_of a) <> 0 <-> netkey b = netkey a.
Proof.
  intros Ha Hb. do 8 (destruct a as [|? a]; [done|]). destruct a; [|done].
  do 8 (destruct b as [|? b]; [done|]). destruct b; [|done].
  unfold bits_of, netkey. simpl nth. simpl take. cbn [ipmask_check].
  repeat (case_decide; subst); simplify_eq/=;
    try (split; [intros Hx; try done; try lia|intros Hx; simplify_eq; try done; try lia]).
Qed.

Definition eip e : ip_addr := match ip_targets e with U_ip a => a | U_ptr p => t_ip p end.
Definition ekey e : list Z := netkey (eip e).

(** A well-formed entry: the tag tells the truth about the union, and the
    numbers fit their fields. *)
Definition entry_ok e : Prop :=
  length (eip e) = 8%nat /\ 0 <= connected e < 65536 /\
  match ip_targets e with
  | U_ip _ => 0 <= free_targets e <= STARTTARGETS
  | U_ptr p => free_targets e = HAS_TARGETS_MAGIC /\ 0 <= t_free_targets p <= STARTTARGETS
  end.

Lemma entry_ok_IP e : entry_ok e -> IP e = Ok (eip e).
Proof.
  intros (_&_&H). unfold IP, HAS_TARGETS, ptr, eip. destruct (ip_targets e) as [a|p].
  - rewrite bool_decide_false; [done|]. unfold HAS_TARGETS_MAGIC, STARTTARGETS in *. lia.
  - destruct H as [-> _]. by rewrite bool_decide_true.
Qed.

Definition keys l : list (list Z) := ekey <$> l.

Lemma find_loop_spec l a i :
  Forall entry_ok l -> length a = 8%nat ->
  exists o, find_loop l a i = Ok o /\
    match o with
    | Some j => exists n e, j = (i + n)%nat /\ l !! n = Some e /\ ekey e = netkey a
    | None => netkey a ∉ keys l
    end.
Proof.
  intros Hl Ha. revert i. induction Hl as [|e l He Hl IH]; intros i.
  - exists None. split; [done|]. by apply not_elem_of_nil.
  - cbn [find_loop]. rewrite entry_ok_IP by done. cbn [mbind result_bind].
    assert (Hiff := ipmask_check_net a (eip e) Ha (proj1 He)). case_decide as E.
    + exists (Some i). split; [done|]. exists 0%nat, e. split_and!; [lia|done|by apply Hiff].
    + destruct (IH (S i)) as (o&->&Ho). exists o. split; [done|]. destruct o as [j|].
      * destruct Ho as (n&e'&->&?&?). exists (S n), e'. split_and!; [lia|done..].
      * apply not_elem_of_cons. split; [|done]. intros Hk. exact (proj2 Hiff (eq_sym Hk) E).
Qed.

(** * The expected counts of a bucket *)

Record bucket_ok l (f : list Z -> Z) : Prop := {
  bk_ok : Forall entry_ok l;
  bk_nodup : NoDup (keys l);
  bk_count : forall e, e ∈ l -> connected e = f (ekey e);
  bk_all : forall k, f k <> 0 -> k ∈ keys l }.

Lemma elem_of_keys e l : e ∈ l -> ekey e ∈ keys l.
Proof. intros H. apply list_elem_of_fmap. by exists e. Qed.

Lemma keys_elem k l : k ∈ keys l -> exists e, e ∈ l /\ ekey e = k.
Proof. intros (e&->&He)%list_elem_of_fmap. by exists e. Qed.

Lemma find_entry l f a :
  bucket_ok l f -> length a = 8%nat ->
  (find_loop l a 0 = Ok None /\ f (netkey a) = 0 /\ netkey a ∉ keys l) \/
  (exists i e, find_loop l a 0 = Ok (Some i) /\ l !! i = Some e /\ ekey e = netkey a /\
     connected e = f (netkey a) /\ entry_ok e).
Proof.
  intros [Hok Hnd Hc Hall] Ha. destruct (find_loop_spec l a 0 Hok Ha) as (o&Hf&Ho).
  destruct o as [i|]; [right|left].
  - destruct Ho as (n&e&->&Hn&Hk). exists n, e. split_and!; try done.
    + rewrite <- Hk. apply Hc. by eapply list_elem_of_lookup_2.
    + rewrite Forall_lookup in Hok. by eapply Hok.
  - split_and!; try done. destruct (decide (f (netkey a) = 0)) as [|Hne]; [done|].
    by apply Hall in Hne.
Qed.

(** Overwriting an entry by one for the same network *)
Lemma bucket_ok_update l f i e e' g :
  bucket_ok l f -> l !! i = Some e -> entry_ok e' -> ekey e' = ekey e ->
  g (ekey e) = connected e' -> (forall k, k <> ekey e -> g k = f k) ->
  bucket_ok (<[i := e']> l) g.
Proof.
  intros [Hok Hnd Hc Hall] Hi He' Hk Hg Hoth.
  assert (Hkeys : keys (<[i := e']> l) = keys l).
  { unfold keys. rewrite (list_fmap_insert ekey l i e').
    apply list_insert_id. rewrite list_lookup_fmap, Hi. simpl. by rewrite Hk. }
  constructor.
  - by apply Forall_insert.
  - by rewrite Hkeys.
  - intros e2 (j&Hj)%list_elem_of_lookup. destruct (decide (i = j)) as [<-|Hne].
    + rewrite list_lookup_insert_eq in Hj by (by eapply lookup_lt_Some). simplify_eq.
      by rewrite Hk.
    + rewrite list_lookup_insert_ne in Hj by done. rewrite Hoth.
      * apply Hc. by eapply list_elem_of_lookup_2.
      * intros E. apply Hne. eapply (NoDup_lookup _ i j (ekey e) Hnd);
          unfold keys; rewrite list_lookup_fmap; [by rewrite Hi|by rewrite Hj; simpl; rewrite E].
  - intros k Hgk. rewrite Hkeys. destruct (decide (k = ekey e)) as [->|Hne].
    + apply elem_of_keys. by eapply list_elem_of_lookup_2.
    + apply Hall. by rewrite <- Hoth.
Qed.

(** A new entry *)
Lemma bucket_ok_add l f e g :
  bucket_ok l f -> entry_ok e -> ekey e ∉ keys l ->
  g (ekey e) = connected e -> (forall k, k <> ekey e -> g k = f k) ->
  bucket_ok (l ++ [e]) g.
Proof.
  intros [Hok Hnd Hc Hall] He Hk Hg Hoth. constructor.
  - by apply Forall_app_2; [|constructor].
  - unfold keys. rewrite fmap_app. apply NoDup_app. split_and!; [done| |by apply NoDup_singleton].
    intros k Hin ->%list_elem_of_singleton. done.
  - intros e2 [Hin| ->%list_elem_of_singleton]%elem_of_app; [|done].
    rewrite Hoth; [by apply Hc|]. intros E. apply Hk. rewrite <- E. by apply elem_of_keys.
  - intros k Hgk. unfold keys. rewrite fmap_app. apply elem_of_app.
    destruct (decide (k = ekey e)) as [->|Hne]; [right; by left|left; apply Hall; by rewrite <- Hoth].
Qed.

(** Entries may be dropped, when they count nobody, permuted and changed in
    other fields. *)
Definition survives (K : list Z) l l' : Prop :=
  Forall entry_ok l' /\ NoDup (keys l') /\
  (forall e', e' ∈ l' -> exists e, e ∈ l /\ ekey e = ekey e' /\ connected e = connected e') /\
  (forall e, e ∈ l -> connected e <> 0 \/ ekey e = K ->
     exists e', e' ∈ l' /\ ekey e' = ekey e /\ connected e' = connected e).

Lemma survives_refl K l : Forall entry_ok l -> NoDup (keys l) -> survives K l l.
Proof. intros. split_and!; eauto. Qed.

Lemma survives_trans K l1 l2 l3 : survives K l1 l2 -> survives K l2 l3 -> survives K l1 l3.
Proof.
  intros (_&_&A1&B1) (C2&D2&A2&B2). split_and!; try done.
  - intros e3 (e2&Hin2&Hk2&Hc2)%A2. destruct (A1 e2 Hin2) as (e1&?&?&?).
    exists e1. split_and!; [done|congruence..].
  - intros e1 Hin1 Hor. destruct (B1 e1 Hin1 Hor) as (e2&Hin2&Hk2&Hc2).
    destruct (B2 e2 Hin2) as (e3&?&?&?); [rewrite Hk2, Hc2; done|].
    exists e3. split_and!; [done|congruence..].
Qed.

Lemma survives_length K l l' : survives K l l' -> (length l' <= length l)%nat.
Proof.
  intros (_&Hnd&H&_). rewrite <- !(length_fmap ekey). apply submseteq_length.
  apply NoDup_submseteq; [done|]. intros k (e'&->&(e&?&<-&_)%H)%list_elem_of_fmap.
  by apply list_elem_of_fmap_2.
Qed.

Lemma survives_bucket K l l' f : survives K l l' -> bucket_ok l f -> bucket_ok l' f.
Proof.
  intros (Hok&Hnd&A&B) [_ _ Hc Hall]. constructor; try done.
  - intros e' (e&Hin&Hk&Hcn)%A. by rewrite <- Hk, <- Hcn, Hc.
  - intros k Hk. destruct (keys_elem _ _ (Hall k Hk)) as (e&Hin&He).
    destruct (B e Hin) as (e'&Hin'&Hk'&_); [left; rewrite Hc, He; done|].
    rewrite <- He, <- Hk'. by apply elem_of_keys.
Qed.

Lemma survives_kept K l i e e' :
  Forall entry_ok l -> NoDup (keys l) -> l !! i = Some e ->
  entry_ok e' -> ekey e' = ekey e -> connected e' = connected e -> survives K l (<[i := e']> l).
Proof.
  intros Hok Hnd Hi He' Hk Hc. assert (Hlt := lookup_lt_Some _ _ _ Hi). split_and!.
  - by apply Forall_insert.
  - unfold keys. rewrite (list_fmap_insert ekey l i e'), list_insert_id; [done|].
    rewrite list_lookup_fmap, Hi. simpl. by rewrite Hk.
  - intros e2 (j&Hj)%list_elem_of_lookup. destruct (decide (i = j)) as [<-|Hne].
    + rewrite list_lookup_insert_eq in Hj by done. simplify_eq.
      exists e. split_and!; [by eapply list_elem_of_lookup_2|done..].
    + rewrite list_lookup_insert_ne in Hj by done. exists e2.
      split_and!; [by eapply list_elem_of_lookup_2|done..].
  - intros e2 (j&Hj)%list_elem_of_lookup _. destruct (decide (i = j)) as [<-|Hne].
    + simplify_eq. exists e'. split_and!; [|done..]. eapply list_elem_of_lookup_2.
      by apply list_lookup_insert_eq.
    + exists e2. split_and!; [|done..]. eapply list_elem_of_lookup_2.
      by rewrite list_lookup_insert_ne.
Qed.

Lemma survives_dropped K l l' e :
  Forall entry_ok l -> NoDup (keys l) -> l ≡ₚ e :: l' -> connected e = 0 -> ekey e <> K ->
  survives K l l'.
Proof.
  intros Hok Hnd Hp Hc Hk. split_and!.
  - rewrite Hp in Hok. by apply Forall_cons in Hok as [].
  - unfold keys in *. rewrite Hp in Hnd. by apply NoDup_cons in Hnd as [].
  - intros e' Hin. exists e'. split_and!; [|done..]. rewrite Hp. by right.
  - intros e2 Hin Hor. rewrite Hp in Hin. apply elem_of_cons in Hin as [->|Hin]; [tauto|].
    by exists e2.
Qed.

(** * The search that expires entries *)

Lemma expire_entry_spec v e :
  entry_ok e ->
  expire_entry v e = Ok Expired /\ connected e = 0 \/
  exists e', expire_entry v e = Ok (Kept e') /\ entry_ok e' /\ ekey e' = ekey e /\
    connected e' = connected e.
Proof.
  intros (Hlen&Hc&Hu). unfold expire_entry, ekey, eip, entry_ok in *.
  destruct (decide (connected e = 0)) as [Hz|]; [|right; by exists e].
  assert (Hp : HAS_TARGETS e = true -> exists p, ip_targets e = U_ptr p /\
    0 <= t_free_targets p <= STARTTARGETS).
  { unfold HAS_TARGETS. intros H%bool_decide_eq_true. destruct (ip_targets e) as [|p].
    - rewrite H in Hu. by destruct Hu.
    - destruct Hu. by exists p. }
  destruct (decide _).
  - left. split; [|done]. destruct (HAS_TARGETS e); [|done].
    destruct Hp as (p&Hp&_); [done|]. unfold ptr. by rewrite Hp.
  - destruct (decide _) as [[_ HT]|]; [|right; by exists e].
    destruct (Hp HT) as (p&Hp'&Hb). right. unfold ptr. rewrite Hp'. simpl.
    eexists. split; [done|]. simpl. rewrite Hp' in Hlen. unfold STARTTARGETS, u4 in *.
    rewrite Z.mod_small by lia. done.
Qed.

Definition ret_ok l a (curr : nat) (ret : option nat) : Prop :=
  match ret with
  | Some j => (j < curr)%nat /\ exists e, l !! j = Some e /\ ekey e = netkey a
  | None => forall j e, (j < curr)%nat -> l !! j = Some e -> ekey e <> netkey a
  end.

Lemma ret_ok_prefix l l' a curr ret :
  (forall j, (j < curr)%nat -> l' !! j = l !! j) -> ret_ok l a curr ret -> ret_ok l' a curr ret.
Proof.
  intros Hl. destruct ret as [j|]; simpl.
  - intros [Hj (e&?&?)]. split; [done|]. exists e. by rewrite Hl.
  - intros H j e Hj. rewrite Hl by done. by apply H.
Qed.

Lemma split_at_last l (i : nat) e :
  l !! i = Some e -> (i < length l - 1)%nat ->
  exists l1 l2 z, l = l1 ++ e :: l2 ++ [z] /\ length l1 = i.
Proof.
  intros Hi Hlt. apply list_elem_of_split_length in Hi as (l1&l2&->&->).
  destruct l2 as [|z l2 _] using rev_ind; [rewrite length_app in Hlt; simpl in Hlt; lia|].
  by exists l1, l2, z.
Qed.

Lemma replace_by_last l1 l2 e z :
  removelast (<[length l1 := z]> (l1 ++ e :: l2 ++ [z])) = l1 ++ z :: l2.
Proof.
  rewrite insert_app_r_alt, Nat.sub_diag by lia. simpl.
  by rewrite app_comm_cons, app_assoc, removelast_last.
Qed.

Lemma destruct_last l curr e :
  l !! curr = Some e -> length l = S curr -> exists l0, l = l0 ++ [e] /\ length l0 = curr.
Proof.
  intros He Hlen. destruct l as [|z l0 _] using rev_ind; [done|].
  rewrite length_app in Hlen. simpl in Hlen. exists l0.
  rewrite list_lookup_middle in He by lia. simplify_eq. split; [done|lia].
Qed.

Lemma rd_last l z : rd (l ++ [z]) (length (l ++ [z]) - 1) = Ok z.
Proof.
  unfold rd. rewrite length_app. simpl. replace (length l + 1 - 1)%nat with (length l) by lia.
  by rewrite list_lookup_middle.
Qed.

Lemma survives_nodup K l l' : survives K l l' -> Forall entry_ok l' /\ NoDup (keys l').
Proof. by intros (?&?&_). Qed.

Lemma expire_loop_spec fuel v l a curr ret c avg :
  Forall entry_ok l -> NoDup (keys l) -> length a = 8%nat -> (curr < length l)%nat ->
  (length l - curr < fuel)%nat -> ret_ok l a curr ret ->
  exists l' curr' ret' c' avg',
    expire_loop fuel v l a curr ret c avg = Ok (l', curr', ret', c', avg') /\
    survives (netkey a) l l' /\ length l' = S curr' /\ ret_ok l' a curr' ret'.
Proof.
  revert l curr ret c avg.
  induction fuel as [|fuel IH]; intros l curr ret c avg Hok Hnd Ha Hcl Hf Hr; [lia|].
  cbn [expire_loop]. destruct (decide (curr < length l - 1)%nat) as [Hlt|].
  2:{ exists l, curr, ret, c, avg. split_and!; [done|by apply survives_refl|lia|done]. }
  destruct (lookup_lt_is_Some_2 l curr Hcl) as (e&He). rewrite (rd_Some _ _ _ He).
  assert (Heo : entry_ok e) by (rewrite Forall_lookup in Hok; by eapply Hok).
  cbn [mbind result_bind]. rewrite entry_ok_IP by done. cbn [mbind result_bind].
  assert (Hiff := ipmask_check_net a (eip e) Ha (proj1 Heo)).
  destruct (decide _) as [Hm|Hm].
  { apply IH; try done; [lia..|]. split; [lia|]. exists e. split; [done|]. by apply Hiff. }
  assert (Hk : ekey e <> netkey a) by tauto.
  destruct (expire_entry_spec v e Heo) as [[-> Hz]|(e'&->&He'&Hk'&Hc')];
    cbn [mbind result_bind].
  - destruct (split_at_last l curr e He Hlt) as (l1&l2&z&->&<-).
    rewrite app_comm_cons, app_assoc, rd_last. cbn [mbind result_bind].
    rewrite <- app_assoc, <- app_comm_cons, replace_by_last.
    destruct (tick v c avg) as [c1 avg1].
    assert (Hs : survives (netkey a) (l1 ++ e :: l2 ++ [z]) (l1 ++ z :: l2)).
    { apply (survives_dropped _ _ _ e); try done. rewrite <- Permutation_middle.
      by rewrite (Permutation_app_comm l2 [z]). }
    destruct (survives_nodup _ _ _ Hs) as [Hok1 Hnd1].
    rewrite length_app in *. simpl in *. rewrite ?length_app in *. simpl in *.
    destruct (IH (l1 ++ z :: l2) (length l1) ret c1 avg1) as (l'&curr'&ret'&c'&avg'&->&Hs'&?&?);
      try done; rewrite ?length_app; simpl; try lia.
    + eapply ret_ok_prefix, Hr. intros j Hj. by rewrite !lookup_app_l by lia.
    + exists l', curr', ret', c', avg'. split_and!; try done. by eapply survives_trans.
  - assert (Hs := survives_kept (netkey a) l curr e e' Hok Hnd He He' Hk' Hc').
    destruct (survives_nodup _ _ _ Hs) as [Hok1 Hnd1].
    destruct (IH (<[curr := e']> l) (S curr) ret c avg) as (l'&curr'&ret1&c'&avg'&->&Hs'&?&?);
      try done; rewrite ?length_insert; try lia.
    + destruct ret as [j|]; simpl in *.
      * destruct Hr as [Hj (e1&He1&Hk1)]. split; [lia|]. exists e1.
        by rewrite list_lookup_insert_ne by lia.
      * intros j e1 Hj. destruct (decide (j = curr)) as [->|Hne].
        -- rewrite list_lookup_insert_eq by done. intros [= <-]. by rewrite Hk'.
        -- rewrite list_lookup_insert_ne by done. apply Hr. lia.
    + exists l', curr', ret1, c', avg'. split_and!; try done. by eapply survives_trans.
Qed.

(** The elements fit the memory of the vector. *)
Definition room (vec : IPregistry_vector) : Prop :=
  Z.of_nat (length (vector vec)) <= allocated_length vec < 65536.

(** Of a bucket that has an entry for the network of [a], the search finds the
    entry, and what it drops counts nobody. *)
Lemma find_with_expire_spec v vec a c avg f :
  bucket_ok (vector vec) f -> room vec -> length a = 8%nat -> f (netkey a) <> 0 ->
  exists vec' i e c' avg',
    IPregistry_find_with_expire v vec a c avg = Ok (vec', Some i, c', avg') /\
    bucket_ok (vector vec') f /\ room vec' /\ vector vec' !! i = Some e /\ ekey e = netkey a /\
    connected e = f (netkey a).
Proof.
  intros Hb Hroom Ha Hf. assert (Hin := bk_all _ _ Hb _ Hf). assert (Hb' := Hb). destruct Hb' as [Hok Hnd Hc Hall].
  set (l := vector vec) in *.
  assert (Hne : (0 < length l)%nat).
  { destruct l; [by apply not_elem_of_nil in Hin|simpl; lia]. }
  destruct (expire_loop_spec (S (length l)) v l a 0 None c avg)
    as (l1&curr&ret&c1&avg1&Heq&Hs&Hlen&Hr); try done; [lia|intros j ? Hj; lia|].
  unfold IPregistry_find_with_expire. fold l. rewrite Heq. cbn [mbind result_bind].
  destruct (lookup_lt_is_Some_2 l1 curr) as (e&He); [lia|].
  destruct (survives_nodup _ _ _ Hs) as [Hok1 Hnd1].
  assert (Heo : entry_ok e) by (rewrite Forall_lookup in Hok1; by eapply Hok1).
  rewrite (rd_Some _ _ _ He). cbn [mbind result_bind]. rewrite entry_ok_IP by done.
  cbn [mbind result_bind].
  assert (Hiff := ipmask_check_net a (eip e) Ha (proj1 Heo)).
  assert (Hfin : exists l2 i e2 c2 avg2, (
    (if decide (ipmask_check a (eip e) (bits_of a) <> 0) then Ok (l1, Some curr, c1, avg1)
    else
      x ← expire_entry v e;
      match x with
      | Expired => let '(c, avg) := tick v c1 avg1 in Ok (removelast l1, ret, c, avg)
      | Kept e => Ok (<[curr := e]> l1, ret, c1, avg1)
      end) = Ok (l2, Some i, c2, avg2)) /\ survives (netkey a) l l2 /\
    l2 !! i = Some e2 /\ ekey e2 = netkey a).
  { destruct (decide _) as [Hm|Hm].
    - exists l1, curr, e, c1, avg1. split_and!; try done. by apply Hiff.
    - assert (Hk : ekey e <> netkey a) by tauto.
      destruct ret as [i|].
      2:{ exfalso. apply (bk_all _ _ (survives_bucket _ _ _ f Hs Hb)) in Hf.
          apply keys_elem in Hf as (e1&(j&Hj)%list_elem_of_lookup&Hk1).
          assert (j < length l1)%nat by (by eapply lookup_lt_Some).
          destruct (decide (j = curr)) as [->|]; [congruence|].
          eapply (Hr j e1); [lia|done..]. }
      destruct Hr as [Hi (e2&He2&Hk2)].
      destruct (expire_entry_spec v e Heo) as [[-> Hz]|(e'&->&He'&Hk'&Hc')];
        cbn [mbind result_bind].
      + destruct (tick v c1 avg1) as [c2 avg2].
        destruct (destruct_last l1 curr e He Hlen) as (l0&->&Hl0).
        exists (removelast (l0 ++ [e])), i, e2, c2, avg2. rewrite removelast_last.
        split_and!; try done.
        * eapply survives_trans; [done|]. apply (survives_dropped _ _ _ e); try done.
          by rewrite (Permutation_app_comm l0 [e]).
        * by rewrite lookup_app_l in He2 by lia.
      + exists (<[curr := e']> l1), i, e2, c1, avg1. split_and!; try done.
        * eapply survives_trans; [done|]. by eapply survives_kept.
        * by rewrite list_lookup_insert_ne by lia. }
  destruct Hfin as (l2&i&e2&c2&avg2&->&Hs2&Hi&Hk). cbn [mbind result_bind].
  eexists _, i, e2, c2, avg2. split; [done|]. simpl.
  assert (Hb2 : bucket_ok l2 f) by (by eapply survives_bucket).
  assert (Hlen2 := survives_length _ _ _ Hs2). unfold room in *. fold l in Hroom.
  split; [done|]. split; [simpl; destruct (decide _); lia|]. split_and!; try done.
  rewrite <- Hk. apply (bk_count _ _ Hb2). by eapply list_elem_of_lookup_2.
Qed.

(** * Entries under the events *)

(** [changes n e e']: [e'] is a well-formed entry of the network of [e] that
    counts [n] clients. *)
Definition changes (n : Z) e e' : Prop := entry_ok e' /\ ekey e' = ekey e /\ connected e' = n.

Lemma changes_trans n m e1 e2 e3 : changes n e1 e2 -> changes m e2 e3 -> changes m e1 e3.
Proof. intros (_&H&_) (?&?&?). split_and!; congruence || done. Qed.

Lemma changes_ok n e e' : changes n e e' -> entry_ok e'.
Proof. by intros []. Qed.

(** A further change that keeps the count *)
Lemma changes_then n e1 e2 e3 : changes n e1 e2 -> changes (connected e2) e2 e3 -> changes n e1 e3.
Proof. intros (_&H&<-) (?&?&?). split_and!; congruence || done. Qed.

Lemma changes_refl e : entry_ok e -> changes (connected e) e e.
Proof. done. Qed.

Lemma set_connected_changes n e : entry_ok e -> 0 <= n < 65536 -> changes n e (set_connected n e).
Proof. by intros (?&?&?) ?. Qed.

Lemma set_attempts_changes x e : entry_ok e -> changes (connected e) e (set_attempts x e).
Proof. by intros (?&?&?). Qed.

Lemma if_attempts_changes P `{!Decision P} x e :
  entry_ok e -> changes (connected e) e (if decide P then set_attempts x e else e).
Proof. intros. destruct (decide P); [by apply set_attempts_changes|by apply changes_refl]. Qed.

Lemma entry_ok_targets e : entry_ok e ->
  HAS_TARGETS e = false /\ 0 <= free_targets e <= STARTTARGETS /\ FREE_TARGETS e = Ok (free_targets e) \/
  exists p, HAS_TARGETS e = true /\ ip_targets e = U_ptr p /\ ptr e = Ok p /\
    0 <= t_free_targets p <= STARTTARGETS /\ FREE_TARGETS e = Ok (t_free_targets p).
Proof.
  intros (_&_&H). unfold FREE_TARGETS, HAS_TARGETS, ptr. destruct (ip_targets e) as [a|p].
  - left. rewrite bool_decide_false; [done|]. unfold HAS_TARGETS_MAGIC, STARTTARGETS in *. lia.
  - right. destruct H as [-> H]. exists p. by rewrite bool_decide_true.
Qed.

Lemma cap_targets x y :
  0 <= x <= STARTTARGETS -> 0 <= y ->
  0 <= (if decide (x + y > STARTTARGETS) then STARTTARGETS else x + y) <= STARTTARGETS.
Proof. unfold STARTTARGETS. intros. destruct (decide _); lia. Qed.

Lemma reset_connect_time_spec v e :
  entry_ok e -> exists e', reset_connect_time v e = Ok e' /\ changes (connected e) e e' /\
    connect_attempts e' = connect_attempts e /\ last_connect e' = NOW v.
Proof.
  intros Hok. unfold reset_connect_time.
  assert (0 <= CONNECTED_SINCE v e / TARGET_DELAY).
  { apply Z.div_pos; [|done]. unfold CONNECTED_SINCE, u16. apply Z.mod_pos_bound. done. }
  destruct Hok as (Hlen&Hc&Hu) eqn:E. clear E.
  destruct (entry_ok_targets e Hok) as [(->&Hf&->)|(p&->&Hp&->&Hf&->)]; cbn [mbind result_bind];
    eexists; (split; [done|]); (split; [|done]); unfold changes, entry_ok, ekey, eip in *; simpl.
  - destruct (ip_targets e); [|exfalso; unfold HAS_TARGETS_MAGIC, STARTTARGETS in *; lia].
    refine (conj (conj Hlen (conj Hc _)) (conj eq_refl eq_refl)). by apply cap_targets.
  - rewrite Hp in *.
    refine (conj (conj Hlen (conj Hc (conj (proj1 Hu) _))) (conj eq_refl eq_refl)).
    by apply cap_targets.
Qed.

Lemma bump_attempts_changes e : entry_ok e -> changes (connected e) e (bump_attempts e).
Proof. apply set_attempts_changes. Qed.

Lemma leave_targets_spec v a c e :
  entry_ok e -> length a = 8%nat -> ekey e = netkey a ->
  exists e', leave_targets v a c e = Ok e' /\ changes (connected e) e e'.
Proof.
  intros Hok Ha Hk. unfold leave_targets.
  assert (He1 : exists e1, (if HAS_TARGETS e then
             p ← ptr e; Ok (set_free_targets (u4 (t_free_targets p)) e)
           else Ok e) = Ok e1 /\ 0 <= free_targets e1 <= STARTTARGETS /\ connected e1 = connected e).
  { destruct (entry_ok_targets e Hok) as [(->&Hf&_)|(p&->&Hp&->&Hf&_)]; cbn [mbind result_bind].
    - by exists e.
    - eexists. split; [done|]. unfold STARTTARGETS, u4 in *. simpl.
      rewrite Z.mod_small by lia. done. }
  destruct He1 as (e1&->&Hf&Hc). cbn [mbind result_bind]. eexists. split; [done|].
  destruct Hok as (_&Hr&_). unfold changes, entry_ok, ekey, eip in *. simpl. rewrite Hc, Hk.
  split_and!; try done; try lia;
    repeat destruct (decide _); unfold u32, STARTTARGETS in *;
    try (match goal with |- context [?x mod ?y] => pose proof (Z.mod_pos_bound x y eq_refl) end);
    lia.
Qed.

Lemma canonicalize_length a : length a = 8%nat -> length (IPregistry_canonicalize a) = 8%nat.
Proof.
  intros Ha. unfold IPregistry_canonicalize. rewrite length_app.
  destruct (irc_in_addr_is_ipv4 a); [done|]. rewrite length_take, Ha. done.
Qed.

Lemma settle_spec v e :
  entry_ok e -> exists e', settle v e = Ok e' /\ changes (connected e) e e'.
Proof.
  intros He. unfold settle. destruct (decide (connected e = 0)); [|by exists e].
  set (e1 := if decide _ then _ else _).
  assert (H1 : changes (connected e) e e1) by by apply if_attempts_changes.
  clearbody e1. destruct (reset_connect_time_spec v e1 (changes_ok _ _ _ H1)) as (e2&->&H2&_).
  exists e2. split; [done|]. by eapply changes_then.
Qed.

Lemma if_leave_spec v a c e :
  entry_ok e -> length a = 8%nat -> ekey e = netkey a ->
  exists e', (if MyConnect c then leave_targets v a c e else Ok e) = Ok e' /\
    changes (connected e) e e'.
Proof. intros. destruct (MyConnect c); [by apply leave_targets_spec|by exists e]. Qed.

(** * Registries *)

(** A network: the bucket and the compared segments of the canonical address. *)
Definition network a : Z * list Z :=
  let canon := IPregistry_canonicalize a in (CALCULATE_HASH htons canon, netkey canon).

(** The clients of [cs] on the network [(h, k)] *)
Definition load (cs : list Numnicks.ip_addr) (h : Z) (k : list Z) : Z :=
  Z.of_nat (length (filter (fun a => network a = (h, k)) cs)).

(** The registry counts exactly the connected clients. *)
Definition Reg (r : registry) (cs : list Numnicks.ip_addr) : Prop :=
  Forall (fun a => length a = 8%nat) cs /\
  forall h, bucket_ok (vector (bucket r h)) (load cs h) /\ room (bucket r h).

Lemma load_cons a cs h k :
  load (a :: cs) h k = load cs h k + (if decide (network a = (h, k)) then 1 else 0).
Proof.
  unfold load. rewrite filter_cons. destruct (decide (network a = (h, k))); simpl; lia.
Qed.

Lemma load_perm cs cs' h k : cs ≡ₚ cs' -> load cs h k = load cs' h k.
Proof. intros H. unfold load. by rewrite H. Qed.

Lemma load_elem a cs : a ∈ cs -> load cs (network a).1 (network a).2 <> 0.
Proof.
  intros (l1&l2&->)%list_elem_of_split. rewrite <- (load_perm _ _ _ _ (Permutation_middle l1 l2 a)).
  rewrite load_cons. rewrite decide_True by (by destruct (network a)). unfold load. lia.
Qed.

Lemma bucket_set r h h' vec :
  bucket (set_bucket r h vec) h' = if decide (h = h') then vec else bucket r h'.
Proof.
  unfold bucket, set_bucket. simpl. destruct (decide (h = h')) as [->|].
  - by rewrite lookup_insert_eq.
  - by rewrite lookup_insert_ne.
Qed.

(** One bucket changes. *)
Lemma Reg_set r cs cs' h vec :
  Reg r cs -> Forall (fun a => length a = 8%nat) cs' ->
  bucket_ok (vector vec) (load cs' h) -> room vec ->
  (forall h' k, h' <> h -> load cs' h' k = load cs h' k) -> Reg (set_bucket r h vec) cs'.
Proof.
  intros [_ Hr] Hlen Hb Hroom Hoth. split; [done|]. intros h'. rewrite bucket_set.
  destruct (decide (h = h')) as [<-|Hne]; [done|].
  destruct (Hr h') as [[Hok Hnd Hc Hall] ?]. split; [|done]. constructor; try done.
  - intros e He. rewrite Hoth by done. by apply Hc.
  - intros k. rewrite Hoth by done. apply Hall.
Qed.

Lemma Reg_find r cs a :
  Reg r cs -> length a = 8%nat ->
  let h := (network a).1 in
  let canon := IPregistry_canonicalize a in
  let l := vector (bucket r h) in
  let k := (network a).2 in
  (find_loop l canon 0 = Ok None /\ load cs h k = 0 /\ k ∉ keys l) \/
  (exists i e, find_loop l canon 0 = Ok (Some i) /\ l !! i = Some e /\ ekey e = k /\
     connected e = load cs h k /\ entry_ok e).
Proof.
  intros [_ Hr] Ha h canon l k. apply (find_entry l (load cs h) canon); [apply Hr|].
  by apply canonicalize_length.
Qed.

(** The entry of the network of [a] changes its count by that of the clients. *)
Lemma Reg_update r cs cs' a i e e' :
  let h := (network a).1 in
  let k := netkey (IPregistry_canonicalize a) in
  Reg r cs -> Forall (fun a => length a = 8%nat) cs' ->
  vector (bucket r h) !! i = Some e -> ekey e = k ->
  changes (load cs' h k) e e' ->
  (forall h' k', (h', k') <> network a -> load cs' h' k' = load cs h' k') ->
  Reg (update_entry r h i e') cs'.
Proof.
  intros h k HR Hlen Hi Hk (He'&Hke'&Hc') Hoth. apply (Reg_set r cs); try done.
  2:{ destruct HR as [_ HR]. destruct (HR h) as [_ Hroom]. unfold room in *. simpl.
      by rewrite length_insert. }
  - simpl. apply (bucket_ok_update _ (load cs h) _ e); try done; [apply HR|by rewrite Hk|].
    intros k' Hne. apply Hoth. intros E. apply Hne. rewrite Hk. unfold k.
    unfold network in E. by simplify_eq.
  - intros h' k' Hne. apply Hoth. intros E. apply Hne. unfold h. by rewrite <- E.
Qed.

(** * Traces *)

Inductive event :=
  | ELocal (v : env) (clones : bool) (c : client)
  | ERemote (v : env) (is_burst : bool) (c : client)
  | EFail (c : client)
  | ESucceeded (c : client)
  | EDisconnect (v : env) (c : client).

Definition step (r : registry) (ev : event) : result registry :=
  match ev with
  | ELocal v clones c => '(r, _, _) ← IPcheck_local_connect htons v clones r c; Ok r
  | ERemote v is_burst c => '(r, _) ← IPcheck_remote_connect htons v r c is_burst; Ok r
  | EFail c => IPcheck_connect_fail htons r c
  | ESucceeded c => _ ← IPcheck_connect_succeeded htons r c; Ok r
  | EDisconnect v c => IPcheck_disconnect htons v r c
  end.

Fixpoint remove_one (a : Numnicks.ip_addr) (cs : list Numnicks.ip_addr) : option (list Numnicks.ip_addr) :=
  match cs with
  | [] => None
  | b :: cs => if decide (a = b) then Some cs else cons b <$> remove_one a cs
  end.

Lemma remove_one_perm a cs cs' : remove_one a cs = Some cs' -> cs ≡ₚ a :: cs'.
Proof.
  revert cs'. induction cs as [|b cs IH]; intros cs' H; simpl in H; [done|].
  destruct (decide (a = b)) as [->|]; [by simplify_eq|].
  destruct (remove_one a cs) as [cs1|] eqn:E; simplify_eq/=.
  rewrite (IH cs1 eq_refl). apply Permutation_swap.
Qed.

(** The addresses of the connected clients after an event.  A client connects
    while its network has less than 65535 clients and its bucket less than 65532
    entries; what fails, succeeds or disconnects is connected. *)
Definition clients (r : registry) (cs : list Numnicks.ip_addr) (ev : event) : option (list Numnicks.ip_addr) :=
  match ev with
  | ELocal _ _ c | ERemote _ _ c =>
      let n := network (ip c) in
      if decide (length (ip c) = 8%nat /\ load cs n.1 n.2 < 65535 /\
                 Z.of_nat (length (vector (bucket r n.1))) < 65532)
      then Some (ip c :: cs) else None
  | EFail c | ESucceeded c => if decide (ip c ∈ cs) then Some cs else None
  | EDisconnect _ c => remove_one (ip c) cs
  end.

Definition empty_registry : registry := mkRegistry ∅ 10000 4.

(** The registries of a running server, with the clients then connected. *)
Inductive reachable : registry -> list Numnicks.ip_addr -> Prop :=
  | reach_start : reachable empty_registry []
  | reach_step r cs ev r' cs' :
      reachable r cs -> clients r cs ev = Some cs' -> step r ev = Ok r' -> reachable r' cs'.

Lemma Reg_member r cs c :
  Reg r cs -> ip c ∈ cs ->
  let n := network (ip c) in
  exists i e, found_entry htons r c = Ok (n.1, i, e) /\
    vector (bucket r n.1) !! i = Some e /\ ekey e = n.2 /\ connected e = load cs n.1 n.2 /\
    entry_ok e.
Proof.
  intros HR Hin n. assert (Hl : length (ip c) = 8%nat).
  { destruct HR as [HF _]. rewrite Forall_forall in HF. by apply HF. }
  destruct (Reg_find r cs (ip c) HR Hl) as [(_&Hz&_)|(i&e&Hf&Hi&Hk&Hc&He)].
  { by apply load_elem in Hin. }
  exists i, e. split_and!; try done. unfold found_entry, IPregistry_find.
  change (CALCULATE_HASH htons (IPregistry_canonicalize (ip c))) with (network (ip c)).1. rewrite Hf. cbn [mbind result_bind of_option].
  by rewrite (rd_Some _ _ _ Hi).
Qed.

Lemma load_other a cs h k : (h, k) <> network a -> load (a :: cs) h k = load cs h k.
Proof. intros Hne. rewrite load_cons, decide_False by done. lia. Qed.

Lemma load_same a cs :
  load (a :: cs) (network a).1 (network a).2 = load cs (network a).1 (network a).2 + 1.
Proof. rewrite load_cons, decide_True by (by destruct (network a)). lia. Qed.

Lemma load_nonneg cs h k : 0 <= load cs h k.
Proof. unfold load. lia. Qed.

(** A new entry for a network without clients *)
Lemma Reg_add r cs a e :
  Reg r cs -> length a = 8%nat -> entry_ok e -> ekey e = (network a).2 -> connected e = 1 ->
  load cs (network a).1 (network a).2 = 0 ->
  (network a).2 ∉ keys (vector (bucket r (network a).1)) ->
  Z.of_nat (length (vector (bucket r (network a).1))) < 65532 ->
  exists vec, IPregistry_add (bucket r (network a).1) e = Ok vec /\
    Reg (set_bucket r (network a).1 vec) (a :: cs).
Proof.
  intros HR Ha He Hk Hc Hz Hn Hlt. assert (Hroom : room (bucket r (network a).1)) by apply HR.
  set (vec := bucket r (network a).1) in *.
  assert (Hadd : exists alloc, IPregistry_add vec e = Ok (mkVector (vector vec ++ [e]) alloc) /\
    room (mkVector (vector vec ++ [e]) alloc)).
  { unfold IPregistry_add, room, u16 in *. simpl vector. rewrite length_app. simpl.
    destruct (decide (Z.of_nat (length (vector vec)) = allocated_length vec)) as [E|].
    - rewrite Z.mod_small by lia. rewrite decide_True by lia. eexists. split; [done|]. lia.
    - rewrite decide_True by lia. eexists. split; [done|]. lia. }
  destruct Hadd as (alloc&->&Hroom'). eexists. split; [done|].
  apply (Reg_set r cs); try done.
  - constructor; [done|apply HR].
  - simpl vector.
    apply (bucket_ok_add _ (load cs (network a).1)); try done; [apply HR|by rewrite Hk| |].
    + rewrite Hk, load_same. lia.
    + intros k Hne. apply load_other. intros E. apply Hne. by rewrite Hk, <- E.
  - intros h' k Hne. apply load_other. intros E. by rewrite <- E in Hne.
Qed.

(** One more client of a network that has an entry *)
Lemma Reg_more r cs a i e e' :
  Reg r cs -> length a = 8%nat -> vector (bucket r (network a).1) !! i = Some e ->
  ekey e = (network a).2 ->
  changes (load cs (network a).1 (network a).2 + 1) e e' ->
  Reg (update_entry r (network a).1 i e') (a :: cs).
Proof.
  intros HR Ha Hi Hk Hc. apply (Reg_update r cs _ a i e); try done.
  - constructor; [done|apply HR].
  - by rewrite <- load_same in Hc.
  - intros h k. apply load_other.
Qed.

Lemma new_entry_ok v a n :
  length a = 8%nat -> let e := new_entry v (IPregistry_canonicalize a) n in
  entry_ok e /\ ekey e = (network a).2 /\ connected e = 1.
Proof.
  intros Ha. split; [|done]. unfold entry_ok. simpl.
  split; [by apply canonicalize_length|done].
Qed.

(** The entry after the count was incremented *)
Lemma increment r cs a e :
  Reg r cs -> load cs (network a).1 (network a).2 < 65535 ->
  connected e = load cs (network a).1 (network a).2 -> entry_ok e ->
  connected (set_connected (u16 (connected e + 1)) e) <> 0 /\
  changes (load cs (network a).1 (network a).2 + 1) e (set_connected (u16 (connected e + 1)) e).
Proof.
  intros HR Hlt Hc He. assert (H0 := load_nonneg cs (network a).1 (network a).2).
  assert (Hu : u16 (connected e + 1) = load cs (network a).1 (network a).2 + 1).
  { rewrite Hc. unfold u16. by rewrite Z.mod_small by lia. }
  simpl. rewrite Hu. split; [lia|]. by apply set_connected_changes; [|lia].
Qed.

(** The answer to a client whose connect is the [n]-th in a row *)
Definition verdict v (clones : bool) (n : Z) : Z :=
  if decide (n <= IPCHECK_CLONE_LIMIT) then 0
  else if clones then 0
  else if decide (now v - me_since v > IPCHECK_CLONE_DELAY) then -1 else 0.

Lemma local_connect_known v clones r cs c i e :
  let n := network (ip c) in
  Reg r cs -> length (ip c) = 8%nat -> load cs n.1 n.2 < 65535 ->
  find_loop (vector (bucket r n.1)) (IPregistry_canonicalize (ip c)) 0 = Ok (Some i) ->
  vector (bucket r n.1) !! i = Some e -> ekey e = n.2 -> connected e = load cs n.1 n.2 ->
  entry_ok e ->
  exists e' c',
    IPcheck_local_connect htons v clones r c =
      Ok (update_entry r n.1 i e', c', verdict v clones (connect_attempts e')) /\
    changes (load cs n.1 n.2 + 1) e e' /\ last_connect e' = NOW v /\
    connect_attempts e' =
      connect_attempts (bump_attempts
        (if decide (CONNECTED_SINCE v e > IPCHECK_CLONE_PERIOD \/ clones = true)
         then set_attempts 0 e else e)).
Proof.
  intros n HR Hl Hlt Hf Hi Hk Hc He. unfold IPcheck_local_connect, IPregistry_find.
  change (CALCULATE_HASH htons (IPregistry_canonicalize (ip c))) with n.1. rewrite Hf.
  cbn [mbind result_bind]. rewrite (rd_Some _ _ _ Hi). cbn [mbind result_bind].
  destruct (increment r cs (ip c) e HR Hlt Hc He) as [Hnz Hch]. fold n in Hch.
  set (e1 := set_connected _ e) in *. rewrite decide_False by done.
  assert (Hatt : connect_attempts (if decide (CONNECTED_SINCE v e1 > IPCHECK_CLONE_PERIOD \/
      clones = true) then set_attempts 0 e1 else e1) =
    connect_attempts (if decide (CONNECTED_SINCE v e > IPCHECK_CLONE_PERIOD \/ clones = true)
      then set_attempts 0 e else e)).
  { change (CONNECTED_SINCE v e1) with (CONNECTED_SINCE v e). by destruct (decide _). }
  set (e2 := if decide _ then set_attempts 0 e1 else e1) in *.
  assert (Hch2 : changes (load cs n.1 n.2 + 1) e e2).
  { eapply changes_then; [done|]. apply if_attempts_changes. by eapply changes_ok. }
  clearbody e2.
  destruct (reset_connect_time_spec v e2) as (e3&->&Hch3&Ha&Hlast); [by eapply changes_ok|].
  cbn [mbind result_bind].
  assert (Hall : changes (load cs n.1 n.2 + 1) e (bump_attempts e3)).
  { eapply changes_then; [by eapply changes_then|].
    apply bump_attempts_changes. by eapply changes_ok. }
  exists (bump_attempts e3). unfold verdict.
  assert (Hrest : last_connect (bump_attempts e3) = NOW v /\
    connect_attempts (bump_attempts e3) = connect_attempts (bump_attempts
        (if decide (CONNECTED_SINCE v e > IPCHECK_CLONE_PERIOD \/ clones = true)
         then set_attempts 0 e else e))).
  { split; [done|]. unfold bump_attempts. simpl. by rewrite Ha, Hatt. }
  destruct (entry_ok_targets _ (changes_ok _ _ _ Hall)) as [(_&_&->)|(p&_&_&_&_&->)];
    cbn [mbind result_bind]; destruct (decide (connect_attempts _ <= _)); destruct clones;
    try destruct (decide (now v - _ > _)); by eexists.
Qed.

Lemma Reg_local v clones r cs c :
  Reg r cs -> length (ip c) = 8%nat -> load cs (network (ip c)).1 (network (ip c)).2 < 65535 ->
  Z.of_nat (length (vector (bucket r (network (ip c)).1))) < 65532 ->
  exists r' c' n, IPcheck_local_connect htons v clones r c = Ok (r', c', n) /\ Reg r' (ip c :: cs).
Proof.
  intros HR Hl Hlt Hlen. destruct (Reg_find r cs (ip c) HR Hl) as [(Hf&Hz&Hn)|(i&e&Hf&Hi&Hk&Hc&He)].
  - unfold IPcheck_local_connect, IPregistry_find.
    change (CALCULATE_HASH htons (IPregistry_canonicalize (ip c))) with (network (ip c)).1.
    rewrite Hf. cbn [mbind result_bind]. destruct (new_entry_ok v (ip c) 1 Hl) as (?&?&?).
    edestruct (Reg_add r cs (ip c)) as (vec&->&?); try done. by eexists _, _, _.
  - destruct (local_connect_known v clones r cs c i e) as (e'&c'&->&Hch&_); try done.
    eexists _, _, _. split; [done|]. by eapply Reg_more.
Qed.

Lemma Reg_remote v is_burst r cs c :
  Reg r cs -> length (ip c) = 8%nat -> load cs (network (ip c)).1 (network (ip c)).2 < 65535 ->
  Z.of_nat (length (vector (bucket r (network (ip c)).1))) < 65532 ->
  exists r' n, IPcheck_remote_connect htons v r c is_burst = Ok (r', n) /\ Reg r' (ip c :: cs).
Proof.
  intros HR Hl Hlt Hlen. unfold IPcheck_remote_connect, IPregistry_find.
  change (CALCULATE_HASH htons (IPregistry_canonicalize (ip c))) with (network (ip c)).1. set (a := ip c) in *.
  destruct (Reg_find r cs a HR Hl) as [(->&Hz&Hn)|(i&e&->&Hi&Hk&Hc&He)]; cbn [mbind result_bind].
  { destruct (new_entry_ok v a (if is_burst then 1 else 0) Hl) as (?&?&?).
    edestruct (Reg_add r cs a) as (vec&->&?); try done. by eexists _, _. }
  rewrite (rd_Some _ _ _ Hi). cbn [mbind result_bind].
  destruct (increment r cs a e HR Hlt Hc He) as [Hnz Hch].
  set (e1 := set_connected _ e) in *. rewrite decide_False by done.
  set (e2 := if decide _ then set_attempts 0 e1 else e1).
  assert (Hch2 : changes (load cs (network a).1 (network a).2 + 1) e e2).
  { eapply changes_then; [done|]. apply if_attempts_changes. by eapply changes_ok. }
  clearbody e2. destruct is_burst.
  { eexists _, _. split; [done|]. by eapply Reg_more. }
  assert (Hch3 := bump_attempts_changes e2 (changes_ok _ _ _ Hch2)).
  destruct (reset_connect_time_spec v _ (changes_ok _ _ _ Hch3)) as (e4&->&Hch4&_).
  cbn [mbind result_bind]. eexists _, _. split; [done|]. eapply Reg_more; try done.
  exact (changes_then _ _ _ _ (changes_then _ _ _ _ Hch2 Hch3) Hch4).
Qed.

Lemma Reg_fail r cs c :
  Reg r cs -> ip c ∈ cs -> exists r', IPcheck_connect_fail htons r c = Ok r' /\ Reg r' cs.
Proof.
  intros HR Hin. destruct (Reg_member r cs c HR Hin) as (i&e&Hf&Hi&Hk&Hc&He).
  unfold IPcheck_connect_fail. rewrite Hf. cbn [mbind result_bind]. eexists. split; [done|].
  apply (Reg_update r cs cs (ip c) i e); try done. apply HR.
Qed.

Lemma Reg_succeeded r cs c :
  Reg r cs -> ip c ∈ cs -> exists c', IPcheck_connect_succeeded htons r c = Ok c'.
Proof.
  intros HR Hin. destruct (Reg_member r cs c HR Hin) as (i&e&Hf&Hi&Hk&Hc&He).
  unfold IPcheck_connect_succeeded. rewrite Hf. cbn [mbind result_bind].
  destruct (entry_ok_targets e He) as [(->&_)|(p&->&_&->&_)]; by eexists.
Qed.

Lemma Reg_disconnect v r cs cs' c :
  Reg r cs -> cs ≡ₚ ip c :: cs' -> load cs (network (ip c)).1 (network (ip c)).2 < 65536 ->
  exists r', IPcheck_disconnect htons v r c = Ok r' /\ Reg r' cs'.
Proof.
  intros HR Hp Hlt. assert (HR0 := HR). destruct HR as [Hlen Hb].
  assert (Hl : length (ip c) = 8%nat).
  { rewrite Hp in Hlen. by apply Forall_cons in Hlen as []. }
  assert (Hl' : Forall (fun a => length a = 8%nat) cs').
  { rewrite Hp in Hlen. by apply Forall_cons in Hlen as []. }
  unfold IPcheck_disconnect. change (CALCULATE_HASH htons (IPregistry_canonicalize (ip c))) with (network (ip c)).1. set (a := ip c) in *.
  set (canon := IPregistry_canonicalize a). set (h := (network a).1) in *.
  assert (Hne : load cs h (netkey canon) <> 0).
  { apply (load_elem a cs). rewrite Hp. by left. }
  destruct (find_with_expire_spec v (bucket r h) canon (count r) (average_length r) (load cs h)
    (proj1 (Hb h)) (proj2 (Hb h)) (canonicalize_length a Hl) Hne)
    as (vec&i&e&c1&avg1&->&Hb1&Hroom1&Hi&Hk&Hc).
  cbn [mbind result_bind of_option]. rewrite (rd_Some _ _ _ Hi). cbn [mbind result_bind].
  assert (He : entry_ok e).
  { pose proof (bk_ok _ _ Hb1) as HF. rewrite Forall_lookup in HF. by eapply HF. }
  assert (HR1 : Reg (mkRegistry (<[h := vec]> (hashtable r)) c1 avg1) cs).
  { by apply (Reg_set r cs cs h vec HR0 Hlen Hb1). }
  assert (Hload : load cs h (netkey canon) = load cs' h (netkey canon) + 1).
  { rewrite (load_perm _ _ _ _ Hp). apply load_same. }
  assert (H0 := load_nonneg cs' h (netkey canon)).
  assert (Hch : changes (load cs' h (netkey canon)) e (set_connected (u16 (connected e - 1)) e)).
  { replace (u16 (connected e - 1)) with (load cs' h (netkey canon)).
    - apply set_connected_changes; [done|]. change (netkey canon) with (network a).2 in *. lia.
    - unfold u16. rewrite Hc, Hload. change (netkey canon) with (network a).2 in *.
      rewrite Z.mod_small; lia. }
  set (e1 := set_connected _ e) in *.
  destruct (settle_spec v e1 (changes_ok _ _ _ Hch)) as (e2&->&Hch2). cbn [mbind result_bind].
  destruct (if_leave_spec v canon c e2) as (e3&->&Hch3);
    [by eapply changes_ok|by apply canonicalize_length|
     destruct Hch as (_&?&_); destruct Hch2 as (_&?&_); congruence|].
  cbn [mbind result_bind]. eexists. split; [done|].
  apply (Reg_update _ cs cs' a i e); try done.
  - change (bucket _ _) with (bucket (set_bucket r h vec) h). rewrite bucket_set.
    by rewrite decide_True.
  - exact (changes_then _ _ _ _ (changes_then _ _ _ _ Hch Hch2) Hch3).
  - intros h' k' Hne'. rewrite (load_perm _ _ _ _ Hp). by rewrite load_other.
Qed.

Lemma step_progress r cs ev cs' :
  Reg r cs -> clients r cs ev = Some cs' -> exists r', step r ev = Ok r' /\ Reg r' cs'.
Proof.
  intros HR H. destruct ev as [v cl c|v b c|c|c|v c]; simpl in *.
  - destruct (decide _) as [(?&?&?)|]; simplify_eq.
    destruct (Reg_local v cl r cs c) as (r'&c'&n&->&?); try done. by exists r'.
  - destruct (decide _) as [(?&?&?)|]; simplify_eq.
    destruct (Reg_remote v b r cs c) as (r'&n&->&?); try done. by exists r'.
  - destruct (decide _); simplify_eq. by apply Reg_fail.
  - destruct (decide _); simplify_eq. destruct (Reg_succeeded r cs' c) as (c'&->); try done.
    by exists r.
  - apply remove_one_perm in H. apply (Reg_disconnect v r cs cs' c); try done.
    assert (Hin : ip c ∈ cs) by (rewrite H; left).
    destruct (Reg_member r cs c HR Hin) as (i&e&_&_&_&<-&(_&?&_)). lia.
Qed.

Lemma reachable_Reg r cs : reachable r cs -> Reg r cs.
Proof.
  induction 1 as [|r cs ev r' cs' _ IH Hc Hs].
  - split; [done|]. intros h. split; [|done]. constructor; try done.
    + constructor.
    + intros e []%not_elem_of_nil.
  - destruct (step_progress r cs ev cs' IH Hc) as (r1&Hs1&?). congruence.
Qed.

(** C25. Whatever clients connect, fail, register and disconnect, and whatever
    entries expire meanwhile, no event of a running server leaves the memory of
    the registry or follows a null pointer, and the number that the registry
    gives for an address is the number of connected clients on its network. *)
Theorem IPcheck_counts r cs :
  reachable r cs ->
  (forall c, length (ip c) = 8%nat ->
     IPcheck_nr htons r c =
       Ok (Z.of_nat (length (filter (fun a => network a = network (ip c)) cs)))) /\
  (forall ev cs', clients r cs ev = Some cs' -> exists r', step r ev = Ok r').
Proof.
  intros HR%reachable_Reg. split.
  - intros c Hl. unfold IPcheck_nr, IPregistry_find.
    change (CALCULATE_HASH htons (IPregistry_canonicalize (ip c))) with (network (ip c)).1.
    assert (Hload : Z.of_nat (length (filter (fun a => network a = network (ip c)) cs)) =
      load cs (network (ip c)).1 (network (ip c)).2) by (unfold load; by destruct (network (ip c))).
    rewrite Hload.
    destruct (Reg_find r cs (ip c) HR Hl) as [(->&Hz&Hn)|(i&e&->&Hi&Hk&Hc&He)];
      cbn [mbind result_bind]; [by rewrite Hz|]. rewrite (rd_Some _ _ _ Hi). simpl. by rewrite Hc.
  - intros ev cs' Hc. destruct (step_progress r cs ev cs' HR Hc) as (r'&?&_). by exists r'.
Qed.

(** * Throttling *)

(** Local clients connect, one after the other. *)
Fixpoint connects (since pop : Z) (r : registry) (l : list (Z * client)) : result (list Z) :=
  match l with
  | [] => Ok []
  | (t, c) :: l =>
      '(r, _, n) ← IPcheck_local_connect htons (mkEnv t since pop) false r c;
      ns ← connects since pop r l; Ok (n :: ns)
  end.

(** Each comes at most 20 seconds after the one before. *)
Fixpoint paced (t0 : Z) (l : list (Z * client)) : Prop :=
  match l with
  | [] => True
  | (t, c) :: l => 0 <= t - t0 <= IPCHECK_CLONE_PERIOD /\ paced t l
  end.

Lemma since_small t t0 since pop e :
  last_connect e = NOW (mkEnv t0 since pop) -> 0 <= t - t0 <= IPCHECK_CLONE_PERIOD ->
  CONNECTED_SINCE (mkEnv t since pop) e = t - t0.
Proof.
  unfold CONNECTED_SINCE, NOW, BITMASK, IPCHECK_CLONE_PERIOD, u16. simpl. intros -> Ht.
  change 0xffff with (Z.ones 16). rewrite !Z.land_ones by lia. change (2 ^ 16) with 65536.
  rewrite Z.mod_mod by done. rewrite <- Zminus_mod. by apply Z.mod_small; lia.
Qed.

Lemma bump_attempts_min e (k : nat) :
  connect_attempts e = Z.of_nat (k `min` 15) ->
  connect_attempts (bump_attempts e) = Z.of_nat (S k `min` 15).
Proof.
  intros H. unfold bump_attempts, u4. simpl. rewrite H.
  destruct (decide (k < 15)%nat).
  - rewrite Z.mod_small by lia. rewrite decide_False by lia. lia.
  - rewrite !Nat.min_r by lia. done.
Qed.

Lemma keys_unique l i j e e' :
  NoDup (keys l) -> l !! i = Some e -> l !! j = Some e' -> ekey e = ekey e' -> i = j.
Proof.
  intros Hnd Hi Hj Hk. eapply (NoDup_lookup _ i j (ekey e) Hnd);
    unfold keys; rewrite list_lookup_fmap; [by rewrite Hi|by rewrite Hj; simpl; rewrite Hk].
Qed.

Definition answer (j : nat) : Z := if decide (j <= 4)%nat then 0 else -1.

Lemma connects_known since pop n (ts : list (Z * client)) :
  forall (t0 : Z) (k i : nat) r cs e,
  Reg r cs -> load cs n.1 n.2 = Z.of_nat k -> Z.of_nat (k + length ts) <= 65535 ->
  vector (bucket r n.1) !! i = Some e -> ekey e = n.2 ->
  connect_attempts e = Z.of_nat (k `min` 15) ->
  last_connect e = NOW (mkEnv t0 since pop) ->
  paced t0 ts ->
  Forall (fun '(t, c) => length (ip c) = 8%nat /\ network (ip c) = n /\ t - since > IPCHECK_CLONE_DELAY) ts ->
  connects since pop r ts = Ok (map answer (seq (S k) (length ts))).
Proof.
  induction ts as [|[t c] ts IH]; intros t0 k i r cs e HR Hload Hk Hi Hke Hatt Hlast Hp Hall; [done|].
  destruct Hp as [Ht Hp]. apply Forall_cons in Hall as [(Hl&<-&Hup) Hall].
  cbn [connects length] in *. set (n := network (ip c)) in *.
  destruct (Reg_find r cs (ip c) HR Hl) as [(_&_&Hn)|(j&e1&Hf&Hj&Hkj&Hc&He)].
  { destruct Hn. fold n. rewrite <- Hke. apply elem_of_keys. by eapply list_elem_of_lookup_2. }
  fold n in Hf, Hj, Hkj, Hc.
  assert (Hnd : NoDup (keys (vector (bucket r n.1)))) by apply HR.
  assert (i = j) as <-.
  { eapply keys_unique; [exact Hnd|done..|]. by rewrite Hke, Hkj. }
  assert (e1 = e) as -> by congruence.
  destruct (local_connect_known (mkEnv t since pop) false r cs c i e) as (e'&c'&->&Hch&Hlast'&Hatt');
    try done; [fold n; lia|].
  fold n in Hch |- *. cbn [mbind result_bind]. rewrite decide_False in Hatt'.
  2:{ intros [Hs|]; [|done]. rewrite (since_small t t0) in Hs by done. lia. }
  rewrite (bump_attempts_min e k) in Hatt' by done.
  rewrite (IH t (S k) i (update_entry r n.1 i e') (ip c :: cs) e'); try done.
  - simpl. rewrite Hatt'. unfold verdict, answer. simpl now. simpl me_since.
    unfold IPCHECK_CLONE_LIMIT, IPCHECK_CLONE_DELAY in *. do 2 f_equal.
    repeat (destruct (decide _)); lia.
  - by eapply Reg_more.
  - unfold n. rewrite load_same. fold n. lia.
  - lia.
  - unfold update_entry. rewrite bucket_set, decide_True by done. simpl.
    rewrite list_lookup_insert_eq; [done|]. by eapply lookup_lt_Some.
  - destruct Hch as (_&->&_). done.
Qed.

(** Local clients of one network that connect one after the other, at most
    20 seconds apart, from a network the registry does not know yet and on a
    server that is up for more than ten minutes: the first four are let in, all
    the others are throttled, however many there are. *)
Theorem IPcheck_throttle since pop r cs n t c (ts : list (Z * client)) :
  reachable r cs ->
  (forall e, e ∈ vector (bucket r n.1) -> ekey e <> n.2) ->
  Z.of_nat (length (vector (bucket r n.1))) < 65532 ->
  Z.of_nat (S (length ts)) <= 65535 ->
  paced t ts ->
  Forall (fun '(t, c) => length (ip c) = 8%nat /\ network (ip c) = n /\
    t - since > IPCHECK_CLONE_DELAY) ((t, c) :: ts) ->
  connects since pop r ((t, c) :: ts) = Ok (map answer (seq 1 (S (length ts)))).
Proof.
  intros HR%reachable_Reg Hnew Hlen Hts Hp Hall. apply Forall_cons in Hall as [(Hl&<-&_) Hall].
  set (n := network (ip c)) in *. cbn [connects length].
  destruct (Reg_find r cs (ip c) HR Hl) as [(Hf&Hz&Hn)|(i&e&_&Hi&Hk&_)].
  2:{ destruct (Hnew e); [by eapply list_elem_of_lookup_2|done]. }
  unfold IPcheck_local_connect, IPregistry_find.
  change (CALCULATE_HASH htons (IPregistry_canonicalize (ip c))) with n.1. fold n in Hf, Hz, Hn.
  rewrite Hf. cbn [mbind result_bind].
  set (e := new_entry _ _ 1). assert (He := new_entry_ok (mkEnv t since pop) (ip c) 1 Hl).
  fold e in He. cbv zeta in He. destruct He as (He1&He2&He3).
  assert (Hvec : exists vec, IPregistry_add (bucket r n.1) e = Ok vec /\
    vector vec = vector (bucket r n.1) ++ [e] /\ Reg (set_bucket r n.1 vec) (ip c :: cs)).
  { destruct (Reg_add r cs (ip c) e) as (vec&Hadd&HR'); try done. fold n in Hadd, HR'.
    exists vec. split_and!; try done. unfold IPregistry_add in Hadd.
    destruct (decide (_ < _)); by simplify_eq. }
  destruct Hvec as (vec&->&Hvec&HR'). cbn [mbind result_bind].
  rewrite (connects_known since pop n ts t 1 (length (vector (bucket r n.1))) _ (ip c :: cs) e);
    try done.
  - unfold n. rewrite load_same. fold n. lia.
  - rewrite bucket_set, decide_True, Hvec by done. by rewrite list_lookup_middle.
Qed.

End counts.

(** * Concrete runs *)

Fixpoint steps (htons : Z -> Z) (r : registry) (evs : list event) : result registry :=
  match evs with [] => Ok r | ev :: evs => r ← step htons r ev; steps htons r evs end.

(** A little endian machine *)
Definition swap16 (x : Z) : Z := Z.lor (Z.shiftl (Z.land x 255) 8) (Z.shiftr x 8).

Definition client4 (a b : Z) : client := mkClient [0; 0; 0; 0; 0; 0; a; b] 0 0 [] true.
Definition client6 (a b c d : Z) : client := mkClient [a; b; c; d; 0; 0; 0; 1] 0 0 [] true.

Lemma IPcheck_counts_witness :
  let c := client4 0xc0a8 1 in
  exists r, step swap16 (empty_registry) (ELocal (mkEnv 1000 0 0) false c) = Ok r /\
    IPcheck_nr swap16 r c = Ok 1.
Proof.
  intros c. eexists. split; [vm_compute; reflexivity|]. eapply eq_trans.
  - apply (IPcheck_counts swap16 _ [ip c]); [|reflexivity].
    apply (reach_step swap16 empty_registry [] (ELocal (mkEnv 1000 0 0) false c));
      [apply reach_start|vm_compute; reflexivity|vm_compute; reflexivity].
  - vm_compute. reflexivity.
Defined.

Lemma IPcheck_throttle_witness :
  let c := client4 0xc0a8 1 in
  connects swap16 0 0 empty_registry
    [(1000, c); (1010, c); (1030, c); (1030, c); (1031, c); (1050, c)] =
  Ok [0; 0; 0; 0; -1; -1].
Proof.
  intros c. eapply eq_trans.
  - apply (IPcheck_throttle swap16 0 0 empty_registry [] (network swap16 (ip c)));
      [apply reach_start| |done|done| |].
    + intros e He. apply elem_of_nil in He. destruct He.
    + repeat (split; [unfold IPCHECK_CLONE_PERIOD; lia|]). exact I.
    + apply (bool_decide_unpack _). vm_compute. exact I.
  - reflexivity.
Defined.

(** IPcheck_connect_fail() takes back an attempt that a later connect has
    already forgotten: of two clients that connect 30 seconds apart and both
    fail, the second decrement wraps the four bits to 15, and the client that
    follows is throttled, where without the two failures it would be let in. *)
Theorem IPcheck_connect_fail_wraps :
  let c := client4 0xc0a8 1 in
  let two := [ELocal (mkEnv 1000 0 0) false c; ELocal (mkEnv 1030 0 0) false c] in
  let next r := '(_, _, n) ← IPcheck_local_connect swap16 (mkEnv 1040 0 0) false r c; Ok n in
  (r ← steps swap16 empty_registry two; next r) = Ok 0 /\
  (r ← steps swap16 empty_registry (two ++ [EFail c; EFail c]); next r) = Ok (-1).
Proof. split; vm_compute; reflexivity. Qed.

(** Addresses under 2002::/16 are one network when they agree on 48 bits,
    but the hash function sees 64: two clients of one such network can be
    counted apart, while two clients of a network of 64 bits are not. *)
Theorem IPcheck_6to4_split :
  let c1 := client6 0x2002 0x5a1 0x17 1 in
  let c2 := client6 0x2002 0x5a1 0x17 2 in
  ipmask_check (IPregistry_canonicalize (ip c1)) (IPregistry_canonicalize (ip c2))
    (bits_of (IPregistry_canonicalize (ip c1))) = 1 /\
  (r ← steps swap16 empty_registry [ELocal (mkEnv 1000 0 0) false c1]; IPcheck_nr swap16 r c2) = Ok 0 /\
  (r ← steps swap16 empty_registry [ELocal (mkEnv 1000 0 0) false (client6 0x2001 1 2 3)];
   IPcheck_nr swap16 r (client6 0x2001 1 2 3)) = Ok 1.
Proof. split_and!; vm_compute; reflexivity. Qed.
