(* ===== verification/Nametable.v ===== *)
(** The interface between the tables of names and the components that use them:
    what adding an element, removing it and searching a name promise to the
    caller, whatever the table is made of.  Hash.v implements it with the chains
    of ircd/hash.c; Channel.v is proved against it. *)

From S2P Require Import Prelude Common.

Definition name_ok (nm : cstring) : Prop := is_cstr nm /\ nm <> [].
#[export] Instance name_ok_dec nm : Decision (name_ok nm).
Proof. unfold name_ok. apply _. Defined.

(** [nt_rep t M]: the table holds the elements of [M], under these names. *)
Class NameTable (T : Type) := {
  nt_empty : T;
  nt_add : T -> nat -> cstring -> result T;
  nt_del : T -> nat -> result T;
  nt_find : T -> cstring -> result (T * option nat);
  nt_rep : T -> gmap nat cstring -> Prop;
  nt_empty_spec : nt_rep nt_empty ∅;
  nt_add_spec t M p nm :
    nt_rep t M -> M !! p = None -> name_ok nm ->
    exists t', nt_add t p nm = Ok t' /\ nt_rep t' (<[p := nm]> M);
  nt_del_spec t M p nm :
    nt_rep t M -> M !! p = Some nm ->
    exists t', nt_del t p = Ok t' /\ nt_rep t' (delete p M);
  nt_find_spec t M nm :
    nt_rep t M -> name_ok nm ->
    exists t' o, nt_find t nm = Ok (t', o) /\ nt_rep t' M /\
      match o with
      | Some p => exists nm', M !! p = Some nm' /\ case_equiv nm nm'
      | None => forall p nm', M !! p = Some nm' -> ~ case_equiv nm nm'
      end }.
