(* ===== verification/Hash.v ===== *)
(** The hash tables of names: ircd/hash.c.

    The tables of clients, of channels and of watches are arrays of chains that
    run through the elements themselves.  The model keeps the pointers: a
    [table] is the array of heads and the memory of the elements, and every
    operation rewrites the links that the code rewrites.  The three tables have
    the same operations, written once over a [node]; [hAddClient] and the others
    are their instances. *)

From S2P Require Import Prelude Common Nametable.

(** * The hash function *)

Definition HASHSTEP : Z := 1.
Definition HASHSHIFT : Z := 257.
Definition HASHSIZE : Z := 32768.
Definition HASHMAPSIZE : Z := HASHSIZE + HASHSHIFT + 1.

(** HASHMEMS is unsigned short and HASHREGS unsigned int for this HASHSIZE. *)
Definition HASHEQ (x y : Z) : bool :=
  bool_decide (toLower (to_char x) = toLower (to_char y)).

(** The two loops of hash_init() that fill the weights, indexed from CHAR_MIN *)
Definition hash_weight_start : list Z :=
  map (fun i => u16 (HASHSTEP * uchar (to_char i))) (seqZ CHAR_MIN 256).

Definition hash_weight_loops : list Z :=
  fold_left (fun tab i =>
    fold_left (fun tab j =>
      if HASHEQ i j then <[Z.to_nat (i - CHAR_MIN) := nth (Z.to_nat (j - CHAR_MIN)) tab 0]> tab
      else tab) (seqZ CHAR_MIN (i - CHAR_MIN)) tab)
    (seqZ CHAR_MIN 256) hash_weight_start.

(** The table that they leave *)
Definition hash_weight_table : list Z := Eval vm_compute in hash_weight_loops.

Definition hash_weight (c : ascii) : Z := nth (tab_index c) hash_weight_table 0.

(** The last loop of hash_init() *)
Fixpoint fill_map (n : nat) (m : Z) : list Z :=
  match n with
  | O => []
  | S n => u16 (u64 (m * HASHSHIFT) mod HASHSIZE) :: fill_map n (m + 1)
  end.

Definition hash_map : list Z := fill_map (Z.to_nat HASHMAPSIZE) 0.

Definition map_rd (hash : Z) : result Z := rd hash_map (Z.to_nat hash).

(** The loop of strhash(); an empty string is read past its terminator. *)
Fixpoint strhash_loop (hash : Z) (n : cstring) : result Z :=
  match n with
  | [] => map_rd hash
  | c :: n => m ← map_rd hash; strhash_loop (u32 (m + hash_weight c)) n
  end.

Definition strhash (n : cstring) : result Z :=
  match n with [] => Ub | c :: n => strhash_loop (hash_weight c) n end.

Definition db_hash_registro (clave : cstring) (hash_size : Z) : result Z :=
  hash ← strhash clave; Ok (Z.land hash (hash_size - 1)).

(** * Tables *)

(** An element: a client, a channel or a watch.  [status] is that of a client. *)
Record node := mkNode { name : cstring; status : Z; hnext : option nat }.

Record table := mkTable { heads : gmap Z nat; nodes : gmap nat node }.

Definition StatusMask (T : Z) : Z := Z.shiftl 1 T.
Definition IsStatMask (n : node) (s : Z) : bool :=
  bool_decide (Z.land (StatusMask (status n)) s <> 0).

Definition head_of (t : table) (hashv : Z) : result (option nat) :=
  if decide (0 <= hashv < HASHSIZE) then Ok (heads t !! hashv) else Ub.

Definition set_head (t : table) (hashv : Z) (p : option nat) : table :=
  mkTable (partial_alter (fun _ => p) hashv (heads t)) (nodes t).

Definition get (t : table) (p : nat) : result node := of_option (nodes t !! p).

Definition link (n : node) (q : option nat) : node := mkNode (name n) (status n) q.

Definition set_next (t : table) (p : nat) (q : option nat) : result table :=
  n ← get t p; Ok (mkTable (heads t) (<[p := link n q]> (nodes t))).

(** [p->hnext = table[hashv]; table[hashv] = p;] *)
Definition push (t : table) (hashv : Z) (p : nat) : result table :=
  hd ← head_of t hashv; t ← set_next t p hd; Ok (set_head t hashv (Some p)).

Definition hAdd (t : table) (p : nat) : result table :=
  n ← get t p; hashv ← strhash (name n); push t hashv p.

Fixpoint hRem_loop (fuel : nat) (t : table) (p : nat) (tmp : option nat) : result (table * Z) :=
  match fuel with
  | O => Fuel
  | S fuel =>
      match tmp with
      | None => Ok (t, -1)
      | Some q =>
          nq ← get t q;
          if decide (hnext nq = Some p) then
            np ← get t p; t ← set_next t q (hnext np); Ok (t, 0)
          else hRem_loop fuel t p (hnext nq)
      end
  end.

Definition hRem (t : table) (p : nat) : result (table * Z) :=
  n ← get t p; hashv ← strhash (name n); tmp ← head_of t hashv;
  if decide (tmp = Some p) then Ok (set_head t hashv (hnext n), 0)
  else hRem_loop (S (size (nodes t))) t p tmp.

(** The loop after the first element, which [prv] follows *)
Fixpoint hSeek_loop (fuel : nat) (t : table) (wanted : node -> bool) (hashv : Z) (prv : nat)
    : result (table * option nat) :=
  match fuel with
  | O => Fuel
  | S fuel =>
      n ← get t prv;
      match hnext n with
      | None => Ok (t, None)
      | Some c =>
          nc ← get t c;
          if wanted nc then
            t ← set_next t prv (hnext nc); t ← push t hashv c; Ok (t, Some c)
          else hSeek_loop fuel t wanted hashv c
      end
  end.

Definition hSeek (t : table) (nm : cstring) (wanted : node -> bool) : result (table * option nat) :=
  hashv ← strhash nm; hd ← head_of t hashv;
  match hd with
  | None => Ok (t, None)
  | Some c =>
      nc ← get t c;
      if wanted nc then Ok (t, Some c) else hSeek_loop (S (size (nodes t))) t wanted hashv c
  end.

Definition same_name (nm : cstring) (n : node) : bool := bool_decide (strCasediff nm (name n) = 0).

(** The functions of the file *)
Definition hAddClient := hAdd.
Definition hAddChannel := hAdd.
Definition hAddWatch := hAdd.
Definition hRemClient := hRem.
Definition hRemChannel := hRem.
Definition hRemWatch := hRem.
Definition hSeekClient (t : table) (nm : cstring) (TMask : Z) : result (table * option nat) :=
  hSeek t nm (fun n => IsStatMask n TMask && same_name nm n).
Definition hSeekChannel (t : table) (nm : cstring) : result (table * option nat) :=
  hSeek t nm (same_name nm).
Definition hSeekWatch (t : table) (nm : cstring) : result (table * option nat) :=
  hSeek t nm (same_name nm).

Definition hChangeClient (t : table) (p : nat) (newname : cstring) : result table :=
  newhash ← strhash newname; '(t, _) ← hRemClient t p; push t newhash p.

Definition hash_init : table := mkTable ∅ ∅.

(** * The hash function: lemmas *)

Lemma hash_weight_range c : 0 <= hash_weight c < 256.
Proof. revert c. apply (forall_ascii_dec (fun c => 0 <= hash_weight c < 256)). vm_compute. reflexivity. Qed.

Lemma hash_weight_case a b : toLower a = toLower b -> hash_weight a = hash_weight b.
Proof.
  assert (H : forall a, forallb (fun b => implb (bool_decide (toLower a = toLower b))
    (bool_decide (hash_weight a = hash_weight b))) all_ascii = true).
  { apply forall_ascii. vm_compute. reflexivity. }
  intros E. specialize (H a). assert (Hb := forall_ascii _ H b). simpl in Hb.
  rewrite bool_decide_true in Hb by done. by apply bool_decide_eq_true in Hb.
Qed.

Lemma fill_map_lookup n : forall m i, (i < n)%nat ->
  fill_map n m !! i = Some (u16 (u64 ((m + Z.of_nat i) * HASHSHIFT) mod HASHSIZE)).
Proof.
  induction n as [|n IH]; intros m i Hi; [lia|]. cbn [fill_map]. destruct i as [|i].
  - by rewrite Z.add_0_r.
  - rewrite lookup_cons, IH by lia. do 5 f_equal. lia.
Qed.

Lemma map_rd_spec h : 0 <= h < HASHMAPSIZE -> map_rd h = Ok ((h * HASHSHIFT) mod HASHSIZE).
Proof.
  intros Hh. unfold map_rd, hash_map. apply rd_Some.
  rewrite fill_map_lookup by lia. f_equal. rewrite Z2Nat.id by lia. rewrite Z.add_0_l.
  unfold u64, u16, HASHMAPSIZE, HASHSHIFT, HASHSIZE in *.
  rewrite (Z.mod_small (h * 257)) by lia. apply Z.mod_small.
  assert (0 <= (h * 257) mod 32768 < 32768) by (apply Z.mod_pos_bound; lia). lia.
Qed.

#[local] Opaque hash_map hash_weight_table.

(** The string as a number in base HASHSHIFT, with the terminator as last digit *)
Definition number (n : cstring) : Z := fold_left (fun N c => N * HASHSHIFT + hash_weight c) n 0 * HASHSHIFT.

Lemma fold_number_cong n a b :
  a mod HASHSIZE = b mod HASHSIZE ->
  (fold_left (fun N c => N * HASHSHIFT + hash_weight c) n a) mod HASHSIZE =
  (fold_left (fun N c => N * HASHSHIFT + hash_weight c) n b) mod HASHSIZE.
Proof.
  revert a b. induction n as [|c n IH]; intros a b H; [done|]. simpl. apply IH.
  rewrite <- (Z.add_mod_idemp_l (a * _)), <- (Z.add_mod_idemp_l (b * _)) by done.
  rewrite <- (Z.mul_mod_idemp_l a), <- (Z.mul_mod_idemp_l b), H by done. done.
Qed.

Lemma strhash_loop_spec n h :
  0 <= h < HASHMAPSIZE ->
  strhash_loop h n =
    Ok ((fold_left (fun N c => N * HASHSHIFT + hash_weight c) n h * HASHSHIFT) mod HASHSIZE).
Proof.
  revert h. induction n as [|c n IH]; intros h Hh; cbn [strhash_loop fold_left].
  - by apply map_rd_spec.
  - rewrite map_rd_spec by done. cbn [mbind result_bind].
    assert (Hm : 0 <= (h * HASHSHIFT) mod HASHSIZE < HASHSIZE) by (apply Z.mod_pos_bound; done).
    assert (Hw := hash_weight_range c).
    assert (Hu : forall x, 0 <= x < HASHMAPSIZE -> u32 x = x).
    { intros x Hx. unfold u32, HASHMAPSIZE, HASHSIZE, HASHSHIFT in *. apply Z.mod_small. lia. }
    assert (Hr : 0 <= (h * HASHSHIFT) mod HASHSIZE + hash_weight c < HASHMAPSIZE).
    { unfold HASHMAPSIZE, HASHSHIFT in *. lia. }
    rewrite Hu, IH by done. f_equal. rewrite Z.mul_mod by done.
    rewrite (fold_number_cong n _ (h * HASHSHIFT + hash_weight c)).
    + by rewrite <- Z.mul_mod.
    + by rewrite Z.add_mod_idemp_l.
Qed.

Lemma strhash_number n : n <> [] -> strhash n = Ok (number n mod HASHSIZE).
Proof.
  intros Hn. destruct n as [|c n]; [done|]. unfold strhash, number. cbn [fold_left].
  rewrite strhash_loop_spec; [done|]. pose proof (hash_weight_range c).
  unfold HASHMAPSIZE, HASHSIZE, HASHSHIFT. lia.
Qed.

Lemma number_case a b : case_equiv a b -> number a = number b.
Proof.
  unfold number. generalize 0. revert b. induction a as [|c a IH]; intros [|d b] z H; try done.
  apply case_equiv_cons in H as [H1 H2]. simpl. rewrite (hash_weight_case c d) by done. by apply IH.
Qed.

Lemma strhash_range n h : strhash n = Ok h -> 0 <= h < HASHSIZE.
Proof.
  destruct n as [|c n]; [done|]. rewrite strhash_number by done. intros [= <-].
  by apply Z.mod_pos_bound.
Qed.

(** The hash of a name is the name read as a number in base 257, with the
    weights of its characters as digits and that of the terminator as last one,
    modulo the size of the tables; it is an index of the tables, and names that
    are equal up to case have the same hash. *)
Theorem strhash_correct n :
  n <> [] ->
  strhash n = Ok (fold_left (fun N c => N * 257 + hash_weight c) (n ++ [NUL]) 0 mod 32768) /\
  (forall n', case_equiv n n' -> strhash n' = strhash n).
Proof.
  intros Hn. split.
  - rewrite strhash_number by done. f_equal. unfold number. rewrite fold_left_app. simpl.
    change (hash_weight NUL) with 0. by rewrite Z.add_0_r.
  - intros n' Hc. assert (Hl := case_equiv_length _ _ Hc).
    assert (Hn' : n' <> []) by (intros ->; by destruct n).
    by rewrite (strhash_number n'), (strhash_number n), (number_case n n').
Qed.

Lemma strhash_correct_witness : strhash (str "nick{}") = strhash (str "NiCK[]").
Proof.
  destruct (strhash_correct (str "NiCK[]")) as [_ H]; [done|].
  apply H. apply (bool_decide_unpack _). vm_compute. exact I.
Defined.

(** * Chains *)

(** The elements of [l] follow each other from [p]; the last one points at [q]. *)
Fixpoint chain (ns : gmap nat node) (p : option nat) (l : list nat) (q : option nat) : Prop :=
  match l with
  | [] => p = q
  | x :: l => p = Some x /\ exists n, ns !! x = Some n /\ chain ns (hnext n) l q
  end.

Lemma chain_app ns p l1 l2 q :
  chain ns p (l1 ++ l2) q <-> exists r, chain ns p l1 r /\ chain ns r l2 q.
Proof.
  revert p. induction l1 as [|x l1 IH]; intros p; simpl.
  - split; [by exists p|]. by intros (r&->&?).
  - setoid_rewrite IH. split.
    + intros (->&n&?&r&?&?). exists r. split; [|done]. split; [done|]. by exists n.
    + intros (r&(->&n&?&?)&?). split; [done|]. exists n. split; [done|]. by exists r.
Qed.

(** Only the links of the elements of a chain matter. *)
Lemma chain_ext ns ns' p l q :
  (forall x, x ∈ l -> ns' !! x = ns !! x) -> chain ns p l q -> chain ns' p l q.
Proof.
  revert p. induction l as [|x l IH]; intros p H; simpl; [done|].
  intros (->&n&Hx&Hs). split; [done|]. exists n. split.
  - rewrite H; [done|]. by left.
  - apply IH; [|done]. intros y Hy. apply H. by right.
Qed.

Lemma chain_insert ns p l q x n : x ∉ l -> chain ns p l q -> chain (<[x := n]> ns) p l q.
Proof.
  intros Hx. apply chain_ext. intros y Hy. apply lookup_insert_ne. by intros ->.
Qed.

Lemma chain_known ns p l q x : chain ns p l q -> x ∈ l -> is_Some (ns !! x).
Proof.
  revert p. induction l as [|y l IH]; intros p; simpl; [by intros _ ?%not_elem_of_nil|].
  intros (->&n&Hy&Hs) [->|Hx]%elem_of_cons; [by exists n|]. by eapply IH.
Qed.

Lemma chain_size ns p l q : NoDup l -> chain ns p l q -> (length l <= size ns)%nat.
Proof.
  intros Hnd Hs. rewrite <- size_dom, <- (size_list_to_set (C := gset nat)) by done.
  apply subseteq_size. intros x Hx%elem_of_list_to_set. apply elem_of_dom.
  by eapply chain_known.
Qed.

Lemma get_Some t p n : nodes t !! p = Some n -> get t p = Ok n.
Proof. unfold get. by intros ->. Qed.

Lemma set_next_Some t p n q :
  nodes t !! p = Some n -> set_next t p q = Ok (mkTable (heads t) (<[p := link n q]> (nodes t))).
Proof. intros H. unfold set_next. by rewrite (get_Some _ _ _ H). Qed.

Lemma head_of_ok t h : 0 <= h < HASHSIZE -> head_of t h = Ok (heads t !! h).
Proof. intros. unfold head_of. by rewrite decide_True. Qed.

Lemma push_ok t h p n :
  0 <= h < HASHSIZE -> nodes t !! p = Some n ->
  push t h p = Ok (mkTable (<[h := p]> (heads t)) (<[p := link n (heads t !! h)]> (nodes t))).
Proof.
  intros Hh Hp. unfold push. rewrite head_of_ok by done. cbn [mbind result_bind].
  by rewrite (set_next_Some _ _ n).
Qed.

Lemma chain_push ns p l h n :
  p ∉ l -> chain ns h l None -> chain (<[p := link n h]> ns) (Some p) (p :: l) None.
Proof.
  intros Hp Hs. split; [done|]. exists (link n h). split; [apply lookup_insert_eq|].
  by apply chain_insert.
Qed.

(** The loop of the removal: [p] is not the first element. *)
Lemma hRem_loop_spec fuel t p l : forall tmp,
  NoDup l -> chain (nodes t) tmp l None -> (length l < fuel)%nat -> tmp <> Some p ->
  ((p ∉ l) /\ hRem_loop fuel t p tmp = Ok (t, -1)) \/
  (exists l1 q l2 nq np, l = l1 ++ q :: p :: l2 /\ nodes t !! q = Some nq /\ nodes t !! p = Some np /\
     hRem_loop fuel t p tmp =
       Ok (mkTable (heads t) (<[q := link nq (hnext np)]> (nodes t)), 0)).
Proof.
  revert l. induction fuel as [|fuel IH]; intros l tmp Hnd Hs Hf Hne; [lia|].
  destruct l as [|q l]; simpl in Hs.
  - subst. left. split; [apply not_elem_of_nil|done].
  - destruct Hs as (->&nq&Hq&Hs). apply NoDup_cons in Hnd as [Hql Hnd].
    cbn [hRem_loop]. rewrite (get_Some _ _ _ Hq). cbn [mbind result_bind].
    destruct (decide (hnext nq = Some p)) as [E|E].
    + right. rewrite E in Hs. destruct l as [|x l]; [done|].
      destruct Hs as ([= <-]&np&Hp&Hs). rewrite (get_Some _ _ _ Hp). cbn [mbind result_bind].
      rewrite (set_next_Some _ _ _ _ Hq). by exists [], q, l, nq, np.
    + destruct (IH l (hnext nq)) as [[Hp ->]|(l1&q'&l2&nq'&np&->&?&?&->)]; try done;
        [simpl in Hf; lia| |].
      * left. split; [|done]. apply not_elem_of_cons. split; [|done]. congruence.
      * right. by exists (q :: l1), q', l2, nq', np.
Qed.

Lemma chain_remove ns p l1 q x l2 nq nx :
  NoDup (l1 ++ q :: x :: l2) -> chain ns p (l1 ++ q :: x :: l2) None ->
  ns !! q = Some nq -> ns !! x = Some nx ->
  chain (<[q := link nq (hnext nx)]> ns) p (l1 ++ q :: l2) None.
Proof.
  intros Hnd Hs Hq Hx. apply NoDup_app in Hnd as (_&Hdis&Hnd).
  apply NoDup_cons in Hnd as [Hq2 _]. apply not_elem_of_cons in Hq2 as [_ Hq2].
  apply chain_app in Hs as (r&H1&(->&n1&E1&(E2&n2&E3&H2))). simplify_eq.
  apply chain_app. exists (Some q). split.
  - apply chain_insert; [|done]. intros Hin. destruct (Hdis q Hin). by left.
  - split; [done|]. exists (link n1 (hnext n2)). split; [apply lookup_insert_eq|].
    by apply chain_insert.
Qed.

(** The loop of the search: [prv] is not wanted. *)
Lemma hSeek_loop_spec fuel t wanted h l : forall prv,
  0 <= h < HASHSIZE -> NoDup (prv :: l) -> chain (nodes t) (Some prv) (prv :: l) None ->
  (length l < fuel)%nat ->
  ((forall x n, x ∈ l -> nodes t !! x = Some n -> wanted n = false) /\
   hSeek_loop fuel t wanted h prv = Ok (t, None)) \/
  (exists l1 q c l2 nq nc t1, prv :: l = l1 ++ q :: c :: l2 /\
     nodes t !! q = Some nq /\ nodes t !! c = Some nc /\ wanted nc = true /\
     t1 = mkTable (heads t) (<[q := link nq (hnext nc)]> (nodes t)) /\
     hSeek_loop fuel t wanted h prv = (t ← push t1 h c; Ok (t, Some c))).
Proof.
  revert l. induction fuel as [|fuel IH]; intros l prv Hh Hnd Hs Hf; [lia|].
  destruct Hs as (_&n&Hp&Hs). cbn [hSeek_loop]. rewrite (get_Some _ _ _ Hp).
  cbn [mbind result_bind]. destruct l as [|c l]; simpl in Hs.
  - rewrite Hs. left. split; [|done]. by intros x n' Hx%not_elem_of_nil.
  - destruct Hs as (Hn&nc&Hc&Hs). rewrite Hn, (get_Some _ _ _ Hc). cbn [mbind result_bind].
    destruct (wanted nc) eqn:Hw.
    + right. rewrite (set_next_Some _ _ _ _ Hp). cbn [mbind result_bind].
      by exists [], prv, c, l, n, nc, (mkTable (heads t) (<[prv := link n (hnext nc)]> (nodes t))).
    + apply NoDup_cons in Hnd as [Hpl Hnd].
      destruct (IH l c) as [[Hno ->]|(l1&q&c'&l2&nq&nc'&t1&El&?&?&?&?&->)]; try done;
        [split; [done|by exists nc]|simpl in Hf; lia| |].
      * left. split; [|done]. intros x n' [->|Hx]%elem_of_cons Hx'; [congruence|by eapply Hno].
      * right. exists (prv :: l1), q, c', l2, nq, nc', t1. split; [by rewrite El|done].
Qed.

(** * Abstract tables *)

(** What the memory knows of the elements, without the links *)
Definition info (t : table) : gmap nat (cstring * Z) := (fun n => (name n, status n)) <$> nodes t.

(** The specification: the elements and the set of those that are in the table *)
Record spec := mkSpec { known : gmap nat (cstring * Z); reg : gset nat }.

Definition valid (nm : cstring) : Prop := is_cstr nm /\ nm <> [].

Definition named (S : spec) (x : nat) (h : Z) : Prop :=
  exists nm st, known S !! x = Some (nm, st) /\ strhash nm = Ok h.

(** [b h] are the elements of the chain [h], in order. *)
Record Rep (b : Z -> list nat) (t : table) (S : spec) : Prop := {
  rep_info : info t = known S;
  rep_chain : forall h, chain (nodes t) (heads t !! h) (b h) None;
  rep_nodup : forall h, NoDup (b h);
  rep_mem : forall h x, x ∈ b h <-> x ∈ reg S /\ named S x h;
  rep_valid : forall x, x ∈ reg S -> exists nm st, known S !! x = Some (nm, st) /\ valid nm }.

Lemma info_link hs t x n q :
  nodes t !! x = Some n -> info (mkTable hs (<[x := link n q]> (nodes t))) = info t.
Proof.
  intros H. unfold info. simpl. rewrite fmap_insert. apply insert_id.
  by rewrite lookup_fmap, H.
Qed.

Lemma known_node b t S x nm st :
  Rep b t S -> known S !! x = Some (nm, st) ->
  exists n, nodes t !! x = Some n /\ name n = nm /\ status n = st.
Proof.
  intros HR Hx. rewrite <- (rep_info _ _ _ HR) in Hx. unfold info in Hx.
  rewrite lookup_fmap in Hx. destruct (nodes t !! x) as [n|]; simplify_eq/=. by exists n.
Qed.

Lemma node_known b t S x n :
  Rep b t S -> nodes t !! x = Some n -> known S !! x = Some (name n, status n).
Proof. intros HR Hx. rewrite <- (rep_info _ _ _ HR). unfold info. by rewrite lookup_fmap, Hx. Qed.

Lemma named_unique S x h h' : named S x h -> named S x h' -> h = h'.
Proof. intros (?&?&?&?) (?&?&?&?). congruence. Qed.

(** One chain changes. *)
Lemma Rep_change b t S t' S' h l' :
  Rep b t S -> info t' = known S' ->
  (forall h', h' <> h -> heads t' !! h' = heads t !! h') ->
  (forall h' x, h' <> h -> x ∈ b h' -> nodes t' !! x = nodes t !! x) ->
  chain (nodes t') (heads t' !! h) l' None -> NoDup l' ->
  (forall x, x ∈ l' <-> x ∈ reg S' /\ named S' x h) ->
  (forall h' x, h' <> h -> x ∈ reg S' /\ named S' x h' <-> x ∈ reg S /\ named S x h') ->
  (forall x, x ∈ reg S' -> exists nm st, known S' !! x = Some (nm, st) /\ valid nm) ->
  Rep (fun h' => if decide (h' = h) then l' else b h') t' S'.
Proof.
  intros HR Hi Hh Hn Hs Hnd Hm Ho Hv. constructor; try done.
  - intros h'. destruct (decide (h' = h)) as [->|]; [done|]. rewrite Hh by done.
    apply (chain_ext (nodes t)); [|apply HR]. intros x. by apply Hn.
  - intros h'. destruct (decide (h' = h)); [done|apply HR].
  - intros h' x. destruct (decide (h' = h)) as [->|]; [done|].
    rewrite Ho by done. apply HR.
Qed.

(** Two chains have no element in common. *)
Lemma Rep_disjoint b t S h h' x : Rep b t S -> x ∈ b h -> x ∈ b h' -> h = h'.
Proof.
  intros HR [_ H1]%(rep_mem _ _ _ HR) [_ H2]%(rep_mem _ _ _ HR). by eapply named_unique.
Qed.

Lemma Rep_push b t S p h nm st :
  Rep b t S -> (p ∉ reg S) -> known S !! p = Some (nm, st) -> valid nm -> strhash nm = Ok h ->
  exists t' b', push t h p = Ok t' /\ Rep b' t' (mkSpec (known S) (reg S ∪ {[p]})).
Proof.
  intros HR Hp Hk Hv Hh. destruct (known_node _ _ _ _ _ _ HR Hk) as (n&Hn&Hname&_).
  assert (Hr := strhash_range _ _ Hh). eexists _, _. split; [by apply (push_ok _ _ _ n)|].
  assert (Hpb : forall h', p ∉ b h') by (intros h' [? _]%(rep_mem _ _ _ HR); done).
  apply (Rep_change b t S _ _ h (p :: b h) HR); simpl.
  - rewrite (info_link _ t p n) by done. apply HR.
  - intros h' Hne. by apply lookup_insert_ne.
  - intros h' x _ Hx. apply lookup_insert_ne. intros ->. by eapply Hpb.
  - rewrite lookup_insert_eq. apply chain_push; [apply Hpb|apply HR].
  - constructor; [apply Hpb|apply HR].
  - intros x. rewrite elem_of_cons, (rep_mem _ _ _ HR h x), elem_of_union, elem_of_singleton.
    unfold named. simpl. split; [|naive_solver]. intros [->|[? ?]]; [|naive_solver].
    split; [by right|]. by exists nm, st.
  - intros h' x Hne. rewrite elem_of_union, elem_of_singleton. unfold named. simpl.
    split; [|naive_solver]. intros [[?| ->] (nm'&st'&?&?)]; [naive_solver|]. congruence.
  - intros x [Hx| ->%elem_of_singleton]%elem_of_union; [by apply (rep_valid _ _ _ HR)|].
    by exists nm, st.
Qed.

(** The members of a chain from which [c] is taken *)
Lemma members_without S b t h l1 l2 c x :
  Rep b t S -> b h = l1 ++ c :: l2 ->
  x ∈ l1 ++ l2 <-> x ∈ reg S ∖ {[c]} /\ named S x h.
Proof.
  intros HR Hb. assert (Hm := rep_mem _ _ _ HR h x). assert (Hnd := rep_nodup _ _ _ HR h).
  rewrite Hb in Hm, Hnd. rewrite <- Permutation_middle in Hnd.
  apply NoDup_cons in Hnd as [Hc _]. rewrite elem_of_difference, elem_of_singleton.
  rewrite elem_of_app, elem_of_cons in Hm. rewrite elem_of_app in Hc |- *.
  split; [|naive_solver]. intros Hx. destruct Hm as [Hm _]. destruct Hm; [tauto|].
  split; [|done]. split; [done|]. intros ->. tauto.
Qed.

Lemma Rep_unlinked b t S h l1 l2 c hs ns :
  Rep b t S -> b h = l1 ++ c :: l2 ->
  info (mkTable hs ns) = info t ->
  (forall h', h' <> h -> hs !! h' = heads t !! h') ->
  (forall x, x ∉ b h -> ns !! x = nodes t !! x) ->
  chain ns (hs !! h) (l1 ++ l2) None ->
  exists b', Rep b' (mkTable hs ns) (mkSpec (known S) (reg S ∖ {[c]})).
Proof.
  intros HR Hb Hi Hh Hn Hs. eexists. apply (Rep_change b t S _ _ h (l1 ++ l2) HR); simpl; try done.
  - rewrite Hi. apply HR.
  - intros h' x Hne Hx. apply Hn. intros Hx'. apply Hne. by eapply Rep_disjoint.
  - assert (Hnd := rep_nodup _ _ _ HR h). rewrite Hb, <- Permutation_middle in Hnd.
    by apply NoDup_cons in Hnd as [].
  - intros x. by rewrite (members_without S b t h l1 l2 c).
  - assert (Hc : c ∈ b h) by (rewrite Hb; apply elem_of_app; right; left).
    apply (rep_mem _ _ _ HR) in Hc as [_ Hc].
    intros h' x Hne. rewrite elem_of_difference, elem_of_singleton. unfold named in *. simpl.
    split; [naive_solver|]. intros [Hx Hx']. split; [|done]. split; [done|]. intros ->.
    apply Hne. by eapply named_unique.
  - intros x [Hx _]%elem_of_difference. by apply (rep_valid _ _ _ HR).
Qed.

(** The element after [q] is taken out. *)
Lemma Rep_unlink b t S h l1 q c l2 nq nc :
  Rep b t S -> b h = l1 ++ q :: c :: l2 -> nodes t !! q = Some nq -> nodes t !! c = Some nc ->
  exists b', Rep b' (mkTable (heads t) (<[q := link nq (hnext nc)]> (nodes t)))
    (mkSpec (known S) (reg S ∖ {[c]})).
Proof.
  intros HR Hb Hq Hc. apply (Rep_unlinked b t S h (l1 ++ [q]) l2); try done.
  - by rewrite Hb, <- app_assoc.
  - by apply info_link.
  - intros x Hx. apply lookup_insert_ne. intros ->. apply Hx. rewrite Hb.
    apply elem_of_app. right. left.
  - rewrite <- app_assoc. simpl. eapply chain_remove; [| |done|done].
    + rewrite <- Hb. apply HR.
    + rewrite <- Hb. apply HR.
Qed.

(** The first element is taken out. *)
Lemma Rep_unhead b t S h c l2 nc :
  Rep b t S -> b h = c :: l2 -> nodes t !! c = Some nc ->
  exists b', Rep b' (set_head t h (hnext nc)) (mkSpec (known S) (reg S ∖ {[c]})).
Proof.
  intros HR Hb Hc. apply (Rep_unlinked b t S h [] l2); try done.
  - intros h' Hne. by rewrite lookup_partial_alter_ne.
  - rewrite lookup_partial_alter_eq. assert (Hs := rep_chain _ _ _ HR h). rewrite Hb in Hs.
    destruct Hs as (_&n&Hn&Hs). simpl. congruence.
Qed.

(** * The operations against the specification *)

Lemma Rep_size b t S h : Rep b t S -> (length (b h) < Datatypes.S (size (nodes t)))%nat.
Proof. intros HR. assert (H := chain_size _ _ _ _ (rep_nodup _ _ _ HR h) (rep_chain _ _ _ HR h)). lia. Qed.

Lemma Rep_hash b t S p nm st :
  Rep b t S -> known S !! p = Some (nm, st) -> valid nm ->
  exists n h, nodes t !! p = Some n /\ name n = nm /\ strhash nm = Ok h /\ 0 <= h < HASHSIZE.
Proof.
  intros HR Hk [_ Hv]. destruct (known_node _ _ _ _ _ _ HR Hk) as (n&?&?&_).
  exists n. assert (Hnum := strhash_number nm Hv). eexists. split_and!; try done;
    by apply Z.mod_pos_bound.
Qed.

Lemma hRem_spec b t S p nm st :
  Rep b t S -> known S !! p = Some (nm, st) -> valid nm ->
  exists t' b', hRem t p = Ok (t', if decide (p ∈ reg S) then 0 else -1) /\
    Rep b' t' (mkSpec (known S) (reg S ∖ {[p]})).
Proof.
  intros HR Hk Hv. destruct (Rep_hash _ _ _ _ _ _ HR Hk Hv) as (n&h&Hn&Hname&Hh&Hr).
  unfold hRem. rewrite (get_Some _ _ _ Hn). cbn [mbind result_bind]. rewrite Hname, Hh.
  cbn [mbind result_bind]. rewrite head_of_ok by done. cbn [mbind result_bind].
  assert (Hs := rep_chain _ _ _ HR h). assert (Hnd := rep_nodup _ _ _ HR h).
  assert (Hin : p ∈ reg S <-> p ∈ b h).
  { rewrite (rep_mem _ _ _ HR h p). split; [|by intros []]. intros Hp. split; [done|]. by exists nm, st. }
  destruct (decide (heads t !! h = Some p)) as [Hd|Hd].
  - rewrite Hd in Hs. destruct (b h) as [|x l2] eqn:Hb; [done|]. destruct Hs as ([= <-]&_).
    rewrite decide_True by (apply Hin; left).
    destruct (Rep_unhead b t S h p l2 n HR Hb Hn) as (b'&?). by eexists _, b'.
  - destruct (hRem_loop_spec (Datatypes.S (size (nodes t))) t p (b h) (heads t !! h) Hnd Hs
      (Rep_size _ _ _ h HR) Hd) as [[Hp ->]|(l1&q&l2&nq&np&Hb&Hq&Hp&->)].
    + rewrite decide_False by tauto. exists t, b. split; [done|].
      replace (reg S ∖ {[p]}) with (reg S) by set_solver. by destruct S.
    + rewrite decide_True by (apply Hin; rewrite Hb; apply elem_of_app; right; right; left).
      destruct (Rep_unlink b t S h l1 q p l2 nq np HR Hb Hq Hp) as (b'&?). by eexists _, b'.
Qed.

Lemma hSeek_spec b t S nm h wanted :
  Rep b t S -> strhash nm = Ok h ->
  exists t' b' o, hSeek t nm wanted = Ok (t', o) /\ Rep b' t' S /\
    match o with
    | Some c => c ∈ b h /\ exists n, nodes t !! c = Some n /\ wanted n = true
    | None => forall c n, c ∈ b h -> nodes t !! c = Some n -> wanted n = false
    end.
Proof.
  intros HR Hh. assert (Hr := strhash_range _ _ Hh). unfold hSeek. rewrite Hh. cbn [mbind result_bind].
  rewrite head_of_ok by done. cbn [mbind result_bind].
  assert (Hs := rep_chain _ _ _ HR h). assert (Hnd := rep_nodup _ _ _ HR h).
  assert (Hsize := Rep_size _ _ _ h HR).
  destruct (b h) as [|c l] eqn:Hb.
  { simpl in Hs. rewrite Hs. exists t, b, None. split_and!; try done.
    by intros c n Hc%not_elem_of_nil. }
  assert (Hs0 := Hs). destruct Hs as (Hd&nc&Hc&_). rewrite Hd in *. rewrite (get_Some _ _ _ Hc).
  cbn [mbind result_bind]. destruct (wanted nc) eqn:Hw.
  { exists t, b, (Some c). split; [done|]. split; [done|]. split; [left|by exists nc]. }
  destruct (hSeek_loop_spec (Datatypes.S (size (nodes t))) t wanted h l c Hr Hnd Hs0)
    as [[Hno ->]|(l1&q&x&l2&nq&nx&t1&El&Hq&Hx&Hwx&->&->)]; [simpl in Hsize; lia| |].
  - exists t, b, None. split_and!; try done. intros x n [->|Hx]%elem_of_cons Hx'; [congruence|].
    by eapply Hno.
  - rewrite El in Hb. assert (Hxb : x ∈ b h).
    { rewrite Hb. apply elem_of_app. right. right. left. }
    destruct (Rep_unlink b t S h l1 q x l2 nq nx HR Hb Hq Hx) as (b1&HR1).
    apply (rep_mem _ _ _ HR) in Hxb as (Hreg&nm'&st&Hk&Hh').
    destruct (rep_valid _ _ _ HR x Hreg) as (nm2&st2&Hk2&Hv). simplify_eq.
    edestruct (Rep_push b1 _ _ x h nm' st HR1) as (t2&b2&->&HR2); try done; [set_solver|].
    exists t2, b2, (Some x). split; [done|]. split.
    + simpl in HR2. replace (reg S ∖ {[x]} ∪ {[x]}) with (reg S) in HR2; [by destruct S|].
      apply set_eq. intros y. destruct (decide (y = x)); set_solver.
    + split; [|by exists nx]. rewrite El. apply elem_of_app. right. right. left.
Qed.

(** Elements that are not in the table may change. *)
Lemma Rep_outside b t S p n :
  Rep b t S -> (p ∉ reg S) ->
  Rep b (mkTable (heads t) (<[p := n]> (nodes t)))
    (mkSpec (<[p := (name n, status n)]> (known S)) (reg S)).
Proof.
  intros HR Hp. constructor; simpl.
  - unfold info. simpl. rewrite fmap_insert. fold (info t). by rewrite (rep_info _ _ _ HR).
  - intros h. apply chain_insert; [|apply HR]. by intros [? _]%(rep_mem _ _ _ HR).
  - apply HR.
  - intros h x. rewrite (rep_mem _ _ _ HR h x). unfold named. simpl.
    split; intros [Hx ?]; (split; [done|]); [rewrite lookup_insert_ne by (by intros ->); done|].
    by rewrite lookup_insert_ne in * by (by intros ->).
  - intros x Hx. rewrite lookup_insert_ne by (by intros ->). by apply HR.
Qed.

(** The status of an element may change at any time. *)
Lemma Rep_status b t S p n nm st st' :
  Rep b t S -> known S !! p = Some (nm, st) -> nodes t !! p = Some n ->
  Rep b (mkTable (heads t) (<[p := mkNode (name n) st' (hnext n)]> (nodes t)))
    (mkSpec (<[p := (nm, st')]> (known S)) (reg S)).
Proof.
  intros HR Hk Hn. assert (Hkn := node_known _ _ _ _ _ HR Hn).
  rewrite Hkn in Hk. injection Hk as <- <-.
  assert (Hnamed : forall x h, named (mkSpec (<[p := (name n, st')]> (known S)) (reg S)) x h <-> named S x h).
  { intros x h. unfold named. simpl. destruct (decide (x = p)) as [->|]; [|by rewrite lookup_insert_ne].
    rewrite lookup_insert_eq, Hkn. naive_solver. }
  constructor; simpl.
  - unfold info. simpl. rewrite fmap_insert. fold (info t). by rewrite (rep_info _ _ _ HR).
  - intros h. assert (Hs := rep_chain _ _ _ HR h). revert Hs. generalize (heads t !! h).
    induction (b h) as [|x l IH]; intros q; simpl; [done|]. intros (->&nx&Hx&Hs). split; [done|].
    destruct (decide (x = p)) as [->|].
    + rewrite lookup_insert_eq. simplify_eq. eexists. split; [done|]. by apply IH.
    + rewrite lookup_insert_ne by done. exists nx. split; [done|]. by apply IH.
  - apply HR.
  - intros h x. rewrite Hnamed. apply (rep_mem _ _ _ HR h x).
  - intros x Hx. destruct (rep_valid _ _ _ HR x Hx) as (nm&st2&Hk2&Hv).
    destruct (decide (x = p)) as [->|]; [|rewrite lookup_insert_ne by done; by exists nm, st2].
    rewrite lookup_insert_eq. simplify_eq. by eexists _, _.
Qed.

(** * Runs *)

Inductive event :=
  | EAlloc (p : nat) (nm : cstring) (st : Z)
  | EStatus (p : nat) (st : Z)
  | EAdd (p : nat)
  | ERem (p : nat)
  | EChange (p : nat) (newname : cstring)
  | ESeek (nm : cstring) (TMask : option Z).

Inductive answer := ANum (z : Z) | APtr (p : option nat).

Definition set_node (t : table) (p : nat) (n : node) : table :=
  mkTable (heads t) (<[p := n]> (nodes t)).

(** The caller of hChangeClient() copies the new name afterwards.  A seek with a
    mask is one for a client, a seek without mask one for a channel or watch. *)
Definition step (t : table) (ev : event) : result (table * answer) :=
  match ev with
  | EAlloc p nm st => Ok (set_node t p (mkNode nm st None), ANum 0)
  | EStatus p st => n ← get t p; Ok (set_node t p (mkNode (name n) st (hnext n)), ANum 0)
  | EAdd p => t ← hAddClient t p; Ok (t, ANum 0)
  | ERem p => '(t, r) ← hRemClient t p; Ok (t, ANum r)
  | EChange p newname =>
      t ← hChangeClient t p newname; n ← get t p;
      Ok (set_node t p (mkNode newname (status n) (hnext n)), ANum 0)
  | ESeek nm (Some TMask) => '(t, o) ← hSeekClient t nm TMask; Ok (t, APtr o)
  | ESeek nm None => '(t, o) ← hSeekChannel t nm; Ok (t, APtr o)
  end.

Fixpoint run (t : table) (evs : list event) : result (table * list answer) :=
  match evs with
  | [] => Ok (t, [])
  | ev :: evs => '(t, a) ← step t ev; '(t, l) ← run t evs; Ok (t, a :: l)
  end.

(** What a caller must respect: an element is added once and has a name. *)
Definition legal (S : spec) (ev : event) : Prop :=
  match ev with
  | EAlloc p nm st => known S !! p = None
  | EStatus p st => is_Some (known S !! p)
  | EAdd p | ERem p =>
      match known S !! p with Some (nm, _) => valid nm | None => False end /\
      match ev with EAdd _ => p ∉ reg S | _ => True end
  | EChange p newname => p ∈ reg S /\ valid newname
  | ESeek nm _ => valid nm
  end.

Definition next (S : spec) (ev : event) : spec :=
  match ev with
  | EAlloc p nm st => mkSpec (<[p := (nm, st)]> (known S)) (reg S)
  | EStatus p st =>
      match known S !! p with
      | Some (nm, _) => mkSpec (<[p := (nm, st)]> (known S)) (reg S)
      | None => S
      end
  | EAdd p => mkSpec (known S) (reg S ∪ {[p]})
  | ERem p => mkSpec (known S) (reg S ∖ {[p]})
  | EChange p newname =>
      match known S !! p with
      | Some (_, st) => mkSpec (<[p := (newname, st)]> (known S)) (reg S)
      | None => S
      end
  | ESeek _ _ => S
  end.

(** An element that a seek may return *)
Definition found (S : spec) (nm : cstring) (TMask : option Z) (p : nat) : Prop :=
  p ∈ reg S /\ exists nm' st, known S !! p = Some (nm', st) /\ case_equiv nm nm' /\
    match TMask with Some m => Z.land (StatusMask st) m <> 0 | None => True end.

Definition allowed (S : spec) (ev : event) (a : answer) : Prop :=
  match ev, a with
  | ERem p, ANum r => r = if decide (p ∈ reg S) then 0 else -1
  | ESeek nm m, APtr (Some p) => found S nm m p
  | ESeek nm m, APtr None => forall p, ~ found S nm m p
  | ESeek _ _, _ => False
  | ERem _, _ => False
  | _, a => a = ANum 0
  end.

Fixpoint legal_run (S : spec) (evs : list event) : Prop :=
  match evs with [] => True | ev :: evs => legal S ev /\ legal_run (next S ev) evs end.

Fixpoint allowed_run (S : spec) (evs : list event) (l : list answer) : Prop :=
  match evs, l with
  | [], [] => True
  | ev :: evs, a :: l => allowed S ev a /\ allowed_run (next S ev) evs l
  | _, _ => False
  end.

#[export] Instance valid_dec nm : Decision (valid nm).
Proof. unfold valid. apply _. Defined.

#[export] Instance legal_dec S ev : Decision (legal S ev).
Proof.
  destruct ev; simpl; try apply _;
    (destruct (known S !! p) as [[nm st]|]; apply _).
Defined.

#[export] Instance legal_run_dec S evs : Decision (legal_run S evs).
Proof. revert S. induction evs; simpl; apply _. Defined.

(** * Refinement *)

Lemma hSeek_found b t S nm wanted m :
  Rep b t S -> valid nm ->
  (forall n, is_cstr (name n) -> wanted n = true <->
     case_equiv nm (name n) /\
     match m with Some m => Z.land (StatusMask (status n)) m <> 0 | None => True end) ->
  exists t' b' o, hSeek t nm wanted = Ok (t', o) /\ Rep b' t' S /\
    allowed S (ESeek nm m) (APtr o).
Proof.
  intros HR [Hc Hne] Hw. assert (Hh := strhash_number nm Hne).
  set (h := number nm mod HASHSIZE) in *.
  destruct (hSeek_spec b t S nm h wanted HR Hh) as (t'&b'&o&->&HR'&Ho).
  exists t', b', o. split; [done|]. split; [done|]. simpl. destruct o as [c|].
  - destruct Ho as (Hin&n&Hn&Hwn). apply (rep_mem _ _ _ HR) in Hin as [Hreg _].
    assert (Hk := node_known _ _ _ _ _ HR Hn).
    destruct (rep_valid _ _ _ HR c Hreg) as (nm'&st&Hk'&[Hv _]). rewrite Hk in Hk'.
    injection Hk' as <- <-. apply Hw in Hwn; [|done]. split; [done|]. by exists (name n), (status n).
  - intros p (Hreg&nm'&st&Hk&Hce&Hm). destruct (known_node _ _ _ _ _ _ HR Hk) as (n&Hn&<-&<-).
    destruct (rep_valid _ _ _ HR p Hreg) as (nm'&st&Hk'&[Hv Hv2]). rewrite Hk in Hk'.
    injection Hk' as <- <-.
    assert (Hin : p ∈ b h).
    { apply (rep_mem _ _ _ HR). split; [done|]. exists (name n), (status n). split; [done|].
      rewrite strhash_number by done. unfold h. by rewrite (number_case nm (name n)). }
    assert (Hf := Ho p n Hin Hn). assert (wanted n = true) by (apply Hw; done). congruence.
Qed.

Lemma same_name_spec nm n : is_cstr nm -> is_cstr (name n) ->
  same_name nm n = true <-> case_equiv nm (name n).
Proof. intros. unfold same_name. by rewrite bool_decide_eq_true, strCasediff_0. Qed.

(** The element is renamed after it was linked under the new name. *)
Lemma push_rename t h p n nm :
  0 <= h < HASHSIZE -> nodes t !! p = Some n ->
  exists t1 n1, push t h p = Ok t1 /\ nodes t1 !! p = Some n1 /\
    push (set_node t p (mkNode nm (status n) (hnext n))) h p =
      Ok (set_node t1 p (mkNode nm (status n1) (hnext n1))).
Proof.
  intros Hh Hn. eexists _, _. split; [by apply (push_ok _ _ _ n)|]. simpl. split; [apply lookup_insert_eq|].
  erewrite push_ok; [|done|apply lookup_insert_eq]. unfold set_node, link. simpl.
  by rewrite !insert_insert_eq.
Qed.

Lemma hChange_spec b t S p nm st newname :
  Rep b t S -> p ∈ reg S -> known S !! p = Some (nm, st) -> valid newname ->
  exists t' b', step t (EChange p newname) = Ok (t', ANum 0) /\ Rep b' t' (next S (EChange p newname)).
Proof.
  intros HR Hp Hk Hv. assert (Hh := strhash_number newname (proj2 Hv)).
  set (h := number newname mod HASHSIZE) in *.
  assert (Hnm : valid nm).
  { destruct (rep_valid _ _ _ HR p Hp) as (?&?&?&?). congruence. }
  destruct (hRem_spec b t S p nm st HR Hk Hnm) as (t1&b1&Hrem&HR1).
  destruct (known_node _ _ _ _ _ _ HR1 Hk) as (n1&Hn1&_&Hst).
  assert (Hout : p ∉ reg S ∖ {[p]}) by set_solver.
  assert (HR2 := Rep_outside _ _ _ p (mkNode newname (status n1) (hnext n1)) HR1 Hout).
  destruct (push_rename t1 h p n1 newname (strhash_range _ _ Hh) Hn1) as (t2&n2&Hpush&Hn2&Hpush').
  destruct (Rep_push _ _ _ p h newname (status n1) HR2 Hout) as (t3&b3&Hpush3&HR3);
    [apply lookup_insert_eq|done|done|].
  change (push (set_node t1 p (mkNode newname (status n1) (hnext n1))) h p = Ok t3) in Hpush3.
  rewrite Hpush' in Hpush3. injection Hpush3 as <-. eexists _, b3. split.
  - cbn [step]. unfold hChangeClient, hRemClient. rewrite Hh. cbn [mbind result_bind].
    rewrite Hrem. cbn [mbind result_bind]. rewrite Hpush. cbn [mbind result_bind].
    by rewrite (get_Some _ _ _ Hn2).
  - simpl. rewrite Hk. simpl in HR3. rewrite Hst in HR3.
    replace (reg S) with (reg S ∖ {[p]} ∪ {[p]}); [done|].
    apply set_eq. intros y. destruct (decide (y = p)); set_solver.
Qed.

Lemma step_refines b t S ev :
  Rep b t S -> legal S ev ->
  exists t' b' a, step t ev = Ok (t', a) /\ Rep b' t' (next S ev) /\ allowed S ev a.
Proof.
  intros HR Hl. destruct ev as [p nm st|p st|p|p|p newname|nm m].
  - eexists _, b, _. split; [done|]. split; [|done].
    apply (Rep_outside b t S p (mkNode nm st None) HR). intros Hp.
    destruct (rep_valid _ _ _ HR p Hp) as (?&?&?&_). simpl in Hl. congruence.
  - destruct Hl as [[nm st0] Hk]. destruct (known_node _ _ _ _ _ _ HR Hk) as (n&Hn&_).
    cbn [step next]. rewrite (get_Some _ _ _ Hn), Hk. eexists _, b, _. split; [done|].
    split; [|done]. by apply (Rep_status b t S p n nm st0 st).
  - destruct Hl as [Hv Hp]. destruct (known S !! p) as [[nm st]|] eqn:Hk; [|done].
    destruct (Rep_hash _ _ _ _ _ _ HR Hk Hv) as (n&h&Hn&Hname&Hh&_).
    destruct (Rep_push b t S p h nm st HR Hp Hk Hv Hh) as (t'&b'&Ht'&HR').
    exists t', b', (ANum 0). cbn [step]. unfold hAddClient, hAdd.
    rewrite (get_Some _ _ _ Hn). cbn [mbind result_bind]. rewrite Hname, Hh.
    cbn [mbind result_bind]. by rewrite Ht'.
  - destruct Hl as [Hv _]. destruct (known S !! p) as [[nm st]|] eqn:Hk; [|done].
    destruct (hRem_spec b t S p nm st HR Hk Hv) as (t'&b'&Ht'&HR').
    eexists t', b', _. cbn [step]. unfold hRemClient. by rewrite Ht'.
  - destruct Hl as [Hp Hv]. destruct (rep_valid _ _ _ HR p Hp) as (nm&st&Hk&_).
    destruct (hChange_spec b t S p nm st newname HR Hp Hk Hv) as (t'&b'&?&?). by exists t', b', (ANum 0).
  - assert (Hl' := Hl). destruct Hl' as [Hc _]. destruct m as [m|]; cbn [step].
    + destruct (hSeek_found b t S nm (fun n => IsStatMask n m && same_name nm n) (Some m) HR Hl)
        as (t'&b'&o&Hs&HR'&Ha).
      { intros n Hn. rewrite andb_true_iff, same_name_spec by done. unfold IsStatMask.
        rewrite bool_decide_eq_true. tauto. }
      exists t', b', (APtr o). unfold hSeekClient. by rewrite Hs.
    + destruct (hSeek_found b t S nm (same_name nm) None HR Hl) as (t'&b'&o&Hs&HR'&Ha).
      { intros n Hn. rewrite same_name_spec by done. tauto. }
      exists t', b', (APtr o). unfold hSeekChannel. by rewrite Hs.
Qed.

Lemma run_refines evs : forall b t S,
  Rep b t S -> legal_run S evs ->
  exists t' l, run t evs = Ok (t', l) /\ allowed_run S evs l.
Proof.
  induction evs as [|ev evs IH]; intros b t S HR Hl; [by exists t, []|].
  destruct Hl as [Hl Hls]. destruct (step_refines b t S ev HR Hl) as (t1&b1&a&Hs&HR1&Ha).
  destruct (IH b1 t1 _ HR1 Hls) as (t2&l&Hr&Hal). exists t2, (a :: l). cbn [run].
  rewrite Hs. cbn [mbind result_bind]. by rewrite Hr.
Qed.

Definition no_spec : spec := mkSpec ∅ ∅.

Lemma Rep_init : Rep (fun _ => []) hash_init no_spec.
Proof.
  constructor; try done.
  - intros h. constructor.
  - intros h x. split; [by intros ?%not_elem_of_nil|]. by intros [?%elem_of_empty _].
Qed.

(** C24. A table of chains implements a set of named elements: from the empty
    table, whatever elements are added, removed, renamed and looked up, every
    operation ends without following a bad pointer; a removal tells whether the
    element was there, and a search returns an element of the table whose name
    is the one asked for up to case and whose status is in the mask, whenever
    there is one. *)
Theorem hash_table_refines evs :
  legal_run no_spec evs ->
  exists t l, run hash_init evs = Ok (t, l) /\ allowed_run no_spec evs l.
Proof. apply (run_refines evs (fun _ => [])), Rep_init. Qed.

Lemma hash_table_refines_witness :
  let evs := [EAlloc 1 (str "Ana") 9; EAdd 1; EAlloc 2 (str "Bob") 8; EAdd 2;
    ESeek (str "aNA") (Some 512); ESeek (str "bob") (Some 512); EChange 1 (str "Eva"); ERem 2;
    ESeek (str "ana") None; ESeek (str "eva") None; ERem 2] in
  exists t l, run hash_init evs = Ok (t, l) /\ allowed_run no_spec evs l.
Proof. intros evs. apply (hash_table_refines evs). apply (bool_decide_unpack _). vm_compute. exact I. Defined.

(** * The tables as an interface *)

(** A channel or a watch: the element is written and linked, or unlinked. *)
Definition add_named (t : table) (p : nat) (nm : cstring) : result table :=
  hAddChannel (set_node t p (mkNode nm 0 None)) p.

Definition del_named (t : table) (p : nat) : result table :=
  '(t, _) ← hRemChannel t p; Ok t.

Definition holds (t : table) (M : gmap nat cstring) : Prop :=
  exists b S, Rep b t S /\
    forall x nm, M !! x = Some nm <-> x ∈ reg S /\ exists st, known S !! x = Some (nm, st).

Lemma holds_empty : holds hash_init ∅.
Proof.
  exists (fun _ => []), no_spec. split; [apply Rep_init|]. intros x nm.
  rewrite lookup_empty. split; [done|]. by intros [?%elem_of_empty _].
Qed.

Lemma add_named_spec t M p nm :
  holds t M -> M !! p = None -> name_ok nm ->
  exists t', add_named t p nm = Ok t' /\ holds t' (<[p := nm]> M).
Proof.
  intros (b&S&HR&HM) Hp Hv.
  assert (Hreg : (p ∉ reg S)).
  { intros Hin. destruct (rep_valid _ _ _ HR p Hin) as (nm'&st&Hk&_).
    assert (M !! p = Some nm') by (apply HM; eauto). congruence. }
  assert (HR1 := Rep_outside b t S p (mkNode nm 0 None) HR Hreg).
  destruct (step_refines _ _ _ (EAdd p) HR1) as (t'&b'&a&Ht&HR'&_).
  { simpl. by rewrite lookup_insert_eq. }
  cbn [step] in Ht. unfold add_named, set_node in *.
  destruct (hAddClient _ p) as [t1| |] eqn:E; [|done..]. cbn [mbind result_bind] in Ht.
  injection Ht as <- _. exists t1. split; [done|]. exists b', (next (mkSpec (<[p:=(nm, 0)]> (known S)) (reg S)) (EAdd p)).
  split; [done|]. intros x nm'. simpl. destruct (decide (x = p)) as [->|Hne].
  - rewrite !lookup_insert_eq. split; [intros [= ->]; split; [set_solver|eauto]|].
    by intros [_ [st [= -> _]]].
  - rewrite !lookup_insert_ne, HM by done. set_solver.
Qed.

Lemma del_named_spec t M p nm :
  holds t M -> M !! p = Some nm -> exists t', del_named t p = Ok t' /\ holds t' (delete p M).
Proof.
  intros (b&S&HR&HM) Hp. apply HM in Hp as (Hreg&st&Hk).
  destruct (rep_valid _ _ _ HR p Hreg) as (nm'&st'&Hk'&Hv). rewrite Hk in Hk'. injection Hk' as <- <-.
  destruct (hRem_spec b t S p nm st HR Hk Hv) as (t'&b'&Ht&HR'). unfold del_named, hRemChannel.
  rewrite Ht. exists t'. split; [done|]. eexists b', _. split; [exact HR'|]. intros x nm'. simpl.
  destruct (decide (x = p)) as [->|Hne].
  - rewrite lookup_delete_eq. split; [done|]. set_solver.
  - rewrite lookup_delete_ne, HM by done. set_solver.
Qed.

Lemma find_named_spec t M nm :
  holds t M -> name_ok nm ->
  exists t' o, hSeekChannel t nm = Ok (t', o) /\ holds t' M /\
    match o with
    | Some p => exists nm', M !! p = Some nm' /\ case_equiv nm nm'
    | None => forall p nm', M !! p = Some nm' -> ~ case_equiv nm nm'
    end.
Proof.
  intros (b&S&HR&HM) Hv. assert (Hc := proj1 Hv).
  destruct (hSeek_found b t S nm (same_name nm) None HR Hv) as (t'&b'&o&Hs&HR'&Ha).
  { intros n Hn. rewrite same_name_spec by done. tauto. }
  exists t', o. split; [done|]. split; [by exists b', S|]. simpl in Ha. destruct o as [p|].
  - destruct Ha as (Hreg&nm'&st&Hk&Hce&_). exists nm'. split; [|done]. apply HM. eauto.
  - intros p nm' Hp Hce. apply HM in Hp as (Hreg&st&Hk). apply (Ha p). split; [done|]. by exists nm', st.
Qed.

#[export] Instance hash_name_table : NameTable table := {|
  nt_empty := hash_init; nt_add := add_named; nt_del := del_named; nt_find := hSeekChannel;
  nt_rep := holds; nt_empty_spec := holds_empty; nt_add_spec := add_named_spec;
  nt_del_spec := del_named_spec; nt_find_spec := find_named_spec |}.
