(* ===== verification/Whowas.v ===== *)
(** The history of nicks: ircd/whowas.c, and the end of remove_client_from_list()
    of ircd/list.c.

    The table is a ring of [NICKNAMEHISTORYLENGTH] entries, a build parameter.
    Every entry is on a list of the entries with its hash and, while its client
    is on line, on a list of the entries of that client.  The lists are doubly
    linked in the way of the source: an element points at the next one and at
    the pointer that points at it, a [cell].  The link fields of all the entries
    are kept in two [dl], one per kind of list; the heads of the second are the
    [whowas] fields of the clients in memory, so that a write through a pointer
    into a freed client is [Ub].  The abort of MyCoreDump is [Ub] too. *)

From S2P Require Import Prelude Common.

(** * Lists with pointers to pointers *)

Section dl.

Context {K : Type} `{Countable K}.

Inductive cell := Head (k : K) | Next (i : nat).

Record dl := mkDl {
  head : gmap K (option nat); next : gmap nat (option nat); prevnextp : gmap nat cell }.

Definition next_of (d : dl) (i : nat) : option nat := default None (next d !! i).

Definition read (d : dl) (c : cell) : result (option nat) :=
  match c with
  | Head k => of_option (head d !! k)
  | Next i => Ok (next_of d i)
  end.

(** [*c = v] *)
Definition write (d : dl) (c : cell) (v : option nat) : result dl :=
  match c with
  | Head k =>
      if decide (is_Some (head d !! k)) then Ok (mkDl (<[k := v]> (head d)) (next d) (prevnextp d))
      else Ub
  | Next i => Ok (mkDl (head d) (<[i := v]> (next d)) (prevnextp d))
  end.

Definition set_prevnextp (d : dl) (i : nat) (c : cell) : dl :=
  mkDl (head d) (next d) (<[i := c]> (prevnextp d)).

(** [*ww->prevnextp = ww->next; if (ww->next) MyCoreDump;] *)
Definition unlink (d : dl) (i : nat) : result dl :=
  c ← of_option (prevnextp d !! i);
  d' ← write d c (next_of d i);
  if decide (next_of d i = None) then Ok d' else Ub.

(** [if ((ww->next = head)) ww->next->prevnextp = &ww->next;
    ww->prevnextp = &head; head = ww;] *)
Definition push (d : dl) (k : K) (i : nat) : result dl :=
  n ← read d (Head k);
  d ← write d (Next i) n;
  let d := match n with Some j => set_prevnextp d j (Next i) | None => d end in
  write (set_prevnextp d i (Head k)) (Head k) (Some i).

(** The elements of [l] are linked behind the cell [c]. *)
Fixpoint dll (d : dl) (c : cell) (l : list nat) : Prop :=
  match l with
  | [] => read d c = Ok None
  | i :: l => read d c = Ok (Some i) /\ prevnextp d !! i = Some c /\ dll d (Next i) l
  end.

Lemma dll_frame d d' c l :
  read d' c = read d c ->
  (forall i, i ∈ l -> next_of d' i = next_of d i /\ prevnextp d' !! i = prevnextp d !! i) ->
  dll d c l -> dll d' c l.
Proof.
  revert c. induction l as [|i l IH]; intros c Hc Hl; cbn [dll]; [congruence|].
  intros (Hr&Hp&Hd). destruct (Hl i) as [Hn Hpi]; [left|]. split_and!; [congruence..|].
  apply IH; [by simpl; rewrite Hn| |done]. intros j Hj. apply Hl. by right.
Qed.

Lemma next_of_insert d h p i v j :
  next_of (mkDl h (<[i := v]> (next d)) p) j = if decide (i = j) then v else next_of d j.
Proof.
  unfold next_of. simpl. destruct (decide (i = j)) as [->|].
  - by rewrite lookup_insert_eq.
  - by rewrite lookup_insert_ne.
Qed.

(** What a change of one list leaves alone *)
Definition others (d d' : dl) (k : K) (l : list nat) : Prop :=
  forall k' l', k' <> k -> (forall i, i ∈ l -> (i ∉ l')) -> dll d (Head k') l' -> dll d' (Head k') l'.

Lemma push_spec d k i l :
  NoDup (i :: l) -> dll d (Head k) l ->
  exists d', push d k i = Ok d' /\ dll d' (Head k) (i :: l) /\ others d d' k (i :: l) /\
    dom (head d') = dom (head d).
Proof.
  intros [Hi Hnd]%NoDup_cons Hd.
  assert (Hr : read d (Head k) = Ok (hd_error l)) by (destruct l; apply Hd).
  assert (Hk : is_Some (head d !! k)).
  { simpl in Hr. destruct (head d !! k); [by eexists|done]. }
  unfold push. rewrite Hr. cbn [mbind result_bind write].
  set (d1 := match hd_error l with Some j => _ | None => _ end).
  assert (Hh : head d1 = head d) by (unfold d1; by destruct l).
  assert (Hn : forall j, next_of d1 j = if decide (i = j) then hd_error l else next_of d j).
  { intros j. unfold d1. destruct l; [apply next_of_insert|]. simpl. unfold set_prevnextp. apply next_of_insert. }
  assert (Hp : forall j, prevnextp d1 !! j =
    if decide (hd_error l = Some j) then Some (Next i) else prevnextp d !! j).
  { intros j. unfold d1. destruct l as [|x l]; simpl; [done|].
    destruct (decide (Some x = Some j)) as [[= ->]|Hne]; [by rewrite lookup_insert_eq|].
    rewrite lookup_insert_ne; [done|congruence]. }
  clearbody d1. simpl. rewrite Hh, decide_True by done. eexists. split; [done|]. simpl. split_and!.
  - by rewrite lookup_insert_eq.
  - by rewrite lookup_insert_eq.
  - destruct l as [|x l]; simpl in *.
    + unfold next_of at 1. simpl. fold (next_of d1 i). by rewrite Hn, decide_True.
    + destruct Hd as (_&Hpx&Hd). apply NoDup_cons in Hnd as [Hx Hnd].
      apply not_elem_of_cons in Hi as [Hix Hi]. split_and!.
      * unfold next_of at 1. simpl. fold (next_of d1 i). by rewrite Hn, decide_True.
      * by rewrite lookup_insert_ne, Hp, decide_True.
      * eapply dll_frame, Hd; simpl.
        -- unfold next_of at 1. simpl. fold (next_of d1 x). by rewrite Hn, decide_False.
        -- intros j Hj. assert (i <> j) by (by intros ->). assert (x <> j) by (by intros ->).
           rewrite lookup_insert_ne, Hp, decide_False by congruence. split; [|done].
           unfold next_of at 1. simpl. fold (next_of d1 j). by rewrite Hn, decide_False.
  - intros k' l' Hk' Hdis Hl'. eapply dll_frame, Hl'; simpl.
    + by rewrite lookup_insert_ne.
    + intros j Hj. assert (Hij : i <> j). { intros ->. apply (Hdis j); [left|done]. }
      rewrite lookup_insert_ne, Hp by done. rewrite decide_False.
      * split; [|done]. unfold next_of at 1. simpl. fold (next_of d1 j). by rewrite Hn, decide_False.
      * destruct l as [|x l]; simpl; [done|]. intros [= ->]. apply (Hdis j); [right; left|done].
  - rewrite dom_insert_L. apply elem_of_dom in Hk. set_solver.
Qed.

(** The last element of a list *)
Lemma dll_last d c l i :
  NoDup (l ++ [i]) -> dll d c (l ++ [i]) ->
  next_of d i = None /\
  exists c', prevnextp d !! i = Some c' /\ (c' = c \/ exists x, x ∈ l /\ c' = Next x) /\
    forall d', write d c' None = Ok d' -> (forall x, c = Next x -> x ∉ l ++ [i]) -> dll d' c l.
Proof.
  revert c. induction l as [|x l IH]; intros c Hnd Hd; cbn [app dll] in Hd.
  - destruct Hd as (Hr&Hp&Hn). simpl in Hn. split; [congruence|]. exists c.
    split; [done|]. split; [by left|]. intros d' Hw _. destruct c as [k|y]; simpl in *.
    + destruct (decide _); simplify_eq/=. by rewrite lookup_insert_eq.
    + injection Hw as <-. by rewrite next_of_insert, decide_True.
  - destruct Hd as (Hr&Hp&Hd). cbn [app] in Hnd. apply NoDup_cons in Hnd as [Hx Hnd].
    destruct (IH _ Hnd Hd) as (Hn&c'&Hc'&Hor&Hd'). split; [done|]. exists c'. split; [done|].
    split. { right. destruct Hor as [->|(y&Hy&->)]; [exists x|exists y]; (split; [|done]); [left|by right]. }
    intros d' Hw Hc. simpl. split_and!.
    + assert (Hne : c' <> c).
      { intros ->. destruct Hor as [->|(y&Hy&->)].
        - apply (Hc x); [done|left].
        - apply (Hc y); [done|]. right. apply elem_of_app. by left. }
      rewrite <- Hr. destruct c' as [k'|y'], c as [k|y]; simpl in *;
        try (destruct (decide (is_Some _)); [|done]); simplify_eq/=; try done.
      * by rewrite lookup_insert_ne by congruence.
      * rewrite next_of_insert, decide_False by congruence. done.
    + rewrite <- Hp. destruct c' as [k'|y']; simpl in *;
        try (destruct (decide (is_Some _)); [|done]); by simplify_eq.
    + apply Hd'; [done|]. intros y [= <-]. done.
Qed.

Lemma write_head d c l k i :
  dll d (Head k) (l ++ [i]) -> (c = Head k \/ exists x, x ∈ l /\ c = Next x) ->
  exists d', write d c None = Ok d' /\ others d d' k (l ++ [i]) /\ dom (head d') = dom (head d).
Proof.
  intros Hd [->|(x&Hx&->)]; simpl.
  - assert (Hk : is_Some (head d !! k)).
    { destruct l; simpl in Hd; destruct Hd as [Hr _]; destruct (head d !! k); [by eexists|done|by eexists|done]. }
    rewrite decide_True by done. eexists. split; [done|]. split.
    + intros k' l' Hne _. apply dll_frame; [|done]. simpl. by rewrite lookup_insert_ne.
    + simpl. rewrite dom_insert_L. apply elem_of_dom in Hk. set_solver.
  - eexists. split; [done|]. split; [|done]. intros k' l' _ Hdis. apply dll_frame; [done|].
    intros j Hj. split; [|done]. rewrite next_of_insert, decide_False; [done|]. intros ->.
    apply (Hdis j); [|done]. apply elem_of_app. by left.
Qed.

Lemma unlink_spec d k l i :
  NoDup (l ++ [i]) -> dll d (Head k) (l ++ [i]) ->
  exists d', unlink d i = Ok d' /\ dll d' (Head k) l /\ others d d' k (l ++ [i]) /\
    dom (head d') = dom (head d).
Proof.
  intros Hnd Hd. destruct (dll_last d (Head k) l i Hnd Hd) as (Hn&c&Hc&Hor&Hw).
  destruct (write_head d c l k i Hd Hor) as (d'&Hd'&Ho&Hdom). exists d'. unfold unlink.
  rewrite Hc, Hn. cbn [mbind result_bind of_option]. rewrite Hd'. cbn [mbind result_bind].
  split; [done|]. split; [|done]. by apply Hw.
Qed.

End dl.

Arguments cell : clear implicits.
Arguments dl K {_ _}.

(** * Entries *)

Definition WHOWAS_UNUSED : Z := 2 ^ 32 - 1.
Definition BITS_PER_COL : Z := 3.
Definition BITS_PER_COL_MASK : Z := 7.
Definition WW_MAX_INITIAL : Z := 16.
Definition WW_MAX_INITIAL_MASK : Z := WW_MAX_INITIAL - 1.
Definition WW_MAX : Z := WW_MAX_INITIAL * Z.shiftl 1 BITS_PER_COL.

Record Whowas := mkWhowas {
  hashv : Z; name : cstring; username : cstring; hostname : cstring; virtualhost : cstring;
  servername : cstring; realname : cstring; away : option cstring; logoff : Z;
  online : option nat }.

(** The fields of a client that the history copies; a client is known by the
    address of its structure. *)
Record client := mkClient {
  address : nat; c_name : cstring; c_username : cstring; c_host : cstring;
  c_virtualhost : cstring; c_server : cstring; c_info : cstring; c_away : option cstring }.

Definition set_online (o : option nat) (w : Whowas) : Whowas :=
  mkWhowas (hashv w) (name w) (username w) (hostname w) (virtualhost w) (servername w)
    (realname w) (away w) (logoff w) o.

(** The static variables of the file, and the [whowas] fields of the clients *)
Record state := mkState {
  whowas : list Whowas; hlists : dl Z; clists : dl nat; whowas_next : nat }.

(** One round of the loop of hash_whowas_name() *)
Definition hash_round (h : Z * Z) (c : ascii) : Z * Z :=
  let lower := schar (toLower c) in
  (u32 (Z.shiftl h.1 1 + lower), u32 (Z.shiftr h.2 1 + lower)).

(** The loop tests the next character only: an empty name is overrun. *)
Definition hash_whowas_name (nm : cstring) : result Z :=
  match nm with
  | [] => Ub
  | _ =>
      let h := fold_left hash_round nm (0, 0) in
      Ok (Z.shiftl (Z.land h.1 WW_MAX_INITIAL_MASK) BITS_PER_COL + Z.land h.2 BITS_PER_COL_MASK)
  end.

Section whowas.

Variable NICKNAMEHISTORYLENGTH : nat.

Definition unused : Whowas := mkWhowas WHOWAS_UNUSED [] [] [] [] [] [] None 0 None.

(** The static table [whowashash] *)
Definition no_heads : gmap Z (option nat) :=
  list_to_map (map (fun h => (h, None)) (seqZ 0 WW_MAX)).

Definition initwhowas : state :=
  mkState (replicate NICKNAMEHISTORYLENGTH unused)
    (mkDl no_heads ∅ ∅) (mkDl ∅ ∅ ∅) 0.

(** The entry that add_history() overwrites leaves its lists. *)
Definition evict (st : state) : result state :=
  old ← rd (whowas st) (whowas_next st);
  if decide (hashv old = WHOWAS_UNUSED) then Ok st
  else
    cl ← (match online old with
          | Some _ => unlink (clists st) (whowas_next st)
          | None => Ok (clists st)
          end);
    hl ← unlink (hlists st) (whowas_next st);
    Ok (mkState (whowas st) hl cl (whowas_next st)).

Definition new_entry (now : Z) (hv : Z) (c : client) (still_on : bool) : Whowas :=
  mkWhowas hv (c_name c) (c_username c) (c_host c) (c_virtualhost c) (c_server c) (c_info c)
    (c_away c) now (if still_on then Some (address c) else None).

Definition add_history (now : Z) (st : state) (c : client) (still_on : bool) : result state :=
  st ← evict st;
  let ww := whowas_next st in
  hv ← hash_whowas_name (c_name c);
  table ← wr (whowas st) ww (new_entry now hv c still_on);
  cl ← (if still_on then push (clists st) (address c) ww else Ok (clists st));
  hl ← push (hlists st) hv ww;
  Ok (mkState table hl cl
        (if decide (S ww = NICKNAMEHISTORYLENGTH) then 0%nat else S ww)).

Fixpoint off_loop (fuel : nat) (st : state) (temp : option nat) : result state :=
  match fuel with
  | O => Fuel
  | S fuel =>
      match temp with
      | None => Ok st
      | Some i =>
          w ← rd (whowas st) i;
          table ← wr (whowas st) i (set_online None w);
          off_loop fuel (mkState table (hlists st) (clists st) (whowas_next st))
            (next_of (clists st) i)
      end
  end.

Definition off_history (st : state) (c : nat) : result state :=
  temp ← read (clists st) (Head c); off_loop (S NICKNAMEHISTORYLENGTH) st temp.

Fixpoint get_loop (fuel : nat) (st : state) (nick : cstring) (timelimit : Z) (temp : option nat)
    : result (option nat) :=
  match fuel with
  | O => Fuel
  | S fuel =>
      match temp with
      | None => Ok None
      | Some i =>
          w ← rd (whowas st) i;
          if decide (strCasediff nick (name w) = 0 /\ logoff w > timelimit) then Ok (online w)
          else get_loop fuel st nick timelimit (next_of (hlists st) i)
      end
  end.

Definition get_history (now : Z) (st : state) (nick : cstring) (timelimit : Z)
    : result (option nat) :=
  h ← hash_whowas_name nick;
  temp ← read (hlists st) (Head h);
  get_loop (S NICKNAMEHISTORYLENGTH) st nick (now - timelimit) temp.

(** * The WHOWAS command *)

Inductive reply := RWhowasUser (w : Whowas) | RWasNoSuchNick (nick : cstring).

(** The search for one nick: the replies, in order, and the count of all those
    sent so far. *)
Fixpoint bucket_loop (fuel : nat) (st : state) (nick : cstring) (max cur : Z) (temp : option nat)
    : result (list reply * Z) :=
  match fuel with
  | O => Fuel
  | S fuel =>
      match temp with
      | None => Ok ([], cur)
      | Some i =>
          w ← rd (whowas st) i;
          let hit := bool_decide (strCasediff nick (name w) = 0) in
          let cur := if hit then cur + 1 else cur in
          let out := if hit then [RWhowasUser w] else [] in
          if decide (max >= 0 /\ cur >= max) then Ok (out, cur)
          else
            '(l, cur) ← bucket_loop fuel st nick max cur (next_of (hlists st) i);
            Ok (out ++ l, cur)
      end
  end.

Fixpoint nicks_loop (st : state) (nicks : list cstring) (max cur : Z) : result (list reply) :=
  match nicks with
  | [] => Ok []
  | nick :: nicks =>
      h ← hash_whowas_name nick;
      temp ← read (hlists st) (Head h);
      '(l, cur) ← bucket_loop (S NICKNAMEHISTORYLENGTH) st nick max cur temp;
      let l := match l with [] => [RWasNoSuchNick nick] | _ => l end in
      l' ← nicks_loop st nicks max cur; Ok (l ++ l')
  end.

(** [max_arg] is the number of parv[2], if given; [nicks] are the tokens of
    parv[1]. *)
Definition m_whowas (st : state) (MyConnect : bool) (max_arg : option Z) (nicks : list cstring)
    : result (list reply) :=
  let max := default (-1) max_arg in
  let max := if decide (MyConnect = false /\ max > 20) then 20 else max in
  nicks_loop st nicks max 0.

(** * Clients come and go *)

(** A client structure is allocated, with no history. *)
Definition new_client (st : state) (c : nat) : state :=
  mkState (whowas st) (hlists st)
    (mkDl (<[c := None]> (head (clists st))) (next (clists st)) (prevnextp (clists st)))
    (whowas_next st).

Definition free_client (st : state) (c : nat) : state :=
  mkState (whowas st) (hlists st)
    (mkDl (delete c (head (clists st))) (next (clists st)) (prevnextp (clists st)))
    (whowas_next st).

(** The part of remove_client_from_list() for users *)
Definition remove_client (now : Z) (st : state) (c : client) : result state :=
  st ← add_history now st c false; st ← off_history st (address c);
  Ok (free_client st (address c)).

End whowas.

(** * Lists of the table *)

(** A list of positions and entries, youngest first *)
Abbreviation history := (list (nat * Whowas)).

(** The positions of the entries that are on the list of [k], where [f] gives the
    list of an entry *)
Definition sel {K} `{EqDecision K} (f : Whowas -> option K) (k : K) (oh : history) : list nat :=
  (filter (fun p => f p.2 = Some k) oh).*1.

Definition by_hash (w : Whowas) : option Z := Some (hashv w).

Definition good (w : Whowas) : Prop :=
  hash_whowas_name (name w) = Ok (hashv w) /\ is_cstr (name w).

Lemma hash_range nm h : hash_whowas_name nm = Ok h -> 0 <= h < WW_MAX.
Proof.
  destruct nm as [|c nm]; [done|]. unfold hash_whowas_name. intros [= <-].
  generalize (fold_left hash_round nm (hash_round (0, 0) c)). intros [h1 h2]. cbn [fst snd].
  unfold WW_MAX, WW_MAX_INITIAL_MASK, WW_MAX_INITIAL, BITS_PER_COL, BITS_PER_COL_MASK.
  change (16 - 1) with (Z.ones 4). change 7 with (Z.ones 3).
  rewrite !Z.land_ones, Z.shiftl_mul_pow2 by lia.
  assert (H1 := Z.mod_pos_bound h1 (2 ^ 4) eq_refl). assert (H2 := Z.mod_pos_bound h2 (2 ^ 3) eq_refl).
  change (2 ^ 4) with 16 in *. change (2 ^ 3) with 8 in *. change (Z.shiftl 1 3) with 8.
  lia.
Qed.

Lemma hash_case a b : case_equiv a b -> hash_whowas_name a = hash_whowas_name b.
Proof.
  intros H. assert (Hf : forall h, fold_left hash_round a h = fold_left hash_round b h).
  { revert b H. induction a as [|x a IH]; intros [|y b] H h; try done.
    apply case_equiv_cons in H as [Hx H]. simpl. rewrite (IH b) by done.
    f_equal. unfold hash_round. by rewrite Hx. }
  assert (Hl := case_equiv_length _ _ H). unfold hash_whowas_name.
  destruct a, b; try done. by rewrite Hf.
Qed.

Lemma good_hashv w : good w -> 0 <= hashv w < WW_MAX /\ hashv w <> WHOWAS_UNUSED.
Proof.
  intros [H%hash_range _]. split; [done|]. unfold WW_MAX, WW_MAX_INITIAL, WHOWAS_UNUSED in *.
  change (16 * Z.shiftl 1 BITS_PER_COL) with 128 in H. lia.
Qed.

Section links.

Context {K : Type} `{Countable K}.
Variable f : Whowas -> option K.
Implicit Types (d : dl K) (oh : history).

Lemma sel_nodup k oh : NoDup oh.*1 -> NoDup (sel f k oh).
Proof. intros Hnd. eapply sublist_NoDup; [done|]. apply fmap_sublist, sublist_filter. Qed.

Lemma sel_elem k oh i : i ∈ sel f k oh -> exists w, (i, w) ∈ oh /\ f w = Some k.
Proof. intros ([j w]&->&[HP Hin]%list_elem_of_filter)%list_elem_of_fmap. by exists w. Qed.

Lemma sel_in_fst k oh i : i ∈ sel f k oh -> i ∈ oh.*1.
Proof. intros (w&Hw&_)%sel_elem. apply list_elem_of_fmap. by exists (i, w). Qed.

(** The lists of different keys are disjoint. *)
Lemma sel_disjoint k k' oh i :
  NoDup oh.*1 -> k <> k' -> i ∈ sel f k oh -> (i ∉ sel f k' oh).
Proof.
  intros Hnd Hne (w&Hw&Hx)%sel_elem (w'&Hw'&Hy)%sel_elem.
  apply list_elem_of_lookup in Hw as [j Hj]. apply list_elem_of_lookup in Hw' as [j' Hj'].
  assert (j = j') as ->.
  { eapply (NoDup_lookup _ j j' i Hnd); by rewrite list_lookup_fmap, ?Hj, ?Hj'. }
  congruence.
Qed.

Lemma sel_app k oh oh' : sel f k (oh ++ oh') = sel f k oh ++ sel f k oh'.
Proof. unfold sel. by rewrite filter_app, fmap_app. Qed.

Lemma sel_cons k i w oh :
  sel f k ((i, w) :: oh) = if decide (f w = Some k) then i :: sel f k oh else sel f k oh.
Proof. unfold sel. rewrite filter_cons. by destruct (decide (f w = Some k)), (decide _). Qed.

Definition Linked d oh (P : K -> Prop) : Prop := forall k, P k -> dll d (Head k) (sel f k oh).

Lemma drop_last d oh i w k P :
  NoDup (oh ++ [(i, w)]).*1 -> Linked d (oh ++ [(i, w)]) P -> f w = Some k -> P k ->
  exists d', unlink d i = Ok d' /\ Linked d' oh P /\ dom (head d') = dom (head d).
Proof.
  intros Hnd HL Hk HP. assert (Hsel : forall k', sel f k' [(i, w)] = if decide (k = k') then [i] else []).
  { intros k'. rewrite sel_cons, Hk. by destruct (decide (k = k')) as [->|],  (decide _); simplify_eq. }
  assert (Hd := HL k HP). assert (Hndk := sel_nodup k _ Hnd).
  rewrite sel_app, Hsel, decide_True in Hd, Hndk by done.
  destruct (unlink_spec d k (sel f k oh) i Hndk Hd) as (d'&Hu&Hd'&Ho&Hdom).
  exists d'. split_and!; [done| |done]. intros k' HP'.
  destruct (decide (k = k')) as [<-|Hne]; [done|]. assert (Hk' := HL k' HP').
  rewrite sel_app, Hsel, decide_False, app_nil_r in Hk' by done.
  apply Ho; [done| |done]. intros j Hj Hj'.
  apply (sel_disjoint k k' (oh ++ [(i, w)]) j Hnd Hne); rewrite sel_app, Hsel.
  - by rewrite decide_True.
  - apply elem_of_app. by left.
Qed.

Lemma drop_none d oh i w P :
  Linked d (oh ++ [(i, w)]) P -> f w = None -> Linked d oh P.
Proof.
  intros HL Hn k HP. assert (Hk := HL k HP).
  by rewrite sel_app, sel_cons, Hn, decide_False, app_nil_r in Hk.
Qed.

Lemma add_first d oh i w k P :
  NoDup ((i, w) :: oh).*1 -> Linked d oh P -> f w = Some k -> P k ->
  exists d', push d k i = Ok d' /\ Linked d' ((i, w) :: oh) P /\ dom (head d') = dom (head d).
Proof.
  intros Hnd HL Hk HP. assert (Hndk := sel_nodup k _ Hnd).
  rewrite sel_cons, decide_True in Hndk by done.
  destruct (push_spec d k i (sel f k oh) Hndk (HL k HP)) as (d'&Hp&Hd'&Ho&Hdom).
  exists d'. split_and!; [done| |done]. intros k' HP'. rewrite sel_cons.
  destruct (decide (f w = Some k')) as [E|Hne].
  - assert (k' = k) as -> by congruence. done.
  - assert (Hkk : k <> k') by congruence. apply Ho; [done| |by apply HL]. intros j Hj Hj'.
    apply (sel_disjoint k k' ((i, w) :: oh) j Hnd Hkk); rewrite sel_cons.
    + by rewrite decide_True.
    + by rewrite decide_False.
Qed.

Lemma add_none d oh i w P : Linked d oh P -> f w = None -> Linked d ((i, w) :: oh) P.
Proof. intros HL Hn k HP. rewrite sel_cons, Hn, decide_False by done. by apply HL. Qed.

End links.

Record Lists (oh : history) (st : state) (live : gset nat) : Prop := {
  l_entry : forall i w, (i, w) ∈ oh -> whowas st !! i = Some w /\ good w;
  l_nodup : NoDup oh.*1;
  l_hash : Linked by_hash (hlists st) oh (fun h => 0 <= h < WW_MAX);
  l_mine : Linked online (clists st) oh (fun c => c ∈ live);
  l_live : dom (head (clists st)) = live;
  l_online : forall i w c, (i, w) ∈ oh -> online w = Some c -> c ∈ live }.

Section ring.

Variable NICKNAMEHISTORYLENGTH : nat.
Abbreviation N := NICKNAMEHISTORYLENGTH.

(** The positions in the order of their age, youngest first; [lap] tells whether
    the table was filled once. *)
Definition order (n : nat) (lap : bool) : list nat :=
  rev (seq 0 n) ++ if lap then rev (seq n (N - n)) else [].

(** Those that stay when the next entry is written *)
Definition order' (n : nat) (lap : bool) : list nat :=
  rev (seq 0 n) ++ if lap then rev (seq (S n) (N - S n)) else [].

Record Ring (lap : bool) (oh : history) (st : state) : Prop := {
  g_len : length (whowas st) = N;
  g_next : (whowas_next st < N)%nat;
  g_order : oh.*1 = order (whowas_next st) lap;
  g_unused : lap = false -> forall i, (whowas_next st <= i < N)%nat ->
    exists w, whowas st !! i = Some w /\ hashv w = WHOWAS_UNUSED }.

Lemma order_evict n lap : (n < N)%nat -> order n lap = order' n lap ++ if lap then [n] else [].
Proof.
  intros Hn. unfold order, order'. destruct lap; [|by rewrite !app_nil_r].
  rewrite <- app_assoc. f_equal. replace (N - n)%nat with (S (N - S n)) by lia.
  done.
Qed.

Lemma order_insert n lap :
  (n < N)%nat ->
  n :: order' n lap =
  if decide (S n = N) then order 0 true else order (S n) lap.
Proof.
  intros Hn. unfold order, order'.
  assert (Hs : n :: rev (seq 0 n) = rev (seq 0 (S n))).
  { rewrite seq_S. simpl. by rewrite rev_app_distr. }
  rewrite app_comm_cons, Hs. destruct (decide (S n = N)) as [E|E]; [|done].
  rewrite E, Nat.sub_diag, Nat.sub_0_r. simpl. destruct lap; by rewrite app_nil_r.
Qed.

Lemma order_next n lap : (n < N)%nat -> (n ∉ order' n lap).
Proof.
  intros Hn. unfold order'. rewrite elem_of_app, !list_elem_of_In, <- in_rev, in_seq.
  destruct lap; [rewrite <- in_rev, in_seq; lia|simpl; lia].
Qed.

Lemma order_length n lap : (n < N)%nat -> length (order n lap) = if lap then N else n.
Proof.
  intros Hn. unfold order. rewrite length_app, length_rev, length_seq.
  destruct lap; simpl; [rewrite length_rev, length_seq; lia|lia].
Qed.

Lemma fmap_snoc_inv (oh : history) l i :
  oh.*1 = l ++ [i] -> exists oh0 w, oh = oh0 ++ [(i, w)] /\ oh0.*1 = l.
Proof.
  intros H. destruct oh as [|[j w] oh0 _] using rev_ind; [by destruct l|].
  rewrite fmap_app in H. apply app_inj_tail in H as [<- [= <-]]. by exists oh0, w.
Qed.

(** The oldest entry leaves its lists: it is the last one of both. *)
Lemma evict_last oh i w st live :
  Lists (oh ++ [(i, w)]) st live -> whowas_next st = i ->
  exists cl hl, evict st = Ok (mkState (whowas st) hl cl i) /\
    Lists oh (mkState (whowas st) hl cl i) live.
Proof.
  intros HL <-. set (i := whowas_next st) in *.
  assert (Hin : (i, w) ∈ oh ++ [(i, w)]) by (apply elem_of_app; right; left).
  destruct (l_entry _ _ _ HL i w Hin) as [Hw Hg]. assert (Hnd := l_nodup _ _ _ HL).
  destruct (good_hashv w Hg) as [Hr Hne].
  destruct (drop_last by_hash _ _ _ _ _ _ Hnd (l_hash _ _ _ HL) eq_refl Hr) as (hl&Hhl&HLh&_).
  assert (Hcl : exists cl, match online w with
      | Some _ => unlink (clists st) i | None => Ok (clists st) end = Ok cl /\
      Linked online cl oh (fun c => c ∈ live) /\ dom (head cl) = live).
  { destruct (online w) as [c|] eqn:Ho.
    - assert (Hc := l_online _ _ _ HL i w c Hin Ho).
      destruct (drop_last online _ _ _ _ _ _ Hnd (l_mine _ _ _ HL) Ho Hc) as (cl&?&?&Hdom).
      exists cl. split_and!; try done. rewrite Hdom. apply HL.
    - exists (clists st). split_and!; [done| |apply HL].
      eapply drop_none; [apply HL|done]. }
  destruct Hcl as (cl&Hcl&HLc&Hdom). exists cl, hl. split.
  - unfold evict. fold i. rewrite (rd_Some _ _ _ Hw). cbn [mbind result_bind].
    rewrite decide_False by done. rewrite Hcl. cbn [mbind result_bind]. by rewrite Hhl.
  - rewrite fmap_app in Hnd. apply NoDup_app in Hnd as [Hnd _].
    constructor; simpl; try done.
    + intros j w' Hj. apply (l_entry _ _ _ HL). apply elem_of_app. by left.
    + intros j w' c Hj. apply (l_online _ _ _ HL j). apply elem_of_app. by left.
Qed.

Lemma evict_spec lap oh st live :
  Ring lap oh st -> Lists oh st live ->
  exists oh0 cl hl, evict st = Ok (mkState (whowas st) hl cl (whowas_next st)) /\
    Lists oh0 (mkState (whowas st) hl cl (whowas_next st)) live /\
    oh0.*1 = order' (whowas_next st) lap /\ oh0 = take (N - 1) oh.
Proof.
  intros [Hlen Hnext Hord Hun] HL. rewrite order_evict in Hord by done.
  assert (Hlo : length oh = if lap then N else whowas_next st).
  { rewrite <- (length_fmap fst), Hord, <- order_evict by done. by apply order_length. }
  destruct lap.
  - apply fmap_snoc_inv in Hord as (oh0&w&->&Hord).
    destruct (evict_last _ _ _ _ _ HL eq_refl) as (cl&hl&?&?). exists oh0, cl, hl.
    split_and!; try done. rewrite length_app in Hlo. simpl in Hlo.
    rewrite take_app_length'; [done|lia].
  - rewrite app_nil_r in Hord. exists oh, (clists st), (hlists st).
    destruct (Hun eq_refl (whowas_next st)) as (w&Hw&Hh); [lia|].
    split_and!; [|by destruct st|done|rewrite take_ge; [done|lia]].
    unfold evict. rewrite (rd_Some _ _ _ Hw). cbn [mbind result_bind].
    rewrite decide_True by done. by destruct st.
Qed.

Lemma add_history_spec now lap oh st live c still_on :
  Ring lap oh st -> Lists oh st live -> is_cstr (c_name c) -> c_name c <> [] ->
  (still_on = true -> address c ∈ live) ->
  exists st' lap' oh' hv, add_history N now st c still_on = Ok st' /\
    Ring lap' oh' st' /\ Lists oh' st' live /\ hash_whowas_name (c_name c) = Ok hv /\
    oh'.*2 = new_entry now hv c still_on :: take (N - 1) oh.*2.
Proof.
  intros HR HL Hc Hne Hon. assert (HR0 := HR). destruct HR0 as [Hlen Hnext Hord Hun].
  destruct (evict_spec lap oh st live HR HL) as (oh0&cl&hl&Hev&HL0&Hord0&Htake).
  set (n := whowas_next st) in *. unfold add_history. rewrite Hev. cbn [mbind result_bind].
  assert (Hhv : exists hv, hash_whowas_name (c_name c) = Ok hv) by (destruct (c_name c); [done|by eexists]).
  destruct Hhv as (hv&Hhv). rewrite Hhv. cbn [mbind result_bind whowas whowas_next clists hlists].
  fold n. rewrite wr_lt by lia. cbn [mbind result_bind]. set (e := new_entry now hv c still_on).
  assert (Hnew : n ∉ oh0.*1) by (rewrite Hord0; by apply order_next).
  assert (Hnd : NoDup ((n, e) :: oh0).*1) by (constructor; [done|apply HL0]).
  assert (Hge : good e) by done. destruct (good_hashv e Hge) as [Hr _].
  destruct (add_first by_hash _ _ n e hv _ Hnd (l_hash _ _ _ HL0) eq_refl Hr) as (hl'&Hhl'&HLh&_).
  assert (Hcl : exists cl', (if still_on then push cl (address c) n else Ok cl) = Ok cl' /\
      Linked online cl' ((n, e) :: oh0) (fun c => c ∈ live) /\ dom (head cl') = live).
  { destruct still_on.
    - destruct (add_first online _ _ n e (address c) _ Hnd (l_mine _ _ _ HL0) eq_refl (Hon eq_refl))
        as (cl'&?&?&Hdom). exists cl'. split_and!; try done. rewrite Hdom. apply HL0.
    - exists cl. split_and!; [done| |apply HL0]. apply add_none; [apply HL0|done]. }
  destruct Hcl as (cl'&Hcl'&HLc&Hdom). rewrite Hcl'. cbn [mbind result_bind].
  simpl hlists in Hhl'. rewrite Hhl'. cbn [mbind result_bind].
  eexists _, (if decide (S n = N) then true else lap), ((n, e) :: oh0), hv.
  split; [done|]. split; [|split; [|split; [done|]]].
  - constructor; simpl.
    + by rewrite length_insert.
    + destruct (decide (S n = N)); lia.
    + change (n :: oh0.*1 = order (if decide (S n = N) then 0%nat else S n)
        (if decide (S n = N) then true else lap)).
      rewrite Hord0, order_insert by done. by destruct (decide (S n = N)).
    + destruct (decide (S n = N)); [done|]. intros -> i Hi.
      rewrite list_lookup_insert_ne by lia. apply Hun; [done|lia].
  - constructor; simpl; try done.
    + intros i w [[= -> ->]|Hi]%elem_of_cons; [split; [apply list_lookup_insert_eq; lia|done]|].
      destruct (l_entry _ _ _ HL0 i w Hi) as [Hw Hg]. split; [|done].
      rewrite list_lookup_insert_ne; [done|]. intros ->. apply Hnew, list_elem_of_fmap. by exists (i, w).
    + intros i w a [[= -> ->]|Hi]%elem_of_cons Ha.
      * unfold e in Ha. simpl in Ha. destruct still_on; [|done]. injection Ha as <-. by apply Hon.
      * by eapply (l_online _ _ _ HL0).
  - cbn [fmap list_fmap]. f_equal. by rewrite Htake, fmap_take.
Qed.

(** * The client signs off *)

Definition sign_off (c : nat) (w : Whowas) : Whowas :=
  if decide (online w = Some c) then set_online None w else w.

Lemma off_loop_spec l : forall fuel st k temp,
  read (clists st) k = Ok temp -> dll (clists st) k l -> NoDup l -> (length l < fuel)%nat ->
  (forall i, i ∈ l -> is_Some (whowas st !! i)) ->
  exists table, off_loop fuel st temp = Ok (mkState table (hlists st) (clists st) (whowas_next st)) /\
    length table = length (whowas st) /\
    forall i, table !! i = (if decide (i ∈ l) then set_online None else id) <$> whowas st !! i.
Proof.
  induction l as [|j l IH]; intros fuel st k temp Hr Hd Hnd Hf Hin;
    (destruct fuel as [|fuel]; [simpl in Hf; lia|]); cbn [off_loop].
  - simpl in Hd. assert (temp = None) as -> by congruence. exists (whowas st).
    split; [by destruct st|]. split; [done|]. intros i. rewrite decide_False by apply not_elem_of_nil.
    by destruct (whowas st !! i).
  - destruct Hd as (Hr'&_&Hd). assert (temp = Some j) as -> by congruence.
    apply NoDup_cons in Hnd as [Hj Hnd]. destruct (Hin j) as [w Hw]; [left|].
    rewrite (rd_Some _ _ _ Hw). cbn [mbind result_bind].
    rewrite wr_lt by (by eapply lookup_lt_Some). cbn [mbind result_bind].
    destruct (IH fuel (mkState (<[j := set_online None w]> (whowas st)) (hlists st) (clists st)
      (whowas_next st)) (Next j) (next_of (clists st) j)) as (table&->&Hlen&Ht); try done.
    { simpl in Hf. lia. }
    { intros i Hi. simpl. rewrite list_lookup_insert_ne by (by intros ->). apply Hin. by right. }
    exists table. split; [done|]. simpl in *. rewrite length_insert in Hlen. split; [done|].
    intros i. rewrite Ht. destruct (decide (i = j)) as [->|Hne].
    + rewrite list_lookup_insert_eq by (by eapply lookup_lt_Some). rewrite Hw.
      rewrite decide_False by done. rewrite decide_True by left. done.
    + rewrite list_lookup_insert_ne by done. destruct (decide (i ∈ l)) as [Hi|Hi].
      * rewrite decide_True by (by right). done.
      * rewrite decide_False; [done|]. by intros [?|?]%elem_of_cons.
Qed.

Lemma sel_sign_off {K} `{EqDecision K} (f : Whowas -> option K) k c oh :
  (forall w, f (sign_off c w) = Some k <-> f w = Some k) ->
  sel f k (prod_map id (sign_off c) <$> oh) = sel f k oh.
Proof.
  intros Hf. induction oh as [|[i w] oh IH]; [done|]. cbn [fmap list_fmap prod_map].
  rewrite !sel_cons, <- IH. destruct (decide (f w = Some k)) as [E|E].
  - by rewrite decide_True by (by apply Hf).
  - by rewrite decide_False by (by rewrite Hf).
Qed.

Lemma signed_fst c (oh : history) : (prod_map id (sign_off c) <$> oh).*1 = oh.*1.
Proof. rewrite <- list_fmap_compose. apply list_fmap_ext. by intros i [j w] _. Qed.

Lemma signed_snd c (oh : history) : (prod_map id (sign_off c) <$> oh).*2 = sign_off c <$> oh.*2.
Proof. rewrite <- !list_fmap_compose. apply list_fmap_ext. by intros i [j w] _. Qed.

Lemma sel_length {K} `{EqDecision K} (f : Whowas -> option K) k oh : (length (sel f k oh) <= length oh)%nat.
Proof. unfold sel. rewrite length_fmap. apply length_filter. Qed.

Lemma ring_length lap oh st : Ring lap oh st -> (length oh <= N)%nat.
Proof.
  intros [_ Hn Ho _]. rewrite <- (length_fmap fst), Ho, order_length by done. destruct lap; lia.
Qed.

Lemma off_history_spec lap oh st live c :
  Ring lap oh st -> Lists oh st live -> c ∈ live ->
  exists st', off_history N st c = Ok st' /\
    Ring lap (prod_map id (sign_off c) <$> oh) (free_client st' c) /\
    Lists (prod_map id (sign_off c) <$> oh) (free_client st' c) (live ∖ {[c]}).
Proof.
  intros HR HL Hc. assert (Hd := l_mine _ _ _ HL c Hc).
  assert (Hsel : forall i w, (i, w) ∈ oh -> i ∈ sel online c oh <-> online w = Some c).
  { intros i w Hi. split.
    - intros (w'&Hw'&?)%sel_elem. destruct (l_entry _ _ _ HL _ _ Hi), (l_entry _ _ _ HL _ _ Hw'). congruence.
    - intros Ho. unfold sel. apply list_elem_of_fmap. exists (i, w). split; [done|].
      by apply list_elem_of_filter. }
  assert (Hr : exists temp, read (clists st) (Head c) = Ok temp).
  { destruct (sel online c oh); by eexists; apply Hd. }
  destruct Hr as (temp&Hr). unfold off_history. rewrite Hr. cbn [mbind result_bind].
  destruct (off_loop_spec _ (S N) st _ temp Hr Hd (sel_nodup _ _ _ (l_nodup _ _ _ HL)))
    as (table&->&Hlen&Ht).
  { assert (H1 := sel_length online c oh). assert (H2 := ring_length _ _ _ HR). lia. }
  { intros i (w&Hw&_)%sel_elem. destruct (l_entry _ _ _ HL i w Hw) as [-> _]. done. }
  eexists. split; [done|]. unfold free_client. simpl. split.
  - destruct HR as [H1 H2 H3 H4]. constructor; simpl; [congruence|done|by rewrite signed_fst|].
    intros Hlap i Hi. destruct (H4 Hlap i Hi) as (w&Hw&Hu). rewrite Ht, Hw.
    destruct (decide _); by eexists.
  - destruct HL as [L1 L2 L3 L4 L5 L6]. constructor; simpl.
    + intros i w ([j w']&[= -> ->]&Hin)%list_elem_of_fmap. destruct (L1 _ _ Hin) as [Hw Hg].
      rewrite Ht, Hw. unfold sign_off. destruct (decide (online w' = Some c)) as [Ho|Ho].
      * rewrite decide_True by (by apply (Hsel j w')). done.
      * rewrite decide_False by (by rewrite (Hsel j w')). done.
    + by rewrite signed_fst.
    + intros h Hh. rewrite sel_sign_off; [by apply L3|]. intros w. unfold sign_off.
      by destruct (decide _).
    + intros c' [Hc' Hne%not_elem_of_singleton]%elem_of_difference. rewrite sel_sign_off.
      * eapply dll_frame, L4; [|done|done]. simpl. by rewrite lookup_delete_ne.
      * intros w. unfold sign_off. destruct (decide (online w = Some c)) as [Ho|]; [|done].
        simpl. rewrite Ho. split; [done|]. congruence.
    + by rewrite dom_delete_L, L5.
    + intros i w a ([j w']&[= -> ->]&Hin)%list_elem_of_fmap Ha. unfold sign_off in Ha.
      destruct (decide (online w' = Some c)) as [Ho|Ho]; [done|].
      apply elem_of_difference. split; [by eapply L6|]. apply not_elem_of_singleton. congruence.
Qed.

End ring.

(** * Queries *)

Definition same_nick (nick : cstring) (w : Whowas) : Prop := strCasediff nick (name w) = 0.
#[local] Instance same_nick_dec nick w : Decision (same_nick nick w).
Proof. unfold same_nick. apply _. Defined.

(** A list of entries in memory, behind a cell *)
Record Chain (st : state) (k : cell Z) (lp : history) (temp : option nat) : Prop := {
  ch_read : read (hlists st) k = Ok temp;
  ch_dll : dll (hlists st) k lp.*1;
  ch_entry : forall i w, (i, w) ∈ lp -> whowas st !! i = Some w }.

Lemma Chain_nil st k temp : Chain st k [] temp -> temp = None.
Proof. intros [Hr Hd _]. simpl in Hd. congruence. Qed.

Lemma Chain_cons st k i w lp temp :
  Chain st k ((i, w) :: lp) temp ->
  temp = Some i /\ rd (whowas st) i = Ok w /\ Chain st (Next i) lp (next_of (hlists st) i).
Proof.
  intros [Hr (Hr'&_&Hd) He]. split; [rewrite Hr' in Hr; by injection Hr|]. split.
  - apply rd_Some, He. left.
  - constructor; [done|done|]. intros j w' Hj. apply He. by right.
Qed.

Lemma whowas_get_loop_spec lp : forall fuel st nick lim k temp,
  Chain st k lp temp -> (length lp < fuel)%nat ->
  get_loop fuel st nick lim temp =
    Ok (match filter (fun w => same_nick nick w /\ logoff w > lim) lp.*2 with
        | [] => None | w :: _ => online w end).
Proof.
  induction lp as [|[i w] lp IH]; intros fuel st nick lim k temp Hc Hf;
    (destruct fuel as [|fuel]; [simpl in Hf; lia|]); cbn [get_loop].
  - by rewrite (Chain_nil _ _ _ Hc).
  - destruct (Chain_cons _ _ _ _ _ _ Hc) as (->&->&Hc'). cbn [mbind result_bind fmap list_fmap].
    rewrite filter_cons. unfold same_nick. simpl snd.
    destruct (decide (strCasediff nick (name w) = 0 /\ logoff w > lim)) as [E|E].
    + done.
    + eapply IH; [done|]. simpl in Hf. lia.
Qed.

(** [limit max cur l]: what may still be shown of [l] after [cur] replies *)
Definition limit (max : Z) (l : list Whowas) : list Whowas :=
  if decide (max < 0) then l else take (Z.to_nat max) l.

Lemma bucket_loop_spec lp : forall fuel st nick max cur k temp,
  Chain st k lp temp -> (length lp < fuel)%nat -> max < 0 \/ 0 <= cur < max ->
  exists cur', bucket_loop fuel st nick max cur temp =
    Ok (map RWhowasUser
      (if decide (max < 0) then filter (same_nick nick) lp.*2
       else take (Z.to_nat (max - cur)) (filter (same_nick nick) lp.*2)), cur') .
Proof.
  induction lp as [|[i w] lp IH]; intros fuel st nick max cur k temp Hc Hf Hm;
    (destruct fuel as [|fuel]; [simpl in Hf; lia|]); cbn [bucket_loop].
  - rewrite (Chain_nil _ _ _ Hc). exists cur. change (filter (same_nick nick) [].*2) with (@nil Whowas).
    rewrite take_nil. by destruct (decide _).
  - destruct (Chain_cons _ _ _ _ _ _ Hc) as (->&->&Hc'). cbn [mbind result_bind fmap list_fmap].
    rewrite filter_cons. simpl snd. simpl in Hf.
    destruct (decide (same_nick nick w)) as [E|E].
    + rewrite !bool_decide_true by done. destruct (decide (max < 0)) as [Hneg|Hpos].
      * rewrite decide_False by lia. destruct (IH fuel st nick max (cur + 1) _ _ Hc') as (cur'&->);
          [lia|lia|]. cbn [mbind result_bind]. rewrite decide_True by done. by eexists.
      * destruct (decide (max >= 0 /\ cur + 1 >= max)) as [Hfull|Hmore].
        -- replace (max - cur) with 1 by lia. by eexists.
        -- destruct (IH fuel st nick max (cur + 1) _ _ Hc') as (cur'&->); [lia|lia|].
           cbn [mbind result_bind]. rewrite decide_False by done.
           replace (Z.to_nat (max - cur)) with (S (Z.to_nat (max - (cur + 1)))) by lia. by eexists.
    + rewrite !bool_decide_false by done. rewrite decide_False by lia.
      destruct (IH fuel st nick max cur _ _ Hc') as (cur'&->); [lia|lia|]. by eexists.
Qed.

Lemma Lists_chain oh st live h :
  Lists oh st live -> 0 <= h < WW_MAX ->
  exists temp, read (hlists st) (Head h) = Ok temp /\
    Chain st (Head h) (filter (fun p => by_hash p.2 = Some h) oh) temp.
Proof.
  intros HL Hh. assert (Hd := l_hash _ _ _ HL h Hh).
  assert (Hr : exists temp, read (hlists st) (Head h) = Ok temp).
  { destruct (sel by_hash h oh); by eexists; apply Hd. }
  destruct Hr as (temp&Hr). exists temp. split; [done|]. constructor; [done|done|].
  intros i w [_ Hin]%list_elem_of_filter. by apply (l_entry _ _ _ HL).
Qed.

(** Entries of a nick are all on the list of its hash. *)
Lemma bucket_complete oh st live nick h (Q : Whowas -> Prop) `{!forall w, Decision (Q w)} :
  Lists oh st live -> is_cstr nick -> hash_whowas_name nick = Ok h ->
  (forall w, Q w -> same_nick nick w) ->
  filter Q (filter (fun p => by_hash p.2 = Some h) oh).*2 = filter Q oh.*2.
Proof.
  intros HL Hn Hh HQ. assert (He := l_entry _ _ _ HL). clear HL.
  induction oh as [|[i w] oh IH]; [done|].
  rewrite filter_cons. cbn [fmap list_fmap snd]. rewrite (filter_cons Q w).
  rewrite <- IH by (intros j w' Hj; apply He; by right).
  destruct (He i w) as [_ [Hg Hc]]; [left|]. simpl snd. unfold by_hash at 1.
  destruct (decide (Some (hashv w) = Some h)) as [E|E].
  - cbn [fmap list_fmap snd]. by rewrite filter_cons.
  - rewrite decide_False; [done|]. intros Hw. apply E. apply HQ in Hw. unfold same_nick in Hw.
    apply strCasediff_0 in Hw; [|done|done]. rewrite (hash_case _ _ Hw) in Hh. congruence.
Qed.

Section service.

Variable NICKNAMEHISTORYLENGTH : nat.
Abbreviation N := NICKNAMEHISTORYLENGTH.

Definition valid (nick : cstring) : Prop := is_cstr nick /\ nick <> [].

#[export] Instance whowas_valid_dec nick : Decision (valid nick).
Proof. unfold valid. apply _. Defined.

Lemma valid_hash nick : valid nick -> exists h, hash_whowas_name nick = Ok h.
Proof. intros [_ H]. destruct nick; [done|by eexists]. Qed.

Definition chain_fits oh st live h lap :
  Ring N lap oh st -> Lists oh st live ->
  (length (filter (fun p => by_hash p.2 = Some h) oh) < S N)%nat.
Proof.
  intros HR HL. assert (H1 := ring_length _ _ _ _ HR).
  assert (H2 := sel_length by_hash h oh). unfold sel in H2. rewrite length_fmap in H2. lia.
Qed.

Lemma get_history_spec now lap oh st live nick timelimit :
  Ring N lap oh st -> Lists oh st live -> valid nick ->
  get_history N now st nick timelimit =
    Ok (match filter (fun w => same_nick nick w /\ logoff w > now - timelimit) oh.*2 with
        | [] => None | w :: _ => online w end).
Proof.
  intros HR HL Hv. destruct (valid_hash nick Hv) as (h&Hh). unfold get_history. rewrite Hh.
  cbn [mbind result_bind]. destruct (Lists_chain _ _ _ h HL (hash_range _ _ Hh)) as (temp&->&Hc).
  cbn [mbind result_bind]. rewrite (whowas_get_loop_spec _ _ _ _ _ _ _ Hc) by (by eapply chain_fits).
  erewrite (bucket_complete oh st live nick h); [done|done|apply Hv|done|by intros w []].
Qed.

(** What WHOWAS must answer about one nick *)
Definition replies (H : list Whowas) (max : Z) (nick : cstring) : list reply :=
  match limit max (filter (same_nick nick) H) with
  | [] => [RWasNoSuchNick nick]
  | l => map RWhowasUser l
  end.

Lemma nicks_loop_spec lap oh st live max nicks :
  Ring N lap oh st -> Lists oh st live -> Forall valid nicks ->
  max < 0 \/ max > 0 /\ (length nicks <= 1)%nat ->
  forall cur, (max < 0 \/ cur = 0) ->
  nicks_loop N st nicks max cur = Ok (concat (map (replies oh.*2 max) nicks)).
Proof.
  intros HR HL Hv Hm. induction Hv as [|nick nicks Hv Hvs IH]; intros cur Hcur; [done|].
  cbn [nicks_loop]. destruct (valid_hash nick Hv) as (h&Hh). rewrite Hh. cbn [mbind result_bind].
  destruct (Lists_chain _ _ _ h HL (hash_range _ _ Hh)) as (temp&->&Hc). cbn [mbind result_bind].
  destruct (bucket_loop_spec _ (S N) st nick max cur _ _ Hc) as (cur'&->);
    [by eapply chain_fits|lia|]. cbn [mbind result_bind].
  rewrite (bucket_complete oh st live nick h _ HL (proj1 Hv) Hh) by done.
  assert (Hrest : nicks_loop N st nicks max cur' = Ok (concat (map (replies oh.*2 max) nicks))).
  { destruct Hm as [Hm|[Hm Hlen]]; [apply IH; by left|].
    destruct nicks; [done|simpl in Hlen; lia]. }
  rewrite Hrest. cbn [mbind result_bind map concat]. do 2 f_equal. unfold replies, limit.
  generalize (filter (same_nick nick) oh.*2). intros l. destruct (decide (max < 0)); [by destruct l|].
  assert (cur = 0) as -> by lia. rewrite Z.sub_0_r. generalize (take (Z.to_nat max) l).
  intros l'. by destruct l'.
Qed.

(** * The history as a service *)

Inductive event :=
  | EConnect (c : nat)
  | ENick (now : Z) (c : client)
  | EQuit (now : Z) (c : client)
  | EGet (now : Z) (nick : cstring) (timelimit : Z)
  | EWhowas (MyConnect : bool) (max_arg : option Z) (nicks : list cstring).

Inductive answer := ADone | AClient (o : option nat) | AReplies (l : list reply).

Definition step (st : state) (ev : event) : result (state * answer) :=
  match ev with
  | EConnect c => Ok (new_client st c, ADone)
  | ENick now c => st ← add_history N now st c true; Ok (st, ADone)
  | EQuit now c => st ← remove_client N now st c; Ok (st, ADone)
  | EGet now nick timelimit => o ← get_history N now st nick timelimit; Ok (st, AClient o)
  | EWhowas my max_arg nicks => l ← m_whowas N st my max_arg nicks; Ok (st, AReplies l)
  end.

Fixpoint run (st : state) (evs : list event) : result (list answer) :=
  match evs with
  | [] => Ok []
  | ev :: evs => '(st, a) ← step st ev; l ← run st evs; Ok (a :: l)
  end.

(** The specification: the last entries, youngest first, and the clients on line *)
Record spec := mkSpec { hist : list Whowas; live : gset nat }.

Definition entry (now : Z) (c : client) (still_on : bool) : Whowas :=
  new_entry now (match hash_whowas_name (c_name c) with Ok h => h | _ => 0 end) c still_on.

Definition spec_max (MyConnect : bool) (max_arg : option Z) : Z :=
  let max := default (-1) max_arg in
  if decide (MyConnect = false /\ max > 20) then 20 else max.

Definition spec_step (S : spec) (ev : event) : spec * answer :=
  match ev with
  | EConnect c => (mkSpec (hist S) (live S ∪ {[c]}), ADone)
  | ENick now c => (mkSpec (entry now c true :: take (N - 1) (hist S)) (live S), ADone)
  | EQuit now c =>
      (mkSpec (sign_off (address c) <$> entry now c false :: take (N - 1) (hist S))
         (live S ∖ {[address c]}), ADone)
  | EGet now nick timelimit =>
      (S, AClient
        match filter (fun w => same_nick nick w /\ logoff w > now - timelimit) (hist S) with
        | [] => None | w :: _ => online w end)
  | EWhowas my max_arg nicks =>
      (S, AReplies (concat (map (replies (hist S) (spec_max my max_arg)) nicks)))
  end.

Fixpoint spec_run (S : spec) (evs : list event) : list answer :=
  match evs with [] => [] | ev :: evs => (spec_step S ev).2 :: spec_run (spec_step S ev).1 evs end.

(** A limit on the replies is only given with one nick. *)
Definition legal (S : spec) (ev : event) : Prop :=
  match ev with
  | EConnect c => c ∉ live S
  | ENick _ c | EQuit _ c => address c ∈ live S /\ valid (c_name c)
  | EGet _ nick _ => valid nick
  | EWhowas my max_arg nicks =>
      Forall valid nicks /\
      (spec_max my max_arg < 0 \/ spec_max my max_arg > 0 /\ (length nicks <= 1)%nat)
  end.

#[export] Instance whowas_legal_dec S ev : Decision (legal S ev).
Proof. destruct ev; simpl; apply _. Defined.

Fixpoint legal_run (S : spec) (evs : list event) : Prop :=
  match evs with [] => True | ev :: evs => legal S ev /\ legal_run (spec_step S ev).1 evs end.

#[export] Instance whowas_legal_run_dec evs : forall S, Decision (legal_run S evs).
Proof. induction evs; intros S; simpl; apply _. Defined.

Definition Rep (st : state) (S : spec) : Prop :=
  exists lap oh, Ring N lap oh st /\ Lists oh st (live S) /\ oh.*2 = hist S.

Lemma whowas_step_refines st S ev :
  Rep st S -> legal S ev ->
  exists st', step st ev = Ok (st', (spec_step S ev).2) /\ Rep st' (spec_step S ev).1.
Proof.
  intros (lap&oh&HR&HL&HH) Hl. destruct ev as [c|now c|now c|now nick tl|my mx nicks]; cbn [step spec_step fst snd].
  - eexists. split; [done|]. exists lap, oh. split_and!; [by destruct HR| |done].
    destruct HL as [L1 L2 L3 L4 L5 L6]. constructor; simpl; try done.
    + intros c' [Hc'| ->%elem_of_singleton]%elem_of_union.
      * eapply dll_frame, L4; [|done|done]. simpl. rewrite lookup_insert_ne; [done|]. by intros ->.
      * assert (Hnil : sel online c oh = []).
        { destruct (sel online c oh) as [|i l] eqn:E; [done|].
          assert (Hi : i ∈ sel online c oh) by (rewrite E; left).
          apply sel_elem in Hi as (w&Hw&Ho). destruct Hl. by eapply L6. }
        rewrite Hnil. simpl. by rewrite lookup_insert_eq.
    + rewrite dom_insert_L, L5. set_solver.
    + intros i w a Hi Ha. apply elem_of_union. left. by eapply L6.
  - destruct Hl as [Hc Hv].
    destruct (add_history_spec N now lap oh st _ c true HR HL (proj1 Hv) (proj2 Hv) (fun _ => Hc))
      as (st'&lap'&oh'&hv&->&HR'&HL'&Hhv&HH'). eexists. split; [done|]. exists lap', oh'.
    split_and!; try done. rewrite HH'. unfold entry. by rewrite Hhv, <- HH.
  - destruct Hl as [Hc Hv]. unfold remove_client.
    destruct (add_history_spec N now lap oh st _ c false HR HL (proj1 Hv) (proj2 Hv))
      as (st1&lap'&oh'&hv&->&HR'&HL'&Hhv&HH'); [done|]. cbn [mbind result_bind].
    destruct (off_history_spec N lap' oh' st1 _ (address c) HR' HL' Hc) as (st2&->&HR2&HL2).
    eexists. split; [done|]. eexists lap', _. split_and!; [exact HR2|exact HL2|].
    rewrite signed_snd, HH'. unfold entry. by rewrite Hhv, <- HH.
  - rewrite (get_history_spec now lap oh st _ nick tl HR HL Hl), HH. eexists. split; [done|]. by exists lap, oh.
  - destruct Hl as [Hv Hm]. unfold m_whowas. fold (spec_max my mx).
    rewrite (nicks_loop_spec lap oh st _ (spec_max my mx) nicks HR HL Hv Hm 0), HH by (by right).
    eexists. split; [done|]. by exists lap, oh.
Qed.

Definition no_spec : spec := mkSpec [] ∅.

Lemma no_heads_lookup h : 0 <= h < WW_MAX -> no_heads !! h = Some None.
Proof.
  intros Hh. apply elem_of_list_to_map_1.
  - rewrite <- list_fmap_compose, list_fmap_id. apply NoDup_seqZ.
  - apply list_elem_of_fmap. exists h. split; [done|]. apply elem_of_seqZ. lia.
Qed.

#[local] Opaque no_heads.

Lemma Rep_unused : (0 < N)%nat -> Rep (initwhowas N) no_spec.
Proof.
  intros HN. exists false, []. split_and!; [| |done].
  - constructor; simpl; [apply length_replicate|done|done|].
    intros _ i Hi. exists unused. split; [|done]. apply lookup_replicate. split; [done|lia].
  - constructor; simpl; try done.
    + by intros i w Hi%not_elem_of_nil.
    + constructor.
    + intros h Hh. change (sel by_hash h []) with (@nil nat). simpl. by rewrite no_heads_lookup.
    + intros i w c Hi. by apply not_elem_of_nil in Hi.
Qed.

Lemma whowas_run_refines evs : forall st S, Rep st S -> legal_run S evs -> run st evs = Ok (spec_run S evs).
Proof.
  induction evs as [|ev evs IH]; intros st S HR Hl; [done|]. destruct Hl as [Hl Hls].
  destruct (whowas_step_refines st S ev HR Hl) as (st'&Hs&HR'). cbn [run spec_run]. rewrite Hs.
  cbn [mbind result_bind]. by rewrite (IH _ _ HR' Hls).
Qed.

(** C26. Whatever clients come, change nick and leave, the ring of entries with
    its two families of linked lists behaves as the plain list of the last
    NICKNAMEHISTORYLENGTH entries: get_history() gives the client, if still on
    line, of the youngest entry of that nick within the time, and WHOWAS shows
    the entries of the nick, youngest first, up to the limit.  The entry that is
    overwritten is always the last one on its lists (MyCoreDump is never
    reached), every loop ends, and no link into a freed client is followed. *)
Theorem whowas_refines evs :
  (0 < N)%nat -> legal_run no_spec evs -> run (initwhowas N) evs = Ok (spec_run no_spec evs).
Proof. intros HN Hl. apply whowas_run_refines; [by apply Rep_unused|done]. Qed.

End service.

Definition user (a : nat) (nm : string) : client :=
  mkClient a (str nm) (str "user") (str "host") (str "virtual") (str "server") (str "info") None.

Lemma whowas_refines_witness :
  let evs := [EConnect 1; EConnect 2; ENick 100 (user 1 "Ana"); ENick 110 (user 2 "Bob");
    EGet 120 (str "ANA") 50; ENick 130 (user 1 "Eva"); EQuit 140 (user 2 "Zoe");
    EGet 150 (str "ana") 500; EGet 150 (str "eva") 500; EWhowas true None [str "zoe"; str "bob"];
    ENick 160 (user 1 "Bob"); EWhowas false (Some 1) [str "bob"]] in
  run 3 (initwhowas 3) evs = Ok (spec_run 3 no_spec evs).
Proof. intros evs. apply whowas_refines; [lia|apply (bool_decide_unpack _); vm_compute; exact I]. Defined.

(** The example is not vacuous: the answers of the run *)
Example whowas_run :
  run 3 (initwhowas 3) [EConnect 1; EConnect 2; ENick 100 (user 1 "Ana"); ENick 110 (user 2 "Bob");
    EGet 120 (str "ANA") 50; EGet 150 (str "ana") 50; EQuit 151 (user 2 "Zoe"); EGet 152 (str "bob") 100;
    ENick 160 (user 1 "Eva"); EGet 161 (str "ana") 500; EGet 161 (str "eva") 500] =
  Ok [ADone; ADone; ADone; ADone; AClient (Some 1%nat); AClient None; ADone; AClient None; ADone;
    AClient None; AClient (Some 1%nat)].
Proof. vm_compute. reflexivity. Qed.

(** A limit counts the replies of all the nicks of one WHOWAS, and is tested
    after every entry of a list, shown or not: with the limit reached, a second
    nick still gets a reply beyond the limit when it is the youngest of its
    list, and is said to be unknown when another nick is. *)
Theorem m_whowas_limit :
  let st evs := foldl (fun st ev => st ← st; '(st, _) ← step 9 st ev; Ok st) (Ok (initwhowas 9)) evs in
  let ask evs := st ← st evs; m_whowas 9 st true (Some 1) [str "ana"; str "bob"] in
  let shown r := match r with Ok l => map (fun r => match r with
    | RWhowasUser w => inl (name w) | RWasNoSuchNick n => inr n end) l | _ => [] end in
  let come := [EConnect 1; EConnect 2; EConnect 3;
    ENick 100 (user 1 "ana"); ENick 110 (user 2 "bob")] in
  shown (ask come) = [inl (str "ana"); inl (str "bob")] /\
  hash_whowas_name (str "bob") = hash_whowas_name (str "all") /\
  shown (ask (come ++ [ENick 120 (user 3 "all")])) = [inl (str "ana"); inr (str "bob")].
Proof. vm_compute. split_and!; reflexivity. Qed.

(** The hash of a nick is an index of the table, the same for nicks equal up
    to case. *)
Theorem hash_whowas_name_correct nm :
  nm <> [] ->
  exists h, hash_whowas_name nm = Ok h /\ 0 <= h < WW_MAX /\
    (forall nm', case_equiv nm nm' -> hash_whowas_name nm' = Ok h).
Proof.
  intros Hn. assert (Hh : exists h, hash_whowas_name nm = Ok h) by (destruct nm; [done|by eexists]).
  destruct Hh as (h&Hh). exists h. split; [done|]. split; [by apply (hash_range nm)|].
  intros nm' Hc. by rewrite <- (hash_case nm nm' Hc).
Qed.

Lemma hash_whowas_name_correct_witness :
  exists h, hash_whowas_name (str "{nick}") = Ok h /\ 0 <= h < 128 /\
    hash_whowas_name (str "[NICK]") = Ok h.
Proof.
  destruct (hash_whowas_name_correct (str "{nick}")) as (h&H1&H2&H3); [done|].
  exists h. split; [exact H1|]. split; [exact H2|]. apply H3. apply (bool_decide_unpack _). vm_compute. exact I.
Defined.
