(* ===== verification/Chantext.v ===== *)
(** The strings of the channel commands: the functions of ircd/channel.c that
    work on keys, masks and names only.

    [compall] compares a key with a ring of keys, [pretty_mask] completes a ban
    mask in place, [is_utf8] and [utf8_to_latin1] convert the names of channels,
    [fix_string] and [clean_channelname] clean what a client sent. *)

From S2P Require Import Prelude Common.

(** * Keys *)

(** [while ( *p1 && *p1 == *keyring) { p1++; keyring++; }] *)
Fixpoint walk (p1 keyring : cstring) : cstring * cstring :=
  match p1, keyring with
  | c :: p1', d :: keyring' => if decide (c = d) then walk p1' keyring' else (p1, keyring)
  | _, _ => (p1, keyring)
  end.

(** [while ( *keyring && *(keyring++) != ',');] *)
Fixpoint skip_key (keyring : cstring) : cstring :=
  match keyring with
  | [] => []
  | c :: keyring => if decide (c = ","%char) then keyring else skip_key keyring
  end.

Fixpoint compall_loop (fuel : nat) (key keyring : cstring) : result Z :=
  match fuel with
  | O => Fuel
  | S fuel =>
      let '(p1, keyring) := walk key keyring in
      if decide (chr p1 = NUL /\ (chr keyring = NUL \/ chr keyring = ","%char)) then Ok 0
      else if decide (chr keyring = NUL) then Ok 1
      else compall_loop fuel key (skip_key keyring)
  end.

Definition compall (key keyring : cstring) : result Z :=
  compall_loop (S (length keyring)) key keyring.

(** * Names *)

(** The loop copies the characters to keep to the front of the same string. *)
Definition fix_string (arg : cstring) : cstring := filter (fun c => ~ uchar c < 32) arg.

Fixpoint clean_channelname (cn : cstring) : cstring :=
  match cn with
  | [] => []
  | c :: cn => if isIrcCh c then c :: clean_channelname cn else []
  end.

Section utf8.

(** The bytes up to [slim] *)
Fixpoint is_utf8_loop (fuel : nat) (src : list Z) : result Z :=
  match fuel with
  | O => Fuel
  | S fuel =>
      match src with
      | [] => Ok 1
      | c :: src =>
          if decide (c < 0x80) then is_utf8_loop fuel src
          else if decide (Z.land c 0xE0 = 0xC0) then
            if decide (1 + Z.of_nat (length src) < 2) then Ok 0
            else
              let wc := Z.shiftl (Z.land c 0x1F) 6 in
              d ← rd src 0;
              if decide (Z.land d 0xC0 <> 0x80) then Ok 0
              else
                let wc := Z.lor wc (Z.land d 0x3F) in
                if decide (wc < 0x80) then Ok 0 else is_utf8_loop fuel (tl src)
          else if decide (Z.land c 0xF0 = 0xE0) then
            if decide (1 + Z.of_nat (length src) < 3) then Ok 0
            else
              let wc := Z.shiftl (Z.land c 0x0F) 12 in
              d ← rd src 0;
              if decide (Z.land d 0xC0 <> 0x80) then Ok 0
              else
                let wc := Z.lor wc (Z.shiftl (Z.land d 0x3F) 6) in
                e ← rd src 1;
                if decide (Z.land e 0xC0 <> 0x80) then Ok 0
                else
                  let wc := Z.lor wc (Z.land e 0x3F) in
                  if decide (wc < 0x800) then Ok 0 else is_utf8_loop fuel (tl (tl src))
          else Ok 0
      end
  end.

Definition is_utf8 (src : list Z) : result Z := is_utf8_loop (S (length src)) src.

(** The bytes before the terminator; the result is what is written to [dst],
    before its terminator. *)
Fixpoint utf8_to_latin1 (src : list Z) : list Z :=
  match src with
  | [] => []
  | c :: src =>
      if decide (c < 0x80) then c :: utf8_to_latin1 src
      else
        match src with
        | d :: src' =>
            if decide (c >= 0xC0 /\ d >= 0x80) then
              let utf8 := Z.shiftl (Z.land c 0x1F) 6 + Z.land d 0x3F in
              if decide (utf8 < 0x100) then utf8 :: utf8_to_latin1 src' else utf8_to_latin1 src'
            else utf8_to_latin1 src
        | [] => []
        end
  end.

End utf8.

(** * Masks *)

Definition NICKLEN : nat := 30.
Definition USERLEN : nat := 10.
Definition HOSTLEN : nat := 63.

(** A pointer into the mask, or to the static string of one star *)
Inductive mptr := Star | At (i : nat).

Record scan := mkScan { s_nick : mptr; s_user : mptr; s_host : mptr; s_end : nat }.

(** The inner loop: the position after the last '@', and the end of the string *)
Fixpoint last_at (fuel : nat) (mem : list ascii) (ptr : nat) (host : mptr) : result (mptr * nat) :=
  match fuel with
  | O => Fuel
  | S fuel =>
      c ← rd mem ptr;
      if decide (c = NUL) then Ok (host, ptr)
      else last_at fuel mem (S ptr) (if decide (c = "@"%char) then At (S ptr) else host)
  end.

(** The outer loop, until '!', '@' or the end; [last_dot] is true when a '.' or a
    ':' was seen. *)
Fixpoint scan_loop (fuel : nat) (mem : list ascii) (ptr : nat) (last_dot : bool)
    : result (scan * bool) :=
  match fuel with
  | O => Fuel
  | S fuel =>
      c ← rd mem ptr;
      if decide (c = NUL) then Ok (mkScan (At 0) Star Star ptr, last_dot)
      else if decide (c = "!"%char) then
        '(host, e) ← last_at (S (length mem)) mem (S ptr) Star;
        Ok (mkScan (At 0) (At (S ptr)) host e, last_dot)
      else if decide (c = "@"%char) then
        '(host, e) ← last_at (S (length mem)) mem (S ptr) (At (S ptr));
        Ok (mkScan Star (At 0) host e, last_dot)
      else
        scan_loop fuel mem (S ptr) (bool_decide (c = "."%char \/ c = ":"%char) || last_dot)
  end.

(** The position before a pointer; only asked of pointers behind a '!' or '@' *)
Definition before (p : mptr) (ptr : nat) : nat :=
  match p with Star => ptr | At i => (i - 1)%nat end.

Definition text (mem : list ascii) (p : mptr) : result cstring :=
  match p with
  | Star => Ok ["*"%char]
  | At i => _ ← strlen (drop i mem); Ok (c_text (drop i mem))
  end.

Definition make_nick_user_host (nick name host : cstring) : cstring :=
  nick ++ "!"%char :: name ++ "@"%char :: host.

(** Case 2: a mask that looks like a host *)
Definition choose (sc : scan) (last_dot : bool) : mptr * mptr * mptr :=
  match s_user sc with
  | Star => if last_dot then (Star, Star, At 0) else (s_nick sc, Star, s_host sc)
  | At u => (s_nick sc, At u, s_host sc)
  end.

(** "Check lengths" *)
Definition cut_nick (mem : list ascii) (nick : mptr) (nick_end : nat) : result (list ascii) :=
  match nick with
  | Star => Ok mem
  | At n =>
      mem ← (if decide (NICKLEN < nick_end - n)%nat then wr mem (n + NICKLEN) NUL else Ok mem);
      wr mem nick_end NUL
  end.

Definition cut_user (mem : list ascii) (user : mptr) (user_end : nat)
    : result (list ascii * mptr) :=
  match user with
  | Star => Ok (mem, Star)
  | At u =>
      '(mem, user) ← (if decide (USERLEN < user_end - u)%nat then
                        mem ← wr mem (user_end - USERLEN) "*"%char;
                        Ok (mem, At (user_end - USERLEN))
                      else Ok (mem, At u));
      mem ← wr mem user_end NUL; Ok (mem, user)
  end.

Definition cut_host (mem : list ascii) (host : mptr) (ptr : nat) : result (list ascii * mptr) :=
  match host with
  | Star => Ok (mem, Star)
  | At h =>
      if decide (HOSTLEN < ptr - h)%nat then
        mem ← wr mem (ptr - HOSTLEN) "*"%char; Ok (mem, At (ptr - HOSTLEN))
      else Ok (mem, At h)
  end.

Definition pretty_mask (mask : cstring) : result cstring :=
  let mem := mask ++ [NUL] in
  '(sc, last_dot) ← scan_loop (S (length mem)) mem 0 false;
  let '(nick, user, host) := choose sc last_dot in
  let ptr := s_end sc in
  mem ← cut_nick mem nick (before user ptr);
  '(mem, user) ← cut_user mem user (before host ptr);
  '(mem, host) ← cut_host mem host ptr;
  n ← text mem nick; u ← text mem user; h ← text mem host;
  Ok (make_nick_user_host n u h).

(** * The ring of keys *)

(** The keys of a ring *)
Fixpoint split_keys (s : cstring) : list cstring :=
  match s with
  | [] => [[]]
  | c :: s =>
      if decide (c = ","%char) then [] :: split_keys s
      else match split_keys s with k :: ks => (c :: k) :: ks | [] => [[c]] end
  end.

Lemma split_keys_cons s : exists k ks, split_keys s = k :: ks.
Proof.
  induction s as [|c s (k&ks&IH)]; simpl; [by eexists _, _|].
  destruct (decide _); [by eexists _, _|]. rewrite IH. by eexists _, _.
Qed.

Lemma split_keys_prefix pre s k ks :
  (","%char ∉ pre) -> split_keys s = k :: ks -> split_keys (pre ++ s) = (pre ++ k) :: ks.
Proof.
  induction pre as [|c pre IH]; intros Hp Hs; [done|]. apply not_elem_of_cons in Hp as [Hc Hp].
  simpl. rewrite decide_False by done. by rewrite IH.
Qed.

Lemma walk_spec key ring p1 kr :
  walk key ring = (p1, kr) ->
  exists pre, key = pre ++ p1 /\ ring = pre ++ kr /\
    match p1, kr with c :: _, d :: _ => c <> d | _, _ => True end.
Proof.
  revert ring. induction key as [|c key IH]; intros ring H; simpl in H.
  - injection H as <- <-. by exists [].
  - destruct ring as [|d ring]; [injection H as <- <-; by exists []|].
    destruct (decide (c = d)) as [<-|Hne]; [|injection H as <- <-; by exists []].
    destruct (IH ring H) as (pre&->&->&?). by exists (c :: pre).
Qed.

Lemma skip_key_spec s k ks :
  split_keys s = k :: ks ->
  (ks = [] /\ skip_key s = []) \/ ks = split_keys (skip_key s).
Proof.
  revert k. induction s as [|c s IH]; intros k H; simpl in *; [left; by injection H as <- <-|].
  destruct (decide (c = ","%char)); [right; by injection H as <- <-|].
  destruct (split_keys_cons s) as (k'&ks'&E). rewrite E in H. injection H as <- <-. by eapply IH.
Qed.

Lemma skip_key_length s : s <> [] -> (length (skip_key s) < length s)%nat.
Proof.
  induction s as [|c s IH]; [done|]. intros _. simpl. destruct (decide _); [lia|].
  destruct s as [|d s]; [simpl; lia|]. assert (H := IH ltac:(done)). simpl in *. lia.
Qed.

Lemma is_cstr_skip_key s : is_cstr s -> is_cstr (skip_key s).
Proof.
  induction s as [|c s IH]; [done|]. intros [_ H]%is_cstr_cons. simpl. destruct (decide _); auto.
Qed.

Lemma compall_loop_spec fuel key : forall ring,
  is_cstr key -> key <> [] -> (","%char ∉ key) -> is_cstr ring -> (length ring < fuel)%nat ->
  compall_loop fuel key ring = Ok (if decide (key ∈ split_keys ring) then 0 else 1).
Proof.
  induction fuel as [|fuel IH]; intros ring Hk Hne Hcom Hr Hf; [lia|]. cbn [compall_loop].
  destruct (walk key ring) as [p1 kr] eqn:Hw. apply walk_spec in Hw as (pre&->&->&Hd).
  assert (Hp1 := proj2 (proj1 (is_cstr_app _ _) Hk)).
  assert (Hkr := proj2 (proj1 (is_cstr_app _ _) Hr)).
  assert (Hcom' := Hcom). rewrite elem_of_app in Hcom'. destruct (split_keys_cons kr) as (k1&ks&Hs).
  rewrite (split_keys_prefix pre kr k1 ks) by (auto; tauto).
  assert (Hn1 := chr_nul p1 Hp1). assert (Hn2 := chr_nul kr Hkr).
  assert (Hfirst : p1 = k1 <-> p1 = [] /\ (kr = [] \/ chr kr = ","%char)).
  { destruct kr as [|d kr]; simpl in Hs; [injection Hs as <- <-; naive_solver|]. simpl.
    destruct (decide (d = ","%char)) as [->|Hdc]; [injection Hs as <- <-; naive_solver|].
    destruct (split_keys_cons kr) as (k'&ks'&E). rewrite E in Hs. injection Hs as <- <-.
    destruct p1; naive_solver. }
  destruct (decide (chr p1 = NUL /\ _)) as [Hend|Hend].
  { rewrite decide_True; [done|]. apply elem_of_cons. left. f_equal. tauto. }
  assert (Hno : pre ++ p1 <> pre ++ k1) by (intros E; apply app_inv_head in E; tauto).
  destruct (decide (chr kr = NUL)) as [->%Hn2|Hkr0].
  { injection Hs as <- <-. rewrite decide_False; [done|].
    intros [?|?%elem_of_nil]%elem_of_cons; done. }
  rewrite IH; try done.
  - f_equal. apply decide_ext. rewrite elem_of_cons.
    destruct (skip_key_spec kr k1 ks Hs) as [[-> ->]| ->]; simpl.
    + rewrite elem_of_nil, elem_of_cons, elem_of_nil. naive_solver.
    + naive_solver.
  - by apply is_cstr_skip_key.
  - assert (Hl := skip_key_length kr). rewrite length_app in Hf.
    assert (kr <> []) by tauto. specialize (Hl ltac:(done)). lia.
Qed.

(** A key opens a channel exactly when it is one of the keys of the ring. *)
Theorem compall_correct key ring :
  is_cstr key -> key <> [] -> (","%char ∉ key) -> is_cstr ring ->
  compall key ring = Ok (if decide (key ∈ split_keys ring) then 0 else 1).
Proof. intros. apply compall_loop_spec; [done..|lia]. Qed.

Lemma compall_correct_witness : compall (str "abc") (str "abcd,ab,abc") = Ok 0.
Proof.
  rewrite (compall_correct (str "abc") (str "abcd,ab,abc")).
  1: vm_compute; reflexivity.
  all: apply (bool_decide_unpack _); vm_compute; exact I.
Defined.

(** * UTF-8 *)

(** The reference encoding of code points of 16 bits *)
Definition encode (cp : Z) : list Z :=
  if decide (cp < 0x80) then [cp]
  else if decide (cp < 0x800) then [0xC0 + cp / 64; 0x80 + cp mod 64]
  else [0xE0 + cp / 4096; 0x80 + (cp / 64) mod 64; 0x80 + cp mod 64].

Definition is_byte (c : Z) : Prop := 0 <= c < 256.

(** Facts about the bits of a byte, by enumeration *)
Lemma byte_enum (P : Z -> Prop) `{!forall c, Decision (P c)} :
  forallb (fun c => bool_decide (P c)) (seqZ 0 256) = true -> forall c, is_byte c -> P c.
Proof.
  intros Hall c Hc. rewrite forallb_forall in Hall.
  apply (bool_decide_unpack _), Is_true_true_2, Hall, list_elem_of_In, elem_of_seqZ.
  unfold is_byte in Hc. lia.
Qed.

Lemma byte_lead2 c : is_byte c -> Z.land c 0xE0 = 0xC0 <-> 192 <= c < 224.
Proof. revert c. apply (byte_enum (fun c => Z.land c 0xE0 = 0xC0 <-> 192 <= c < 224)). by vm_compute. Qed.
Lemma byte_lead3 c : is_byte c -> Z.land c 0xF0 = 0xE0 <-> 224 <= c < 240.
Proof. revert c. apply (byte_enum (fun c => Z.land c 0xF0 = 0xE0 <-> 224 <= c < 240)). by vm_compute. Qed.
Lemma byte_cont c : is_byte c -> Z.land c 0xC0 = 0x80 <-> 128 <= c < 192.
Proof. revert c. apply (byte_enum (fun c => Z.land c 0xC0 = 0x80 <-> 128 <= c < 192)). by vm_compute. Qed.
Lemma byte_low c : is_byte c ->
  (192 <= c < 224 -> Z.land c 0x1F = c - 192) /\ (224 <= c < 240 -> Z.land c 0x0F = c - 224) /\
  (128 <= c < 192 -> Z.land c 0x3F = c - 128).
Proof.
  revert c. apply (byte_enum (fun c =>
    (192 <= c < 224 -> Z.land c 0x1F = c - 192) /\ (224 <= c < 240 -> Z.land c 0x0F = c - 224) /\
    (128 <= c < 192 -> Z.land c 0x3F = c - 128))). by vm_compute.
Qed.

(** One character of the check, in arithmetic *)
Definition check (loop : list Z -> result Z) (c : Z) (s : list Z) : result Z :=
  if decide (c < 128) then loop s
  else if decide (192 <= c < 224) then
    match s with
    | d :: s => if decide (128 <= d < 192 /\ 128 <= (c - 192) * 64 + (d - 128)) then loop s else Ok 0
    | _ => Ok 0
    end
  else if decide (224 <= c < 240) then
    match s with
    | d :: e :: s =>
        if decide (128 <= d < 192 /\ 128 <= e < 192 /\
                   2048 <= (c - 224) * 4096 + (d - 128) * 64 + (e - 128)) then loop s else Ok 0
    | _ => Ok 0
    end
  else Ok 0.

Lemma wide_char x y z :
  0 <= y < 64 -> 0 <= z < 64 ->
  Z.lor (Z.lor (Z.shiftl x 12) (Z.shiftl y 6)) z = x * 4096 + y * 64 + z.
Proof.
  intros Hy Hz. rewrite (Z.shiftl_mul_pow2 y 6) by lia. change (2 ^ 6) with 64.
  rewrite (lor_shiftl_add x (y * 64) 12) by lia. change (2 ^ 12) with 4096.
  replace (x * 4096 + y * 64) with (Z.shiftl (x * 64 + y) 6).
  - rewrite lor_shiftl_add by (change (2 ^ 6) with 64; lia). by rewrite Z.shiftl_mul_pow2 by lia.
  - rewrite Z.shiftl_mul_pow2 by lia. change (2 ^ 6) with 64. lia.
Qed.

Lemma is_utf8_step fuel c s :
  Forall is_byte (c :: s) -> is_utf8_loop (S fuel) (c :: s) = check (is_utf8_loop fuel) c s.
Proof.
  intros [Hc Hs]%Forall_cons. cbn [is_utf8_loop]. unfold check.
  destruct (decide (c < 0x80)) as [H0|H0]; [done|].
  assert (H2 := byte_lead2 c Hc). assert (H3 := byte_lead3 c Hc). destruct (byte_low c Hc) as (L2&L3&_).
  destruct (decide (Z.land c 0xE0 = 0xC0)) as [E2|E2].
  { assert (Hcr : 192 <= c < 224) by tauto. rewrite (decide_True (P := 192 <= c < 224)) by done.
    destruct s as [|d s]; [done|]. apply Forall_cons in Hs as [Hd _].
    rewrite decide_False by (simpl length; lia). change (rd (d :: s) 0) with (Ok d). cbn [mbind result_bind tl].
    assert (Hdc := byte_cont d Hd). destruct (byte_low d Hd) as (_&_&Ld).
    destruct (decide (Z.land d 0xC0 <> 0x80)) as [Hn|Hy].
    { rewrite decide_False; [done|]. tauto. }
    assert (Hdr : 128 <= d < 192) by (apply Hdc; by apply dec_stable).
    rewrite (L2 Hcr), (Ld Hdr), lor_shiftl_add by (change (2 ^ 6) with 64; lia). change (2 ^ 6) with 64.
    destruct (decide (_ < 0x80)); [rewrite decide_False by lia|rewrite decide_True by lia]; done. }
  rewrite (decide_False (P := 192 <= c < 224)) by tauto.
  destruct (decide (Z.land c 0xF0 = 0xE0)) as [E3|E3]; [|by rewrite decide_False by tauto].
  assert (Hcr : 224 <= c < 240) by tauto. rewrite (decide_True (P := 224 <= c < 240)) by done.
  destruct s as [|d [|e s]]; [done|done|]. apply Forall_cons in Hs as [Hd [He _]%Forall_cons].
  rewrite decide_False by (simpl length; lia).
  change (rd (d :: e :: s) 0) with (Ok d). change (rd (d :: e :: s) 1) with (Ok e).
  cbn [mbind result_bind tl].
  assert (Hdc := byte_cont d Hd). destruct (byte_low d Hd) as (_&_&Ld).
  assert (Hec := byte_cont e He). destruct (byte_low e He) as (_&_&Le).
  destruct (decide (Z.land d 0xC0 <> 0x80)) as [Hn|Hy]; [rewrite decide_False; [done|tauto]|].
  assert (Hdr : 128 <= d < 192) by (apply Hdc; by apply dec_stable).
  destruct (decide (Z.land e 0xC0 <> 0x80)) as [Hn|Hy']; [rewrite decide_False; [done|tauto]|].
  assert (Her : 128 <= e < 192) by (apply Hec; by apply dec_stable).
  rewrite (L3 Hcr), (Ld Hdr), (Le Her), wide_char by lia.
  destruct (decide (_ < 0x800)); [rewrite decide_False by lia|rewrite decide_True by lia]; done.
Qed.

Lemma is_utf8_encode fuel cp s :
  0 <= cp < 0x10000 -> Forall is_byte s ->
  is_utf8_loop (S fuel) (encode cp ++ s) = is_utf8_loop fuel s.
Proof.
  intros Hcp Hs. unfold encode.
  assert (M1 := Z.mod_pos_bound cp 64 eq_refl). assert (M2 := Z.mod_pos_bound (cp / 64) 64 eq_refl).
  assert (D1 := Z.div_mod cp 64 ltac:(done)). assert (D2 := Z.div_mod (cp / 64) 64 ltac:(done)).
  assert (E4 : cp / 4096 = cp / 64 / 64) by (by rewrite Z.div_div).
  destruct (decide (cp < 0x80)); [|destruct (decide (cp < 0x800))]; cbn [app];
    rewrite is_utf8_step by (repeat (apply Forall_cons; split; [unfold is_byte; lia|]); done);
    unfold check.
  - by rewrite decide_True.
  - rewrite decide_False, decide_True, decide_True by lia. done.
  - rewrite decide_False, decide_False, decide_True, decide_True by lia. done.
Qed.

Lemma encode_bytes cp : 0 <= cp < 0x10000 -> Forall is_byte (encode cp).
Proof.
  intros Hcp. unfold encode, is_byte.
  assert (M1 := Z.mod_pos_bound cp 64 eq_refl). assert (M2 := Z.mod_pos_bound (cp / 64) 64 eq_refl).
  assert (D1 := Z.div_mod cp 64 ltac:(done)). assert (D2 := Z.div_mod (cp / 64) 64 ltac:(done)).
  assert (E4 : cp / 4096 = cp / 64 / 64) by (by rewrite Z.div_div).
  repeat destruct (decide _); repeat (apply Forall_cons; split; [lia|]); done.
Qed.

Definition encodes (cps : list Z) (s : list Z) : Prop :=
  Forall (fun cp => 0 <= cp < 0x10000) cps /\ s = concat (map encode cps).

Lemma encodes_bytes cps s : encodes cps s -> Forall is_byte s.
Proof.
  intros [H ->]. induction H; simpl; [done|]. apply Forall_app. split; [by apply encode_bytes|done].
Qed.

Lemma encode_length cp : (1 <= length (encode cp))%nat.
Proof. unfold encode. repeat destruct (decide _); simpl; lia. Qed.

Lemma is_utf8_accepts cps : forall fuel,
  Forall (fun cp => 0 <= cp < 0x10000) cps -> (length (concat (map encode cps)) < fuel)%nat ->
  is_utf8_loop fuel (concat (map encode cps)) = Ok 1.
Proof.
  induction cps as [|cp cps IH]; intros fuel Hc Hf; (destruct fuel as [|fuel]; [lia|]); [done|].
  apply Forall_cons in Hc as [Hcp Hc]. cbn [map concat] in *. rewrite length_app in Hf.
  assert (Hl := encode_length cp). rewrite is_utf8_encode; [apply IH; [done|lia]|done|].
  by apply (encodes_bytes cps).
Qed.

Lemma div64 a b : 0 <= b < 64 -> (a * 64 + b) / 64 = a.
Proof. intros. rewrite Z.div_add_l, (Z.div_small b) by lia. lia. Qed.

Lemma mod64 a b : 0 <= b < 64 -> (a * 64 + b) mod 64 = b.
Proof. intros. rewrite Z.add_comm, Z_mod_plus_full. by apply Z.mod_small. Qed.

(** What one step of the check accepts is the encoding of a code point. *)
Lemma check_accepts loop c s :
  is_byte c -> check loop c s = Ok 1 ->
  exists cp s', 0 <= cp < 0x10000 /\ c :: s = encode cp ++ s' /\ loop s' = Ok 1.
Proof.
  unfold check, is_byte. intros Hc H. destruct (decide (c < 128)).
  { exists c, s. split; [lia|]. unfold encode. by rewrite decide_True. }
  destruct (decide (192 <= c < 224)).
  { destruct s as [|d s]; [done|]. destruct (decide _) as [[Hd Hw]|]; [|done].
    exists ((c - 192) * 64 + (d - 128)), s. split; [lia|]. split; [|done]. unfold encode.
    rewrite decide_False, decide_True by lia. rewrite div64, mod64 by lia. cbn [app]. repeat f_equal; lia. }
  destruct (decide (224 <= c < 240)); [|done]. destruct s as [|d [|e s]]; [done|done|].
  destruct (decide _) as [(Hd&He&Hw)|]; [|done].
  exists ((c - 224) * 4096 + (d - 128) * 64 + (e - 128)), s. split; [lia|]. split; [|done]. unfold encode.
  rewrite decide_False, decide_False by lia.
  replace ((c - 224) * 4096 + (d - 128) * 64 + (e - 128))
    with (((c - 224) * 64 + (d - 128)) * 64 + (e - 128)) by lia.
  change 4096 with (64 * 64). rewrite <- Z.div_div, !div64, !mod64 by lia. cbn [app]. repeat f_equal; lia.
Qed.

Lemma is_utf8_sound fuel s :
  Forall is_byte s -> is_utf8_loop fuel s = Ok 1 -> exists cps, encodes cps s.
Proof.
  revert s. induction fuel as [|fuel IH]; intros s Hs H; [done|]. destruct s as [|c s]; [by exists []|].
  rewrite is_utf8_step in H by done. assert (Hc : is_byte c) by (by apply Forall_cons in Hs as []).
  destruct (check_accepts _ _ _ Hc H) as (cp&s'&Hcp&E&Hs'). rewrite E in *.
  apply Forall_app in Hs as [_ Hs]. destruct (IH s' Hs Hs') as (cps&Hcps&->).
  exists (cp :: cps). split; [by constructor|done].
Qed.

Lemma is_utf8_total fuel s :
  Forall is_byte s -> (length s < fuel)%nat -> is_utf8_loop fuel s = Ok 1 \/ is_utf8_loop fuel s = Ok 0.
Proof.
  revert s. induction fuel as [|fuel IH]; intros s Hs Hf; [lia|]. destruct s as [|c s]; [by left|].
  rewrite is_utf8_step by done. apply Forall_cons in Hs as [_ Hs]. unfold check. simpl in Hf.
  destruct (decide (c < 128)); [apply IH; [done|lia]|]. destruct (decide (192 <= c < 224)).
  - destruct s as [|d s]; [by right|]. apply Forall_cons in Hs as [_ Hs]. simpl in Hf.
    destruct (decide _); [apply IH; [done|lia]|by right].
  - destruct (decide _); [|by right]. destruct s as [|d [|e s]]; [by right|by right|].
    apply Forall_cons in Hs as [_ [_ Hs]%Forall_cons]. simpl in Hf.
    destruct (decide _); [apply IH; [done|lia]|by right].
Qed.

(** is_utf8() reads no byte beyond the given ones, and accepts exactly the
    strings that are the UTF-8 encoding of code points of 16 bits: no overlong
    form, no truncated character. *)
Theorem is_utf8_correct s :
  Forall is_byte s ->
  exists r, is_utf8 s = Ok r /\ (r = 0 \/ r = 1) /\ (r = 1 <-> exists cps, encodes cps s).
Proof.
  intros Hs. unfold is_utf8.
  assert (Ha : forall cps, encodes cps s -> is_utf8_loop (S (length s)) s = Ok 1).
  { intros cps [Hc ->]. apply is_utf8_accepts; [done|lia]. }
  destruct (is_utf8_total (S (length s)) s Hs) as [E|E]; [lia| |]; rewrite E in *.
  - exists 1. split; [done|]. split; [by right|]. split; [|done]. intros _. by eapply is_utf8_sound.
  - exists 0. split; [done|]. split; [by left|]. split; [done|]. intros (cps&Hc). by apply Ha in Hc.
Qed.

Lemma is_utf8_correct_witness :
  exists r, is_utf8 [0x63; 0xC3; 0xB1; 0xE2; 0x82; 0xAC] = Ok r /\
    (r = 1 <-> exists cps, encodes cps [0x63; 0xC3; 0xB1; 0xE2; 0x82; 0xAC]).
Proof.
  destruct (is_utf8_correct [0x63; 0xC3; 0xB1; 0xE2; 0x82; 0xAC]) as (r&H1&_&H3).
  - repeat (apply Forall_cons; split; [unfold is_byte; lia|]). constructor.
  - exists r. split; [exact H1|exact H3].
Defined.

(** ** Conversion to Latin-1 *)

Lemma byte_mask c : is_byte c -> 192 <= c < 224 -> Z.land c 0x1F = c - 192.
Proof. intros Hc. by apply (byte_low c Hc). Qed.

Lemma latin1_encode cp s :
  0 <= cp < 0x800 ->
  utf8_to_latin1 (encode cp ++ s) = (if decide (cp < 0x100) then [cp] else []) ++ utf8_to_latin1 s.
Proof.
  intros Hcp. unfold encode.
  assert (M1 := Z.mod_pos_bound cp 64 eq_refl). assert (D1 := Z.div_mod cp 64 ltac:(done)).
  destruct (decide (cp < 0x80)); cbn [app utf8_to_latin1].
  - rewrite decide_True by done. by rewrite decide_True by lia.
  - rewrite decide_True by lia. cbn [app utf8_to_latin1]. rewrite decide_False by lia.
    rewrite decide_True by lia.
    destruct (byte_low (192 + cp / 64)) as (L2&_); [unfold is_byte; lia|].
    destruct (byte_low (128 + cp mod 64)) as (_&_&L3); [unfold is_byte; lia|].
    rewrite L2, L3 by lia. rewrite Z.shiftl_mul_pow2 by lia. change (2 ^ 6) with 64.
    replace ((192 + cp / 64 - 192) * 64 + (128 + cp mod 64 - 128)) with cp by lia.
    by destruct (decide (cp < 0x100)).
Qed.

Lemma latin1_length s : (length (utf8_to_latin1 s) <= length s)%nat.
Proof.
  remember (length s) as n eqn:Hn. assert (Hle : (length s <= n)%nat) by lia. rewrite Hn. clear Hn.
  revert s Hle. induction n as [|n IH]; intros s Hle; (destruct s as [|c s]; [done|]); cbn [length] in *; [lia|].
  cbn [utf8_to_latin1]. destruct (decide (c < 0x80)).
  { cbn [length]. assert (H := IH s). lia. }
  destruct s as [|d s]; [cbn [length]; lia|]. assert (H := IH (d :: s)). assert (H' := IH s).
  cbn [length] in *.
  destruct (decide (c >= 0xC0 /\ d >= 0x80)); [|lia]. destruct (decide _); cbn [length]; lia.
Qed.

(** utf8_to_latin1() gives the characters of Latin-1 and drops the other
    characters of two bytes; the result fits where the source fits. *)
Theorem utf8_to_latin1_correct cps :
  Forall (fun cp => 0 <= cp < 0x800) cps ->
  utf8_to_latin1 (concat (map encode cps)) = filter (fun cp => cp < 0x100) cps /\
  (forall s, (length (utf8_to_latin1 s) <= length s)%nat).
Proof.
  intros H. split; [|apply latin1_length]. induction H as [|cp cps Hcp _ IH]; [done|].
  cbn [map concat]. rewrite latin1_encode, IH, filter_cons by done. by destruct (decide _).
Qed.

Lemma utf8_to_latin1_correct_witness :
  utf8_to_latin1 (concat (map encode [0x63; 0xF1; 0x161; 0x41])) = [0x63; 0xF1; 0x41].
Proof.
  apply (utf8_to_latin1_correct [0x63; 0xF1; 0x161; 0x41]).
  repeat (apply Forall_cons; split; [lia|]). constructor.
Defined.

(** A character of three bytes is not ignored: its first two bytes are taken
    for a character of two, and what they give is written; different characters
    become the same one. *)
Theorem utf8_to_latin1_mangles :
  is_utf8 (encode 0x20AC) = Ok 1 /\ utf8_to_latin1 (encode 0x20AC) = [0x82] /\
  utf8_to_latin1 (encode 0x2083) = utf8_to_latin1 (encode 0x82).
Proof. vm_compute. split_and!; reflexivity. Qed.

(** * Masks *)

(** The text before and after the last '@' *)
Fixpoint rsplit_at (s : cstring) : option (cstring * cstring) :=
  match s with
  | [] => None
  | c :: s =>
      match rsplit_at s with
      | Some (u, h) => Some (c :: u, h)
      | None => if decide (c = "@"%char) then Some ([], s) else None
      end
  end.

(** The text before the first '!' or '@', and the rest *)
Fixpoint break_sep (s : cstring) : cstring * cstring :=
  match s with
  | [] => ([], [])
  | c :: s' =>
      if decide (c = "!"%char \/ c = "@"%char) then ([], s)
      else let '(pre, rest) := break_sep s' in (c :: pre, rest)
  end.

Definition is_dot (c : ascii) : bool := bool_decide (c = "."%char \/ c = ":"%char).

Definition star : cstring := ["*"%char].

(** A text that is too long loses its start, marked by a star. *)
Definition cut_front (n : nat) (s : cstring) : cstring :=
  if decide (n < length s)%nat then "*"%char :: drop (length s - n + 1) s else s.

(** The reference: the five cases of the comment, with the lengths cut *)
Definition pretty_spec (mask : cstring) : cstring :=
  let '(pre, rest) := break_sep mask in
  match rest with
  | [] =>
      if existsb is_dot pre then make_nick_user_host star star (cut_front HOSTLEN pre)
      else make_nick_user_host (take NICKLEN pre) star star
  | c :: r =>
      if decide (c = "!"%char) then
        match rsplit_at r with
        | Some (u, h) =>
            make_nick_user_host (take NICKLEN pre) (cut_front USERLEN u) (cut_front HOSTLEN h)
        | None => make_nick_user_host (take NICKLEN pre) (cut_front USERLEN r) star
        end
      else
        match rsplit_at r with
        | Some (u, h) =>
            make_nick_user_host star (cut_front USERLEN (pre ++ "@"%char :: u)) (cut_front HOSTLEN h)
        | None => make_nick_user_host star (cut_front USERLEN pre) (cut_front HOSTLEN r)
        end
  end.

Lemma rsplit_at_app s u h : rsplit_at s = Some (u, h) -> s = u ++ "@"%char :: h.
Proof.
  revert u. induction s as [|c s IH]; intros u H; [done|]. simpl in H.
  destruct (rsplit_at s) as [[u' h']|]; [injection H as <- <-; simpl; by rewrite <- (IH u')|].
  destruct (decide (c = "@"%char)) as [->|]; [by injection H as <- <-|done].
Qed.

Lemma last_at_spec r : forall fuel done host,
  is_cstr r -> (length r < fuel)%nat ->
  last_at fuel (done ++ r ++ [NUL]) (length done) host =
    Ok (match rsplit_at r with Some (u, _) => At (length done + length u + 1) | None => host end,
        (length done + length r)%nat).
Proof.
  induction r as [|c r IH]; intros fuel l host Hr Hf; (destruct fuel as [|fuel]; [simpl in Hf; lia|]);
    cbn [last_at app].
  - rewrite (rd_middle _ l NUL []) by done. cbn [mbind result_bind].
    rewrite decide_True by done. by rewrite Nat.add_0_r.
  - apply is_cstr_cons in Hr as [Hc Hr]. rewrite (rd_middle _ l c (r ++ [NUL])) by done.
    cbn [mbind result_bind]. rewrite decide_False by done.
    replace (l ++ c :: r ++ [NUL]) with ((l ++ [c]) ++ r ++ [NUL]) by (by rewrite <- app_assoc).
    replace (S (length l)) with (length (l ++ [c])) by (rewrite length_app; simpl; lia).
    rewrite IH; [|done|simpl in Hf; lia]. cbn [rsplit_at]. rewrite length_app. cbn [length].
    assert (E : (length l + 1 + length r = length l + S (length r))%nat) by lia. rewrite E.
    destruct (rsplit_at r) as [[u h]|].
    + cbn [length]. assert (E' : (length l + 1 + length u + 1 = length l + S (length u) + 1)%nat) by lia.
      by rewrite E'.
    + destruct (decide (c = "@"%char)); [|done]. cbn [length].
      assert (E' : S (length l + 0) = (length l + 0 + 1)%nat) by lia.
      repeat f_equal. lia.
Qed.

(** What the scan finds *)
Definition scan_of (n : nat) (pre rest : cstring) : scan :=
  let e := (n + length pre + length rest)%nat in
  let k := (n + length pre)%nat in
  match rest with
  | [] => mkScan (At 0) Star Star e
  | c :: r =>
      let at_ := match rsplit_at r with Some (u, _) => Some (At (S k + length u + 1)) | None => None end in
      if decide (c = "!"%char) then mkScan (At 0) (At (S k)) (default Star at_) e
      else mkScan Star (At 0) (default (At (S k)) at_) e
  end.

Lemma scan_loop_spec s : forall fuel l dot,
  is_cstr s -> (length s < fuel)%nat ->
  let '(pre, rest) := break_sep s in
  scan_loop fuel (l ++ s ++ [NUL]) (length l) dot =
    Ok (scan_of (length l) pre rest, existsb is_dot pre || dot).
Proof.
  induction s as [|c s IH]; intros fuel l dot Hs Hf; (destruct fuel as [|fuel]; [simpl in Hf; lia|]).
  - cbn [break_sep scan_loop app]. rewrite (rd_middle _ l NUL []) by done. cbn [mbind result_bind].
    rewrite decide_True by done. unfold scan_of. simpl. by rewrite !Nat.add_0_r.
  - apply is_cstr_cons in Hs as [Hc Hs]. cbn [break_sep scan_loop app].
    rewrite (rd_middle _ l c (s ++ [NUL])) by done. cbn [mbind result_bind].
    rewrite (decide_False (P := c = NUL)) by done.
    assert (El : l ++ c :: s ++ [NUL] = (l ++ [c]) ++ s ++ [NUL]) by (by rewrite <- app_assoc).
    assert (Ln : S (length l) = length (l ++ [c])) by (rewrite length_app; simpl; lia).
    assert (Hlast : forall host, last_at (S (length (l ++ c :: s ++ [NUL]))) (l ++ c :: s ++ [NUL])
      (S (length l)) host = Ok (match rsplit_at s with
        Some (u, _) => At (S (length l) + length u + 1) | None => host end, (S (length l) + length s)%nat)).
    { intros host. rewrite El, Ln. apply last_at_spec; [done|]. rewrite !length_app. lia. }
    destruct (decide (c = "!"%char)) as [->|Hne1].
    + rewrite decide_True by (by left). rewrite Hlast. cbn [mbind result_bind]. unfold scan_of.
      rewrite decide_True by done. cbn [length existsb orb].
      rewrite Nat.add_0_r.
      assert (E : (length l + S (length s) = S (length l) + length s)%nat) by lia. rewrite E.
      by destruct (rsplit_at s) as [[u h]|].
    + destruct (decide (c = "@"%char)) as [->|Hne2].
      * rewrite decide_True by (by right). rewrite Hlast. cbn [mbind result_bind]. unfold scan_of.
        rewrite decide_False by done. cbn [length existsb orb].
        rewrite Nat.add_0_r.
        assert (E : (length l + S (length s) = S (length l) + length s)%nat) by lia. rewrite E.
        by destruct (rsplit_at s) as [[u h]|].
      * rewrite decide_False by (by intros [?|?]).
        assert (Hf' : (length s < fuel)%nat) by (simpl in Hf; lia).
        specialize (IH fuel (l ++ [c]) (is_dot c || dot) Hs Hf').
        destruct (break_sep s) as [pre rest]. 
        change (bool_decide (c = "."%char \/ c = ":"%char)) with (is_dot c). rewrite El, Ln, IH.
        cbn [existsb]. rewrite orb_assoc, (orb_comm (existsb is_dot pre)), <- orb_assoc.
        do 2 f_equal. unfold scan_of. rewrite length_app. cbn [length].
        assert (E1 : (length l + 1 + length pre = length l + S (length pre))%nat) by lia.
        by rewrite E1.
Qed.

Lemma text_of_middle l s r : is_cstr s -> text (l ++ s ++ NUL :: r) (At (length l)) = Ok s.
Proof.
  intros Hs. unfold text. rewrite drop_app_length, strlen_app, c_text_app by done. done.
Qed.

(** The nick, at the start *)
Lemma cut_nick_spec nick c r :
  is_cstr nick ->
  exists l, cut_nick (nick ++ c :: r) (At 0) (length nick) = Ok (l ++ NUL :: r) /\
    length l = length nick /\ forall r', text (l ++ NUL :: r') (At 0) = Ok (take NICKLEN nick).
Proof.
  intros Hn. unfold cut_nick. rewrite Nat.sub_0_r, Nat.add_0_l.
  destruct (decide (NICKLEN < length nick)%nat) as [Hlt|Hge].
  - destruct (lookup_lt_is_Some_2 nick NICKLEN Hlt) as [x Hx].
    assert (E := take_drop_middle nick NICKLEN x Hx).
    assert (La : length (take NICKLEN nick) = NICKLEN) by (rewrite length_take; lia).
    set (a := take NICKLEN nick) in *. set (b := drop (S NICKLEN) nick) in *.
    clearbody a b. subst nick. apply is_cstr_app in Hn as [Ha _].
    rewrite (wr_middle _ a x (b ++ c :: r)) by (by rewrite <- ?app_assoc, <- ?app_comm_cons).
    cbn [mbind result_bind].
    rewrite (wr_middle _ (a ++ NUL :: b) c r).
    2:{ by rewrite <- app_assoc. }
    2:{ by rewrite !length_app. }
    exists (a ++ NUL :: b). split; [done|]. split; [by rewrite !length_app|].
    intros r'. rewrite <- app_assoc. by apply (text_of_middle [] a).
  - cbn [mbind result_bind]. rewrite (wr_middle _ nick c r) by done. exists nick.
    split; [done|]. split; [done|]. intros r'. rewrite take_ge by lia. by apply (text_of_middle [] nick).
Qed.

(** Cutting a text in the middle from its front *)
Lemma cut_middle n l s c r :
  is_cstr s -> (0 < n)%nat ->
  exists s' k, (if decide (n < length s)%nat then
      mem ← wr (l ++ s ++ c :: r) (length l + length s - n) "*"%char;
      Ok (mem, At (length l + length s - n))
    else Ok (l ++ s ++ c :: r, At (length l))) = Ok (l ++ s' ++ c :: r, At k) /\
    length s' = length s /\ is_cstr s' /\
    forall l' r', length l' = length l -> text (l' ++ s' ++ NUL :: r') (At k) = Ok (cut_front n s).
Proof.
  intros Hs Hn. unfold cut_front. destruct (decide (n < length s)%nat) as [Hlt|Hge].
  - assert (Hi : (length s - n < length s)%nat) by lia.
    destruct (lookup_lt_is_Some_2 s (length s - n) Hi) as [x Hx].
    assert (E := take_drop_middle s _ x Hx).
    replace (length s - n + 1)%nat with (S (length s - n)) by lia.
    assert (La : length (take (length s - n) s) = (length s - n)%nat) by (rewrite length_take; lia).
    set (a := take (length s - n) s) in *. set (b := drop (S (length s - n)) s) in *.
    clearbody a b.
    assert (Hab : is_cstr a /\ is_cstr b).
    { rewrite <- E in Hs. apply is_cstr_app in Hs as [? [_ ?]%is_cstr_cons]. done. }
    assert (Ls : length s = length (a ++ "*"%char :: b)) by (rewrite <- E, !length_app; done).
    rewrite (wr_middle _ (l ++ a) x (b ++ c :: r)).
    2:{ by rewrite <- E, <- !app_assoc, <- app_comm_cons. }
    2:{ rewrite length_app. lia. }
    cbn [mbind result_bind]. exists (a ++ "*"%char :: b), (length l + length s - n)%nat.
    split; [by rewrite <- !app_assoc, <- app_comm_cons|].
    split; [done|].
    destruct Hab as [Ha Hb].
    split; [rewrite is_cstr_app, is_cstr_cons; done|]. intros l' r' Hl'.
    replace (l' ++ (a ++ "*"%char :: b) ++ NUL :: r') with ((l' ++ a) ++ ("*"%char :: b) ++ NUL :: r')
      by (by rewrite <- !app_assoc).
    replace (length l + length s - n)%nat with (length (l' ++ a)) by (rewrite length_app; lia).
    apply text_of_middle. by rewrite is_cstr_cons.
  - exists s, (length l). split; [done|]. split; [done|]. split; [done|]. intros l' r' <-.
    by apply text_of_middle.
Qed.

Lemma cut_user_spec l s c r :
  is_cstr s ->
  exists s' k, cut_user (l ++ s ++ c :: r) (At (length l)) (length l + length s) =
      Ok (l ++ s' ++ NUL :: r, At k) /\ length s' = length s /\
    forall l' r', length l' = length l -> text (l' ++ s' ++ NUL :: r') (At k) = Ok (cut_front USERLEN s).
Proof.
  intros Hs. unfold cut_user.
  destruct (cut_middle USERLEN l s c r Hs) as (s' & k & E & Ls & Hs' & Ht); [unfold USERLEN; lia|].
  replace (length l + length s - length l)%nat with (length s) by lia. rewrite E.
  cbn [mbind result_bind]. rewrite (wr_middle _ (l ++ s') c r).
  2:{ by rewrite <- app_assoc. }
  2:{ rewrite length_app. lia. }
  cbn [mbind result_bind]. exists s', k. by rewrite <- app_assoc.
Qed.

Lemma cut_host_spec l s :
  is_cstr s ->
  exists s' k, cut_host (l ++ s ++ [NUL]) (At (length l)) (length l + length s) =
      Ok (l ++ s' ++ [NUL], At k) /\ text (l ++ s' ++ [NUL]) (At k) = Ok (cut_front HOSTLEN s).
Proof.
  intros Hs. unfold cut_host.
  destruct (cut_middle HOSTLEN l s NUL [] Hs) as (s' & k & E & Ls & Hs' & Ht); [unfold HOSTLEN; lia|].
  replace (length l + length s - length l)%nat with (length s) by lia. rewrite E.
  exists s', k. split; [done|]. by apply Ht.
Qed.

(** The steps after the scan, for the separators that [c] and [d] stand for *)
Lemma finish_nick pre :
  is_cstr pre ->
  exists mem, cut_nick (pre ++ [NUL]) (At 0) (length pre) = Ok mem /\
    text mem (At 0) = Ok (take NICKLEN pre).
Proof. intros H. destruct (cut_nick_spec pre NUL [] H) as (l & E & _ & Ht). eauto. Qed.

Lemma finish_user_host l u c h :
  is_cstr u -> is_cstr h ->
  exists mem mem' ku kh l',
    cut_user (l ++ u ++ c :: h ++ [NUL]) (At (length l)) (length l + length u) = Ok (mem, At ku) /\
    cut_host mem (At (length l + length u + 1)) (length l + length u + 1 + length h) = Ok (mem', At kh) /\
    mem' = l ++ l' /\
    text mem' (At ku) = Ok (cut_front USERLEN u) /\ text mem' (At kh) = Ok (cut_front HOSTLEN h).
Proof.
  intros Hu Hh. destruct (cut_user_spec l u c (h ++ [NUL]) Hu) as (u' & ku & E & Lu & Hut).
  destruct (cut_host_spec (l ++ u' ++ [NUL]) h Hh) as (h' & kh & E' & Ht).
  assert (Ln : length (l ++ u' ++ [NUL]) = (length l + length u + 1)%nat)
    by (rewrite !length_app; simpl; lia).
  rewrite Ln in E'. rewrite <- !app_assoc in E'. cbn [app] in E'.
  eexists _, _, ku, kh, (u' ++ NUL :: h' ++ [NUL]). split; [exact E|]. split; [exact E'|].
  split; [done|]. split; [by apply Hut|]. rewrite <- Ht. by rewrite <- !app_assoc.
Qed.

Lemma finish_user l u :
  is_cstr u ->
  exists mem ku l', cut_user (l ++ u ++ [NUL]) (At (length l)) (length l + length u) = Ok (mem, At ku) /\
    mem = l ++ l' /\ text mem (At ku) = Ok (cut_front USERLEN u).
Proof.
  intros Hu. destruct (cut_user_spec l u NUL [] Hu) as (u' & k & E & Lu & Ht).
  exists (l ++ u' ++ [NUL]), k, (u' ++ [NUL]). split; [done|]. split; [done|]. by apply Ht.
Qed.

Lemma break_sep_app s pre rest :
  break_sep s = (pre, rest) -> s = pre ++ rest /\
    match rest with [] => True | c :: _ => c = "!"%char \/ c = "@"%char end.
Proof.
  revert pre. induction s as [|c s IH]; intros pre H; cbn [break_sep] in H.
  - by injection H as <- <-.
  - destruct (decide (c = "!"%char \/ c = "@"%char)) as [Hc|Hc]; [by injection H as <- <-|].
    destruct (break_sep s) as [pre' rest']. injection H as <- <-.
    destruct (IH _ eq_refl) as [-> ?]. done.
Qed.

Lemma pretty_nick_user_host pre r :
  is_cstr pre -> is_cstr r ->
  forall u h, r = u ++ "@"%char :: h ->
  (mem ← cut_nick (pre ++ "!"%char :: r ++ [NUL]) (At 0) (length pre);
   '(mem, user) ← cut_user mem (At (S (length pre))) (S (length pre) + length u);
   '(mem, host) ← cut_host mem (At (S (length pre) + length u + 1)) (length pre + S (length r));
   n ← text mem (At 0); u ← text mem user; h ← text mem host; Ok (make_nick_user_host n u h)) =
  Ok (make_nick_user_host (take NICKLEN pre) (cut_front USERLEN u) (cut_front HOSTLEN h)).
Proof.
  intros Hp Hr u h ->. apply is_cstr_app in Hr as [Hu [_ Hh]%is_cstr_cons].
  destruct (cut_nick_spec pre "!"%char ((u ++ "@"%char :: h) ++ [NUL]) Hp) as (l & E & Ll & Ht).
  rewrite E. cbn [mbind result_bind].
  destruct (finish_user_host (l ++ [NUL]) u "@"%char h Hu Hh) as (m1 & m2 & ku & kh & l' & E1 & E2 & -> & T1 & T2).
  assert (Ln : length (l ++ [NUL]) = S (length pre)) by (rewrite length_app; simpl; lia).
  rewrite Ln in E1, E2.
  replace (l ++ NUL :: (u ++ "@"%char :: h) ++ [NUL]) with ((l ++ [NUL]) ++ u ++ "@"%char :: h ++ [NUL])
    by (by rewrite <- !app_assoc).
  rewrite E1. cbn [mbind result_bind]. rewrite length_app. cbn [length].
  replace (length pre + S (length u + S (length h)))%nat
    with (S (length pre) + length u + 1 + length h)%nat by lia.
  rewrite E2. cbn [mbind result_bind]. rewrite T1, T2.
  rewrite <- app_assoc. cbn [app]. rewrite Ht. done.
Qed.

Lemma pretty_nick_user pre r :
  is_cstr pre -> is_cstr r ->
  (mem ← cut_nick (pre ++ "!"%char :: r ++ [NUL]) (At 0) (length pre);
   '(mem, user) ← cut_user mem (At (S (length pre))) (length pre + S (length r));
   n ← text mem (At 0); u ← text mem user; Ok (make_nick_user_host n u star)) =
  Ok (make_nick_user_host (take NICKLEN pre) (cut_front USERLEN r) star).
Proof.
  intros Hp Hr. destruct (cut_nick_spec pre "!"%char (r ++ [NUL]) Hp) as (l & E & Ll & Ht).
  rewrite E. cbn [mbind result_bind].
  destruct (finish_user (l ++ [NUL]) r Hr) as (m1 & ku & l' & E1 & -> & T1).
  assert (Ln : length (l ++ [NUL]) = S (length pre)) by (rewrite length_app; simpl; lia).
  rewrite Ln in E1.
  replace (l ++ NUL :: r ++ [NUL]) with ((l ++ [NUL]) ++ r ++ [NUL]) by (by rewrite <- !app_assoc).
  replace (length pre + S (length r))%nat with (S (length pre) + length r)%nat by lia.
  rewrite E1. cbn [mbind result_bind]. rewrite T1. rewrite <- app_assoc. cbn [app].
  rewrite Ht. done.
Qed.

Lemma pretty_user_host pre c r :
  is_cstr pre -> is_cstr r ->
  ('(mem, user) ← cut_user (pre ++ c :: r ++ [NUL]) (At 0) (length pre);
   '(mem, host) ← cut_host mem (At (length pre + 1)) (length pre + 1 + length r);
   u ← text mem user; h ← text mem host; Ok (make_nick_user_host star u h)) =
  Ok (make_nick_user_host star (cut_front USERLEN pre) (cut_front HOSTLEN r)).
Proof.
  intros Hp Hr.
  destruct (finish_user_host [] pre c r Hp Hr) as (m1 & m2 & ku & kh & l' & E1 & E2 & -> & T1 & T2).
  cbn [app length Nat.add] in *. rewrite E1. cbn [mbind result_bind]. rewrite E2.
  cbn [mbind result_bind]. by rewrite T1, T2.
Qed.

Lemma cut_front_length n s : (0 < n)%nat -> (length (cut_front n s) <= n)%nat.
Proof.
  intros Hn. unfold cut_front. destruct (decide (n < length s)%nat); [|lia].
  cbn [length]. rewrite length_drop. lia.
Qed.

Lemma pretty_spec_length mask :
  (length (pretty_spec mask) < NICKLEN + USERLEN + HOSTLEN + 3)%nat.
Proof.
  assert (U := fun s => cut_front_length USERLEN s (ltac:(unfold USERLEN; lia))).
  assert (H := fun s => cut_front_length HOSTLEN s (ltac:(unfold HOSTLEN; lia))).
  assert (M : forall n u h, (length n <= NICKLEN)%nat -> (length u <= USERLEN)%nat ->
      (length h <= HOSTLEN)%nat ->
      (length (make_nick_user_host n u h) < NICKLEN + USERLEN + HOSTLEN + 3)%nat).
  { intros n u h Hn Hu Hh. unfold make_nick_user_host. rewrite length_app. cbn [length].
    rewrite length_app. cbn [length]. lia. }
  assert (N : forall s : cstring, (length (take NICKLEN s) <= NICKLEN)%nat) by (intros; rewrite length_take; lia).
  assert (S1 : (length star <= NICKLEN)%nat) by (unfold NICKLEN; simpl; lia).
  assert (S2 : (length star <= USERLEN)%nat) by (unfold USERLEN; simpl; lia).
  assert (S3 : (length star <= HOSTLEN)%nat) by (unfold HOSTLEN; simpl; lia).
  unfold pretty_spec. destruct (break_sep mask) as [pre [|c r]].
  - destruct (existsb is_dot pre); apply M; auto.
  - destruct (decide (c = "!"%char)); destruct (rsplit_at r) as [[u h]|]; apply M; auto.
Qed.

Lemma pretty_mask_spec mask : is_cstr mask -> pretty_mask mask = Ok (pretty_spec mask).
Proof.
  intros Hm. unfold pretty_mask, pretty_spec.
  assert (L := scan_loop_spec mask (S (length (mask ++ [NUL]))) [] false Hm).
  destruct (break_sep mask) as [pre rest] eqn:Eb. apply break_sep_app in Eb as [-> Hc].
  cbn [app length] in L. rewrite L by (rewrite !length_app; lia). cbn [mbind result_bind].
  rewrite orb_false_r. apply is_cstr_app in Hm as [Hp Hr]. rewrite <- app_assoc.
  destruct rest as [|c r]; unfold scan_of, choose.
  - cbn [s_user app length s_nick s_host s_end]. rewrite !Nat.add_0_r. cbn [Nat.add].
    destruct (existsb is_dot pre).
    + cbn [cut_nick cut_user before mbind result_bind].
      destruct (cut_host_spec [] pre Hp) as (h' & kh & E & T). cbn [app length Nat.add] in E, T.
      rewrite E. cbn [mbind result_bind]. by rewrite T.
    + cbn [cut_user cut_host before mbind result_bind].
      destruct (finish_nick pre Hp) as (mem & E & T). rewrite E. cbn [mbind result_bind].
      rewrite T. done.
  - apply is_cstr_cons in Hr as [_ Hr]. cbn [Nat.add app].
    destruct (decide (c = "!"%char)) as [->|Hne].
    + cbn [s_user s_nick s_host s_end before length].
      replace (S (length pre) - 1)%nat with (length pre) by lia.
      destruct (rsplit_at r) as [[u h]|] eqn:Er; cbn [default from_option before id].
      * rewrite <- (pretty_nick_user_host pre r Hp Hr u h (rsplit_at_app _ _ _ Er)).
        replace (S (length pre + length u + 1)) with (S (length pre) + length u + 1)%nat by lia.
        by replace (S (length pre) + length u + 1 - 1)%nat with (S (length pre) + length u)%nat by lia.
      * rewrite <- (pretty_nick_user pre r Hp Hr). destruct (cut_nick _ _ _); [|done..].
        cbn [mbind result_bind]. destruct (cut_user _ _ _); [done..].
    + destruct Hc as [?|Hc]; [done|]; subst c. cbn [s_user s_nick s_host s_end before length cut_nick mbind result_bind].
      destruct (rsplit_at r) as [[u h]|] eqn:Er; cbn [default from_option before id].
      * apply rsplit_at_app in Er as ->. apply is_cstr_app in Hr as [Hu [_ Hh]%is_cstr_cons].
        rewrite <- (pretty_user_host (pre ++ "@"%char :: u) "@"%char h); [|by rewrite is_cstr_app, is_cstr_cons|done].
        rewrite <- !app_assoc, !length_app. cbn [length app]. 
        replace (S (length pre + length u + 1) - 1)%nat with (length pre + S (length u))%nat by lia.
        replace (S (length pre + length u + 1)) with (length pre + S (length u) + 1)%nat by lia.
        by replace (length pre + S (length u + S (length h)))%nat
          with (length pre + S (length u) + 1 + length h)%nat by lia.
      * rewrite <- (pretty_user_host pre "@"%char r Hp Hr).
        replace (S (length pre) - 1)%nat with (length pre) by lia.
        replace (S (length pre)) with (length pre + 1)%nat by lia.
        by replace (length pre + S (length r))%nat with (length pre + 1 + length r)%nat by lia.
Qed.

(** What holds of the characters of the mask and of the separators holds of the result. *)
Lemma pretty_spec_Forall (P : ascii -> Prop) mask :
  P "*"%char -> P "!"%char -> P "@"%char -> Forall P mask -> Forall P (pretty_spec mask).
Proof.
  intros Hs He Ha Hm. assert (Hstar : Forall P star) by by repeat constructor.
  assert (M : forall n u h, Forall P n -> Forall P u -> Forall P h -> Forall P (make_nick_user_host n u h)).
  { intros n u h Hn Hu Hh. unfold make_nick_user_host. apply Forall_app. split; [done|]. constructor; [done|].
    apply Forall_app. split; [done|]. by constructor. }
  assert (C : forall n s, Forall P s -> Forall P (cut_front n s)).
  { intros n s H. unfold cut_front. destruct (decide _); [|done]. constructor; [done|]. by apply Forall_drop. }
  unfold pretty_spec. destruct (break_sep mask) as [pre rest] eqn:Eb. apply break_sep_app in Eb as [-> _].
  apply Forall_app in Hm as [Hp Hr]. destruct rest as [|c r].
  - destruct (existsb is_dot pre); apply M; auto. by apply Forall_take.
  - apply Forall_cons in Hr as [Hc Hr].
    destruct (rsplit_at r) as [[u h]|] eqn:Er.
    + apply rsplit_at_app in Er as ->. apply Forall_app in Hr as [Hu Hh]. apply Forall_cons in Hh as [_ Hh].
      destruct (decide (c = "!"%char)); apply M; auto; [by apply Forall_take|]. apply C, Forall_app. split; [done|by constructor].
    + destruct (decide (c = "!"%char)); apply M; auto. by apply Forall_take.
Qed.

Lemma pretty_spec_bang mask : "!"%char ∈ pretty_spec mask.
Proof.
  assert (M : forall n u h, "!"%char ∈ make_nick_user_host n u h).
  { intros n u h. unfold make_nick_user_host. apply elem_of_app. right. left. }
  unfold pretty_spec. destruct (break_sep mask) as [pre [|c r]].
  - destruct (existsb is_dot pre); apply M.
  - destruct (decide (c = "!"%char)); destruct (rsplit_at r) as [[u h]|]; apply M.
Qed.

(** pretty_mask() of channel.c turns any text into a mask nick!user@host: it agrees
    with the reference, which splits at the first '!' or '@' and at the last '@' after
    it; the nick is cut at its end, user and host at their front with a star, so that the
    result (at most 30 + 1 + 10 + 1 + 63 characters and the terminator) fits the 106
    bytes of the static buffer; and all that is written in place lies within the text. *)
Theorem pretty_mask_correct mask :
  is_cstr mask ->
  pretty_mask mask = Ok (pretty_spec mask) /\ (length (pretty_spec mask) < NICKLEN + USERLEN + HOSTLEN + 3)%nat.
Proof. intros Hm. split; [by apply pretty_mask_spec|apply pretty_spec_length]. Qed.

Lemma pretty_mask_correct_witness :
  pretty_mask (str "n!verylongusername@irc.example.org") = Ok (str "n!*gusername@irc.example.org") /\
  pretty_mask (str "a.b@c@d") = Ok (str "*!a.b@c@d").
Proof.
  assert (H1 : is_cstr (str "n!verylongusername@irc.example.org"))
    by (apply (bool_decide_unpack _); vm_compute; exact I).
  split; [apply (pretty_mask_correct _ H1)|vm_compute; reflexivity].
Defined.
