(* ===== verification/Channel.v ===== *)
(** Channels and their members: the channel blocks of ircd/channel.c.

    A channel is on three structures: the hash table of names (through the
    interface of Nametable.v), the doubly linked list of all channels, kept with
    its pointers, and, as a link, the chain of every client that is on it.  The
    links of a chain belong to that chain alone, so that a chain is a list here.
    A client that was kicked stays on the channel as a zombie until its server
    answers; a channel without live members is removed, with its invitations,
    unless it is registered. *)

From S2P Require Import Prelude Common Nametable Hash Chantext.

(** * Constants *)

Definition CHFL_CHANOP : Z := 0x0001.
Definition CHFL_VOICE : Z := 0x0002.
Definition CHFL_DEOPPED : Z := 0x0004.
Definition CHFL_SERVOPOK : Z := 0x0008.
Definition CHFL_ZOMBIE : Z := 0x0010.
Definition CHFL_OWNER : Z := 0x8000.

Definition MODE_INVITEONLY : Z := 0x0040.
Definition MODE_BAN : Z := 0x0200.
Definition MODE_REGCHAN : Z := 0x2000.
Definition MODE_REGNICKS : Z := 0x4000.
Definition MODE_SSLONLY : Z := 0x1000000.
Definition MODE_OPERONLY : Z := 0x4000000.

Definition ERR_CHANNELISFULL : Z := 471.
Definition ERR_INVITEONLYCHAN : Z := 473.
Definition ERR_BANNEDFROMCHAN : Z := 474.
Definition ERR_BADCHANNELKEY : Z := 475.
Definition ERR_NEEDREGGEDNICK : Z := 477.
Definition ERR_NOSSL : Z := 488.
Definition ERR_OPERONLY : Z := 526.

Definition CHANNELLEN : nat := 64.
Definition MAXCHANNELSPERUSER : nat := 10.
Definition MAGIC_OPER_OVERRIDE : Z := 1000.
Definition MAGIC_REMOTE_JOIN_TS : Z := 1270080000.
Definition TS_LAG_TIME : Z := 86400.

(** * Names of channels *)

Definition IsGlobalChannel (name : cstring) : bool := bool_decide (chr name = "#"%char).
Definition IsLocalChannel (name : cstring) : bool := bool_decide (chr name = "&"%char).
Definition IsBadModelessChannel (name : cstring) : bool := bool_decide (chr (adv name) = "@"%char).
Definition IsModelessChannel (name : cstring) : bool :=
  bool_decide (chr name = "+"%char) && negb (IsBadModelessChannel name).
Definition IsChannelName2 (name : cstring) : bool :=
  IsGlobalChannel name || IsModelessChannel name || IsLocalChannel name.
Definition IsModelessChannel2 (name : cstring) : bool :=
  IsModelessChannel name &&
  (bool_decide (chr (adv name) = NUL) || negb (IsChannelName2 (adv name))).
Definition IsChannelName (name : cstring) : bool :=
  IsGlobalChannel name || IsModelessChannel2 name || IsLocalChannel name.

(** * Blocks *)

Record Link := mkLink { cptr : nat; lflags : Z }.

(** Of a ban the block has the mask; the topic is not part of the model. *)
Record aChannel := mkChannel {
  chname : cstring; nextch : option nat; prevch : option nat;
  mode : Z; limit : Z; key : option cstring; owner : option cstring;
  creationtime : Z; users : Z; members : list Link; invites : list nat;
  banlist : list cstring }.

(** What the functions ask about a client *)
Record rights := mkRights {
  services_bot : bool; nick_registered : bool; an_oper : bool; walk_chan : bool;
  walk_lchan : bool; ssl : bool; chan_limit : bool; docking : bool; ts8 : bool }.

(** [my] is MyConnect(); [joined], [uchannel] are fields of [cptr->user]. *)
Record aClient := mkClient {
  cname : cstring; my : bool; may : rights;
  joined : Z; uchannel : list nat; invited : list nat }.

Definition set_chname n ch := mkChannel n (nextch ch) (prevch ch) (mode ch) (limit ch) (key ch)
  (owner ch) (creationtime ch) (users ch) (members ch) (invites ch) (banlist ch).
Definition set_nextch n ch := mkChannel (chname ch) n (prevch ch) (mode ch) (limit ch) (key ch)
  (owner ch) (creationtime ch) (users ch) (members ch) (invites ch) (banlist ch).
Definition set_prevch p ch := mkChannel (chname ch) (nextch ch) p (mode ch) (limit ch) (key ch)
  (owner ch) (creationtime ch) (users ch) (members ch) (invites ch) (banlist ch).
Definition set_mode m ch := mkChannel (chname ch) (nextch ch) (prevch ch) m (limit ch) (key ch)
  (owner ch) (creationtime ch) (users ch) (members ch) (invites ch) (banlist ch).
Definition set_creation t ch := mkChannel (chname ch) (nextch ch) (prevch ch) (mode ch) (limit ch)
  (key ch) (owner ch) t (users ch) (members ch) (invites ch) (banlist ch).
Definition set_members n l ch := mkChannel (chname ch) (nextch ch) (prevch ch) (mode ch) (limit ch)
  (key ch) (owner ch) (creationtime ch) n l (invites ch) (banlist ch).
Definition set_invites l ch := mkChannel (chname ch) (nextch ch) (prevch ch) (mode ch) (limit ch)
  (key ch) (owner ch) (creationtime ch) (users ch) (members ch) l (banlist ch).
Definition set_channels n l cl := mkClient (cname cl) (my cl) (may cl) n l (invited cl).
Definition set_invited l cl := mkClient (cname cl) (my cl) (may cl) (joined cl) (uchannel cl) l.

Fixpoint find_user_link (lp : list Link) (ptr : nat) : option Link :=
  match lp with
  | [] => None
  | l :: lp => if decide (cptr l = ptr) then Some l else find_user_link lp ptr
  end.

Definition IsMember (cptr : nat) (ch : aChannel) : option Link :=
  match find_user_link (members ch) cptr with
  | Some lp => if has (lflags lp) CHFL_ZOMBIE then None else Some lp
  | None => None
  end.

Definition live (l : Link) : bool := negb (has (lflags l) CHFL_ZOMBIE).

Fixpoint number_of_zombies (lp : list Link) : Z :=
  match lp with
  | [] => 0
  | l :: lp => (if has (lflags l) CHFL_ZOMBIE then 1 else 0) + number_of_zombies lp
  end.

Definition flag_of (cptr : nat) (ch : aChannel) (mask : Z) : Z :=
  match IsMember cptr ch with Some lp => Z.land (lflags lp) mask | None => 0 end.
Definition is_chan_owner (cptr : nat) (ch : aChannel) : Z := flag_of cptr ch CHFL_OWNER.
Definition is_chan_op (cptr : nat) (ch : aChannel) : Z := flag_of cptr ch CHFL_CHANOP.
Definition has_voice (cptr : nat) (ch : aChannel) : Z := flag_of cptr ch CHFL_VOICE.
Definition is_zombie (cptr : nat) (ch : aChannel) : Z :=
  match find_user_link (members ch) cptr with Some lp => Z.land (lflags lp) CHFL_ZOMBIE | None => 0 end.

(** * The state *)

Section operations.
Context {T : Type} `{NT : NameTable T}.

(** [channel] is the head of the list of channels. *)
Record state := mkState {
  chans : gmap nat aChannel; clients : gmap nat aClient;
  channel : option nat; nrof_channels : Z; htab : T }.

Definition get_chan (st : state) (c : nat) : result aChannel := of_option (chans st !! c).
Definition get_client (st : state) (u : nat) : result aClient := of_option (clients st !! u).
Definition put_chan (c : nat) (ch : aChannel) (st : state) : state :=
  mkState (<[c := ch]> (chans st)) (clients st) (channel st) (nrof_channels st) (htab st).
Definition put_client (u : nat) (cl : aClient) (st : state) : state :=
  mkState (chans st) (<[u := cl]> (clients st)) (channel st) (nrof_channels st) (htab st).
Definition set_list (h : option nat) (st : state) : state :=
  mkState (chans st) (clients st) h (nrof_channels st) (htab st).
Definition set_htab (t : T) (st : state) : state :=
  mkState (chans st) (clients st) (channel st) (nrof_channels st) t.

(** * Members *)

Definition add_user_to_channel (st : state) (c who : nat) (flags : Z) : result state :=
  ch ← get_chan st c; cl ← get_client st who;
  let st := put_chan c (set_members (u32 (users ch + 1)) (mkLink who flags :: members ch) ch) st in
  Ok (put_client who (set_channels (u32 (joined cl + 1)) (c :: uchannel cl) cl) st).

(** * Invitations *)

Definition del_invite (st : state) (u c : nat) : result state :=
  ch ← get_chan st c; cl ← get_client st u;
  let st := put_chan c (set_invites (unlink id u (invites ch)) ch) st in
  Ok (put_client u (set_invited (unlink id c (invited cl)) cl) st).

Definition add_invite (st : state) (u c : nat) : result state :=
  st ← del_invite st u c;
  cl ← get_client st u;
  st ← (if decide (MAXCHANNELSPERUSER <= length (invited cl))%nat then
          match invited cl with c0 :: _ => del_invite st u c0 | [] => Ub end
        else Ok st);
  ch ← get_chan st c; cl ← get_client st u;
  let st := put_chan c (set_invites (u :: invites ch) ch) st in
  Ok (put_client u (set_invited (invited cl ++ [c]) cl) st).

Definition is_invited (cl : aClient) (c : nat) : bool := bool_decide (c ∈ invited cl).

(** [while ((tmp = chptr->invites)) del_invite(tmp->value.cptr, chptr);] *)
Fixpoint uninvite_loop (fuel : nat) (st : state) (c : nat) : result state :=
  match fuel with
  | O => Fuel
  | S fuel =>
      ch ← get_chan st c;
      match invites ch with
      | [] => Ok st
      | u :: _ => st ← del_invite st u c; uninvite_loop fuel st c
      end
  end.

(** * Removal *)

(** Off the list of channels *)
Definition unlink_channel (st : state) (c : nat) : result state :=
  ch ← get_chan st c;
  st ← match prevch ch with
       | Some p => chp ← get_chan st p; Ok (put_chan p (set_nextch (nextch ch) chp) st)
       | None => Ok (set_list (nextch ch) st)
       end;
  match nextch ch with
  | Some n => chn ← get_chan st n; Ok (put_chan n (set_prevch (prevch ch) chn) st)
  | None => Ok st
  end.

Definition free_channel (c : nat) (st : state) : state :=
  mkState (delete c (chans st)) (clients st) (channel st) (nrof_channels st - 1) (htab st).

Definition sub1_from_channel (st : state) (c : nat) : result state :=
  ch ← get_chan st c;
  let ch := if decide (users ch <> 0) then set_members (u32 (users ch - 1)) (members ch) ch else ch in
  let st := put_chan c ch st in
  if decide (users ch <> 0) then Ok st
  else if has (mode ch) MODE_REGCHAN then Ok st
  else
    st ← uninvite_loop (S (length (invites ch))) st c;
    st ← unlink_channel st c;
    t ← nt_del (htab st) c;
    Ok (free_channel c (set_htab t st)).

(** Both links of a member, and the count of the client *)
Definition unlink_member (st : state) (u c : nat) : result state :=
  ch ← get_chan st c; cl ← get_client st u;
  let st := put_chan c (set_members (users ch) (unlink cptr u (members ch)) ch) st in
  Ok (put_client u (set_channels (u32 (joined cl - 1)) (unlink id c (uchannel cl)) cl) st).

(** [lp] tells whether a live member other than the one to remove was found; if
    not, the zombies are removed one after the other. *)
Fixpoint remove_loop (fuel : nat) (st : state) (lp : bool) (sptr c : nat) : result state :=
  match fuel with
  | O => Fuel
  | S fuel =>
      st ← unlink_member st sptr c;
      if lp then sub1_from_channel st c
      else
        ch ← get_chan st c;
        match members ch with
        | l :: _ => st ← sub1_from_channel st c; remove_loop fuel st lp (cptr l) c
        | [] => sub1_from_channel st c
        end
  end.

(** [for (; lp && (lp->flags & CHFL_ZOMBIE || lp->value.cptr == sptr); lp = lp->next);] *)
Definition another (sptr : nat) (lp : list Link) : bool :=
  existsb (fun l => negb (has (lflags l) CHFL_ZOMBIE || bool_decide (cptr l = sptr))) lp.

Definition remove_user_from_channel (st : state) (sptr c : nat) : result state :=
  ch ← get_chan st c;
  remove_loop (S (length (members ch))) st (another sptr (members ch)) sptr c.

(** * Finding and creating a channel *)

(** [now] is TStime(), [fresh] the block that the allocation gives; [None] for
    !CREATE. *)
Definition new_channel (st : state) (p : nat) (chname : cstring) (creation : Z) : result state :=
  st ← match channel st with
       | Some h => ch ← get_chan st h; Ok (put_chan h (set_prevch (Some p) ch) st)
       | None => Ok st
       end;
  let ch := mkChannel chname (channel st) None 0 0 None None creation 0 [] [] [] in
  t ← nt_add (htab st) p chname;
  Ok (mkState (<[p := ch]> (chans st)) (clients st) (Some p) (nrof_channels st + 1) t).

Definition get_channel (st : state) (mio_flag : bool) (chname : cstring) (now : Z)
    (fresh : option nat) : result (state * option nat) :=
  if decide (chname = []) then Ok (st, None)
  else
    let chname := if mio_flag then take CHANNELLEN chname else chname in
    '(t, chptr) ← nt_find (htab st) chname;
    let st := set_htab t st in
    match chptr, fresh with
    | Some c, _ => Ok (st, Some c)
    | None, None => Ok (st, None)
    | None, Some p => st ← new_channel st p chname (if mio_flag then now else 0); Ok (st, Some p)
    end.

Definition ChannelExists (st : state) (name : cstring) : result (state * bool) :=
  '(t, c) ← nt_find (htab st) name; Ok (set_htab t st, bool_decide (is_Some c)).

(** * Joining *)

(** is_banned() of a client that is not a member; [ban_match] is the comparison
    of a mask with the names of the client. *)
Definition is_banned (ban_match : cstring -> bool) (ch : aChannel) : bool :=
  existsb ban_match (banlist ch).

Definition can_join (cl : aClient) (c : nat) (ch : aChannel) (ban_match : cstring -> bool)
    (akey : option cstring) : result Z :=
  let r := may cl in
  let bad := match akey with None => true | Some k => bool_decide (k = []) end in
  let k := default [] akey in
  own ← compall (str "OWNER") k;
  ovr ← compall (str "OVERRIDE") k;
  let full := bool_decide (limit ch <> 0) && bool_decide (limit ch <= users ch) in
  if services_bot r then Ok 0
  else if negb bad && has (mode ch) MODE_REGCHAN && nick_registered r &&
          bool_decide (owner ch = Some (cname cl)) && bool_decide (own = 0) then Ok 0
  else if has (mode ch) MODE_OPERONLY && negb (an_oper r) then Ok ERR_OPERONLY
  else
    let over := (negb bad && walk_chan r && bool_decide (ovr = 0)) ||
      (an_oper r && IsLocalChannel (chname ch) && negb bad && walk_lchan r && bool_decide (ovr = 0)) in
    let overrideJoin := if over then MAGIC_OPER_OVERRIDE else 0 in
    if has (mode ch) MODE_REGNICKS && negb (nick_registered r) then Ok (overrideJoin + ERR_NEEDREGGEDNICK)
    else if (has (mode ch) MODE_INVITEONLY || (is_banned ban_match ch || full)) && negb (is_invited cl c) then
      if full then Ok (overrideJoin + ERR_CHANNELISFULL)
      else Ok (overrideJoin +
        (if has (mode ch) MODE_INVITEONLY then ERR_INVITEONLYCHAN else ERR_BANNEDFROMCHAN))
    else if has (mode ch) MODE_SSLONLY && negb (ssl r) then Ok (overrideJoin + ERR_NOSSL)
    else
      match key ch with
      | None => Ok 0
      | Some k' =>
          r ← compall k' k;
          if bad || bool_decide (r <> 0) then Ok (overrideJoin + ERR_BADCHANNELKEY) else Ok 0
      end.

(** What the environment answers about one name of a JOIN: the name strtoken()
    gives, the redirection of the database, bad_channel(), check_target_limit(),
    the comparison of masks with the names of the client, and the block a new
    channel would get. *)
Record attempt := mkAttempt {
  at_name : cstring; at_redirect : option cstring; at_bad : bool;
  at_over : bool; at_banned : cstring -> bool; at_fresh : nat }.

(** Variables of m_join() that outlive an iteration; [jts] is the time stamp of
    the third argument, while there is one. *)
Record jvars := mkJvars { jflags : Z; jzombie : bool; jts : option Z }.

(** [while ((lp = sptr->user->channel)) remove_user_from_channel(sptr, chptr);] *)
Fixpoint part_all (fuel : nat) (st : state) (u : nat) : result state :=
  match fuel with
  | O => Fuel
  | S fuel =>
      cl ← get_client st u;
      match uchannel cl with
      | [] => Ok st
      | c :: _ => st ← remove_user_from_channel st u c; part_all fuel st u
      end
  end.

(** The flags of a local client, by whether the channel is there; the name may be
    cut.  [ch_redir] tells whether the name is a redirection. *)
Definition local_flags (st : state) (name : cstring) (ch_redir : bool)
    : result (state * Z * cstring) :=
  let new name := if IsModelessChannel name then CHFL_DEOPPED else CHFL_CHANOP in
  '(st, there) ← ChannelExists st name;
  if there : bool then Ok (st, CHFL_DEOPPED, name)
  else if decide (CHANNELLEN < length name)%nat then
    let name := if ch_redir then name else take CHANNELLEN name in
    '(st, there) ← ChannelExists st name;
    Ok (st, if there : bool then CHFL_DEOPPED else new name, name)
  else Ok (st, new name, name).

(** The time stamp of the channel, and whether the one of the message is passed on *)
Definition settle_ts (ch : aChannel) (ts : option Z) : aChannel * option Z :=
  let ch := if decide (creationtime ch = 0) then set_creation MAGIC_REMOTE_JOIN_TS ch else ch in
  match ts with
  | Some t => if decide (creationtime ch = MAGIC_REMOTE_JOIN_TS) then (set_creation t ch, Some t)
              else (ch, None)
  | None => (ch, None)
  end.

(** The member is added; a local client has used its invitation. *)
Definition complete (st : state) (u c : nat) (mine : bool) (flags : Z) : result state :=
  st ← add_user_to_channel st c u flags;
  if mine then del_invite st u c else Ok st.

(** From the channel on: time stamp, flags, the checks of a local client *)
Definition enter_channel (st : state) (u c : nat) (a : attempt) (akey : option cstring)
    (v : jvars) : result (state * jvars) :=
  ch ← get_chan st c; cl ← get_client st u;
  let '(ch, ts) := settle_ts ch (jts v) in
  let st := put_chan c ch st in
  let flags := if jzombie v then jflags v
    else let f := if my cl then jflags v else CHFL_DEOPPED in
         if ts8 (may cl) then Z.lor f CHFL_SERVOPOK else f in
  let v := mkJvars flags (jzombie v) ts in
  if my cl then
    let created := bool_decide (users ch = 0) in
    if negb (is_invited cl c) && at_over a then
      st ← (if created then sub1_from_channel st c else Ok st); Ok (st, v)
    else
      i ← can_join cl c ch (at_banned a) akey;
      if decide (i <> 0 /\ i <= MAGIC_OPER_OVERRIDE) then Ok (st, v)
      else
        let own := has (mode ch) MODE_REGCHAN && nick_registered (may cl) &&
                   bool_decide (owner ch = Some (cname cl)) in
        let v := mkJvars (if own then CHFL_OWNER else jflags v) (jzombie v) (jts v) in
        st ← complete st u c true (jflags v); Ok (st, v)
  else st ← complete st u c false (jflags v); Ok (st, v).

(** From get_channel() on; a zombie that comes back leaves first. *)
Definition enter (st : state) (u : nat) (mine : bool) (name : cstring) (a : attempt) (now : Z)
    (akey : option cstring) (v : jvars) : result (state * jvars) :=
  '(st, oc) ← get_channel st mine name now (Some (at_fresh a));
  c ← of_option oc;
  ch ← get_chan st c;
  match find_user_link (members ch) u with
  | Some lp =>
      if has (lflags lp) CHFL_ZOMBIE then
        let flags := Z.land (lflags lp) (Z.lor CHFL_DEOPPED CHFL_SERVOPOK) in
        st ← remove_user_from_channel st u c;
        '(st, oc) ← get_channel st mine name now (Some (at_fresh a));
        c ← of_option oc;
        enter_channel st u c a akey (mkJvars flags true (jts v))
      else Ok (st, v)
  | None => enter_channel st u c a akey v
  end.

(** One iteration; the last answer tells whether the loop goes on. *)
Definition join_one (st : state) (u : nat) (a : attempt) (now : Z) (akey : option cstring)
    (v : jvars) : result (state * jvars * bool) :=
  cl ← get_client st u;
  let name := if my cl then clean_channelname (at_name a) else at_name a in
  if negb (my cl) && IsLocalChannel name then Ok (st, v, true)
  else if decide (chr name = "0"%char /\ chr (adv name) = NUL) then
    st ← part_all (S (length (uchannel cl))) st u; Ok (st, v, true)
  else if negb (IsChannelName name) then Ok (st, v, true)
  else if my cl then
    if existsb (fun c => bool_decide (uchar c < 32)) name then Ok (st, v, true)
    else
      let ch_redir := bool_decide (is_Some (at_redirect a)) in
      let name := default name (at_redirect a) in
      if at_bad a && negb (an_oper (may cl)) then Ok (st, v, true)
      else
        '(st, flags, name) ← local_flags st name ch_redir;
        let v := mkJvars flags (jzombie v) (jts v) in
        if negb (docking (may cl)) && bool_decide (Z.of_nat MAXCHANNELSPERUSER <= joined cl) &&
           negb (chan_limit (may cl)) then
          '(st, _) ← get_channel st (my cl) name now None; Ok (st, v, false)
        else '(st, v) ← enter st u (my cl) name a now akey v; Ok (st, v, true)
  else '(st, v) ← enter st u (my cl) name a now akey v; Ok (st, v, true).

Fixpoint join_loop (st : state) (u : nat) (l : list attempt) (now : Z) (akey : option cstring)
    (v : jvars) : result (state * jvars) :=
  match l with
  | [] => Ok (st, v)
  | a :: l =>
      '(st, v, on) ← join_one st u a now akey v;
      if on : bool then join_loop st u l now akey v else Ok (st, v)
  end.

(** [zombie] and [flags] are set once, before the loop. *)
Definition m_join (st : state) (u : nat) (l : list attempt) (now : Z) (akey : option cstring)
    (ts : option Z) : result state :=
  '(st, _) ← join_loop st u l now akey (mkJvars 0 false ts); Ok st.

(** One channel of a CREATE of another server; the message is trusted to come
    from a client that is not on the channel. *)
Definition create_one (st : state) (u : nat) (name : cstring) (now chanTS : Z) (fresh : nat)
    : result state :=
  '(t, oc) ← nt_find (htab st) name;
  let st := set_htab t st in
  '(st, c, badop) ← match oc with
    | Some c =>
        ch ← get_chan st c;
        Ok (st, c, bool_decide (TS_LAG_TIME < now - chanTS) ||
          (bool_decide (creationtime ch <> 0) && bool_decide (creationtime ch < chanTS) &&
           bool_decide (creationtime ch <> MAGIC_REMOTE_JOIN_TS)))
    | None =>
        '(st, oc) ← get_channel st false name now (Some fresh);
        c ← of_option oc; Ok (st, c, false)
    end;
  st ← add_user_to_channel st c u
    (if badop || IsModelessChannel name then CHFL_DEOPPED else CHFL_CHANOP);
  if badop : bool then Ok st
  else ch ← get_chan st c; Ok (put_chan c (set_creation chanTS ch) st).

(** * Leaving *)

Definition part_one (st : state) (u : nat) (name : cstring) : result state :=
  cl ← get_client st u;
  '(st, oc) ← get_channel st (my cl) name 0 None;
  match oc with
  | None => Ok st
  | Some c =>
      if IsLocalChannel name && negb (my cl) then Ok st
      else
        ch ← get_chan st c;
        match find_user_link (members ch) u with
        | None => Ok st
        | Some _ => remove_user_from_channel st u c
        end
  end.

Fixpoint m_part (st : state) (u : nat) (l : list cstring) : result state :=
  match l with
  | [] => Ok st
  | name :: l => st ← part_one st u name; m_part st u l
  end.

(** [lp->flags |= mask] on the link of one member *)
Fixpoint or_flags (mask : Z) (p : nat) (l : list Link) : list Link :=
  match l with
  | [] => []
  | x :: l => if decide (cptr x = p) then mkLink (cptr x) (Z.lor (lflags x) mask) :: l
              else x :: or_flags mask p l
  end.

(** The end of m_kick(), once the KICK is accepted and passed on; [case_d] tells
    whether it came from the side of [who] and passed the server of [who]. *)
Definition kick (st : state) (who c : nat) (case_d : bool) : result state :=
  ch ← get_chan st c; cl ← get_client st who;
  match find_user_link (members ch) who with
  | None => Ok st
  | Some _ =>
      let ch := set_members (users ch) (or_flags CHFL_ZOMBIE who (members ch)) ch in
      let st := put_chan c ch st in
      if my cl then remove_user_from_channel st who c
      else if case_d then remove_user_from_channel st who c
      else if existsb live (members ch) then Ok st
      else remove_user_from_channel st who c
  end.

(** The end of m_invite() *)
Definition invite (st : state) (u c : nat) : result state :=
  cl ← get_client st u; if my cl then add_invite st u c else Ok st.

(** [while ((lp = bcptr->invited)) del_invite(bcptr, lp->value.chptr);] *)
Fixpoint forget_loop (fuel : nat) (st : state) (u : nat) : result state :=
  match fuel with
  | O => Fuel
  | S fuel =>
      cl ← get_client st u;
      match invited cl with
      | [] => Ok st
      | c :: _ => st ← del_invite st u c; forget_loop fuel st u
      end
  end.

(** The part of exit_one_client() that concerns channels; then the client goes. *)
Definition exit_one_client (st : state) (u : nat) : result state :=
  cl ← get_client st u;
  st ← part_all (S (length (uchannel cl))) st u;
  cl ← get_client st u;
  st ← (if my cl then forget_loop (S (length (invited cl))) st u else Ok st);
  Ok (mkState (chans st) (delete u (clients st)) (channel st) (nrof_channels st) (htab st)).

(** * Registration *)

(** A record of the database of channels is inserted: [nombre] is its key, in
    lower case, [nm] the name that the record gives.  [add] and [del] are the
    modes it asks for, applied when the database is fresh ([virgen]). *)
Definition MODE_WPARAS : Z :=
  Z.lor CHFL_OWNER (Z.lor CHFL_CHANOP (Z.lor CHFL_VOICE (Z.lor MODE_BAN (Z.lor 0x0100 0x0400)))).

(** [hRemChannel(chptr); strcpy(chptr->chname, name); hAddChannel(chptr);] *)
Definition rename (st : state) (c : nat) (name : cstring) : result state :=
  t ← nt_del (htab st) c; ch ← get_chan st c;
  t ← nt_add t c name; Ok (put_chan c (set_chname name ch) (set_htab t st)).

Definition register (st : state) (nombre : cstring) (nm : option cstring) (now : Z) (fresh : nat)
    (virgen : bool) (add del : Z) : result state :=
  let same := match nm with Some n => bool_decide (strCasecmp nombre n = 0) | None => false end in
  let name := if same then default nombre nm else nombre in
  '(st, oc) ← get_channel st true name now (Some fresh);
  c ← of_option oc;
  let name := take CHANNELLEN name in
  st ← (if same && bool_decide (nombre <> name) then rename st c name else Ok st);
  ch ← get_chan st c;
  let m := mode ch in
  let m := if virgen then Z.land (Z.lor (Z.land m (Z.lnot del)) add) (Z.lnot MODE_WPARAS) else m in
  Ok (put_chan c (set_mode (Z.lor m MODE_REGCHAN) ch) st).

(** The record is deleted. *)
Definition unregister (st : state) (name : cstring) : result state :=
  '(st, oc) ← get_channel st true name 0 None;
  match oc with
  | None => Ok st
  | Some c =>
      ch ← get_chan st c;
      if has (mode ch) MODE_REGCHAN then
        let st := put_chan c (set_mode (Z.land (mode ch) (Z.lnot MODE_REGCHAN)) ch) st in
        if decide (users ch <> 0) then Ok st else sub1_from_channel st c
      else Ok st
  end.

(** A client structure appears. *)
Definition new_client (st : state) (u : nat) (cname : cstring) (my : bool) (r : rights) : state :=
  put_client u (mkClient cname my r 0 [] []) st.

Definition init : state := mkState ∅ ∅ None 0 nt_empty.

End operations.

(** * Chains *)

Lemma find_user_link_spec lp p :
  match find_user_link lp p with
  | Some l => l ∈ lp /\ cptr l = p
  | None => (p ∉ cptr <$> lp)
  end.
Proof.
  induction lp as [|l lp IH]; simpl; [apply not_elem_of_nil|].
  destruct (decide (cptr l = p)) as [E|Hne]; [split; [left|done]|].
  destruct (find_user_link lp p) as [l'|].
  - destruct IH. split; [by right|done].
  - rewrite not_elem_of_cons. by split; [intros ->|].
Qed.

Lemma or_flags_ids mask p l : cptr <$> or_flags mask p l = cptr <$> l.
Proof. induction l as [|x l IH]; [done|]. simpl. destruct (decide _); csimpl; by rewrite ?IH. Qed.

(** * Two-sided chains *)

(** [f] and [g] are the chains of the two sides: each has the other exactly once,
    or not at all. *)
Record linked (f g : nat -> list nat) : Prop := {
  linked_sym : forall c u, u ∈ f c <-> c ∈ g u;
  linked_left : forall c, NoDup (f c);
  linked_right : forall u, NoDup (g u) }.

Lemma linked_ext f g f' g' :
  (forall c, f' c = f c) -> (forall u, g' u = g u) -> linked f g -> linked f' g'.
Proof. intros Hf Hg [H1 H2 H3]. split; intros; rewrite ?Hf, ?Hg; auto. Qed.

(** A pair is linked on both sides. *)
Lemma linked_add f g f' g' c u :
  linked f g -> (u ∉ f c) ->
  f' c ≡ₚ u :: f c -> g' u ≡ₚ c :: g u ->
  (forall c', c' <> c -> f' c' = f c') -> (forall u', u' <> u -> g' u' = g u') ->
  linked f' g'.
Proof.
  intros [H1 H2 H3] Hn Hf Hg Hf' Hg'. assert (Hn' : (c ∉ g u)) by (by rewrite <- H1).
  split.
  - intros c' u'. destruct (decide (c' = c)) as [->|Hc]; [rewrite Hf|rewrite Hf' by done];
      (destruct (decide (u' = u)) as [->|Hu]; [rewrite Hg|rewrite Hg' by done]);
      rewrite ?elem_of_cons, ?H1; naive_solver.
  - intros c'. destruct (decide (c' = c)) as [->|Hc]; [rewrite Hf|by rewrite Hf'].
    by apply NoDup_cons.
  - intros u'. destruct (decide (u' = u)) as [->|Hu]; [rewrite Hg|by rewrite Hg'].
    by apply NoDup_cons.
Qed.

(** A pair is unlinked on both sides. *)
Lemma linked_del f g f' g' c u :
  linked f g ->
  f' c = unlink id u (f c) -> g' u = unlink id c (g u) ->
  (forall c', c' <> c -> f' c' = f c') -> (forall u', u' <> u -> g' u' = g u') ->
  linked f' g'.
Proof.
  intros [H1 H2 H3] Hf Hg Hf' Hg'.
  assert (U : forall p q (l : list nat), NoDup l -> q ∈ unlink id p l <-> q ∈ l /\ q <> p).
  { intros p q l Hnd. rewrite <- (list_fmap_id (unlink id p l)). rewrite unlink_elem; by rewrite list_fmap_id. }
  assert (N : forall p (l : list nat), NoDup l -> NoDup (unlink id p l)).
  { intros p l Hnd. rewrite <- (list_fmap_id (unlink id p l)). apply unlink_NoDup. by rewrite list_fmap_id. }
  split.
  - intros c' u'. destruct (decide (c' = c)) as [->|Hc]; [rewrite Hf, U by done|rewrite Hf' by done];
      (destruct (decide (u' = u)) as [->|Hu]; [rewrite Hg, U by done|rewrite Hg' by done]);
      rewrite ?H1; naive_solver.
  - intros c'. destruct (decide (c' = c)) as [->|Hc]; [rewrite Hf; auto|by rewrite Hf'].
  - intros u'. destruct (decide (u' = u)) as [->|Hu]; [rewrite Hg; auto|by rewrite Hg'].
Qed.

(** * The list of channels *)

(** The channels [l] follow each other from [p] to [q], the one before being
    [prev]. *)
Fixpoint dlist (chs : gmap nat aChannel) (prev p : option nat) (l : list nat) (q : option nat) : Prop :=
  match l with
  | [] => p = q
  | x :: l => p = Some x /\
      exists ch, chs !! x = Some ch /\ prevch ch = prev /\ dlist chs (Some x) (nextch ch) l q
  end.

Definition end_of (prev : option nat) (l : list nat) : option nat :=
  match last l with Some x => Some x | None => prev end.

Lemma end_of_cons prev x l : end_of prev (x :: l) = end_of (Some x) l.
Proof. unfold end_of. rewrite last_cons. by destruct (last l). Qed.

Lemma dlist_app chs prev p l1 l2 q :
  dlist chs prev p (l1 ++ l2) q <->
  exists r, dlist chs prev p l1 r /\ dlist chs (end_of prev l1) r l2 q.
Proof.
  revert prev p. induction l1 as [|x l1 IH]; intros prev p; simpl.
  - split; [by exists p|]. by intros (r&->&?).
  - setoid_rewrite IH. setoid_rewrite end_of_cons. split.
    + intros (->&ch&?&?&r&?&?). exists r. split; [|done]. split; [done|]. by exists ch.
    + intros (r&(->&ch&?&?&?)&?). split; [done|]. exists ch. split_and!; [done..|]. by exists r.
Qed.

Definition ptrs (ch : aChannel) := (nextch ch, prevch ch).

Lemma dlist_ext chs chs' prev p l q :
  (forall x, x ∈ l -> ptrs <$> chs' !! x = ptrs <$> chs !! x) ->
  dlist chs prev p l q -> dlist chs' prev p l q.
Proof.
  revert prev p. induction l as [|x l IH]; intros prev p H; simpl; [done|].
  intros (->&ch&Hx&Hp&Hs). split; [done|].
  assert (E := H x (list_elem_of_here _ _)). rewrite Hx in E.
  destruct (chs' !! x) as [ch'|]; [|done]. injection E as E1 E2. exists ch'. split; [done|].
  rewrite E1, E2. split; [done|]. apply IH; [|done]. intros y Hy. apply H. by right.
Qed.

Lemma dlist_insert chs prev p l q x ch :
  (x ∉ l) -> dlist chs prev p l q -> dlist (<[x := ch]> chs) prev p l q.
Proof. intros Hx. apply dlist_ext. intros y Hy. rewrite lookup_insert_ne; [done|]. by intros ->. Qed.

Lemma dlist_delete chs prev p l q x :
  (x ∉ l) -> dlist chs prev p l q -> dlist (delete x chs) prev p l q.
Proof. intros Hx. apply dlist_ext. intros y Hy. rewrite lookup_delete_ne; [done|]. by intros ->. Qed.

(** The last element gets another successor. *)
Lemma dlist_set_next chs prev h l p ch q q' :
  NoDup (l ++ [p]) -> chs !! p = Some ch -> dlist chs prev h (l ++ [p]) q ->
  dlist (<[p := set_nextch q' ch]> chs) prev h (l ++ [p]) q'.
Proof.
  intros (_&Hp&_)%NoDup_app Hc. rewrite !dlist_app. intros (r&H1&(->&ch'&Hc'&Hprev&_)).
  exists (Some p). split.
  - apply dlist_insert; [|done]. intros Hin. apply (Hp p Hin). left.
  - split; [done|]. exists (set_nextch q' ch). rewrite lookup_insert_eq. simplify_eq. done.
Qed.

(** The first element gets another predecessor. *)
Lemma dlist_set_prev chs prev prev' n l ch q :
  (n ∉ l) -> chs !! n = Some ch -> dlist chs prev (Some n) (n :: l) q ->
  dlist (<[n := set_prevch prev' ch]> chs) prev' (Some n) (n :: l) q.
Proof.
  intros Hn Hc (_&ch'&Hc'&Hprev&Hs). split; [done|]. exists (set_prevch prev' ch).
  rewrite lookup_insert_eq. simplify_eq. split_and!; [done..|]. by apply dlist_insert.
Qed.

Lemma dlist_head chs prev p x l q : dlist chs prev p (x :: l) q -> p = Some x.
Proof. by intros [-> _]. Qed.

(** * The invariant *)

(** A channel without its place in the list of channels *)
Definition body (ch : aChannel) : aChannel := set_nextch None (set_prevch None ch).
Definition hdr (ch : aChannel) := (chname ch, nextch ch, prevch ch).

(** Members and invitations.  [d] is the channel whose member was just unlinked,
    and whose count of users is still one too high. *)
Record Graph (d : option nat) (b : gmap nat aChannel) (cl : gmap nat aClient) : Prop := {
  g_members : linked (fun c => from_option (fun ch => cptr <$> members ch) [] (b !! c))
    (fun u => from_option uchannel [] (cl !! u));
  g_invites : linked (fun c => from_option invites [] (b !! c))
    (fun u => from_option invited [] (cl !! u));
  g_users : forall c ch, b !! c = Some ch ->
    users ch = Z.of_nat (length (members ch)) + (if decide (d = Some c) then 1 else 0);
  g_joined : forall u x, cl !! u = Some x -> joined x = Z.of_nat (length (uchannel x));
  g_max : forall u x, cl !! u = Some x ->
    (length (invited x) <= MAXCHANNELSPERUSER)%nat /\ (my x = false -> invited x = []);
  g_channels : Z.of_nat (size b) < 2 ^ 32;
  g_clients : Z.of_nat (size cl) < 2 ^ 32 - 1 }.

(** Every channel is registered or has a live member. *)
Definition Live (b : gmap nat aChannel) : Prop := forall c ch, b !! c = Some ch ->
  match members ch with
  | [] => has (mode ch) MODE_REGCHAN = true
  | _ => existsb live (members ch) = true
  end.

Lemma u32_id z : 0 <= z < 2 ^ 32 -> u32 z = z.
Proof. intros. unfold u32. by apply Z.mod_small. Qed.

Lemma NoDup_dom_length {A} (m : gmap nat A) (l : list nat) :
  NoDup l -> (forall x, x ∈ l -> is_Some (m !! x)) -> (length l <= size m)%nat.
Proof.
  intros Hnd Hl. rewrite <- size_dom, <- (size_list_to_set (C := gset nat)) by done.
  apply subseteq_size. intros x Hx%elem_of_list_to_set. by apply elem_of_dom, Hl.
Qed.

Lemma size_insert_known {A} (m : gmap nat A) k x y : m !! k = Some y -> size (<[k := x]> m) = size m.
Proof. intros H. apply map_size_insert_Some. by exists y. Qed.

Section graph.
Context (d : option nat) (b : gmap nat aChannel) (cl : gmap nat aClient).
Hypothesis HG : Graph d b cl.

Lemma member_sym c ch u x :
  b !! c = Some ch -> cl !! u = Some x -> u ∈ cptr <$> members ch <-> c ∈ uchannel x.
Proof.
  intros Hc Hu. assert (H := linked_sym _ _ (g_members _ _ _ HG) c u). cbv beta in H. by rewrite Hc, Hu in H.
Qed.

Lemma invite_sym c ch u x :
  b !! c = Some ch -> cl !! u = Some x -> u ∈ invites ch <-> c ∈ invited x.
Proof.
  intros Hc Hu. assert (H := linked_sym _ _ (g_invites _ _ _ HG) c u). cbv beta in H. by rewrite Hc, Hu in H.
Qed.

Lemma member_client c ch u : b !! c = Some ch -> u ∈ cptr <$> members ch -> is_Some (cl !! u).
Proof.
  intros Hc Hu. assert (H := linked_sym _ _ (g_members _ _ _ HG) c u). cbv beta in H. rewrite Hc in H.
  apply H in Hu. destruct (cl !! u); [done|]. by apply elem_of_nil in Hu.
Qed.

Lemma invited_client c ch u : b !! c = Some ch -> u ∈ invites ch -> is_Some (cl !! u).
Proof.
  intros Hc Hu. assert (H := linked_sym _ _ (g_invites _ _ _ HG) c u). cbv beta in H. rewrite Hc in H.
  apply H in Hu. destruct (cl !! u); [done|]. by apply elem_of_nil in Hu.
Qed.

Lemma channel_known u x c : cl !! u = Some x -> c ∈ uchannel x -> is_Some (b !! c).
Proof.
  intros Hu Hc. assert (H := linked_sym _ _ (g_members _ _ _ HG) c u). cbv beta in H. rewrite Hu in H.
  apply H in Hc. destruct (b !! c); [done|]. by apply elem_of_nil in Hc.
Qed.

Lemma invited_known u x c : cl !! u = Some x -> c ∈ invited x -> is_Some (b !! c).
Proof.
  intros Hu Hc. assert (H := linked_sym _ _ (g_invites _ _ _ HG) c u). cbv beta in H. rewrite Hu in H.
  apply H in Hc. destruct (b !! c); [done|]. by apply elem_of_nil in Hc.
Qed.

Lemma members_nodup c ch : b !! c = Some ch -> NoDup (cptr <$> members ch).
Proof. intros Hc. assert (H := linked_left _ _ (g_members _ _ _ HG) c). cbv beta in H. by rewrite Hc in H. Qed.

Lemma channels_nodup u x : cl !! u = Some x -> NoDup (uchannel x).
Proof. intros Hu. assert (H := linked_right _ _ (g_members _ _ _ HG) u). cbv beta in H. by rewrite Hu in H. Qed.

Lemma invites_nodup c ch : b !! c = Some ch -> NoDup (invites ch).
Proof. intros Hc. assert (H := linked_left _ _ (g_invites _ _ _ HG) c). cbv beta in H. by rewrite Hc in H. Qed.

Lemma invited_nodup u x : cl !! u = Some x -> NoDup (invited x).
Proof. intros Hu. assert (H := linked_right _ _ (g_invites _ _ _ HG) u). cbv beta in H. by rewrite Hu in H. Qed.

Lemma members_bound c ch : b !! c = Some ch -> Z.of_nat (length (members ch)) < 2 ^ 32 - 1.
Proof.
  intros Hc. assert (H := g_clients _ _ _ HG).
  assert (length (cptr <$> members ch) <= size cl)%nat.
  { apply NoDup_dom_length; [by apply (members_nodup c)|]. intros x. by apply (member_client c). }
  rewrite length_fmap in *. lia.
Qed.

Lemma joined_bound u x : cl !! u = Some x -> Z.of_nat (length (uchannel x)) < 2 ^ 32.
Proof.
  intros Hu. assert (H := g_channels _ _ _ HG).
  assert (length (uchannel x) <= size b)%nat; [|lia].
  apply NoDup_dom_length; [by apply (channels_nodup u)|]. intros c. by apply (channel_known u x).
Qed.

End graph.

(** Replacing the channel [c] and the client [u] *)
Lemma Graph_update d d' b cl c ch ch' u x x' :
  Graph d b cl -> b !! c = Some ch -> cl !! u = Some x ->
  linked (fun k => from_option (fun ch => cptr <$> members ch) [] (<[c := ch']> b !! k))
    (fun k => from_option uchannel [] (<[u := x']> cl !! k)) ->
  linked (fun k => from_option invites [] (<[c := ch']> b !! k))
    (fun k => from_option invited [] (<[u := x']> cl !! k)) ->
  users ch' = Z.of_nat (length (members ch')) + (if decide (d' = Some c) then 1 else 0) ->
  (forall k, k <> c -> d = Some k <-> d' = Some k) ->
  joined x' = Z.of_nat (length (uchannel x')) ->
  (length (invited x') <= MAXCHANNELSPERUSER)%nat /\ (my x' = false -> invited x' = []) ->
  Graph d' (<[c := ch']> b) (<[u := x']> cl).
Proof.
  intros HG Hc Hu Hm Hi Hn Hd Hj Hx. split; [done|done| | | | |].
  - intros k chk. destruct (decide (k = c)) as [->|Hne]; [rewrite lookup_insert_eq; by intros [= <-]|].
    rewrite lookup_insert_ne by done. intros Hk. rewrite (g_users _ _ _ HG k chk Hk).
    by rewrite (decide_ext _ _ _ _ (Hd k Hne)).
  - intros k xk. destruct (decide (k = u)) as [->|Hne]; [rewrite lookup_insert_eq; by intros [= <-]|].
    rewrite lookup_insert_ne by done. apply HG.
  - intros k xk. destruct (decide (k = u)) as [->|Hne]; [rewrite lookup_insert_eq; by intros [= <-]|].
    rewrite lookup_insert_ne by done. apply HG.
  - rewrite (size_insert_known _ _ _ ch) by done. apply HG.
  - rewrite (size_insert_known _ _ _ x) by done. apply HG.
Qed.

(** The same chains, on one side or on both *)
Ltac same_links H :=
  refine (linked_ext _ _ _ _ _ _ H);
  intros k; match goal with |- context [<[?c := _]> _ !! k] =>
    destruct (decide (k = c)) as [->|];
    [rewrite lookup_insert_eq|by rewrite lookup_insert_ne] end; simplify_option_eq; try done.

Lemma Graph_unlink b cl c ch u x :
  Graph None b cl -> b !! c = Some ch -> cl !! u = Some x -> u ∈ cptr <$> members ch ->
  Graph (Some c) (<[c := set_members (users ch) (unlink cptr u (members ch)) ch]> b)
    (<[u := set_channels (u32 (joined x - 1)) (unlink id c (uchannel x)) x]> cl).
Proof.
  intros HG Hc Hu Hin. assert (Hcx := proj1 (member_sym _ _ _ HG c ch u x Hc Hu) Hin).
  assert (Lm := unlink_length cptr u _ (members_nodup _ _ _ HG c ch Hc) Hin).
  assert (Lc : length (uchannel x) = S (length (unlink id c (uchannel x)))).
  { apply unlink_length; rewrite list_fmap_id; [by apply (channels_nodup _ _ _ HG u)|done]. }
  apply (Graph_update None _ _ _ _ ch _ _ x); try done.
  - apply (linked_del _ _ _ _ c u (g_members _ _ _ HG)); simpl.
    + rewrite lookup_insert_eq, Hc. simpl. apply unlink_fmap.
    + by rewrite lookup_insert_eq, Hu.
    + intros c' Hc'. by rewrite lookup_insert_ne.
    + intros u' Hu'. by rewrite lookup_insert_ne.
  - same_links (g_invites _ _ _ HG).
  - simpl. rewrite decide_True by done. rewrite (g_users _ _ _ HG c ch Hc), decide_False by done. lia.
  - intros k Hk. split; [done|]. intros [= ->]. done.
  - simpl. rewrite (g_joined _ _ _ HG u x Hu), u32_id; [lia|].
    assert (HB := joined_bound _ _ _ HG u x Hu). lia.
  - simpl. by apply (g_max _ _ _ HG u).
Qed.

Lemma Graph_link b cl c ch u x fl :
  Graph None b cl -> b !! c = Some ch -> cl !! u = Some x -> (u ∉ cptr <$> members ch) ->
  Graph None (<[c := set_members (u32 (users ch + 1)) (mkLink u fl :: members ch) ch]> b)
    (<[u := set_channels (u32 (joined x + 1)) (c :: uchannel x) x]> cl).
Proof.
  intros HG Hc Hu Hin.
  assert (Hcx : (c ∉ uchannel x)) by (by rewrite <- (member_sym _ _ _ HG c ch u x Hc Hu)).
  apply (Graph_update None _ _ _ _ ch _ _ x); try done.
  - apply (linked_add _ _ _ _ c u (g_members _ _ _ HG)); simpl.
    + by rewrite Hc.
    + by rewrite lookup_insert_eq, Hc.
    + by rewrite lookup_insert_eq, Hu.
    + intros c' Hc'. by rewrite lookup_insert_ne.
    + intros u' Hu'. by rewrite lookup_insert_ne.
  - same_links (g_invites _ _ _ HG).
  - simpl. assert (HB := members_bound _ _ _ HG c ch Hc).
    rewrite (g_users _ _ _ HG c ch Hc), decide_False, u32_id by (done || lia). lia.
  - simpl. assert (HB : (length (c :: uchannel x) <= size b)%nat).
    { apply NoDup_dom_length; [apply NoDup_cons; split; [done|by apply (channels_nodup _ _ _ HG u)]|].
      intros c' [->|Hc']%elem_of_cons; [by exists ch|by apply (channel_known _ _ _ HG u x)]. }
    assert (HS := g_channels _ _ _ HG). simpl in HB.
    rewrite (g_joined _ _ _ HG u x Hu), u32_id; lia.
  - simpl. by apply (g_max _ _ _ HG u).
Qed.

(** Only counts and flags of the channel [c] change. *)
Lemma Graph_chan d d' b cl c ch ch' :
  Graph d b cl -> b !! c = Some ch ->
  cptr <$> members ch' = cptr <$> members ch -> invites ch' = invites ch ->
  users ch' = Z.of_nat (length (members ch')) + (if decide (d' = Some c) then 1 else 0) ->
  (forall k, k <> c -> d = Some k <-> d' = Some k) ->
  Graph d' (<[c := ch']> b) cl.
Proof.
  intros HG Hc Hm Hi Hn Hd.
  assert (Hlook : forall A (f : aChannel -> list A), f ch' = f ch -> forall k,
    from_option f [] (<[c := ch']> b !! k) = from_option f [] (b !! k)).
  { intros A f Hf k. destruct (decide (k = c)) as [->|]; [by rewrite lookup_insert_eq, Hc|].
    by rewrite lookup_insert_ne. }
  split.
  - apply (linked_ext _ _ _ _ (Hlook _ _ Hm) (fun _ => eq_refl) (g_members _ _ _ HG)).
  - apply (linked_ext _ _ _ _ (Hlook _ _ Hi) (fun _ => eq_refl) (g_invites _ _ _ HG)).
  - intros k chk. destruct (decide (k = c)) as [->|Hne]; [rewrite lookup_insert_eq; by intros [= <-]|].
    rewrite lookup_insert_ne by done. intros Hk. rewrite (g_users _ _ _ HG k chk Hk).
    by rewrite (decide_ext _ _ _ _ (Hd k Hne)).
  - apply HG.
  - apply HG.
  - rewrite (size_insert_known _ _ _ ch) by done. apply HG.
  - apply HG.
Qed.

Lemma Graph_sub1 b cl c ch :
  Graph (Some c) b cl -> b !! c = Some ch ->
  Graph None (<[c := set_members (Z.of_nat (length (members ch))) (members ch) ch]> b) cl.
Proof.
  intros HG Hc. apply (Graph_chan (Some c) _ _ _ _ ch); try done.
  - simpl. lia.
  - intros k Hk. split; [intros [= ->]; done|done].
Qed.

(** An invitation goes. *)
Definition uninvite (c : nat) (x : aClient) : aClient := set_invited (unlink id c (invited x)) x.

Lemma Graph_uninvite d b cl c ch u x :
  Graph d b cl -> b !! c = Some ch -> cl !! u = Some x ->
  Graph d (<[c := set_invites (unlink id u (invites ch)) ch]> b) (<[u := uninvite c x]> cl).
Proof.
  intros HG Hc Hu. apply (Graph_update d _ _ _ _ ch _ _ x); try done.
  - same_links (g_members _ _ _ HG).
  - apply (linked_del _ _ _ _ c u (g_invites _ _ _ HG)); simpl.
    + by rewrite lookup_insert_eq, Hc.
    + by rewrite lookup_insert_eq, Hu.
    + intros c' Hc'. by rewrite lookup_insert_ne.
    + intros u' Hu'. by rewrite lookup_insert_ne.
  - simpl. apply (g_users _ _ _ HG c ch Hc).
  - apply (g_joined _ _ _ HG u x Hu).
  - simpl. destruct (g_max _ _ _ HG u x Hu) as [Hmax Hmy]. split; [|intros E; by rewrite (Hmy E)].
    etrans; [|exact Hmax]. assert (Hnd := invited_nodup _ _ _ HG u x Hu).
    destruct (decide (c ∈ id <$> invited x)) as [Hin|Hin]; [|by rewrite unlink_outside].
    rewrite (unlink_length id c (invited x)); [lia|by rewrite list_fmap_id|done].
Qed.

Lemma Graph_invite b cl c ch u x :
  Graph None b cl -> b !! c = Some ch -> cl !! u = Some x -> my x = true ->
  (u ∉ invites ch) -> (length (invited x) < MAXCHANNELSPERUSER)%nat ->
  Graph None (<[c := set_invites (u :: invites ch) ch]> b)
    (<[u := set_invited (invited x ++ [c]) x]> cl).
Proof.
  intros HG Hc Hu Hmy Hin Hlen. apply (Graph_update None _ _ _ _ ch _ _ x); try done.
  - same_links (g_members _ _ _ HG).
  - apply (linked_add _ _ _ _ c u (g_invites _ _ _ HG)); simpl.
    + by rewrite Hc.
    + by rewrite lookup_insert_eq, Hc.
    + rewrite lookup_insert_eq, Hu. simpl. by rewrite <- Permutation_cons_append.
    + intros c' Hc'. by rewrite lookup_insert_ne.
    + intros u' Hu'. by rewrite lookup_insert_ne.
  - simpl. apply (g_users _ _ _ HG c ch Hc).
  - apply (g_joined _ _ _ HG u x Hu).
  - simpl. rewrite length_app. simpl. split; [lia|congruence].
Qed.

(** A channel without links comes or goes. *)
Lemma Graph_free b cl c ch :
  Graph None b cl -> b !! c = Some ch -> members ch = [] -> invites ch = [] ->
  Graph None (delete c b) cl.
Proof.
  intros HG Hc Hm Hi.
  assert (Hlook : forall A (f : aChannel -> list A), f ch = [] -> forall k,
    from_option f [] (delete c b !! k) = from_option f [] (b !! k)).
  { intros A f Hf k. destruct (decide (k = c)) as [->|]; [by rewrite lookup_delete_eq, Hc|].
    by rewrite lookup_delete_ne. }
  split; [| | |apply HG..| |apply HG].
  - apply (linked_ext _ _ _ _ (Hlook _ (fun ch => cptr <$> members ch) ltac:(simpl; by rewrite Hm))
      (fun _ => eq_refl) (g_members _ _ _ HG)).
  - apply (linked_ext _ _ _ _ (Hlook _ _ Hi) (fun _ => eq_refl) (g_invites _ _ _ HG)).
  - intros k chk [_ Hk]%lookup_delete_Some. by apply HG.
  - rewrite map_size_delete, Hc. assert (H := g_channels _ _ _ HG). lia.
Qed.

Lemma Graph_new b cl c ch :
  Graph None b cl -> b !! c = None -> members ch = [] -> invites ch = [] -> users ch = 0 ->
  Z.of_nat (size b) < 2 ^ 32 - 1 -> Graph None (<[c := ch]> b) cl.
Proof.
  intros HG Hc Hm Hi Hn Hs.
  assert (Hlook : forall A (f : aChannel -> list A), f ch = [] -> forall k,
    from_option f [] (<[c := ch]> b !! k) = from_option f [] (b !! k)).
  { intros A f Hf k. destruct (decide (k = c)) as [->|]; [by rewrite lookup_insert_eq, Hc|].
    by rewrite lookup_insert_ne. }
  split; [| | |apply HG..| |apply HG].
  - apply (linked_ext _ _ _ _ (Hlook _ (fun ch => cptr <$> members ch) ltac:(simpl; by rewrite Hm))
      (fun _ => eq_refl) (g_members _ _ _ HG)).
  - apply (linked_ext _ _ _ _ (Hlook _ _ Hi) (fun _ => eq_refl) (g_invites _ _ _ HG)).
  - intros k chk. destruct (decide (k = c)) as [->|Hne].
    + rewrite lookup_insert_eq. intros [= <-]. by rewrite Hm, Hn.
    + rewrite lookup_insert_ne by done. by apply HG.
  - rewrite map_size_insert_None by done. lia.
Qed.

(** A client without links comes or goes. *)
Lemma Graph_clients b cl cl' :
  Graph None b cl -> Z.of_nat (size cl') < 2 ^ 32 - 1 ->
  (forall u, from_option uchannel [] (cl' !! u) = from_option uchannel [] (cl !! u)) ->
  (forall u, from_option invited [] (cl' !! u) = from_option invited [] (cl !! u)) ->
  (forall u x, cl' !! u = Some x -> cl !! u = Some x \/ joined x = 0 /\ uchannel x = [] /\ invited x = []) ->
  Graph None b cl'.
Proof.
  intros HG Hs Hu Hi Hx. split; [| |apply HG| | |apply HG|done].
  - apply (linked_ext _ _ _ _ (fun _ => eq_refl) Hu (g_members _ _ _ HG)).
  - apply (linked_ext _ _ _ _ (fun _ => eq_refl) Hi (g_invites _ _ _ HG)).
  - intros u x [H|(->&->&_)]%Hx; [by apply (g_joined _ _ _ HG u)|done].
  - intros u x [H|(_&_&->)]%Hx; [by apply (g_max _ _ _ HG u)|]. split; [simpl; lia|done].
Qed.

(** * The list of channels and the table of names *)

Section directory.
Context {T : Type} `{NT : NameTable T}.
Implicit Types st : state (T := T).

Definition names (st : state (T := T)) : gmap nat cstring := chname <$> chans st.

Record Dir (st : state (T := T)) : Prop := {
  d_list : exists l, dlist (chans st) None (channel st) l None /\ NoDup l /\
    (forall c, c ∈ l <-> is_Some (chans st !! c)) /\ nrof_channels st = Z.of_nat (length l);
  d_names : nt_rep (htab st) (names st);
  d_valid : forall c nm, names st !! c = Some nm -> name_ok nm;
  d_unique : forall c c' nm nm', names st !! c = Some nm -> names st !! c' = Some nm' ->
    case_equiv nm nm' -> c = c' }.

(** Nothing that the directory sees changes. *)
Lemma Dir_frame st st' :
  Dir st -> hdr <$> chans st' = hdr <$> chans st -> channel st' = channel st ->
  nrof_channels st' = nrof_channels st -> htab st' = htab st -> Dir st'.
Proof.
  intros [(l&Hl&Hnd&Hdom&Hn) Hnames Hv Hu] Hh Hc Hn' Ht.
  assert (E : names st' = names st).
  { unfold names. apply map_eq. intros x. assert (H := f_equal (fun m => m !! x) Hh). cbv beta in H.
    rewrite !lookup_fmap in *. destruct (chans st' !! x), (chans st !! x); try done.
    injection H as H1 _. simpl. by rewrite H1. }
  assert (EP : forall x, ptrs <$> chans st' !! x = ptrs <$> chans st !! x).
  { intros x. assert (H := f_equal (fun m => m !! x) Hh). cbv beta in H.
    rewrite !lookup_fmap in *. destruct (chans st' !! x), (chans st !! x); try done.
    injection H as _ H2 H3. unfold ptrs. simpl. by rewrite H2, H3. }
  split; [|by rewrite E, Ht|by rewrite E|by rewrite E].
  exists l. rewrite Hc, Hn'. split; [eapply dlist_ext; [|done]; done|]. split; [done|]. split; [|done].
  intros x. rewrite Hdom. specialize (EP x). by destruct (chans st' !! x), (chans st !! x).
Qed.

Lemma Dir_put st c ch ch' :
  Dir st -> chans st !! c = Some ch -> hdr ch' = hdr ch -> Dir (put_chan c ch' st).
Proof.
  intros HD Hc Hh. apply (Dir_frame st); try done. simpl.
  rewrite fmap_insert, Hh. rewrite <- fmap_insert. by rewrite insert_id.
Qed.

Lemma Dir_put_client st u x : Dir st -> Dir (put_client u x st).
Proof. intros HD. by apply (Dir_frame st). Qed.

Lemma get_chan_Some st c ch : chans st !! c = Some ch -> get_chan st c = Ok ch.
Proof. unfold get_chan. by intros ->. Qed.

Lemma get_client_Some st u x : clients st !! u = Some x -> get_client st u = Ok x.
Proof. unfold get_client. by intros ->. Qed.

Definition bodies st : gmap nat aChannel := body <$> chans st.

Lemma bodies_lookup st c ch : chans st !! c = Some ch -> bodies st !! c = Some (body ch).
Proof. intros H. unfold bodies. by rewrite lookup_fmap, H. Qed.

Lemma bodies_inv st c b : bodies st !! c = Some b -> exists ch, chans st !! c = Some ch /\ body ch = b.
Proof. unfold bodies. rewrite lookup_fmap, fmap_Some. naive_solver. Qed.

Lemma bodies_put st c ch : bodies (put_chan c ch st) = <[c := body ch]> (bodies st).
Proof. unfold bodies. simpl. apply fmap_insert. Qed.

End directory.

(** * Removal *)

Section removal.
Context {T : Type} `{NT : NameTable T}.
Implicit Types st : state (T := T).

Definition Good (d : option nat) st : Prop := Graph d (bodies st) (clients st) /\ Dir st.

Lemma del_invite_spec d st u c ch x :
  Good d st -> chans st !! c = Some ch -> clients st !! u = Some x ->
  exists st', del_invite st u c = Ok st' /\ Good d st' /\
    bodies st' = <[c := set_invites (unlink id u (invites ch)) (body ch)]> (bodies st) /\
    clients st' = <[u := uninvite c x]> (clients st).
Proof.
  intros [HG HD] Hc Hu. unfold del_invite.
  rewrite (get_chan_Some _ _ _ Hc), (get_client_Some _ _ _ Hu). cbn [mbind result_bind].
  exists (put_client u (uninvite c x) (put_chan c (set_invites (unlink id u (invites ch)) ch) st)).
  split; [done|].
  assert (E : bodies (put_client u (uninvite c x)
    (put_chan c (set_invites (unlink id u (invites ch)) ch) st)) =
    <[c := set_invites (unlink id u (invites ch)) (body ch)]> (bodies st)) by apply bodies_put.
  split; [|split; [exact E|done]]. split.
  - rewrite E. by apply (Graph_uninvite d _ _ c (body ch) u x HG); [apply bodies_lookup|].
  - apply Dir_put_client. by apply (Dir_put _ c ch).
Qed.

Lemma uninvite_twice c x : NoDup (invited x) -> uninvite c (uninvite c x) = uninvite c x.
Proof. intros Hnd. unfold uninvite, set_invited. simpl. by rewrite unlink_twice. Qed.

Lemma uninvite_outside c x : (c ∉ invited x) -> uninvite c x = x.
Proof. intros Hc. unfold uninvite. rewrite unlink_absent by done. by destruct x. Qed.

(** A change of every client, when only one really changes *)
Lemma fmap_one (f : aClient -> aClient) (cl : gmap nat aClient) :
  (forall u x, cl !! u = Some x -> f x = x) -> f <$> cl = cl.
Proof.
  intros H. apply map_eq. intros u. rewrite lookup_fmap. destruct (cl !! u) as [x|] eqn:E; [|done].
  simpl. by rewrite (H u x).
Qed.

Lemma fmap_again (f : aClient -> aClient) (cl : gmap nat aClient) u x :
  cl !! u = Some x -> f (f x) = f x -> f <$> (<[u := f x]> cl) = f <$> cl.
Proof.
  intros Hu Hf. rewrite fmap_insert, Hf. apply insert_id. by rewrite lookup_fmap, Hu.
Qed.

Lemma uninvite_loop_spec d fuel : forall st c ch,
  Good d st -> chans st !! c = Some ch -> (length (invites ch) < fuel)%nat ->
  exists st', uninvite_loop fuel st c = Ok st' /\ Good d st' /\
    bodies st' = <[c := set_invites [] (body ch)]> (bodies st) /\
    clients st' = uninvite c <$> clients st.
Proof.
  induction fuel as [|fuel IH]; intros st c ch HGd Hc Hf; [lia|]. cbn [uninvite_loop].
  rewrite (get_chan_Some _ _ _ Hc). cbn [mbind result_bind]. assert (HG := proj1 HGd).
  assert (Hb := bodies_lookup _ _ _ Hc).
  destruct (invites ch) as [|u iv] eqn:Ei.
  - exists st. split; [done|]. split; [done|]. split.
    + symmetry. apply insert_id. rewrite Hb. by destruct ch; simpl in *; subst.
    + symmetry. apply fmap_one. intros u x Hu. apply uninvite_outside.
      rewrite <- (invite_sym _ _ _ HG c _ u x Hb Hu). simpl. rewrite Ei. apply not_elem_of_nil.
  - destruct (invited_client _ _ _ HG c _ u Hb) as [x Hu]; [simpl; rewrite Ei; left|].
    destruct (del_invite_spec d st u c ch x HGd Hc Hu) as (st1&E1&HG1&EB&EC).
    rewrite E1. cbn [mbind result_bind]. rewrite Ei in EB. simpl in EB.
    rewrite decide_True in EB by done.
    assert (Hc1 : bodies st1 !! c = Some (set_invites iv (body ch))) by (rewrite EB; apply lookup_insert_eq).
    apply bodies_inv in Hc1 as (ch1&Hc1&Eb).
    assert (Ei1 : invites ch1 = iv) by (by destruct ch1; injection Eb).
    destruct (IH st1 c ch1 HG1 Hc1) as (st'&E'&HG'&EB'&EC'); [rewrite Ei1; simpl in Hf; lia|].
    exists st'. split; [done|]. split; [done|]. split.
    + rewrite EB', EB, insert_insert_eq, Eb. by f_equal.
    + rewrite EC', EC. apply fmap_again; [done|]. by apply uninvite_twice, (invited_nodup _ _ _ HG u).
Qed.

(** Only links of the list of channels change. *)
Record relinked st st' : Prop := {
  rl_dom : forall x, is_Some (chans st' !! x) <-> is_Some (chans st !! x);
  rl_clients : clients st' = clients st;
  rl_bodies : bodies st' = bodies st;
  rl_names : names st' = names st;
  rl_htab : htab st' = htab st;
  rl_nrof : nrof_channels st' = nrof_channels st }.

Lemma relinked_trans st1 st2 st3 : relinked st1 st2 -> relinked st2 st3 -> relinked st1 st3.
Proof. intros [] []. split; [|congruence..]. intros x. naive_solver. Qed.

Lemma relinked_list st h : relinked st (set_list h st).
Proof. by split. Qed.

Lemma relinked_put st p ch ch' :
  chans st !! p = Some ch -> body ch' = body ch -> relinked st (put_chan p ch' st).
Proof.
  intros Hp Hb. split; try done.
  - intros x. simpl. destruct (decide (x = p)) as [->|]; [by rewrite lookup_insert_eq, Hp|].
    by rewrite lookup_insert_ne.
  - rewrite bodies_put, Hb. apply insert_id. by apply bodies_lookup.
  - unfold names. simpl. rewrite fmap_insert. apply insert_id. rewrite lookup_fmap, Hp. simpl.
    change (chname ch) with (chname (body ch)). by rewrite <- Hb.
Qed.

(** The element before [c] is linked to the one after it. *)
Lemma link_next_spec st l1 c q nx :
  dlist (chans st) None (channel st) l1 q -> NoDup l1 -> (forall x, x ∈ l1 -> is_Some (chans st !! x)) ->
  exists st', match end_of None l1 with
    | Some p => chp ← get_chan st p; Ok (put_chan p (set_nextch nx chp) st)
    | None => Ok (set_list nx st) end = Ok st' /\
  relinked st st' /\ dlist (chans st') None (channel st') l1 nx /\
  (forall l r, (forall x, x ∈ l1 -> x ∉ l) -> dlist (chans st) c r l None -> dlist (chans st') c r l None).
Proof.
  intros H1 Hnd Hdom. destruct l1 as [|p l1 _] using rev_ind.
  - exists (set_list nx st). split; [done|]. split; [apply relinked_list|]. done.
  - unfold end_of. rewrite last_snoc.
    assert (Hp : is_Some (chans st !! p)) by (apply Hdom; set_solver). destruct Hp as [chp Hp].
    rewrite (get_chan_Some _ _ _ Hp). eexists. split; [done|].
    split; [by apply (relinked_put _ _ chp)|]. split; [by apply (dlist_set_next _ _ _ _ _ _ q)|].
    intros l r Hl. apply dlist_insert. apply Hl. set_solver.
Qed.

(** The element after [c] is linked to the one before it. *)
Lemma link_prev_spec st c pv l1 l2 nx :
  dlist (chans st) None (channel st) l1 nx -> dlist (chans st) (Some c) nx l2 None ->
  end_of None l1 = pv -> NoDup l2 -> (forall x, x ∈ l1 -> x ∉ l2) ->
  (forall x, x ∈ l2 -> is_Some (chans st !! x)) ->
  exists st', match nx with
    | Some n => chn ← get_chan st n; Ok (put_chan n (set_prevch pv chn) st)
    | None => Ok st end = Ok st' /\
  relinked st st' /\ dlist (chans st') None (channel st') (l1 ++ l2) None.
Proof.
  intros H1 H2 He Hnd Hdis Hdom. destruct l2 as [|n l2].
  - simpl in H2. subst nx. rewrite app_nil_r. by exists st.
  - assert (Hnx := dlist_head _ _ _ _ _ _ H2). subst nx. apply NoDup_cons in Hnd as [Nn N2].
    destruct (Hdom n) as [chn Hn]; [left|]. rewrite (get_chan_Some _ _ _ Hn). eexists. split; [done|].
    split; [by apply (relinked_put _ _ chn)|]. apply dlist_app. exists (Some n). split.
    + apply dlist_insert; [|done]. intros H. apply (Hdis n H). left.
    + rewrite He. by apply (dlist_set_prev _ (Some c)).
Qed.

(** The channel leaves the list and the table of names, and is freed. *)
Lemma unlink_channel_spec st c ch :
  Dir st -> chans st !! c = Some ch ->
  exists st' t, unlink_channel st c = Ok st' /\ clients st' = clients st /\
    bodies st' = bodies st /\ nt_del (htab st') c = Ok t /\ Dir (free_channel c (set_htab t st')).
Proof.
  intros [(l&Hl&Hnd&Hdom&Hn) Hnames Hv Hu] Hc.
  assert (Hin : c ∈ l) by (apply Hdom; by exists ch).
  apply list_elem_of_split in Hin as (l1&l2&->).
  apply dlist_app in Hl as (r&H1&(->&ch'&Hc'&Hp&H2)). rewrite Hc in Hc'. injection Hc' as <-.
  assert (Hnd0 := Hnd). apply NoDup_app in Hnd0 as (N1&N12&[Nc N2]%NoDup_cons).
  assert (Hdis : forall x, x ∈ l1 -> x ∉ l2) by (intros x Hx Hx2; apply (N12 x Hx); by right).
  destruct (link_next_spec st l1 (Some c) (Some c) (nextch ch) H1 N1) as (st1&E1&R1&D1&K1).
  { intros x Hx. apply Hdom. set_solver. }
  destruct (link_prev_spec st1 c (prevch ch) l1 l2 (nextch ch) D1 (K1 _ _ Hdis H2)) as (st2&E2&R2&D2); try done.
  { intros x Hx. apply (rl_dom _ _ R1), Hdom. set_solver. }
  assert (R := relinked_trans _ _ _ R1 R2).
  assert (Hnm : names st2 !! c = Some (chname ch)).
  { rewrite (rl_names _ _ R). unfold names. by rewrite lookup_fmap, Hc. }
  destruct (nt_del_spec (htab st2) (names st2) c (chname ch)) as (t&Et&Hrep);
    [by rewrite (rl_htab _ _ R), (rl_names _ _ R)|done|].
  exists st2, t. unfold unlink_channel. rewrite (get_chan_Some _ _ _ Hc). cbn [mbind result_bind].
  rewrite <- Hp in E1. rewrite E1. cbn [mbind result_bind]. split; [exact E2|].
  split; [apply R|]. split; [apply R|]. split; [done|].
  assert (En : names (free_channel c (set_htab t st2)) = delete c (names st)).
  { rewrite <- (rl_names _ _ R). unfold names. simpl. apply fmap_delete. }
  split; rewrite ?En.
  - exists (l1 ++ l2). split; [apply dlist_delete; [set_solver|done]|]. split; [|split].
    + apply NoDup_app. done.
    + intros x. simpl. destruct (decide (x = c)) as [->|Hne].
      * rewrite lookup_delete_eq. split; [set_solver|by intros []].
      * rewrite lookup_delete_ne, (rl_dom _ _ R), <- Hdom by done. set_solver.
    + simpl. rewrite (rl_nrof _ _ R), Hn, !length_app. simpl. lia.
  - by rewrite <- (rl_names _ _ R).
  - intros x nm [_ Hx]%lookup_delete_Some. by apply (Hv x).
  - intros x y nm nm' [_ Hx]%lookup_delete_Some [_ Hy]%lookup_delete_Some. by apply Hu.
Qed.

End removal.

Section leaving.
Context {T : Type} `{NT : NameTable T}.
Implicit Types st : state (T := T).

Lemma Good_put d d' st c ch ch' :
  Good d st -> chans st !! c = Some ch -> hdr ch' = hdr ch ->
  cptr <$> members ch' = cptr <$> members ch -> invites ch' = invites ch ->
  users ch' = Z.of_nat (length (members ch')) + (if decide (d' = Some c) then 1 else 0) ->
  (forall k, k <> c -> d = Some k <-> d' = Some k) ->
  Good d' (put_chan c ch' st).
Proof.
  intros [HG HD] Hc Hh Hm Hi Hn Hd. split; [|by apply (Dir_put _ c ch)].
  rewrite bodies_put. by apply (Graph_chan d _ _ _ _ (body ch)); [|apply bodies_lookup|..].
Qed.

(** What is left of a channel when its count is decremented *)
Definition counted (ch : aChannel) : aChannel :=
  set_members (Z.of_nat (length (members ch))) (members ch) ch.

Definition empty_free (ch : aChannel) : bool :=
  bool_decide (members ch = []) && negb (has (mode ch) MODE_REGCHAN).

(** sub1_from_channel(), called for a member just unlinked or for a channel that
    was just created: the channel is freed when it is empty and not registered. *)
Lemma sub1_spec d st c ch :
  Good d st -> chans st !! c = Some ch -> (d = Some c \/ d = None /\ members ch = []) ->
  exists st', sub1_from_channel st c = Ok st' /\ Good None st' /\
    bodies st' = (if empty_free ch then delete c (bodies st) else <[c := counted (body ch)]> (bodies st)) /\
    clients st' = (if empty_free ch then uninvite c <$> clients st else clients st).
Proof.
  intros HGd Hc Hd. assert (HG := proj1 HGd). unfold sub1_from_channel.
  rewrite (get_chan_Some _ _ _ Hc). cbn [mbind result_bind].
  assert (Hb := bodies_lookup _ _ _ Hc).
  assert (HB := members_bound _ _ _ HG c _ Hb). simpl in HB.
  assert (Hn := g_users _ _ _ HG c _ Hb). simpl in Hn.
  assert (E : (if decide (users ch <> 0) then set_members (u32 (users ch - 1)) (members ch) ch else ch)
    = counted ch).
  { unfold counted. destruct Hd as [->|[-> Hm]].
    - rewrite decide_True in Hn by done. rewrite decide_True by lia. f_equal. rewrite Hn, u32_id; lia.
    - rewrite decide_False in Hn by done. rewrite Hm in *. simpl in Hn. rewrite decide_False by lia.
      destruct ch; simpl in *. by subst. }
  rewrite E. clear E.
  assert (HG1 : Good None (put_chan c (counted ch) st)).
  { apply (Good_put d None _ c ch); try done; [simpl; lia|]. intros k Hk.
    destruct Hd as [->|[-> _]]; [|done]. split; [intros [= ->]; done|done]. }
  assert (Hc1 : chans (put_chan c (counted ch) st) !! c = Some (counted ch)) by apply lookup_insert_eq.
  assert (EB : bodies (put_chan c (counted ch) st) = <[c := counted (body ch)]> (bodies st))
    by apply bodies_put.
  destruct (decide (members ch = [])) as [Hm|Hm].
  2:{ rewrite decide_True by (simpl; destruct (members ch); [done|simpl; lia]).
      unfold empty_free. rewrite bool_decide_false by done. eexists. split; [done|]. done. }
  rewrite decide_False by (simpl; rewrite Hm; simpl; lia). unfold empty_free.
  rewrite bool_decide_true by done. change (mode (counted ch)) with (mode ch).
  destruct (has (mode ch) MODE_REGCHAN); [eexists; split; [done|]; done|]. cbn [negb andb].
  destruct (uninvite_loop_spec None _ _ c _ HG1 Hc1 (Nat.lt_succ_diag_r _)) as (st2&E2&HG2&EB2&EC2).
  rewrite E2. cbn [mbind result_bind].
  assert (Hc2 : bodies st2 !! c = Some (set_invites [] (body (counted ch))))
    by (rewrite EB2; apply lookup_insert_eq).
  destruct (bodies_inv _ _ _ Hc2) as (ch2&Hc2'&Eb2).
  destruct (unlink_channel_spec st2 c ch2 (proj2 HG2) Hc2') as (st3&t&E3&EC3&EB3&Et&HD3).
  rewrite E3. cbn [mbind result_bind]. rewrite Et. cbn [mbind result_bind].
  eexists. split; [done|].
  assert (EB4 : bodies (free_channel c (set_htab t st3)) = delete c (bodies st2)).
  { rewrite <- EB3. unfold bodies. simpl. apply fmap_delete. }
  split; [split; [|done]|].
  - rewrite EB4. simpl. rewrite EC3. apply (Graph_free _ _ _ _ (proj1 HG2) Hc2); done.
  - rewrite EB4, EB2, EB. split; [|simpl; by rewrite EC3, EC2]. by rewrite !delete_insert_eq.
Qed.

(** A client off a channel *)
Definition drop_channel (c : nat) (x : aClient) : aClient :=
  let l := unlink id c (uchannel x) in set_channels (Z.of_nat (length l)) l x.

Definition drop_member (u : nat) (ch : aChannel) : aChannel :=
  let l := unlink cptr u (members ch) in set_members (Z.of_nat (length l)) l ch.

Lemma unlink_member_spec st u c ch x :
  Good None st -> chans st !! c = Some ch -> clients st !! u = Some x -> u ∈ cptr <$> members ch ->
  exists st' ch', unlink_member st u c = Ok st' /\ Good (Some c) st' /\ chans st' !! c = Some ch' /\
    members ch' = unlink cptr u (members ch) /\ mode ch' = mode ch /\
    counted (body ch') = drop_member u (body ch) /\
    bodies st' = <[c := body ch']> (bodies st) /\
    clients st' = <[u := drop_channel c x]> (clients st).
Proof.
  intros [HG HD] Hc Hu Hin. unfold unlink_member.
  rewrite (get_chan_Some _ _ _ Hc), (get_client_Some _ _ _ Hu). cbn [mbind result_bind].
  assert (Hb := bodies_lookup _ _ _ Hc).
  assert (HG' := Graph_unlink _ _ c _ u x HG Hb Hu Hin).
  assert (Ex : set_channels (u32 (joined x - 1)) (unlink id c (uchannel x)) x = drop_channel c x).
  { unfold drop_channel. f_equal. assert (HJ := g_joined _ _ _ HG' u). rewrite lookup_insert_eq in HJ.
    by apply (HJ _ eq_refl). }
  rewrite Ex in *.
  exists (put_client u (drop_channel c x)
    (put_chan c (set_members (users ch) (unlink cptr u (members ch)) ch) st)), 
    (set_members (users ch) (unlink cptr u (members ch)) ch).
  split; [done|]. split; [|split; [apply lookup_insert_eq|split_and!; try done; apply bodies_put]].
  split; [|apply Dir_put_client; by apply (Dir_put _ c ch)].
  change (bodies (put_client u (drop_channel c x) ?s)) with (bodies s). by rewrite bodies_put.
Qed.

Lemma drop_channel_twice c x : NoDup (uchannel x) -> drop_channel c (drop_channel c x) = drop_channel c x.
Proof. intros Hnd. unfold drop_channel, set_channels. simpl. by rewrite unlink_twice. Qed.

Lemma drop_channel_outside c x :
  (c ∉ uchannel x) -> joined x = Z.of_nat (length (uchannel x)) -> drop_channel c x = x.
Proof. intros Hc Hj. unfold drop_channel. rewrite unlink_absent, <- Hj by done. by destruct x. Qed.

(** Without another live member everybody is removed. *)
Definition emptied (ch : aChannel) : aChannel := set_members 0 [] ch.

Definition purged (c : nat) (reg : bool) (x : aClient) : aClient :=
  let x := drop_channel c x in if reg then x else uninvite c x.

Lemma remove_loop_all fuel : forall st u c ch,
  Good None st -> chans st !! c = Some ch -> u ∈ cptr <$> members ch ->
  (length (members ch) <= fuel)%nat ->
  let reg := has (mode ch) MODE_REGCHAN in
  exists st', remove_loop fuel st false u c = Ok st' /\ Good None st' /\
    bodies st' = (if reg then <[c := emptied (body ch)]> (bodies st) else delete c (bodies st)) /\
    clients st' = purged c reg <$> clients st.
Proof.
  induction fuel as [|fuel IH]; intros st u c ch HGd Hc Hin Hf; simpl.
  { destruct (members ch); [by apply elem_of_nil in Hin|simpl in Hf; lia]. }
  assert (HG := proj1 HGd). assert (Hb := bodies_lookup _ _ _ Hc).
  destruct (member_client _ _ _ HG c _ u Hb Hin) as [x Hu].
  destruct (unlink_member_spec st u c ch x HGd Hc Hu Hin) as (st1&ch1&E1&HG1&Hc1&Em&Emd&Eb&EB&EC).
  rewrite E1. cbn [mbind result_bind]. rewrite (get_chan_Some _ _ _ Hc1). cbn [mbind result_bind].
  assert (Ln := unlink_length cptr u _ (members_nodup _ _ _ HG c _ Hb) Hin). simpl in Ln.
  destruct (sub1_spec (Some c) st1 c ch1 HG1 Hc1 (or_introl eq_refl)) as (st2&E2&HG2&EB2&EC2).
  assert (Hdrop : drop_channel c <$> (<[u := drop_channel c x]> (clients st)) = drop_channel c <$> clients st).
  { apply fmap_again; [done|]. apply drop_channel_twice. by apply (channels_nodup _ _ _ HG u). }
  unfold empty_free in EB2, EC2. destruct (members ch1) as [|l ms] eqn:Em1.
  - rewrite E2. exists st2. split; [done|]. split; [done|]. rewrite Emd in EB2, EC2.
    rewrite bool_decide_true in EB2, EC2 by done. cbn [andb] in EB2, EC2.
    assert (Hall : drop_channel c <$> clients st = <[u := drop_channel c x]> (clients st)).
    { rewrite <- Hdrop. apply fmap_one. intros v y Hv. destruct (decide (v = u)) as [->|Hne].
      - rewrite lookup_insert_eq in Hv. injection Hv as <-. apply drop_channel_twice.
        by apply (channels_nodup _ _ _ HG u).
      - rewrite lookup_insert_ne in Hv by done. apply drop_channel_outside; [|by apply (g_joined _ _ _ HG v)].
        rewrite <- (member_sym _ _ _ HG c _ v y Hb Hv). simpl. intros Hin'.
        assert (Hv' : v ∈ cptr <$> unlink cptr u (members ch)).
        { apply unlink_elem; [by apply (members_nodup _ _ _ HG c _ Hb)|done]. }
        rewrite <- Em in Hv'. by apply elem_of_nil in Hv'. }
    destruct (has (mode ch) MODE_REGCHAN); cbn [negb] in EB2, EC2.
    + rewrite EB2, EC2, EB, insert_insert_eq, Eb, EC. split; [|by rewrite <- Hall].
      f_equal. unfold drop_member, emptied. simpl. by rewrite <- Em.
    + rewrite EB2, EC2, EB, EC. split; [by rewrite delete_insert_eq|]. rewrite <- Hall.
      by rewrite <- map_fmap_compose.
  - rewrite E2. cbn [mbind result_bind]. rewrite bool_decide_false in EB2, EC2 by done.
    cbn [andb] in EB2, EC2. rewrite EB, insert_insert_eq, Eb in EB2.
    assert (Hb2 : bodies st2 !! c = Some (drop_member u (body ch))) by (rewrite EB2; apply lookup_insert_eq).
    destruct (bodies_inv _ _ _ Hb2) as (ch2&Hc2&Eb2).
    assert (Em2 : members ch2 = members ch1).
    { rewrite Em1. change (members ch2) with (members (body ch2)). rewrite Eb2. simpl. by rewrite <- Em. }
    assert (Emd2 : mode ch2 = mode ch) by (change (mode ch2) with (mode (body ch2)); by rewrite Eb2).
    destruct (IH st2 (cptr l) c ch2 HG2 Hc2) as (st'&E'&HG'&EB'&EC').
    { rewrite Em2, Em1. left. } { rewrite Em2, Em1, Em. simpl in Hf. lia. }
    exists st'. split; [exact E'|]. split; [done|]. rewrite Emd2 in EB', EC'. rewrite EB', EC', EB2, EC2, EC.
    rewrite insert_insert_eq, delete_insert_eq, Eb2. split; [done|]. unfold purged.
    destruct (has (mode ch) MODE_REGCHAN); [exact Hdrop|].
    change (uninvite c <$> ?m) with (uninvite c <$> m).
    rewrite (map_fmap_compose (drop_channel c) (uninvite c)), Hdrop. by rewrite <- map_fmap_compose.
Qed.

(** remove_user_from_channel() *)
Lemma remove_user_spec st u c ch x :
  Good None st -> chans st !! c = Some ch -> clients st !! u = Some x -> u ∈ cptr <$> members ch ->
  let reg := has (mode ch) MODE_REGCHAN in
  exists st', remove_user_from_channel st u c = Ok st' /\ Good None st' /\
    if another u (members ch) then
      bodies st' = <[c := drop_member u (body ch)]> (bodies st) /\
      clients st' = <[u := drop_channel c x]> (clients st)
    else
      bodies st' = (if reg then <[c := emptied (body ch)]> (bodies st) else delete c (bodies st)) /\
      clients st' = purged c reg <$> clients st.
Proof.
  intros HGd Hc Hu Hin reg. unfold remove_user_from_channel.
  rewrite (get_chan_Some _ _ _ Hc). cbn [mbind result_bind].
  destruct (another u (members ch)) eqn:Ha.
  2:{ apply remove_loop_all; try done. lia. }
  cbn [remove_loop].
  destruct (unlink_member_spec st u c ch x HGd Hc Hu Hin) as (st1&ch1&E1&HG1&Hc1&Em&Emd&Eb&EB&EC).
  rewrite E1. cbn [mbind result_bind].
  destruct (sub1_spec (Some c) st1 c ch1 HG1 Hc1 (or_introl eq_refl)) as (st2&E2&HG2&EB2&EC2).
  assert (Hne : empty_free ch1 = false).
  { unfold empty_free. rewrite bool_decide_false; [done|]. rewrite Em. intros E.
    apply existsb_exists in Ha as (l&Hl&Hlive). apply negb_true_iff, orb_false_iff in Hlive as [_ Hne].
    apply bool_decide_eq_false in Hne. apply list_elem_of_In in Hl.
    assert (Hl' : cptr l ∈ cptr <$> unlink cptr u (members ch)).
    { apply unlink_elem; [|split; [by apply list_elem_of_fmap_2|done]].
      apply (members_nodup _ _ _ (proj1 HGd) c (body ch)). by apply bodies_lookup. }
    rewrite E in Hl'. by apply elem_of_nil in Hl'. }
  rewrite Hne in EB2, EC2. exists st2. split; [done|]. split; [done|].
  rewrite EB2, EB, insert_insert_eq, Eb, EC2. done.
Qed.

End leaving.

(** * The operations keep the invariant *)

Section operations_invariant.
Context {T : Type} `{NT : NameTable T}.
Implicit Types st : state (T := T).

(** Live, but for a channel that was just created *)
Definition Live_but (e : option nat) (b : gmap nat aChannel) : Prop := forall c ch,
  b !! c = Some ch -> e <> Some c ->
  match members ch with
  | [] => has (mode ch) MODE_REGCHAN = true
  | _ => existsb live (members ch) = true
  end.

Definition Inv_but (e : option nat) st : Prop := Good None st /\ Live_but e (bodies st).
Abbreviation Inv := (Inv_but None).

(** Clients keep their identity, and no channel appears. *)
Definition who (x : aClient) := (cname x, my x, may x).
Definition shrinks st st' : Prop :=
  who <$> clients st' = who <$> clients st /\ names st' ⊆ names st.

Lemma names_bodies st : names st = chname <$> bodies st.
Proof. unfold names, bodies. rewrite <- map_fmap_compose. by apply map_fmap_ext. Qed.

Lemma names_insert st st' c b b' :
  bodies st' = <[c := b']> (bodies st) -> bodies st !! c = Some b -> chname b' = chname b ->
  names st' = names st.
Proof.
  intros EB Hb Hn. rewrite !names_bodies, EB, fmap_insert, Hn. apply insert_id. by rewrite lookup_fmap, Hb.
Qed.

Lemma names_delete st st' c : bodies st' = delete c (bodies st) -> names st' = delete c (names st).
Proof. intros EB. by rewrite !names_bodies, EB, fmap_delete. Qed.

Lemma shrinks_refl st : shrinks st st.
Proof. done. Qed.

Lemma shrinks_trans st1 st2 st3 : shrinks st1 st2 -> shrinks st2 st3 -> shrinks st1 st3.
Proof. intros [H1 H2] [H3 H4]. split; [congruence|]. by etrans. Qed.

Lemma who_fmap (f : aClient -> aClient) (cl : gmap nat aClient) :
  (forall x, who (f x) = who x) -> who <$> (f <$> cl) = who <$> cl.
Proof. intros H. rewrite <- map_fmap_compose. apply map_fmap_ext. intros u x _. apply H. Qed.

Lemma who_insert (cl : gmap nat aClient) u x x' :
  cl !! u = Some x -> who x' = who x -> who <$> <[u := x']> cl = who <$> cl.
Proof. intros Hu H. rewrite fmap_insert, H. apply insert_id. by rewrite lookup_fmap, Hu. Qed.

Lemma who_client st st' u x :
  shrinks st st' -> clients st !! u = Some x ->
  exists x', clients st' !! u = Some x' /\ cname x' = cname x /\ my x' = my x /\ may x' = may x.
Proof.
  intros [H _] Hu. assert (E := f_equal (fun m => m !! u) H). cbv beta in E.
  rewrite !lookup_fmap, Hu in E. destruct (clients st' !! u) as [x'|]; [|done].
  injection E as ???. by exists x'.
Qed.

Lemma another_live u lp :
  NoDup (cptr <$> lp) -> another u lp = true -> existsb live (unlink cptr u lp) = true.
Proof.
  intros Hnd Ha. apply existsb_exists in Ha as (l&Hl&Hlive).
  apply negb_true_iff, orb_false_iff in Hlive as [Hz Hne]. apply bool_decide_eq_false in Hne.
  apply existsb_exists. exists l. split; [|unfold live; by rewrite Hz].
  apply list_elem_of_In. apply list_elem_of_In in Hl.
  destruct (decide (u ∈ cptr <$> lp)) as [Hu|Hu]; [|by rewrite unlink_outside].
  destruct (unlink_split cptr u lp Hnd Hu) as (l1&y&l2&->&Ey&->). set_solver.
Qed.

Lemma Live_insert e b c ch :
  Live_but e b -> 
  match members ch with
  | [] => has (mode ch) MODE_REGCHAN = true
  | _ => existsb live (members ch) = true
  end -> Live_but (if decide (e = Some c) then None else e) (<[c := ch]> b).
Proof.
  intros HL Hch k chk. destruct (decide (k = c)) as [->|Hne].
  - rewrite lookup_insert_eq. by intros [= <-] _.
  - rewrite lookup_insert_ne by done. intros Hk He. apply (HL k chk Hk). destruct (decide (e = Some c)); congruence.
Qed.

Lemma Live_delete e b c : Live_but e b -> Live_but (if decide (e = Some c) then None else e) (delete c b).
Proof.
  intros HL k chk [Hne Hk]%lookup_delete_Some He. apply (HL k chk Hk).
  destruct (decide (e = Some c)); congruence.
Qed.

Lemma remove_user_inv e st u c ch x :
  Inv_but e st -> chans st !! c = Some ch -> clients st !! u = Some x -> u ∈ cptr <$> members ch ->
  exists st', remove_user_from_channel st u c = Ok st' /\
    Inv_but (if decide (e = Some c) then None else e) st' /\ shrinks st st' /\
    exists x', clients st' !! u = Some x' /\ uchannel x' = unlink id c (uchannel x).
Proof.
  intros [HG HL] Hc Hu Hin.
  destruct (remove_user_spec st u c ch x HG Hc Hu Hin) as (st'&E&HG'&Heff).
  exists st'. split; [done|]. assert (Hb := bodies_lookup _ _ _ Hc).
  destruct (another u (members ch)) eqn:Ha; destruct Heff as [EB EC].
  - split; [split; [done|]|split; [split|]].
    + rewrite EB. apply Live_insert; [done|]. simpl.
      assert (HX := another_live u _ (members_nodup _ _ _ (proj1 HG) c _ Hb) Ha). simpl in HX.
      by destruct (unlink cptr u (members ch)).
    + rewrite EC. by apply (who_insert _ u x).
    + by rewrite (names_insert st st' c _ _ EB Hb).
    + exists (drop_channel c x). rewrite EC. split; [apply lookup_insert_eq|done].
  - split; [split; [done|]|split; [split|]].
    + rewrite EB. destruct (has (mode ch) MODE_REGCHAN) eqn:Hr; [by apply Live_insert|by apply Live_delete].
    + rewrite EC. by apply who_fmap; intros; destruct (has _ _).
    + destruct (has _ _); [by rewrite (names_insert st st' c _ _ EB Hb)|].
      rewrite (names_delete st st' c EB). apply delete_subseteq.
    + exists (purged c (has (mode ch) MODE_REGCHAN) x). rewrite EC, lookup_fmap, Hu.
      split; [done|]. unfold purged. by destruct (has _ _).
Qed.

(** The channel of a link in the chain of a client *)
Lemma client_channel st u x c :
  Good None st -> clients st !! u = Some x -> c ∈ uchannel x ->
  exists ch, chans st !! c = Some ch /\ u ∈ cptr <$> members ch.
Proof.
  intros [HG _] Hu Hc. destruct (channel_known _ _ _ HG u x c Hu Hc) as [b Hb].
  destruct (bodies_inv _ _ _ Hb) as (ch&Hch&<-). exists ch. split; [done|].
  by apply (member_sym _ _ _ HG c (body ch) u x Hb Hu).
Qed.

Lemma part_all_inv fuel : forall st u x,
  Inv st -> clients st !! u = Some x -> (length (uchannel x) < fuel)%nat ->
  exists st', part_all fuel st u = Ok st' /\ Inv st' /\ shrinks st st' /\
    exists x', clients st' !! u = Some x' /\ uchannel x' = [].
Proof.
  induction fuel as [|fuel IH]; intros st u x HI Hu Hf; [lia|]. cbn [part_all].
  rewrite (get_client_Some _ _ _ Hu). cbn [mbind result_bind].
  destruct (uchannel x) as [|c cs] eqn:Ec.
  { exists st. split; [done|]. split; [done|]. split; [apply shrinks_refl|]. by exists x. }
  destruct (client_channel st u x c (proj1 HI) Hu) as (ch&Hc&Hin); [rewrite Ec; left|].
  destruct (remove_user_inv None st u c ch x HI Hc Hu Hin) as (st1&E1&HI1&Hsh&x1&Hu1&Ex1).
  rewrite E1. cbn [mbind result_bind]. simpl in HI1. rewrite Ec in Ex1. simpl in Ex1.
  rewrite decide_True in Ex1 by done.
  destruct (IH st1 u x1 HI1 Hu1) as (st'&E'&HI'&Hsh'&Hx'); [rewrite Ex1; simpl in Hf; lia|].
  exists st'. split; [done|]. split; [done|]. split; [by eapply shrinks_trans|done].
Qed.

Lemma Live_same e b c ch ch' :
  Live_but e b -> b !! c = Some ch -> members ch' = members ch -> mode ch' = mode ch ->
  Live_but e (<[c := ch']> b).
Proof.
  intros HL Hc Hm Hmd k chk. destruct (decide (k = c)) as [->|Hne].
  - rewrite lookup_insert_eq. intros [= <-] He. rewrite Hm, Hmd. by apply (HL c).
  - rewrite lookup_insert_ne by done. apply HL.
Qed.

Lemma del_invite_inv e st u c ch x :
  Inv_but e st -> chans st !! c = Some ch -> clients st !! u = Some x ->
  exists st', del_invite st u c = Ok st' /\ Inv_but e st' /\ shrinks st st' /\
    clients st' !! u = Some (uninvite c x) /\
    bodies st' = <[c := set_invites (unlink id u (invites ch)) (body ch)]> (bodies st).
Proof.
  intros [HG HL] Hc Hu. destruct (del_invite_spec None st u c ch x HG Hc Hu) as (st'&E&HG'&EB&EC).
  assert (Hb := bodies_lookup _ _ _ Hc).
  exists st'. split; [done|]. split; [split; [done|]|split; [split|split; [|done]]].
  - rewrite EB. by apply (Live_same e _ c (body ch)).
  - rewrite EC. by apply (who_insert _ u x).
  - by rewrite (names_insert st st' c _ _ EB Hb).
  - rewrite EC. apply lookup_insert_eq.
Qed.

Lemma invited_channel st u x c :
  Good None st -> clients st !! u = Some x -> c ∈ invited x -> exists ch, chans st !! c = Some ch.
Proof.
  intros [HG _] Hu Hc. destruct (invited_known _ _ _ HG u x c Hu Hc) as [b Hb].
  destruct (bodies_inv _ _ _ Hb) as (ch&Hch&_). by exists ch.
Qed.

Lemma forget_loop_inv fuel : forall st u x,
  Inv st -> clients st !! u = Some x -> (length (invited x) < fuel)%nat ->
  exists st', forget_loop fuel st u = Ok st' /\ Inv st' /\ shrinks st st' /\
    exists x', clients st' !! u = Some x' /\ uchannel x' = uchannel x /\ invited x' = [].
Proof.
  induction fuel as [|fuel IH]; intros st u x HI Hu Hf; [lia|]. cbn [forget_loop].
  rewrite (get_client_Some _ _ _ Hu). cbn [mbind result_bind].
  destruct (invited x) as [|c cs] eqn:Ec.
  { exists st. split; [done|]. split; [done|]. split; [apply shrinks_refl|]. by exists x. }
  destruct (invited_channel st u x c (proj1 HI) Hu) as (ch&Hc); [rewrite Ec; left|].
  destruct (del_invite_inv None st u c ch x HI Hc Hu) as (st1&E1&HI1&Hsh&Hu1&_).
  rewrite E1. cbn [mbind result_bind].
  destruct (IH st1 u _ HI1 Hu1) as (st'&E'&HI'&Hsh'&Hx').
  { unfold uninvite. simpl. rewrite Ec. simpl. rewrite decide_True by done. simpl in Hf. lia. }
  exists st'. split; [done|]. split; [done|]. split; [by eapply shrinks_trans|done].
Qed.

Lemma size_who {A} (f : A -> cstring * bool * rights) (m : gmap nat A) (m' : gmap nat aClient) :
  f <$> m = who <$> m' -> size m = size m'.
Proof. intros H. rewrite <- (map_size_fmap f m), H. apply map_size_fmap. Qed.

Lemma exit_inv st u x :
  Inv st -> clients st !! u = Some x -> exists st', exit_one_client st u = Ok st' /\ Inv st'.
Proof.
  intros HI Hu. unfold exit_one_client. rewrite (get_client_Some _ _ _ Hu). cbn [mbind result_bind].
  destruct (part_all_inv (S (length (uchannel x))) st u x HI Hu) as (st1&E1&HI1&Hsh&x1&Hu1&Ex1); [lia|].
  rewrite E1. cbn [mbind result_bind]. rewrite (get_client_Some _ _ _ Hu1). cbn [mbind result_bind].
  assert (K : exists st2 x2, (if my x1 then forget_loop (S (length (invited x1))) st1 u else Ok st1) = Ok st2 /\
    Inv st2 /\ clients st2 !! u = Some x2 /\ uchannel x2 = [] /\ invited x2 = []).
  { destruct (my x1) eqn:Em.
    - destruct (forget_loop_inv (S (length (invited x1))) st1 u x1 HI1 Hu1)
        as (st2&E2&HI2&_&x2&Hu2&Ec2&Ei2); [lia|]. exists st2, x2. rewrite Ec2. done.
    - exists st1, x1. split_and!; try done. by apply (g_max _ _ _ (proj1 (proj1 HI1)) u x1 Hu1). }
  destruct K as (st2&x2&E2&[[HG2 HD2] HL2]&Hu2&Ec2&Ei2). rewrite E2. cbn [mbind result_bind].
  eexists. split; [done|]. split; [split|done]; [|by apply (Dir_frame st2)].
  assert (Hlook : forall A (f : aClient -> list A), f x2 = [] -> forall v,
    from_option f [] (delete u (clients st2) !! v) = from_option f [] (clients st2 !! v)).
  { intros A f Hf v. destruct (decide (v = u)) as [->|]; [by rewrite lookup_delete_eq, Hu2|].
    by rewrite lookup_delete_ne. }
  apply (Graph_clients _ (clients st2)); [done| |by apply Hlook..|].
  - simpl. rewrite map_size_delete, Hu2. assert (H := g_clients _ _ _ HG2). lia.
  - intros v y Hv. simpl in Hv. apply lookup_delete_Some in Hv as [_ Hv]. by left.
Qed.

Definition make_room (l : list nat) : list nat :=
  if decide (MAXCHANNELSPERUSER <= length l)%nat then drop 1 l else l.

(** A local client is invited; the oldest invitation makes room. *)
Lemma add_invite_inv st u c ch x :
  Inv st -> chans st !! c = Some ch -> clients st !! u = Some x -> my x = true ->
  exists st' x', add_invite st u c = Ok st' /\ Inv st' /\ clients st' !! u = Some x' /\
    invited x' = make_room (unlink id c (invited x)) ++ [c].
Proof.
  intros HI Hc Hu Hmy. unfold add_invite.
  destruct (del_invite_inv None st u c ch x HI Hc Hu) as (st1&E1&HI1&Hsh1&Hu1&EB1).
  rewrite E1. cbn [mbind result_bind]. rewrite (get_client_Some _ _ _ Hu1). cbn [mbind result_bind].
  set (l := unlink id c (invited x)). change (invited (uninvite c x)) with l.
  assert (Hnd : NoDup l).
  { unfold l. rewrite <- (list_fmap_id (unlink id c (invited x))). apply unlink_NoDup. rewrite list_fmap_id.
    by apply (invited_nodup _ _ _ (proj1 (proj1 HI)) u). }
  assert (Hcl : (c ∉ l)).
  { unfold l. rewrite <- (list_fmap_id (unlink id c (invited x))).
    rewrite unlink_elem; [by intros [_ []]|]. rewrite list_fmap_id.
    by apply (invited_nodup _ _ _ (proj1 (proj1 HI)) u). }
  assert (Hlen : (length l <= MAXCHANNELSPERUSER)%nat) by (apply (g_max _ _ _ (proj1 (proj1 HI1)) u _ Hu1)).
  assert (K : exists st2 x2, (if decide (MAXCHANNELSPERUSER <= length l)%nat then
      match l with c0 :: _ => del_invite st1 u c0 | [] => Ub end else Ok st1) = Ok st2 /\
    Inv st2 /\ shrinks st1 st2 /\ clients st2 !! u = Some x2 /\
    is_Some (chans st2 !! c) /\ my x2 = true /\ uchannel x2 = uchannel x /\
    invited x2 = make_room l /\ (length (invited x2) < MAXCHANNELSPERUSER)%nat).
  { unfold make_room. assert (Hb1 : is_Some (bodies st1 !! c)) by (rewrite EB1; rewrite lookup_insert_eq; by eexists).
    destruct Hb1 as [b1 Hb1]. destruct (bodies_inv _ _ _ Hb1) as (ch1&Hc1&_).
    destruct (decide (MAXCHANNELSPERUSER <= length l)%nat) as [Hge|Hlt].
    - destruct l as [|c0 l'] eqn:El; [unfold MAXCHANNELSPERUSER in Hge; simpl in Hge; lia|].
      destruct (invited_channel st1 u _ c0 (proj1 HI1) Hu1) as (ch0&Hc0).
      { unfold uninvite. simpl. fold l. rewrite El. left. }
      destruct (del_invite_inv None st1 u c0 ch0 _ HI1 Hc0 Hu1) as (st2&E2&HI2&Hsh2&Hu2&EB2).
      exists st2, (uninvite c0 (uninvite c x)). split; [done|]. split; [done|]. split; [done|]. split; [done|].
      assert (Hinv : invited (uninvite c0 (uninvite c x)) = l').
      { unfold uninvite. simpl. fold l. rewrite El. simpl. by rewrite decide_True. }
      split.
      + apply not_eq_None_Some. intros Hn. assert (Hb2 : bodies st2 !! c = None).
        { unfold bodies. by rewrite lookup_fmap, Hn. }
        rewrite EB2 in Hb2. destruct (decide (c0 = c)) as [->|]; [by rewrite lookup_insert_eq in Hb2|].
        rewrite lookup_insert_ne, Hb1 in Hb2 by done. done.
      + split; [done|]. split; [done|]. rewrite Hinv. split; [done|]. simpl in Hlen. lia.
    - exists st1, (uninvite c x). split; [done|]. split; [done|]. split; [done|]. split; [done|].
      split; [by eexists|]. split; [done|]. split; [done|]. split; [done|]. fold l. simpl. fold l. lia. }
  destruct K as (st2&x2&E2&[[HG2 HD2] HL2]&_&Hu2&[ch2 Hc2]&Hmy2&_&Ei2&Hlen2).
  rewrite E2. cbn [mbind result_bind].
  rewrite (get_chan_Some _ _ _ Hc2), (get_client_Some _ _ _ Hu2). cbn [mbind result_bind].
  assert (Hb2 := bodies_lookup _ _ _ Hc2).
  assert (Hnin : (u ∉ invites ch2)).
  { change (invites ch2) with (invites (body ch2)). rewrite (invite_sym _ _ _ HG2 c _ u x2 Hb2 Hu2), Ei2.
    unfold make_room. destruct (decide (MAXCHANNELSPERUSER <= length l)%nat); [|done].
    destruct l; [done|]. simpl. set_solver. }
  eexists _, _. split; [done|]. split; [split; [split|]|split; [apply lookup_insert_eq|]].
  - change (bodies (put_client u ?y ?s)) with (bodies s). rewrite bodies_put.
    by apply (Graph_invite _ _ c (body ch2) u x2 HG2 Hb2 Hu2 Hmy2).
  - apply Dir_put_client. by apply (Dir_put _ c ch2).
  - change (bodies (put_client u ?y ?s)) with (bodies s). rewrite bodies_put.
    by apply (Live_same None _ c (body ch2)).
  - simpl. by rewrite Ei2.
Qed.

End operations_invariant.

(** * Finding, creating, joining *)

Section joining.
Context {T : Type} `{NT : NameTable T}.
Implicit Types st : state (T := T).

Lemma Dir_htab st t : Dir st -> nt_rep t (names st) -> Dir (set_htab t st).
Proof. intros [H1 H2 H3 H4] Ht. by split. Qed.

(** A search only reorders the table. *)
Lemma find_spec e st nm :
  Inv_but e st -> name_ok nm ->
  exists t o, nt_find (htab st) nm = Ok (t, o) /\ Inv_but e (set_htab t st) /\
    match o with
    | Some c => exists ch, chans st !! c = Some ch /\ case_equiv nm (chname ch)
    | None => forall c ch, chans st !! c = Some ch -> ~ case_equiv nm (chname ch)
    end.
Proof.
  intros [[HG HD] HL] Hnm.
  destruct (nt_find_spec (htab st) (names st) nm (d_names _ HD) Hnm) as (t&o&E&Ht&Ho).
  exists t, o. split; [done|]. split; [split; [split; [done|by apply Dir_htab]|done]|].
  unfold names in Ho. destruct o as [c|].
  - destruct Ho as (nm'&Hc&Hce). apply lookup_fmap_Some in Hc as (ch&<-&Hc). by exists ch.
  - intros c ch Hc. apply (Ho c). by rewrite lookup_fmap, Hc.
Qed.

Definition cut (mio : bool) (nm : cstring) : cstring := if mio then take CHANNELLEN nm else nm.

Lemma take_name_ok n nm : (0 < n)%nat -> name_ok nm -> name_ok (take n nm).
Proof.
  intros Hn [Hc Hne]. split; [|destruct nm, n; by (done || lia)].
  rewrite <- (take_drop n nm) in Hc. by apply is_cstr_app in Hc as [].
Qed.

Lemma cut_name_ok mio nm : name_ok nm -> name_ok (cut mio nm).
Proof. intros. destruct mio; [|done]. apply take_name_ok; [unfold CHANNELLEN; lia|done]. Qed.

(** The block of a new channel *)
Definition fresh_block (nm : cstring) (creation : Z) : aChannel :=
  mkChannel nm None None 0 0 None None creation 0 [] [] [].

Lemma new_channel_spec st p nm creation :
  Inv_but None st -> chans st !! p = None -> name_ok nm -> Z.of_nat (size (chans st)) < 2 ^ 32 - 1 ->
  (forall c ch, chans st !! c = Some ch -> ~ case_equiv nm (chname ch)) ->
  exists st', new_channel st p nm creation = Ok st' /\ Inv_but (Some p) st' /\
    clients st' = clients st /\ bodies st' = <[p := fresh_block nm creation]> (bodies st).
Proof.
  intros [[HG HD] HL] Hp Hnm Hsize Hnone. unfold new_channel.
  destruct HD as [(l&Hl&Hnd&Hdom&Hn) Hnames Hv Hu].
  assert (Hpl : (p ∉ l)) by (rewrite Hdom, Hp; by intros []).
  assert (K : exists st1, match channel st with
       | Some h => ch ← get_chan st h; Ok (put_chan h (set_prevch (Some p) ch) st)
       | None => Ok st end = Ok st1 /\
    dlist (chans st1) (Some p) (channel st) l None /\ relinked st st1 /\ channel st1 = channel st).
  { destruct l as [|h l].
    - simpl in Hl. rewrite Hl. by exists st.
    - assert (Hh := dlist_head _ _ _ _ _ _ Hl). rewrite Hh in *.
      destruct (proj1 (Hdom h)) as [ch Hch]; [left|].
      rewrite (get_chan_Some _ _ _ Hch). apply NoDup_cons in Hnd as [Hhn Hnd].
      eexists. split; [done|]. split; [by apply (dlist_set_prev _ None)|].
      split; [by apply (relinked_put _ _ ch)|done]. }
  destruct K as (st1&E1&D1&[Hdom1 Ecl Eb En Et Enr]&Ech).
  rewrite E1. cbn [mbind result_bind]. rewrite Et, Ech, Enr.
  destruct (nt_add_spec (htab st) (names st) p nm Hnames) as (t&E2&Hrep); [unfold names; by rewrite lookup_fmap, Hp|done|].
  rewrite E2. cbn [mbind result_bind]. eexists. split; [done|].
  set (blk := mkChannel nm (channel st) None 0 0 None None creation 0 [] [] []).
  assert (EB : fmap body (<[p := blk]> (chans st1)) = <[p := fresh_block nm creation]> (bodies st)).
  { rewrite fmap_insert. change (body <$> chans st1) with (bodies st1). by rewrite Eb. }
  assert (EN : fmap chname (<[p := blk]> (chans st1)) = <[p := nm]> (names st)).
  { rewrite fmap_insert. change (chname <$> chans st1) with (names st1). by rewrite En. }
  split; [split; [split|]|].
  - unfold bodies. simpl. rewrite EB, Ecl. apply Graph_new; try done.
    + unfold bodies. by rewrite lookup_fmap, Hp.
    + unfold bodies. by rewrite map_size_fmap.
  - split; unfold names; simpl; rewrite ?EN.
    + exists (p :: l). split; [|split; [by apply NoDup_cons|split]].
      * split; [done|]. exists blk. rewrite lookup_insert_eq. split_and!; try done.
        by apply dlist_insert.
      * intros x. rewrite elem_of_cons. destruct (decide (x = p)) as [->|Hne].
        { rewrite lookup_insert_eq. split; [by eexists|by left]. }
        rewrite lookup_insert_ne, Hdom1, Hdom by done. naive_solver.
      * rewrite Hn. simpl. lia.
    + done.
    + intros x nm'. destruct (decide (x = p)) as [->|Hne]; [rewrite lookup_insert_eq; by intros [= <-]|].
      rewrite lookup_insert_ne by done. apply Hv.
    + assert (Hfresh : forall y nm', names st !! y = Some nm' -> ~ case_equiv nm nm').
      { intros y nm' Hy. unfold names in Hy. apply lookup_fmap_Some in Hy as (ch&<-&Hy). by apply (Hnone y). }
      intros x y nmx nmy. destruct (decide (x = p)) as [->|Hx], (decide (y = p)) as [->|Hy];
        rewrite ?lookup_insert_eq, ?lookup_insert_ne by done; [done| | |apply Hu].
      * intros [= <-] Hy' Hce. by destruct (Hfresh y nmy Hy').
      * intros Hx' [= <-] Hce. by destruct (Hfresh x nmx Hx').
  - unfold bodies. simpl. rewrite EB. intros k ch. destruct (decide (k = p)) as [->|Hne]; [done|].
    rewrite lookup_insert_ne by done. intros Hk _. by apply (HL k ch).
  - split; [done|]. unfold bodies. simpl. by rewrite EB.
Qed.

(** get_channel(..., CREATE): the channel of that name, which is [c] afterwards;
    the new one is still empty. *)
Lemma get_channel_create st mio nm now p :
  Inv_but None st -> chans st !! p = None -> name_ok nm -> Z.of_nat (size (chans st)) < 2 ^ 32 - 1 ->
  exists st' c ch e, get_channel st mio nm now (Some p) = Ok (st', Some c) /\ Inv_but e st' /\
    clients st' = clients st /\ chans st' !! c = Some ch /\ case_equiv (cut mio nm) (chname ch) /\
    ((e = None /\ bodies st' = bodies st) \/
     (c = p /\ e = Some p /\ body ch = fresh_block (cut mio nm) (if mio then now else 0) /\
      bodies st' = <[p := body ch]> (bodies st))).
Proof.
  intros HI Hp Hnm Hs. unfold get_channel. rewrite decide_False by apply Hnm.
  destruct (find_spec None st (cut mio nm) HI (cut_name_ok mio nm Hnm)) as (t&o&E&HI1&Ho).
  change (if mio then take CHANNELLEN nm else nm) with (cut mio nm). cbv zeta.
  rewrite E. cbn [mbind result_bind]. destruct o as [c|].
  - destruct Ho as (ch&Hc&Hce). exists (set_htab t st), c, ch, None. split_and!; try done. by left.
  - destruct (new_channel_spec (set_htab t st) p _ (if mio then now else 0) HI1 Hp (cut_name_ok mio nm Hnm) Hs Ho)
      as (st2&E2&HI2&EC2&EB2). rewrite E2. cbn [mbind result_bind].
    assert (Hb : bodies st2 !! p = Some (fresh_block (cut mio nm) (if mio then now else 0)))
      by (rewrite EB2; apply lookup_insert_eq).
    destruct (bodies_inv _ _ _ Hb) as (ch&Hc&Eb).
    exists st2, p, ch, (Some p). split; [done|]. split; [done|]. split; [done|]. split; [done|].
    split; [change (chname ch) with (chname (body ch)); by rewrite Eb|].
    right. rewrite Eb. done.
Qed.

(** get_channel(..., !CREATE) *)
Lemma get_channel_find st mio nm now :
  Inv_but None st -> is_cstr nm ->
  exists st' o, get_channel st mio nm now None = Ok (st', o) /\ Inv_but None st' /\
    clients st' = clients st /\ chans st' = chans st /\
    match o with
    | Some c => exists ch, chans st !! c = Some ch /\ case_equiv (cut mio nm) (chname ch)
    | None => forall c ch, chans st !! c = Some ch -> ~ case_equiv (cut mio nm) (chname ch)
    end.
Proof.
  intros HI Hnm. unfold get_channel. destruct (decide (nm = [])) as [->|Hne].
  { exists st, None. split_and!; try done. intros c ch Hc Hce.
    assert (Hv : name_ok (chname ch)).
    { apply (d_valid st (proj2 (proj1 HI)) c). unfold names. by rewrite lookup_fmap, Hc. }
    destruct Hv as [_ Hv]. apply case_equiv_length in Hce. unfold cut in Hce.
    destruct (chname ch); [done|]. by destruct mio. }
  assert (Hok : name_ok nm) by done.
  destruct (find_spec None st (cut mio nm) HI (cut_name_ok mio nm Hok)) as (t&o&E&HI1&Ho).
  change (if mio then take CHANNELLEN nm else nm) with (cut mio nm). cbv zeta.
  rewrite decide_False, E by done. cbn [mbind result_bind]. exists (set_htab t st), o. split; [by destruct o|]. done.
Qed.

Lemma channel_exists_spec st nm :
  Inv_but None st -> name_ok nm ->
  exists st' b, ChannelExists st nm = Ok (st', b) /\ Inv_but None st' /\
    clients st' = clients st /\ chans st' = chans st.
Proof.
  intros HI Hnm. unfold ChannelExists. destruct (find_spec None st nm HI Hnm) as (t&o&E&HI1&_).
  rewrite E. eexists _, _. done.
Qed.

Lemma local_flags_spec st nm redir :
  Inv_but None st -> name_ok nm ->
  exists st' f nm', local_flags st nm redir = Ok (st', f, nm') /\ Inv_but None st' /\
    clients st' = clients st /\ chans st' = chans st /\ name_ok nm' /\ (f = CHFL_DEOPPED \/ f = CHFL_CHANOP).
Proof.
  intros HI Hnm. unfold local_flags.
  destruct (channel_exists_spec st nm HI Hnm) as (st1&b&E&HI1&EC1&EB1). rewrite E. cbn [mbind result_bind].
  assert (Hf : forall n, (if IsModelessChannel n then CHFL_DEOPPED else CHFL_CHANOP) = CHFL_DEOPPED \/
    (if IsModelessChannel n then CHFL_DEOPPED else CHFL_CHANOP) = CHFL_CHANOP).
  { intros n. destruct (IsModelessChannel n); auto. }
  destruct b; [eexists _, _, _; split; [done|]; auto 10|].
  destruct (decide (CHANNELLEN < length nm)%nat); [|eexists _, _, _; split; [done|]; auto 10].
  set (nm' := if redir then nm else take CHANNELLEN nm).
  assert (Hok : name_ok nm') by (unfold nm'; destruct redir; [done|by apply (cut_name_ok true)]).
  destruct (channel_exists_spec st1 nm' HI1 Hok) as (st2&b&E2&HI2&EC2&EB2).
  rewrite E2. cbn [mbind result_bind]. eexists _, _, _. split; [done|]. rewrite EC2, EB2.
  split_and!; try done. destruct b; auto.
Qed.

Lemma skip_key_shorter s : s <> [] -> (length (skip_key s) < length s)%nat.
Proof.
  induction s as [|c s IH]; [done|]. intros _. simpl. destruct (decide (c = ","%char)); [lia|].
  destruct s as [|d s]; [simpl; lia|]. assert (Hn : d :: s <> []) by done. specialize (IH Hn). lia.
Qed.

Lemma walk_shorter k s : (length (snd (walk k s)) <= length s)%nat.
Proof.
  revert s. induction k as [|c k IH]; intros [|d s]; simpl; try lia.
  destruct (decide (c = d)); [|simpl; lia]. specialize (IH s). lia.
Qed.

(** compall() ends for all keys. *)
Lemma compall_total k ring : exists z, compall k ring = Ok z.
Proof.
  unfold compall. assert (K : forall fuel r, (length r < fuel)%nat -> exists z, compall_loop fuel k r = Ok z).
  { induction fuel as [|fuel IH]; intros r Hr; [lia|]. cbn [compall_loop].
    assert (Hw := walk_shorter k r). destruct (walk k r) as [p1 r']. simpl in Hw.
    destruct (decide _); [by exists 0|]. destruct (decide (chr r' = NUL)) as [|Hn]; [by exists 1|].
    apply IH. assert (Hne : r' <> []) by (intros ->; done). assert (H := skip_key_shorter r' Hne). lia. }
  apply K. lia.
Qed.

Lemma can_join_total cl c ch bm akey : exists i, can_join cl c ch bm akey = Ok i.
Proof.
  unfold can_join. destruct (compall_total (str "OWNER") (default [] akey)) as [z1 ->].
  destruct (compall_total (str "OVERRIDE") (default [] akey)) as [z2 ->]. cbn [mbind result_bind].
  destruct (key ch) as [k|].
  - destruct (compall_total k (default [] akey)) as [z3 ->]. cbn [mbind result_bind].
    repeat (match goal with |- exists i, (if ?b then _ else _) = _ => destruct b end); by eexists.
  - repeat (match goal with |- exists i, (if ?b then _ else _) = _ => destruct b end); by eexists.
Qed.

Lemma add_user_inv e st u c ch x fl :
  Inv_but e st -> chans st !! c = Some ch -> clients st !! u = Some x -> (u ∉ cptr <$> members ch) ->
  has fl CHFL_ZOMBIE = false -> (e = None \/ e = Some c) ->
  exists st', add_user_to_channel st c u fl = Ok st' /\ Inv_but None st' /\
    bodies st' = <[c := set_members (u32 (users ch + 1)) (mkLink u fl :: members ch) (body ch)]> (bodies st) /\
    clients st' = <[u := set_channels (u32 (joined x + 1)) (c :: uchannel x) x]> (clients st).
Proof.
  intros [[HG HD] HL] Hc Hu Hin Hfl He. unfold add_user_to_channel.
  rewrite (get_chan_Some _ _ _ Hc), (get_client_Some _ _ _ Hu). cbn [mbind result_bind].
  assert (Hb := bodies_lookup _ _ _ Hc). eexists. split; [done|].
  assert (EB : forall y ch', bodies (put_client u y (put_chan c ch' st)) = <[c := body ch']> (bodies st))
    by (intros; apply bodies_put).
  split; [split; [split|]|split; [apply EB|done]].
  - rewrite EB. by apply (Graph_link _ _ c (body ch) u x).
  - apply Dir_put_client. by apply (Dir_put _ c ch).
  - rewrite EB. assert (K := Live_insert e (bodies st) c (body (set_members (u32 (users ch + 1))
      (mkLink u fl :: members ch) ch)) HL). simpl in K. unfold live at 1 in K. simpl in K.
    rewrite Hfl in K. specialize (K eq_refl).
    destruct He as [->| ->]; [done|by rewrite decide_True in K].
Qed.

End joining.

Section entering.
Context {T : Type} `{NT : NameTable T}.
Implicit Types st : state (T := T).

Definition blank (ch : aChannel) : Prop :=
  members ch = [] /\ mode ch = 0 /\ limit ch = 0 /\ key ch = None /\ banlist ch = [].

Lemma has_0 m : has 0 m = false.
Proof. unfold has. rewrite Z.land_0_l. apply bool_decide_false. tauto. Qed.

(** Nobody is refused on a channel that was just created. *)
Lemma can_join_blank cl c ch bm akey : blank ch -> can_join cl c ch bm akey = Ok 0.
Proof.
  intros (_&Hm&Hl&Hk&Hb). unfold can_join, is_banned. rewrite Hm, Hl, Hk, Hb, !has_0.
  destruct (compall_total (str "OWNER") (default [] akey)) as [z1 ->].
  destruct (compall_total (str "OVERRIDE") (default [] akey)) as [z2 ->]. cbn [mbind result_bind].
  rewrite (bool_decide_false (0 <> 0)) by tauto. cbn [andb orb existsb]. rewrite andb_false_r. cbn [andb].
  by destruct (services_bot (may cl)).
Qed.

Lemma settle_ts_same ch ts :
  exists t, (settle_ts ch ts).1 = set_creation t ch.
Proof.
  assert (E : forall ch', (exists t, ch' = set_creation t ch) ->
    (match ts with
     | Some t => if decide (creationtime ch' = MAGIC_REMOTE_JOIN_TS) then (set_creation t ch', Some t)
                 else (ch', None)
     | None => (ch', None) end).1 = set_creation (match ts with
     | Some t => if decide (creationtime ch' = MAGIC_REMOTE_JOIN_TS) then t else creationtime ch'
     | None => creationtime ch' end) ch).
  { intros ch' [t ->]. destruct ts as [t'|]; [|done]. by destruct (decide _). }
  unfold settle_ts. eexists. apply E. destruct (decide (creationtime ch = 0)); [by eexists|].
  exists (creationtime ch). by destruct ch.
Qed.

Lemma zombie_lor f : has f CHFL_ZOMBIE = false -> has (Z.lor f CHFL_SERVOPOK) CHFL_ZOMBIE = false.
Proof.
  unfold has. rewrite !bool_decide_eq_false, Z.land_lor_distr_l.
  change (Z.land CHFL_SERVOPOK CHFL_ZOMBIE) with 0. by rewrite Z.lor_0_r.
Qed.

Lemma zombie_land f : has (Z.land f (Z.lor CHFL_DEOPPED CHFL_SERVOPOK)) CHFL_ZOMBIE = false.
Proof.
  unfold has. rewrite bool_decide_eq_false, <- Z.land_assoc.
  change (Z.land (Z.lor CHFL_DEOPPED CHFL_SERVOPOK) CHFL_ZOMBIE) with 0. rewrite Z.land_0_r. by intros [].
Qed.

Lemma complete_inv e st u c ch x mine fl :
  Inv_but e st -> chans st !! c = Some ch -> clients st !! u = Some x -> (u ∉ cptr <$> members ch) ->
  has fl CHFL_ZOMBIE = false -> (e = None \/ e = Some c) ->
  exists st', complete st u c mine fl = Ok st' /\ Inv_but None st' /\ shrinks st st' /\
    exists ch', bodies st' !! c = Some ch' /\ members ch' = mkLink u fl :: members ch.
Proof.
  intros HI Hc Hu Hin Hfl He. unfold complete.
  destruct (add_user_inv e st u c ch x fl HI Hc Hu Hin Hfl He) as (st1&E1&HI1&EB1&EC1).
  rewrite E1. cbn [mbind result_bind]. assert (Hb := bodies_lookup _ _ _ Hc).
  assert (Hsh : shrinks st st1).
  { split; [rewrite EC1; by apply (who_insert _ u x)|]. by rewrite (names_insert st st1 c _ _ EB1 Hb). }
  assert (Hb1 : bodies st1 !! c = Some (set_members (u32 (users ch + 1)) (mkLink u fl :: members ch) (body ch)))
    by (rewrite EB1; apply lookup_insert_eq).
  destruct mine; [|exists st1; split; [done|]; split; [done|]; split; [done|]; by eexists].
  destruct (bodies_inv _ _ _ Hb1) as (ch1&Hc1&Eb1).
  assert (Hu1 : is_Some (clients st1 !! u)) by (rewrite EC1, lookup_insert_eq; by eexists). destruct Hu1 as [x1 Hu1].
  destruct (del_invite_inv None st1 u c ch1 x1 HI1 Hc1 Hu1) as (st2&E2&HI2&Hsh2&_&EB2).
  exists st2. split; [done|]. split; [done|]. split; [by eapply shrinks_trans|].
  rewrite EB2, lookup_insert_eq. eexists. split; [done|].
  change (members (body ch1) = mkLink u fl :: members ch). by rewrite Eb1.
Qed.

Lemma Inv_put_creation e st c ch t :
  Inv_but e st -> chans st !! c = Some ch ->
  Inv_but e (put_chan c (set_creation t ch) st) /\ names (put_chan c (set_creation t ch) st) = names st.
Proof.
  intros [HG HL] Hc. assert (Hb := bodies_lookup _ _ _ Hc).
  assert (EB := bodies_put st c (set_creation t ch)). split; [split|].
  - apply (Good_put None None _ c ch); try done. simpl.
    apply (g_users _ _ _ (proj1 HG) c (body ch) Hb).
  - rewrite EB. by apply (Live_same e _ c (body ch)).
  - by apply (names_insert _ _ c _ _ EB Hb).
Qed.

(** An empty channel, perhaps just created, is dropped unless it is registered. *)
Lemma sub1_inv e st c ch :
  Inv_but e st -> chans st !! c = Some ch -> members ch = [] -> (e = None \/ e = Some c) ->
  exists st', sub1_from_channel st c = Ok st' /\ Inv_but None st' /\ shrinks st st' /\
    clients st' = (if empty_free ch then uninvite c <$> clients st else clients st).
Proof.
  intros [HG HL] Hc Hm He. destruct (sub1_spec None st c ch HG Hc (or_intror (conj eq_refl Hm)))
    as (st'&E&HG'&EB&EC). assert (Hb := bodies_lookup _ _ _ Hc).
  exists st'. split; [done|]. unfold empty_free in *. rewrite Hm, bool_decide_true in * by done.
  cbn [andb] in *. assert (Ee : (if decide (e = Some c) then None else e) = None) by (destruct He as [->| ->]; by case_decide).
  destruct (has (mode ch) MODE_REGCHAN) eqn:Hr; cbn [negb] in *.
  - split; [split; [done|]|split; [split|done]].
    + rewrite EB, <- Ee. apply Live_insert; [done|]. simpl. by rewrite Hm.
    + by rewrite EC.
    + by rewrite (names_insert st st' c _ _ EB Hb).
  - split; [split; [done|]|split; [split|done]].
    + rewrite EB, <- Ee. by apply Live_delete.
    + rewrite EC. by apply who_fmap.
    + rewrite (names_delete st st' c EB). apply delete_subseteq.
Qed.

Lemma enter_channel_inv e st u c ch x a akey v :
  Inv_but e st -> chans st !! c = Some ch -> clients st !! u = Some x -> (u ∉ cptr <$> members ch) ->
  has (jflags v) CHFL_ZOMBIE = false -> (e = None \/ e = Some c /\ blank ch) ->
  exists st' v', enter_channel st u c a akey v = Ok (st', v') /\ Inv_but None st' /\
    has (jflags v') CHFL_ZOMBIE = false /\ shrinks st st'.
Proof.
  intros HI Hc Hu Hin Hfl He. unfold enter_channel.
  rewrite (get_chan_Some _ _ _ Hc), (get_client_Some _ _ _ Hu). cbn [mbind result_bind].
  destruct (settle_ts_same ch (jts v)) as [t Et]. destruct (settle_ts ch (jts v)) as [ch1 ts1].
  simpl in Et. subst ch1. destruct (Inv_put_creation e st c ch t HI Hc) as [HI1 EN1].
  set (st1 := put_chan c (set_creation t ch) st) in *.
  assert (Hc1 : chans st1 !! c = Some (set_creation t ch)) by apply lookup_insert_eq.
  assert (Hu1 : clients st1 !! u = Some x) by done.
  assert (Hsh1 : shrinks st st1) by (split; [done|by rewrite EN1]).
  set (fl := if jzombie v then jflags v else _).
  assert (Hz : has fl CHFL_ZOMBIE = false).
  { unfold fl. destruct (jzombie v); [done|]. destruct (my x), (ts8 (may x)); try done; by apply zombie_lor. }
  assert (He' : e = None \/ e = Some c) by tauto.
  assert (Hdone : forall mine f z ts, has f CHFL_ZOMBIE = false -> exists st' v',
    (st ← complete st1 u c mine f; Ok (st, mkJvars f z ts)) = Ok (st', v') /\ Inv_but None st' /\
    has (jflags v') CHFL_ZOMBIE = false /\ shrinks st st').
  { intros mine f z ts Hf. destruct (complete_inv e st1 u c _ x mine f HI1 Hc1 Hu1 Hin Hf He')
      as (st2&E2&HI2&Hsh2&_). rewrite E2. eexists _, _. split; [done|]. split; [done|]. split; [done|].
    by eapply shrinks_trans. }
  destruct (my x); [|by apply Hdone].
  simpl jflags. simpl jzombie. simpl jts.
  destruct (negb (is_invited x c) && at_over a).
  - simpl users. assert (Hn := g_users _ _ _ (proj1 (proj1 HI)) c _ (bodies_lookup _ _ _ Hc)). simpl in Hn.
    destruct (bool_decide (users ch = 0)) eqn:Hcr.
    + apply bool_decide_eq_true in Hcr. assert (Hm : members ch = []) by (destruct (members ch); [done|simpl in Hn; lia]).
      destruct (sub1_inv e st1 c _ HI1 Hc1 Hm He') as (st2&E2&HI2&Hsh2&_). rewrite E2.
      eexists _, _. split; [done|]. split; [done|]. split; [done|]. by eapply shrinks_trans.
    + apply bool_decide_eq_false in Hcr. eexists _, _. split; [done|].
      destruct He as [->|[-> (Hm&_)]]; [done|]. rewrite Hm in Hn. simpl in Hn. lia.
  - destruct He as [->|[-> Hbl]].
    + destruct (can_join_total x c (set_creation t ch) (at_banned a) akey) as [i Ei]. rewrite Ei.
      cbn [mbind result_bind]. destruct (decide _); [by eexists _, _|].
      apply Hdone. by destruct (_ && _).
    + rewrite can_join_blank by done. cbn [mbind result_bind]. rewrite decide_False by tauto.
      apply Hdone. by destruct (_ && _).
Qed.

Lemma shrinks_size st st' : names st' ⊆ names st -> (size (chans st') <= size (chans st))%nat.
Proof.
  intros H. apply map_subseteq_size in H. unfold names in H. by rewrite !map_size_fmap in H.
Qed.

Lemma names_None st c : names st !! c = None <-> chans st !! c = None.
Proof. unfold names. rewrite lookup_fmap. by destruct (chans st !! c). Qed.

(** A client that is no member of the channel of this name before is none after
    the name was looked up or created. *)
Lemma enter_created st u x mine nm now a akey v :
  Inv_but None st -> clients st !! u = Some x -> name_ok nm ->
  chans st !! at_fresh a = None -> Z.of_nat (size (chans st)) < 2 ^ 32 - 1 ->
  has (jflags v) CHFL_ZOMBIE = false ->
  (forall c ch, chans st !! c = Some ch -> case_equiv (cut mine nm) (chname ch) -> (u ∉ cptr <$> members ch)) ->
  exists st' c st'' v', get_channel st mine nm now (Some (at_fresh a)) = Ok (st', Some c) /\
    enter_channel st' u c a akey v = Ok (st'', v') /\ Inv_but None st'' /\
    has (jflags v') CHFL_ZOMBIE = false /\ who <$> clients st'' = who <$> clients st /\
    (forall k, k <> at_fresh a -> names st !! k = None -> names st'' !! k = None).
Proof.
  intros HI Hu Hnm Hp Hs Hfl Hno.
  destruct (get_channel_create st mine nm now (at_fresh a) HI Hp Hnm Hs) as (st1&c&ch&e&E1&HI1&EC1&Hc1&Hce&Hcase).
  exists st1, c. assert (Hb1 := bodies_lookup _ _ _ Hc1).
  assert (K : (u ∉ cptr <$> members ch) /\ (e = None \/ e = Some c /\ blank ch)).
  { destruct Hcase as [[-> EB]|(->&->&Eb&EB)].
    - split; [|by left]. rewrite EB in Hb1. destruct (bodies_inv _ _ _ Hb1) as (ch0&Hc0&Eb0).
      change (members ch) with (members (body ch)). rewrite <- Eb0. apply (Hno c ch0 Hc0).
      change (chname ch0) with (chname (body ch0)). by rewrite Eb0.
    - assert (Hbl : blank ch) by (change (blank (body ch)); by rewrite Eb).
      split; [|by right]. rewrite (proj1 Hbl). apply not_elem_of_nil. }
  destruct K as [Hin He]. rewrite <- EC1 in Hu.
  destruct (enter_channel_inv e st1 u c ch x a akey v HI1 Hc1 Hu Hin Hfl He) as (st2&v2&E2&HI2&Hz&Hsh).
  exists st2, v2. split; [done|]. split; [done|]. split; [done|]. split; [done|]. split; [rewrite (proj1 Hsh); by rewrite EC1|].
  intros k Hk Hn. apply (lookup_weaken_None _ (names st1)); [|apply Hsh].
  rewrite names_bodies in *. destruct Hcase as [[_ ->]|(->&_&_&->)]; [done|].
  rewrite fmap_insert. by rewrite lookup_insert_ne.
Qed.

Lemma enter_inv st u x mine nm now a akey v :
  Inv_but None st -> clients st !! u = Some x -> name_ok nm ->
  chans st !! at_fresh a = None -> Z.of_nat (size (chans st)) < 2 ^ 32 - 1 ->
  has (jflags v) CHFL_ZOMBIE = false ->
  exists st' v', enter st u mine nm a now akey v = Ok (st', v') /\ Inv_but None st' /\
    has (jflags v') CHFL_ZOMBIE = false /\ who <$> clients st' = who <$> clients st /\
    (forall k, k <> at_fresh a -> names st !! k = None -> names st' !! k = None).
Proof.
  intros HI Hu Hnm Hp Hs Hfl. unfold enter.
  destruct (get_channel_create st mine nm now (at_fresh a) HI Hp Hnm Hs) as (st1&c&ch&e&E1&HI1&EC1&Hc1&Hce&Hcase).
  rewrite E1. cbn [mbind result_bind of_option]. rewrite (get_chan_Some _ _ _ Hc1). cbn [mbind result_bind].
  assert (Hf := find_user_link_spec (members ch) u).
  destruct (find_user_link (members ch) u) as [lp|] eqn:Elp.
  - destruct Hf as [Hlp Hcp]. assert (Hin : u ∈ cptr <$> members ch) by (rewrite <- Hcp; by apply list_elem_of_fmap_2).
    destruct Hcase as [[-> EB]|(->&->&Eb&EB)].
    2:{ change (members ch) with (members (body ch)) in Hin. rewrite Eb in Hin. by apply elem_of_nil in Hin. }
    assert (EN : names st1 = names st) by (by rewrite !names_bodies, EB).
    destruct (has (lflags lp) CHFL_ZOMBIE).
    2:{ exists st1, v. split; [done|]. split; [done|]. split; [done|]. split; [by rewrite EC1|].
        intros k _. by rewrite EN. }
    assert (Hu1 : clients st1 !! u = Some x) by (by rewrite EC1).
    destruct (remove_user_inv None st1 u c ch x HI1 Hc1 Hu1 Hin) as (st2&E2&HI2&Hsh&x2&Hu2&Ex2).
    rewrite E2. cbn [mbind result_bind]. simpl in HI2.
    assert (Hp2 : chans st2 !! at_fresh a = None).
    { apply names_None. apply (lookup_weaken_None _ (names st1)); [|apply Hsh]. rewrite EN. by apply names_None. }
    destruct (enter_created st2 u x2 mine nm now a akey (mkJvars (Z.land (lflags lp) (Z.lor CHFL_DEOPPED CHFL_SERVOPOK))
      true (jts v)) HI2 Hu2 Hnm Hp2) as (st3&c'&st4&v4&E3&E4&HI4&Hz&Hw&Hk).
    { assert (HX := shrinks_size _ _ (proj2 Hsh)). assert (HY : size (chans st1) = size (chans st)).
      { rewrite <- (map_size_fmap chname (chans st1)), <- (map_size_fmap chname (chans st)). unfold names in EN. by rewrite EN. }
      lia. }
    { apply zombie_land. }
    { intros k chk Hk Hcek Hink.
      assert (Hnk : names st1 !! k = Some (chname chk)).
      { apply (lookup_weaken (names st2)); [|apply Hsh]. unfold names. by rewrite lookup_fmap, Hk. }
      assert (Hnc : names st1 !! c = Some (chname ch)) by (unfold names; by rewrite lookup_fmap, Hc1).
      assert (k = c) as ->.
      { apply (d_unique st1 (proj2 (proj1 HI1)) k c _ _ Hnk Hnc). by rewrite <- Hcek, <- Hce. }
      assert (Hcx : c ∈ uchannel x2).
      { by apply (member_sym _ _ _ (proj1 (proj1 HI2)) c _ u x2 (bodies_lookup _ _ _ Hk) Hu2). }
      rewrite Ex2, <- (list_fmap_id (unlink id c (uchannel x))) in Hcx.
      apply unlink_elem in Hcx as [_ []]; [done|]. rewrite list_fmap_id.
      by apply (channels_nodup _ _ _ (proj1 (proj1 HI1)) u). }
    rewrite E3. cbn [mbind result_bind of_option]. exists st4, v4. split; [done|]. split; [done|]. split; [done|].
    split; [rewrite Hw, (proj1 Hsh); by rewrite EC1|]. intros k Hka Hn. apply Hk; [done|].
    apply (lookup_weaken_None _ (names st1)); [|apply Hsh]. by rewrite EN.
  - destruct (enter_created st u x mine nm now a akey v HI Hu Hnm Hp Hs Hfl) as (st2&c'&st3&v3&E2&E3&Hrest).
    { intros k chk Hk Hcek.
      assert (Hb1 := bodies_lookup _ _ _ Hc1). destruct Hcase as [[-> EB]|(->&->&Eb&EB)].
      - rewrite EB in Hb1. destruct (bodies_inv _ _ _ Hb1) as (ch0&Hc0&Eb0).
        assert (k = c) as ->.
        { apply (d_unique st (proj2 (proj1 HI)) k c (chname chk) (chname ch0)).
          - unfold names. by rewrite lookup_fmap, Hk.
          - unfold names. by rewrite lookup_fmap, Hc0.
          - rewrite <- Hcek. change (chname ch0) with (chname (body ch0)). by rewrite Eb0. }
        rewrite Hc0 in Hk. injection Hk as <-. change (members ch0) with (members (body ch0)). by rewrite Eb0.
      - exfalso. assert (Hne : k <> at_fresh a) by (intros ->; congruence).
        assert (Hnk : names st1 !! k = Some (chname chk)).
        { rewrite names_bodies, EB, fmap_insert, lookup_insert_ne by done. rewrite <- names_bodies.
          unfold names. by rewrite lookup_fmap, Hk. }
        assert (Hnc : names st1 !! at_fresh a = Some (chname ch)) by (unfold names; by rewrite lookup_fmap, Hc1).
        apply Hne. apply (d_unique st1 (proj2 (proj1 HI1)) k _ _ _ Hnk Hnc). by rewrite <- Hcek, <- Hce. }
    rewrite E1 in E2. injection E2 as <- <-. rewrite E3. by exists st3, v3.
Qed.

End entering.

(** * Runs *)

Section runs.
Context {T : Type} `{NT : NameTable T}.
Implicit Types st : state (T := T).

(** What may come from outside: a client structure, the messages, the database. *)
Inductive event :=
  | EClient (u : nat) (nm : cstring) (mine : bool) (r : rights)
  | EJoin (u : nat) (l : list attempt) (now : Z) (akey : option cstring) (ts : option Z)
  | ECreate (u : nat) (nm : cstring) (now chanTS : Z) (fresh : nat)
  | EPart (u : nat) (l : list cstring)
  | EKick (u c : nat) (case_d : bool)
  | EInvite (u c : nat)
  | EExit (u : nat)
  | ERegister (nombre : cstring) (nm : option cstring) (now : Z) (fresh : nat) (virgen : bool) (add del : Z)
  | EUnregister (nm : cstring).

Definition step (st : state (T := T)) (ev : event) : result (state (T := T)) :=
  match ev with
  | EClient u nm mine r => Ok (new_client st u nm mine r)
  | EJoin u l now akey ts => m_join st u l now akey ts
  | ECreate u nm now chanTS fresh => create_one st u nm now chanTS fresh
  | EPart u l => m_part st u l
  | EKick u c case_d => kick st u c case_d
  | EInvite u c => invite st u c
  | EExit u => exit_one_client st u
  | ERegister nombre nm now fresh virgen add del => register st nombre nm now fresh virgen add del
  | EUnregister nm => unregister st nm
  end.

Fixpoint run (st : state (T := T)) (evs : list event) : result (state (T := T)) :=
  match evs with
  | [] => Ok st
  | ev :: evs => st ← step st ev; run st evs
  end.

Definition attempt_ok st (a : attempt) : Prop :=
  is_cstr (at_name a) /\ (match at_redirect a with Some r => name_ok r | None => True end) /\
  chans st !! at_fresh a = None.
#[export] Instance attempt_ok_dec st a : Decision (attempt_ok st a).
Proof. unfold attempt_ok. destruct (at_redirect a); apply _. Defined.

(** The pointers are those of known clients and channels, blocks that are
    allocated are new, strings are strings, and neither 2^32 clients nor 2^32
    channels exist. *)
Definition legal st (ev : event) : Prop :=
  match ev with
  | EClient u _ _ _ => clients st !! u = None /\ Z.of_nat (size (clients st)) < 2 ^ 32 - 2
  | EJoin u l _ _ _ => is_Some (clients st !! u) /\ Forall (attempt_ok st) l /\ NoDup (at_fresh <$> l) /\
      Z.of_nat (size (chans st)) + Z.of_nat (length l) < 2 ^ 32 - 1
  | ECreate u nm _ _ p => is_Some (clients st !! u) /\ name_ok nm /\ chans st !! p = None /\
      Z.of_nat (size (chans st)) < 2 ^ 32 - 1 /\
      map_Forall (fun _ ch => ~ (case_equiv nm (chname ch) /\ u ∈ cptr <$> members ch)) (chans st)
  | EPart u l => is_Some (clients st !! u) /\ Forall is_cstr l
  | EKick u c _ | EInvite u c => is_Some (clients st !! u) /\ is_Some (chans st !! c)
  | EExit u => is_Some (clients st !! u)
  | ERegister nombre nm _ p _ _ _ => name_ok nombre /\
      (match nm with Some n => is_cstr n | None => True end) /\
      chans st !! p = None /\ Z.of_nat (size (chans st)) < 2 ^ 32 - 1
  | EUnregister nm => is_cstr nm
  end.
#[export] Instance channel_legal_dec st ev : Decision (legal st ev).
Proof. destruct ev as [| | | | | | |? nm|]; simpl; try apply _. destruct nm; apply _. Defined.

Fixpoint legal_run st (evs : list event) : Prop :=
  match evs with
  | [] => True
  | ev :: evs => legal st ev /\ match step st ev with Ok st' => legal_run st' evs | _ => True end
  end.

(** A decision that evaluates every step once *)
Fixpoint legal_runb st (evs : list event) : bool :=
  match evs with
  | [] => true
  | ev :: evs => bool_decide (legal st ev) && match step st ev with Ok st' => legal_runb st' evs | _ => true end
  end.

Lemma legal_runb_sound st evs : legal_runb st evs = true -> legal_run st evs.
Proof.
  revert st. induction evs as [|ev evs IH]; intros st; simpl; [done|].
  intros [H1%bool_decide_eq_true H2]%andb_true_iff. split; [done|]. destruct (step st ev); auto.
Qed.

Lemma clean_ok nm : is_cstr nm -> is_cstr (clean_channelname nm).
Proof.
  induction nm as [|c nm IH]; [done|]. intros [Hc Hn]%is_cstr_cons. simpl.
  destruct (isIrcCh c); [|apply is_cstr_nil]. apply is_cstr_cons. split; [done|auto].
Qed.

Lemma channel_name_ok nm : is_cstr nm -> IsChannelName nm = true -> name_ok nm.
Proof. intros Hc H. split; [done|]. by intros ->. Qed.

Lemma join_one_inv st u x a now akey v :
  Inv_but None st -> clients st !! u = Some x -> attempt_ok st a ->
  Z.of_nat (size (chans st)) < 2 ^ 32 - 1 -> has (jflags v) CHFL_ZOMBIE = false ->
  exists st' v' on, join_one st u a now akey v = Ok (st', v', on) /\ Inv_but None st' /\
    has (jflags v') CHFL_ZOMBIE = false /\ who <$> clients st' = who <$> clients st /\
    (forall k, k <> at_fresh a -> names st !! k = None -> names st' !! k = None).
Proof.
  intros HI Hu (Hnm&Hr&Hp) Hs Hfl. unfold join_one.
  rewrite (get_client_Some _ _ _ Hu). cbn [mbind result_bind].
  set (nm := if my x then clean_channelname (at_name a) else at_name a).
  assert (Hc : is_cstr nm) by (unfold nm; destruct (my x); [by apply clean_ok|done]).
  assert (Hstop : forall on : bool, exists (st' : state (T := T)) (v' : jvars) (on' : bool),
    Ok (st, v, on) = Ok (st', v', on') /\ Inv_but None st' /\
    has (jflags v') CHFL_ZOMBIE = false /\ who <$> clients st' = who <$> clients st /\
    (forall k, k <> at_fresh a -> names st !! k = None -> names st' !! k = None)).
  { intros on. by exists st, v, on. }
  destruct (negb (my x) && IsLocalChannel nm); [apply Hstop|].
  destruct (decide (chr nm = "0"%char /\ chr (adv nm) = NUL)).
  { destruct (part_all_inv (S (length (uchannel x))) st u x HI Hu) as (st1&E1&HI1&Hsh&_); [lia|].
    rewrite E1. eexists _, _, _. split; [done|]. split; [done|]. split; [done|]. split; [apply Hsh|].
    intros k _ Hn. eapply lookup_weaken_None; [done|apply Hsh]. }
  destruct (IsChannelName nm) eqn:Hcn; [|apply Hstop]. cbn [negb].
  assert (Hok := channel_name_ok nm Hc Hcn).
  assert (Henter : forall st1 nm1 f, Inv_but None st1 -> clients st1 = clients st -> chans st1 = chans st ->
    name_ok nm1 -> has f CHFL_ZOMBIE = false -> exists (st' : state (T := T)) (v' : jvars) (on : bool),
    ('(st, v) ← enter st1 u (my x) nm1 a now akey (mkJvars f (jzombie v) (jts v)); Ok (st, v, true)) = Ok (st', v', on) /\
    Inv_but None st' /\ has (jflags v') CHFL_ZOMBIE = false /\ who <$> clients st' = who <$> clients st /\
    (forall k, k <> at_fresh a -> names st !! k = None -> names st' !! k = None)).
  { intros st1 nm1 f HI1 EC EH Hok1 Hf.
    destruct (enter_inv st1 u x (my x) nm1 now a akey (mkJvars f (jzombie v) (jts v)) HI1)
      as (st2&v2&E2&HI2&Hz2&Hw2&Hk2); rewrite ?EC, ?EH; try done.
    rewrite E2. eexists _, _, _. split; [done|]. split; [done|]. split; [done|]. split; [by rewrite Hw2, EC|].
    intros k Hk Hn. apply Hk2; [done|]. unfold names in *. by rewrite EH. }
  destruct (my x) eqn:Hmy.
  2:{ destruct (Henter st nm (jflags v) HI eq_refl eq_refl Hok Hfl) as (st'&v'&on&E&H). destruct v as [f z t].
      simpl in E. rewrite E. by exists st', v', on. }
  destruct (existsb _ nm); [apply Hstop|].
  set (nm1 := default nm (at_redirect a)).
  assert (Hok1 : name_ok nm1) by (unfold nm1; by destruct (at_redirect a)).
  destruct (at_bad a && negb (an_oper (may x))); [apply Hstop|].
  destruct (local_flags_spec st nm1 (bool_decide (is_Some (at_redirect a))) HI Hok1)
    as (st1&f&nm2&E1&HI1&EC1&EH1&Hok2&Hf). rewrite E1. cbn [mbind result_bind].
  assert (Hfz : has f CHFL_ZOMBIE = false) by (destruct Hf as [->| ->]; done).
  destruct (_ && _).
  - destruct (get_channel_find st1 true nm2 now HI1 (proj1 Hok2)) as (st2&o&E2&HI2&EC2&EH2&_).
    rewrite E2. eexists _, _, _. split; [done|]. split; [done|]. split; [done|].
    split; [by rewrite EC2, EC1|]. intros k _. unfold names. by rewrite EH2, EH1.
  - by apply (Henter st1 nm2 f).
Qed.

Lemma names_grow_size st st' p :
  (forall k, k <> p -> names st !! k = None -> names st' !! k = None) ->
  (size (chans st') <= S (size (chans st)))%nat.
Proof.
  intros H. assert (Hsub : dom (names st') ⊆ {[p]} ∪ dom (names st)).
  { intros k Hk. destruct (decide (k = p)) as [->|Hne]; [set_solver|]. apply elem_of_union_r.
    apply elem_of_dom in Hk as [nm Hk]. apply elem_of_dom, not_eq_None_Some. intros Hn.
    rewrite (H k Hne Hn) in Hk. done. }
  apply subseteq_size in Hsub. rewrite size_dom in Hsub.
  assert (Hu : (size ({[p]} ∪ dom (names st)) <= 1 + size (dom (names st)))%nat).
  { rewrite size_union_alt, size_singleton. assert (HX : (size (dom (names st) ∖ {[p]}) <= size (dom (names st)))%nat)
      by (apply subseteq_size; set_solver). lia. }
  rewrite size_dom in Hu. unfold names in *. rewrite !map_size_fmap in *. lia.
Qed.

Lemma join_loop_inv l : forall st u x now akey v,
  Inv_but None st -> clients st !! u = Some x -> Forall (attempt_ok st) l -> NoDup (at_fresh <$> l) ->
  Z.of_nat (size (chans st)) + Z.of_nat (length l) < 2 ^ 32 - 1 -> has (jflags v) CHFL_ZOMBIE = false ->
  exists st' v', join_loop st u l now akey v = Ok (st', v') /\ Inv_but None st'.
Proof.
  induction l as [|a l IH]; intros st u x now akey v HI Hu Hl Hnd Hs Hfl; cbn [join_loop]; [by exists st, v|].
  apply Forall_cons in Hl as [Ha Hl]. rewrite fmap_cons in Hnd. apply NoDup_cons in Hnd as [Hal Hnd].
  simpl in Hs.
  destruct (join_one_inv st u x a now akey v HI Hu Ha) as (st1&v1&on&E1&HI1&Hz1&Hw1&Hk1); [lia|done|].
  rewrite E1. cbn [mbind result_bind]. destruct on; [|by exists st1, v1].
  assert (Hu1 : is_Some (clients st1 !! u)).
  { assert (H := f_equal (fun m => m !! u) Hw1). cbv beta in H. rewrite !lookup_fmap, Hu in H.
    by destruct (clients st1 !! u). }
  destruct Hu1 as [x1 Hu1]. apply (IH st1 u x1); try done.
  - apply Forall_forall. intros b Hb. assert (Hbok := proj1 (Forall_forall _ _) Hl b Hb).
    destruct Hbok as (?&?&Hpb). split; [done|]. split; [done|]. apply names_None, Hk1.
    + intros E. apply Hal. rewrite <- E. by apply list_elem_of_fmap_2.
    + by apply names_None.
  - assert (HX := names_grow_size st st1 (at_fresh a) Hk1). lia.
Qed.

Lemma m_join_inv st u l now akey ts :
  Inv_but None st -> legal st (EJoin u l now akey ts) ->
  exists st', m_join st u l now akey ts = Ok st' /\ Inv_but None st'.
Proof.
  intros HI ([x Hu]&Hl&Hnd&Hs). unfold m_join.
  destruct (join_loop_inv l st u x now akey (mkJvars 0 false ts) HI Hu Hl Hnd Hs) as (st'&v'&E&HI'); [by apply has_0|].
  rewrite E. by eexists.
Qed.

Lemma part_one_inv st u x nm :
  Inv_but None st -> clients st !! u = Some x -> is_cstr nm ->
  exists st', part_one st u nm = Ok st' /\ Inv_but None st' /\ is_Some (clients st' !! u).
Proof.
  intros HI Hu Hc. unfold part_one. rewrite (get_client_Some _ _ _ Hu). cbn [mbind result_bind].
  destruct (get_channel_find st (my x) nm 0 HI Hc) as (st1&o&E1&HI1&EC1&EH1&Ho). rewrite E1.
  cbn [mbind result_bind]. assert (Hu1 : clients st1 !! u = Some x) by (by rewrite EC1).
  destruct o as [c|]; [|by exists st1]. destruct (_ && _); [by exists st1|].
  destruct Ho as (ch&Hch&_). rewrite <- EH1 in Hch. rewrite (get_chan_Some _ _ _ Hch). cbn [mbind result_bind].
  assert (Hf := find_user_link_spec (members ch) u).
  destruct (find_user_link (members ch) u) as [lp|]; [|by exists st1]. destruct Hf as [Hlp Hcp].
  destruct (remove_user_inv None st1 u c ch x HI1 Hch Hu1) as (st2&E2&HI2&_&x2&Hu2&_).
  { rewrite <- Hcp. by apply list_elem_of_fmap_2. }
  rewrite E2. by exists st2.
Qed.

Lemma m_part_inv l : forall st u,
  Inv_but None st -> is_Some (clients st !! u) -> Forall is_cstr l ->
  exists st', m_part st u l = Ok st' /\ Inv_but None st'.
Proof.
  induction l as [|nm l IH]; intros st u HI [x Hu] Hl; cbn [m_part]; [by exists st|].
  apply Forall_cons in Hl as [Hn Hl]. destruct (part_one_inv st u x nm HI Hu Hn) as (st1&E1&HI1&Hu1).
  rewrite E1. by apply IH.
Qed.

End runs.

Section invariant.
Context {T : Type} `{NT : NameTable T}.
Implicit Types st : state (T := T).

Lemma Live_open b c ch' : Live_but None b -> Live_but (Some c) (<[c := ch']> b).
Proof.
  intros HL k chk. destruct (decide (k = c)) as [->|]; [done|]. rewrite lookup_insert_ne by done.
  intros Hk _. by apply (HL k chk).
Qed.

Lemma kick_inv st u c x ch case_d :
  Inv_but None st -> clients st !! u = Some x -> chans st !! c = Some ch ->
  exists st', kick st u c case_d = Ok st' /\ Inv_but None st'.
Proof.
  intros [HG HL] Hu Hc. unfold kick.
  rewrite (get_chan_Some _ _ _ Hc), (get_client_Some _ _ _ Hu). cbn [mbind result_bind].
  assert (Hf := find_user_link_spec (members ch) u).
  destruct (find_user_link (members ch) u) as [lp|]; [|by exists st]. destruct Hf as [Hlp Hcp].
  assert (Hb := bodies_lookup _ _ _ Hc).
  set (ch1 := set_members (users ch) (or_flags CHFL_ZOMBIE u (members ch)) ch).
  assert (Hids : cptr <$> members ch1 = cptr <$> members ch) by apply or_flags_ids.
  assert (Hin : u ∈ cptr <$> members ch1) by (rewrite Hids, <- Hcp; by apply list_elem_of_fmap_2).
  assert (HG1 : Good None (put_chan c ch1 st)).
  { apply (Good_put None None st c ch); try done. rewrite <- (length_fmap cptr (members ch1)), Hids, length_fmap.
    apply (g_users _ _ _ (proj1 HG) c _ Hb). }
  assert (HI1 : Inv_but (Some c) (put_chan c ch1 st)).
  { split; [done|]. rewrite bodies_put. by apply Live_open. }
  destruct (remove_user_inv (Some c) (put_chan c ch1 st) u c ch1 x HI1 (lookup_insert_eq _ _ _) Hu Hin)
    as (st2&E2&HI2&_). rewrite decide_True in HI2 by done. rewrite E2.
  destruct (my x); [by exists st2|]. destruct case_d; [by exists st2|].
  destruct (existsb live (members ch1)) eqn:Hl; [|by exists st2].
  exists (put_chan c ch1 st). split; [done|]. split; [done|]. rewrite bodies_put.
  apply (Live_insert None (bodies st) c (body ch1) HL). change (members (body ch1)) with (members ch1).
  by destruct (members ch1).
Qed.

Lemma rename_inv e st c ch nm :
  Inv_but e st -> chans st !! c = Some ch -> name_ok nm -> case_equiv nm (chname ch) ->
  exists st', rename st c nm = Ok st' /\ Inv_but e st' /\ chans st' !! c = Some (set_chname nm ch) /\
    clients st' = clients st.
Proof.
  intros [[HG HD] HL] Hc Hnm Hce. unfold rename. assert (Hb := bodies_lookup _ _ _ Hc).
  assert (Hn : names st !! c = Some (chname ch)) by (unfold names; by rewrite lookup_fmap, Hc).
  destruct HD as [(l&Hl&Hnd&Hdom&Hnr) Hnames Hv Hu].
  destruct (nt_del_spec (htab st) (names st) c _ Hnames Hn) as (t1&->&H1). cbn [mbind result_bind].
  rewrite (get_chan_Some _ _ _ Hc). cbn [mbind result_bind].
  destruct (nt_add_spec t1 _ c nm H1 (lookup_delete_eq _ _) Hnm) as (t2&->&H2). cbn [mbind result_bind].
  rewrite insert_delete_eq in H2. eexists. split; [done|].
  assert (EB : forall ch', bodies (put_chan c ch' (set_htab t2 st)) = <[c := body ch']> (bodies st))
    by (intros ch'; exact (bodies_put (set_htab t2 st) c ch')).
  assert (EN : names (put_chan c (set_chname nm ch) (set_htab t2 st)) = <[c := nm]> (names st)).
  { unfold names. simpl. by rewrite fmap_insert. }
  split; [split; [split|]|split; [apply lookup_insert_eq|done]].
  - rewrite EB. apply (Graph_chan None None _ _ _ (body ch)); try done.
    simpl. apply (g_users _ _ _ HG c (body ch) Hb).
  - split; rewrite ?EN.
    + exists l. split; [|split; [done|split; [|done]]].
      * eapply dlist_ext; [|exact Hl]. intros x _. simpl. destruct (decide (x = c)) as [->|].
        { by rewrite lookup_insert_eq, Hc. } by rewrite lookup_insert_ne.
      * intros x. simpl. rewrite Hdom. destruct (decide (x = c)) as [->|]; [by rewrite lookup_insert_eq, Hc|].
        by rewrite lookup_insert_ne.
    + done.
    + intros x nm'. destruct (decide (x = c)) as [->|]; [rewrite lookup_insert_eq; by intros [= <-]|].
      rewrite lookup_insert_ne by done. apply Hv.
    + intros x y nmx nmy. destruct (decide (x = c)) as [->|Hx], (decide (y = c)) as [->|Hy];
        rewrite ?lookup_insert_eq, ?lookup_insert_ne by done; [done| | |apply Hu].
      * intros [= <-] Hy' Hxy. apply (Hu _ _ _ _ Hn Hy'). by rewrite <- Hce.
      * intros Hx' [= <-] Hxy. apply (Hu _ _ _ _ Hx' Hn). by rewrite <- Hce.
  - rewrite EB. by apply (Live_same e _ c (body ch)).
Qed.

Lemma has_reg m : has (Z.lor m MODE_REGCHAN) MODE_REGCHAN = true.
Proof.
  unfold has. apply bool_decide_eq_true. intros H. apply (f_equal (fun z => Z.testbit z 13)) in H.
  rewrite Z.land_spec, Z.lor_spec in H. change (Z.testbit MODE_REGCHAN 13) with true in H.
  rewrite orb_true_r in H. done.
Qed.

Lemma set_mode_inv e st c ch m :
  Inv_but e st -> chans st !! c = Some ch -> (e = None \/ e = Some c /\ members ch = []) ->
  Inv_but None (put_chan c (set_mode (Z.lor m MODE_REGCHAN) ch) st).
Proof.
  intros [HG HL] Hc He. assert (Hb := bodies_lookup _ _ _ Hc). split.
  - apply (Good_put None None _ c ch); try done. simpl. apply (g_users _ _ _ (proj1 HG) c (body ch) Hb).
  - rewrite bodies_put. assert (Ee : None = if decide (e = Some c) then None else e)
      by (destruct He as [->|[-> _]]; by case_decide). rewrite Ee.
    apply Live_insert; [done|]. simpl. rewrite has_reg.
    destruct He as [->|[-> ->]]; [|done]. destruct (members ch) eqn:Em; [done|].
    assert (HX := HL c (body ch) Hb). simpl in HX. rewrite Em in HX. by apply HX.
Qed.

Lemma register_inv st nombre nm now p virgen add del :
  Inv_but None st -> legal st (ERegister nombre nm now p virgen add del) ->
  exists st', register st nombre nm now p virgen add del = Ok st' /\ Inv_but None st'.
Proof.
  intros HI (Hno&Hnm&Hp&Hs). unfold register.
  set (same := match nm with Some n => bool_decide (strCasecmp nombre n = 0) | None => false end).
  set (nm1 := if same then default nombre nm else nombre).
  assert (Hok : name_ok nm1).
  { unfold nm1, same. destruct nm as [n|]; [|done]. destruct (bool_decide _) eqn:Hs'; [|done].
    apply bool_decide_eq_true in Hs'. apply strCasecmp_spec in Hs'; [|apply Hno|done]. split; [done|].
    simpl. intros ->. apply case_equiv_length in Hs'. destruct Hno as [_ Hno]. by destruct nombre. }
  destruct (get_channel_create st true nm1 now p HI Hp Hok Hs) as (st1&c&ch&e&E1&HI1&EC1&Hc1&Hce&Hcase).
  rewrite E1. cbn [mbind result_bind of_option]. change (take CHANNELLEN nm1) with (cut true nm1).
  assert (He : e = None \/ e = Some c /\ members ch = []).
  { destruct Hcase as [[-> _]|(->&->&Eb&_)]; [by left|right]. split; [done|].
    change (members (body ch) = []). by rewrite Eb. }
  assert (K : exists st2 ch2, (if same && bool_decide (nombre <> cut true nm1) then rename st1 c (cut true nm1) else Ok st1) = Ok st2 /\
    Inv_but e st2 /\ chans st2 !! c = Some ch2 /\ members ch2 = members ch).
  { destruct (_ && _); [|by exists st1, ch].
    destruct (rename_inv e st1 c ch _ HI1 Hc1 (cut_name_ok true nm1 Hok) Hce) as (st2&E2&HI2&Hc2&_).
    by exists st2, (set_chname (cut true nm1) ch). }
  destruct K as (st2&ch2&E2&HI2&Hc2&Em). rewrite E2. cbn [mbind result_bind].
  rewrite (get_chan_Some _ _ _ Hc2). cbn [mbind result_bind]. eexists. split; [done|].
  apply (set_mode_inv e); [done|done|]. by rewrite Em.
Qed.

Lemma unregister_inv st nm :
  Inv_but None st -> is_cstr nm -> exists st', unregister st nm = Ok st' /\ Inv_but None st'.
Proof.
  intros HI Hnm. unfold unregister.
  destruct (get_channel_find st true nm 0 HI Hnm) as (st1&o&E1&HI1&EC1&EH1&Ho). rewrite E1. cbn [mbind result_bind].
  destruct o as [c|]; [|by exists st1]. destruct Ho as (ch&Hc&_). rewrite <- EH1 in Hc.
  rewrite (get_chan_Some _ _ _ Hc). cbn [mbind result_bind].
  destruct (has (mode ch) MODE_REGCHAN) eqn:Hr; [|by exists st1].
  set (ch1 := set_mode (Z.land (mode ch) (Z.lnot MODE_REGCHAN)) ch).
  assert (Hb := bodies_lookup _ _ _ Hc). assert (Hn := g_users _ _ _ (proj1 (proj1 HI1)) c _ Hb). simpl in Hn.
  assert (HG1 : Good None (put_chan c ch1 st1)) by (apply (Good_put None None _ c ch); [apply HI1|done..]).
  destruct (decide (users ch <> 0)) as [Hus|Hus].
  - eexists. split; [done|]. split; [done|]. rewrite bodies_put.
    apply (Live_insert None (bodies st1) c (body ch1) (proj2 HI1)). simpl.
    destruct (members ch) eqn:Em; [simpl in Hn; lia|].
    assert (HX := proj2 HI1 c (body ch) Hb). simpl in HX. rewrite Em in HX. by apply HX.
  - assert (Hm : members ch = []) by (destruct (members ch); [done|simpl in Hn; lia]).
    destruct (sub1_inv (Some c) (put_chan c ch1 st1) c ch1) as (st2&E2&HI2&_); [|apply lookup_insert_eq|done|by right|].
    { split; [done|]. rewrite bodies_put. apply Live_open, HI1. }
    rewrite E2. by exists st2.
Qed.

Lemma new_client_inv st u nm mine r :
  Inv_but None st -> legal st (EClient u nm mine r) -> Inv_but None (new_client st u nm mine r).
Proof.
  intros [[HG HD] HL] [Hu Hs]. split; [split|done]; [|by apply Dir_put_client].
  assert (Hlook : forall A (f : aClient -> list A), f (mkClient nm mine r 0 [] []) = [] -> forall v,
    from_option f [] (<[u := mkClient nm mine r 0 [] []]> (clients st) !! v) = from_option f [] (clients st !! v)).
  { intros A f Hf v. destruct (decide (v = u)) as [->|]; [by rewrite lookup_insert_eq, Hu|].
    by rewrite lookup_insert_ne. }
  apply (Graph_clients _ (clients st)); [done| |by apply Hlook..|].
  - simpl. rewrite map_size_insert_None by done. lia.
  - intros v x. simpl. destruct (decide (v = u)) as [->|].
    + rewrite lookup_insert_eq. intros [= <-]. by right.
    + rewrite lookup_insert_ne by done. by left.
Qed.

Lemma invite_inv st u c :
  Inv_but None st -> legal st (EInvite u c) -> exists st', invite st u c = Ok st' /\ Inv_but None st'.
Proof.
  intros HI [[x Hu] [ch Hc]]. unfold invite. rewrite (get_client_Some _ _ _ Hu). cbn [mbind result_bind].
  destruct (my x) eqn:Hmy; [|by exists st].
  destruct (add_invite_inv st u c ch x HI Hc Hu Hmy) as (st'&_&E&HI'&_). by exists st'.
Qed.

(** The channel of a CREATE: found, or created *)
Lemma create_found st nm now p :
  Inv_but None st -> chans st !! p = None -> name_ok nm -> Z.of_nat (size (chans st)) < 2 ^ 32 - 1 ->
  exists t o st' c ch e, nt_find (htab st) nm = Ok (t, o) /\
    match o with Some c' => c' = c /\ st' = set_htab t st
    | None => get_channel (set_htab t st) false nm now (Some p) = Ok (st', Some c) end /\
    Inv_but e st' /\ clients st' = clients st /\ chans st' !! c = Some ch /\ (e = None \/ e = Some c) /\
    (chans st !! c = Some ch /\ case_equiv nm (chname ch) \/ members ch = []).
Proof.
  intros HI Hp Hnm Hs. destruct (find_spec None st nm HI Hnm) as (t&o&E&HI1&Ho). destruct o as [c|].
  - destruct Ho as (ch&Hc&Hce). exists t, (Some c), (set_htab t st), c, ch, None. split_and!; try done; by left.
  - destruct (get_channel_create (set_htab t st) false nm now p HI1 Hp Hnm Hs)
      as (st1&c&ch&e&E1&HI2&EC&Hc&Hce&Hcase).
    exists t, None, st1, c, ch, e. split_and!; try done.
    + destruct Hcase as [[-> _]|(->&->&_)]; [by left|by right].
    + right. destruct Hcase as [[-> EB]|(->&->&Eb&_)].
      * assert (Hb := bodies_lookup _ _ _ Hc). rewrite EB in Hb.
        destruct (bodies_inv _ _ _ Hb) as (ch0&Hc0&Eb0). destruct (Ho c ch0 Hc0).
        change (chname ch0) with (chname (body ch0)). by rewrite Eb0.
      * change (members (body ch) = []). by rewrite Eb.
Qed.

Lemma create_inv st u nm now chanTS p :
  Inv_but None st -> legal st (ECreate u nm now chanTS p) ->
  exists st', create_one st u nm now chanTS p = Ok st' /\ Inv_but None st'.
Proof.
  intros HI ([x Hu]&Hnm&Hp&Hs&Hno). unfold create_one.
  destruct (create_found st nm now p HI Hp Hnm Hs) as (t&o&st1&c&ch&e&E&Ho&HI1&EC&Hc&He&Hch).
  rewrite E. cbn [mbind result_bind].
  assert (Hin : (u ∉ cptr <$> members ch)).
  { destruct Hch as [[Hc0 Hce]| ->]; [|apply not_elem_of_nil]. intros Hin.
    by apply (map_Forall_lookup_1 _ _ _ _ Hno Hc0). }
  assert (K : exists badop, (match o with
    | Some c => ch ← get_chan (set_htab t st) c;
        Ok (set_htab t st, c, bool_decide (TS_LAG_TIME < now - chanTS) ||
          (bool_decide (creationtime ch <> 0) && bool_decide (creationtime ch < chanTS) &&
           bool_decide (creationtime ch <> MAGIC_REMOTE_JOIN_TS)))
    | None => '(st, oc) ← get_channel (set_htab t st) false nm now (Some p); c ← of_option oc; Ok (st, c, false)
    end) = Ok (st1, c, badop)).
  { destruct o as [c'|]; [destruct Ho as [-> ->]; rewrite (get_chan_Some _ _ _ Hc); by eexists|].
    rewrite Ho. by exists false. }
  destruct K as [badop E1]. rewrite E1. cbn [mbind result_bind].
  set (fl := if badop || IsModelessChannel nm then CHFL_DEOPPED else CHFL_CHANOP).
  assert (Hfl : has fl CHFL_ZOMBIE = false) by (unfold fl; by destruct (_ || _)).
  rewrite <- EC in Hu.
  destruct (add_user_inv e st1 u c ch x fl HI1 Hc Hu Hin Hfl He) as (st2&E2&HI2&EB2&_). rewrite E2.
  cbn [mbind result_bind]. destruct badop; [by exists st2|].
  assert (Hc2 : is_Some (bodies st2 !! c)) by (rewrite EB2, lookup_insert_eq; by eexists).
  destruct Hc2 as [b2 Hb2]. destruct (bodies_inv _ _ _ Hb2) as (ch2&Hc2&_).
  rewrite (get_chan_Some _ _ _ Hc2). cbn [mbind result_bind]. eexists. split; [done|].
  by apply Inv_put_creation.
Qed.

Lemma step_inv st ev :
  Inv_but None st -> legal st ev -> exists st', step st ev = Ok st' /\ Inv_but None st'.
Proof.
  intros HI Hl. destruct ev as [u nm mine r|u l now akey ts|u nm now chanTS p|u l|u c d|u c|u|nombre nm now p vg add del|nm].
  - eexists. split; [done|]. by apply new_client_inv.
  - by apply m_join_inv.
  - by apply create_inv.
  - destruct Hl. by apply m_part_inv.
  - destruct Hl as [[x Hu] [ch Hc]]. by apply (kick_inv st u c x ch).
  - by apply invite_inv.
  - destruct Hl as [x Hu]. exact (exit_inv st u x HI Hu).
  - by apply register_inv.
  - by apply unregister_inv.
Qed.

Lemma run_inv evs : forall st,
  Inv_but None st -> legal_run st evs -> exists st', run st evs = Ok st' /\ Inv_but None st'.
Proof.
  induction evs as [|ev evs IH]; intros st HI; cbn [legal_run run]; [by exists st|].
  intros [Hl Hrest]. destruct (step_inv st ev HI Hl) as (st1&E1&HI1). rewrite E1 in *.
  cbn [mbind result_bind]. by apply IH.
Qed.

Lemma init_inv : Inv_but None (init (T := T)).
Proof.
  split; [split|by intros c ch].
  - split; try done; split; intros; rewrite ?lookup_empty; simpl; try constructor; by intros ?%elem_of_nil.
  - split; [|apply nt_empty_spec|done|done]. exists []. split; [done|]. split; [constructor|]. split; [|done].
    intros c. simpl. rewrite lookup_empty. split; [by intros ?%elem_of_nil|by intros []].
Qed.

(** The invariant, in terms of the blocks *)
Record consistent st : Prop := {
  co_links : forall c ch u x, chans st !! c = Some ch -> clients st !! u = Some x ->
    (u ∈ cptr <$> members ch <-> c ∈ uchannel x) /\ (u ∈ invites ch <-> c ∈ invited x);
  co_channel : forall c ch, chans st !! c = Some ch ->
    NoDup (cptr <$> members ch) /\ users ch = Z.of_nat (length (members ch)) /\
    (forall u, u ∈ cptr <$> members ch -> is_Some (clients st !! u)) /\
    (has (mode ch) MODE_REGCHAN = true /\ members ch = [] \/ existsb live (members ch) = true);
  co_client : forall u x, clients st !! u = Some x ->
    NoDup (uchannel x) /\ joined x = Z.of_nat (length (uchannel x)) /\
    (forall c, c ∈ uchannel x \/ c ∈ invited x -> is_Some (chans st !! c)) /\
    (length (invited x) <= MAXCHANNELSPERUSER)%nat;
  co_list : exists l, dlist (chans st) None (channel st) l None /\ NoDup l /\
    (forall c, c ∈ l <-> is_Some (chans st !! c)) /\ nrof_channels st = Z.of_nat (length l);
  co_names : forall c c' ch ch', chans st !! c = Some ch -> chans st !! c' = Some ch' ->
    case_equiv (chname ch) (chname ch') -> c = c' }.

Lemma Inv_consistent st : Inv_but None st -> consistent st.
Proof.
  intros [[HG HD] HL]. split.
  - intros c ch u x Hc Hu. apply bodies_lookup in Hc.
    by rewrite <- (member_sym _ _ _ HG c (body ch) u x), <- (invite_sym _ _ _ HG c (body ch) u x).
  - intros c ch Hc. assert (Hb := bodies_lookup _ _ _ Hc). split; [by apply (members_nodup _ _ _ HG c (body ch))|].
    split; [assert (H := g_users _ _ _ HG c _ Hb); simpl in H; lia|].
    split; [intros u Hu; exact (member_client _ _ _ HG c (body ch) u Hb Hu)|].
    assert (H := HL c _ Hb). simpl in H. destruct (members ch); [left; by split; [apply H|]|right; by apply H].
  - intros u x Hu. split; [by apply (channels_nodup _ _ _ HG u)|]. split; [by apply (g_joined _ _ _ HG u)|].
    split; [|by apply (g_max _ _ _ HG u)]. intros c [Hc|Hc].
    + destruct (channel_known _ _ _ HG u x c Hu Hc) as [b Hb]. destruct (bodies_inv _ _ _ Hb) as (ch&Hch&_).
      by exists ch.
    + destruct (invited_known _ _ _ HG u x c Hu Hc) as [b Hb]. destruct (bodies_inv _ _ _ Hb) as (ch&Hch&_).
      by exists ch.
  - apply HD.
  - intros c c' ch ch' Hc Hc'. apply (d_unique _ HD); unfold names; by rewrite lookup_fmap, ?Hc, ?Hc'.
Qed.

End invariant.

(** * Properties *)

Section properties.
Context {T : Type} `{NT : NameTable T}.
Implicit Types st : state (T := T).

(** The flags of a client on a channel, if it is on it *)
Definition flags_on st (u c : nat) : option Z :=
  ch ← chans st !! c; lflags <$> find_user_link (members ch) u.

Lemma find_unlink p q l :
  NoDup (cptr <$> l) -> find_user_link (unlink cptr p l) q = if decide (q = p) then None else find_user_link l q.
Proof.
  induction l as [|x l IH]; [by case_decide|]. rewrite fmap_cons. intros [Hx Hnd]%NoDup_cons. simpl.
  destruct (decide (cptr x = p)) as [<-|Hp].
  - destruct (decide (q = cptr x)) as [->|Hq]; [|by rewrite decide_False by congruence].
    assert (H := find_user_link_spec l (cptr x)). destruct (find_user_link l (cptr x)) as [y|]; [|done].
    destruct H as [Hy E]. destruct Hx. rewrite <- E. by apply list_elem_of_fmap_2.
  - simpl. destruct (decide (cptr x = q)) as [<-|Hq]; [by rewrite decide_False|]. by apply IH.
Qed.

Lemma flags_on_bodies st u c :
  flags_on st u c = (b ← bodies st !! c; lflags <$> find_user_link (members b) u).
Proof. unfold flags_on, bodies. rewrite lookup_fmap. by destruct (chans st !! c). Qed.

(** What remove_user_from_channel() does, on channels in order *)
Lemma remove_user_effect st u c ch x :
  Inv_but None st -> chans st !! c = Some ch -> clients st !! u = Some x -> u ∈ cptr <$> members ch ->
  exists st', remove_user_from_channel st u c = Ok st' /\ Inv_but None st' /\
    (forall v k, flags_on st' v k =
       if decide (k = c /\ (v = u \/ another u (members ch) = false)) then None else flags_on st v k) /\
    (forall k, is_Some (chans st' !! k) <-> is_Some (chans st !! k) /\
       ~ (k = c /\ another u (members ch) = false /\ has (mode ch) MODE_REGCHAN = false)).
Proof.
  intros HI Hc Hu Hin.
  destruct (remove_user_inv None st u c ch x HI Hc Hu Hin) as (st'&E&HI'&_).
  destruct (remove_user_spec st u c ch x (proj1 HI) Hc Hu Hin) as (st2&E2&_&Heff).
  rewrite E in E2. injection E2 as <-. exists st'. split; [done|]. split; [done|].
  assert (Hb := bodies_lookup _ _ _ Hc). assert (Hnd := members_nodup _ _ _ (proj1 (proj1 HI)) c _ Hb).
  assert (Hdom : forall k, is_Some (chans st' !! k) <-> is_Some (bodies st' !! k))
    by (intros k; unfold bodies; rewrite lookup_fmap; by destruct (chans st' !! k)).
  assert (Hdom0 : forall k, is_Some (chans st !! k) <-> is_Some (bodies st !! k))
    by (intros k; unfold bodies; rewrite lookup_fmap; by destruct (chans st !! k)).
  destruct (another u (members ch)); destruct Heff as [EB _];
    (split; [intros v k; rewrite !flags_on_bodies, EB|intros k; rewrite Hdom, Hdom0, EB]).
  - destruct (decide (k = c)) as [->|Hk].
    + rewrite lookup_insert_eq, Hb. simpl. rewrite find_unlink by done.
      destruct (decide (v = u)) as [->|]; [by rewrite decide_True by auto|by rewrite decide_False by naive_solver].
    + rewrite lookup_insert_ne by done. by rewrite decide_False by tauto.
  - destruct (decide (k = c)) as [->|Hk]; [rewrite lookup_insert_eq, Hb; naive_solver|].
    rewrite lookup_insert_ne by done. naive_solver.
  - destruct (decide (k = c)) as [->|Hk].
    + rewrite decide_True by auto. destruct (has _ _); [by rewrite lookup_insert_eq|by rewrite lookup_delete_eq].
    + rewrite decide_False by tauto. destruct (has _ _); [by rewrite lookup_insert_ne|by rewrite lookup_delete_ne].
  - destruct (decide (k = c)) as [->|Hk], (has (mode ch) MODE_REGCHAN);
      rewrite ?lookup_insert_eq, ?lookup_delete_eq, ?lookup_insert_ne, ?lookup_delete_ne, ?Hb by done;
      split; try (by intros []); naive_solver.
Qed.

Lemma has_zombie_lor f : has (Z.lor f CHFL_ZOMBIE) CHFL_ZOMBIE = true.
Proof.
  unfold has. apply bool_decide_eq_true. intros H. apply (f_equal (fun z => Z.testbit z 4)) in H.
  rewrite Z.land_spec, Z.lor_spec in H. change (Z.testbit CHFL_ZOMBIE 4) with true in H.
  rewrite orb_true_r in H. done.
Qed.

Lemma another_spec u lp :
  another u lp = true <-> Exists (fun l => live l = true /\ cptr l <> u) lp.
Proof.
  unfold another. rewrite existsb_exists, Exists_exists.
  assert (K : forall l, negb (has (lflags l) CHFL_ZOMBIE || bool_decide (cptr l = u)) = true <->
    live l = true /\ cptr l <> u).
  { intros l. unfold live. rewrite negb_orb, andb_true_iff, !negb_true_iff. by rewrite bool_decide_eq_false. }
  split; intros (l&Hl&H); exists l; (split; [by apply list_elem_of_In|by apply K]).
Qed.

Lemma find_or_flags mask p q l :
  find_user_link (or_flags mask p l) q =
    (fun x => if decide (q = p) then mkLink (cptr x) (Z.lor (lflags x) mask) else x) <$> find_user_link l q.
Proof.
  induction l as [|x l IH]; [done|]. simpl. destruct (decide (cptr x = p)) as [Ep|Hp]; simpl.
  - destruct (decide (cptr x = q)) as [Eq|Hq]; simpl.
    + by rewrite decide_True by congruence.
    + destruct (find_user_link l q); simpl; [by rewrite decide_False by congruence|done].
  - destruct (decide (cptr x = q)) as [Eq|Hq]; simpl; [by rewrite decide_False by congruence|done].
Qed.

Lemma zombies_or_flags p l :
  NoDup (cptr <$> l) ->
  number_of_zombies (or_flags CHFL_ZOMBIE p l) =
    number_of_zombies l + match find_user_link l p with Some x => if live x then 1 else 0 | None => 0 end.
Proof.
  induction l as [|x l IH]; [done|]. rewrite fmap_cons. intros [Hx Hnd]%NoDup_cons. simpl.
  destruct (decide (cptr x = p)) as [Ep|Hp]; simpl.
  - unfold live. rewrite has_zombie_lor. destruct (has (lflags x) CHFL_ZOMBIE); simpl; lia.
  - rewrite IH by done. lia.
Qed.

Lemma another_absent p l : (p ∉ cptr <$> l) -> existsb live l = another p l.
Proof.
  unfold another. induction l as [|x l IH]; [done|]. rewrite fmap_cons. intros [Hne Hp]%not_elem_of_cons.
  simpl. rewrite IH, (bool_decide_false (cptr x = p)), orb_false_r by done. done.
Qed.

Lemma or_flags_live p l : NoDup (cptr <$> l) -> existsb live (or_flags CHFL_ZOMBIE p l) = another p l.
Proof.
  induction l as [|x l IH]; [done|]. rewrite fmap_cons. intros [Hx Hnd]%NoDup_cons. simpl.
  destruct (decide (cptr x = p)) as [Ep|Hp]; simpl.
  - unfold live at 1. simpl. rewrite has_zombie_lor, (bool_decide_true (cptr x = p)), orb_true_r by done.
    simpl. rewrite Ep in Hx. by apply another_absent.
  - rewrite IH, (bool_decide_false (cptr x = p)), orb_false_r by done. done.
Qed.

Lemma another_or_flags p l : another p (or_flags CHFL_ZOMBIE p l) = another p l.
Proof.
  unfold another. induction l as [|x l IH]; [done|]. simpl. destruct (decide (cptr x = p)) as [Ep|Hp]; simpl.
  - by rewrite (bool_decide_true (cptr x = p)), !orb_true_r.
  - by rewrite IH.
Qed.

(** The last [n] elements *)
Definition lastn (n : nat) (l : list nat) : list nat := drop (length l - n) l.

Lemma unlink_filter p (l : list nat) : NoDup l -> unlink id p l = filter (fun k => k <> p) l.
Proof.
  induction l as [|x l IH]; [done|]. intros [Hx Hnd]%NoDup_cons. rewrite filter_cons. simpl.
  destruct (decide (x = p)) as [->|Hne].
  - rewrite decide_False by tauto. rewrite <- IH by done. symmetry. by apply unlink_absent.
  - rewrite decide_True by done. by rewrite IH.
Qed.

End properties.

(** The state of the server, with the hash table of Hash.v *)
Abbreviation ircd := (state (T := table)).

(** C3. The channels and their members stay consistent: from the empty server,
    whatever clients appear, join, create, leave, are kicked, are invited and exit, and
    whatever channels are registered and dropped, every operation ends without
    following a bad pointer, and afterwards a client is on a channel if and only
    if the channel is on the chain of the client (each exactly once), the same
    holds of invitations, the counts are those of the chains, every channel has a
    live member or is registered and has no member at all, the list of channels
    runs through exactly the channels that exist, and no two of them have names
    that are equal up to case. *)
Theorem channel_invariant (evs : list event) :
  legal_run (init : ircd) evs -> exists st, run (init : ircd) evs = Ok st /\ consistent st.
Proof.
  intros Hl. destruct (run_inv evs init init_inv Hl) as (st&E&HI). exists st.
  split; [done|by apply Inv_consistent].
Qed.

Definition plain : rights := mkRights false false false false false false false false false.
Definition at_once (name : cstring) (p : nat) : attempt := mkAttempt name None false false (fun _ => false) p.

Lemma channel_invariant_witness :
  let evs := [EClient 1 (str "ana") true plain; EClient 2 (str "bob") false plain;
    EClient 3 (str "eva") true plain; EJoin 1 [at_once (str "#a") 10] 5 None None;
    EJoin 2 [at_once (str "#A") 11] 6 None None; EInvite 3 10; EKick 2 10 false;
    ERegister (str "#b") (Some (str "#B")) 7 12 false 0 0; EJoin 2 [at_once (str "#a") 13] 8 None None;
    EPart 1 [str "#a"]; EExit 2; EUnregister (str "#b")] in
  exists st, run (init : ircd) evs = Ok st /\ consistent st.
Proof. intros evs. apply (channel_invariant evs), legal_runb_sound. vm_compute. reflexivity. Defined.

Lemma reached (evs : list event) (st : ircd) :
  legal_run init evs -> run init evs = Ok st -> Inv_but None st.
Proof.
  intros Hl Hr. destruct (run_inv evs init init_inv Hl) as (st'&E&HI). rewrite Hr in E. by injection E as <-.
Qed.

(** C33. remove_user_from_channel() takes a member off a channel: while another live
    member remains, exactly this member; otherwise everybody who is still on the
    channel, all of them zombies, and the channel itself unless it is registered.
    Nothing changes on other channels. *)
Theorem remove_user_correct evs (st : ircd) u c ch :
  legal_run init evs -> run init evs = Ok st ->
  chans st !! c = Some ch -> u ∈ cptr <$> members ch ->
  let alone := ~ Exists (fun l => live l = true /\ cptr l <> u) (members ch) in
  exists st', remove_user_from_channel st u c = Ok st' /\ consistent st' /\
    (forall v k, flags_on st' v k = if decide (k = c /\ (v = u \/ alone)) then None else flags_on st v k) /\
    (forall k, is_Some (chans st' !! k) <->
       is_Some (chans st !! k) /\ ~ (k = c /\ alone /\ has (mode ch) MODE_REGCHAN = false)).
Proof.
  intros Hl Hr Hc Hin alone. assert (HI := reached _ _ Hl Hr).
  destruct (member_client _ _ _ (proj1 (proj1 HI)) c _ u (bodies_lookup _ _ _ Hc) Hin) as [x Hu].
  destruct (remove_user_effect st u c ch x HI Hc Hu Hin) as (st'&E&HI'&Hf&Hk).
  assert (Ha : another u (members ch) = false <-> alone).
  { unfold alone. rewrite <- another_spec. by destruct (another u (members ch)). }
  exists st'. split; [done|]. split; [by apply Inv_consistent|]. split.
  - intros v k. rewrite Hf. apply decide_ext. by rewrite Ha.
  - intros k. by rewrite Hk, Ha.
Qed.

Lemma remove_user_correct_witness :
  let evs := [EClient 1 (str "ana") true plain; EClient 2 (str "bob") false plain;
    EJoin 1 [at_once (str "#a") 10] 5 None None; EJoin 2 [at_once (str "#a") 11] 6 None None;
    EKick 2 10 false] in
  match run (init : ircd) evs with
  | Ok st => match chans st !! 10%nat with
             | Some ch => exists st', remove_user_from_channel st 1 10 = Ok st'
             | None => False
             end
  | _ => False
  end.
Proof.
  intros evs. destruct (run init evs) as [st| |] eqn:E; [|vm_compute in E; discriminate..].
  destruct (chans st !! 10%nat) as [ch|] eqn:Ec.
  - assert (Hl : legal_run (init : ircd) evs) by (apply legal_runb_sound; vm_compute; reflexivity).
    assert (Hin : 1%nat ∈ cptr <$> members ch).
    { apply (bool_decide_unpack _). vm_compute in E. injection E as <-. vm_compute in Ec. injection Ec as <-.
      vm_compute. exact I. }
    destruct (remove_user_correct evs st 1 10 ch Hl E Ec Hin) as (st'&E'&_). by exists st'.
  - vm_compute in E. injection E as <-. vm_compute in Ec. discriminate.
Defined.

(** A KICK on a server that is not the one of the client leaves it on the channel
    as a zombie while live members remain: it keeps its flags, its link and its
    place in the count of users, but is no member, operator or voice any more;
    when nobody else is live the channel is emptied instead. *)
Theorem kick_correct evs (st : ircd) u c ch x :
  legal_run init evs -> run init evs = Ok st ->
  chans st !! c = Some ch -> clients st !! u = Some x -> my x = false ->
  u ∈ cptr <$> members ch ->
  exists st', kick st u c false = Ok st' /\ consistent st' /\
    if decide (Exists (fun l => live l = true /\ cptr l <> u) (members ch)) then
      exists ch', chans st' !! c = Some ch' /\ users ch' = users ch /\
        flags_on st' u c = (fun f => Z.lor f CHFL_ZOMBIE) <$> flags_on st u c /\
        (forall v k, (v, k) <> (u, c) -> flags_on st' v k = flags_on st v k) /\
        IsMember u ch' = None /\ is_chan_op u ch' = 0 /\ is_chan_owner u ch' = 0 /\ has_voice u ch' = 0 /\
        number_of_zombies (members ch') = number_of_zombies (members ch) +
          match IsMember u ch with Some _ => 1 | None => 0 end
    else forall v, flags_on st' v c = None.
Proof.
  intros Hl Hr Hc Hu Hmy Hin. assert (HI := reached _ _ Hl Hr).
  destruct (kick_inv st u c x ch false HI Hu Hc) as (st'&E&HI'). exists st'. split; [done|].
  split; [by apply Inv_consistent|]. revert E. unfold kick.
  rewrite (get_chan_Some _ _ _ Hc), (get_client_Some _ _ _ Hu). cbn [mbind result_bind]. rewrite Hmy.
  assert (Hf := find_user_link_spec (members ch) u).
  destruct (find_user_link (members ch) u) as [lp|] eqn:Elp; [|done]. destruct Hf as [Hlp Hcp].
  set (ch1 := set_members (users ch) (or_flags CHFL_ZOMBIE u (members ch)) ch).
  assert (Hnd := members_nodup _ _ _ (proj1 (proj1 HI)) c _ (bodies_lookup _ _ _ Hc)).
  assert (Hfind := find_or_flags CHFL_ZOMBIE u u (members ch)).
  rewrite Elp in Hfind. simpl in Hfind. rewrite decide_True in Hfind by done.
  change (existsb live (members ch1)) with (existsb live (or_flags CHFL_ZOMBIE u (members ch))).
  rewrite (or_flags_live u (members ch)) by done.
  destruct (decide (Exists (fun l => live l = true /\ cptr l <> u) (members ch))) as [Hex|Hex].
  - rewrite (proj2 (another_spec _ _) Hex). intros [= <-].
    assert (Hmem : IsMember u ch1 = None).
    { unfold IsMember. simpl. rewrite Hfind. simpl. by rewrite has_zombie_lor. }
    exists ch1. split; [apply lookup_insert_eq|]. split; [done|]. split; [|split; [|split; [done|]]].
    + unfold flags_on. simpl. rewrite lookup_insert_eq, Hc. simpl. by rewrite Hfind, Elp.
    + intros v k Hvk. unfold flags_on. simpl. destruct (decide (k = c)) as [->|Hk].
      * rewrite lookup_insert_eq, Hc. simpl. rewrite find_or_flags.
        destruct (find_user_link (members ch) v); [|done]. simpl. rewrite decide_False by congruence. done.
      * by rewrite lookup_insert_ne.
    + unfold is_chan_op, is_chan_owner, has_voice, flag_of. rewrite Hmem. split_and!; try done.
      simpl. rewrite zombies_or_flags, Elp by done. unfold IsMember, live. rewrite Elp.
      by destruct (has (lflags lp) CHFL_ZOMBIE).
  - assert (Ha : another u (members ch) = false) by (apply not_true_is_false; by rewrite another_spec).
    rewrite Ha. intros E v.
    assert (Hids : cptr <$> members ch1 = cptr <$> members ch) by apply or_flags_ids.
    assert (HG1 : Good None (put_chan c ch1 st)).
    { apply (Good_put None None st c ch); try done; [apply HI|].
      rewrite <- (length_fmap cptr (members ch1)), Hids, length_fmap.
      apply (g_users _ _ _ (proj1 (proj1 HI)) c _ (bodies_lookup _ _ _ Hc)). }
    destruct (remove_user_spec (put_chan c ch1 st) u c ch1 x HG1 (lookup_insert_eq _ _ _) Hu)
      as (st2&E2&_&Heff); [by rewrite Hids|].
    rewrite E in E2. injection E2 as <-. unfold ch1 in Heff at 1. simpl members in Heff.
    assert (Ha1 : another u (or_flags CHFL_ZOMBIE u (members ch)) = false).
    { rewrite another_or_flags. done. }
    rewrite Ha1 in Heff. destruct Heff as [EB _]. rewrite flags_on_bodies, EB.
    destruct (has _ _); [by rewrite lookup_insert_eq|by rewrite lookup_delete_eq].
Qed.

Lemma kick_correct_witness :
  let evs := [EClient 1 (str "ana") true plain; EClient 2 (str "bob") false plain;
    EJoin 1 [at_once (str "#a") 10] 5 None None; EJoin 2 [at_once (str "#a") 11] 6 None None] in
  match run (init : ircd) evs with
  | Ok st => exists st', kick st 2 10 false = Ok st'
  | _ => False
  end.
Proof.
  intros evs. destruct (run init evs) as [st| |] eqn:E; [|vm_compute in E; discriminate..].
  assert (Hl : legal_run (init : ircd) evs) by (apply legal_runb_sound; vm_compute; reflexivity).
  destruct (chans st !! 10%nat) as [ch|] eqn:Ec, (clients st !! 2%nat) as [x|] eqn:Ex;
    try (vm_compute in E; injection E as <-; first [vm_compute in Ec; discriminate|vm_compute in Ex; discriminate]).
  assert (Hx : my x = false).
  { vm_compute in E. injection E as <-. vm_compute in Ex. injection Ex as <-. reflexivity. }
  assert (Hin : 2%nat ∈ cptr <$> members ch).
  { apply (bool_decide_unpack _). vm_compute in E. injection E as <-. vm_compute in Ec. injection Ec as <-.
    vm_compute. exact I. }
  destruct (kick_correct evs st 2 10 ch x Hl E Ec Ex Hx Hin) as (st'&E'&_). by exists st'.
Defined.

(** The invitations of a client are the last ten: add_invite() puts the channel at
    their end, forgets an older invitation to the same channel, and otherwise the
    oldest one when there are already ten. *)
Theorem add_invite_correct evs (st : ircd) u c ch x :
  legal_run init evs -> run init evs = Ok st ->
  chans st !! c = Some ch -> clients st !! u = Some x -> my x = true ->
  exists st' x', add_invite st u c = Ok st' /\ consistent st' /\ clients st' !! u = Some x' /\
    invited x' = lastn 10 (filter (fun k => k <> c) (invited x) ++ [c]).
Proof.
  intros Hl Hr Hc Hu Hmy. assert (HI := reached _ _ Hl Hr).
  destruct (add_invite_inv st u c ch x HI Hc Hu Hmy) as (st'&x'&E&HI'&Hu'&Hinv).
  exists st', x'. split; [done|]. split; [by apply Inv_consistent|]. split; [done|]. rewrite Hinv.
  assert (Hnd := invited_nodup _ _ _ (proj1 (proj1 HI)) u x Hu).
  rewrite <- (unlink_filter c (invited x)) by done.
  assert (Hmax : (length (unlink id c (invited x)) <= MAXCHANNELSPERUSER)%nat).
  { etrans; [|apply (g_max _ _ _ (proj1 (proj1 HI)) u x Hu)]. rewrite unlink_filter by done.
    apply length_filter. }
  unfold make_room, lastn, MAXCHANNELSPERUSER in *. rewrite length_app. simpl.
  destruct (decide _).
  - replace (length (unlink id c (invited x)) + 1 - 10)%nat with 1%nat by lia.
    destruct (unlink id c (invited x)); [simpl in *; lia|done].
  - by replace (length (unlink id c (invited x)) + 1 - 10)%nat with 0%nat by lia.
Qed.

Lemma add_invite_correct_witness :
  let evs := [EClient 1 (str "ana") true plain; EClient 2 (str "bob") true plain;
    EJoin 1 [at_once (str "#a") 10] 5 None None] in
  match run (init : ircd) evs with
  | Ok st => exists st' x', add_invite st 2 10 = Ok st' /\ clients st' !! 2%nat = Some x' /\ invited x' = [10%nat]
  | _ => False
  end.
Proof.
  intros evs. destruct (run init evs) as [st| |] eqn:E; [|vm_compute in E; discriminate..].
  assert (Hl : legal_run (init : ircd) evs) by (apply legal_runb_sound; vm_compute; reflexivity).
  destruct (chans st !! 10%nat) as [ch|] eqn:Ec, (clients st !! 2%nat) as [x|] eqn:Ex;
    try (vm_compute in E; injection E as <-; first [vm_compute in Ec; discriminate|vm_compute in Ex; discriminate]).
  assert (Hx : my x = true /\ invited x = []).
  { vm_compute in E. injection E as <-. vm_compute in Ex. injection Ex as <-. split; reflexivity. }
  destruct Hx as [Hx Hi].
  destruct (add_invite_correct evs st 2 10 ch x Hl E Ec Ex Hx) as (st'&x'&E'&_&Hu'&Hinv).
  exists st', x'. rewrite Hi in Hinv. split; [exact E'|]. split; [exact Hu'|exact Hinv].
Defined.

(** The variable [zombie] of m_join() is not reset between the channels of one
    JOIN: a client that comes back to a channel where it was kicked as operator,
    and joins a second channel with the same message, is not marked as deopped on
    the second one, as it is when it joins that channel alone. *)
Theorem m_join_zombie_leaks :
  let before := [EClient 1 (str "a") true plain; EClient 2 (str "b") false plain;
    ECreate 2 (str "#a") 5 5 10; EJoin 1 [at_once (str "#a") 11] 5 None None;
    EJoin 1 [at_once (str "#b") 12] 5 None None; EKick 2 10 false] in
  legal_run (init : ircd) (before ++ [EJoin 2 [at_once (str "#a") 13; at_once (str "#b") 14] 6 None None]) /\
  match run (init : ircd) (before ++ [EJoin 2 [at_once (str "#a") 13; at_once (str "#b") 14] 6 None None]),
        run (init : ircd) (before ++ [EJoin 2 [at_once (str "#b") 13] 6 None None]) with
  | Ok both, Ok alone => flags_on both 2 12 = Some 0 /\ flags_on alone 2 12 = Some CHFL_DEOPPED
  | _, _ => False
  end.
Proof. split; [apply legal_runb_sound; vm_compute; reflexivity|]. vm_compute. split; reflexivity. Qed.
