(* ===== verification/Mmatch.v ===== *)
(** Mmatch: mmatch() of ircd/match.c, which compares two masks.

    A ban that a new ban covers is dropped from the list of bans; mmatch() says
    when.  Both masks are buffers with their terminator, and the pointers of the
    source are indices: the function looks back from [m] as well as forward.  The
    specification is inclusion of the strings that the masks stand for. *)

From S2P Require Import Prelude Common Match.

(** * The function *)

(** [while ( *m == '*') m++;] *)
Fixpoint skip_stars (fuel : nat) (M : list ascii) (m : nat) : result nat :=
  match fuel with
  | O => Fuel
  | S fuel => c ← rd M m; if decide (c = "*"%char) then skip_stars fuel M (S m) else Ok m
  end.

(** [for (m--; (m > old_mask) && ( *m == '?'); m--) ;] *)
Fixpoint back_over (M : list ascii) (m : nat) : result nat :=
  match m with
  | O => Ok O
  | S m' => c ← rd M m; if decide (c = "?"%char) then back_over M m' else Ok m
  end.

(** At an escaped wildcard? *)
Definition at_escape (M : list ascii) (m : nat) : result bool :=
  c ← rd M m;
  if decide (c = "\"%char) then d ← rd M (S m); Ok (bool_decide (is_wild d)) else Ok false.

(** [if (( *na == '\\') && ...) ++na; n = ++na;] *)
Definition retry (N : list ascii) (na : nat) : result nat :=
  e ← at_escape N na; Ok (if e : bool then S (S na) else S na).

(** The lower half of the loop: [loop] is the next turn. *)
Definition mm_compare (loop : nat -> nat -> nat -> nat -> bool -> result Z) (M N : list ascii)
    (m n ma na : nat) (wild : bool) : result Z :=
  mq ← at_escape M m;
  nq ← at_escape N n;
  let m := if mq : bool then S m else m in
  let n := if nq : bool then S n else n in
  c ← rd M m; d ← rd N n;
  if decide ((c = "*"%char /\ mq = false) \/
             ((mq = false \/ nq = true) /\ toLower c = toLower d) \/
             (c = "?"%char /\ mq = false /\ (d <> "*"%char \/ nq = true))) then
    loop (if decide (c = NUL) then m else S m) (if decide (d = NUL) then n else S n) ma na wild
  else if wild then na ← retry N na; loop ma na ma na wild
  else Ok 1.

(** Does the mask end in a star and question marks?  The loop [for (m--; ...)] and
    the test after it; the star is not noticed at the start of the mask. *)
Definition ends_in_star (M : list ascii) (m : nat) : result bool :=
  k ← back_over M m;
  c ← rd M k;
  esc ← match k with O => Ok true | S k' => e ← rd M k'; Ok (bool_decide (e = "\"%char)) end;
  Ok (bool_decide (c = "*"%char /\ esc = false)).

(** The turn from [if (!*m)] on *)
Definition mm_turn (loop : nat -> nat -> nat -> nat -> bool -> result Z) (M N : list ascii)
    (m n ma na : nat) (wild : bool) : result Z :=
  c ← rd M m; d ← rd N n;
  if decide (c = NUL) then
    if decide (d = NUL) then Ok 0
    else
      match m with
      | O => Ub
      | S m' =>
          e ← ends_in_star M m';
          if e : bool then Ok 0
          else if wild then na ← retry N na; mm_compare loop M N ma na ma na wild
          else Ok 1
      end
  else if decide (d = NUL) then
    m ← skip_stars (S (length M)) M m; c ← rd M m; Ok (if decide (c = NUL) then 0 else 1)
  else mm_compare loop M N m n ma na wild.

Fixpoint mmatch_loop (fuel : nat) (M N : list ascii) (m n ma na : nat) (wild : bool) : result Z :=
  match fuel with
  | O => Fuel
  | S fuel =>
      c ← rd M m;
      if decide (c = "*"%char) then
        m ← skip_stars (S (length M)) M m; mm_turn (mmatch_loop fuel M N) M N m n m n true
      else mm_turn (mmatch_loop fuel M N) M N m n ma na wild
  end.

(** The fuel is the number of pairs of positions, a bound for the backtracking. *)
Definition mmatch (old_mask new_mask : cstring) : result Z :=
  mmatch_loop (S (length old_mask) * S (S (length new_mask)) * 2) (old_mask ++ [NUL]) (new_mask ++ [NUL])
    0 0 0 0 false.

(** * What it means that a mask covers another *)

(** A token other than a star covers a token: "a '*' in [new_mask] does not match a
    '?' in [old_mask]". *)
Definition covers1 (t u : token) : Prop :=
  match t, u with
  | Lit c, Lit d => toLower c = toLower d
  | Any, Lit _ | Any, Any => True
  | _, _ => False
  end.
#[export] Instance covers1_dec t u : Decision (covers1 t u).
Proof. destruct t, u; simpl; apply _. Defined.

(** Token by token, a star for any tokens.  A mask that ends in a star and question
    marks covers every mask that has as many tokens other than stars in a row. *)
Inductive covers : list token -> list token -> Prop :=
  | covers_nil : covers [] []
  | covers_one t u ts us : covers1 t u -> covers ts us -> covers (t :: ts) (u :: us)
  | covers_star_nil ts us : covers ts us -> covers (Star :: ts) us
  | covers_star_cons ts u us : covers (Star :: ts) us -> covers (Star :: ts) (u :: us)
  | covers_tail ds us : star_free ds -> covers (Star :: replicate (length ds) Any) (ds ++ us).

(** The rest of a mask after a star covers from here on. *)
Definition starts (ts us : list token) : Prop :=
  covers ts us \/ exists ds vs, ts = replicate (length ds) Any /\ us = ds ++ vs /\ star_free ds.

Definition is_lit (t : token) : Prop := match t with Lit _ => True | _ => False end.
#[export] Instance is_lit_dec t : Decision (is_lit t).
Proof. destruct t; apply _. Defined.

(** Every string of the second mask is one of the first. *)
Definition includes (ts us : list token) : Prop := forall s, glob toLower us s -> glob toLower ts s.

(** * Laws of [covers] and [includes] *)

Lemma covers1_star_free cs ds : Forall2 covers1 cs ds -> star_free cs.
Proof. induction 1 as [|t u ? ? H]; constructor; [by destruct t, u|done]. Qed.

Lemma covers_inv t u ts us : t <> Star -> covers (t :: ts) (u :: us) <-> covers1 t u /\ covers ts us.
Proof. intros Ht. split; [inversion 1; naive_solver|intros [? ?]; by constructor]. Qed.

Lemma covers_chunk cs ds ts us : Forall2 covers1 cs ds -> covers (cs ++ ts) (ds ++ us) <-> covers ts us.
Proof.
  induction 1 as [|t u cs ds H _ IH]; [done|]. cbn [app]. rewrite covers_inv, IH; [naive_solver|].
  by destruct t, u.
Qed.

Lemma covers_star_app ts us vs : covers (Star :: ts) vs -> covers (Star :: ts) (us ++ vs).
Proof. intros H. induction us; simpl; auto using covers_star_cons. Qed.

Lemma covers_star_inv ts us : covers (Star :: ts) us <-> exists vs ws, us = vs ++ ws /\ starts ts ws.
Proof.
  split.
  - intros H. remember (Star :: ts) as ts' eqn:E. revert E.
    induction H as [|t u ts1 us1 H1| | |ds us Hf]; intros E; simplify_eq/=; [done|by exists [], us; split; [|left]| |].
    + destruct IHcovers as (vs&ws&->&?); [done|]. by exists (u :: vs), ws.
    + exists [], (ds ++ us). split; [done|]. right. by exists ds, us.
  - intros (vs&ws&->&[?|(ds&xs&->&->&?)]); apply covers_star_app; by constructor.
Qed.

Lemma starts_star ts us : starts (Star :: ts) us <-> covers (Star :: ts) us.
Proof. split; [intros [?|([|d ds]&vs&?&_)]; done|by left]. Qed.

Lemma starts_app_star cs ts us : starts (cs ++ Star :: ts) us -> covers (cs ++ Star :: ts) us.
Proof.
  intros [?|(ds&vs&E&_)]; [done|]. exfalso.
  assert (Star ∈ replicate (length ds) Any) as H by (rewrite <- E; apply elem_of_app; right; left).
  by apply elem_of_replicate in H as [? _].
Qed.

Lemma covers_app_inv cs ts us :
  star_free cs -> covers (cs ++ ts) us ->
  exists ds vs, us = ds ++ vs /\ length ds = length cs /\ covers ts vs.
Proof.
  intros Hf. revert us. induction Hf as [|t cs Ht _ IH]; intros us H; [by exists [], us|].
  cbn [app] in H. destruct us as [|u us]; [inversion H; by subst|]. apply covers_inv in H as [_ H]; [|done].
  apply IH in H as (ds&vs&->&Hl&?). exists (u :: ds), vs. simpl. auto.
Qed.

Lemma minlen_anys k : minlen (replicate k Any) = k.
Proof. induction k; [done|]. cbn [replicate]. rewrite minlen_cons. simpl. lia. Qed.

Lemma minlen_star_free ds : star_free ds -> minlen ds = length ds.
Proof.
  induction 1 as [|d ds Hd _ IH]; [done|]. rewrite minlen_cons, decide_False by done. simpl. by rewrite IH.
Qed.

Lemma covers_minlen ts us : covers ts us -> (minlen ts <= length us)%nat.
Proof.
  induction 1; [done|..]; rewrite ?minlen_cons in *; repeat case_decide; simpl in *; try lia; try congruence.
  rewrite minlen_anys, length_app. lia.
Qed.

Lemma minlen_chunk cs ds : Forall2 covers1 cs ds -> minlen cs = length ds.
Proof.
  induction 1 as [|t u cs ds H _ IH]; [done|]. rewrite minlen_cons, decide_False by by destruct t, u.
  simpl. by rewrite IH.
Qed.

Lemma includes_star us u ts : includes (Star :: ts) us -> includes (Star :: ts) (u :: us).
Proof.
  intros H s Hs. change (u :: us) with ([u] ++ us) in Hs.
  apply glob_app_inv in Hs as (s1&s2&->&_&Hs). by apply glob_star_app, H.
Qed.

Lemma includes_app ts1 us1 ts2 us2 : includes ts1 us1 -> includes ts2 us2 -> includes (ts1 ++ ts2) (us1 ++ us2).
Proof. intros H1 H2 s (s1&s2&->&?&?)%glob_app_inv. apply glob_app; auto. Qed.

Lemma includes_chunk cs ds : Forall2 covers1 cs ds -> includes cs ds.
Proof.
  induction 1 as [|t u cs ds H _ IH]; [by intros s|].
  change (includes ([t] ++ cs) ([u] ++ ds)). apply includes_app; [|done]. intros s Hs.
  destruct t as [| |c], u as [| |d]; simpl in H; try done.
  - apply glob_lit_inv in Hs as (a&s'&->&_&Hs). by constructor.
  - apply glob_lit_inv in Hs as (a&s'&->&Ha&Hs). constructor; [congruence|done].
Qed.

Lemma includes_refl ts : includes ts ts.
Proof. by intros s. Qed.

Lemma glob_stars_nil n : glob toLower (replicate n Star) [].
Proof. induction n; simpl; by constructor. Qed.

Lemma glob_stars n ts s : glob toLower (replicate (S n) Star ++ ts) s <-> glob toLower (Star :: ts) s.
Proof. induction n as [|n IH]; [done|]. rewrite <- IH. simpl. by rewrite glob_star_star. Qed.

Lemma glob_anys n s : glob toLower (replicate n Any) s <-> length s = n.
Proof.
  revert s. induction n as [|n IH]; intros s; simpl.
  - rewrite glob_nil_inv. by destruct s.
  - rewrite glob_any_inv. split; [intros (a&s'&->&?%IH); simpl; by f_equal|].
    destruct s as [|a s]; [done|]. intros [= ?]. exists a, s. split; [done|]. by apply IH.
Qed.

(** "*??" covers what has two characters at least. *)
Lemma includes_star_anys k us : (k <= minlen us)%nat -> includes (Star :: replicate k Any) us.
Proof.
  intros Hk s Hs. apply glob_minlen in Hs. rewrite <- (take_drop (length s - k) s).
  apply glob_star_app. constructor. apply glob_anys. rewrite length_drop. lia.
Qed.

Lemma covers_includes ts us : covers ts us -> includes ts us.
Proof.
  induction 1 as [|t u ts us H _ IH|ts us _ IH|ts u us _ IH|ds us Hf].
  - apply includes_refl.
  - apply (includes_app [t] [u]); [|done]. apply includes_chunk. by repeat constructor.
  - intros s Hs. constructor. by apply IH.
  - by apply includes_star.
  - apply includes_star_anys. rewrite minlen_app, minlen_star_free by done. lia.
Qed.

(** * One answer of the loop *)

Section answer.
(** Whether the code is complete: not for "*??" alone, see below. *)
Variable complete : Prop.

(** [r] is a result for the masks [ts] and [us]. *)
Definition answer (ts us : list token) (r : Z) : Prop :=
  (complete -> covers ts us -> r = 0) /\ (r = 0 -> covers ts us).

Definition starred (wild : bool) (ts : list token) : list token := if wild then Star :: ts else ts.

Lemma answer_mono ts us ts' us' r :
  (complete -> covers ts us -> covers ts' us') -> (covers ts' us' -> covers ts us) ->
  answer ts' us' r -> answer ts us r.
Proof. unfold answer. tauto. Qed.

Lemma answer_refused ts us r : r <> 0 -> ~ covers ts us -> answer ts us r.
Proof. unfold answer. tauto. Qed.

Lemma answer_accepted ts us : covers ts us -> answer ts us 0.
Proof. unfold answer. tauto. Qed.

(** A new star is found: the chunk before it is settled. *)
Lemma answer_star wild cs ds j ts us r :
  Forall2 covers1 cs ds -> answer (Star :: ts) us r ->
  answer (starred wild (cs ++ replicate (S j) Star ++ ts)) (ds ++ us) r.
Proof.
  intros Hc. apply answer_mono; clear r; [intros _|].
  - assert (Hj : forall vs, covers (replicate (S j) Star ++ ts) vs -> covers (Star :: ts) vs).
    { induction j as [|j IH]; intros vs H; [done|]. cbn [replicate app] in H.
      apply covers_star_inv in H as (ws&xs&->&H). apply covers_star_app, IH. by apply starts_star. }
    destruct wild; simpl starred; [|intros H; apply Hj; by rewrite covers_chunk in H].
    intros (vs&ws&E&H)%covers_star_inv. pose proof (covers1_star_free _ _ Hc) as Hf.
    apply starts_app_star in H. apply covers_app_inv in H as (xs&ys&->&Hl&H); [|done]. apply Hj in H.
    pose proof (Forall2_length _ _ _ Hc).
    assert (us = drop (length ds) (vs ++ xs) ++ ys) as ->; [|by apply covers_star_app].
    rewrite <- (drop_app_length ds us), E, app_assoc, drop_app_le; [done|]. rewrite length_app. lia.
  - intros H. assert (covers (cs ++ replicate (S j) Star ++ ts) (ds ++ us)) as Hi.
    { apply covers_chunk; [done|]. induction j; [done|]. by apply covers_star_nil. }
    destruct wild; [|done]. by apply covers_star_nil.
Qed.

(** A mismatch under a star: try again one token further. *)
Lemma answer_retry cs ds ts us v vs r :
  Forall2 covers1 cs ds -> (complete -> ~ starts (cs ++ ts) (ds ++ us)) -> ds ++ us = v :: vs ->
  answer (Star :: cs ++ ts) vs r -> answer (Star :: cs ++ ts) (ds ++ us) r.
Proof.
  intros Hc Hn E. rewrite E in *. apply answer_mono; [|by apply covers_star_cons].
  intros Hcp ([|w ws]&xs&Ex&H)%covers_star_inv; simplify_eq/=; [by apply Hn in H|].
  apply covers_star_inv. by exists ws, xs.
Qed.

(** The second mask has ended. *)
Lemma answer_end wild cs ds ts r :
  Forall2 covers1 cs ds -> (r = 0 -> exists j, ts = replicate j Star) -> (r <> 0 -> (0 < minlen ts)%nat) ->
  answer (starred wild (cs ++ ts)) ds r.
Proof.
  intros Hc H0 H1. split.
  - intros _ H. destruct (decide (r = 0)) as [|Hr]; [done|]. apply H1 in Hr. apply covers_minlen in H.
    assert (minlen (starred wild (cs ++ ts)) = minlen (cs ++ ts)) as E.
    { destruct wild; [|done]. cbn [starred]. by rewrite minlen_cons, decide_True. }
    rewrite E, minlen_app, (minlen_chunk _ _ Hc) in H. lia.
  - intros (j&->)%H0. assert (covers (cs ++ replicate j Star) ds) as Hi.
    { rewrite <- (app_nil_r ds). apply covers_chunk; [done|]. clear H0 H1. induction j; simpl; [constructor|by apply covers_star_nil]. }
    destruct wild; [|done]. by apply covers_star_nil.
Qed.

End answer.

(** * Masks and positions *)

Definition first_token (p : cstring) : token :=
  if decide (escaped p) then Lit (chr (adv p))
  else if decide (chr p = "*"%char) then Star
  else if decide (chr p = "?"%char) then Any else Lit (chr p).

Definition token_size (p : cstring) : nat := if decide (escaped p) then 2 else 1.

Lemma tokens_step p :
  p <> [] -> tokens p = first_token p :: tokens (drop (token_size p) p) /\ (token_size p <= length p)%nat.
Proof.
  intros Hp. unfold first_token, token_size.
  destruct (mask_view_tokens p) as [|m ts Hv|m ts Hv|d m ts Hd Hv|c m ts Hw He Hv];
    [done|apply mask_view_det in Hv as ->..].
  - simpl. split; [done|lia].
  - simpl. split; [done|lia].
  - rewrite !(decide_True (P := escaped _)) by (split; [done|exact Hd]). simpl. split; [done|lia].
  - apply not_is_wild in Hw as [? ?]. rewrite !(decide_False (P := escaped _)) by done. simpl.
    rewrite !decide_False by done. split; [done|lia].
Qed.

(** The terminator is not a wildcard, nor does it escape one. *)
Lemma first_token_star p : first_token p = Star <-> chr p = "*"%char.
Proof.
  unfold first_token. case_decide as He; [|repeat case_decide; simplify_eq; done].
  destruct He as [-> _]. done.
Qed.

Section position.
Variables (old : list ascii) (m : nat).
Hypothesis Hm : (m <= length old)%nat.

Lemma chr_position : rd (old ++ [NUL]) m = Ok (chr (drop m old)).
Proof.
  unfold rd. destruct (decide (m = length old)) as [->|].
  - rewrite list_lookup_middle by done. by rewrite drop_ge.
  - rewrite lookup_app_l by lia. destruct (lookup_lt_is_Some_2 old m) as [c Hc]; [lia|].
    rewrite Hc. by rewrite (drop_S _ _ _ Hc).
Qed.

End position.

Lemma tl_drop' old m : adv (drop m old) = drop (S m) old.
Proof. revert m. induction old as [|c old IH]; intros [|m]; simpl; [done..|by destruct old|apply IH]. Qed.

Lemma at_escape_position old m :
  (m <= length old)%nat -> at_escape (old ++ [NUL]) m = Ok (bool_decide (escaped (drop m old))).
Proof.
  intros Hm. unfold at_escape. rewrite (chr_position old m) by done. cbn [mbind result_bind].
  case_decide as Hc; [|by rewrite bool_decide_eq_false_2 by (unfold escaped; tauto)].
  assert (m < length old)%nat.
  { destruct (decide (m = length old)) as [->|]; [|lia]. by rewrite drop_ge in Hc. }
  rewrite chr_position by lia. cbn [mbind result_bind]. f_equal.
  apply bool_decide_ext. unfold escaped. rewrite tl_drop'. tauto.
Qed.

(** * The pieces of the loop *)

Lemma drop_nil_ge {A} (l : list A) m : (m <= length l)%nat -> drop m l = [] <-> m = length l.
Proof. intros Hm. rewrite <- length_zero_iff_nil, length_drop. lia. Qed.

Lemma skip_stars_spec fuel (old : list ascii) m :
  (m <= length old)%nat -> (length old - m < fuel)%nat ->
  exists j m', skip_stars fuel (old ++ [NUL]) m = Ok m' /\ (m + j = m')%nat /\ (m' <= length old)%nat /\
    tokens (drop m old) = replicate j Star ++ tokens (drop m' old) /\ chr (drop m' old) <> "*"%char /\
    (chr (drop m old) = "*"%char -> 0 < j)%nat /\ forall i, (m <= i < m')%nat -> old !! i = Some "*"%char.
Proof.
  revert m. induction fuel as [|fuel IH]; intros m Hm Hf; [lia|].
  cbn [skip_stars]. rewrite chr_position by done. cbn [mbind result_bind].
  destruct (decide (chr (drop m old) = "*"%char)) as [E|E].
  - assert (m <> length old) by (intros ->; by rewrite drop_ge in E).
    destruct (lookup_lt_is_Some_2 old m) as [c Hx]; [lia|].
    rewrite (drop_S _ _ _ Hx) in *. cbn [chr hd] in E. subst c.
    destruct (IH (S m)) as (j&m'&Hs&Hj&Hl&Ht&Hc&_&Hi); [lia..|]. exists (S j), m'.
    split_and!; [done|lia|lia|cbn; by rewrite Ht|done|lia|].
    intros i Hmi. destruct (decide (i = m)) as [->|]; [done|]. apply Hi. lia.
  - exists 0%nat, m. split_and!; try done. intros i Hi. lia.
Qed.

Lemma retry_spec new na :
  (na < length new)%nat ->
  exists na', retry (new ++ [NUL]) na = Ok na' /\ (na < na' <= length new)%nat /\
    tokens (drop na new) = first_token (drop na new) :: tokens (drop na' new).
Proof.
  intros Hn. unfold retry. rewrite at_escape_position by lia. cbn [mbind result_bind].
  destruct (tokens_step (drop na new)) as [Ht Hs].
  { intros E%drop_nil_ge; lia. }
  rewrite drop_drop in Ht. rewrite length_drop in Hs. exists (na + token_size (drop na new))%nat.
  unfold token_size in *. destruct (decide (escaped (drop na new))) as [He|He].
  - rewrite bool_decide_eq_true_2 by done. split_and!; [f_equal; lia|lia|lia|done].
  - rewrite bool_decide_eq_false_2 by done. split_and!; [f_equal; lia|lia|lia|done].
Qed.

Lemma toLower_wild c d : is_wild d -> toLower c = toLower d -> c = d.
Proof.
  intros Hd. revert c. destruct Hd as [->| ->].
  - apply (forall_ascii_dec (fun c => toLower c = toLower "*"%char -> c = "*"%char)). vm_compute. reflexivity.
  - apply (forall_ascii_dec (fun c => toLower c = toLower "?"%char -> c = "?"%char)). vm_compute. reflexivity.
Qed.

(** The character that is compared at a position. *)
Definition token_chr (p : cstring) : ascii := if decide (escaped p) then chr (adv p) else chr p.

(** The condition of the code, after "2 hours" of reworking, is [covers1]. *)
Lemma condition_covers1 p q :
  first_token p <> Star ->
  (token_chr p = "*"%char /\ bool_decide (escaped p) = false) \/
  ((bool_decide (escaped p) = false \/ bool_decide (escaped q) = true) /\
     toLower (token_chr p) = toLower (token_chr q)) \/
  (token_chr p = "?"%char /\ bool_decide (escaped p) = false /\
     (token_chr q <> "*"%char \/ bool_decide (escaped q) = true)) <->
  covers1 (first_token p) (first_token q).
Proof.
  unfold first_token, token_chr. intros Hp.
  destruct (decide (escaped p)) as [Hep|Hep].
  - rewrite (bool_decide_eq_true_2 (escaped p)) by done. destruct Hep as [_ Hw].
    destruct (decide (escaped q)) as [Heq|Heq].
    + rewrite bool_decide_eq_true_2 by done. simpl. naive_solver.
    + rewrite bool_decide_eq_false_2 by done. split; [naive_solver|].
      repeat case_decide; simpl; try done. intros E%eq_sym%toLower_wild; [|done].
      unfold is_wild in Hw. rewrite <- E in Hw. tauto.
  - rewrite (bool_decide_eq_false_2 (escaped p)) by done.
    destruct (decide (chr p = "*"%char)) as [Es|Es]; [done|].
    destruct (decide (escaped q)) as [Heq|Heq]; [rewrite (bool_decide_eq_true_2 (escaped q)) by done
      |rewrite (bool_decide_eq_false_2 (escaped q)) by done].
    + case_decide; simpl; naive_solver.
    + pose proof (toLower_wild (chr p) "*" (or_introl eq_refl)).
      pose proof (toLower_wild (chr p) "?" (or_intror eq_refl)).
      revert Es Hp H H0. generalize (chr p) (chr q). intros c d. repeat case_decide; simpl; subst; naive_solver.
Qed.

(** Going back over the last question marks *)
Lemma back_over_spec old m :
  (m < length old)%nat ->
  exists k, back_over (old ++ [NUL]) m = Ok k /\ (k <= m)%nat /\
    (forall i, (k < i <= m)%nat -> old !! i = Some "?"%char) /\ (0 < k -> old !! k <> Some "?"%char)%nat.
Proof.
  induction m as [|m IH]; intros Hm; [exists 0%nat; split_and!; [done..|lia|lia]|].
  cbn [back_over]. rewrite chr_position by lia. cbn [mbind result_bind].
  destruct (lookup_lt_is_Some_2 old (S m)) as [c Hc]; [lia|]. rewrite (drop_S _ _ _ Hc). cbn [chr hd].
  case_decide as E.
  - destruct IH as (k&Hk&Hle&Hq&Hn); [lia|]. exists k. split_and!; [done|lia| |done]. intros i Hi.
    destruct (decide (i = S m)) as [->|]; [by subst|apply Hq; lia].
  - exists (S m). split_and!; [done|lia|lia|]. intros _. rewrite Hc. by intros [=].
Qed.

(** A star that is not escaped is a token of the mask. *)
Lemma star_in_tokens (p : list ascii) i :
  p !! i = Some "*"%char -> (forall j, i = S j -> p !! j <> Some "\"%char) -> Star ∈ tokens p.
Proof.
  revert i. induction (mask_view_tokens p) as [|m ts _ IH|m ts _ IH|d m ts Hd _ IH|c m ts Hw He _ IH];
    intros i Hi Hj.
  - done.
  - left.
  - destruct i as [|i]; [done|]. right. apply (IH i); [done|]. intros j ->. apply (Hj (S j)). done.
  - destruct i as [|[|i]]; [done|by destruct (Hj 0%nat)|]. right. apply (IH i); [done|].
    intros j ->. apply (Hj (S (S j))). done.
  - destruct i as [|i]; [destruct Hw; left; by simplify_eq/=|]. right. apply (IH i); [done|].
    intros j ->. apply (Hj (S j)). done.
Qed.

Lemma tokens_anys (p : list ascii) : (forall i, (i < length p)%nat -> p !! i = Some "?"%char) -> tokens p = replicate (length p) Any.
Proof.
  induction p as [|c p IH]; intros H; [done|]. pose proof (H 0%nat ltac:(simpl; lia)) as Hc. simpl in Hc.
  simplify_eq. simpl. f_equal. apply IH. intros i Hi. apply (H (S i)). simpl. lia.
Qed.

Lemma anys_tokens (p : list ascii) n :
  tokens p = replicate n Any -> forall i, (i < length p)%nat -> p !! i = Some "?"%char.
Proof.
  revert n. induction (mask_view_tokens p) as [|m ts _ IH|m ts _ IH|d m ts Hd _ IH|c m ts Hw He _ IH];
    intros [|n] E i Hi; simplify_eq/=; try lia.
  destruct i as [|i]; [done|]. apply (IH n); [done|lia].
Qed.

(** What the early [return 0] relies on *)
Lemma back_over_star old ma k :
  (ma <= length old)%nat -> star_free (tokens (drop ma old)) ->
  (forall i, (k < i < length old)%nat -> old !! i = Some "?"%char) ->
  old !! k = Some "*"%char -> (forall j, k = S j -> old !! j <> Some "\"%char) ->
  (k < ma)%nat /\ tokens (drop ma old) = replicate (length old - ma) Any.
Proof.
  intros Hm Hf Hq Hk Hj. assert (k < ma)%nat as Hlt.
  { destruct (decide (k < ma)%nat) as [|Hge]; [done|]. exfalso.
    assert (Star ∈ tokens (drop ma old)) as Hs.
    { apply (star_in_tokens _ (k - ma)).
      - rewrite lookup_drop. by replace (ma + (k - ma))%nat with k by lia.
      - intros j E. rewrite lookup_drop. apply Hj. lia. }
    unfold star_free in Hf. rewrite Forall_forall in Hf. by destruct (Hf Star). }
  split; [done|]. rewrite tokens_anys, length_drop; [done|].
  intros i Hi. rewrite length_drop in Hi. rewrite lookup_drop. apply Hq. lia.
Qed.

(** * The loop *)

Section loop.
Variables (old new : list ascii).
Hypotheses (Hold : is_cstr old) (Hnew : is_cstr new).

Lemma chr_drop_nul p m : is_cstr p -> (m <= length p)%nat -> chr (drop m p) = NUL <-> m = length p.
Proof.
  intros Hp Hm. rewrite chr_nul; [by apply drop_nil_ge|]. unfold is_cstr in *. by apply Forall_drop.
Qed.

(** A mask with a character that is not a wildcard *)
Let complete : Prop := Exists is_lit (tokens old).

(** A star that is not escaped stands before the position. *)
Definition star_before (ma : nat) : Prop :=
  exists k, ma = S k /\ old !! k = Some "*"%char /\ forall j, k = S j -> old !! j <> Some "\"%char.

(** The pointers of a turn: what lies between the last star and the present
    position has been matched token by token. *)
Record turn (m n ma na : nat) (wild : bool) (cs ds : list token) : Prop := {
  t_m : (m <= length old)%nat;
  t_n : (n <= length new)%nat;
  t_ma : (ma <= length old)%nat;
  t_na : (na <= n)%nat;
  t_old : tokens (drop ma old) = cs ++ tokens (drop m old);
  t_new : tokens (drop na new) = ds ++ tokens (drop n new);
  t_chunk : Forall2 covers1 cs ds;
  t_wild : if wild then star_before ma else ma = 0%nat;
  t_align : forall j, m = S j -> old !! j = Some "\"%char -> ~ is_wild (chr (drop m old)) }.

Lemma turn_start m n :
  (m <= length old)%nat -> (n <= length new)%nat -> star_before m -> turn m n m n true [] [].
Proof. intros ? ? Hs. constructor; try done. intros j -> Hj. destruct Hs as (k&?&Hk&_). simplify_eq. Qed.

Definition left_over (m na : nat) : nat := (length new - na) * S (length old) + (length old - m).

(** [loop] answers every turn with less left over than [bound]. *)
Definition answers (loop : nat -> nat -> nat -> nat -> bool -> result Z) (bound : nat) : Prop :=
  forall m n ma na wild cs ds,
    turn m n ma na wild cs ds -> (left_over m na < bound)%nat ->
    exists r, loop m n ma na wild = Ok r /\
      answer complete (starred wild (tokens (drop ma old))) (tokens (drop na new)) r.

Lemma left_over_retry ma m na na' :
  (na < na' <= length new)%nat -> (left_over ma na' < left_over m na)%nat.
Proof.
  intros Hn. unfold left_over.
  replace (length new - na)%nat with (S (length new - na' + (na' - na - 1)))%nat by lia. nia.
Qed.

(** The end of a turn that does not match *)
Lemma mismatch m n ma na wild cs ds (k : nat -> result Z) :
  turn m n ma na wild cs ds -> (n < length new)%nat ->
  ~ covers (tokens (drop m old)) (tokens (drop n new)) ->
  (wild = true -> complete -> ~ starts (tokens (drop ma old)) (tokens (drop na new))) ->
  (wild = true -> forall na' t, (na < na' <= length new)%nat -> tokens (drop na new) = t :: tokens (drop na' new) ->
     exists r, k na' = Ok r /\ answer complete (Star :: tokens (drop ma old)) (tokens (drop na' new)) r) ->
  exists r, (if wild : bool then na ← retry (new ++ [NUL]) na; k na else Ok 1) = Ok r /\
    answer complete (starred wild (tokens (drop ma old))) (tokens (drop na new)) r.
Proof.
  intros [? ? ? ? Ho Hn Hc _ _] Hlt Hno Hst Hk. destruct wild.
  - destruct (retry_spec new na) as (na'&->&Hr&Ht); [lia|]. cbn [mbind result_bind].
    destruct (Hk eq_refl na' _ Hr Ht) as (r&->&Ha). exists r. split; [done|]. cbn [starred]. rewrite Ho, Hn in *.
    eapply answer_retry; eauto.
  - exists 1. split; [done|]. apply answer_refused; [done|]. cbn [starred]. by rewrite Ho, Hn, covers_chunk.
Qed.

(** The character compared, behind an escape *)
Lemma token_position p m :
  (m < length p)%nat ->
  rd (p ++ [NUL]) (if bool_decide (escaped (drop m p)) then S m else m) = Ok (token_chr (drop m p)) /\
  drop (S (if bool_decide (escaped (drop m p)) then S m else m)) p = drop (token_size (drop m p)) (drop m p) /\
  (S (if bool_decide (escaped (drop m p)) then S m else m) <= length p)%nat.
Proof.
  intros Hm. destruct (tokens_step (drop m p)) as [_ Hs]; [intros E%drop_nil_ge; lia|].
  rewrite length_drop in Hs. unfold token_chr, token_size in *. rewrite drop_drop.
  destruct (decide (escaped (drop m p))) as [He|He].
  - rewrite bool_decide_eq_true_2 by done. rewrite chr_position, tl_drop' by lia.
    split_and!; [done|f_equal; lia|lia].
  - rewrite bool_decide_eq_false_2 by done. rewrite chr_position by lia.
    split_and!; [done|f_equal; lia|lia].
Qed.

Lemma token_chr_nul p m : is_cstr p -> (m < length p)%nat -> token_chr (drop m p) <> NUL.
Proof.
  intros Hp Hm. unfold token_chr. case_decide as He.
  - by apply wild_not_NUL, He.
  - rewrite chr_drop_nul by (done || lia). lia.
Qed.

Lemma mismatch_not_starts cs ds t u ts us :
  Forall2 covers1 cs ds -> t <> Star -> ~ covers1 t u -> ~ starts (cs ++ t :: ts) (ds ++ u :: us).
Proof.
  intros Hc Ht Hn [H|(es&vs&Ea&Eu&Hf)].
  - rewrite covers_chunk, covers_inv in H by done. tauto.
  - pose proof (Forall2_length _ _ _ Hc) as Hl.
    assert (replicate (length es) Any !! length cs = Some t) as Hr by (rewrite <- Ea; by apply list_lookup_middle).
    apply lookup_replicate in Hr as [-> Hlt].
    assert ((es ++ vs) !! length cs = Some u) as Hu by (rewrite <- Eu; by apply list_lookup_middle).
    rewrite lookup_app_l in Hu by done. unfold star_free in Hf. rewrite Forall_lookup in Hf.
    apply Hf in Hu. by destruct u.
Qed.

Lemma align_step m :
  (m < length old)%nat -> let m' := S (if bool_decide (escaped (drop m old)) then S m else m) in
  forall j, m' = S j -> old !! j = Some "\"%char -> ~ is_wild (chr (drop m' old)).
Proof.
  intros Hm m' j Ej Hj Hw. subst m'. injection Ej as <-.
  destruct (lookup_lt_is_Some_2 old m) as [c Hc]; [done|].
  case_bool_decide as He.
  - destruct He as [_ He]. rewrite tl_drop', (drop_S _ _ _ Hj) in He. by destruct He.
  - apply He. split; [by rewrite (drop_S _ _ _ Hj)|]. by rewrite tl_drop'.
Qed.

Lemma mm_compare_spec loop bound m n ma na wild cs ds :
  turn m n ma na wild cs ds -> chr (drop m old) <> "*"%char -> (left_over m na <= bound)%nat ->
  (m = length old -> (left_over m na < bound)%nat) -> (n = length new -> m = length old) ->
  (complete -> m = length old -> n = length new) -> answers loop bound ->
  exists r, mm_compare loop (old ++ [NUL]) (new ++ [NUL]) m n ma na wild = Ok r /\
    answer complete (starred wild (tokens (drop ma old))) (tokens (drop na new)) r.
Proof.
  intros Ht Hs Hb Hb' Hend Hend2 Hloop. pose proof Ht as [Hm Hn Hma Hna Ho Hw Hc Hwild Hal].
  unfold mm_compare. rewrite !at_escape_position by done. cbn [mbind result_bind].
  assert (Hretry : wild = true -> forall na' t, (na < na' <= length new)%nat ->
      tokens (drop na new) = t :: tokens (drop na' new) ->
    exists r, loop ma na' ma na' wild = Ok r /\ answer complete (Star :: tokens (drop ma old)) (tokens (drop na' new)) r).
  { intros -> na' t Hr _. apply (Hloop ma na' ma na' true [] []); [by apply turn_start; [lia..|]|].
    pose proof (left_over_retry ma m na na' Hr). lia. }
  destruct (decide (n = length new)) as [En|En].
  - (* both masks have ended *)
    assert (m = length old) as Em by auto. rewrite Em, En, !drop_ge by done.
    rewrite !bool_decide_eq_false_2 by by intros [? _]. cbv iota. rewrite !chr_position, !drop_ge by done.
    cbn [mbind result_bind]. rewrite decide_True by (right; left; auto). rewrite !decide_True by done.
    rewrite <- Em, <- En. by apply Hloop with cs ds; auto.
  - assert (Hlt : (n < length new)%nat) by lia. destruct (token_position new n Hlt) as (Hd&Hdn&Hln).
    destruct (decide (m = length old)) as [Em|Em].
    + (* only the first one has *)
      rewrite Em, (drop_ge old) by done. rewrite (bool_decide_eq_false_2 (escaped [])) by by intros [? _]. cbv iota.
      rewrite (chr_position old), (drop_ge old) by done. rewrite Hd. cbn [mbind result_bind].
      pose proof (token_chr_nul new n Hnew Hlt).
      rewrite decide_False; [|intros [[? _]|[[_ ?]|[? _]]]; [done| |done]].
      * subst m. eapply mismatch; eauto. rewrite drop_ge by done.
        destruct (tokens_step (drop n new)) as [-> _]; [intros E%drop_nil_ge; lia|]. by inversion 1.
      * symmetry in H0. by apply toLower_eq_NUL in H0.
    + assert (Hlm : (m < length old)%nat) by lia. destruct (token_position old m Hlm) as (Hcc&Hcn&Hlc).
      rewrite Hcc, Hd. cbn [mbind result_bind].
      destruct (tokens_step (drop m old)) as [Eo _]; [intros E%drop_nil_ge; lia|].
      destruct (tokens_step (drop n new)) as [Ew _]; [intros E%drop_nil_ge; lia|].
      rewrite <- Hcn in Eo. rewrite <- Hdn in Ew.
      assert (Hns : first_token (drop m old) <> Star) by by rewrite first_token_star.
      pose proof (condition_covers1 _ (drop n new) Hns) as Hcond.
      case_decide as Hif.
      * rewrite !decide_False by by apply token_chr_nul.
        apply Hloop with (cs ++ [first_token (drop m old)]) (ds ++ [first_token (drop n new)]).
        -- constructor; [lia|lia|lia|destruct (bool_decide (escaped (drop n new))); lia| | | |done|];
             [rewrite Ho, Eo; by rewrite <- app_assoc|rewrite Hw, Ew; by rewrite <- app_assoc| |by apply align_step].
           apply Forall2_app; [done|]. constructor; [by apply Hcond|done].
        -- unfold left_over in *. destruct (bool_decide (escaped (drop m old))); nia.
      * assert (Hno : ~ covers1 (first_token (drop m old)) (first_token (drop n new))) by by intros ?%Hcond.
        eapply mismatch; eauto; rewrite ?Ho, ?Hw, Eo, Ew; [|intros _ _; by apply mismatch_not_starts].
        rewrite covers_inv by done. by intros [? _].
Qed.

Lemma covered_star_free cs ds : Forall2 covers1 cs ds -> star_free ds.
Proof. induction 1 as [|t u ? ? H]; constructor; [by destruct t, u|done]. Qed.

Lemma not_star_free p : star_free (tokens p) -> chr p <> "*"%char.
Proof.
  intros Hf E. destruct p as [|c p]; [done|]. destruct (tokens_step (c :: p)) as [Ht _]; [done|].
  rewrite Ht in Hf. inversion Hf. by apply first_token_star in E.
Qed.

Lemma star_before_first k :
  star_before (S k) -> complete -> (forall n, tokens (drop (S k) old) <> replicate n Any) \/ (0 < k)%nat.
Proof.
  intros (k'&[= <-]&Hk&_) Hcp. destruct k as [|k]; [|right; lia]. left. intros n E.
  pose proof (drop_S _ _ _ Hk) as E0. unfold complete in Hcp. rewrite drop_0 in E0. rewrite E0 in Hcp.
  cbn [tokens] in Hcp. rewrite decide_True, E in Hcp by done. apply Exists_cons in Hcp as [[]|Hx].
  apply Exists_exists in Hx as (t&Ht&Hlit). by apply elem_of_replicate in Ht as [-> _].
Qed.

Lemma ends_in_star_spec m :
  length old = S m ->
  exists b, ends_in_star (old ++ [NUL]) m = Ok b /\
    if b then forall ma, (ma <= length old)%nat -> star_free (tokens (drop ma old)) ->
           (0 < ma)%nat /\ tokens (drop ma old) = replicate (length old - ma) Any
    else forall ma n, star_before ma -> complete -> tokens (drop ma old) <> replicate n Any.
Proof.
  intros El. unfold ends_in_star. destruct (back_over_spec old m) as (k&->&Hk&Hq&Hn); [lia|].
  cbn [mbind result_bind]. rewrite chr_position by lia. cbn [mbind result_bind].
  assert (exists esc, match k with O => Ok true
      | S k' => e ← rd (old ++ [NUL]) k'; Ok (bool_decide (e = "\"%char)) end = Ok esc /\
      (esc = false <-> (0 < k)%nat /\ forall j, k = S j -> old !! j <> Some "\"%char)) as (esc&->&He).
  { destruct k as [|k]; [exists true; split; [done|split; [done|lia]]|]. rewrite chr_position by lia.
    eexists. split; [done|]. destruct (lookup_lt_is_Some_2 old k) as [c Hc]; [lia|]. rewrite (drop_S _ _ _ Hc).
    cbn [chr hd]. rewrite bool_decide_eq_false. split; [intros E; split; [lia|]; intros j Ej Hj; by simplify_eq|].
    intros [_ Hj] ->. by destruct (Hj k). }
  cbn [mbind result_bind]. eexists. split; [done|].
  destruct (lookup_lt_is_Some_2 old k) as [c Hc]; [lia|]. rewrite (drop_S _ _ _ Hc). cbn [chr hd].
  case_bool_decide as Hif.
  - destruct Hif as [-> Hesc]. apply He in Hesc as [Hpos Hj]. intros ma Hma Hf.
    destruct (back_over_star old ma k) as [? Hall]; [done|done| |done|done|].
    { intros i Hi. apply Hq. lia. }
    split; [lia|done].
  - intros ma n Hst Hcp E. pose proof Hst as (k0&->&Hk0&Hj0).
    assert (k0 < length old)%nat by (by apply lookup_lt_Some in Hk0).
    destruct (star_before_first k0 Hst Hcp) as [Hx|Hpos]; [by destruct (Hx n)|].
    assert (k = k0) as ->.
    { destruct (decide (k < k0)%nat).
      - rewrite Hq in Hk0 by lia. done.
      - destruct (decide (k0 < k)%nat); [|lia]. exfalso. apply Hn; [lia|].
        pose proof (anys_tokens _ _ E (k - S k0)) as Ha. rewrite length_drop, lookup_drop in Ha.
        replace (S k0 + (k - S k0))%nat with k in Ha by lia. apply Ha. lia. }
    apply Hif. split; [congruence|]. by apply He.
Qed.

(** Only the first mask has ended. *)
Lemma first_ended loop bound m n ma na wild cs ds :
  turn m n ma na wild cs ds -> m = length old -> (n < length new)%nat -> (left_over m na <= bound)%nat ->
  answers loop bound -> old <> [] ->
  exists r, mm_turn loop (old ++ [NUL]) (new ++ [NUL]) m n ma na wild = Ok r /\
    answer complete (starred wild (tokens (drop ma old))) (tokens (drop na new)) r.
Proof.
  intros Ht Em Hlt Hb Hloop Hne. pose proof Ht as [Hm Hn Hma Hna Ho Hw Hc Hwild Hal].
  unfold mm_turn. rewrite !chr_position by lia. cbn [mbind result_bind].
  rewrite decide_True, decide_False by (rewrite chr_drop_nul; done || lia).
  pose proof (covers1_star_free _ _ Hc) as Hf.
  assert (Ho' : tokens (drop ma old) = cs) by (by rewrite Ho, Em, drop_ge, app_nil_r by lia).
  assert (Hlo : length old <> 0%nat) by (by intros ?%length_zero_iff_nil).
  destruct m as [|m]; [done|]. destruct (ends_in_star_spec m (eq_sym Em)) as (b&->&Hb2).
  cbn [mbind result_bind]. destruct b.
  { destruct (Hb2 ma Hma) as [Hpos Hall]; [by rewrite Ho'|]. exists 0. split; [done|].
    destruct wild; [|lia]. apply answer_accepted. cbn [starred].
    assert (length old - ma = length ds)%nat as El.
    { rewrite <- (Forall2_length _ _ _ Hc), <- Ho', Hall. by rewrite length_replicate. }
    rewrite Hall, El, Hw. apply covers_tail. by eapply covered_star_free. }
  destruct (tokens_step (drop n new)) as [Ew _]; [intros E%drop_nil_ge; lia|].
  eapply mismatch; eauto.
  - rewrite Em, drop_ge, Ew by done. by inversion 1.
  - intros -> Hcp [H|(es&vs&Ea&_)]; [|by eapply Hb2].
    rewrite Ho', Hw, <- (app_nil_r cs), covers_chunk, Ew in H by done. by inversion H.
  - intros -> na' t Hr Ht'. pose proof (left_over_retry ma (S m) na na' Hr).
    apply (mm_compare_spec loop bound ma na' ma na' true [] []); [by apply turn_start; [lia..|]| |lia|lia| | |done].
    + apply not_star_free. by rewrite Ho'.
    + intros ->. rewrite (drop_ge new (length new)), Hw, Ew in Ht' by done.
      destruct ds as [|d ds]; [|by destruct ds]. apply Forall2_nil_inv_r in Hc as ->.
      apply drop_nil_ge; [lia|]. destruct (drop ma old) as [|c p] eqn:Ep; [done|].
      destruct (tokens_step (c :: p)) as [Et _]; [done|]. by rewrite Et in Ho'.
    + intros Hcp Emo. exfalso. apply (Hb2 ma 0%nat Hwild Hcp). by rewrite Emo, drop_ge.
Qed.

Lemma mm_turn_spec loop bound m n ma na wild cs ds :
  turn m n ma na wild cs ds -> chr (drop m old) <> "*"%char -> (left_over m na <= bound)%nat ->
  answers loop bound -> old <> [] \/ new = [] ->
  exists r, mm_turn loop (old ++ [NUL]) (new ++ [NUL]) m n ma na wild = Ok r /\
    answer complete (starred wild (tokens (drop ma old))) (tokens (drop na new)) r.
Proof.
  intros Ht Hs Hb Hloop Hne. pose proof Ht as [Hm Hn Hma Hna Ho Hw Hc Hwild Hal].
  destruct (decide (m = length old /\ n <> length new)) as [[Em En]|Hcase].
  { apply (first_ended loop bound m n ma na wild cs ds); try done; [lia|].
    destruct Hne as [?|E]; [done|]. assert (length new = 0%nat) by (by rewrite E). lia. }
  unfold mm_turn. rewrite !chr_position by lia. cbn [mbind result_bind].
  destruct (decide (n = length new)) as [En|En].
  - rewrite !(decide_True (P := chr (drop n new) = NUL)) by by apply chr_drop_nul.
    rewrite En, (drop_ge new (length new)), app_nil_r in Hw by done. rewrite Hw.
    case_decide as Hnul; rewrite chr_drop_nul in Hnul by done.
    + exists 0. split; [done|]. rewrite Ho, Hnul, drop_ge by done. apply answer_end; [done| |done].
      intros _. by exists 0%nat.
    + destruct (skip_stars_spec (S (length (old ++ [NUL]))) old m) as (j&m'&->&Hj&Hl&Htm&Hcm&_&_);
        [done|rewrite length_app; simpl; lia|].
      cbn [mbind result_bind]. rewrite chr_position by done. cbn [mbind result_bind]. eexists. split; [done|].
      rewrite Ho, Htm. apply answer_end; [done| |]; case_decide as E; rewrite chr_drop_nul in E by done; try done.
      * intros _. exists j. by rewrite E, drop_ge, app_nil_r.
      * intros _. destruct (tokens_step (drop m' old)) as [-> _]; [intros E'%drop_nil_ge; done|].
        rewrite minlen_app, minlen_cons, decide_False; [lia|]. by rewrite first_token_star.
  - assert (m <> length old) by tauto. rewrite !decide_False by (rewrite chr_drop_nul; done).
    apply (mm_compare_spec loop bound m n ma na wild cs ds); try done; lia.
Qed.

Lemma mmatch_loop_spec fuel :
  old <> [] \/ new = [] -> answers (mmatch_loop fuel (old ++ [NUL]) (new ++ [NUL])) fuel.
Proof.
  intros Hne. induction fuel as [|fuel IH]; intros m n ma na wild cs ds Ht Hl; [lia|].
  pose proof Ht as [Hm Hn Hma Hna Ho Hw Hc Hwild Hal].
  cbn [mmatch_loop]. rewrite chr_position by done. cbn [mbind result_bind]. case_decide as Hs.
  - destruct (skip_stars_spec (S (length (old ++ [NUL]))) old m) as (j&m'&->&Hj&Hl'&Htm&Hcm&Hpos&Hst);
      [done|rewrite length_app; simpl; lia|].
    specialize (Hpos Hs). destruct j as [|j]; [lia|]. cbn [mbind result_bind].
    destruct (mm_turn_spec (mmatch_loop fuel (old ++ [NUL]) (new ++ [NUL])) fuel m' n m' n true [] [])
      as (r&->&Ha); [apply turn_start; [done|done|]|done| |done|done|].
    { exists (m' - 1)%nat. split_and!; [lia|apply Hst; lia|]. intros i Ei Hi. destruct (decide (m <= i)%nat).
      - rewrite Hst in Hi by lia. done.
      - apply (Hal i); [lia|done|by left]. }
    { unfold left_over in *. nia. }
    exists r. split; [done|]. rewrite Ho, Htm, Hw. by apply answer_star.
  - apply (mm_turn_spec _ fuel m n ma na wild cs ds); try done. lia.
Qed.

End loop.

Lemma mmatch_spec old new :
  is_cstr old -> is_cstr new -> old <> [] \/ new = [] ->
  exists r, mmatch old new = Ok r /\ (r = 0 -> covers (tokens old) (tokens new)) /\
    (Exists is_lit (tokens old) -> covers (tokens old) (tokens new) -> r = 0).
Proof.
  intros Ho Hn Hne.
  destruct (mmatch_loop_spec old new Ho Hn (S (length old) * S (S (length new)) * 2) Hne
    0%nat 0%nat 0%nat 0%nat false [] []) as (r&Hr&Ha).
  - constructor; try done; lia.
  - unfold left_over. nia.
  - exists r. split; [exact Hr|]. destruct Ha as [H1 H2]. done.
Qed.

(** * [covers] is a preorder *)

Lemma covers_refl ts : covers ts ts.
Proof.
  induction ts as [|t ts IH]; [constructor|].
  destruct t; [by apply covers_star_cons, covers_star_nil|by constructor..].
Qed.

Lemma covers1_trans t u v : covers1 t u -> covers1 u v -> covers1 t v.
Proof. destruct t, u, v; simpl; try done. congruence. Qed.

Lemma covers_chunk_inv cs ts us :
  star_free cs -> covers (cs ++ ts) us ->
  exists ds vs, us = ds ++ vs /\ Forall2 covers1 cs ds /\ covers ts vs.
Proof.
  intros Hf. revert us. induction Hf as [|t cs Ht _ IH]; intros us H; [by exists [], us|].
  cbn [app] in H. destruct us as [|u us]; [inversion H; by subst|]. apply covers_inv in H as [? H]; [|done].
  apply IH in H as (ds&vs&->&?&?). exists (u :: ds), vs. split_and!; [done| |done]. by constructor.
Qed.

Lemma anys_covers ds : star_free ds -> Forall2 covers1 (replicate (length ds) Any) ds.
Proof. induction 1 as [|d ds Hd _ IH]; constructor; [by destruct d|done]. Qed.

Lemma covers_pairwise cs ds : Forall2 covers1 cs ds -> covers cs ds.
Proof. induction 1; by constructor. Qed.

Lemma covers_anys_no_lit ts us : covers ts us -> Forall (fun u => ~ is_lit u) us -> Forall (fun t => ~ is_lit t) ts.
Proof.
  induction 1 as [|t u ts us H _ IH|ts us _ IH|ts u us _ IH|ds us Hf]; intros Hu.
  - done.
  - apply Forall_cons in Hu as [? ?]. constructor; [by destruct t, u|auto].
  - constructor; [by intros []|auto].
  - apply Forall_cons in Hu as [_ Hu]. auto.
  - constructor; [by intros []|]. by apply Forall_replicate; intros [].
Qed.

Lemma no_lit_anys ts : Forall (fun t => ~ is_lit t) ts -> star_free ts -> ts = replicate (length ts) Any.
Proof.
  induction 1 as [|t ts Ht _ IH]; intros Hf; [done|]. inversion_clear Hf. simpl.
  destruct t; [done| |by destruct Ht]. f_equal. auto.
Qed.

(** A mask of stars and question marks, with a star, that covers some characters
    covers them with any tail. *)
Lemma covers_extend ts ds vs :
  covers ts ds -> star_free ds -> Forall (fun t => ~ is_lit t) ts -> Star ∈ ts -> covers ts (ds ++ vs).
Proof.
  induction 1 as [|t u ts us H _ IH|ts us H IH|ts u us _ IH|ds us Hf]; intros Hd Hl Hs.
  - by apply not_elem_of_nil in Hs.
  - inversion_clear Hd. apply Forall_cons in Hl as [_ Hl]. cbn [app]. constructor; [done|].
    apply IH; [done..|]. apply elem_of_cons in Hs as [<-|]; done.
  - apply Forall_cons in Hl as [_ Hl]. destruct (decide (Star ∈ ts)) as [Hin|Hin].
    + apply covers_star_nil. auto.
    + assert (star_free ts) as Hf.
      { apply Forall_forall. intros t Ht ->. done. }
      rewrite <- (app_nil_r ts) in H. apply covers_chunk_inv in H as (es&ws&->&Hc&H); [|done].
      inversion H; subst. rewrite app_nil_r, (no_lit_anys ts), (Forall2_length _ _ _ Hc) in * by done.
      by apply covers_tail.
  - inversion_clear Hd. cbn [app]. apply covers_star_cons. auto.
  - rewrite <- app_assoc. by apply covers_tail.
Qed.

Lemma covers_trans ts us vs : covers ts us -> covers us vs -> covers ts vs.
Proof.
  intros H. revert vs. induction H as [|t u ts us H1 _ IH|ts us _ IH|ts u us H IH|ds us Hf]; intros vs Hv.
  - done.
  - destruct vs as [|v vs]; [inversion Hv; by subst; destruct t|].
    apply covers_inv in Hv as [? Hv]; [|by destruct t, u].
    constructor; [by eapply covers1_trans|auto].
  - apply covers_star_nil. auto.
  - destruct (decide (u = Star)) as [->|Hu].
    + apply covers_star_inv in Hv as (ws&xs&->&[Hv|(ds&zs&->&->&Hf)]); apply covers_star_app; [auto|].
      apply covers_extend; [|done| |left].
      * by apply IH, covers_pairwise, anys_covers.
      * apply (covers_anys_no_lit _ _ H). by apply Forall_replicate; intros [].
    + destruct vs as [|v vs]; [inversion Hv; by subst|]. apply covers_inv in Hv as [_ Hv]; [|done].
      apply covers_star_cons. auto.
  - apply covers_chunk_inv in Hv as (es&zs&->&Hc&_); [|done].
    rewrite (Forall2_length _ _ _ Hc). apply covers_tail. by eapply covered_star_free.
Qed.

Lemma mmatch_empty (new_mask : list ascii) : is_cstr new_mask -> new_mask <> [] -> mmatch [] new_mask = Ub.
Proof.
  intros Hn Hne. destruct new_mask as [|c new_mask]; [done|]. apply is_cstr_cons in Hn as [Hc _].
  unfold mmatch. destruct (_ * 2)%nat as [|fuel] eqn:E; [simpl in E; lia|]. cbn [mmatch_loop app].
  change (rd [NUL] 0) with (Ok NUL). cbn [mbind result_bind]. rewrite decide_False by done.
  unfold mm_turn. change (rd [NUL] 0) with (Ok NUL). change (rd (c :: new_mask ++ [NUL]) 0) with (Ok c).
  cbn [mbind result_bind]. rewrite decide_True by done. by rewrite decide_False.
Qed.

(** C28. mmatch() of two masks, the first of which is not empty unless the second is,
    ends, within its buffers.  It returns 0 only if every string that the second mask
    stands for is one of the first.  If the first mask has a character that is not a
    wildcard, like the "!" of every ban, it returns 0 exactly when the second mask is
    covered token by token.  With an empty first mask and a second one that is not, it
    reads the byte before the first mask. *)
Theorem mmatch_correct (old_mask new_mask : list ascii) :
  is_cstr old_mask -> is_cstr new_mask ->
  (old_mask <> [] \/ new_mask = [] ->
   exists r, mmatch old_mask new_mask = Ok r /\
     (r = 0 -> forall s, glob toLower (tokens new_mask) s -> glob toLower (tokens old_mask) s) /\
     (Exists is_lit (tokens old_mask) -> r = 0 <-> covers (tokens old_mask) (tokens new_mask))) /\
  (old_mask = [] -> new_mask <> [] -> mmatch old_mask new_mask = Ub).
Proof.
  intros Ho Hn. split.
  - intros Hne. destruct (mmatch_spec old_mask new_mask Ho Hn Hne) as (r&Hr&H1&H2).
    exists r. split_and!; [done| |naive_solver]. intros ->. by apply covers_includes, H1.
  - intros -> Hne. by apply mmatch_empty.
Qed.

(** Witness of [mmatch_correct]. *)
Lemma mmatch_correct_witness :
  mmatch (str "*!*@*.com") (str "nick?!*@host\*.com") = Ok 0 /\
  (exists r, mmatch (str "*!*@*.com") (str "nick?!*@host\*.com") = Ok r /\
    (r = 0 -> forall s, glob toLower (tokens (str "nick?!*@host\*.com")) s -> glob toLower (tokens (str "*!*@*.com")) s) /\
    (Exists is_lit (tokens (str "*!*@*.com")) ->
     r = 0 <-> covers (tokens (str "*!*@*.com")) (tokens (str "nick?!*@host\*.com")))) /\
  mmatch [] (str "*") = Ub.
Proof.
  split; [vm_compute; reflexivity|]. split.
  - apply (mmatch_correct (str "*!*@*.com") (str "nick?!*@host\*.com"));
      [apply (bool_decide_unpack _); vm_compute; exact I..|left; discriminate].
  - apply (mmatch_correct [] (str "*")); [apply (bool_decide_unpack _); vm_compute; exact I..|reflexivity|discriminate].
Defined.
