(* ===== verification/Bans.v ===== *)
(** Bans: the list of bans of a channel and what the members remember of it
    (ircd/channel.c).

    A ban is compared with a member only once: the answer is kept in two bits of
    the flags of the member, and forgotten when the list changes.  The names that bans
    are compared with are composed one after another in two static buffers
    ([bufs]), and what a longer name leaves there stays behind the terminator of the
    next one, where match() may read it.  Bans that a new
    ban covers leave the list; they wait on [removed_bans_list] to be announced.
    The bans are cells with an address, because [next_ban] points into the list;
    the list of one channel is modelled, with the three static variables.  The
    theorem on sequences of events is about MODE, JOIN, PART and questions; the
    marks of a BURST are in the model of add_banid() and outside that theorem. *)

From S2P Require Import Prelude Common Match Mmatch Nametable Hash Chantext Channel.

(** * Bans *)

Definition CHFL_BAN : Z := 0x0020.
Definition CHFL_BAN_IPMASK : Z := 0x0040.
Definition CHFL_BAN_OVERLAPPED : Z := 0x0080.
Definition CHFL_BURST_BAN_WIPEOUT : Z := 0x0400.
Definition CHFL_BANVALID : Z := 0x0800.
Definition CHFL_BANNED : Z := 0x1000.
Definition MAXBANS : Z := 200.
Definition MAXBANLENGTH : Z := 7000.

(** [bid] is the address of the cell. *)
Record Ban := mkBan { bid : nat; banstr : cstring; bwho : cstring; bwhen : Z; bflags : Z }.

Record bans := mkBans {
  blist : list Ban; mems : list Link;
  next_ban : option nat; prev_ban : option Ban; removed_bans_list : list Ban }.

Definition set_bflags (f : Z) (b : Ban) : Ban := mkBan (bid b) (banstr b) (bwho b) (bwhen b) f.
Definition map_mems (f : Z -> Z) (l : list Link) : list Link :=
  map (fun x => mkLink (cptr x) (f (lflags x))) l.

(** check_if_ipmask() of ircd/support.c *)
Fixpoint check_if_ipmask_from (has_digit : Z) (mask : cstring) : Z :=
  match mask with
  | [] => has_digit
  | c :: mask =>
      if decide (c <> "*"%char /\ c <> "?"%char /\ c <> "."%char) then
        if isDigit c then check_if_ipmask_from (-1) mask else 0
      else check_if_ipmask_from has_digit mask
  end.
Definition check_if_ipmask (mask : cstring) : Z := check_if_ipmask_from 0 mask.

(** The loop of add_banid() over the list: [scanned] tells what was counted and the
    list that is left. *)
Record scanned := mkScanned {
  sc_ret : option Z; sc_list : list Ban; sc_removed : list Ban; sc_any : bool;
  sc_cnt : Z; sc_len : Z; sc_next : option nat }.

Definition keep (b : Ban) (s : scanned) : scanned :=
  mkScanned (sc_ret s) (b :: sc_list s) (sc_removed s) (sc_any s) (sc_cnt s) (sc_len s) (sc_next s).

(** The variables [removed_bans_list], [removed_bans], [cnt], [len] and [next_ban]
    are passed along. *)
Fixpoint add_loop (mine change firsttime : bool) (banid : cstring) (l : list Ban)
    (rem : list Ban) (any : bool) (cnt len : Z) (nxt : option nat) : result scanned :=
  match l with
  | [] => Ok (mkScanned None [] rem any cnt len nxt)
  | b :: l =>
      let len := len + Z.of_nat (length (banstr b)) in
      let cnt := cnt + 1 in
      let stop r b := Ok (mkScanned (Some r) (b :: l) rem any cnt len nxt) in
      let rest :=
        z ← mmatch banid (banstr b);
        if decide (z = 0) then
          if change then
            let len' := if mine then len - Z.of_nat (length (banstr b)) else len in
            let cnt' := if mine then cnt - 1 else cnt in
            add_loop mine change firsttime banid l (b :: rem) true cnt' len' nxt
          else if has (bflags b) CHFL_BURST_BAN_WIPEOUT then
            s ← add_loop mine change firsttime banid l rem any cnt len nxt; Ok (keep b s)
          else
            s ← add_loop mine change firsttime banid l rem any cnt len
                  (match nxt with Some _ => nxt | None => Some (bid b) end);
            Ok (keep (set_bflags (Z.lor (bflags b) CHFL_BAN_OVERLAPPED) b) s)
        else
          s ← add_loop mine change firsttime banid l rem any cnt len nxt;
          Ok (keep (if firsttime then set_bflags (clear (bflags b) CHFL_BAN_OVERLAPPED) b else b) s) in
      if has (bflags b) CHFL_BURST_BAN_WIPEOUT then
        if decide (banstr b = banid) then
          stop (-2) (set_bflags (clear (bflags b) CHFL_BURST_BAN_WIPEOUT) b)
        else rest
      else
        z ← mmatch (banstr b) banid;
        if decide (z = 0) then stop (-1) b else rest
  end.

(** The mask of a local client is cleaned in place first. *)
Definition clean_ban (banid : cstring) : result cstring :=
  r ← collapse (Some (fix_string banid ++ [NUL]));
  match r with Some mem => Ok (c_text mem) | None => Ub end.

(** [mine] is MyUser(cptr), [service] IsChannelService(cptr); [fresh] is the cell
    that the allocation gives.  MyCoreDump is raise(SIGABRT). *)
Definition add_banid (st : bans) (mine service : bool) (who : cstring) (banid : cstring)
    (change firsttime : bool) (now : Z) (fresh : nat) : result (bans * Z) :=
  let len := Z.of_nat (length banid) in
  _ ← (if firsttime then
         match prev_ban st, removed_bans_list st with None, [] => Ok tt | _, _ => Ub end
       else Ok tt);
  let nxt := if firsttime then None else next_ban st in
  banid ← (if mine then clean_ban banid else Ok banid);
  s ← add_loop mine change firsttime banid (blist st) (removed_bans_list st) false 0 len nxt;
  let st' l m := mkBans l m (sc_next s) (prev_ban st) (sc_removed s) in
  match sc_ret s with
  | Some r => Ok (st' (sc_list s) (mems st), r)
  | None =>
      if mine && negb service && negb (sc_any s) &&
         (bool_decide (MAXBANLENGTH < sc_len s) || bool_decide (MAXBANS <= sc_cnt s)) then
        Ok (st' (sc_list s) (mems st), -1)
      else if change then
        let ip := match rsplit_at banid with
                  | Some (_, host) => bool_decide (check_if_ipmask host <> 0) | None => false end in
        let ban := mkBan fresh banid who now (if ip then Z.lor CHFL_BAN CHFL_BAN_IPMASK else CHFL_BAN) in
        Ok (st' (ban :: sc_list s) (map_mems (fun f => clear f CHFL_BANVALID) (mems st)), 0)
      else Ok (st' (sc_list s) (mems st), 0)
  end.

(** The part of the list from the cell [p] *)
Fixpoint from_ban (p : nat) (l : list Ban) : list Ban :=
  match l with
  | [] => []
  | b :: l' => if decide (bid b = p) then l else from_ban p l'
  end.

Fixpoint find_overlapped (l : list Ban) : option nat :=
  match l with
  | [] => None
  | b :: l => if has (bflags b) CHFL_BAN_OVERLAPPED then Some (bid b) else find_overlapped l
  end.

Definition next_overlapped_ban (st : bans) : result (bans * option Ban) :=
  match next_ban st with
  | None => Ok (st, None)
  | Some p =>
      match from_ban p (blist st) with
      | [] => Ub
      | tmp :: rest =>
          Ok (mkBans (blist st) (mems st) (find_overlapped rest) (prev_ban st) (removed_bans_list st),
              Some tmp)
      end
  end.

(** The ban that was given last is freed. *)
Definition next_removed_overlapped_ban (st : bans) : bans * option Ban :=
  let tmp := head (removed_bans_list st) in
  (mkBans (blist st) (mems st) (next_ban st) tmp (tail (removed_bans_list st)), tmp).

(** "Erase ban-valid-bit, for channel members that are banned" *)
Definition erase_banned (f : Z) : Z :=
  if decide (Z.land f (Z.lor CHFL_BANNED CHFL_BANVALID) = Z.lor CHFL_BANNED CHFL_BANVALID)
  then clear f CHFL_BANVALID else f.

Fixpoint del_ban (banid : cstring) (l : list Ban) : option (list Ban) :=
  match l with
  | [] => None
  | b :: l =>
      if decide (strCasediff banid (banstr b) = 0) then Some l
      else match del_ban banid l with Some l => Some (b :: l) | None => None end
  end.

Definition del_banid (st : bans) (banid : option cstring) (change : bool) : bans * Z :=
  match banid with
  | None => (st, -1)
  | Some banid =>
      match del_ban banid (blist st) with
      | None => (st, -1)
      | Some l =>
          if change then
            (mkBans l (map_mems erase_banned (mems st)) (next_ban st) (prev_ban st) (removed_bans_list st), 0)
          else (st, 0)
      end
  end.

(** * Asking *)

(** The names of a client: nick!user@host with the host, the address, the virtual
    host and the personal virtual host. *)
Record names := mkNames { n_host : cstring; n_ip : cstring; n_vhost : cstring; n_perso : option cstring }.

(** The two static buffers that names are composed in.  What was there before stays
    behind the terminator of a shorter name, and match() may read on into it. *)
Record bufs := mkBufs { namebuf : list ascii; ipbuf : list ascii }.
Definition NAMEBUFLEN : nat := NICKLEN + USERLEN + HOSTLEN + 3.
Definition IPBUFLEN : nat := NICKLEN + USERLEN + 16 + 3.
Definition fresh_bufs : bufs := mkBufs (replicate NAMEBUFLEN NUL) (replicate IPBUFLEN NUL).

(** sprintf_irc() of a name *)
Definition compose (buf name : list ascii) : result (list ascii) :=
  if decide (length name < length buf)%nat then Ok (name ++ NUL :: drop (S (length name)) buf) else Ub.

Definition make_nick_user_host (bs : bufs) (name : cstring) : result bufs :=
  buf ← compose (namebuf bs) name; Ok (mkBufs buf (ipbuf bs)).
Definition make_nick_user_ip (bs : bufs) (name : cstring) : result bufs :=
  buf ← compose (ipbuf bs) name; Ok (mkBufs (namebuf bs) buf).

Definition match_name (m : cstring -> list ascii -> result Z) (mask : cstring) (buf : list ascii) : result bool :=
  r ← m mask buf; Ok (bool_decide (r = 0)).

(** The body of the loop of is_banned(); [ip_s] tells whether the address is composed
    already. *)
Definition hit (w : names) (b : Ban) (ip_s : bool) (bs : bufs) : result (bool * bool * bufs) :=
  if has (bflags b) CHFL_BAN_IPMASK then
    bs ← (if ip_s then Ok bs else make_nick_user_ip bs (n_ip w));
    r ← match_name match_ (banstr b) (ipbuf bs); Ok (r, true, bs)
  else
    bs ← make_nick_user_host bs (n_host w);
    r ← match_name match_ (banstr b) (namebuf bs);
    if r : bool then Ok (true, ip_s, bs)
    else
      bs ← make_nick_user_host bs (n_vhost w);
      r ← match_name match_case (banstr b) (namebuf bs);
      if r : bool then Ok (true, ip_s, bs)
      else match n_perso w with
           | Some s =>
               bs ← make_nick_user_host bs s;
               r ← match_name match_ (banstr b) (namebuf bs); Ok (r, ip_s, bs)
           | None => Ok (false, ip_s, bs)
           end.

Fixpoint any_hit_loop (w : names) (l : list Ban) (ip_s : bool) (bs : bufs) : result (bool * bufs) :=
  match l with
  | [] => Ok (false, bs)
  | b :: l => '(r, ip_s, bs) ← hit w b ip_s bs; if r : bool then Ok (true, bs) else any_hit_loop w l ip_s bs
  end.
Definition any_hit (w : names) (l : list Ban) (bs : bufs) : result (bool * bufs) := any_hit_loop w l false bs.

(** is_banned() of a member: the answer and the new flags *)
Definition is_banned_member (w : names) (st : bans) (bs : bufs) (l : Link) : result (Z * Z * bufs) :=
  if has (lflags l) CHFL_BANVALID then Ok (Z.land (lflags l) CHFL_BANNED, lflags l, bs)
  else
    let f := Z.lor (lflags l) CHFL_BANVALID in
    '(r, bs) ← any_hit w (blist st) bs;
    Ok (if r : bool then (1, Z.lor f CHFL_BANNED, bs) else (0, clear f CHFL_BANNED, bs)).

Fixpoint set_link_flags (u : nat) (f : Z) (l : list Link) : list Link :=
  match l with
  | [] => []
  | x :: l => if decide (cptr x = u) then mkLink u f :: l else x :: set_link_flags u f l
  end.

Definition with_mems (st : bans) (m : list Link) : bans :=
  mkBans (blist st) m (next_ban st) (prev_ban st) (removed_bans_list st).

(** For a client that is not on the channel nothing is remembered. *)
Definition is_banned (w : names) (st : bans) (bs : bufs) (u : nat) : result (bans * bufs * Z) :=
  match find_user_link (mems st) u with
  | None => '(r, bs) ← any_hit w (blist st) bs; Ok (st, bs, if r : bool then 1 else 0)
  | Some l =>
      '(r, f, bs) ← is_banned_member w st bs l; Ok (with_mems st (set_link_flags u f (mems st)), bs, r)
  end.

(** * The bans of one command *)

(** [while ((ban = next_removed_overlapped_ban())) ...]: at the end of set_mode() *)
Fixpoint drain (fuel : nat) (st : bans) : result bans :=
  match fuel with
  | O => Fuel
  | S fuel =>
      let '(st, o) := next_removed_overlapped_ban st in
      match o with Some _ => drain fuel st | None => Ok st end
  end.

(** The changes +b and -b of a MODE, in order, with the address of a new cell *)
Inductive ban_change := AddBan (mask : cstring) (fresh : nat) | DelBan (mask : cstring).

(** The case MODE_BAN of set_mode(), not bounced; [called] is [add_banid_called]. *)
Fixpoint ban_changes (st : bans) (mine service : bool) (who : cstring) (now : Z) (called : bool)
    (l : list ban_change) : result (bans * bool) :=
  match l with
  | [] => Ok (st, called)
  | AddBan mask fresh :: l =>
      '(st, r) ← add_banid st mine service who mask true (negb called) now fresh;
      ban_changes st mine service who now (called || bool_decide (r = 0)) l
  | DelBan mask :: l => ban_changes (del_banid st (Some mask) true).1 mine service who now called l
  end.

Definition mode_bans (st : bans) (mine service : bool) (who : cstring) (now : Z) (l : list ban_change)
    : result bans :=
  '(st, called) ← ban_changes st mine service who now false l;
  if called : bool then drain (S (length (removed_bans_list st))) st else Ok st.

(** * Events on a channel *)

(** [Compose]: a name is composed for another channel or another purpose. *)
Inductive ban_event :=
  | Mode (mine service : bool) (who : cstring) (now : Z) (l : list ban_change)
  | Ask (u : nat)
  | Join (u : nat) (flags : Z)
  | Part (u : nat)
  | Compose (ip : bool) (name : cstring).

Definition ban_step (who : nat -> names) (st : bans) (bs : bufs) (e : ban_event) : result (bans * bufs) :=
  match e with
  | Mode mine service nick now l => st ← mode_bans st mine service nick now l; Ok (st, bs)
  | Ask u => '(st, bs, _) ← is_banned (who u) st bs u; Ok (st, bs)
  | Join u f => Ok (with_mems st (mkLink u f :: mems st), bs)
  | Part u => Ok (with_mems st (List.filter (fun x => negb (bool_decide (cptr x = u))) (mems st)), bs)
  | Compose ip name =>
      bs ← (if ip : bool then make_nick_user_ip bs name else make_nick_user_host bs name); Ok (st, bs)
  end.

Fixpoint ban_run (who : nat -> names) (st : bans) (bs : bufs) (l : list ban_event) : result (bans * bufs) :=
  match l with [] => Ok (st, bs) | e :: l => '(st, bs) ← ban_step who st bs e; ban_run who st bs l end.

Definition no_bans : bans := mkBans [] [] None None [].

(** * Flags *)

Lemma has_valid f : has f CHFL_BANVALID = Z.testbit f 11.
Proof. by apply (has_bit 11). Qed.
Lemma has_banned f : has f CHFL_BANNED = Z.testbit f 12.
Proof. by apply (has_bit 12). Qed.
Lemma has_ipmask f : has f CHFL_BAN_IPMASK = Z.testbit f 6.
Proof. by apply (has_bit 6). Qed.
Lemma has_wipeout f : has f CHFL_BURST_BAN_WIPEOUT = Z.testbit f 10.
Proof. by apply (has_bit 10). Qed.

#[local] Ltac bits :=
  rewrite ?has_valid, ?has_banned, ?has_ipmask, ?has_wipeout, ?clear_bit, ?Z.lor_spec by done;
  repeat match goal with |- context [Z.testbit ?c ?k] =>
    lazymatch c with
    | CHFL_BANVALID => idtac | CHFL_BANNED => idtac | CHFL_BAN_OVERLAPPED => idtac
    | CHFL_BAN => idtac | CHFL_BAN_IPMASK => idtac
    end;
    let v := eval vm_compute in (Z.testbit c k) in change (Z.testbit c k) with v end;
  cbn [negb]; rewrite ?andb_true_r, ?andb_false_r, ?orb_true_r, ?orb_false_r.

Lemma erase_banned_spec f :
  has (erase_banned f) CHFL_BANVALID = has f CHFL_BANVALID && negb (has f CHFL_BANNED) /\
  has (erase_banned f) CHFL_BANNED = has f CHFL_BANNED.
Proof.
  unfold erase_banned.
  assert (Z.land f (Z.lor CHFL_BANNED CHFL_BANVALID) = Z.lor CHFL_BANNED CHFL_BANVALID <->
    Z.testbit f 11 = true /\ Z.testbit f 12 = true) as Hb.
  { split.
    - intros E. pose proof (f_equal (fun z => Z.testbit z 11) E) as E1. pose proof (f_equal (fun z => Z.testbit z 12) E) as E2.
      cbv beta in E1, E2. rewrite Z.land_spec in E1, E2.
      change (Z.testbit (Z.lor CHFL_BANNED CHFL_BANVALID) 11) with true in E1.
      change (Z.testbit (Z.lor CHFL_BANNED CHFL_BANVALID) 12) with true in E2.
      by rewrite !andb_true_r in *.
    - intros [E1 E2]. apply Z.bits_inj'. intros n Hn. rewrite Z.land_spec.
      destruct (Z.testbit (Z.lor CHFL_BANNED CHFL_BANVALID) n) eqn:E; [|apply andb_false_r].
      rewrite Z.lor_spec in E. change CHFL_BANNED with (2 ^ 12) in E. change CHFL_BANVALID with (2 ^ 11) in E.
      rewrite !Z.pow2_bits_eqb in E by done. apply orb_true_iff in E as [E|E]; apply Z.eqb_eq in E; subst n.
      + by rewrite E2.
      + by rewrite E1. }
  case_decide as H; rewrite Hb in H.
  - destruct H as [E1 E2]. bits. by rewrite E1, E2.
  - rewrite has_valid, has_banned. destruct (Z.testbit f 11), (Z.testbit f 12); naive_solver.
Qed.

(** * Bans that are masks of users *)

(** What pretty_mask() gives has a "!" and no terminator inside. *)
Definition user_mask (m : list ascii) : Prop := is_cstr m /\ "!"%char ∈ m.
#[export] Instance user_mask_dec m : Decision (user_mask m).
Proof. unfold user_mask. apply _. Defined.

Lemma bang_lit (m : list ascii) : "!"%char ∈ m -> Exists is_lit (tokens m).
Proof.
  induction (mask_view_tokens m) as [|m ts _ IH|m ts _ IH|d m ts Hd _ IH|c m ts Hw He _ IH]; intros H.
  - by apply not_elem_of_nil in H.
  - right. apply IH. by apply elem_of_cons in H as [|].
  - right. apply IH. by apply elem_of_cons in H as [|].
  - by left.
  - by left.
Qed.

Lemma collapse_go_elem star (m : list ascii) c : ~ is_wild c -> c ∈ m -> c ∈ collapse_go star m.
Proof.
  intros Hc. revert star. induction (mask_view_tokens m)
    as [|m ts Hv IH|m ts Hv IH|d m ts Hd Hv IH|d m ts Hw He Hv IH]; intros star H.
  - by apply not_elem_of_nil in H.
  - apply (IH true). apply elem_of_cons in H as [->|]; [|done]. by destruct Hc; left.
  - right. apply IH. apply elem_of_cons in H as [->|]; [|done]. by destruct Hc; right.
  - rewrite collapse_go_esc by done. apply elem_of_app. right. apply elem_of_cons in H as [->|H]; [left|right].
    apply elem_of_cons in H as [->|H]; [left|right; auto].
  - rewrite collapse_go_lit by done. apply elem_of_app. right. apply elem_of_cons in H as [->|H]; [left|right; auto].
Qed.

Lemma clean_ban_spec mask : user_mask mask -> exists mask', clean_ban mask = Ok mask' /\ user_mask mask'.
Proof.
  intros [Hm Hb]. assert (Hf : is_cstr (fix_string mask)).
  { unfold is_cstr, fix_string in *. rewrite Forall_forall in Hm |- *.
    intros c [_ Hc]%list_elem_of_filter. by apply Hm. }
  unfold clean_ban. destruct (collapse_spec (fix_string mask) [] Hf) as (junk&->). cbn [mbind result_bind].
  eexists. split; [done|]. rewrite c_text_app by (by apply collapse_go_cstr).
  split; [by apply collapse_go_cstr|]. apply collapse_go_elem; [by intros [?|?]|].
  apply list_elem_of_filter. split; [|done]. change (uchar "!"%char) with 33. lia.
Qed.

(** mmatch() as a predicate *)
Definition covb (a b : cstring) : bool := bool_decide (mmatch a b = Ok 0).

Lemma covb_spec a b :
  user_mask a -> user_mask b ->
  (exists r, mmatch a b = Ok r /\ (r = 0 <-> covb a b = true)) /\ (covb a b = true <-> covers (tokens a) (tokens b)).
Proof.
  intros [Ha Hba] [Hb _]. destruct (mmatch_spec a b) as (r&Hr&H1&H2); [done|done| |].
  { left. by intros ->; apply not_elem_of_nil in Hba. }
  assert (covb a b = true <-> r = 0) as Hc.
  { unfold covb. rewrite bool_decide_eq_true, Hr. split; [by intros [= ->]|by intros ->]. }
  specialize (H2 (bang_lit _ Hba)). rewrite Hc. split; [by exists r|]. split; auto.
Qed.

Lemma covb_covers a b : user_mask a -> user_mask b -> covb a b = true <-> covers (tokens a) (tokens b).
Proof. intros Ha Hb. by apply covb_spec. Qed.

Lemma covb_trans a b c :
  user_mask a -> user_mask b -> user_mask c -> covb a b = true -> covb b c = true -> covb a c = true.
Proof.
  intros Ha Hb Hc. rewrite !covb_covers by done. apply covers_trans.
Qed.

Definition wf (b : Ban) : Prop := user_mask (banstr b) /\ has (bflags b) CHFL_BURST_BAN_WIPEOUT = false.

(** What a ban hits depends on its mask and on its kind. *)
Definition key (b : Ban) : cstring * bool := (banstr b, has (bflags b) CHFL_BAN_IPMASK).

(** No ban of the list covers another. *)
Definition apart (a b : cstring) : Prop := covb a b = false /\ covb b a = false.
Definition irredundant (l : list cstring) : Prop := ForallOrdPairs apart l.

(** * add_banid() *)

Lemma key_unoverlap b f : key (set_bflags (clear f CHFL_BAN_OVERLAPPED) b) = (banstr b, has f CHFL_BAN_IPMASK).
Proof. unfold key. simpl. f_equal. bits. done. Qed.

(** The list up to the first ban that covers the new one *)
Fixpoint until_cover (m : cstring) (l : list Ban) : list Ban * option (list Ban) :=
  match l with
  | [] => ([], None)
  | b :: l' =>
      if covb (banstr b) m then ([], Some l)
      else let '(before, o) := until_cover m l' in (b :: before, o)
  end.

(** With [change], no BURST *)
Lemma add_loop_spec mine first m l rem any cnt len nxt :
  user_mask m -> Forall wf l ->
  exists s, add_loop mine true first m l rem any cnt len nxt = Ok s /\
    let '(before, o) := until_cover m l in
    let dropped := List.filter (fun b => covb m (banstr b)) before in
    sc_ret s = (if o is Some _ then Some (-1) else None) /\
    key <$> sc_list s = key <$> (List.filter (fun b => negb (covb m (banstr b))) before ++ default [] o) /\
    Forall wf (sc_list s) /\ sc_removed s = rev dropped ++ rem /\
    sc_any s = any || negb (bool_decide (dropped = [])) /\
    (o = None -> mine = true -> sc_cnt s = cnt + Z.of_nat (length (sc_list s))).
Proof.
  intros Hm Hl. revert rem any cnt len nxt. induction Hl as [|b l Hb Hl IH]; intros rem any cnt len nxt.
  { eexists. split; [done|]. simpl. split_and!; try done; [by rewrite orb_false_r|lia]. }
  cbn [add_loop until_cover]. pose proof Hb as [Hmb Hw]. rewrite Hw.
  destruct (covb_spec _ _ Hmb Hm) as [(r&->&Hr) _]. cbn [mbind result_bind].
  destruct (decide (r = 0)) as [->|H0].
  { rewrite (proj1 Hr eq_refl). eexists. split; [done|]. simpl. split_and!; try done; [by constructor|by rewrite orb_false_r]. }
  destruct (covb (banstr b) m) eqn:E; [by destruct H0; apply Hr|].
  destruct (covb_spec _ _ Hm Hmb) as [(r'&->&Hr') _]. cbn [mbind result_bind].
  destruct (decide (r' = 0)) as [->|H0'].
  - pose proof (proj1 Hr' eq_refl) as Ec.
    set (cnt' := if mine then _ else _). set (len' := if mine then _ else _).
    destruct (IH (b :: rem) true cnt' len' nxt) as (s&->&H).
    exists s. split; [done|]. destruct (until_cover m l) as [before o]. cbn [List.filter]. rewrite Ec. simpl.
    destruct H as (?&?&?&->&->&Hn). split_and!; try done; [by rewrite <- app_assoc|by rewrite orb_true_r|].
    intros Ho Hmi. rewrite Hn by done. subst cnt'. rewrite Hmi. lia.
  - assert (covb m (banstr b) = false) as Ec by (destruct (covb m (banstr b)); [by destruct H0'; apply Hr'|done]).
    destruct (IH rem any (cnt + 1) (len + Z.of_nat (length (banstr b))) nxt) as (s&->&H).
    cbn [mbind result_bind]. eexists. split; [done|].
    destruct (until_cover m l) as [before o]. cbn [List.filter]. rewrite Ec.
    destruct H as (?&Hk&?&?&?&Hn). split_and!; try done; cbn [sc_list keep].
    + cbn [negb fmap list_fmap app]. simpl. f_equal; [|done]. destruct first; [apply key_unoverlap|done].
    + constructor; [|done]. destruct first; [|done]. split; [done|]. simpl. revert Hw. bits. done.
    + intros Ho Hmi. simpl. rewrite Hn by done. lia.
Qed.

Lemma until_cover_spec m l :
  let '(before, o) := until_cover m l in
  l = before ++ default [] o /\ Forall (fun b => covb (banstr b) m = false) before /\
  match o with Some l2 => exists b l2', l2 = b :: l2' /\ covb (banstr b) m = true | None => True end.
Proof.
  induction l as [|b l IH]; simpl; [done|]. destruct (covb (banstr b) m) eqn:E.
  - split_and!; [done|done|by exists b, l].
  - destruct (until_cover m l) as [before o]. destruct IH as (->&?&?). split_and!; [done|by constructor|done].
Qed.

Lemma irredundant_cons m l : irredundant (m :: l) <-> Forall (apart m) l /\ irredundant l.
Proof. unfold irredundant. split; [by inversion 1|intros [? ?]; by constructor]. Qed.

Lemma irredundant_sublist l1 l2 : l1 `sublist_of` l2 -> irredundant l2 -> irredundant l1.
Proof.
  induction 1 as [|m l1 l2 Hs IH|m l1 l2 Hs IH]; intros Hi; [done|..]; apply irredundant_cons in Hi as [Hm Hi].
  - apply irredundant_cons. split; [|auto]. rewrite Forall_forall in Hm |- *.
    intros x Hx. apply Hm. by eapply elem_of_sublist.
  - auto.
Qed.

Lemma fmap_sublist {A B} (f : A -> B) l1 l2 : l1 `sublist_of` l2 -> f <$> l1 `sublist_of` f <$> l2.
Proof. induction 1; simpl; by constructor. Qed.

Lemma filter_sublist {A} (p : A -> bool) l : List.filter p l `sublist_of` l.
Proof. induction l as [|x l IH]; simpl; [constructor|]. destruct (p x); by constructor. Qed.

(** A list that has a ban that covers the new one has none that is covered. *)
Lemma until_cover_none_dropped m l before l2 :
  user_mask m -> Forall wf l -> irredundant (banstr <$> l) -> until_cover m l = (before, Some l2) ->
  List.filter (fun b => covb m (banstr b)) before = [].
Proof.
  intros Hm Hw Hi E. pose proof (until_cover_spec m l) as Hu. rewrite E in Hu.
  destruct Hu as (El&_&b&l2'&->&Hb). simpl in El. subst l.
  apply Forall_app in Hw as [Hw1 Hw2]. inversion_clear Hw2 as [|? ? [Hmb _] _].
  clear E. induction Hw1 as [|a before [Hma _] Hw1 IH]; [done|].
  cbn [fmap list_fmap app] in Hi. apply irredundant_cons in Hi as [Ha Hi]. simpl.
  destruct (covb m (banstr a)) eqn:Ec; [|by apply IH].
  rewrite Forall_fmap in Ha. rewrite Forall_forall in Ha. destruct (Ha b) as [_ H].
  { apply elem_of_app. right. left. }
  simpl in H. by rewrite (covb_trans _ m) in H.
Qed.

(** What add_banid() leaves of the list for a mask [m] *)
Definition kept (m : cstring) (l : list Ban) : list Ban := List.filter (fun b => negb (covb m (banstr b))) l.
Definition dropped (m : cstring) (l : list Ban) : list Ban := List.filter (fun b => covb m (banstr b)) l.

Lemma kept_all m l : dropped m l = [] -> kept m l = l.
Proof.
  unfold dropped, kept. induction l as [|b l IH]; simpl; [done|]. destruct (covb m (banstr b)); [done|].
  intros H. simpl. by rewrite IH.
Qed.

Lemma kept_dropped m l : (length (kept m l) + length (dropped m l) = length l)%nat.
Proof.
  unfold kept, dropped. induction l as [|b l IH]; simpl; [done|].
  destruct (covb m (banstr b)); simpl; lia.
Qed.

Lemma banstr_key (l l' : list Ban) : key <$> l = key <$> l' -> banstr <$> l = banstr <$> l'.
Proof.
  intros E. apply (f_equal (fmap fst)) in E. by rewrite <- !list_fmap_compose in E.
Qed.

Lemma key_length (l l' : list Ban) : key <$> l = key <$> l' -> length l = length l'.
Proof. intros E. by rewrite <- (length_fmap key l), E, length_fmap. Qed.

Definition added (m : cstring) (st st' : bans) : Prop :=
  (exists ip, key <$> blist st' = (m, ip) :: (key <$> kept m (blist st))) /\
  mems st' = map_mems (fun f => clear f CHFL_BANVALID) (mems st) /\
  removed_bans_list st' = rev (dropped m (blist st)) ++ removed_bans_list st.

Definition refused (st st' : bans) : Prop :=
  key <$> blist st' = key <$> blist st /\ mems st' = mems st /\ removed_bans_list st' = removed_bans_list st.

Lemma add_banid_spec st (mine service : bool) who (m : cstring) first now fresh :
  user_mask m -> Forall wf (blist st) -> irredundant (banstr <$> blist st) ->
  (first = true -> prev_ban st = None /\ removed_bans_list st = []) ->
  exists m' st' r, (if mine then clean_ban m else Ok m) = Ok m' /\ user_mask m' /\
    add_banid st mine service who m true first now fresh = Ok (st', r) /\
    Forall wf (blist st') /\ irredundant (banstr <$> blist st') /\ prev_ban st' = prev_ban st /\
    (r = 0 /\ added m' st st' \/ r = -1 /\ refused st st') /\
    (mine = true -> service = false ->
     Z.of_nat (length (blist st')) <= Z.max MAXBANS (Z.of_nat (length (blist st)))).
Proof.
  intros Hm Hw Hi Hf.
  assert (exists m', (if mine then clean_ban m else Ok m) = Ok m' /\ user_mask m') as (m'&Em&Hm').
  { destruct mine; [by apply clean_ban_spec|by exists m]. }
  exists m'. unfold add_banid.
  replace (if first then match prev_ban st, removed_bans_list st with None, [] => Ok tt | _, _ => Ub end else Ok tt)
    with (Ok tt : result unit) by (destruct first; [destruct (Hf eq_refl) as [-> ->]|]; done).
  cbn [mbind result_bind]. rewrite !Em. cbn [mbind result_bind].
  destruct (add_loop_spec mine first m' (blist st) (removed_bans_list st) false 0 (Z.of_nat (length m))
    (if first then None else next_ban st) Hm' Hw) as (s&->&Hs). cbn [mbind result_bind].
  destruct (until_cover m' (blist st)) as [before o] eqn:Eu. destruct Hs as (->&Hk&Hws&Hrem&Hany&Hcnt).
  pose proof (until_cover_spec m' (blist st)) as Hu. rewrite Eu in Hu. destruct Hu as (El&Hnc&_).
  fold (kept m' before) in Hk. fold (dropped m' before) in Hrem, Hany.
  assert (Hrefuse : dropped m' before = [] -> refused st (mkBans (sc_list s) (mems st) (sc_next s) (prev_ban st) (sc_removed s))).
  { intros Hd. rewrite kept_all, <- El in Hk by done. rewrite Hd in Hrem. done. }
  destruct o as [l2|].
  - assert (Hd : dropped m' before = []) by by apply (until_cover_none_dropped m' (blist st) before l2). specialize (Hrefuse Hd).
    eexists _, _. split_and!; [done|done|done|done| |done|by right|].
    + rewrite (banstr_key _ (blist st)); [done|apply Hrefuse].
    + intros _ _. rewrite (key_length _ _ (proj1 Hrefuse)). lia.
  - cbn [default app] in *. rewrite app_nil_r in *. subst before.
    destruct (mine && negb service && negb (sc_any s) &&
      (bool_decide (MAXBANLENGTH < sc_len s) || bool_decide (MAXBANS <= sc_cnt s))) eqn:Efull.
    + assert (Hd : dropped m' (blist st) = []).
      { rewrite !andb_true_iff, Hany in Efull. destruct Efull as [[_ Ha] _].
        destruct (dropped m' (blist st)); [done|by rewrite bool_decide_eq_false_2 in Ha]. }
      specialize (Hrefuse Hd). eexists _, _. split_and!; [done|done|done|done| |done|by right|].
      * rewrite (banstr_key _ (blist st)); [done|apply Hrefuse].
      * intros _ _. rewrite (key_length _ _ (proj1 Hrefuse)). lia.
    + eexists _, _. split_and!; [done|done|done| | |done| |].
      * constructor; [|done]. split; [done|]. simpl. by destruct (match rsplit_at m' with Some _ => _ | None => _ end).
      * cbn [blist fmap list_fmap]. rewrite (banstr_key _ _ Hk). apply irredundant_cons. split.
        -- apply Forall_fmap, Forall_forall. intros b Hb. unfold kept in Hb.
           apply list_elem_of_In, filter_In in Hb as [Hb Hc]. rewrite Forall_forall in Hnc. simpl. split.
           ++ by apply negb_true_iff.
           ++ by apply Hnc, list_elem_of_In.
        -- eapply irredundant_sublist; [|exact Hi]. apply fmap_sublist, filter_sublist.
      * left. split; [done|]. split; [|done]. eexists. cbn [blist fmap list_fmap]. by rewrite Hk.
      * intros -> ->. cbn [blist length]. specialize (Hcnt eq_refl eq_refl). simpl in Efull.
        rewrite Hany in Efull. pose proof (kept_dropped m' (blist st)) as Hkd.
        rewrite (key_length _ _ Hk) in *. destruct (dropped m' (blist st)) eqn:Ed.
        -- simpl in Efull. apply orb_false_iff in Efull as [_ Ef]. apply bool_decide_eq_false in Ef. lia.
        -- simpl in Hkd. lia.
Qed.

(** * What a ban hits *)

(** The names are strings that fill their buffer but for two bytes. *)
Definition name_fits (size : nat) (s : cstring) : Prop := is_cstr s /\ (length s + 2 <= size)%nat.
#[export] Instance name_fits_dec size s : Decision (name_fits size s).
Proof. unfold name_fits. apply _. Defined.

Definition names_ok (w : names) : Prop :=
  name_fits NAMEBUFLEN (n_host w) /\ name_fits IPBUFLEN (n_ip w) /\ name_fits NAMEBUFLEN (n_vhost w) /\
  match n_perso w with Some s => name_fits NAMEBUFLEN s | None => True end.
#[export] Instance names_ok_dec w : Decision (names_ok w).
Proof. unfold names_ok. destruct (n_perso w); apply _. Defined.

(** What a ban hits, if [m fold mask name] tells which names a mask hits.  The virtual
    host is compared with its case, the others without. *)
Definition hits_by (m : (ascii -> ascii) -> cstring -> cstring -> Prop) (w : names) (k : cstring * bool) : Prop :=
  if k.2 then m toLower k.1 (n_ip w)
  else m toLower k.1 (n_host w) \/ m (fun c => c) k.1 (n_vhost w) \/
       exists s, n_perso w = Some s /\ m toLower k.1 s.

(** The names that a ban stands for, and those that match() may answer for with
    something behind them in the buffer *)
Definition hits : names -> cstring * bool -> Prop := hits_by (fun fold mask => glob fold (tokens mask)).
Definition may_hit : names -> cstring * bool -> Prop :=
  hits_by (fun fold mask name => exists tail, match_gen fold mask (name ++ NUL :: tail) = Ok 0).

Definition banned (w : names) (l : list Ban) : Prop := Exists (hits w) (key <$> l).
Definition may_be_banned (w : names) (l : list Ban) : Prop := Exists (may_hit w) (key <$> l).

(** A buffer ends in two terminators. *)
Definition buf_ok (size : nat) (buf : list ascii) : Prop := length buf = size /\ exists x, buf = x ++ [NUL; NUL].
Definition bufs_ok (bs : bufs) : Prop := buf_ok NAMEBUFLEN (namebuf bs) /\ buf_ok IPBUFLEN (ipbuf bs).

Lemma fresh_bufs_ok : bufs_ok fresh_bufs.
Proof.
  split; (split; [done|]); [exists (replicate 104 NUL)|exists (replicate 57 NUL)]; reflexivity.
Qed.

Lemma compose_spec size buf name :
  name_fits size name -> buf_ok size buf ->
  exists buf' tail, compose buf name = Ok buf' /\ buf_ok size buf' /\ buf' = name ++ NUL :: tail.
Proof.
  intros [Hc Hn] [Hl [x ->]]. rewrite length_app in Hl. simpl in Hl. unfold compose.
  rewrite length_app. simpl. rewrite decide_True by lia.
  eexists _, _. split; [done|]. split; [|done]. split.
  - rewrite length_app. simpl. rewrite length_drop, length_app. simpl. lia.
  - destruct (decide (length name = length x)) as [E|E].
    + exists name. rewrite (drop_app_ge x) by lia. by replace (S (length name) - length x)%nat with 1%nat by lia.
    + exists (name ++ NUL :: drop (S (length name)) x). rewrite drop_app_le by lia. by rewrite <- app_assoc.
Qed.

(** The comparison with what is in the buffer *)
Lemma ban_name_spec (fold : ascii -> ascii) mask name tail size :
  (forall c, fold c = fold NUL -> c = NUL) -> is_cstr mask -> is_cstr name -> buf_ok size (name ++ NUL :: tail) ->
  exists r, match_name (match_gen fold) mask (name ++ NUL :: tail) = Ok r /\
    (glob fold (tokens mask) name -> r = true) /\
    (r = true -> exists tail, match_gen fold mask (name ++ NUL :: tail) = Ok 0).
Proof.
  intros Hf Hm Hn [_ [x E]]. unfold match_name.
  destruct (match_gen_ends fold Hf [] mask x Hm) as (r&Hr). unfold zbuf in Hr. rewrite <- E in Hr.
  rewrite Hr. cbn [mbind result_bind]. eexists. split; [done|]. rewrite bool_decide_eq_true. split.
  - intros Hg. assert (H := match_gen_hit fold Hf tail mask name Hm Hn Hg). unfold buf in H. rewrite H in Hr.
    by injection Hr.
  - intros ->. by exists tail.
Qed.

Lemma hits_may_hit w k : names_ok w -> is_cstr k.1 -> hits w k -> may_hit w k.
Proof.
  intros ((Hh&_)&(Hi&_)&(Hv&_)&Hp) Hm. destruct k as [m ip]. unfold hits, may_hit, hits_by. cbn [fst snd] in *.
  destruct ip; [intros H; exists []; by apply match_gen_hit; [apply toLower_eq_NUL|..]|].
  intros [H|[H|(s&Hs&H)]]; [left|right; left|right; right; exists s; split; [done|]]; exists [].
  - by apply match_gen_hit; [apply toLower_eq_NUL|..].
  - by apply match_gen_hit.
  - rewrite Hs in Hp. by apply match_gen_hit; [apply toLower_eq_NUL|done|apply Hp|done].
Qed.

Lemma hit_spec w b ip_s bs :
  names_ok w -> wf b -> bufs_ok bs -> (ip_s = true -> exists tail, ipbuf bs = n_ip w ++ NUL :: tail) ->
  exists r ip' bs', hit w b ip_s bs = Ok (r, ip', bs') /\ bufs_ok bs' /\
    (ip' = true -> exists tail, ipbuf bs' = n_ip w ++ NUL :: tail) /\
    (hits w (key b) -> r = true) /\ (r = true -> may_hit w (key b)).
Proof.
  intros (Hh&Hi&Hv&Hp) [[Hm _] _] [Hbn Hbi] Hip. unfold hit, hits, may_hit, hits_by, match_, match_case. cbn [key fst snd].
  destruct (has (bflags b) CHFL_BAN_IPMASK).
  - assert (H : exists bs' tail, (if ip_s then Ok bs else make_nick_user_ip bs (n_ip w)) = Ok bs' /\
      bufs_ok bs' /\ ipbuf bs' = n_ip w ++ NUL :: tail).
    { destruct ip_s; [destruct (Hip eq_refl) as (tail&E); by exists bs, tail|].
      destruct (compose_spec IPBUFLEN (ipbuf bs) (n_ip w)) as (buf'&tail&E&Hok&->); [done..|].
      unfold make_nick_user_ip. rewrite E. by eexists _, tail. }
    destruct H as (bs'&tail&->&[Hb1 Hb2]&Et). cbn [mbind result_bind]. rewrite Et in Hb2 |- *.
    destruct (ban_name_spec toLower (banstr b) (n_ip w) tail IPBUFLEN) as (r&->&H1&H2); [apply toLower_eq_NUL|done|apply Hi|done|].
    cbn [mbind result_bind]. eexists r, true, bs'. split; [done|]. split; [split; [done|by rewrite Et]|]. split; [by exists tail|done].
  - assert (Hmake : forall fold s bs, (forall c, fold c = fold NUL -> c = NUL) -> name_fits NAMEBUFLEN s -> bufs_ok bs ->
      (ip_s = true -> exists tail, ipbuf bs = n_ip w ++ NUL :: tail) ->
      exists bs' r, make_nick_user_host bs s = Ok bs' /\ bufs_ok bs' /\
        (ip_s = true -> exists tail, ipbuf bs' = n_ip w ++ NUL :: tail) /\
        match_name (match_gen fold) (banstr b) (namebuf bs') = Ok r /\ (glob fold (tokens (banstr b)) s -> r = true) /\
        (r = true -> exists tail, match_gen fold (banstr b) (s ++ NUL :: tail) = Ok 0)).
    { intros fold s bs1 Hf Hs [H1 H2] Hip1.
      destruct (compose_spec NAMEBUFLEN (namebuf bs1) s) as (buf'&tail&E&Hok&->); [done..|].
      destruct (ban_name_spec fold (banstr b) s tail NAMEBUFLEN) as (r&Hr&Hg&Hg'); [done|done|apply Hs|done|].
      unfold make_nick_user_host. rewrite E. cbn [mbind result_bind]. by eexists _, r. }
    destruct (Hmake toLower (n_host w) bs) as (bs1&r1&->&Hb1&Hip1&E1&H1&H1'); [apply toLower_eq_NUL|done..|].
    cbn [mbind result_bind]. rewrite E1. cbn [mbind result_bind]. destruct r1; [eexists true, _, _; naive_solver|].
    destruct (Hmake (fun c => c) (n_vhost w) bs1) as (bs2&r2&->&Hb2&Hip2&E2&H2&H2'); [done..|].
    cbn [mbind result_bind]. rewrite E2. cbn [mbind result_bind]. destruct r2; [eexists true, _, _; naive_solver|].
    destruct (n_perso w) as [s|]; [|eexists false, _, _; naive_solver].
    destruct (Hmake toLower s bs2) as (bs3&r3&->&Hb3&Hip3&E3&H3&H3'); [apply toLower_eq_NUL|done..|].
    cbn [mbind result_bind]. rewrite E3. cbn [mbind result_bind]. eexists r3, _, _. split; [done|]. naive_solver.
Qed.

Lemma any_hit_loop_spec w l ip_s bs :
  names_ok w -> Forall wf l -> bufs_ok bs -> (ip_s = true -> exists tail, ipbuf bs = n_ip w ++ NUL :: tail) ->
  exists r bs', any_hit_loop w l ip_s bs = Ok (r, bs') /\ bufs_ok bs' /\
    (banned w l -> r = true) /\ (r = true -> may_be_banned w l).
Proof.
  intros Hw Hl. unfold banned, may_be_banned. revert ip_s bs. induction Hl as [|b l Hb Hl IH]; intros ip_s bs Hbs Hip.
  { exists false, bs. split_and!; try done. by rewrite Exists_nil. }
  cbn [any_hit_loop fmap list_fmap]. destruct (hit_spec w b ip_s bs Hw Hb Hbs Hip) as (r&ip'&bs'&->&Hbs'&Hip'&H1&H2).
  cbn [mbind result_bind]. destruct r.
  - exists true, bs'. split_and!; try done. intros _. left. by apply H2.
  - destruct (IH ip' bs' Hbs' Hip') as (r&bs2&->&Hbs2&H3&H4). exists r, bs2. split_and!; [done..| |].
    + rewrite Exists_cons. naive_solver.
    + rewrite Exists_cons. naive_solver.
Qed.

Lemma any_hit_spec w l bs :
  names_ok w -> Forall wf l -> bufs_ok bs ->
  exists r bs', any_hit w l bs = Ok (r, bs') /\ bufs_ok bs' /\ (banned w l -> r = true) /\ (r = true -> may_be_banned w l).
Proof. intros. by apply any_hit_loop_spec. Qed.

(** * The cache *)

Section cache.
Variable who : nat -> names.
Hypothesis Hwho : forall u, names_ok (who u).

Definition cached (l : list Ban) (x : Link) : Prop :=
  has (lflags x) CHFL_BANVALID = true ->
  (banned (who (cptr x)) l -> has (lflags x) CHFL_BANNED = true) /\
  (has (lflags x) CHFL_BANNED = true -> may_be_banned (who (cptr x)) l).

Record Inv (st : bans) : Prop := {
  i_wf : Forall wf (blist st);
  i_irr : irredundant (banstr <$> blist st);
  i_cache : Forall (cached (blist st)) (mems st) }.

(** Nothing waits to be announced. *)
Definition quiet (st : bans) : Prop := prev_ban st = None /\ removed_bans_list st = [].

Lemma banned_key w l l' : key <$> l = key <$> l' -> banned w l <-> banned w l'.
Proof. unfold banned. by intros ->. Qed.
Lemma may_be_banned_key w l l' : key <$> l = key <$> l' -> may_be_banned w l <-> may_be_banned w l'.
Proof. unfold may_be_banned. by intros ->. Qed.

Lemma cached_key l l' m : key <$> l = key <$> l' -> Forall (cached l) m -> Forall (cached l') m.
Proof.
  intros Hk H. eapply Forall_impl; [exact H|]. intros x Hx Hv. destruct (Hx Hv) as [H1 H2].
  by rewrite <- (banned_key _ l l' Hk), <- (may_be_banned_key _ l l' Hk).
Qed.

Lemma cached_cleared l m : Forall (cached l) (map_mems (fun f => clear f CHFL_BANVALID) m).
Proof.
  unfold map_mems. apply Forall_forall. intros x Hx. apply list_elem_of_In, in_map_iff in Hx as (y&<-&_).
  unfold cached. simpl. by bits.
Qed.

(** A ban fewer: who was found not banned still is not. *)
Lemma cached_erased l l' m :
  l' `sublist_of` l -> Forall (cached l) m -> Forall (cached l') (map_mems erase_banned m).
Proof.
  intros Hs Hm. unfold map_mems. rewrite Forall_forall in Hm. apply Forall_forall. intros x Hx.
  apply list_elem_of_In, in_map_iff in Hx as (y&<-&Hy). apply list_elem_of_In, Hm in Hy. unfold cached in *.
  simpl. destruct (erase_banned_spec (lflags y)) as [-> ->]. intros [Hv Hb]%andb_true_iff.
  apply negb_true_iff in Hb. rewrite Hb. specialize (Hy Hv). rewrite Hb in Hy.
  split; [|done]. intros H. apply Hy. unfold banned in *. rewrite Exists_exists in *.
  destruct H as (k&Hk&?). exists k. split; [|done]. eapply elem_of_sublist; [exact Hk|]. by apply fmap_sublist.
Qed.

Lemma del_ban_sublist m l l' : del_ban m l = Some l' -> l' `sublist_of` l.
Proof.
  revert l'. induction l as [|b l IH]; simpl; intros l' H; [done|]. case_decide; simplify_eq; [by constructor|].
  destruct (del_ban m l) as [l2|]; simplify_eq. constructor. by apply IH.
Qed.

Lemma Inv_del st m : Inv st -> Inv (del_banid st m true).1.
Proof.
  intros [Hw Hi Hc]. unfold del_banid. destruct m as [m|]; [|done].
  destruct (del_ban m (blist st)) as [l|] eqn:E; [|done]. apply del_ban_sublist in E. constructor; cbn [blist mems fst].
  - rewrite Forall_forall in Hw |- *. intros b Hb. apply Hw. by eapply elem_of_sublist.
  - eapply irredundant_sublist; [|exact Hi]. by apply fmap_sublist.
  - by eapply cached_erased.
Qed.

Lemma quiet_del st m : (del_banid st m true).1 = st \/
  (prev_ban (del_banid st m true).1 = prev_ban st /\ removed_bans_list (del_banid st m true).1 = removed_bans_list st).
Proof. unfold del_banid. destruct m as [m|]; [|by left]. destruct (del_ban m (blist st)); [by right|by left]. Qed.

Lemma Inv_add st mine service nick m first now fresh :
  Inv st -> user_mask m -> (first = true -> quiet st) ->
  exists st' r, add_banid st mine service nick m true first now fresh = Ok (st', r) /\ Inv st' /\
    prev_ban st' = prev_ban st /\ (r = 0 \/ r <> 0 /\ removed_bans_list st' = removed_bans_list st).
Proof.
  intros [Hw Hi Hc] Hm Hq.
  destruct (add_banid_spec st mine service nick m first now fresh Hm Hw Hi Hq)
    as (m'&st'&r&_&_&Hr&Hw'&Hi'&Hp&Hs&_).
  exists st', r. split; [done|]. destruct Hs as [(->&_&Hmem&_)|(->&Hk&Hmem&Hrem)].
  - split_and!; [|done|by left]. constructor; [done..|]. rewrite Hmem. apply cached_cleared.
  - split_and!; [|done|by right]. constructor; [done..|]. rewrite Hmem. by apply (cached_key (blist st)).
Qed.

Lemma drain_spec fuel st :
  (length (removed_bans_list st) < fuel)%nat ->
  exists st', drain fuel st = Ok st' /\ blist st' = blist st /\ mems st' = mems st /\ quiet st'.
Proof.
  revert st. induction fuel as [|fuel IH]; intros st Hf; [lia|]. cbn [drain].
  unfold next_removed_overlapped_ban. destruct (removed_bans_list st) as [|b l] eqn:E; simpl.
  - by eexists.
  - destruct (IH (mkBans (blist st) (mems st) (next_ban st) (Some b) l)) as (st'&->&?&?&?);
      [simpl in *; lia|]. by exists st'.
Qed.

(** The masks of a MODE come from pretty_mask(). *)
Definition change_ok (c : ban_change) : Prop :=
  match c with AddBan m _ => user_mask m | DelBan _ => True end.
#[export] Instance change_ok_dec c : Decision (change_ok c).
Proof. destruct c; apply _. Defined.

Lemma Inv_changes st mine service nick now called l :
  Inv st -> Forall change_ok l -> (called = false -> quiet st) ->
  exists st' called', ban_changes st mine service nick now called l = Ok (st', called') /\ Inv st' /\
    (called' = false -> quiet st').
Proof.
  intros Hi Hl. revert st called Hi. induction Hl as [|[m fresh|m] l Hm Hl IH]; intros st called Hi Hq.
  - by exists st, called.
  - cbn [ban_changes].
    destruct (Inv_add st mine service nick m (negb called) now fresh) as (st'&r&->&Hi'&Hp&Hr);
      [done|done|by destruct called; [|auto]|].
    cbn [mbind result_bind]. apply IH; [done|]. intros [-> H0]%orb_false_iff.
    apply bool_decide_eq_false in H0. destruct Hr as [?|[_ Hr]]; [done|]. unfold quiet. rewrite Hp, Hr. by apply Hq.
  - cbn [ban_changes]. apply IH; [by apply Inv_del|]. intros Hc.
    destruct (quiet_del st (Some m)) as [->|[E1 E2]]; [auto|]. unfold quiet. rewrite E1, E2. exact (Hq Hc).
Qed.

Lemma Inv_mode st mine service nick now l :
  Inv st -> quiet st -> Forall change_ok l ->
  exists st', mode_bans st mine service nick now l = Ok st' /\ Inv st' /\ quiet st'.
Proof.
  intros Hi Hq Hl. unfold mode_bans.
  destruct (Inv_changes st mine service nick now false l) as (st'&called&->&Hi'&Hq'); [done..|].
  cbn [mbind result_bind]. destruct called; [|by exists st'; auto].
  destruct (drain_spec (S (length (removed_bans_list st'))) st') as (st2&->&Hb&Hm&?); [lia|].
  exists st2. split_and!; [done| |done]. destruct Hi' as [H1 H2 H3].
  rewrite <- Hb in *. rewrite <- Hm in *. by constructor.
Qed.

Lemma set_link_flags_cached l u f m :
  cached l (mkLink u f) -> Forall (cached l) m -> Forall (cached l) (set_link_flags u f m).
Proof.
  intros Hf. induction 1 as [|x m Hx Hm IH]; simpl; [done|]. case_decide; by constructor.
Qed.

(** The answer, and what is remembered of it *)
Lemma is_banned_spec st bs u :
  Inv st -> bufs_ok bs ->
  exists st' bs' r, is_banned (who u) st bs u = Ok (st', bs', r) /\
    (banned (who u) (blist st) -> r <> 0) /\ (r <> 0 -> may_be_banned (who u) (blist st)) /\ bufs_ok bs' /\
    Inv st' /\ blist st' = blist st /\ prev_ban st' = prev_ban st /\ removed_bans_list st' = removed_bans_list st.
Proof.
  intros Hi Hbs. pose proof Hi as [Hw Hir Hc]. unfold is_banned.
  destruct (any_hit_spec (who u) (blist st) bs (Hwho u) Hw Hbs) as (h&bs'&Hh&Hbs'&Hb&Hm).
  pose proof (find_user_link_spec (mems st) u) as Hf. destruct (find_user_link (mems st) u) as [x|].
  - destruct Hf as [Hx Hp]. assert (Hcx : cached (blist st) x) by (rewrite Forall_forall in Hc; by apply Hc).
    unfold is_banned_member. destruct (has (lflags x) CHFL_BANVALID) eqn:Ev; cbn [mbind result_bind].
    + eexists _, _, _. split; [done|]. unfold cached in Hcx. rewrite Hp in Hcx. destruct (Hcx Ev) as [H1 H2].
      unfold has in H1, H2. rewrite bool_decide_eq_true in H1, H2. split_and!; [done|done|done| |done..].
      constructor; [done..|]. apply set_link_flags_cached; [|done]. intros _. simpl. exact (Hcx Ev).
    + rewrite Hh. cbn [mbind result_bind]. destruct h; eexists _, _, _; (split; [done|]);
        (split; [try done; intros Hn; by specialize (Hb Hn)|]); (split; [try done; intros _; by apply Hm|]);
        (split; [done|]); (split; [|done]);
        (constructor; [done..|]); (apply set_link_flags_cached; [|done]); intros _; simpl.
      * rewrite has_banned, Z.lor_spec. change (Z.testbit CHFL_BANNED 12) with true. rewrite orb_true_r.
        split; [done|]. intros _. by apply Hm.
      * bits. split; [|done]. intros Hn. by specialize (Hb Hn).
  - rewrite Hh. cbn [mbind result_bind]. eexists _, _, _. split; [done|].
    destruct h; split_and!; try done; try (intros Hn; by specialize (Hb Hn)). intros _. by apply Hm.
Qed.

Definition event_ok (e : ban_event) : Prop :=
  match e with
  | Mode _ _ _ _ l => Forall change_ok l
  | Join _ f => has f CHFL_BANVALID = false
  | Ask _ | Part _ => True
  | Compose ip name => name_fits (if ip : bool then IPBUFLEN else NAMEBUFLEN) name
  end.
#[export] Instance event_ok_dec e : Decision (event_ok e).
Proof. destruct e; apply _. Defined.

Lemma Inv_step st bs e :
  Inv st -> quiet st -> bufs_ok bs -> event_ok e ->
  exists st' bs', ban_step who st bs e = Ok (st', bs') /\ Inv st' /\ quiet st' /\ bufs_ok bs'.
Proof.
  intros Hi Hq Hbs He. destruct e as [mine service nick now l|u|u f|u|ip name]; cbn [ban_step].
  - destruct (Inv_mode st mine service nick now l) as (st'&->&?&?); [done..|]. by exists st', bs.
  - destruct (is_banned_spec st bs u Hi Hbs) as (st'&bs'&r&->&_&_&Hbs'&Hi'&_&Hp&Hr). exists st', bs'. cbn [mbind result_bind].
    split_and!; [done|done| |done]. unfold quiet. by rewrite Hp, Hr.
  - eexists _, bs. split; [done|]. split; [|done]. destruct Hi as [Hw Hir Hc]. constructor; [done..|].
    constructor; [|done]. unfold cached. simpl. by rewrite He.
  - eexists _, bs. split; [done|]. split; [|done]. destruct Hi as [Hw Hir Hc]. constructor; [done..|].
    simpl. rewrite Forall_forall in Hc |- *. intros x Hx. apply Hc.
    by eapply elem_of_sublist; [|apply filter_sublist].
  - destruct Hbs as [Hb1 Hb2]. destruct ip; cbn [event_ok] in He.
    + destruct (compose_spec IPBUFLEN (ipbuf bs) name He Hb2) as (buf'&tail&E&?&_).
      unfold make_nick_user_ip. rewrite E. by eexists st, _.
    + destruct (compose_spec NAMEBUFLEN (namebuf bs) name He Hb1) as (buf'&tail&E&?&_).
      unfold make_nick_user_host. rewrite E. by eexists st, _.
Qed.

Lemma Inv_run l st bs :
  Inv st -> quiet st -> bufs_ok bs -> Forall event_ok l ->
  exists st' bs', ban_run who st bs l = Ok (st', bs') /\ Inv st' /\ quiet st' /\ bufs_ok bs'.
Proof.
  intros Hi Hq Hbs Hl. revert st bs Hi Hq Hbs. induction Hl as [|e l He Hl IH]; intros st bs Hi Hq Hbs; [by exists st, bs|].
  cbn [ban_run]. destruct (Inv_step st bs e) as (st1&bs1&->&?&?&?); [done..|]. cbn [mbind result_bind]. by apply IH.
Qed.

Lemma Inv_none : Inv no_bans.
Proof. constructor; constructor. Qed.

End cache.

(** C23. Whatever +b, -b, joins, parts and questions happen on a channel, and whatever
    names are composed in the static buffers for others meanwhile, nothing goes wrong
    (no abort, no read or write outside a buffer, as long as the names leave two bytes
    of their buffer), and no ban of the list covers another.  A client that a ban of
    the present list stands for is found banned, from the flags of the member where
    they tell.  Who is found banned is hit by a ban of the present list, or by one for
    which match() reads on behind the name: then by what an earlier name has left in
    the buffer ([ban_hits_leftovers]). *)
Theorem ban_cache_correct who l :
  (forall u, names_ok (who u)) -> Forall event_ok l ->
  exists st bs, ban_run who no_bans fresh_bufs l = Ok (st, bs) /\
    irredundant (banstr <$> blist st) /\ prev_ban st = None /\ removed_bans_list st = [] /\
    forall u, exists st' bs' r, is_banned (who u) st bs u = Ok (st', bs', r) /\
      ((exists b, b ∈ blist st /\ hits (who u) (key b)) -> r <> 0) /\
      (r <> 0 -> exists b, b ∈ blist st /\ may_hit (who u) (key b)).
Proof.
  intros Hw Hl. destruct (Inv_run who Hw l no_bans fresh_bufs) as (st&bs&Hr&Hi&(Hp&Hrm)&Hbs);
    [apply Inv_none|done|apply fresh_bufs_ok|done|].
  exists st, bs. split_and!; [done|apply Hi|done|done|]. intros u.
  destruct (is_banned_spec who Hw st bs u Hi Hbs) as (st'&bs'&r&E&Hb&Hm&_). exists st', bs', r. split; [done|].
  unfold banned, may_be_banned in *. rewrite Exists_fmap, Exists_exists in Hb, Hm. done.
Qed.

(** C34. add_banid() on the list of bans of a channel, outside a BURST.  When it
    returns 0 the new list is the new ban before the old ones that it does not
    cover, the others wait to be announced, no answer is remembered, and who was
    hit by a removed ban of the same kind, by a name compared without case, is hit
    by the new one.  When it returns -1 nothing has changed.  A local client that
    is no service does not bring the list beyond MAXBANS. *)
Theorem add_banid_correct st (mine service : bool) who (m : cstring) first now fresh :
  user_mask m -> Forall wf (blist st) -> irredundant (banstr <$> blist st) ->
  (first = true -> prev_ban st = None /\ removed_bans_list st = []) ->
  exists m' st' r, (if mine then clean_ban m else Ok m) = Ok m' /\
    add_banid st mine service who m true first now fresh = Ok (st', r) /\
    irredundant (banstr <$> blist st') /\
    (r = 0 /\ added m' st st' /\
       (forall b s, b ∈ dropped m' (blist st) -> glob toLower (tokens (banstr b)) s -> glob toLower (tokens m') s)
     \/ r = -1 /\ refused st st') /\
    (mine = true -> service = false ->
     Z.of_nat (length (blist st')) <= Z.max MAXBANS (Z.of_nat (length (blist st)))).
Proof.
  intros Hm Hw Hi Hf.
  destruct (add_banid_spec st mine service who m first now fresh Hm Hw Hi Hf)
    as (m'&st'&r&E&Hm'&Hr&_&Hi'&_&Hs&Hl).
  exists m', st', r. split_and!; try done. destruct Hs as [[-> Ha]|Hr1]; [left|by right]. split_and!; [done..|].
  intros b s [Hb Hc]%list_elem_of_In%filter_In. apply covers_includes, covb_covers; [done| |done].
  apply list_elem_of_In in Hb. rewrite Forall_forall in Hw. by apply Hw.
Qed.

(** A channel with one member and one ban, for the witnesses *)
Definition example_names : names :=
  mkNames (str "nick!user@10.1.2.3.example.org") (str "nick!user@192.168.1.1") (str "nick!user@AbCdEf.GhIjKl.virtual") None.
Definition example_mode (mask : string) (cell : nat) : ban_event :=
  Mode true false (str "op") 100 [AddBan (str mask) cell].

(** Witness of [ban_cache_correct]. *)
Lemma ban_cache_correct_witness :
  exists st bs, ban_run (fun _ => example_names) no_bans fresh_bufs
      [Join 7 0; example_mode "*!*@10.1.2.3.example.*" 1; Compose false (str "n!u@aaa.bbb.ccc.org"); Ask 7;
       example_mode "*!*@*.org" 2; Ask 7] = Ok (st, bs) /\
    irredundant (banstr <$> blist st) /\ prev_ban st = None /\ removed_bans_list st = [] /\
    forall u, exists st' bs' r, is_banned ((fun _ => example_names) u) st bs u = Ok (st', bs', r) /\
      ((exists b, b ∈ blist st /\ hits ((fun _ => example_names) u) (key b)) -> r <> 0) /\
      (r <> 0 -> exists b, b ∈ blist st /\ may_hit ((fun _ => example_names) u) (key b)).
Proof.
  apply (ban_cache_correct (fun _ => example_names)
    [Join 7 0; example_mode "*!*@10.1.2.3.example.*" 1; Compose false (str "n!u@aaa.bbb.ccc.org"); Ask 7;
     example_mode "*!*@*.org" 2; Ask 7]).
  - intros _. apply (bool_decide_unpack _). vm_compute. exact I.
  - apply (bool_decide_unpack _). vm_compute. exact I.
Defined.

(** The buffer of names still holds the end of an earlier name: a ban of *!*@*l*org
    hits n!u@x.l after n!u@aaa.bbb.ccc.org was composed, and not before. *)
Theorem ban_hits_leftovers :
  let w := mkNames (str "n!u@x.l") (str "n!u@10.0.0.1") (str "n!u@x.l") None in
  let ban := [Join 7 0; example_mode "*!*@*l*org" 1] in
  let asked l := '(st, bs) ← ban_run (fun _ => w) no_bans fresh_bufs l; '(_, r) ← is_banned w st bs 7; Ok r in
  ~ hits w (str "*!*@*l*org", false) /\ asked ban = Ok 0 /\
  asked (ban ++ [Compose false (str "n!u@aaa.bbb.ccc.org")]) = Ok 1.
Proof.
  split_and!; [|vm_compute; reflexivity..]. intros [H|[H|(s&Hs&_)]]; [..|done]; revert H.
  - apply (bool_decide_unpack _). vm_compute. exact I.
  - apply (bool_decide_unpack _). vm_compute. exact I.
Qed.

(** The buffer of addresses has room for an address of version 4 only. *)
Theorem ban_address_overflows :
  let w := mkNames (str "nick_of_fifteen!~user@h.org") (str "nick_of_fifteen!~user@2001:720:418:caf1:1111:2222:3333:4444")
    (str "nick_of_fifteen!~user@v") None in
  (st_bs ← ban_run (fun _ => w) no_bans fresh_bufs [example_mode "*!*@10.*" 1; Ask 7]; Ok tt) = Ub.
Proof. vm_compute. reflexivity. Qed.

Definition example_bans : bans :=
  mkBans [mkBan 1 (str "*!*@10.1.2.3.example.org") (str "op") 100 CHFL_BAN] [mkLink 7 CHFL_BANVALID] None None [].

(** Witness of [add_banid_correct]. *)
Lemma add_banid_correct_witness :
  exists m' st' r, (if true then clean_ban (str "*!*@**.org") else Ok (str "*!*@**.org")) = Ok m' /\
    add_banid example_bans true false (str "op") (str "*!*@**.org") true true 101 2 = Ok (st', r) /\
    irredundant (banstr <$> blist st') /\
    (r = 0 /\ added m' example_bans st' /\
       (forall b s, b ∈ dropped m' (blist example_bans) -> glob toLower (tokens (banstr b)) s -> glob toLower (tokens m') s)
     \/ r = -1 /\ refused example_bans st') /\
    (true = true -> false = false ->
     Z.of_nat (length (blist st')) <= Z.max MAXBANS (Z.of_nat (length (blist example_bans)))).
Proof.
  apply (add_banid_correct example_bans true false (str "op") (str "*!*@**.org") true 101 2).
  - apply (bool_decide_unpack _). vm_compute. exact I.
  - repeat constructor; apply (bool_decide_unpack _); vm_compute; exact I.
  - repeat constructor.
  - intros _. split; reflexivity.
Defined.

(** The names of a member are not looked at while its answer is remembered,
    and a change of nick or of host does not forget the answer: a member that was
    asked about under one nick talks under a nick that is banned. *)
Theorem is_banned_stale :
  (forall w w' st bs u x, find_user_link (mems st) u = Some x -> has (lflags x) CHFL_BANVALID = true ->
     is_banned w st bs u = is_banned w' st bs u) /\
  exists st bs, ban_run (fun _ => example_names) no_bans fresh_bufs [Join 7 0; example_mode "evil!*@*" 1; Ask 7] = Ok (st, bs) /\
    let renamed := mkNames (str "evil!user@host") (str "evil!user@10.0.0.1") (str "evil!user@x.virtual") None in
    ('(r, _) ← any_hit renamed (blist st) bs; Ok r) = Ok true /\ is_banned renamed st bs 7 = Ok (st, bs, 0).
Proof.
  split.
  - intros w w' st bs u x Hx Hv. unfold is_banned, is_banned_member. by rewrite Hx, Hv.
  - eexists _, _. split; [vm_compute; reflexivity|]. split; vm_compute; reflexivity.
Qed.

(** Is the client hit after the first ban, and after the second one? *)
Definition example_two_bans (first second : string) : result (bool * bool) :=
  '(st, bs) ← ban_run (fun _ => example_names) no_bans fresh_bufs [example_mode first 1];
  '(before, bs) ← any_hit example_names (blist st) bs;
  '(st, bs) ← ban_run (fun _ => example_names) st bs [example_mode second 2];
  '(after, _) ← any_hit example_names (blist st) bs;
  Ok (before, after).

(** mmatch() does not know the kinds of bans.  A ban of digits and dots is
    compared with addresses only, and the ban of a virtual host with its case: a
    client is banned, the operator adds a ban that covers the first one for
    mmatch(), and the client is banned no longer. *)
Theorem ban_kinds_mixed :
  mmatch (str "*!*@10.*") (str "*!*@10.1.2.3.example.org") = Ok 0 /\
  example_two_bans "*!*@10.1.2.3.example.org" "*!*@10.*" = Ok (true, false) /\
  mmatch (str "*!*@abcdef.*") (str "*!*@AbCdEf.GhIjKl.virtual") = Ok 0 /\
  example_two_bans "*!*@AbCdEf.GhIjKl.virtual" "*!*@abcdef.*" = Ok (true, false).
Proof. split_and!; vm_compute; reflexivity. Qed.
