(* ===== verification/Chanmode.v ===== *)
(** Chanmode: the simple modes of a channel as letters, and who may speak
    (ircd/channel.c).

    The modes of a channel are bits, and the table canal_flags gives each bit its
    letter.  Three functions go from bits to text or back: channel_modes() for the
    clients, adapta_y_visualiza_canal_flags() for the changes that a record of the
    database asks for, and mascara_canal_flags() for the text of that record.
    [client_modes] is what a reader of such a text makes of it. *)

From S2P Require Import Prelude Common Match Mmatch Nametable Hash Chantext Channel Bans.

(** * Constants *)

Definition MODE_PRIVATE : Z := 0x0004.
Definition MODE_SECRET : Z := 0x0008.
Definition MODE_MODERATED : Z := 0x0010.
Definition MODE_TOPICLIMIT : Z := 0x0020.
Definition MODE_NOPRIVMSGS : Z := 0x0080.
Definition MODE_KEY : Z := 0x0100.
Definition MODE_LIMIT : Z := 0x0400.
Definition MODE_VOICE : Z := CHFL_VOICE.
Definition MODE_MSGNONREG : Z := 0x20000.
Definition MODE_NOCTCP : Z := 0x40000.
Definition MODE_NONOTICE : Z := 0x80000.
Definition MODE_NOQUITPARTS : Z := 0x100000.
Definition MODE_DELJOINS : Z := 0x200000.
Definition MODE_NOCOLOUR : Z := 0x800000.
Definition MODE_MSGNONWEB : Z := 0x2000000.

Definition MODE_WPARAS : Z :=
  Z.lor CHFL_OWNER (Z.lor CHFL_CHANOP (Z.lor CHFL_VOICE (Z.lor MODE_BAN (Z.lor MODE_KEY MODE_LIMIT)))).

(** struct SMode *)
Record SMode := mkSMode { mmode : Z; mlimit : Z; mkey : option cstring }.

(** The pairs of the table, without the terminating zeros *)
Definition canal_flags : list (Z * ascii) := [
  (MODE_PRIVATE, "p"%char); (MODE_SECRET, "s"%char);
  (MODE_MODERATED, "m"%char); (MODE_NOPRIVMSGS, "n"%char);
  (MODE_TOPICLIMIT, "t"%char); (MODE_INVITEONLY, "i"%char);
  (MODE_VOICE, "v"%char); (MODE_KEY, "k"%char);
  (MODE_LIMIT, "l"%char);
  (MODE_REGCHAN, "r"%char); (MODE_REGNICKS, "R"%char);
  (MODE_OPERONLY, "O"%char); (MODE_MSGNONREG, "M"%char);
  (MODE_NOCTCP, "C"%char); (MODE_NONOTICE, "N"%char);
  (MODE_NOQUITPARTS, "u"%char); (MODE_DELJOINS, "D"%char);
  (MODE_NOCOLOUR, "c"%char); (MODE_MSGNONWEB, "W"%char);
  (MODE_SSLONLY, "z"%char)].

(** [for (ip = canal_flags; *ip; ip += 2) if ( *(ip + 1) == c)] *)
Fixpoint flag_in (c : ascii) (l : list (Z * ascii)) : option Z :=
  match l with
  | [] => None
  | (f, d) :: l => if decide (d = c) then Some f else flag_in c l
  end.
Definition flag_of_letter (c : ascii) : option Z := flag_in c canal_flags.

(** * Who may speak *)

Definition member (m : list Link) (u : nat) : option Link :=
  match find_user_link m u with Some l => if live l then Some l else None | None => None end.

(** What can_send() asks about the client: [exempt] is a service, a server or a
    services bot. *)
Record speaker := mkSpeaker { exempt : bool; my_user : bool; nick_reg : bool; web_irc : bool }.

Definition can_send (who : speaker) (w : names) (name : cstring) (mode : Z) (st : bans) (bs : bufs) (u : nat)
    : result (bans * bufs * Z) :=
  if exempt who then Ok (st, bs, 0)
  else
    let lp := member (mems st) u in
    let flag := match lp with
                | None => true
                | Some l => negb (has (lflags l) (Z.lor CHFL_CHANOP CHFL_VOICE)) || has (lflags l) CHFL_ZOMBIE
                end in
    let rest st bs :=
      if has mode MODE_MODERATED && flag then Ok (st, bs, MODE_MODERATED)
      else if bool_decide (lp = None) && (has mode MODE_NOPRIVMSGS || IsModelessChannel name) then Ok (st, bs, MODE_NOPRIVMSGS)
      else Ok (st, bs, 0) in
    if flag && my_user who then
      '(st, bs, r) ← match lp with
                 | None => '(r, bs) ← any_hit w (blist st) bs; Ok (st, bs, if r : bool then 1 else 0)
                 | Some l =>
                     '(r, f, bs) ← is_banned_member w st bs l; Ok (with_mems st (set_link_flags u f (mems st)), bs, r)
                 end;
      if decide (r <> 0) then Ok (st, bs, MODE_BAN)
      else if has mode MODE_MSGNONREG && negb (nick_reg who) then Ok (st, bs, MODE_MSGNONREG)
      else if has mode MODE_MSGNONWEB && negb (nick_reg who) && negb (web_irc who) then Ok (st, bs, MODE_MSGNONWEB)
      else rest st bs
    else rest st bs.

(** * Bits to text *)

Definition put_if (b : bool) (c : ascii) : list ascii := if b then [c] else [].

(** The letters that channel_modes() writes for the bits, in its order *)
Definition mode_letters (m : Z) : list ascii :=
  (if has m MODE_SECRET then ["s"%char] else put_if (has m MODE_PRIVATE) "p"%char) ++
  put_if (has m MODE_MODERATED) "m"%char ++ put_if (has m MODE_TOPICLIMIT) "t"%char ++
  put_if (has m MODE_INVITEONLY) "i"%char ++ put_if (has m MODE_NOPRIVMSGS) "n"%char ++
  put_if (has m MODE_REGCHAN) "r"%char ++ put_if (has m MODE_REGNICKS) "R"%char ++
  put_if (has m MODE_MSGNONREG) "M"%char ++ put_if (has m MODE_OPERONLY) "O"%char ++
  put_if (has m MODE_NOCTCP) "C"%char ++ put_if (has m MODE_NOCOLOUR) "c"%char ++
  put_if (has m MODE_NONOTICE) "N"%char ++ put_if (has m MODE_NOQUITPARTS) "u"%char ++
  put_if (has m MODE_DELJOINS) "D"%char ++ put_if (has m MODE_MSGNONWEB) "W"%char ++
  put_if (has m MODE_SSLONLY) "z"%char.

(** [pbuf] is the text that is in the buffer before; [sees_key] is whether the
    client is an owner, an operator of the channel or a server. *)
Definition channel_modes (sees_key : bool) (md : SMode) (pbuf : cstring) : cstring * cstring :=
  let mbuf := "+"%char :: mode_letters (mmode md) in
  let '(mbuf, pbuf) :=
    if decide (mlimit md <> 0) then (mbuf ++ ["l"%char], dec (s32 (mlimit md))) else (mbuf, pbuf) in
  match mkey md with
  | None => (mbuf, pbuf)
  | Some key =>
      (mbuf ++ ["k"%char],
       if sees_key then
         (if decide (mlimit md <> 0) then pbuf ++ [" "%char] else pbuf) ++ key
       else pbuf)
  end.

(** The two loops of adapta_y_visualiza_canal_flags(); [on] and [off] are masks. *)
Definition letters_of (on off : Z) (l : list (Z * ascii)) : list ascii :=
  concat (map (fun x => put_if (has on (fst x) && negb (has off (fst x))) (snd x)) l).
Definition letters_both (a b : Z) (l : list (Z * ascii)) : list ascii :=
  concat (map (fun x => put_if (has a (fst x) && has b (fst x)) (snd x)) l).

(** A lone sign is taken back. *)
Definition adapta_y_visualiza_canal_flags (m add del : Z) : cstring :=
  let plus := letters_of add m canal_flags in
  let minus := letters_both del m canal_flags in
  (if decide (plus = []) then [] else "+"%char :: plus) ++
  (if decide (minus = []) then [] else "-"%char :: minus).

(** * Text to bits *)

(** [modo] is all ones or zero. *)
Fixpoint mascara_loop (p : cstring) (modo : bool) (addi deli : Z) : Z * Z :=
  match p with
  | [] => (addi, deli)
  | c :: p =>
      if decide (c = " "%char \/ uchar c = 9) then (addi, deli)
      else if decide (c = "+"%char) then mascara_loop p true addi deli
      else if decide (c = "-"%char) then mascara_loop p false addi deli
      else match flag_of_letter c with
           | Some i => if modo then mascara_loop p modo (Z.lor addi i) deli
                       else mascara_loop p modo addi (Z.lor deli i)
           | None => mascara_loop p modo addi deli
           end
  end.

Definition mascara_canal_flags (modos : cstring) : Z * Z :=
  let '(addi, deli) := mascara_loop modos true 0 0 in
  let addi := if has addi MODE_PRIVATE && has addi MODE_SECRET then clear addi MODE_PRIVATE else addi in
  let deli := if has addi MODE_PRIVATE then Z.lor deli MODE_SECRET else deli in
  let deli := if has addi MODE_SECRET then Z.lor deli MODE_PRIVATE else deli in
  (addi, Z.lxor deli (Z.land addi deli)).

(** * What a reader makes of a text of modes *)

(** The sign and the bits after the letters *)
Fixpoint client_modes (m : cstring) (sign : bool) (bits : Z) : bool * Z :=
  match m with
  | [] => (sign, bits)
  | c :: m =>
      if decide (c = "+"%char) then client_modes m true bits
      else if decide (c = "-"%char) then client_modes m false bits
      else match flag_of_letter c with
           | Some i => client_modes m sign (if sign then Z.lor bits i else clear bits i)
           | None => client_modes m sign bits
           end
  end.

(** All the bits of the table *)
Definition all_flags : Z := foldr Z.lor 0 (map fst canal_flags).

(** * The table *)

(** An entry: one bit, and the letter that the table has for it *)
Definition entry (x : Z * ascii) : Prop :=
  0 < fst x /\ 2 ^ Z.log2 (fst x) = fst x /\ flag_of_letter (snd x) = Some (fst x) /\
  snd x <> "+"%char /\ snd x <> "-"%char /\ snd x <> " "%char /\ uchar (snd x) <> 9.
#[export] Instance entry_dec x : Decision (entry x).
Proof. unfold entry. apply _. Defined.

Lemma canal_flags_entries : Forall entry canal_flags.
Proof. apply (bool_decide_unpack _). vm_compute. exact I. Qed.

Definition mask_of (l : list (Z * ascii)) : Z := foldr Z.lor 0 (map fst l).

(** The letters of the bits of [m] *)
Definition letters (m : Z) (l : list (Z * ascii)) : list ascii := concat (map (fun x => put_if (has m (fst x)) (snd x)) l).

Lemma has_pow2 m k : 0 <= k -> has m (2 ^ k) = Z.testbit m k.
Proof. intros. by apply has_bit. Qed.

Lemma has_entry m x : entry x -> has m (fst x) = Z.testbit m (Z.log2 (fst x)).
Proof. intros (H0&E&_). rewrite <- E at 1. apply has_bit, Z.log2_nonneg. Qed.

Lemma land_entry m x : entry x -> Z.land m (fst x) = if has m (fst x) then fst x else 0.
Proof.
  intros He. rewrite has_entry by done. destruct He as (H0&E&_). pose proof (Z.log2_nonneg (fst x)) as Hk.
  set (k := Z.log2 (fst x)) in *. rewrite <- E. apply Z.bits_inj'. intros n Hn. rewrite Z.land_spec.
  destruct (decide (n = k)) as [->|Hne].
  - rewrite Z.pow2_bits_true, andb_true_r by done. destruct (Z.testbit m k); [by rewrite Z.pow2_bits_true|by rewrite Z.bits_0].
  - rewrite Z.pow2_bits_false, andb_false_r by congruence.
    destruct (Z.testbit m k); [by rewrite Z.pow2_bits_false by congruence|by rewrite Z.bits_0].
Qed.

Lemma letters_ext m m' l : (forall x, x ∈ l -> has m (fst x) = has m' (fst x)) -> letters m l = letters m' l.
Proof.
  intros H. unfold letters. f_equal. apply map_ext_in. intros x Hx%list_elem_of_In. by rewrite H.
Qed.

Lemma letters_of_spec on off l : Forall entry l -> letters_of on off l = letters (Z.land on (Z.lnot off)) l.
Proof.
  intros Hl. unfold letters_of, letters. f_equal. apply map_ext_in. intros x Hx%list_elem_of_In.
  rewrite Forall_forall in Hl. rewrite !has_entry by auto. by rewrite Z.land_spec, Z.lnot_spec by apply Z.log2_nonneg.
Qed.

Lemma letters_both_spec a b l : Forall entry l -> letters_both a b l = letters (Z.land a b) l.
Proof.
  intros Hl. unfold letters_both, letters. f_equal. apply map_ext_in. intros x Hx%list_elem_of_In.
  rewrite Forall_forall in Hl. rewrite !has_entry by auto. by rewrite Z.land_spec.
Qed.

Lemma mask_of_cons x l : mask_of (x :: l) = Z.lor (fst x) (mask_of l).
Proof. done. Qed.

(** Reading the letters back, in both readers *)
Lemma mascara_letters m l r modo a d :
  Forall entry l ->
  mascara_loop (letters m l ++ r) modo a d =
  mascara_loop r modo (if modo then Z.lor a (Z.land m (mask_of l)) else a) (if modo then d else Z.lor d (Z.land m (mask_of l))).
Proof.
  intros Hl. revert a d. induction Hl as [|x l Hx Hl IH]; intros a d.
  - cbn [letters map concat mask_of foldr app]. rewrite Z.land_0_r, !Z.lor_0_r. by destruct modo.
  - assert (letters m (x :: l) = put_if (has m (fst x)) (snd x) ++ letters m l) as -> by done.
    rewrite <- app_assoc, mask_of_cons, Z.land_lor_distr_r, (land_entry _ _ Hx), !Z.lor_assoc.
    destruct (has m (fst x)); cbn [put_if app].
    + destruct Hx as (_&_&Hf&H1&H2&H3&H4). cbn [mascara_loop]. rewrite (decide_False (P := _ \/ _)) by tauto.
      rewrite !decide_False by done. rewrite Hf. destruct modo; apply IH.
    + rewrite !Z.lor_0_r. apply IH.
Qed.

Lemma client_letters m l r sign bits :
  Forall entry l ->
  client_modes (letters m l ++ r) sign bits =
  client_modes r sign (if sign then Z.lor bits (Z.land m (mask_of l)) else clear bits (Z.land m (mask_of l))).
Proof.
  intros Hl. revert bits. induction Hl as [|x l Hx Hl IH]; intros bits.
  - cbn [letters map concat mask_of foldr app]. unfold clear. rewrite Z.land_0_r, Z.lor_0_r, Z.land_m1_r. by destruct sign.
  - assert (letters m (x :: l) = put_if (has m (fst x)) (snd x) ++ letters m l) as -> by done.
    rewrite <- app_assoc, mask_of_cons, Z.land_lor_distr_r, (land_entry _ _ Hx). unfold clear in *.
    rewrite Z.lor_assoc. replace (Z.lnot (Z.lor (if has m (fst x) then fst x else 0) (Z.land m (mask_of l))))
      with (Z.land (Z.lnot (if has m (fst x) then fst x else 0)) (Z.lnot (Z.land m (mask_of l)))) by by rewrite Z.lnot_lor.
    rewrite Z.land_assoc. destruct (has m (fst x)); cbn [put_if app].
    + destruct Hx as (_&_&Hf&H1&H2&H3&H4). cbn [client_modes].
      rewrite !decide_False by done. rewrite Hf. rewrite IH. by destruct sign.
    + rewrite Z.lor_0_r, Z.land_m1_r. apply IH.
Qed.

(** * channel_modes() *)

Definition shown_flags : list (Z * ascii) := [
  (MODE_SECRET, "s"%char); (MODE_PRIVATE, "p"%char);
  (MODE_MODERATED, "m"%char); (MODE_TOPICLIMIT, "t"%char); (MODE_INVITEONLY, "i"%char);
  (MODE_NOPRIVMSGS, "n"%char); (MODE_REGCHAN, "r"%char); (MODE_REGNICKS, "R"%char);
  (MODE_MSGNONREG, "M"%char); (MODE_OPERONLY, "O"%char); (MODE_NOCTCP, "C"%char);
  (MODE_NOCOLOUR, "c"%char); (MODE_NONOTICE, "N"%char); (MODE_NOQUITPARTS, "u"%char);
  (MODE_DELJOINS, "D"%char); (MODE_MSGNONWEB, "W"%char); (MODE_SSLONLY, "z"%char)].

(** The bits of the modes without a parameter *)
Definition simple_flags : Z := mask_of shown_flags.

(** +s and +p exclude each other. *)
Definition exclusive (m : Z) : Prop := has m MODE_SECRET && has m MODE_PRIVATE = false.

Lemma shown_flags_entries : Forall entry shown_flags.
Proof. apply (bool_decide_unpack _). vm_compute. exact I. Qed.

Lemma mode_letters_spec m : exclusive m -> mode_letters m = letters m shown_flags.
Proof.
  unfold exclusive, mode_letters, letters. intros He. cbn [map shown_flags concat fst snd].
  rewrite app_nil_r. destruct (has m MODE_SECRET); cbn [put_if andb app] in *; [|done]. by rewrite He.
Qed.

Lemma has_lor a b x : entry x -> has (Z.lor a b) (fst x) = has a (fst x) || has b (fst x).
Proof. intros Hx. rewrite !has_entry by done. by rewrite Z.lor_spec. Qed.

Lemma has_clear a b x : entry x -> has (clear a b) (fst x) = has a (fst x) && negb (has b (fst x)).
Proof. intros Hx. rewrite !has_entry by done. apply clear_bit, Z.log2_nonneg. Qed.

Lemma entry_private : entry (MODE_PRIVATE, "p"%char).
Proof. apply (bool_decide_unpack _). vm_compute. exact I. Qed.
Lemma entry_secret : entry (MODE_SECRET, "s"%char).
Proof. apply (bool_decide_unpack _). vm_compute. exact I. Qed.

Lemma has_lor_private a b : has (Z.lor a b) MODE_PRIVATE = has a MODE_PRIVATE || has b MODE_PRIVATE.
Proof. exact (has_lor a b _ entry_private). Qed.
Lemma has_lor_secret a b : has (Z.lor a b) MODE_SECRET = has a MODE_SECRET || has b MODE_SECRET.
Proof. exact (has_lor a b _ entry_secret). Qed.
Lemma has_clear_private a b : has (clear a b) MODE_PRIVATE = has a MODE_PRIVATE && negb (has b MODE_PRIVATE).
Proof. exact (has_clear a b _ entry_private). Qed.
Lemma has_clear_secret a b : has (clear a b) MODE_SECRET = has a MODE_SECRET && negb (has b MODE_SECRET).
Proof. exact (has_clear a b _ entry_secret). Qed.

(** The bits that the letters 'l' and 'k' stand for *)
Definition param_bits (md : SMode) : Z :=
  Z.lor (if decide (mlimit md <> 0) then MODE_LIMIT else 0) (match mkey md with Some _ => MODE_KEY | None => 0 end).

Lemma channel_modes_letters sees md pbuf :
  (channel_modes sees md pbuf).1 =
  "+"%char :: mode_letters (mmode md) ++ letters (param_bits md) [(MODE_LIMIT, "l"%char); (MODE_KEY, "k"%char)].
Proof.
  unfold channel_modes, param_bits. destruct (decide (mlimit md <> 0)), (mkey md); cbn [fst app];
    rewrite <- ?app_assoc, ?app_nil_r; done.
Qed.

(** The modes that channel_modes() shows can be read back: as long as +s and +p are
    not set together, mascara_canal_flags() finds in its text exactly the bits of the
    channel, with the letters of the limit and of the key where there are such, and
    asks for no other mode to be removed than the one that +s or +p excludes. *)
Theorem channel_modes_roundtrip sees md pbuf :
  Z.land (mmode md) simple_flags = mmode md -> exclusive (mmode md) ->
  mascara_canal_flags (channel_modes sees md pbuf).1 =
    (Z.lor (mmode md) (param_bits md),
     if has (mmode md) MODE_PRIVATE then MODE_SECRET
     else if has (mmode md) MODE_SECRET then MODE_PRIVATE else 0).
Proof.
  intros Hs He. unfold mascara_canal_flags. rewrite channel_modes_letters, (mode_letters_spec _ He).
  cbn [mascara_loop]. rewrite (decide_False (P := _ \/ _)) by (intros [?|H]; [done|vm_compute in H; done]).
  rewrite decide_True by done. rewrite (mascara_letters _ _ _ true) by apply shown_flags_entries.
  rewrite <- (app_nil_r (letters (param_bits md) _)).
  rewrite (mascara_letters _ _ _ true) by (apply (bool_decide_unpack _); vm_compute; exact I). cbn [mascara_loop].
  fold simple_flags. rewrite Hs, Z.lor_0_l.
  assert (Z.land (param_bits md) (mask_of [(MODE_LIMIT, "l"%char); (MODE_KEY, "k"%char)]) = param_bits md) as ->.
  { unfold param_bits. by destruct (decide _), (mkey md). }
  assert (has (param_bits md) MODE_PRIVATE = false /\ has (param_bits md) MODE_SECRET = false) as [Hp1 Hp2].
  { unfold param_bits. by destruct (decide _), (mkey md). }
  assert (Hp := has_lor_private (mmode md) (param_bits md)).
  assert (Hsc := has_lor_secret (mmode md) (param_bits md)).
  rewrite Hp1, orb_false_r in Hp. rewrite Hp2, orb_false_r in Hsc. rewrite Hp, Hsc. unfold exclusive in He.
  rewrite andb_comm, He, Hp, Hsc. f_equal.
  assert (Hland := land_entry (Z.lor (mmode md) (param_bits md)) _ entry_secret).
  assert (Hland' := land_entry (Z.lor (mmode md) (param_bits md)) _ entry_private). cbn [fst] in Hland, Hland'.
  rewrite Hsc in Hland. rewrite Hp in Hland'.
  destruct (has (mmode md) MODE_PRIVATE), (has (mmode md) MODE_SECRET); try done; rewrite ?Z.lor_0_l, ?Hland, ?Hland', ?Z.land_0_r; done.
Qed.

(** Witness of [channel_modes_roundtrip]. *)
Lemma channel_modes_roundtrip_witness :
  mascara_canal_flags (channel_modes true (mkSMode 0xB8 25 (Some (str "sesame"))) []).1 =
    (Z.lor 0xB8 (param_bits (mkSMode 0xB8 25 (Some (str "sesame")))),
     if has 0xB8 MODE_PRIVATE then MODE_SECRET else if has 0xB8 MODE_SECRET then MODE_PRIVATE else 0).
Proof. apply (channel_modes_roundtrip true (mkSMode 0xB8 25 (Some (str "sesame"))) []); vm_compute; reflexivity. Defined.

(** * adapta_y_visualiza_canal_flags() *)

(** The text of adapta_y_visualiza_canal_flags() says how to get from the modes
    of a channel to those that are asked for: a reader of it who starts from the modes
    [m] ends with all asked modes of the table set and all forbidden ones cleared, and
    no other bit changed. *)
Theorem adapta_correct m add del :
  Z.land (Z.land add del) all_flags = 0 ->
  (client_modes (adapta_y_visualiza_canal_flags m add del) true m).2 =
    clear (Z.lor m (Z.land add all_flags)) (Z.land del all_flags).
Proof.
  intros Hd. change all_flags with (mask_of canal_flags) in *. unfold adapta_y_visualiza_canal_flags.
  rewrite letters_of_spec, letters_both_spec by apply canal_flags_entries.
  set (A := Z.land add (Z.lnot m)). set (D := Z.land del m).
  assert (Hplus : forall r, client_modes ((if decide (letters A canal_flags = []) then [] else "+"%char :: letters A canal_flags) ++ r) true m =
    client_modes r true (Z.lor m (Z.land A (mask_of canal_flags)))).
  { intros r. rewrite <- (client_letters A canal_flags r true m canal_flags_entries).
    destruct (decide (letters A canal_flags = [])) as [->|]; [done|]. cbn [app client_modes]. by rewrite decide_True. }
  rewrite Hplus. set (m' := Z.lor m (Z.land A (mask_of canal_flags))).
  pose proof (client_letters D canal_flags [] false m' canal_flags_entries) as H. rewrite app_nil_r in H.
  match goal with |- snd ?x = _ => assert (snd x = clear m' (Z.land D (mask_of canal_flags))) as -> end.
  { destruct (decide (letters D canal_flags = [])) as [E|E].
    - rewrite E in H. cbn [client_modes] in *. injection H as H. exact H.
    - cbn [client_modes]. rewrite decide_False, decide_True by done. by rewrite H. }
  clear H. subst m' A D. unfold clear. apply Z.bits_inj'. intros n Hn.
  apply (f_equal (fun z => Z.testbit z n)) in Hd. rewrite !Z.land_spec, Z.bits_0 in Hd.
  repeat (rewrite Z.land_spec || rewrite Z.lor_spec || rewrite Z.lnot_spec by done).
  destruct (Z.testbit m n), (Z.testbit add n), (Z.testbit del n), (Z.testbit (mask_of canal_flags) n); done.
Qed.

(** Witness of [adapta_correct]. *)
Lemma adapta_correct_witness :
  (client_modes (adapta_y_visualiza_canal_flags 0x90 0x2060 0x90) true 0x90).2 =
    clear (Z.lor 0x90 (Z.land 0x2060 all_flags)) (Z.land 0x90 all_flags).
Proof. apply (adapta_correct 0x90 0x2060 0x90). vm_compute. reflexivity. Defined.

(** * mascara_canal_flags() *)

(** What a text asks for, up to the first blank: letters with their sign *)
Fixpoint requests (p : cstring) (sign : bool) : list (bool * ascii) :=
  match p with
  | [] => []
  | c :: p =>
      if decide (c = " "%char \/ uchar c = 9) then []
      else if decide (c = "+"%char) then requests p true
      else if decide (c = "-"%char) then requests p false
      else (sign, c) :: requests p sign
  end.

Definition asks (sign : bool) (f : Z) (r : bool * ascii) : bool :=
  Bool.eqb (fst r) sign && bool_decide (flag_of_letter (snd r) = Some f).
Definition asked (sign : bool) (f : Z) (p : cstring) : bool := existsb (asks sign f) (requests p true).

Lemma flag_of_letter_entry c i : flag_of_letter c = Some i -> (i, c) ∈ canal_flags.
Proof.
  unfold flag_of_letter. induction canal_flags as [|[f d] l IH]; [done|]. cbn [flag_in].
  case_decide as E; intros H; [simplify_eq; by left|right; auto].
Qed.

Lemma has_flag x y : x ∈ canal_flags -> y ∈ canal_flags -> has (fst x) (fst y) = bool_decide (fst x = fst y).
Proof.
  assert (Forall (fun x => Forall (fun y => has (fst x) (fst y) = bool_decide (fst x = fst y)) canal_flags) canal_flags) as H
    by (apply (bool_decide_unpack _); vm_compute; exact I).
  rewrite Forall_forall in H. intros Hx Hy. specialize (H x Hx). rewrite Forall_forall in H. auto.
Qed.

Lemma canal_flag_entry x : x ∈ canal_flags -> entry x.
Proof. pose proof canal_flags_entries as H. rewrite Forall_forall in H. apply H. Qed.

Lemma mascara_loop_spec p modo a d x :
  x ∈ canal_flags ->
  has (mascara_loop p modo a d).1 (fst x) = has a (fst x) || existsb (asks true (fst x)) (requests p modo) /\
  has (mascara_loop p modo a d).2 (fst x) = has d (fst x) || existsb (asks false (fst x)) (requests p modo).
Proof.
  intros Hx. revert modo a d. induction p as [|c p IH]; intros modo a d; [by rewrite !orb_false_r|].
  cbn [mascara_loop requests]. destruct (decide (c = " "%char \/ uchar c = 9)); [by rewrite !orb_false_r|].
  destruct (decide (c = "+"%char)); [apply IH|]. destruct (decide (c = "-"%char)); [apply IH|].
  cbn [existsb]. unfold asks at 1 3. cbn [fst snd].
  destruct (flag_of_letter c) as [i|] eqn:Ef.
  2: { rewrite !bool_decide_eq_false_2, !andb_false_r by done. apply IH. }
  assert (Hi := flag_of_letter_entry c i Ef). assert (E := has_flag _ _ Hi Hx). cbn [fst] in E.
  assert (bool_decide (Some i = Some (fst x)) = bool_decide (i = fst x)) as ->.
  { apply bool_decide_ext. split; congruence. }
  rewrite <- E. destruct modo; cbn [Bool.eqb andb orb];
    [destruct (IH true (Z.lor a i) d) as [-> ->]|destruct (IH false a (Z.lor d i)) as [-> ->]];
    rewrite has_lor, orb_assoc by (by apply canal_flag_entry); done.
Qed.

Lemma mascara_loop_bits p modo a d :
  Z.land a all_flags = a -> Z.land (mascara_loop p modo a d).1 all_flags = (mascara_loop p modo a d).1.
Proof.
  revert modo a d. induction p as [|c p IH]; intros modo a d Ha; [done|]. cbn [mascara_loop].
  destruct (decide (_ \/ _)); [done|]. destruct (decide _); [by apply IH|]. destruct (decide _); [by apply IH|].
  destruct (flag_of_letter c) as [i|] eqn:Ef; [|by apply IH]. destruct modo; apply IH; [|done].
  rewrite Z.land_lor_distr_l, Ha. f_equal. apply flag_of_letter_entry in Ef.
  assert (Forall (fun x => Z.land (fst x) all_flags = fst x) canal_flags) as H
    by (apply (bool_decide_unpack _); vm_compute; exact I).
  rewrite Forall_forall in H. by apply (H (i, c)).
Qed.


Lemma has_land a b x : entry x -> has (Z.land a b) (fst x) = has a (fst x) && has b (fst x).
Proof. intros Hx. rewrite !has_entry by done. by rewrite Z.land_spec. Qed.

Lemma lxor_land_clear d a : Z.lxor d (Z.land a d) = clear d a.
Proof.
  unfold clear. apply Z.bits_inj'. intros n Hn. rewrite Z.lxor_spec, !Z.land_spec, Z.lnot_spec by done.
  by destruct (Z.testbit a n), (Z.testbit d n).
Qed.

Lemma in_canal_flags x : bool_decide (x ∈ canal_flags) = true -> x ∈ canal_flags.
Proof. apply bool_decide_eq_true. Qed.

(** The bits other than +s and +p do not notice their exclusion. *)
Lemma has_other x f g : x ∈ canal_flags -> fst x <> fst f -> f ∈ canal_flags ->
  has (clear g (fst f)) (fst x) = has g (fst x) /\ has (Z.lor g (fst f)) (fst x) = has g (fst x).
Proof.
  intros Hx Hn Hf. rewrite has_clear, has_lor by by apply canal_flag_entry.
  rewrite (has_flag f x Hf Hx), bool_decide_eq_false_2 by congruence. by rewrite andb_true_r, orb_false_r.
Qed.

Lemma mascara_spec modos add del :
  mascara_canal_flags modos = (add, del) ->
  Z.land add del = 0 /\ Z.land add all_flags = add /\ exclusive add /\
  (has add MODE_SECRET = true -> has del MODE_PRIVATE = true) /\
  (has add MODE_PRIVATE = true -> has del MODE_SECRET = true) /\
  forall x, x ∈ canal_flags -> fst x <> MODE_PRIVATE -> fst x <> MODE_SECRET ->
    has add (fst x) = asked true (fst x) modos /\
    has del (fst x) = asked false (fst x) modos && negb (asked true (fst x) modos).
Proof.
  unfold mascara_canal_flags. pose proof (fun x => mascara_loop_spec modos true 0 0 x) as Hl.
  pose proof (mascara_loop_bits modos true 0 0 eq_refl) as Hb.
  destruct (mascara_loop modos true 0 0) as [a d]. cbn [fst snd] in Hl, Hb. rewrite !lxor_land_clear.
  set (a' := if has a MODE_PRIVATE && has a MODE_SECRET then clear a MODE_PRIVATE else a).
  set (d1 := if has a' MODE_PRIVATE then Z.lor d MODE_SECRET else d).
  set (d2 := if has a' MODE_SECRET then Z.lor d1 MODE_PRIVATE else d1). intros [= <- <-].
  assert (Hps : (MODE_PRIVATE, "p"%char) ∈ canal_flags) by (apply in_canal_flags; vm_compute; done).
  assert (Hse : (MODE_SECRET, "s"%char) ∈ canal_flags) by (apply in_canal_flags; vm_compute; done).
  assert (Hex : exclusive a').
  { unfold exclusive, a'. destruct (has a MODE_PRIVATE && has a MODE_SECRET) eqn:E; [|by rewrite andb_comm].
    rewrite has_clear_private. by rewrite !andb_false_r. }
  split_and!.
  - unfold clear. apply Z.bits_inj'. intros n Hn. rewrite !Z.land_spec, Z.lnot_spec, Z.bits_0 by done.
    by destruct (Z.testbit a' n), (Z.testbit d2 n).
  - subst a'. destruct (_ && _); [|done]. unfold clear. by rewrite <- Z.land_assoc, (Z.land_comm (Z.lnot _)), Z.land_assoc, Hb.
  - done.
  - intros Hs. rewrite has_clear_private.
    unfold exclusive in Hex. rewrite Hs in Hex. cbn [andb] in Hex. rewrite Hex, andb_true_r. subst d2. rewrite Hs.
    by rewrite has_lor_private, orb_true_r.
  - intros Hp. rewrite has_clear_secret.
    unfold exclusive in Hex. rewrite Hp, andb_true_r in Hex. rewrite Hex, andb_true_r. subst d2 d1. rewrite Hp, Hex.
    by rewrite has_lor_secret, orb_true_r.
  - intros x Hx Hnp Hns. destruct (Hl x Hx) as [Ha Hd]. rewrite has_0 in Ha, Hd. cbn [orb] in Ha, Hd.
    destruct (has_other x (MODE_PRIVATE, "p"%char) a Hx Hnp Hps) as [Hc _]. cbn [fst] in Hc.
    assert (has a' (fst x) = asked true (fst x) modos) as Ea.
    { subst a'. unfold asked. rewrite <- Ha. by destruct (_ && _). }
    split; [done|]. rewrite has_clear, Ea by by apply canal_flag_entry. f_equal. unfold asked. rewrite <- Hd.
    assert (Hp : forall g, has (Z.lor g MODE_PRIVATE) (fst x) = has g (fst x)).
    { intros g. by destruct (has_other x (MODE_PRIVATE, "p"%char) g Hx Hnp Hps) as [_ ?]. }
    assert (Hs : forall g, has (Z.lor g MODE_SECRET) (fst x) = has g (fst x)).
    { intros g. by destruct (has_other x (MODE_SECRET, "s"%char) g Hx Hns Hse) as [_ ?]. }
    subst d2 d1. destruct (has a' MODE_SECRET), (has a' MODE_PRIVATE); by rewrite ?Hp, ?Hs.
Qed.

(** mascara_canal_flags() reads the modes of a record: what is to be set and what is
    to be cleared never meet, +s and +p are never both to be set and each has the other
    cleared, and of all the other letters of the table exactly those are to be set
    that stand behind a plus, and those to be cleared that stand behind a minus only. *)
Theorem mascara_canal_flags_correct modos add del :
  mascara_canal_flags modos = (add, del) ->
  Z.land add del = 0 /\ Z.land add all_flags = add /\ exclusive add /\
  (has add MODE_SECRET = true -> has del MODE_PRIVATE = true) /\
  (has add MODE_PRIVATE = true -> has del MODE_SECRET = true) /\
  forall x, x ∈ canal_flags -> fst x <> MODE_PRIVATE -> fst x <> MODE_SECRET ->
    has add (fst x) = asked true (fst x) modos /\
    has del (fst x) = asked false (fst x) modos && negb (asked true (fst x) modos).
Proof. apply mascara_spec. Qed.

(** Witness of [mascara_canal_flags_correct]. *)
Lemma mascara_canal_flags_correct_witness :
  mascara_canal_flags (str "+ntps-k+m-m tema") = (0xB8, 0x104) /\
  Z.land 0xB8 0x104 = 0 /\ Z.land 0xB8 all_flags = 0xB8 /\ exclusive 0xB8 /\
  (has 0xB8 MODE_SECRET = true -> has 0x104 MODE_PRIVATE = true) /\
  (has 0xB8 MODE_PRIVATE = true -> has 0x104 MODE_SECRET = true) /\
  forall x, x ∈ canal_flags -> fst x <> MODE_PRIVATE -> fst x <> MODE_SECRET ->
    has 0xB8 (fst x) = asked true (fst x) (str "+ntps-k+m-m tema") /\
    has 0x104 (fst x) = asked false (fst x) (str "+ntps-k+m-m tema") && negb (asked true (fst x) (str "+ntps-k+m-m tema")).
Proof.
  assert (mascara_canal_flags (str "+ntps-k+m-m tema") = (0xB8, 0x104)) as H by (vm_compute; reflexivity).
  split; [exact H|]. apply (mascara_canal_flags_correct (str "+ntps-k+m-m tema") 0xB8 0x104 H).
Defined.

(** * can_send() *)

(** Who may speak on a channel with the modes [mode], if [ban] tells whether a ban keeps
    the client from it *)
Definition may_speak (ban : Prop) (who : speaker) (name : cstring) (mode : Z) (st : bans) (u : nat) : Prop :=
  exempt who = true \/
  (exists l, member (mems st) u = Some l /\ has (lflags l) (Z.lor CHFL_CHANOP CHFL_VOICE) = true) \/
  ((my_user who = true -> ~ ban /\ (has mode MODE_MSGNONREG = true -> nick_reg who = true) /\
      (has mode MODE_MSGNONWEB = true -> nick_reg who = true \/ web_irc who = true)) /\
   has mode MODE_MODERATED = false /\
   (member (mems st) u = None -> has mode MODE_NOPRIVMSGS = false /\ IsModelessChannel name = false)).

Lemma member_Some m u l : member m u = Some l -> find_user_link m u = Some l /\ has (lflags l) CHFL_ZOMBIE = false.
Proof.
  unfold member. destruct (find_user_link m u) as [x|]; [|done]. destruct (live x) eqn:E; [|done].
  intros [= <-]. split; [done|]. unfold live in E. by destruct (has _ _).
Qed.

(** The answers that do not depend on bans, for a client without +o and +v *)
Lemma last_answers (mode : Z) (name : cstring) (absent : bool) (st : bans) (bs : bufs) :
  exists r, (if has mode MODE_MODERATED && true then Ok (st, bs, MODE_MODERATED)
   else if absent && (has mode MODE_NOPRIVMSGS || IsModelessChannel name) then Ok (st, bs, MODE_NOPRIVMSGS) else Ok (st, bs, 0)) = Ok (st, bs, r) /\
  (r = 0 <-> has mode MODE_MODERATED = false /\
     (absent = true -> has mode MODE_NOPRIVMSGS = false /\ IsModelessChannel name = false)).
Proof.
  destruct (has mode MODE_MODERATED), absent, (has mode MODE_NOPRIVMSGS), (IsModelessChannel name);
    eexists; (split; [reflexivity|]); (split; [intros E|intros [H1 H2]]); try discriminate; auto;
    try (by destruct (H2 eq_refl)); split; auto; discriminate.
Qed.

Lemma local_answers (who : speaker) (mode : Z) (name : cstring) (absent : bool) (st : bans) (bs : bufs) :
  exists r, (if has mode MODE_MSGNONREG && negb (nick_reg who) then Ok (st, bs, MODE_MSGNONREG)
      else if has mode MODE_MSGNONWEB && negb (nick_reg who) && negb (web_irc who) then Ok (st, bs, MODE_MSGNONWEB)
      else if has mode MODE_MODERATED && true then Ok (st, bs, MODE_MODERATED)
      else if absent && (has mode MODE_NOPRIVMSGS || IsModelessChannel name) then Ok (st, bs, MODE_NOPRIVMSGS) else Ok (st, bs, 0)) = Ok (st, bs, r) /\
  (r = 0 <-> ((has mode MODE_MSGNONREG = true -> nick_reg who = true) /\
      (has mode MODE_MSGNONWEB = true -> nick_reg who = true \/ web_irc who = true)) /\
     has mode MODE_MODERATED = false /\
     (absent = true -> has mode MODE_NOPRIVMSGS = false /\ IsModelessChannel name = false)).
Proof.
  destruct (last_answers mode name absent st bs) as (r&->&Hr).
  destruct (has mode MODE_MSGNONREG), (nick_reg who), (has mode MODE_MSGNONWEB), (web_irc who); cbn [andb negb];
    eexists; (split; [reflexivity|]); rewrite ?Hr; (split; [intros H|intros [[H1 H2] H]]);
    try discriminate H; auto; try (discriminate (H1 eq_refl)); try (by destruct (H2 eq_refl)).
Qed.

Lemma can_send_spec names_of (Hn : forall u, names_ok (names_of u)) who name mode st bs u :
  Inv names_of st -> bufs_ok bs ->
  exists st' bs' r ban, can_send who (names_of u) name mode st bs u = Ok (st', bs', r) /\
    Inv names_of st' /\ bufs_ok bs' /\ blist st' = blist st /\
    (banned (names_of u) (blist st) -> ban) /\ (ban -> may_be_banned (names_of u) (blist st)) /\
    (r = 0 <-> may_speak ban who name mode st u).
Proof.
  intros Hi Hbs. unfold can_send.
  assert (Hquit : forall X r, X = Ok (st, bs, r) -> (r = 0 <-> may_speak (banned (names_of u) (blist st)) who name mode st u) ->
    exists st' bs' r' ban, X = Ok (st', bs', r') /\ Inv names_of st' /\ bufs_ok bs' /\ blist st' = blist st /\
    (banned (names_of u) (blist st) -> ban) /\ (ban -> may_be_banned (names_of u) (blist st)) /\
    (r' = 0 <-> may_speak ban who name mode st u)).
  { intros X r -> Hr. exists st, bs, r, (banned (names_of u) (blist st)). split_and!; try done.
    unfold banned, may_be_banned. rewrite !Exists_fmap, !Exists_exists. intros (b&Hb&Hh). exists b. split; [done|].
    apply hits_may_hit; [done| |done]. destruct Hi as [Hw _ _]. rewrite Forall_forall in Hw. apply (Hw b Hb). }
  destruct (exempt who) eqn:Ex.
  { apply (Hquit _ 0 eq_refl). split; [by left; rewrite ?Ex|done]. }
  set (absent := bool_decide (member (mems st) u = None)).
  assert (Hab : absent = true <-> member (mems st) u = None) by apply bool_decide_eq_true.
  destruct (member (mems st) u) as [l|] eqn:Em; fold absent.
  - assert (Em' := Em). apply member_Some in Em' as [Ef Ez]. rewrite Ez, orb_false_r.
    assert (absent = false) as -> by (by apply bool_decide_eq_false). clear Hab.
    destruct (has (lflags l) (Z.lor CHFL_CHANOP CHFL_VOICE)) eqn:Ev; cbn [negb andb].
    { rewrite andb_false_r. apply (Hquit _ 0 eq_refl). split; [|done]. intros _. right. left. rewrite Em. eauto. }
    assert (Hno : ~ (exists l0, Some l = Some l0 /\ has (lflags l0) (Z.lor CHFL_CHANOP CHFL_VOICE) = true)).
    { intros (?&[= <-]&?). congruence. }
    destruct (my_user who) eqn:Emy.
    2: { destruct (last_answers mode name false st bs) as (r&Hr&Hs). apply (Hquit _ r Hr). unfold may_speak. rewrite Em, Emy, Ex.
      rewrite Hs. split; [intros [H1 H2]; right; right; by split_and!|intros [?|[?|(_&?&_)]]; done]. }
    destruct (is_banned_spec names_of Hn st bs u Hi Hbs) as (st1&bs1&r1&E1&Hb&Hm&Hbs1&Hi1&Hbl&_). unfold is_banned in E1. rewrite Ef in E1.
    rewrite E1. cbn [mbind result_bind].
    destruct (decide (r1 <> 0)) as [Hr1|Hr1].
    { exists st1, bs1, MODE_BAN, (r1 <> 0). split_and!; try done. unfold may_speak. rewrite Ex, Em, Emy. split; [done|]. intros [?|[?|(H&_)]]; [done..|].
      by destruct (H eq_refl) as [Hnb _]. }
    destruct (local_answers who mode name false st1 bs1) as (r&Hr&Hs). exists st1, bs1, r, (r1 <> 0). split_and!; [exact Hr|done..|].
    unfold may_speak. rewrite Ex, Em, Emy, Hs. split.
    + intros ([? ?]&?&?). right. right. by split_and!.
    + intros [?|[?|(H&?&_)]]; [done..|]. destruct (H eq_refl) as (_&?&?). done.
  - assert (absent = true) as -> by (by apply bool_decide_eq_true). clear Hab.
    assert (Hno : ~ (exists l0, @None Link = Some l0 /\ has (lflags l0) (Z.lor CHFL_CHANOP CHFL_VOICE) = true)) by (by intros (?&?&_)).
    cbn [andb]. destruct (my_user who) eqn:Emy.
    2: { destruct (last_answers mode name true st bs) as (r&Hr&Hs). apply (Hquit _ r Hr). unfold may_speak. rewrite Em, Emy, Ex.
      rewrite Hs. split; [intros [H1 H2]; right; right; split_and!; auto; done|intros [?|[?|(_&?&H)]]; auto; done]. }
    destruct (any_hit_spec (names_of u) (blist st) bs (Hn u) (i_wf _ _ Hi) Hbs) as (h&bs1&Hh&Hbs1&Hb&Hm). rewrite Hh. cbn [mbind result_bind].
    destruct h; cbn [mbind result_bind].
    { rewrite decide_True by done. exists st, bs1, MODE_BAN, True. split_and!; try done; [auto|]. unfold may_speak. rewrite Ex, Em, Emy. split; [done|].
      intros [?|[?|(H&_)]]; [done..|]. by destruct (H eq_refl) as [Hnb _]. }
    rewrite decide_False by auto. destruct (local_answers who mode name true st bs1) as (r&Hr&Hs).
    exists st, bs1, r, False. split_and!; [exact Hr|done|done|done|intros Hn'; by specialize (Hb Hn')|done|]. unfold may_speak. rewrite Ex, Em, Emy, Hs. split.
    + intros ([? ?]&?&?). right. right. split_and!; auto.
    + intros [?|[?|(H&?&H')]]; [done..|]. destruct (H eq_refl) as (_&?&?). split_and!; auto.
Qed.

(** can_send() lets a client speak exactly when the modes allow it: services, bots
    and servers always; members with +o or +v always; of the others, clients of this
    server only when no ban is found (by the remembered answer or by comparing), and
    when +M and +W let unregistered nicks pass; nobody else on a moderated channel, and
    clients from outside not with +n or on a modeless channel. *)
Theorem can_send_correct names_of who name mode st bs u :
  (forall u, names_ok (names_of u)) -> Inv names_of st -> bufs_ok bs ->
  exists st' bs' r ban, can_send who (names_of u) name mode st bs u = Ok (st', bs', r) /\
    Inv names_of st' /\ bufs_ok bs' /\ blist st' = blist st /\
    (banned (names_of u) (blist st) -> ban) /\ (ban -> may_be_banned (names_of u) (blist st)) /\
    (r = 0 <-> may_speak ban who name mode st u).
Proof. intros Hn. by apply can_send_spec. Qed.

(** Witness of [can_send_correct]: a member without voice, one ban *)
Definition speech_bans : bans :=
  mkBans [mkBan 1 (str "*!*@*.example.net") (str "op") 100 CHFL_BAN] [mkLink 7 0; mkLink 8 CHFL_VOICE] None None [].

Lemma can_send_correct_witness :
  exists st' bs' r ban, can_send (mkSpeaker false true false false) example_names (str "#canal") MODE_NOPRIVMSGS speech_bans fresh_bufs 7 = Ok (st', bs', r) /\
    Inv (fun _ => example_names) st' /\ bufs_ok bs' /\ blist st' = blist speech_bans /\
    (banned example_names (blist speech_bans) -> ban) /\ (ban -> may_be_banned example_names (blist speech_bans)) /\
    (r = 0 <-> may_speak ban (mkSpeaker false true false false) (str "#canal") MODE_NOPRIVMSGS speech_bans 7).
Proof.
  apply (can_send_correct (fun _ => example_names) (mkSpeaker false true false false) (str "#canal") MODE_NOPRIVMSGS speech_bans fresh_bufs 7).
  - intros _. apply (bool_decide_unpack _). vm_compute. exact I.
  - constructor.
    + apply (bool_decide_unpack _). vm_compute. exact I.
    + repeat constructor.
    + apply Forall_cons. split; [intros H; exfalso; revert H; vm_compute; discriminate|].
      apply Forall_cons. split; [intros H; exfalso; revert H; vm_compute; discriminate|]. constructor.
  - apply fresh_bufs_ok.
Defined.
