(* ===== verification/Setmode.v ===== *)
(** Setmode: the command MODE on a channel, from a client of this server
    (set_mode_local() of ircd/channel.c).

    The command is parsed first: letters are read with their sign, parameters are
    taken one after the other, and what takes a parameter waits on a list of at most
    six changes.  Then the bits are changed, the waiting changes are made, and the
    text of all changes is written for the members of the channel and the other
    servers; or, when the change is not accepted, the text that takes it back.  The
    lines that are sent and the numerics to the client are not part of the model. *)

From S2P Require Import Prelude Common Match Mmatch Nametable Hash Chantext Channel Bans Chanmode.

Definition MAXMODEPARAMS : nat := 6.
Definition MODEBUFLEN : nat := 200.
Definition KEYLEN : nat := 23.
Definition NUMNICKLEN : nat := 5.
Definition CHFL_OVERLAP : Z := Z.lor CHFL_CHANOP CHFL_VOICE.

(** * The state *)

(** The fields of the channel that the command touches; the members are in [cbans]. *)
Record chanmodes := mkChan {
  cname : cstring; cmode : SMode; modos_obligatorios : Z; modos_prohibidos : Z; cbans : bans; cinvites : list nat }.

(** What the code asks about the client, [sptr], and about others: find_chasing(),
    IsChannelService(), IsAnOper(), HasPriv(PRIV_DEOP_LCHAN), HasPriv(PRIV_MODE_LCHAN),
    the name and the numeric; [cell] is the first of the cells that new bans get. *)
Record env := mkEnv {
  sptr : nat; services_bot : bool; mode_priv : bool;
  chasing : cstring -> option nat; chan_service : nat -> bool; an_oper : nat -> bool; deop_priv : nat -> bool;
  name : nat -> cstring; numnick : nat -> cstring; now : Z; cell : nat }.

Definition IsOperOnLocalChannel (e : env) (u : nat) (chname : cstring) : bool := an_oper e u && IsLocalChannel chname.

(** * Parsing *)

(** [chops]: [add] is MODE_ADD or MODE_DEL, [op] MODE_CHANOP or MODE_VOICE. *)
Inductive chop :=
  | ChopMember (add op : bool) (who : nat)
  | ChopKey (add : bool) (cp : cstring)
  | ChopBan (add : bool) (cp : cstring)
  | ChopLimit.

(** [whatt] is true for MODE_ADD; [parv] is the rest of the array from [*parv] on,
    without the null pointer that ends it. *)
Record parse := mkParse {
  whatt : bool; newmode : Z; chops : list chop; parc : Z; parv : list cstring;
  limitset : bool; limit_wrong : bool; nusers : Z; keychange : bool; uninvited : bool }.

Definition with_whatt b p := mkParse b (newmode p) (chops p) (parc p) (parv p) (limitset p) (limit_wrong p)
  (nusers p) (keychange p) (uninvited p).
Definition with_newmode m p := mkParse (whatt p) m (chops p) (parc p) (parv p) (limitset p) (limit_wrong p)
  (nusers p) (keychange p) (uninvited p).
Definition with_args n l p := mkParse (whatt p) (newmode p) (chops p) n l (limitset p) (limit_wrong p)
  (nusers p) (keychange p) (uninvited p).
Definition with_limit s w n p := mkParse (whatt p) (newmode p) (chops p) (parc p) (parv p) s w n
  (keychange p) (uninvited p).
Definition with_uninvited p := mkParse (whatt p) (newmode p) (chops p) (parc p) (parv p) (limitset p)
  (limit_wrong p) (nusers p) (keychange p) true.
Definition push x p := mkParse (whatt p) (newmode p) (chops p ++ [x]) (parc p) (parv p) (limitset p)
  (limit_wrong p) (nusers p) (keychange p) (uninvited p).
Definition push_key x p := mkParse (whatt p) (newmode p) (chops p ++ [x]) (parc p) (parv p) (limitset p)
  (limit_wrong p) (nusers p) true (uninvited p).

(** [if (--parc <= 0) break; parv++;]: the parameter and the new position *)
Definition next_param (p : parse) : result (option (cstring * parse)) :=
  let n := parc p - 1 in
  if decide (n <= 0) then Ok None
  else match tail (parv p) with
       | s :: l => Ok (Some (s, with_args n (s :: l) p))
       | [] => Ub
       end.
Definition less_args (p : parse) : parse := with_args (parc p - 1) (parv p) p.
Definition full (p : parse) : bool := bool_decide (MAXMODEPARAMS <= length (chops p))%nat.

(** Characters are written over the parameter in its place. *)
Definition set_param (s : cstring) (p : parse) : parse := with_args (parc p) (s :: tail (parv p)) p.

(** [while ( *++s > ' ' && *s != ':' && --count); *s = '\0';] *)
Fixpoint cut_key (count : nat) (s : cstring) : cstring :=
  match count, s with
  | S count, c :: s =>
      if decide (schar c > 32 /\ c <> ":"%char) then
        match count with O => [] | _ => c :: cut_key count s end
      else []
  | _, _ => []
  end.

(** [if ((cp = strchr( *parv, ' '))) *cp = 0;] *)
Fixpoint cut_space (s : cstring) : cstring :=
  match s with
  | c :: s => if decide (c = " "%char) then [] else c :: cut_space s
  | [] => []
  end.

Section local.
Context (e : env) (ch : chanmodes).

Definition case_ov (c : ascii) (p : parse) : result parse :=
  o ← next_param p;
  match o with
  | None => Ok (less_args p)
  | Some (s, p) =>
      if full p then Ok p
      else
        match chasing e s with
        | None => Ok p
        | Some who =>
            match find_user_link (mems (cbans ch)) who with
            | None => Ok p
            | Some member =>
                if has (lflags member) CHFL_ZOMBIE then Ok p
                else if negb (whatt p) && chan_service e who && bool_decide (c = "o"%char) &&
                        bool_decide (sptr e <> who) then Ok p
                else if negb (whatt p) && IsOperOnLocalChannel e who (cname ch) && deop_priv e who &&
                        bool_decide (who <> sptr e) && bool_decide (c = "o"%char) then Ok p
                else Ok (push (ChopMember (whatt p) (bool_decide (c = "o"%char)) who) p)
            end
        end
  end.

Definition case_k (p : parse) : result parse :=
  o ← next_param p;
  match o with
  | None => Ok (less_args p)
  | Some (s, p) =>
      if keychange p then Ok p
      else
        let s := cut_key (S KEYLEN) s in
        let p := set_param s p in
        if decide (s = []) then Ok p
        else if full p then Ok p
        else if whatt p then
          match mkey (cmode ch) with
          | Some _ => Ok p
          | None =>
              if has (modos_prohibidos ch) MODE_KEY then Ok p
              else Ok (push_key (ChopKey true (take KEYLEN s)) p)
          end
        else
          match mkey (cmode ch) with
          | Some key =>
              if decide (strCasediff key s = 0) then
                if has (modos_obligatorios ch) MODE_KEY then Ok p
                else Ok (push_key (ChopKey false key) p)
              else Ok p
          | None => Ok p
          end
  end.

Definition case_b (p : parse) : result parse :=
  o ← next_param p;
  match o with
  | None => Ok (less_args p)
  | Some (s, p) =>
      if decide (s = []) then Ok p
      else
        let s := cut_space s in
        let p := set_param s p in
        if full p || bool_decide (chr s = ":"%char) || bool_decide (s = []) then Ok p
        else Ok (push (ChopBan (whatt p) s) p)
  end.

(** The parameter is only taken when it is used. *)
Definition case_l (p : parse) : result parse :=
  if limitset p then
    if whatt p then
      o ← next_param p; match o with None => Ok (less_args p) | Some (_, p) => Ok p end
    else Ok p
  else if negb (whatt p) then
    if has (modos_obligatorios ch) MODE_LIMIT then Ok p
    else Ok (with_limit true (limit_wrong p) 0 p)
  else
    let p := less_args p in
    if decide (parc p > 0) then
      match parv p with
      | [] | [] :: _ => Ok p
      | _ =>
          if full p then Ok p
          else if limit_wrong p then Ok p
          else
            p ← (if decide (nusers p = 0) then
                   match tail (parv p) with
                   | [] => Ub
                   | s :: l =>
                       let p := with_args (parc p) (s :: l) p in
                       if decide (atoi s < 1) then Ok (with_limit (limitset p) true (nusers p) p)
                       else Ok (with_limit (limitset p) (limit_wrong p) (u32 (atoi s)) p)
                   end
                 else Ok p);
            if decide (nusers p = 0) then Ok p
            else if has (modos_prohibidos ch) MODE_LIMIT then Ok p
            else Ok (push ChopLimit (with_limit true (limit_wrong p) (nusers p) p))
      end
    else Ok p.

(** The default case *)
Definition case_flag (c : ascii) (p : parse) : parse :=
  match flag_of_letter c with
  | None => p
  | Some f =>
      if whatt p then
        let m := if decide (f = MODE_PRIVATE) then clear (newmode p) MODE_SECRET
                 else if decide (f = MODE_SECRET) then clear (newmode p) MODE_PRIVATE else newmode p in
        with_newmode (Z.lor m f) p
      else with_newmode (clear (newmode p) f) p
  end.

(** [switch ( *curr)]; the loop that deletes the invitations is Channel.uninvite_loop. *)
Definition letter (c : ascii) (p : parse) : result parse :=
  if decide (c = "+"%char) then Ok (with_whatt true p)
  else if decide (c = "-"%char) then Ok (with_whatt false p)
  else if decide (c = "o"%char \/ c = "v"%char) then case_ov c p
  else if decide (c = "k"%char) then case_k p
  else if decide (c = "b"%char) then case_b p
  else if decide (c = "l"%char) then case_l p
  else if decide (c = "i"%char) then Ok (case_flag c (if whatt p then p else with_uninvited p))
  else if decide (c = "r"%char) then Ok p
  else if decide (c = "O"%char) then if an_oper e (sptr e) then Ok (case_flag c p) else Ok p
  else Ok (case_flag c p).

Fixpoint string_loop (curr : cstring) (p : parse) : result parse :=
  match curr with
  | [] => Ok p
  | c :: curr => p ← letter c p; string_loop curr p
  end.

(** [while (curr && *curr)], with [if (! *curr && parc > 0) { curr = *++parv; parc--; }] *)
Fixpoint mode_loop (fuel : nat) (curr : cstring) (p : parse) : result parse :=
  match fuel with
  | O => Fuel
  | S fuel =>
      p ← string_loop curr p;
      if decide (parc p > 0) then
        match tail (parv p) with
        | [] | [] :: _ => Ok (with_args (parc p - 1) (tail (parv p)) p)
        | curr :: l => mode_loop fuel curr (with_args (parc p - 1) (curr :: l) p)
        end
      else Ok p
  end.

Definition parse_modes (args : list cstring) : result parse :=
  let p := mkParse true (mmode (cmode ch)) [] (Z.of_nat (length args)) args false false 0 false false in
  match args with
  | [] | [] :: _ => Ok p
  | curr :: _ => mode_loop (length args) curr p
  end.

End local.

(** * The changes *)

(** What is written for the others: [what] is [whatt] of this part, with 0 as [None]. *)
Record outs := mkOuts { what : option bool; prev_what : option bool; mbuf : list ascii; pbuf : list ascii; npbuf : list ascii }.

(** What takes the changes back: bmodebuf, bparambuf and nbparambuf *)
Record bounces := mkBounces { bwhat : option bool; bmbuf : list ascii; bpbuf : list ascii; nbpbuf : list ascii; nblen : nat }.

Record apply := mkApply { amode : SMode; abans : bans; called : bool; out : outs; bnc : bounces }.

Definition sign_char (b : bool) : ascii := if b then "+"%char else "-"%char.
Definition is_sign (c : ascii) : bool := bool_decide (c = "+"%char \/ c = "-"%char).

(** [if (whatt != ...) { *mbuf++ = ...; whatt = ...; }] *)
Definition put_sign (b : bool) (o : outs) : outs :=
  if decide (what o = Some b) then o
  else mkOuts (Some b) (prev_what o) (mbuf o ++ [sign_char b]) (pbuf o) (npbuf o).

(** The same in the chain, where [prev_whatt] is kept *)
Definition chain_sign (b : bool) (o : outs) : outs :=
  if decide (what o = Some b) then o
  else mkOuts (Some b) (what o) (mbuf o ++ [sign_char b]) (pbuf o) (npbuf o).

Definition putc (c : ascii) (o : outs) : outs := mkOuts (what o) (prev_what o) (mbuf o ++ [c]) (pbuf o) (npbuf o).

(** A letter with its parameter, and the parameter for the servers *)
Definition put_param (c : ascii) (cp ncp : cstring) (o : outs) : outs :=
  mkOuts (what o) (prev_what o) (mbuf o ++ [c]) (pbuf o ++ cp ++ [" "%char]) (npbuf o ++ ncp ++ [" "%char]).

(** [mbuf--; if ( *mbuf != '+' && *mbuf != '-') mbuf++; else whatt = prev_whatt;] *)
Definition take_back (o : outs) : result outs :=
  match last (mbuf o) with
  | None => Ub
  | Some c =>
      if is_sign c then Ok (mkOuts (prev_what o) (prev_what o) (removelast (mbuf o)) (pbuf o) (npbuf o)) else Ok o
  end.

Definition bsign (b : bool) (o : bounces) : bounces :=
  if decide (bwhat o = Some b) then o
  else mkBounces (Some b) (bmbuf o ++ [sign_char b]) (bpbuf o) (nbpbuf o) (nblen o).
Definition bputc (c : ascii) (o : bounces) : bounces :=
  mkBounces (bwhat o) (bmbuf o ++ [c]) (bpbuf o) (nbpbuf o) (nblen o).
(** [strcat] to both buffers; [k] is what [nblen] grows by besides the length. *)
Definition bparam (t : cstring) (k : nat) (o : bounces) : bounces :=
  mkBounces (bwhat o) (bmbuf o) (bpbuf o ++ t ++ [" "%char]) (nbpbuf o ++ t ++ [" "%char]) (nblen o + length t + k).

(** [sprintf_irc(buf + n, ...)]: the text that the buffer then holds *)
Definition sprintf_at (n : nat) (buf t : list ascii) : list ascii :=
  if decide (n <= length buf)%nat then take n buf ++ t else buf.

(** A member: its name to one buffer, its numeric to the other *)
Definition bmember (nm num : cstring) (counted : bool) (o : bounces) : bounces :=
  let nb := sprintf_at (nblen o) (nbpbuf o) (num ++ [" "%char]) in
  mkBounces (bwhat o) (bmbuf o) (bpbuf o ++ nm ++ [" "%char]) nb
    (if counted then nblen o + length (drop (nblen o) nb) else nblen o).

Definition with_amode m a := mkApply m (abans a) (called a) (out a) (bnc a).
Definition with_abans b a := mkApply (amode a) b (called a) (out a) (bnc a).
Definition with_called b a := mkApply (amode a) (abans a) b (out a) (bnc a).
Definition with_out o a := mkApply (amode a) (abans a) (called a) o (bnc a).
Definition with_bnc b a := mkApply (amode a) (abans a) (called a) (out a) b.

Section changes.
(** [server] is IsServer(sptr), [mine] MyUser(sptr). *)
Context (e : env) (bounce server mine : bool) (badop : Z) (nusers : Z).

Definition set_flag (old new : Z) (a : apply) (x : Z * ascii) : apply :=
  let '(f, c) := x in
  if has new f && negb (has old f) then
    if bounce then with_bnc (bputc c (bsign false (bnc a))) a
    else
      let md := amode a in
      with_out (putc c (put_sign true (out a))) (with_amode (mkSMode (Z.lor (mmode md) f) (mlimit md) (mkey md)) a)
  else a.

Definition clear_flag (old new : Z) (a : apply) (x : Z * ascii) : apply :=
  let '(f, c) := x in
  if has old f && negb (has new f) then
    if bounce then with_bnc (bputc c (bsign true (bnc a))) a
    else
      let md := amode a in
      with_out (putc c (put_sign false (out a))) (with_amode (mkSMode (clear (mmode md) f) (mlimit md) (mkey md)) a)
  else a.

Definition flag_changes (old new : Z) (a : apply) : apply :=
  foldl (clear_flag old new) (foldl (set_flag old new) a canal_flags) canal_flags.

(** [nblen] does not count the space here. *)
Definition limit_off (limitset : bool) (a : apply) : apply :=
  let md := amode a in
  if limitset && bool_decide (nusers = 0) && bool_decide (mlimit md <> 0) then
    if bounce then with_bnc (bparam (dec (s32 (mlimit md))) 0 (bputc "l"%char (bsign true (bnc a)))) a
    else with_out (putc "l"%char (put_sign false (out a))) (with_amode (mkSMode (clear (mmode md) MODE_LIMIT) 0 (mkey md)) a)
  else a.

Definition chop_add (x : chop) : bool :=
  match x with ChopMember add _ _ | ChopKey add _ | ChopBan add _ => add | ChopLimit => true end.

(** [c] and [cp] *)
Definition chop_char (x : chop) : ascii :=
  match x with
  | ChopMember _ op _ => if op then "o"%char else "v"%char
  | ChopKey _ _ => "k"%char | ChopBan _ _ => "b"%char | ChopLimit => "l"%char
  end.
Definition chop_text (x : chop) : result cstring :=
  match x with
  | ChopMember _ _ who => Ok (name e who)
  | ChopKey _ cp => Ok cp
  | ChopBan _ mask => pretty_mask mask
  | ChopLimit => Ok (dec (s32 nusers))
  end.

Definition do_key (add : bool) (cp : cstring) (a : apply) : result apply :=
  let md := amode a in
  let cp := take KEYLEN cp in
  if (add && match mkey md with None => true | Some key => bool_decide (strCasediff key cp <> 0) end) ||
     (negb add && bool_decide (mkey md <> None)) then
    if bounce then
      let b := match mkey md with
               | None => bparam cp 1 (bsign false (bnc a))
               | Some key => bparam key 1 (bsign true (bnc a))
               end in
      o ← take_back (out a);
      Ok (with_out o (with_bnc (bputc "k"%char b) a))
    else
      Ok (with_out (put_param "k"%char cp cp (out a))
           (with_amode (mkSMode (mmode md) (mlimit md) (if add then Some cp else None)) a))
  else Ok a.

Definition do_limit (cp : cstring) (a : apply) : result apply :=
  let md := amode a in
  if bool_decide (nusers <> 0) && bool_decide (nusers <> mlimit md) then
    if bounce then
      let b := if decide (mlimit md = 0) then bsign false (bnc a)
               else bparam (dec (s32 (mlimit md))) 1 (bsign true (bnc a)) in
      o ← take_back (out a);
      Ok (with_out o (with_bnc (bputc "l"%char b) a))
    else Ok (with_out (put_param "l"%char cp cp (out a)) (with_amode (mkSMode (mmode md) nusers (mkey md)) a))
  else Ok a.

(** The flags of the member afterwards, whether the text has to be taken back or to
    be written *)
Definition member_flags (add op : bool) (f : Z) : Z * bool * bool :=
  let bit := if op then CHFL_CHANOP else CHFL_VOICE in
  if add then
    let change := Z.land (Z.land (Z.lnot f) CHFL_OVERLAP) bit in
    if decide (change <> 0) then
      if bounce then (if op then Z.lor f CHFL_DEOPPED else f, true, false)
      else
        let f := Z.lor f bit in
        (if op then (let f := clear f CHFL_DEOPPED in if server then clear f CHFL_SERVOPOK else f) else f, false, true)
    else (f, false, false)
  else
    let change := Z.land (Z.land f CHFL_OVERLAP) bit in
    if bool_decide (change <> 0) && bounce then (if op then clear f CHFL_DEOPPED else f, true, false)
    else
      let f := clear f change in
      (if has change CHFL_CHANOP && server then Z.lor f CHFL_DEOPPED else f, false, bool_decide (change <> 0)).

Definition do_member (add op : bool) (who : nat) (cp : cstring) (a : apply) : result apply :=
  tmp ← of_option (find_user_link (mems (abans a)) who);
  let c := if op then "o"%char else "v"%char in
  let '(f, back, change) := member_flags add op (lflags tmp) in
  let a := with_abans (with_mems (abans a) (set_link_flags who f (mems (abans a)))) a in
  let a := if back : bool then
             with_bnc (bmember (name e who) (numnick e who) add (bputc c (bsign (negb add) (bnc a)))) a
           else a in
  if change || bool_decide (badop = 2) || bool_decide (badop = 4) then
    Ok (with_out (put_param c cp (numnick e who ++ [" "%char]) (out a)) a)
  else o ← take_back (out a); Ok (with_out o a).

(** [i] is the place in the chain; add_banid() cleans the mask in place. *)
Definition do_ban (i : nat) (add : bool) (cp : cstring) (a : apply) : result apply :=
  '(a, cp, change) ←
    (if add then
       '(b, r) ← add_banid (abans a) mine (chan_service e (sptr e)) (name e (sptr e)) cp (negb bounce)
                   (negb (called a)) (now e) (cell e + i);
       cp ← (if mine then clean_ban cp else Ok cp);
       Ok (with_called (called a || bool_decide (r = 0)) (with_abans b a), cp, bool_decide (r = 0))
     else
       let '(b, r) := del_banid (abans a) (Some cp) (negb bounce) in
       Ok (with_abans b a, cp, bool_decide (r = 0)));
  let change : bool := change in
  let a := if bounce && change then with_bnc (bparam cp 1 (bputc "b"%char (bsign (negb add) (bnc a)))) a else a in
  if change && negb bounce then Ok (with_out (put_param "b"%char cp cp (out a)) a)
  else o ← take_back (out a); Ok (with_out o a).

Definition do_chop (i : nat) (x : chop) (cp : cstring) (a : apply) : result apply :=
  match x with
  | ChopMember add op who => do_member add op who cp a
  | ChopKey add _ => do_key add cp a
  | ChopBan add _ => do_ban i add cp a
  | ChopLimit => do_limit cp a
  end.

(** A parameter that may not fit ends the loop. *)
Fixpoint chain (i : nat) (l : list chop) (a : apply) : result apply :=
  match l with
  | [] => Ok a
  | x :: l =>
      let len := length (pbuf (out a)) in
      let nlen := length (npbuf (out a)) in
      let a := with_out (chain_sign (chop_add x) (out a)) a in
      cp ← chop_text x;
      if decide (MODEBUFLEN < len + length cp + 13 \/ MODEBUFLEN < nlen + length cp + NUMNICKLEN + 12)%nat then Ok a
      else a ← do_chop i x cp a; chain (S i) l a
  end.

End changes.

(** * set_mode_local() *)

(** The modes that a client cannot set, and those that the record of the channel asks for *)
Definition final_mode (ch : chanmodes) (new : Z) : Z :=
  let old := mmode (cmode ch) in
  let activacion_modos := Z.land (Z.lnot old) new in
  let new := clear new (Z.land activacion_modos (Z.lor MODE_REGCHAN MODE_DELJOINS)) in
  let new := Z.lxor new (Z.land (Z.lxor new old) MODE_REGCHAN) in
  let new := clear new (modos_prohibidos ch) in
  let new := Z.lor new (modos_obligatorios ch) in
  clear new MODE_WPARAS.

(** is_deopped() of a user *)
Definition is_deopped (st : bans) (u : nat) : bool :=
  match find_user_link (mems st) u with Some l => has (lflags l) CHFL_DEOPPED | None => true end.

(** [while (delayed || (ban[0] = next_overlapped_ban()))]: the bans are only sent. *)
Fixpoint overlapped_loop (fuel : nat) (st : bans) : result bans :=
  match fuel with
  | O => Fuel
  | S fuel => '(st, o) ← next_overlapped_ban st; match o with Some _ => overlapped_loop fuel st | None => Ok st end
  end.

Record answer := mkAnswer { ret : Z; r_mbuf : cstring; r_pbuf : cstring; r_npbuf : cstring }.

Definition with_cbans (b : bans) (ch : chanmodes) : chanmodes :=
  mkChan (cname ch) (cmode ch) (modos_obligatorios ch) (modos_prohibidos ch) b (cinvites ch).
Definition no_invites (p : parse) (ch : chanmodes) : chanmodes :=
  mkChan (cname ch) (cmode ch) (modos_obligatorios ch) (modos_prohibidos ch) (cbans ch)
    (if uninvited p then [] else cinvites ch).

Definition start_apply (ch : chanmodes) : apply :=
  mkApply (cmode ch) (cbans ch) false (mkOuts None None [] [] []) (mkBounces None [] [] [] 0).

(** The second half, after the parsing *)
Definition apply_modes (e : env) (bounce server mine : bool) (badop : Z) (ch : chanmodes) (p : parse) (new : Z) : result apply :=
  let old := mmode (cmode ch) in
  let a := flag_changes bounce old new (start_apply ch) in
  let a := limit_off bounce (nusers p) (limitset p) a in
  a ← chain e bounce server mine badop (nusers p) 0 (chops p) a;
  b ← (if called a then
         if bounce then overlapped_loop (S (length (blist (abans a)))) (abans a)
         else drain (S (length (removed_bans_list (abans a)))) (abans a)
       else Ok (abans a));
  Ok (with_abans b a).

Definition set_mode_local (e : env) (ch : chanmodes) (botmode : bool) (args : list cstring) : result (chanmodes * answer) :=
  let tmp := if services_bot e then None else member (mems (cbans ch)) (sptr e) in
  if negb (services_bot e) && bool_decide (tmp = None) then Ok (ch, mkAnswer 0 [] [] [])
  else
    _ ← (if IsOperOnLocalChannel e (sptr e) (cname ch) then
           match tmp with None => Ub | Some _ => Ok tt end else Ok tt);
    p ← parse_modes e ch args;
    let ch := no_invites p ch in
    let is_op := match tmp with Some l => has (lflags l) CHFL_CHANOP | None => false end in
    if negb botmode && negb (services_bot e) && negb is_op then
      let any := bool_decide (0 < length (chops p))%nat || bool_decide (newmode p <> mmode (cmode ch)) || limitset p || keychange p in
      Ok (ch, mkAnswer (if any then 0 else -1) [] [] [])
    else
      let bounce := is_deopped (cbans ch) (sptr e) && mode_priv e &&
                    negb (IsOperOnLocalChannel e (sptr e) (cname ch)) in
      let bounce := if services_bot e || botmode then false else bounce in
      a ← apply_modes e bounce false true 0 ch p (final_mode ch (newmode p));
      let ch := mkChan (cname ch) (amode a) (modos_obligatorios ch) (modos_prohibidos ch) (abans a) (cinvites ch) in
      Ok (ch, mkAnswer (-1) (mbuf (out a)) (pbuf (out a)) (npbuf (out a))).

(** * The parsing goes through *)

(** A text without blanks, as a parameter of a line is *)
Definition word (w : cstring) : Prop := w <> [] /\ Forall (fun c => c <> NUL /\ c <> " "%char) w.
#[export] Instance word_dec w : Decision (word w).
Proof. unfold word. apply _. Defined.

Definition is_key (x : chop) : bool := match x with ChopKey _ _ => true | _ => false end.
Definition is_limit (x : chop) : bool := match x with ChopLimit => true | _ => false end.
Definition count (f : chop -> bool) (l : list chop) : nat := length (List.filter f l).

Lemma count_app f l l' : count f (l ++ l') = (count f l + count f l')%nat.
Proof. unfold count. by rewrite List.filter_app, length_app. Qed.

Section parse_spec.
Context (e : env) (ch : chanmodes).

Definition chop_wf (p : parse) (x : chop) : Prop :=
  match x with
  | ChopMember _ _ who => is_Some (find_user_link (mems (cbans ch)) who)
  | ChopKey true k => mkey (cmode ch) = None /\ has (modos_prohibidos ch) MODE_KEY = false /\ word k /\ (length k <= KEYLEN)%nat
  | ChopKey false k => mkey (cmode ch) = Some k /\ has (modos_obligatorios ch) MODE_KEY = false
  | ChopBan _ m => word m
  | ChopLimit => limitset p = true /\ 0 < nusers p /\ has (modos_prohibidos ch) MODE_LIMIT = false
  end.

(** A parameter that is read as a limit is not the limit that is set. *)
Definition arg_ok (s : cstring) : Prop := is_cstr s /\ (atoi s < 1 \/ atoi s <> mlimit (cmode ch)).

#[export] Instance arg_ok_dec s : Decision (arg_ok s).
Proof. unfold arg_ok. apply _. Defined.

Record parse_ok (p : parse) : Prop := {
  po_args : Forall arg_ok (tail (parv p));
  po_parc : parc p <= Z.of_nat (length (parv p));
  po_full : (length (chops p) <= MAXMODEPARAMS)%nat;
  po_chops : Forall (chop_wf p) (chops p);
  po_key : (count is_key (chops p) <= if keychange p then 1 else 0)%nat;
  po_limit : (count is_limit (chops p) <= if limitset p then 1 else 0)%nat;
  po_nusers : 0 <= nusers p < 2 ^ 31;
  po_fresh : nusers p = 0 \/ nusers p <> mlimit (cmode ch);
  po_oblig : limitset p = true -> nusers p = 0 -> has (modos_obligatorios ch) MODE_LIMIT = false;
  po_excl : exclusive (mmode (cmode ch)) -> exclusive (newmode p) }.

Lemma ok_args n l p :
  parse_ok p -> n <= Z.of_nat (length l) -> Forall arg_ok (tail l) -> parse_ok (with_args n l p).
Proof. by intros []; constructor. Qed.

Lemma ok_less p : parse_ok p -> parse_ok (less_args p).
Proof. intros Hp. apply ok_args; [done| |apply Hp]. pose proof (po_parc _ Hp). lia. Qed.

Lemma ok_set_param s p : parse_ok p -> parv p <> [] -> parse_ok (set_param s p).
Proof.
  intros Hp Hne. apply ok_args; [done| |apply Hp]. pose proof (po_parc _ Hp). destruct (parv p); [done|]. simpl in *. lia.
Qed.

Lemma ok_push x p :
  parse_ok p -> full p = false -> chop_wf p x -> is_key x = false -> is_limit x = false -> parse_ok (push x p).
Proof.
  intros [] Hf Hx Hk Hl. apply bool_decide_eq_false in Hf.
  constructor; cbn [parv parc chops keychange limitset nusers newmode push]; try done.
  - rewrite length_app. simpl. lia.
  - apply Forall_app. split; [done|]. by repeat constructor.
  - rewrite count_app. unfold count at 2. simpl. rewrite Hk. simpl. lia.
  - rewrite count_app. unfold count at 2. simpl. rewrite Hl. simpl. lia.
Qed.

Lemma ok_push_key add k p :
  parse_ok p -> full p = false -> keychange p = false -> chop_wf p (ChopKey add k) -> parse_ok (push_key (ChopKey add k) p).
Proof.
  intros [] Hf Hk Hx. apply bool_decide_eq_false in Hf. rewrite Hk in *.
  constructor; cbn [parv parc chops keychange limitset nusers newmode push_key]; try done.
  - rewrite length_app. simpl. lia.
  - apply Forall_app. split; [done|]. by repeat constructor.
  - rewrite count_app. unfold count at 2. simpl. lia.
  - rewrite count_app. unfold count at 2. simpl. lia.
Qed.

(** [limitset] was false: no limit waits, so that [nusers] may change. *)
Lemma ok_limit s w n p :
  parse_ok p -> limitset p = false -> 0 <= n < 2 ^ 31 -> n = 0 \/ n <> mlimit (cmode ch) ->
  (s = true -> n = 0 -> has (modos_obligatorios ch) MODE_LIMIT = false) -> parse_ok (with_limit s w n p).
Proof.
  intros [] Hl Hn Hne Ho. rewrite Hl in *. constructor; cbn [parv parc chops keychange limitset nusers newmode with_limit]; try done.
  - assert (count is_limit (chops p) = 0)%nat as H0 by lia. clear -H0 po_chops0. revert H0.
    induction po_chops0 as [|x l Hx Hl IH]; intros H0; [constructor|]. unfold count in *. simpl in H0.
    destruct (is_limit x) eqn:E; [done|]. constructor; [by destruct x|by apply IH].
  - destruct s; lia.
Qed.

Lemma ok_newmode m p :
  parse_ok p -> (exclusive (mmode (cmode ch)) -> exclusive m) -> parse_ok (with_newmode m p).
Proof. by intros [] Hm; constructor. Qed.

Lemma ok_whatt b p : parse_ok p -> parse_ok (with_whatt b p).
Proof. by intros []; constructor. Qed.
Lemma ok_uninvited p : parse_ok p -> parse_ok (with_uninvited p).
Proof. by intros []; constructor. Qed.

Lemma next_param_spec p :
  parse_ok p ->
  exists o, next_param p = Ok o /\
    match o with
    | None => True
    | Some (s, p') => parse_ok p' /\ is_cstr s /\ parv p' = s :: tail (parv p') /\
        p' = with_args (parc p - 1) (tail (parv p)) p
    end.
Proof.
  intros Hp. pose proof (po_parc _ Hp) as Hn. pose proof (po_args _ Hp) as Ha. unfold next_param.
  destruct (decide (parc p - 1 <= 0)); [by exists None|].
  destruct (parv p) as [|h [|s l]] eqn:E; cbn [tail length] in *; [lia|lia|].
  apply Forall_cons in Ha as [[Hs Hl] Ha]. eexists. split; [done|]. split_and!; try done.
  apply ok_args; [done|cbn [length]; lia|done].
Qed.

Lemma cut_key_word n s : is_cstr s -> cut_key n s <> [] -> word (cut_key n s).
Proof.
  intros Hs Hne. split; [done|]. clear Hne. revert n. induction Hs as [|c s Hc _ IH]; intros [|n]; try constructor.
  cbn [cut_key]. destruct (decide _) as [[H1 H2]|]; [|constructor]. destruct n; [constructor|]. constructor; [|apply IH].
  split; [done|]. intros ->. by vm_compute in H1.
Qed.

Lemma cut_key_length n s : (length (cut_key (S n) s) <= n)%nat.
Proof.
  revert s. induction n as [|n IH]; intros [|c s]; cbn [cut_key length]; try lia.
  - destruct (decide _); simpl; lia.
  - specialize (IH s). destruct (decide _); cbn [cut_key length] in *; lia.
Qed.

Lemma cut_space_word s : is_cstr s -> cut_space s <> [] -> word (cut_space s).
Proof.
  intros Hs Hne. split; [done|]. clear Hne. induction Hs as [|c s Hc _ IH]; [constructor|]. cbn [cut_space].
  destruct (decide _); by constructor.
Qed.

Lemma case_flag_ok c p : parse_ok p -> parse_ok (case_flag c p).
Proof.
  intros Hp. unfold case_flag. destruct (flag_of_letter c) as [f|] eqn:Ef; [|done].
  pose proof (flag_of_letter_entry c f Ef) as Hin.
  assert (Hps : (MODE_PRIVATE, "p"%char) ∈ canal_flags) by (apply in_canal_flags; vm_compute; done).
  assert (Hse : (MODE_SECRET, "s"%char) ∈ canal_flags) by (apply in_canal_flags; vm_compute; done).
  pose proof (canal_flag_entry _ Hin) as He.
  assert (P : has f MODE_PRIVATE = bool_decide (f = MODE_PRIVATE)) by exact (has_flag (f, c) _ Hin Hps).
  assert (S' : has f MODE_SECRET = bool_decide (f = MODE_SECRET)) by exact (has_flag (f, c) _ Hin Hse).
  destruct (whatt p); (apply ok_newmode; [done|]); intros Hx%(po_excl _ Hp); unfold exclusive in *.
  - rewrite has_lor_private, has_lor_secret, P, S'. destruct (decide (f = MODE_PRIVATE)) as [->|H1].
    + rewrite has_clear_secret. change (has MODE_SECRET MODE_SECRET) with true. by rewrite !andb_false_r.
    + rewrite (bool_decide_eq_false_2 (f = MODE_PRIVATE)) by done. destruct (decide (f = MODE_SECRET)) as [->|H2].
      * rewrite has_clear_private. change (has MODE_PRIVATE MODE_PRIVATE) with true. by rewrite andb_false_r, andb_comm.
      * rewrite (bool_decide_eq_false_2 (f = MODE_SECRET)) by done. by rewrite !orb_false_r.
  - rewrite has_clear_private, has_clear_secret.
    destruct (has (newmode p) MODE_SECRET), (has (newmode p) MODE_PRIVATE); try done; by rewrite andb_false_r.
Qed.

(** A step keeps the invariant and does not lengthen the rest of the parameters. *)
Definition goes (p : parse) (r : result parse) : Prop :=
  exists p', r = Ok p' /\ parse_ok p' /\ (length (parv p') <= length (parv p))%nat.

Lemma goes_Ok p p' : parse_ok p' -> (length (parv p') <= length (parv p))%nat -> goes p (Ok p').
Proof. intros. by exists p'. Qed.

Lemma goes_less p : parse_ok p -> goes p (Ok (less_args p)).
Proof. intros. apply goes_Ok; [by apply ok_less|done]. Qed.

Lemma next_param_length p p' s :
  parv p' = s :: tail (parv p') -> p' = with_args (parc p - 1) (tail (parv p)) p ->
  (length (parv p') < length (parv p))%nat.
Proof.
  intros E ->. cbn [parv with_args] in *. destruct (parv p) as [|h l]; [by rewrite E|]. simpl. lia.
Qed.

Lemma case_ov_ok c p : parse_ok p -> goes p (case_ov e ch c p).
Proof.
  intros Hp. unfold case_ov. destruct (next_param_spec p Hp) as ([[s p']|]&->&H); cbn [mbind result_bind];
    [|by apply goes_less].
  destruct H as (Hp'&Hs&E&Ep). pose proof (next_param_length _ _ _ E Ep) as Hlen.
  destruct (full p') eqn:Ef; [apply goes_Ok; [done|lia]|].
  destruct (chasing e s) as [who|]; [|apply goes_Ok; [done|lia]].
  destruct (find_user_link (mems (cbans ch)) who) as [m|] eqn:Em; [|apply goes_Ok; [done|lia]].
  destruct (has (lflags m) CHFL_ZOMBIE); [apply goes_Ok; [done|lia]|].
  destruct (_ && _); [apply goes_Ok; [done|lia]|]. destruct (_ && _); [apply goes_Ok; [done|lia]|].
  apply goes_Ok; [|simpl; lia]. apply ok_push; try done. simpl. by rewrite Em.
Qed.

Lemma case_k_ok p : parse_ok p -> goes p (case_k ch p).
Proof.
  intros Hp. unfold case_k. destruct (next_param_spec p Hp) as ([[s p']|]&->&H); cbn [mbind result_bind];
    [|by apply goes_less].
  destruct H as (Hp'&Hs&E&Ep). pose proof (next_param_length _ _ _ E Ep) as Hlen.
  destruct (keychange p') eqn:Ek; [apply goes_Ok; [done|lia]|].
  assert (Hp2 : parse_ok (set_param (cut_key (S KEYLEN) s) p')) by (apply ok_set_param; [done|by rewrite E]).
  set (p2 := set_param (cut_key (S KEYLEN) s) p') in *.
  assert (Hlen2 : (length (parv p2) <= length (parv p))%nat) by (subst p2; rewrite E in Hlen; simpl in *; lia).
  assert (keychange p2 = false) as Ek2 by done. clearbody p2.
  destruct (decide (cut_key (S KEYLEN) s = [])) as [|Hne]; [by apply goes_Ok|].
  pose proof (cut_key_word _ _ Hs Hne) as Hw. pose proof (cut_key_length KEYLEN s) as Hl.
  destruct (full p2) eqn:Ef; [by apply goes_Ok|]. destruct (whatt p2), (mkey (cmode ch)) as [key|] eqn:Em; try by apply goes_Ok.
  - destruct (has _ _) eqn:Eh; [by apply goes_Ok|]. apply goes_Ok; [|done]. apply ok_push_key; [done..|]. simpl.
    rewrite firstn_all2 by done. done.
  - destruct (decide _); [|by apply goes_Ok]. destruct (has _ _) eqn:Eh; [by apply goes_Ok|]. apply goes_Ok; [|done]. by apply ok_push_key.
Qed.

Lemma case_b_ok p : parse_ok p -> goes p (case_b p).
Proof.
  intros Hp. unfold case_b. destruct (next_param_spec p Hp) as ([[s p']|]&->&H); cbn [mbind result_bind];
    [|by apply goes_less].
  destruct H as (Hp'&Hs&E&Ep). pose proof (next_param_length _ _ _ E Ep) as Hlen.
  destruct (decide _); [apply goes_Ok; [done|lia]|].
  assert (Hp2 : parse_ok (set_param (cut_space s) p')) by (apply ok_set_param; [done|by rewrite E]).
  set (p2 := set_param (cut_space s) p') in *.
  assert (Hlen2 : (length (parv p2) <= length (parv p))%nat) by (subst p2; rewrite E in Hlen; simpl in *; lia). clearbody p2.
  destruct (full p2) eqn:Ef; [by apply goes_Ok|]. cbn [orb].
  destruct (bool_decide (chr (cut_space s) = ":"%char)); [by apply goes_Ok|]. cbn [orb].
  destruct (bool_decide _) eqn:En; [by apply goes_Ok|]. apply bool_decide_eq_false in En.
  apply goes_Ok; [|done]. apply ok_push; try done. simpl. by apply cut_space_word.
Qed.

Lemma atoi_range s : - 2 ^ 31 <= atoi s < 2 ^ 31.
Proof.
  unfold atoi, s32, u32. set (z := Z.max _ _). pose proof (Z.mod_pos_bound z (2 ^ 32)). destruct (decide _); lia.
Qed.

Lemma case_l_ok p : parse_ok p -> goes p (case_l ch p).
Proof.
  intros Hp. unfold case_l. destruct (limitset p) eqn:El.
  { destruct (whatt p); [|by apply goes_Ok]. destruct (next_param_spec p Hp) as ([[s p']|]&->&H); cbn [mbind result_bind];
      [|by apply goes_less]. destruct H as (Hp'&_&E&Ep). pose proof (next_param_length _ _ _ E Ep). apply goes_Ok; [done|lia]. }
  destruct (whatt p); cbn [negb].
  2: { destruct (has _ _) eqn:Eob; [by apply goes_Ok|]. apply goes_Ok; [|done]. apply ok_limit; [done|done|lia|by left|done]. }
  pose proof (ok_less p Hp) as Hq. assert (limitset (less_args p) = false) as El' by done.
  assert (Hlen : length (parv (less_args p)) = length (parv p)) by done.
  pose proof (po_parc _ Hp) as Hpc. assert (parc (less_args p) = parc p - 1) as Epc by done.
  set (q := less_args p) in *. clearbody q.
  destruct (decide (parc q > 0)) as [Hc|Hc]; [|apply goes_Ok; [done|lia]].
  destruct (parv q) as [|[|c h] l] eqn:Eq; try (apply goes_Ok; [done|rewrite Eq; lia]).
  destruct (full q) eqn:Ef; [apply goes_Ok; [done|rewrite Eq; lia]|].
  destruct (limit_wrong q); [apply goes_Ok; [done|rewrite Eq; lia]|].
  assert (Hend : forall q', parse_ok q' -> limitset q' = false -> full q' = false -> (length (parv q') <= length (parv p))%nat ->
    goes p (if decide (nusers q' = 0) then Ok q' else if has (modos_prohibidos ch) MODE_LIMIT then Ok q'
      else Ok (push ChopLimit (with_limit true (limit_wrong q') (nusers q') q')))).
  { intros q' Hq' Hl' Hf' Hlen'. destruct (decide (nusers q' = 0)) as [|Hnz]; [by apply goes_Ok|].
    destruct (has _ _) eqn:Eph; [by apply goes_Ok|]. apply goes_Ok; [|done]. pose proof (po_nusers _ Hq') as Hn.
    assert (parse_ok (with_limit true (limit_wrong q') (nusers q') q')) as Hw by by apply ok_limit; [..|apply (po_fresh _ Hq')|].
    pose proof (po_limit _ Hq') as Hcount. rewrite Hl' in Hcount.
    destruct Hw. constructor; cbn [parv parc chops keychange limitset nusers newmode push with_limit] in *; try done.
    - rewrite length_app. unfold full in Hf'. apply bool_decide_eq_false in Hf'. simpl. lia.
    - apply Forall_app. split; [done|]. constructor; [|done]. simpl. split; [done|]. split; [lia|done].
    - rewrite count_app. unfold count at 2. simpl. lia.
    - rewrite count_app. unfold count at 2. simpl. lia. }
  destruct (decide (nusers q = 0)) as [Hz|Hz]; cbn [mbind result_bind]; [|apply Hend; [done..|rewrite Eq; lia]].
  cbn [tail]. pose proof (po_args _ Hq) as Ha. rewrite Eq in Ha. cbn [tail] in Ha. cbn [length] in Hlen.
  destruct l as [|s l]; [simpl in *; lia|]. apply Forall_cons in Ha as [[Hs Hfr] Ha].
  assert (Hq2 : parse_ok (with_args (parc q) (s :: l) q)) by (apply ok_args; [done|simpl in *; lia|done]).
  assert (Hlen2 : (length (s :: l) <= length (parv p))%nat) by (simpl in *; lia).
  destruct (decide (atoi s < 1)) as [Hv|Hv]; cbn [mbind result_bind].
  - apply Hend; [|done|done|done]. apply ok_limit; [done|done|apply (po_nusers _ Hq)|apply (po_fresh _ Hq)|]. by intros Hl; cbn [limitset with_args] in Hl; rewrite El' in Hl.
  - pose proof (atoi_range s) as Hr. assert (u32 (atoi s) = atoi s) as E by (unfold u32; apply Z.mod_small; lia).
    apply Hend; [|done|done|done]. rewrite E. apply ok_limit; [done|done|lia|right; lia|]. by intros Hl; cbn [limitset with_args] in Hl; rewrite El' in Hl.
Qed.

Lemma letter_ok c p : parse_ok p -> goes p (letter e ch c p).
Proof.
  intros Hp. unfold letter.
  destruct (decide _); [apply goes_Ok; [by apply ok_whatt|done]|].
  destruct (decide _); [apply goes_Ok; [by apply ok_whatt|done]|].
  destruct (decide _); [by apply case_ov_ok|]. destruct (decide _); [by apply case_k_ok|].
  destruct (decide _); [by apply case_b_ok|]. destruct (decide _); [by apply case_l_ok|].
  assert (Hf : forall q, parse_ok q -> parv q = parv p -> goes p (Ok (case_flag c q))).
  { intros q Hq E. apply goes_Ok; [by apply case_flag_ok|]. unfold case_flag.
    destruct (flag_of_letter c); [destruct (whatt q)|]; simpl; by rewrite E. }
  destruct (decide _); [destruct (whatt p); apply Hf; try done; by apply ok_uninvited|].
  destruct (decide _); [by apply goes_Ok|]. destruct (decide _); [|by apply Hf].
  destruct (an_oper e (sptr e)); [by apply Hf|by apply goes_Ok].
Qed.

Lemma string_loop_ok s p : parse_ok p -> goes p (string_loop e ch s p).
Proof.
  revert p. induction s as [|c s IH]; intros p Hp; [by apply goes_Ok|]. cbn [string_loop].
  destruct (letter_ok c p Hp) as (p1&->&Hp1&Hl1). cbn [mbind result_bind].
  destruct (IH p1 Hp1) as (p2&->&Hp2&Hl2). apply goes_Ok; [done|lia].
Qed.

Lemma mode_loop_ok fuel s p :
  parse_ok p -> (length (parv p) <= fuel)%nat -> parv p <> [] -> exists p', mode_loop e ch fuel s p = Ok p' /\ parse_ok p'.
Proof.
  revert s p. induction fuel as [|fuel IH]; intros s p Hp Hf Hne; [destruct (parv p); [done|simpl in Hf; lia]|].
  cbn [mode_loop]. destruct (string_loop_ok s p Hp) as (p1&->&Hp1&Hl1). cbn [mbind result_bind].
  destruct (decide (parc p1 > 0)) as [Hc|Hc]; [|by exists p1]. pose proof (po_parc _ Hp1) as Hpc. pose proof (po_args _ Hp1) as Ha.
  destruct (parv p1) as [|h l] eqn:E; [simpl in Hpc; lia|]. cbn [tail length] in *.
  destruct l as [|[|c curr] l].
  - eexists. split; [done|]. apply ok_args; [done|simpl in *; lia|constructor].
  - eexists. split; [done|]. apply Forall_cons in Ha as [_ Ha]. apply ok_args; [done|simpl in *; lia|done].
  - apply Forall_cons in Ha as [_ Ha]. apply IH; [|simpl in *; lia|done]. apply ok_args; [done|simpl in *; lia|done].
Qed.

Lemma parse_modes_ok args :
  Forall arg_ok (tail args) -> exists p, parse_modes e ch args = Ok p /\ parse_ok p.
Proof.
  intros Ha. unfold parse_modes. set (p := mkParse _ _ _ _ _ _ _ _ _ _).
  assert (parse_ok p) as Hp.
  { constructor; cbn; try done; try lia; by left. }
  destruct args as [|[|c s] l]; [by exists p..|]. by apply mode_loop_ok.
Qed.

End parse_spec.

(** * What a reader makes of the text of the changes

    A client or another server reads the letters with their sign and takes the
    parameters one after the other. The bans are not part of its view. *)

Record view := mkView { v_mode : Z; v_limit : Z; v_key : option cstring; v_members : list (cstring * Z) }.

Definition set_member (w : cstring) (bit : Z) (sign : bool) (x : cstring * Z) : cstring * Z :=
  if decide (x.1 = w) then (x.1, if sign then Z.lor x.2 bit else clear x.2 bit) else x.

Definition read_flag (c : ascii) (sign : bool) (v : view) : view :=
  match flag_of_letter c with
  | Some f => mkView (if sign then Z.lor (v_mode v) f else clear (v_mode v) f) (v_limit v) (v_key v) (v_members v)
  | None => v
  end.

Definition read_param (c : ascii) (w : cstring) (sign : bool) (v : view) : view :=
  if decide (c = "o"%char) then mkView (v_mode v) (v_limit v) (v_key v) (map (set_member w CHFL_CHANOP sign) (v_members v))
  else if decide (c = "v"%char) then mkView (v_mode v) (v_limit v) (v_key v) (map (set_member w CHFL_VOICE sign) (v_members v))
  else if decide (c = "k"%char) then mkView (v_mode v) (v_limit v) (if sign then Some w else None) (v_members v)
  else if decide (c = "l"%char) then mkView (v_mode v) (atoi w) (v_key v) (v_members v)
  else v.

(** The letters that take a parameter: -l takes none. *)
Definition takes_param (c : ascii) (sign : bool) : bool :=
  bool_decide (c = "o"%char \/ c = "v"%char \/ c = "k"%char \/ c = "b"%char) || (bool_decide (c = "l"%char) && sign).

Definition read_step (r : bool * list cstring * view) (c : ascii) : bool * list cstring * view :=
  let '(sign, ws, v) := r in
  if decide (c = "+"%char) then (true, ws, v)
  else if decide (c = "-"%char) then (false, ws, v)
  else if takes_param c sign then
    match ws with w :: ws => (sign, ws, read_param c w sign v) | [] => (sign, [], v) end
  else if decide (c = "l"%char) then (sign, ws, mkView (v_mode v) 0 (v_key v) (v_members v))
  else (sign, ws, read_flag c sign v).



Definition view_of (e : env) (md : SMode) (st : bans) : view :=
  mkView (mmode md) (mlimit md) (mkey md) (map (fun l => (name e (cptr l), Z.land (lflags l) CHFL_OVERLAP)) (mems st)).
Definition chan_view (e : env) (ch : chanmodes) : view := view_of e (cmode ch) (cbans ch).

(** * Reading back *)

Definition words (ws : list cstring) : list ascii := concat (map (fun w => w ++ [" "%char]) ws).

Lemma words_snoc ws w : words (ws ++ [w]) = words ws ++ w ++ [" "%char].
Proof. unfold words. rewrite map_app, concat_app. simpl. by rewrite app_nil_r. Qed.



(** The sign after a text *)
Definition sign_step (s : bool) (c : ascii) : bool :=
  if decide (c = "+"%char) then true else if decide (c = "-"%char) then false else s.
Definition sign_of (m : list ascii) : bool := foldl sign_step true m.

Lemma read_step_sign r c : (read_step r c).1.1 = sign_step r.1.1 c.
Proof.
  destruct r as [[s ws] v]. unfold read_step, sign_step. cbn [fst].
  destruct (decide _); [done|]. destruct (decide _); [done|]. destruct (takes_param c s); [by destruct ws|]. by destruct (decide _).
Qed.

Lemma read_sign m s ws v : (foldl read_step (s, ws, v) m).1.1 = foldl sign_step s m.
Proof.
  induction m as [|c m IH] using rev_ind; [done|]. by rewrite !foldl_snoc, read_step_sign, IH.
Qed.

Lemma sign_of_snoc m c : sign_of (m ++ [c]) = sign_step (sign_of m) c.
Proof. apply foldl_snoc. Qed.

Lemma sign_of_char m b : sign_of (m ++ [sign_char b]) = b.
Proof. rewrite sign_of_snoc. by destruct b. Qed.

Lemma sign_of_letter m c : is_sign c = false -> sign_of (m ++ [c]) = sign_of m.
Proof.
  intros Hc. apply bool_decide_eq_false in Hc. rewrite sign_of_snoc. unfold sign_step. by rewrite !decide_False by tauto.
Qed.

(** The reader has used up the parameters [ws] and is at [v]. *)
Definition reads (v0 : view) (m : list ascii) (ws : list cstring) (v : view) : Prop :=
  forall extra, foldl read_step (true, ws ++ extra, v0) m = (sign_of m, extra, v).

Lemma reads_nil v : reads v [] [] v.
Proof. intros extra. done. Qed.

Lemma reads_sign v0 m ws v b : reads v0 m ws v <-> reads v0 (m ++ [sign_char b]) ws v.
Proof.
  unfold reads. split; intros H extra.
  - rewrite foldl_snoc, H, sign_of_char. by destruct b.
  - specialize (H extra). rewrite foldl_snoc, sign_of_char in H. pose proof (read_sign m true (ws ++ extra) v0) as Hs.
    fold (sign_of m) in Hs. destruct (foldl read_step (true, ws ++ extra, v0) m) as [[s ws'] v']. cbn [fst] in Hs. subst s.
    assert ((b, ws', v') = (b, extra, v)) as E by (rewrite <- H; by destruct b). by simplify_eq.
Qed.

Lemma reads_param v0 m ws v c w :
  reads v0 m ws v -> is_sign c = false -> takes_param c (sign_of m) = true ->
  reads v0 (m ++ [c]) (ws ++ [w]) (read_param c w (sign_of m) v).
Proof.
  intros H Hc Hp extra. rewrite <- app_assoc. cbn [app]. rewrite foldl_snoc, H, sign_of_letter by done.
  apply bool_decide_eq_false in Hc. unfold read_step. rewrite !decide_False by tauto. by rewrite Hp.
Qed.

Lemma reads_minus_l v0 m ws v :
  reads v0 m ws v -> sign_of m = false -> reads v0 (m ++ ["l"%char]) ws (mkView (v_mode v) 0 (v_key v) (v_members v)).
Proof.
  intros H Hs extra. rewrite foldl_snoc, H, sign_of_letter, Hs by done. done.
Qed.

(** The letters without a parameter *)
Definition plain_letter (c : ascii) : Prop :=
  is_sign c = false /\ c <> "o"%char /\ c <> "v"%char /\ c <> "k"%char /\ c <> "b"%char /\ c <> "l"%char.

Lemma reads_flag v0 m ws v c :
  reads v0 m ws v -> plain_letter c -> reads v0 (m ++ [c]) ws (read_flag c (sign_of m) v).
Proof.
  intros H (Hc&Hne) extra. rewrite foldl_snoc, H, sign_of_letter by done.
  apply bool_decide_eq_false in Hc. unfold read_step, takes_param.
  rewrite !decide_False by tauto. rewrite !bool_decide_eq_false_2 by tauto. done.
Qed.

Definition with_v_mode (m : Z) (v : view) : view := mkView m (v_limit v) (v_key v) (v_members v).

Lemma reads_letters v0 m ws v D l :
  reads v0 m ws v -> Forall entry l -> (forall x, x ∈ l -> has D (fst x) = true -> plain_letter (snd x)) ->
  reads v0 (m ++ letters D l) ws
    (with_v_mode (if sign_of m then Z.lor (v_mode v) (Z.land D (mask_of l)) else clear (v_mode v) (Z.land D (mask_of l))) v).
Proof.
  intros H Hl. revert m v H. induction Hl as [|x l Hx Hl IH]; intros m v H Hp.
  - cbn [letters map concat mask_of foldr]. rewrite app_nil_r, Z.land_0_r. unfold clear. rewrite Z.land_m1_r, Z.lor_0_r.
    destruct v. by destruct (sign_of m).
  - assert (letters D (x :: l) = put_if (has D (fst x)) (snd x) ++ letters D l) as -> by done.
    rewrite mask_of_cons, Z.land_lor_distr_r, (land_entry _ _ Hx).
    assert (Hp' : forall y, y ∈ l -> has D (fst y) = true -> plain_letter (snd y)) by (intros y Hy; apply Hp; by right).
    destruct (has D (fst x)) eqn:Ed; cbn [put_if app].
    + assert (plain_letter (snd x)) as Hpl by (apply Hp; [left|done]).
      pose proof (reads_flag _ _ _ _ _ H Hpl) as H1. destruct Hx as (_&_&Hf&_).
      specialize (IH _ _ H1 Hp'). rewrite <- app_assoc in IH. rewrite (sign_of_letter m (snd x)) in IH by apply Hpl.
      unfold read_flag in IH. rewrite Hf in IH. cbn [v_mode app] in IH. unfold with_v_mode in *. cbn [v_limit v_key v_members] in IH.
      destruct (sign_of m).
      * by rewrite <- Z.lor_assoc in IH.
      * unfold clear in *. rewrite Z.lnot_lor, Z.land_assoc. exact IH.
    + rewrite Z.lor_0_l. by apply IH.
Qed.

(** * The bits *)

(** The letters [ls] with their sign *)
Definition add_letters (b : bool) (ls : list ascii) (o : outs) : outs :=
  if decide (ls = []) then o
  else mkOuts (Some b) (prev_what o) (mbuf (put_sign b o) ++ ls) (pbuf o) (npbuf o).

Lemma add_letters_cons b c ls o : add_letters b ls (putc c (put_sign b o)) = add_letters b (c :: ls) o.
Proof.
  unfold add_letters, put_sign. rewrite (decide_False (P := c :: ls = [])) by done.
  destruct (decide (what o = Some b)) as [E|E]; cbn [putc what prev_what mbuf pbuf npbuf].
  - rewrite (decide_True (P := what o = Some b)) by done. destruct (decide (ls = [])) as [->|].
    + destruct o; simpl in *. by subst.
    + cbn [mbuf putc]. by rewrite <- app_assoc.
  - rewrite (decide_True (P := Some b = Some b)) by done. destruct (decide (ls = [])) as [->|]; [done|]. cbn [mbuf putc]. by rewrite <- app_assoc.
Qed.

Definition with_mmode (m : Z) (md : SMode) : SMode := mkSMode m (mlimit md) (mkey md).

Lemma set_fold old new l a :
  Forall entry l ->
  foldl (set_flag false old new) a l =
  let D := Z.land new (Z.lnot old) in
  mkApply (with_mmode (Z.lor (mmode (amode a)) (Z.land D (mask_of l))) (amode a)) (abans a) (called a)
    (add_letters true (letters D l) (out a)) (bnc a).
Proof.
  intros Hl. revert a. induction Hl as [|[f c] l Hx Hl IH]; intros a; cbv zeta.
  - cbn [foldl letters map concat mask_of foldr]. rewrite Z.land_0_r, Z.lor_0_r. unfold add_letters. rewrite decide_True by done.
    by destruct a as [[] ? ? ? ?].
  - cbn [foldl]. rewrite IH. cbv zeta. rewrite mask_of_cons, Z.land_lor_distr_r, (land_entry _ _ Hx).
    assert (letters (Z.land new (Z.lnot old)) ((f, c) :: l) =
      put_if (has (Z.land new (Z.lnot old)) f) c ++ letters (Z.land new (Z.lnot old)) l) as -> by done.
    assert (has (Z.land new (Z.lnot old)) f = has new f && negb (has old f)) as E by exact (has_clear new old (f, c) Hx).
    cbn [fst]. rewrite E. unfold set_flag. destruct (has new f && negb (has old f)); cbn [put_if app].
    + cbn [amode abans called out bnc with_out with_amode mmode mlimit mkey with_mmode].
      rewrite add_letters_cons, Z.lor_assoc. done.
    + by rewrite Z.lor_0_l.
Qed.

Lemma clear_fold old new l a :
  Forall entry l ->
  foldl (clear_flag false old new) a l =
  let D := Z.land old (Z.lnot new) in
  mkApply (with_mmode (clear (mmode (amode a)) (Z.land D (mask_of l))) (amode a)) (abans a) (called a)
    (add_letters false (letters D l) (out a)) (bnc a).
Proof.
  intros Hl. revert a. induction Hl as [|[f c] l Hx Hl IH]; intros a; cbv zeta; unfold clear in *.
  - cbn [foldl letters map concat mask_of foldr]. rewrite Z.land_0_r, Z.land_m1_r. unfold add_letters. rewrite decide_True by done.
    by destruct a as [[] ? ? ? ?].
  - cbn [foldl]. rewrite IH. cbv zeta. rewrite mask_of_cons, Z.land_lor_distr_r, (land_entry _ _ Hx).
    assert (letters (Z.land old (Z.lnot new)) ((f, c) :: l) =
      put_if (has (Z.land old (Z.lnot new)) f) c ++ letters (Z.land old (Z.lnot new)) l) as -> by done.
    assert (has (Z.land old (Z.lnot new)) f = has old f && negb (has new f)) as E by exact (has_clear old new (f, c) Hx).
    cbn [fst]. rewrite E. unfold clear_flag, clear. destruct (has old f && negb (has new f)); cbn [put_if app].
    + cbn [amode abans called out bnc with_out with_amode mmode mlimit mkey with_mmode].
      rewrite add_letters_cons, Z.lnot_lor, Z.land_assoc. done.
    + by rewrite Z.lor_0_l.
Qed.

(** What a text and the variables [whatt] and [prev_whatt] have to do with each other *)
Definition ends_clean (m : list ascii) : Prop := forall m' c, m = m' ++ [c] -> is_sign c = false.
Definition heads (m : list ascii) : Prop := forall c m', m = c :: m' -> is_sign c = true.
Definition what_ok (o : outs) : Prop := forall b, what o = Some b -> sign_of (mbuf o) = b /\ mbuf o <> [].

Lemma heads_snoc m c : heads m -> m <> [] -> heads (m ++ [c]).
Proof. intros Hm Hne c' m' E. destruct m as [|x m]; [done|]. injection E as <- _. by eapply Hm. Qed.
Lemma heads_sign m b : heads m -> heads (m ++ [sign_char b]).
Proof. intros Hm c' m' E. destruct m as [|x m]; injection E as <- _; [by destruct b|by eapply Hm]. Qed.
Lemma heads_prefix m c : heads (m ++ [c]) -> heads m.
Proof. intros Hm x m' ->. eapply Hm. done. Qed.

Lemma ends_clean_nil : ends_clean [].
Proof. intros m c E. by destruct m. Qed.
Lemma ends_clean_snoc m c : is_sign c = false -> ends_clean (m ++ [c]).
Proof. intros Hc m' c' E. apply app_inj_tail in E as [_ <-]. done. Qed.

Lemma letters_plain D l : Forall entry l -> Forall (fun c => is_sign c = false) (letters D l).
Proof.
  induction 1 as [|x l (_&_&_&H1&H2&_) Hl IH]; [constructor|]. unfold letters in *. cbn [map concat].
  apply Forall_app. split; [|done]. destruct (has D (fst x)); repeat constructor. apply bool_decide_eq_false. tauto.
Qed.

Lemma ends_clean_app m ls : ends_clean m -> Forall (fun c => is_sign c = false) ls -> ends_clean (m ++ ls).
Proof.
  intros Hm Hls. destruct ls as [|c ls _] using rev_ind; [by rewrite app_nil_r|]. rewrite app_assoc.
  apply Forall_app in Hls as [_ Hc]. apply Forall_cons in Hc as [Hc _]. by apply ends_clean_snoc.
Qed.

Lemma sign_of_letters m ls : Forall (fun c => is_sign c = false) ls -> sign_of (m ++ ls) = sign_of m.
Proof.
  intros H. revert m. induction H as [|c ls Hc _ IH]; intros m; [by rewrite app_nil_r|].
  change (c :: ls) with ([c] ++ ls). rewrite app_assoc, IH. by apply sign_of_letter.
Qed.

(** [add_letters] in the eyes of a reader *)
Lemma add_letters_reads v0 b D l o ws v :
  Forall entry l -> (forall x, x ∈ l -> has D (fst x) = true -> plain_letter (snd x)) ->
  reads v0 (mbuf o) ws v -> what_ok o -> ends_clean (mbuf o) ->
  let o' := add_letters b (letters D l) o in
  reads v0 (mbuf o') ws (with_v_mode (if b then Z.lor (v_mode v) (Z.land D (mask_of l)) else clear (v_mode v) (Z.land D (mask_of l))) v) /\
  what_ok o' /\ ends_clean (mbuf o') /\ pbuf o' = pbuf o /\ npbuf o' = npbuf o /\
  (length (mbuf o') <= length (mbuf o) + 1 + length (letters D l))%nat.
Proof.
  intros Hl Hp Hr Hw He. pose proof (letters_plain D l Hl) as Hpl.
  assert (H : forall m, reads v0 m ws v -> sign_of m = b -> reads v0 (m ++ letters D l) ws
    (with_v_mode (if b then Z.lor (v_mode v) (Z.land D (mask_of l)) else clear (v_mode v) (Z.land D (mask_of l))) v)).
  { intros m Hm <-. by apply reads_letters. }
  cbv zeta. unfold add_letters. destruct (decide (letters D l = [])) as [E|E].
  - split_and!; try done; [|lia]. destruct b.
    + specialize (H (mbuf o ++ [sign_char true])). rewrite E, app_nil_r in H. apply (reads_sign v0 _ ws _ true), H.
      * by apply reads_sign.
      * apply sign_of_char.
    + specialize (H (mbuf o ++ [sign_char false])). rewrite E, app_nil_r in H. apply (reads_sign v0 _ ws _ false), H.
      * by apply reads_sign.
      * apply sign_of_char.
  - unfold put_sign. destruct (decide (what o = Some b)) as [Ew|Ew]; cbn [mbuf what pbuf npbuf].
    + destruct (Hw b Ew) as [Hs Hne]. split_and!; try done.
      * by apply H.
      * intros b' [= <-]. cbn [mbuf]. rewrite sign_of_letters by done. split; [done|]. by intros [? _]%app_eq_nil.
      * by apply ends_clean_app.
      * rewrite length_app. lia.
    + split_and!; try done.
      * apply H; [by apply reads_sign|apply sign_of_char].
      * intros b' [= <-]. cbn [mbuf]. rewrite sign_of_letters by done. split; [apply sign_of_char|].
        by intros [[_ ?]%app_eq_nil _]%app_eq_nil.
      * destruct (letters D l) as [|c ls _] using rev_ind; [done|]. rewrite app_assoc.
        apply Forall_app in Hpl as [_ Hc]. apply Forall_cons in Hc as [Hc _]. by apply ends_clean_snoc.
      * rewrite !length_app. simpl. lia.
Qed.

(** * Members *)

(** What is_banned() remembers *)
Definition ban_bits : Z := Z.lor CHFL_BANVALID CHFL_BANNED.
Definition keeps_bans (f f' : Z) : Prop := Z.land f' ban_bits = Z.land f ban_bits.

Lemma land_clear_disjoint f x m : Z.land x m = 0 -> Z.land (clear f x) m = Z.land f m.
Proof.
  intros H. unfold clear. apply Z.bits_inj'. intros n Hn. apply (f_equal (fun z => Z.testbit z n)) in H.
  rewrite !Z.land_spec, Z.bits_0 in *. rewrite Z.lnot_spec by done.
  by destruct (Z.testbit f n), (Z.testbit x n), (Z.testbit m n).
Qed.

Lemma land_lor_disjoint f x m : Z.land x m = 0 -> Z.land (Z.lor f x) m = Z.land f m.
Proof. intros H. by rewrite Z.land_lor_distr_l, H, Z.lor_0_r. Qed.

Lemma keeps_has f f' : keeps_bans f f' ->
  has f' CHFL_BANVALID = has f CHFL_BANVALID /\ has f' CHFL_BANNED = has f CHFL_BANNED.
Proof.
  unfold keeps_bans, has. intros H.
  assert (E : forall b, Z.land ban_bits b = b -> Z.land f' b = Z.land f b).
  { intros b Hb. by rewrite <- Hb, !Z.land_assoc, H. }
  by rewrite !E by done.
Qed.

(** [change] of a member that is opped or deopped *)
Lemma member_flags_spec (server add op : bool) (f : Z) :
  let bit := if op then CHFL_CHANOP else CHFL_VOICE in
  exists f' change, member_flags false server add op f = (f', false, change) /\ keeps_bans f f' /\
    Z.land f' CHFL_OVERLAP = (if add then Z.lor (Z.land f CHFL_OVERLAP) bit else clear (Z.land f CHFL_OVERLAP) bit) /\
    (change = false -> f' = f \/ Z.land f' CHFL_OVERLAP = Z.land f CHFL_OVERLAP).
Proof.
  intros bit. assert (Z.land bit CHFL_OVERLAP = bit) as Hbit by (by subst bit; destruct op).
  assert (Z.land bit ban_bits = 0) as Hban by (by subst bit; destruct op).
  unfold member_flags. fold bit. destruct add.
  - set (ch := Z.land (Z.land (Z.lnot f) CHFL_OVERLAP) bit). destruct (decide (ch <> 0)) as [Hc|Hc].
    + eexists _, _. split; [done|]. split_and!; [|..|done].
      * unfold keeps_bans. destruct op; [|by apply land_lor_disjoint].
        destruct server; [rewrite land_clear_disjoint by done|]; (rewrite land_clear_disjoint by done); by apply land_lor_disjoint.
      * transitivity (Z.land (Z.lor f bit) CHFL_OVERLAP); [|by rewrite Z.land_lor_distr_l, Hbit].
        destruct op; [|done]. destruct server; [rewrite land_clear_disjoint by done|]; by apply land_clear_disjoint.
    + eexists _, _. split; [done|]. split_and!; [done| |by left]. assert (ch = 0) as H by lia. subst ch.
      apply Z.bits_inj'. intros n Hn. apply (f_equal (fun z => Z.testbit z n)) in H, Hbit.
      rewrite !Z.land_spec, Z.bits_0 in *. rewrite Z.lnot_spec in H by done. rewrite Z.lor_spec, Z.land_spec.
      by destruct (Z.testbit f n), (Z.testbit CHFL_OVERLAP n), (Z.testbit bit n).
  - set (ch := Z.land (Z.land f CHFL_OVERLAP) bit). rewrite andb_false_r.
    assert (Hov : Z.land (clear f ch) CHFL_OVERLAP = clear (Z.land f CHFL_OVERLAP) bit).
    { subst ch. unfold clear. apply Z.bits_inj'. intros n Hn. repeat (rewrite Z.land_spec || rewrite Z.lnot_spec by done).
      by destruct (Z.testbit f n), (Z.testbit CHFL_OVERLAP n), (Z.testbit bit n). }
    assert (Hkb : keeps_bans f (clear f ch)).
    { apply land_clear_disjoint. subst ch. by rewrite <- Z.land_assoc, Hban, Z.land_0_r. }
    eexists _, _. split; [done|]. split_and!.
    + destruct (_ && server); [|done]. unfold keeps_bans. by rewrite land_lor_disjoint.
    + destruct (_ && server); [|done]. by rewrite land_lor_disjoint.
    + intros H0. apply bool_decide_eq_false in H0. assert (ch = 0) as E by lia. left. rewrite E.
      unfold clear. rewrite Z.land_m1_r. by unfold has.
Qed.

Section members.
Context (e : env).

Definition member_view (l : Link) : cstring * Z := (name e (cptr l), Z.land (lflags l) CHFL_OVERLAP).

Lemma find_user_link_in m who tmp : find_user_link m who = Some tmp -> cptr tmp = who /\ tmp ∈ m.
Proof.
  induction m as [|x m IH]; [done|]. simpl. case_decide as E; [intros [= ->]; split; [done|left]|].
  intros H. destruct (IH H). split; [done|by right].
Qed.

Lemma member_view_update m who tmp f bit (add : bool) :
  NoDup (map fst (map member_view m)) -> find_user_link m who = Some tmp ->
  Z.land f CHFL_OVERLAP = (if add then Z.lor (Z.land (lflags tmp) CHFL_OVERLAP) bit else clear (Z.land (lflags tmp) CHFL_OVERLAP) bit) ->
  map member_view (set_link_flags who f m) = map (set_member (name e who) bit add) (map member_view m).
Proof.
  intros Hnd. induction m as [|x m IH]; [done|]. cbn [map find_user_link set_link_flags]. apply NoDup_cons in Hnd as [Hx Hnd].
  intros Hf Ho. destruct (decide (cptr x = who)) as [<-|Hne].
  - injection Hf as <-. cbn [map]. unfold set_member at 1. cbn [fst snd member_view]. rewrite decide_True by done. f_equal.
    + unfold member_view. simpl. by rewrite Ho.
    + clear IH Hnd. induction m as [|y m IH]; [done|]. cbn [map] in *. apply not_elem_of_cons in Hx as [Hxy Hx].
      rewrite <- IH by done. f_equal. unfold set_member. rewrite decide_False; [done|]. intros E. by destruct Hxy.
  - cbn [map]. f_equal; [|by apply IH]. unfold set_member. rewrite decide_False; [done|]. intros E.
    apply find_user_link_in in Hf as [Hc Hin]. destruct Hx. apply list_elem_of_In, in_map_iff.
    exists (member_view tmp). split; [unfold member_view at 1; simpl; by rewrite Hc|]. apply in_map. by apply list_elem_of_In.
Qed.

Lemma set_link_flags_cptr who f m : map cptr (set_link_flags who f m) = map cptr m.
Proof. induction m as [|x m IH]; [done|]. simpl. case_decide as E; simpl; [by rewrite E|by rewrite IH]. Qed.

Lemma find_user_link_cptr m m' who :
  map cptr m = map cptr m' -> is_Some (find_user_link m who) -> is_Some (find_user_link m' who).
Proof.
  revert m'. induction m as [|x m IH]; intros [|y m'] E; try done. simpl in *. injection E as E1 E2. rewrite E1.
  case_decide; [by eexists|]. by apply IH.
Qed.

Lemma member_names_cptr m : map fst (map member_view m) = map (name e) (map cptr m).
Proof. by rewrite !map_map. Qed.
End members.

Lemma cached_update names_of l m who tmp f :
  Forall (cached names_of l) m -> find_user_link m who = Some tmp -> keeps_bans (lflags tmp) f ->
  Forall (cached names_of l) (set_link_flags who f m).
Proof.
  intros Hc Hf Hk. apply set_link_flags_cached; [|done]. apply find_user_link_in in Hf as [E Hin].
  rewrite Forall_forall in Hc. specialize (Hc tmp Hin). unfold cached in *. simpl. destruct (keeps_has _ _ Hk) as [-> ->].
  by rewrite E in Hc.
Qed.

(** * Masks *)

Lemma collapse_go_Forall (P : ascii -> Prop) star m : P "*"%char -> Forall P m -> Forall P (collapse_go star m).
Proof.
  intros Hs. revert star. induction (mask_view_tokens m) as [|m ts _ IH|m ts _ IH|d m ts Hd _ IH|c m ts Hw He _ IH];
    intros star Hm; [by destruct star; repeat constructor|apply Forall_cons in Hm as [Hc Hm]..].
  - by apply (IH true).
  - constructor; [done|by apply IH].
  - apply Forall_cons in Hm as [Hd' Hm]. rewrite collapse_go_esc by done. apply Forall_app.
    split; [by destruct star; repeat constructor|]. constructor; [done|]. constructor; [done|by apply IH].
  - rewrite collapse_go_lit by done. apply Forall_app.
    split; [by destruct star; repeat constructor|]. constructor; [done|by apply IH].
Qed.

Lemma clean_ban_text mask m :
  is_cstr mask -> clean_ban mask = Ok m -> m = collapse_go false (fix_string mask).
Proof.
  intros Hm. assert (Hf : is_cstr (fix_string mask)).
  { unfold is_cstr, fix_string in *. rewrite Forall_forall in Hm |- *. intros c [_ Hc]%list_elem_of_filter. by apply Hm. }
  unfold clean_ban. destruct (collapse_spec (fix_string mask) [] Hf) as (junk&->). cbn [mbind result_bind].
  intros [= <-]. by rewrite c_text_app by (by apply collapse_go_cstr).
Qed.

Definition no_blank (c : ascii) : Prop := c <> NUL /\ c <> " "%char.

Lemma clean_ban_blank mask m :
  Forall no_blank mask -> clean_ban mask = Ok m -> Forall no_blank m /\ (length m <= length mask)%nat.
Proof.
  intros Hm Hc. apply clean_ban_text in Hc as ->; [|by eapply Forall_impl; [exact Hm|intros c []]]. split.
  - apply collapse_go_Forall; [done|]. unfold fix_string. rewrite Forall_forall in Hm |- *.
    intros c [_ Hc]%list_elem_of_filter. by apply Hm.
  - etrans; [apply collapse_go_length|]. rewrite Nat.add_0_r. apply length_filter.
Qed.

(** What pretty_mask() makes of a parameter *)
Lemma pretty_param mask :
  word mask -> pretty_mask mask = Ok (pretty_spec mask) /\ user_mask (pretty_spec mask) /\ Forall no_blank (pretty_spec mask).
Proof.
  intros [_ Hm]. assert (Forall no_blank (pretty_spec mask)) as Hp by by apply pretty_spec_Forall.
  split_and!; [|split|done].
  - apply pretty_mask_spec. eapply Forall_impl; [exact Hm|]. by intros c [].
  - eapply Forall_impl; [exact Hp|]. by intros c [].
  - apply pretty_spec_bang.
Qed.

(** * The chain *)

(** A well-formed struct SMode *)
Definition smode_ok (md : SMode) : Prop :=
  Z.land (mmode md) MODE_WPARAS = 0 /\ 0 <= mlimit md < 2 ^ 31 /\
  match mkey md with Some k => word k /\ (length k <= KEYLEN)%nat | None => True end.

Section chain_spec.
Context (e : env) (server mine : bool) (names_of : nat -> names).
Context (Hname : forall u, word (name e u)) (Hnum : forall u, (length (numnick e u) <= NUMNICKLEN)%nat).
(** The members, and what the reader started from *)
Context (cs : list nat) (Hcs : NoDup (map (name e) cs)) (v0 : view).

Definition apply_view (a : apply) : view := view_of e (amode a) (abans a).

(** The part of the invariant that is about the channel *)
Record state_ok (a : apply) : Prop := {
  so_inv : Inv names_of (abans a);
  so_quiet : called a = false -> quiet (abans a);
  so_cptr : map cptr (mems (abans a)) = cs;
  so_md : smode_ok (amode a) }.

Record text_ok (N : nat) (o : outs) (ws : list cstring) (v : view) : Prop := {
  to_words : Forall word ws;
  to_pbuf : pbuf o = words ws;
  to_reads : reads v0 (mbuf o) ws v;
  to_what : what_ok o;
  to_head : heads (mbuf o);
  to_plen : (length (pbuf o) < MODEBUFLEN)%nat;
  to_nlen : (length (npbuf o) < MODEBUFLEN)%nat;
  to_mlen : (length (mbuf o) <= N)%nat }.

(** The sign of the next change has been written, if need be. *)
Definition signed (b : bool) (o : outs) : Prop :=
  what o = Some b /\
  (ends_clean (mbuf o) \/
   exists m, mbuf o = m ++ [sign_char b] /\ ends_clean m /\ forall s, prev_what o = Some s -> sign_of m = s /\ m <> []).

Lemma chain_sign_spec N b o ws v :
  text_ok N o ws v -> ends_clean (mbuf o) -> text_ok (S N) (chain_sign b o) ws v /\ signed b (chain_sign b o).
Proof.
  intros [] He. unfold chain_sign. destruct (decide (what o = Some b)) as [E|E].
  - split; [constructor; try done; lia|]. split; [done|by left].
  - split.
    + constructor; cbn [mbuf pbuf npbuf]; try done.
      * by apply reads_sign.
      * intros b' [= <-]. cbn [mbuf]. split; [apply sign_of_char|]. by intros [_ ?]%app_eq_nil.
      * by apply heads_sign.
      * rewrite length_app. simpl. lia.
    + split; [done|]. right. exists (mbuf o). split_and!; [done|done|]. exact to_what0.
Qed.

Lemma take_back_spec N b o ws v :
  text_ok N o ws v -> signed b o -> exists o', take_back o = Ok o' /\ text_ok N o' ws v /\ ends_clean (mbuf o').
Proof.
  intros [] [Hw Hs]. destruct (to_what0 b Hw) as [Hsg Hne]. unfold take_back.
  destruct (mbuf o) as [|c m _] eqn:Em using rev_ind; [done|]. clear Hne. rewrite last_snoc, removelast_last.
  destruct Hs as [He|(m'&E&He&Hp)].
  - rewrite (He m c eq_refl). exists o. rewrite Em. split_and!; [done| |done]. constructor; rewrite ?Em; done.
  - apply app_inj_tail in E as [-> ->]. assert (is_sign (sign_char b) = true) as -> by by destruct b.
    eexists. split; [done|]. cbn [mbuf]. split; [|done]. constructor; cbn [mbuf pbuf npbuf]; try done.
    + by apply reads_sign in to_reads0.
    + by eapply heads_prefix.
    + rewrite length_app in to_mlen0. simpl in to_mlen0. lia.
Qed.

Lemma put_param_spec N b o ws v v' c cp ncp :
  text_ok N o ws v -> what o = Some b -> is_sign c = false -> takes_param c b = true ->
  read_param c cp b v = v' -> word cp ->
  (length (pbuf o) + length cp + 1 < MODEBUFLEN)%nat -> (length (npbuf o) + length ncp + 1 < MODEBUFLEN)%nat ->
  text_ok (S N) (put_param c cp ncp o) (ws ++ [cp]) v' /\ ends_clean (mbuf (put_param c cp ncp o)).
Proof.
  intros [] Hw Hc Ht <- Hcp Hl1 Hl2. destruct (to_what0 b Hw) as [Hsg Hne].
  split; [|by apply ends_clean_snoc]. constructor; cbn [put_param mbuf pbuf npbuf].
  - apply Forall_app. split; [done|]. by apply Forall_singleton.
  - by rewrite words_snoc, to_pbuf0.
  - rewrite <- Hsg. apply reads_param; [done|done|]. by rewrite Hsg.
  - intros b' Hb'. cbn [put_param what mbuf] in *. rewrite sign_of_letter by done. split; [by apply to_what0|].
    by intros [_ ?]%app_eq_nil.
  - by apply heads_snoc.
  - rewrite !length_app. simpl. lia.
  - rewrite !length_app. simpl. lia.
  - rewrite length_app. simpl. lia.
Qed.

(** A waiting change is still what it was when it was read. *)
Definition chop_now (nusers : Z) (a : apply) (x : chop) : Prop :=
  match x with
  | ChopMember _ _ who => who ∈ cs
  | ChopKey true k => mkey (amode a) = None /\ word k /\ (length k <= KEYLEN)%nat
  | ChopKey false k => mkey (amode a) = Some k
  | ChopBan _ m => word m
  | ChopLimit => 0 < nusers < 2 ^ 31 /\ nusers <> mlimit (amode a)
  end.

(** The text of a change fits. *)
Definition fits_bufs (o : outs) (cp : cstring) : Prop :=
  (length (pbuf o) + length cp + 13 <= MODEBUFLEN)%nat /\ (length (npbuf o) + length cp + NUMNICKLEN + 12 <= MODEBUFLEN)%nat.

(** What one change does *)
Definition done_chop (nusers : Z) (N : nat) (ws : list cstring) (r : result apply) (a : apply) (x : chop) : Prop :=
  exists a' ws', r = Ok a' /\ state_ok a' /\ text_ok (S N) (out a') ws' (apply_view a') /\ ends_clean (mbuf (out a')) /\
    (is_key x = false -> mkey (amode a') = mkey (amode a)) /\ (mlimit (amode a') = mlimit (amode a) \/ is_limit x = true /\ mlimit (amode a') = nusers) /\ mmode (amode a') = mmode (amode a).

Lemma text_ok_le N M o ws v : (N <= M)%nat -> text_ok N o ws v -> text_ok M o ws v.
Proof. intros Hle []. constructor; try done. lia. Qed.
Lemma text_ok_S N o ws v : text_ok N o ws v -> text_ok (S N) o ws v.
Proof. apply text_ok_le. lia. Qed.

Lemma do_key_spec N nusers ws add k a :
  state_ok a -> text_ok N (out a) ws (apply_view a) -> signed add (out a) -> chop_now nusers a (ChopKey add k) ->
  fits_bufs (out a) k -> done_chop nusers N ws (do_key false add k a) a (ChopKey add k).
Proof.
  intros Hs Ht [Hw _] Hx [Hf1 Hf2]. pose proof (so_md _ Hs) as (Hm1&Hm2&Hm3).
  assert (word k /\ (length k <= KEYLEN)%nat) as [Hk Hkl].
  { destruct add; simpl in Hx; [by destruct Hx as (_&?&?)|]. by rewrite Hx in Hm3. }
  unfold do_key. rewrite (firstn_all2 (n := KEYLEN) k) by done.
  assert ((add && match mkey (amode a) with None => true | Some key => bool_decide (strCasediff key k <> 0) end) ||
     (negb add && bool_decide (mkey (amode a) <> None)) = true) as ->.
  { destruct add; simpl in Hx; cbn [andb negb orb]; [by destruct Hx as (->&_)|]. rewrite bool_decide_eq_true, Hx. done. }
  destruct (put_param_spec N add (out a) ws (apply_view a)
    (view_of e (mkSMode (mmode (amode a)) (mlimit (amode a)) (if add then Some k else None)) (abans a)) "k"%char k k)
    as [Ht' He]; [done|done|done|by destruct add|done|done|lia|unfold NUMNICKLEN in *; lia|].
  eexists _, _. split; [done|]. split_and!; [|exact Ht'|exact He|done|by left|done].
  destruct Hs. constructor; try done. split; [done|]. split; [done|]. by destruct add.
Qed.

Lemma dec_word n : 0 <= n < 2 ^ 31 -> word (dec n).
Proof.
  intros Hn. destruct (dec_digit_text n Hn) as (c&ds&E&Hd&_). split; [by rewrite E|].
  eapply Forall_impl; [exact Hd|]. intros d (?&_&_&_&?)%is_digit_not. done.
Qed.

Lemma s32_small n : 0 <= n < 2 ^ 31 -> s32 n = n.
Proof. intros H. unfold s32, u32. rewrite Z.mod_small by lia. by rewrite decide_True by lia. Qed.

Lemma do_limit_spec N nusers ws a :
  state_ok a -> text_ok N (out a) ws (apply_view a) -> signed true (out a) -> chop_now nusers a ChopLimit ->
  fits_bufs (out a) (dec (s32 nusers)) -> done_chop nusers N ws (do_limit false nusers (dec (s32 nusers)) a) a ChopLimit.
Proof.
  intros Hs Ht [Hw _] [Hn Hne] [Hf1 Hf2]. pose proof (so_md _ Hs) as (Hm1&Hm2&Hm3).
  rewrite s32_small in * by lia. unfold do_limit. rewrite !bool_decide_eq_true_2 by lia. cbn [andb].
  destruct (put_param_spec N true (out a) ws (apply_view a)
    (view_of e (mkSMode (mmode (amode a)) nusers (mkey (amode a))) (abans a)) "l"%char (dec nusers) (dec nusers))
    as [Ht' He]; [done|done|done|done| |apply dec_word; lia|lia|unfold NUMNICKLEN in *; lia|].
  { unfold read_param. rewrite !decide_False, decide_True by done. cbn. by rewrite atoi_dec by lia. }
  eexists _, _. split; [done|]. split_and!; [|exact Ht'|exact He|done|by right|done].
  destruct Hs. constructor; try done. split; [done|]. split; [cbn; lia|done].
Qed.

(** Changing the flags of a member *)
Lemma state_ok_flags a who tmp f :
  state_ok a -> find_user_link (mems (abans a)) who = Some tmp -> keeps_bans (lflags tmp) f ->
  state_ok (with_abans (with_mems (abans a) (set_link_flags who f (mems (abans a)))) a).
Proof.
  intros [] Hf Hk. constructor; cbn [abans called amode with_abans]; try done.
  - destruct so_inv0. constructor; try done. by eapply cached_update.
  - cbn [mems with_mems]. by rewrite set_link_flags_cptr.
Qed.

Lemma member_view_same m who tmp f :
  find_user_link m who = Some tmp -> Z.land f CHFL_OVERLAP = Z.land (lflags tmp) CHFL_OVERLAP ->
  map (member_view e) (set_link_flags who f m) = map (member_view e) m.
Proof.
  intros Hf Ho. induction m as [|x m IH]; [done|]. simpl in *. destruct (decide (cptr x = who)) as [<-|].
  - injection Hf as ->. simpl. f_equal. unfold member_view. simpl. by rewrite Ho.
  - simpl. f_equal. by apply IH.
Qed.

Lemma do_member_spec N nusers ws add op who a :
  state_ok a -> text_ok N (out a) ws (apply_view a) -> signed add (out a) -> chop_now nusers a (ChopMember add op who) ->
  fits_bufs (out a) (name e who) ->
  done_chop nusers N ws (do_member e false server 0 add op who (name e who) a) a (ChopMember add op who).
Proof.
  intros Hs Ht Hsg Hx [Hf1 Hf2]. unfold do_member. simpl in Hx.
  assert (is_Some (find_user_link (mems (abans a)) who)) as [tmp Htmp].
  { rewrite <- (so_cptr _ Hs) in Hx. apply list_elem_of_In, in_map_iff in Hx as (l&<-&Hl%list_elem_of_In).
    pose proof (find_user_link_spec (mems (abans a)) (cptr l)) as Hsp. destruct (find_user_link _ _); [by eexists|].
    destruct Hsp. by apply list_elem_of_fmap_2. }
  rewrite Htmp. cbn [of_option mbind result_bind].
  destruct (member_flags_spec server add op (lflags tmp)) as (f&change&->&Hk&Ho&Hsame).
  pose proof (state_ok_flags a who tmp f Hs Htmp Hk) as Hs'. rewrite !(bool_decide_eq_false_2 (0 = _)), !orb_false_r by done.
  destruct change.
  - destruct (put_param_spec N add (out a) ws (apply_view a)
      (view_of e (amode a) (with_mems (abans a) (set_link_flags who f (mems (abans a)))))
      (if op then "o"%char else "v"%char) (name e who) (numnick e who ++ [" "%char])) as [Ht' He];
      [done|apply Hsg|by destruct op|by destruct op| |done|lia| |].
    + unfold apply_view, view_of. cbn [mems with_mems]. fold (member_view e).
      rewrite (member_view_update e _ who tmp f (if op then CHFL_CHANOP else CHFL_VOICE) add);
        [by destruct op|by rewrite member_names_cptr, (so_cptr _ Hs)|done|done].
    + specialize (Hnum who). rewrite length_app. cbn [length]. unfold NUMNICKLEN, MODEBUFLEN in *. lia.
    + eexists _, _. split; [done|]. split_and!; [by destruct Hs'|exact Ht'|exact He|done|by left|done].
  - assert (Z.land f CHFL_OVERLAP = Z.land (lflags tmp) CHFL_OVERLAP) as Ho' by (by destruct (Hsame eq_refl) as [->|?]).
    destruct (take_back_spec N add (out a) ws (apply_view a) Ht Hsg) as (o&Hb&Ht'&He).
    cbn [out with_abans]. rewrite Hb. cbn [mbind result_bind].
    eexists _, _. split; [done|]. split_and!; [by destruct Hs'| |exact He|done|by left|done].
    apply text_ok_S. unfold apply_view, view_of. cbn [out amode abans with_out with_abans mems with_mems].
    fold (member_view e). rewrite (member_view_same _ who tmp f Htmp Ho'). exact Ht'.
Qed.

(** The flags that bans change are not those that a reader sees. *)
Lemma map_mems_view g m :
  (forall f, Z.land (g f) CHFL_OVERLAP = Z.land f CHFL_OVERLAP) ->
  map (member_view e) (map_mems g m) = map (member_view e) m /\ map cptr (map_mems g m) = map cptr m.
Proof.
  intros Hg. unfold map_mems. rewrite !map_map. split; [|done]. apply map_ext. intros l. unfold member_view. simpl. by rewrite Hg.
Qed.

Lemma view_of_mems md st st' :
  map (member_view e) (mems st') = map (member_view e) (mems st) -> view_of e md st' = view_of e md st.
Proof. intros E. unfold view_of. fold (member_view e). by rewrite E. Qed.

(** A ban that has been changed, in the eyes of a reader *)
Lemma ban_put N add o ws v cp :
  text_ok N o ws v -> signed add o -> word cp -> fits_bufs o cp ->
  text_ok (S N) (put_param "b"%char cp cp o) (ws ++ [cp]) v /\ ends_clean (mbuf (put_param "b"%char cp cp o)).
Proof.
  intros Ht [Hw _] Hcp [Hf1 Hf2].
  apply (put_param_spec N add o ws v v "b"%char cp cp); try done; unfold NUMNICKLEN in *; try lia.
Qed.

Lemma do_ban_spec N nusers ws i add mask a :
  state_ok a -> text_ok N (out a) ws (apply_view a) -> signed add (out a) -> chop_now nusers a (ChopBan add mask) ->
  fits_bufs (out a) (pretty_spec mask) ->
  done_chop nusers N ws (do_ban e false mine i add (pretty_spec mask) a) a (ChopBan add mask).
Proof.
  intros Hs Ht Hsg Hx Hfit. destruct (pretty_param mask Hx) as (_&Hum&Hnb). set (cp := pretty_spec mask) in *. clearbody cp.
  unfold do_ban. cbn [negb andb]. rewrite ?andb_true_r. pose proof (so_inv _ Hs) as Hi.
  destruct (take_back_spec N add (out a) ws (apply_view a) Ht Hsg) as (o&Hb&Ht'&He).
  destruct add.
  - destruct (add_banid_spec (abans a) mine (chan_service e (sptr e)) (name e (sptr e)) cp (negb (called a)) (now e) (cell e + i))
      as (m&st&r&Em&Hm&Hr&Hw&Hirr&Hp&Hcase&_); [done|apply Hi|apply Hi| |].
    { destruct (called a) eqn:Ec; [done|]. intros _. by apply (so_quiet _ Hs). }
    rewrite Hr. cbn [mbind result_bind]. rewrite Em. cbn [mbind result_bind].
    assert (Hmw : Forall no_blank m /\ (length m <= length cp)%nat).
    { destruct mine; [by eapply clean_ban_blank|]. by injection Em as <-. }
    destruct Hcase as [[-> (_&Hmem&_)]|[-> (Hkey&Hmem&Hrem)]].
    + rewrite (bool_decide_eq_true_2 (0 = 0)) by done. cbn [andb].
      destruct (map_mems_view (fun f => clear f CHFL_BANVALID) (mems (abans a))) as [Hv Hc];
        [intros f; by apply land_clear_disjoint|]. rewrite <- Hmem in Hv, Hc.
      destruct (ban_put N true (out a) ws (apply_view a) m) as [Ht2 He2]; [done|done| |destruct Hfit; split; lia|].
      { split; [|apply Hmw]. intros ->. by destruct Hm as [_ ?%not_elem_of_nil]. }
      eexists _, _. split; [done|]. split_and!; [| |exact He2|done|by left|done].
      2: { unfold apply_view. cbn [amode abans with_out with_called with_abans out]. by rewrite (view_of_mems _ (abans a)). }
      * constructor; cbn [abans called amode with_out with_called with_abans].
        -- constructor; [done|done|]. rewrite Hmem. apply cached_cleared.
        -- by rewrite orb_true_r.
        -- by rewrite Hc, (so_cptr _ Hs).
        -- apply (so_md _ Hs).
    + rewrite (bool_decide_eq_false_2 (-1 = 0)) by done. cbn [andb out with_called with_abans]. rewrite Hb. cbn [mbind result_bind].
      eexists _, _. split; [done|]. split_and!; [| |exact He|done|by left|done].
      * constructor; cbn [abans called amode with_out with_called with_abans].
        -- constructor; [done|done|]. rewrite Hmem. apply (cached_key names_of (blist (abans a))); [done|apply Hi].
        -- rewrite orb_false_r. intros Hc. unfold quiet. rewrite Hp, Hrem. by apply (so_quiet _ Hs).
        -- by rewrite Hmem, (so_cptr _ Hs).
        -- apply (so_md _ Hs).
      * apply text_ok_S. unfold apply_view. cbn [amode abans with_out with_called with_abans out].
        rewrite (view_of_mems _ (abans a)) by by rewrite Hmem. exact Ht'.
  - pose proof (Inv_del names_of (abans a) (Some cp) Hi) as Hid. pose proof (quiet_del (abans a) (Some cp)) as Hq.
    destruct (del_banid (abans a) (Some cp) true) as [st r] eqn:Ed. cbn [fst] in Hid, Hq.
    assert (Hmem : map (member_view e) (mems st) = map (member_view e) (mems (abans a)) /\ map cptr (mems st) = map cptr (mems (abans a))).
    { unfold del_banid in Ed. destruct (del_ban cp (blist (abans a))); injection Ed as <- _; [|done]. cbn [mems].
      apply map_mems_view. intros f. unfold erase_banned. destruct (decide _); [|done]. by apply land_clear_disjoint. }
    destruct Hmem as [Hv Hc]. cbn [mbind result_bind].
    assert (Hs' : forall o' , state_ok (with_out o' (with_abans st a))).
    { intros o'. constructor; cbn [abans called amode with_out with_abans].
      - done.
      - intros Hcd. destruct Hq as [->|[E1 E2]]; [by apply (so_quiet _ Hs)|]. unfold quiet. rewrite E1, E2. by apply (so_quiet _ Hs).
      - by rewrite Hc, (so_cptr _ Hs).
      - apply (so_md _ Hs). }
    destruct (bool_decide (r = 0)).
    + destruct (ban_put N false (out a) ws (apply_view a) cp) as [Ht2 He2]; [done|done| |done|].
      { split; [|done]. intros ->. by destruct Hum as [_ ?%not_elem_of_nil]. }
      eexists _, _. split; [done|]. split_and!; [apply Hs'| |exact He2|done|by left|done].
      unfold apply_view. cbn [amode abans with_out with_abans out]. rewrite (view_of_mems _ (abans a)) by done. exact Ht2.
    + cbn [out with_abans]. rewrite Hb. cbn [mbind result_bind].
      eexists _, _. split; [done|]. split_and!; [apply Hs'| |exact He|done|by left|done].
      apply text_ok_S. unfold apply_view. cbn [amode abans with_out with_abans out]. rewrite (view_of_mems _ (abans a)) by done. exact Ht'.
Qed.

Lemma chop_now_change nusers a a' l :
  Forall (chop_now nusers a) l ->
  count is_key l = 0%nat \/ mkey (amode a') = mkey (amode a) ->
  count is_limit l = 0%nat \/ mlimit (amode a') = mlimit (amode a) -> Forall (chop_now nusers a') l.
Proof.
  intros Hl. induction Hl as [|x l Hx Hl IH]; intros Hk Hm; [constructor|].
  assert (Hk' : is_key x = false /\ (count is_key l = 0%nat) \/ mkey (amode a') = mkey (amode a)).
  { destruct Hk as [Hk|]; [|by right]. unfold count in Hk. simpl in Hk. left. by destruct (is_key x). }
  assert (Hm' : is_limit x = false /\ (count is_limit l = 0%nat) \/ mlimit (amode a') = mlimit (amode a)).
  { destruct Hm as [Hm|]; [|by right]. unfold count in Hm. simpl in Hm. left. by destruct (is_limit x). }
  constructor; [|apply IH; tauto]. destruct x as [| [] | |]; simpl in *; try done.
  - destruct Hk' as [[? _]|E]; [done|by rewrite E].
  - destruct Hk' as [[? _]|E]; [done|by rewrite E].
  - destruct Hm' as [[? _]|E]; [done|by rewrite E].
Qed.

Lemma chop_text_spec nusers a x :
  chop_now nusers a x ->
  exists cp, chop_text e nusers x = Ok cp /\
    match x with ChopBan _ m => cp = pretty_spec m | ChopMember _ _ who => cp = name e who | ChopKey _ k => cp = k
    | ChopLimit => cp = dec (s32 nusers) end.
Proof.
  intros Hx. destruct x as [add op who|add k|add m|]; simpl in *; try by eexists.
  destruct (pretty_param m Hx) as (->&_). by eexists.
Qed.

Lemma chain_spec nusers N ws i l a :
  state_ok a -> text_ok N (out a) ws (apply_view a) -> ends_clean (mbuf (out a)) ->
  Forall (chop_now nusers a) l -> (count is_key l <= 1)%nat -> (count is_limit l <= 1)%nat ->
  exists a' ws', chain e false server mine 0 nusers i l a = Ok a' /\ state_ok a' /\
    text_ok (N + 2 * length l) (out a') ws' (apply_view a') /\
    (count is_key l = 0%nat -> mkey (amode a') = mkey (amode a)) /\
    (mlimit (amode a') = mlimit (amode a) \/ count is_limit l <> 0%nat /\ mlimit (amode a') = nusers) /\
    mmode (amode a') = mmode (amode a).
Proof.
  revert N ws i a. induction l as [|x l IH]; intros N ws i a Hs Ht He Hl Hck Hcl.
  { exists a, ws. split; [done|]. split; [done|]. simpl. rewrite Nat.add_0_r. by split_and!; [| |left|]. }
  apply Forall_cons in Hl as [Hx Hl]. cbn [chain].
  destruct (chain_sign_spec N (chop_add x) (out a) ws (apply_view a) Ht He) as [Ht1 Hsg].
  set (a1 := with_out (chain_sign (chop_add x) (out a)) a) in *.
  assert (Hs1 : state_ok a1) by (by destruct Hs). assert (Hx1 : chop_now nusers a1 x) by by destruct x.
  assert (Hlen : length (pbuf (out a1)) = length (pbuf (out a)) /\ length (npbuf (out a1)) = length (npbuf (out a))).
  { subst a1. cbn [out with_out]. unfold chain_sign. by destruct (decide _). }
  change (apply_view a) with (apply_view a1) in Ht1. change (chain_sign (chop_add x) (out a)) with (out a1) in Ht1, Hsg.
  destruct (chop_text_spec nusers a1 x Hx1) as (cp&->&Hcp). cbn [mbind result_bind].
  destruct (decide _) as [Hbig|Hsmall].
  { exists a1, ws. split; [done|]. split; [done|]. split; [|by split_and!; [|left|]]. eapply text_ok_le; [|exact Ht1]. cbn [length]. lia. }
  assert (Hfit : fits_bufs (out a1) cp) by (destruct Hlen as [E1 E2]; split; lia).
  assert (done_chop nusers (S N) ws (do_chop e false server mine 0 nusers i x cp a1) a1 x) as (a2&ws2&->&Hs2&Ht2&He2&Hk2&Hl2&Hm2).
  { destruct x as [add op who|add k|add m|]; subst cp; cbn [do_chop chop_add] in *.
    - by apply (do_member_spec _ nusers).
    - by apply (do_key_spec _ nusers).
    - by apply (do_ban_spec _ nusers).
    - by apply do_limit_spec. }
  cbn [mbind result_bind]. unfold count in Hck, Hcl. simpl in Hck, Hcl.
  destruct (IH (S (S N)) ws2 (S i) a2) as (a3&ws3&Hc3&Hs3&Ht3&Hk3&Hl3&Hm3); try done.
  - apply (chop_now_change nusers a).
    + done.
    + destruct (is_key x) eqn:Ek; [left; unfold count; simpl in Hck; lia|right; by rewrite Hk2].
    + destruct (is_limit x) eqn:El; [left; unfold count; simpl in Hcl; lia|right]. by destruct Hl2 as [->|[? _]].
  - unfold count. destruct (is_key x); simpl in Hck; lia.
  - unfold count. destruct (is_limit x); simpl in Hcl; lia.
  - exists a3, ws3. split; [done|]. split; [done|]. split; [eapply text_ok_le; [|exact Ht3]; cbn [length]; lia|].
    unfold count in *. simpl. split_and!; [|..|by rewrite Hm3, Hm2].
    + intros H0. destruct (is_key x) eqn:Ek; [done|]. by rewrite Hk3, Hk2.
    + destruct Hl3 as [->|[Hne ->]]; [destruct Hl2 as [->|[-> ->]]; [by left|right; split; [by cbn [length]|done]]|].
      right. split; [|done]. by destruct (is_limit x).
Qed.
End chain_spec.

(** * The bits as a whole *)

Lemma canal_flags_plain : Forall (fun x => plain_letter (snd x) \/ Z.land (fst x) MODE_WPARAS = fst x) canal_flags.
Proof. unfold canal_flags. repeat (apply Forall_cons; split; [first [by left; repeat split|by right]|]). constructor. Qed.

Lemma no_wparas D x :
  Z.land D MODE_WPARAS = 0 -> x ∈ canal_flags -> has D (fst x) = true -> plain_letter (snd x).
Proof.
  intros HD Hx Hd. pose proof canal_flags_plain as Hp. rewrite Forall_forall in Hp.
  destruct (Hp x Hx) as [|E]; [done|]. unfold has in Hd. apply bool_decide_eq_true in Hd. destruct Hd.
  by rewrite <- E, (Z.land_comm (fst x)), Z.land_assoc, HD.
Qed.

Lemma letters_length D l : (length (letters D l) <= length l)%nat.
Proof.
  unfold letters. induction l as [|x l IH]; [done|]. cbn [map concat length]. rewrite length_app.
  destruct (has D (fst x)); cbn [put_if length]; lia.
Qed.

Lemma heads_add_letters b ls o : what_ok o -> heads (mbuf o) -> heads (mbuf (add_letters b ls o)).
Proof.
  intros Hw Hh. unfold add_letters. destruct (decide (ls = [])); [done|]. cbn [mbuf]. unfold put_sign.
  assert (Happ : forall m, heads m -> m <> [] -> heads (m ++ ls)).
  { intros m Hm Hne c m' E. destruct m as [|y m]; [done|]. injection E as <- _. by eapply Hm. }
  destruct (decide (what o = Some b)) as [E|E]; cbn [mbuf].
  - apply Happ; [done|]. by apply (Hw b).
  - apply Happ; [by apply heads_sign|]. by intros [_ ?]%app_eq_nil.
Qed.

(** The modes that result from the changed bits *)
Definition merged (old new : Z) : Z :=
  clear (Z.lor old (Z.land (Z.land new (Z.lnot old)) all_flags)) (Z.land (Z.land old (Z.lnot new)) all_flags).

Lemma merged_has old new x : x ∈ canal_flags -> has (merged old new) (fst x) = has new (fst x).
Proof.
  intros Hx. pose proof (canal_flag_entry _ Hx) as He. unfold merged.
  assert (has all_flags (fst x) = true) as Ha.
  { assert (Forall (fun x => has all_flags (fst x) = true) canal_flags) as Hall by (apply (bool_decide_unpack _); vm_compute; exact I).
    rewrite Forall_forall in Hall. by apply Hall. }
  rewrite has_clear, has_lor, !has_land, Ha by done.
  assert (N : forall z, has (Z.lnot z) (fst x) = negb (has z (fst x))).
  { intros z. rewrite !has_entry by done. destruct He as (_&_). apply Z.lnot_spec. apply Z.log2_nonneg. }
  rewrite !N. by destruct (has old (fst x)), (has new (fst x)).
Qed.

Lemma merged_wparas old new :
  Z.land old MODE_WPARAS = 0 -> Z.land new MODE_WPARAS = 0 -> Z.land (merged old new) MODE_WPARAS = 0.
Proof.
  intros Ho Hn. apply Z.bits_inj'. intros n Hb. apply (f_equal (fun z => Z.testbit z n)) in Ho, Hn.
  unfold merged, clear in *. rewrite !Z.land_spec, Z.bits_0 in *. rewrite Z.lor_spec, Z.lnot_spec, !Z.land_spec, !Z.lnot_spec by done.
  destruct (Z.testbit old n), (Z.testbit new n), (Z.testbit all_flags n), (Z.testbit MODE_WPARAS n); done.
Qed.

Lemma flag_changes_text e v0 N old new a ws :
  mmode (amode a) = old -> Z.land old MODE_WPARAS = 0 -> Z.land new MODE_WPARAS = 0 ->
  text_ok v0 N (out a) ws (apply_view e a) -> ends_clean (mbuf (out a)) ->
  exists o, flag_changes false old new a = mkApply (with_mmode (merged old new) (amode a)) (abans a) (called a) o (bnc a) /\
    text_ok v0 (N + 2 + 2 * length canal_flags) o ws (apply_view e (flag_changes false old new a)) /\ ends_clean (mbuf o).
Proof.
  intros <- Ho Hn Ht He. set (old := mmode (amode a)) in *.
  assert (H1 : Z.land (Z.land new (Z.lnot old)) MODE_WPARAS = 0).
  { rewrite <- Z.land_assoc, (Z.land_comm (Z.lnot old)), Z.land_assoc, Hn. done. }
  assert (H2 : Z.land (Z.land old (Z.lnot new)) MODE_WPARAS = 0).
  { rewrite <- Z.land_assoc, (Z.land_comm (Z.lnot new)), Z.land_assoc, Ho. done. }
  unfold flag_changes. rewrite set_fold, clear_fold by apply canal_flags_entries. cbv zeta.
  cbn [amode abans called out bnc with_mmode mmode mlimit mkey]. destruct Ht.
  destruct (add_letters_reads v0 true (Z.land new (Z.lnot old)) canal_flags (out a) ws (apply_view e a))
    as (Hr1&Hw1&He1&Hp1&Hn1&Hl1); [apply canal_flags_entries|by intros x Hx; apply no_wparas|done|done|done|].
  pose proof (heads_add_letters true (letters (Z.land new (Z.lnot old)) canal_flags) (out a) to_what0 to_head0) as Hh1.
  pose proof (letters_length (Z.land new (Z.lnot old)) canal_flags) as Hc1.
  set (o1 := add_letters true _ (out a)) in *.
  destruct (add_letters_reads v0 false (Z.land old (Z.lnot new)) canal_flags o1 ws _
    canal_flags_entries (fun x Hx => no_wparas _ x H2 Hx) Hr1 Hw1 He1) as (Hr2&Hw2&He2&Hp2&Hn2&Hl2).
  pose proof (heads_add_letters false (letters (Z.land old (Z.lnot new)) canal_flags) o1 Hw1 Hh1) as Hh2.
  pose proof (letters_length (Z.land old (Z.lnot new)) canal_flags) as Hc2.
  eexists. split; [done|]. split; [|done]. constructor; rewrite ?Hp2, ?Hn2, ?Hp1, ?Hn1; try done. lia.
Qed.

Lemma limit_off_text e v0 N nusers limitset a ws :
  smode_ok (amode a) -> text_ok v0 N (out a) ws (apply_view e a) -> ends_clean (mbuf (out a)) ->
  exists o lim, limit_off false nusers limitset a = mkApply (mkSMode (mmode (amode a)) lim (mkey (amode a))) (abans a) (called a) o (bnc a) /\
    (lim = mlimit (amode a) \/ lim = 0 /\ nusers = 0 /\ limitset = true) /\
    text_ok v0 (N + 2) o ws (apply_view e (limit_off false nusers limitset a)) /\ ends_clean (mbuf o).
Proof.
  intros (Hm&_&_) Ht He. unfold limit_off. destruct (limitset && _ && _) eqn:Ec.
  - apply andb_true_iff in Ec as [[Hl Hn%bool_decide_eq_true]%andb_true_iff _].
    assert (clear (mmode (amode a)) MODE_LIMIT = mmode (amode a)) as ->.
    { unfold clear. apply Z.bits_inj'. intros n Hb. apply (f_equal (fun z => Z.testbit z n)) in Hm. rewrite Z.land_spec, Z.bits_0 in Hm.
      rewrite Z.land_spec, Z.lnot_spec by done. change MODE_WPARAS with (Z.lor MODE_LIMIT MODE_WPARAS) in Hm. rewrite Z.lor_spec in Hm.
      by destruct (Z.testbit (mmode (amode a)) n), (Z.testbit MODE_LIMIT n). }
    eexists _, _. split; [done|]. split; [by right|]. split; [|by apply ends_clean_snoc]. destruct Ht.
    assert (Hs : reads v0 (mbuf (put_sign false (out a))) ws (apply_view e a) /\ sign_of (mbuf (put_sign false (out a))) = false /\
      heads (mbuf (put_sign false (out a))) /\ mbuf (put_sign false (out a)) <> [] /\
      (length (mbuf (put_sign false (out a))) <= N + 1)%nat /\ what (put_sign false (out a)) = Some false /\
      pbuf (put_sign false (out a)) = pbuf (out a) /\ npbuf (put_sign false (out a)) = npbuf (out a)).
    { unfold put_sign. destruct (decide _) as [E|E]; cbn [mbuf what pbuf npbuf].
      - destruct (to_what0 _ E). split_and!; try done. lia.
      - split_and!; try done; [by apply reads_sign|apply sign_of_char|by apply heads_sign|by intros [_ ?]%app_eq_nil|].
        rewrite length_app. simpl. lia. }
    destruct Hs as (Hr&Hsg&Hh&Hne&Hlen&Hw&Hp&Hnp).
    constructor; cbn [out with_out putc mbuf pbuf npbuf what]; rewrite ?Hp, ?Hnp; try done.
    + by apply (reads_minus_l v0 _ ws (apply_view e a)).
    + intros b. cbn [putc what mbuf]. rewrite Hw. intros [= <-]. rewrite sign_of_letter by done. split; [done|]. by intros [_ ?]%app_eq_nil.
    + by apply heads_snoc.
    + rewrite length_app. simpl. lia.
  - exists (out a), (mlimit (amode a)). split; [by destruct a as [[]]|]. split; [by left|]. split; [|done].
    eapply text_ok_le; [|exact Ht]. lia.
Qed.

Lemma final_wparas ch new : Z.land (final_mode ch new) MODE_WPARAS = 0.
Proof.
  unfold final_mode. set (z := Z.lor _ _). unfold clear. by rewrite <- Z.land_assoc, (Z.land_comm (Z.lnot _)), Z.land_lnot_diag, Z.land_0_r.
Qed.

(** A bit of the final modes: asked for by the record, or not forbidden by it and set before. *)
Lemma final_has ch new x :
  x ∈ canal_flags -> has MODE_WPARAS (fst x) = false ->
  exists b, has (final_mode ch new) (fst x) =
    has (modos_obligatorios ch) (fst x) || (b && negb (has (modos_prohibidos ch) (fst x))) /\
    (has MODE_REGCHAN (fst x) = false -> has MODE_DELJOINS (fst x) = false -> b = has new (fst x)).
Proof.
  intros Hx%canal_flag_entry Hw. unfold final_mode. set (n1 := clear new _).
  set (n2 := Z.lxor n1 _). exists (has n2 (fst x)). split.
  - rewrite has_clear, has_lor, has_clear, Hw by done. rewrite andb_true_r. apply orb_comm.
  - intros Hr Hd. assert (has n1 (fst x) = has new (fst x)) as <-.
    { subst n1. rewrite has_clear, has_land, has_lor, Hr, Hd by done. cbn. by rewrite andb_false_r, andb_true_r. }
    subst n2. rewrite !has_entry in * by done. rewrite Z.lxor_spec, Z.land_spec, Hr, andb_false_r. by destruct (Z.testbit n1 _).
Qed.

Lemma final_exclusive ch new :
  exclusive new -> exclusive (modos_obligatorios ch) ->
  (has (modos_obligatorios ch) MODE_SECRET = true -> has (modos_prohibidos ch) MODE_PRIVATE = true) ->
  (has (modos_obligatorios ch) MODE_PRIVATE = true -> has (modos_prohibidos ch) MODE_SECRET = true) ->
  exclusive (final_mode ch new).
Proof.
  unfold exclusive. intros Hn Ho H1 H2.
  destruct (final_has ch new (MODE_PRIVATE, "p"%char)) as (bp&Ep&Hp); [by apply in_canal_flags; vm_compute|done|].
  destruct (final_has ch new (MODE_SECRET, "s"%char)) as (bs&Es&Hs); [by apply in_canal_flags; vm_compute|done|].
  cbn [fst] in *. rewrite Ep, Es, (Hp eq_refl eq_refl), (Hs eq_refl eq_refl). revert H1 H2 Ho Hn.
  destruct (has (modos_obligatorios ch) MODE_SECRET), (has (modos_obligatorios ch) MODE_PRIVATE); try done; cbn [orb andb];
    intros H1 H2 _; rewrite ?H1, ?H2 by done; cbn [orb andb negb]; rewrite ?andb_false_r; try done.
  destruct (has new MODE_SECRET), (has new MODE_PRIVATE); try done; intros _; cbn [orb andb negb]; by rewrite ?andb_false_r.
Qed.

(** * The whole command *)

(** The names and numerics of clients *)
Record env_ok (e : env) : Prop := {
  eo_name : forall u, word (name e u);
  eo_numnick : forall u, (length (numnick e u) <= NUMNICKLEN)%nat }.

(** A channel between two commands: no two members have the same name, the bans are
    well-formed and none waits to be sent, and the modes are. *)
Record chan_ok (e : env) (names_of : nat -> names) (ch : chanmodes) : Prop := {
  co_bans : Inv names_of (cbans ch);
  co_quiet : quiet (cbans ch);
  co_names : NoDup (map (name e) (map cptr (mems (cbans ch))));
  co_modes : smode_ok (cmode ch) }.

Section whole.
Context (e : env) (names_of : nat -> names) (He : env_ok e).

Lemma start_text ch :
  text_ok (chan_view e ch) 0 (out (start_apply ch)) [] (apply_view e (start_apply ch)) /\ ends_clean (mbuf (out (start_apply ch))).
Proof.
  split; [|apply ends_clean_nil]. constructor; cbn; try done; try (unfold MODEBUFLEN; lia).
Qed.

Lemma chop_wf_now ch p x a :
  chop_wf ch p x -> parse_ok ch p ->
  mkey (amode a) = mkey (cmode ch) -> (mlimit (amode a) = mlimit (cmode ch) \/ nusers p = 0) ->
  chop_now (map cptr (mems (cbans ch))) (nusers p) a x.
Proof.
  intros Hx Hp Hk Hl. destruct x as [add op who|add k|add m|]; simpl in *.
  - destruct Hx as [l Hf]. apply find_user_link_in in Hf as [<- Hin]. by apply list_elem_of_fmap_2.
  - destruct add; rewrite Hk; naive_solver.
  - done.
  - destruct Hx as (_&Hn&_). pose proof (po_nusers _ _ Hp). pose proof (po_fresh _ _ Hp) as Hf. split; [lia|].
    destruct Hf as [|Hf]; [lia|]. destruct Hl as [->|]; [done|lia].
Qed.

Lemma apply_modes_spec ch p new :
  chan_ok e names_of ch -> parse_ok ch p -> Z.land new MODE_WPARAS = 0 ->
  exists a ws, apply_modes e false false true 0 ch p new = Ok a /\
    Inv names_of (abans a) /\ quiet (abans a) /\ map cptr (mems (abans a)) = map cptr (mems (cbans ch)) /\ smode_ok (amode a) /\
    text_ok (chan_view e ch) (MODEBUFLEN - 1) (out a) ws (apply_view e a) /\
    mmode (amode a) = merged (mmode (cmode ch)) new /\
    (count is_key (chops p) = 0%nat -> mkey (amode a) = mkey (cmode ch)) /\
    (mlimit (amode a) = mlimit (cmode ch) \/ count is_limit (chops p) <> 0%nat /\ mlimit (amode a) = nusers p \/
     mlimit (amode a) = 0 /\ nusers p = 0 /\ limitset p = true).
Proof.
  intros [Hi Hq Hnd Hmd] Hp Hnew. unfold apply_modes. pose proof Hmd as (Hw&Hlr&Hkr).
  destruct (start_text ch) as [Ht0 He0].
  destruct (flag_changes_text e (chan_view e ch) 0 (mmode (cmode ch)) new (start_apply ch) []) as (o1&E1&Ht1&He1); try done.
  rewrite E1 in *. set (a1 := mkApply _ _ _ o1 _) in *.
  assert (Hmd1 : smode_ok (amode a1)) by (split; [by apply merged_wparas|done]).
  destruct (limit_off_text e (chan_view e ch) (0 + 2 + 2 * length canal_flags) (nusers p) (limitset p) a1 []) as (o2&lim&E2&Hlim&Ht2&He2); try done.
  rewrite E2 in *. set (a2 := mkApply _ _ _ o2 _) in *.
  assert (Hs2 : state_ok names_of (map cptr (mems (cbans ch))) a2).
  { constructor; try done. split; [by apply merged_wparas|]. split; [|done]. cbn [a2 amode mlimit].
    destruct Hlim as [->|[-> _]]; [done|lia]. }
  destruct (chain_spec e false true names_of (eo_name e He) (eo_numnick e He) (map cptr (mems (cbans ch))) Hnd (chan_view e ch)
    (nusers p) (0 + 2 + 2 * length canal_flags + 2) [] 0 (chops p) a2) as (a3&ws&E3&Hs3&Ht3&Hk3&Hl3&Hm3); try done.
  - eapply Forall_impl; [exact (po_chops _ _ Hp)|]. intros x Hx. apply (chop_wf_now ch p); try done.
    cbn [a2 amode mlimit]. destruct Hlim as [->|(_&?&_)]; [by left|by right].
  - pose proof (po_key _ _ Hp). destruct (keychange p); lia.
  - pose proof (po_limit _ _ Hp). destruct (limitset p); lia.
  - rewrite E3. cbn [mbind result_bind]. pose proof (po_full _ _ Hp) as Hfull.
    assert (Hlen : (0 + 2 + 2 * length canal_flags + 2 + 2 * length (chops p) <= MODEBUFLEN - 1)%nat).
    { unfold MAXMODEPARAMS, MODEBUFLEN in *. cbn [canal_flags length]. lia. }
    assert (exists b, (if called a3 then drain (S (length (removed_bans_list (abans a3)))) (abans a3) else Ok (abans a3)) = Ok b /\
      blist b = blist (abans a3) /\ mems b = mems (abans a3) /\ quiet b) as (b&->&Eb&Em&Hqb).
    { destruct (called a3) eqn:Ec; [apply drain_spec; lia|]. exists (abans a3). split_and!; try done. by apply (so_quiet _ _ _ Hs3). }
    cbn [mbind result_bind]. exists (with_abans b a3), ws. split; [done|]. cbn [abans amode out with_abans].
    destruct Hs3 as [Hi3 _ Hc3 Hmd3]. split_and!.
    + destruct Hi3. constructor; by rewrite ?Eb, ?Em.
    + done.
    + by rewrite Em.
    + done.
    + eapply text_ok_le; [exact Hlen|]. unfold apply_view in *. cbn [amode abans with_abans].
      by rewrite (view_of_mems e _ (abans a3)) by by rewrite Em.
    + by rewrite Hm3.
    + done.
    + destruct Hl3 as [->|]; [|by right; left]. cbn [a2 amode mlimit]. destruct Hlim as [->|(->&?&?)]; [by left|by right; right].
Qed.
End whole.

Definition is_chanop (e : env) (ch : chanmodes) : bool :=
  match (if services_bot e then None else member (mems (cbans ch)) (sptr e)) with Some l => has (lflags l) CHFL_CHANOP | None => false end.

(** The client does not speak as a member of the channel, nor as a service. *)
Definition outsider (e : env) (ch : chanmodes) : bool :=
  negb (services_bot e) && bool_decide (member (mems (cbans ch)) (sptr e) = None).

(** The client is entitled to change modes. *)
Definition entitled (e : env) (ch : chanmodes) (botmode : bool) : bool := botmode || services_bot e || is_chanop e ch.

(** The change is not sent back. *)
Definition accepted (e : env) (ch : chanmodes) (botmode : bool) : bool :=
  services_bot e || botmode ||
  negb (is_deopped (cbans ch) (sptr e) && mode_priv e && negb (IsOperOnLocalChannel e (sptr e) (cname ch))).

(** What a client has to keep to, so that the command is within what the code provides for *)
Record request_ok (e : env) (ch : chanmodes) (args : list cstring) : Prop := {
  ro_bot : services_bot e && IsOperOnLocalChannel e (sptr e) (cname ch) = false;
  ro_args : Forall (arg_ok ch) (tail args) }.

Lemma set_mode_local_cases e ch botmode args :
  request_ok e ch args ->
  exists p, parse_modes e ch args = Ok p /\ parse_ok ch p /\
    (outsider e ch = true -> set_mode_local e ch botmode args = Ok (ch, mkAnswer 0 [] [] [])) /\
    (outsider e ch = false -> entitled e ch botmode = false -> exists r, (r = 0 \/ r = -1) /\
       set_mode_local e ch botmode args = Ok (no_invites p ch, mkAnswer r [] [] [])) /\
    (outsider e ch = false -> entitled e ch botmode = true ->
       set_mode_local e ch botmode args =
       (a ← apply_modes e (negb (accepted e ch botmode)) false true 0 (no_invites p ch) p (final_mode ch (newmode p));
        Ok (mkChan (cname ch) (amode a) (modos_obligatorios ch) (modos_prohibidos ch) (abans a) (cinvites (no_invites p ch)),
            mkAnswer (-1) (mbuf (out a)) (pbuf (out a)) (npbuf (out a))))).
Proof.
  intros [Hb Ha]. destruct (parse_modes_ok e ch args Ha) as (p&Ep&Hp). exists p. split; [done|]. split; [done|].
  unfold set_mode_local, outsider, entitled, is_chanop, accepted in *. destruct (services_bot e) eqn:Es; cbn [negb andb orb] in *.
  - rewrite Hb, Ep, orb_true_r. cbn [mbind result_bind negb andb]. split_and!; [done|done|]. intros _ _. by rewrite andb_false_r.
  - destruct (member (mems (cbans ch)) (sptr e)) as [l|] eqn:El; [|by rewrite bool_decide_eq_true_2].
    rewrite (bool_decide_eq_false_2 (Some l = None)) by done. split; [done|].
    assert ((if IsOperOnLocalChannel e (sptr e) (cname ch) then Ok tt else Ok tt) = Ok tt) as -> by by destruct (IsOperOnLocalChannel _ _ _).
    rewrite Ep. cbn [mbind result_bind]. rewrite !orb_false_r, andb_true_r. destruct botmode; cbn [negb andb orb].
    + split; [done|]. intros _ _. done.
    + split; intros _ ->; cbn [negb].
      * eexists. split; [|done]. by destruct (_ || _); [left|right].
      * by rewrite negb_involutive.
Qed.

Lemma chan_ok_invites e names_of p ch : chan_ok e names_of ch -> chan_ok e names_of (no_invites p ch).
Proof. by intros []; constructor. Qed.

(** ** The text tells what has been done *)



(** ** Who may change modes *)


(** ** What the record of the channel asks for *)

(** The channel follows its record. *)
Record follows (ch : chanmodes) : Prop := {
  fo_excl : exclusive (mmode (cmode ch));
  fo_flags : forall x, x ∈ canal_flags -> has MODE_WPARAS (fst x) = false ->
    (has (modos_obligatorios ch) (fst x) = true -> has (mmode (cmode ch)) (fst x) = true) /\
    (has (modos_obligatorios ch) (fst x) = false -> has (modos_prohibidos ch) (fst x) = true -> has (mmode (cmode ch)) (fst x) = false) }.

(** What db_alta() of s_bdd.c makes of the modes of a record *)
Definition from_record (ch : chanmodes) : Prop :=
  exists modos add del, mascara_canal_flags modos = (add, del) /\
    modos_obligatorios ch = Z.lor add MODE_REGCHAN /\ modos_prohibidos ch = clear del MODE_REGCHAN.

Lemma count_none (f : chop -> bool) (P : chop -> Prop) l :
  Forall P l -> (forall x, P x -> f x = false) -> count f l = 0%nat.
Proof. intros Hl Hf. unfold count. induction Hl as [|x l Hx Hl IH]; [done|]. simpl. by rewrite (Hf x Hx). Qed.

Lemma record_exclusive ch :
  from_record ch ->
  exclusive (modos_obligatorios ch) /\
  (has (modos_obligatorios ch) MODE_SECRET = true -> has (modos_prohibidos ch) MODE_PRIVATE = true) /\
  (has (modos_obligatorios ch) MODE_PRIVATE = true -> has (modos_prohibidos ch) MODE_SECRET = true).
Proof.
  intros (modos&add&del&(_&_&Hx&Hs&Hp&_)%mascara_spec&->&->). unfold exclusive in *.
  rewrite has_lor_secret, has_lor_private, has_clear_secret, has_clear_private.
  change (has MODE_REGCHAN MODE_SECRET) with false. change (has MODE_REGCHAN MODE_PRIVATE) with false.
  cbn [negb]. by rewrite !orb_false_r, !andb_true_r.
Qed.

Lemma final_follows ch ch' old new :
  exclusive new -> from_record ch -> mmode (cmode ch') = merged old (final_mode ch new) ->
  modos_obligatorios ch' = modos_obligatorios ch -> modos_prohibidos ch' = modos_prohibidos ch -> follows ch'.
Proof.
  intros Hn Hr Em Eo Ep. destruct (record_exclusive ch Hr) as (Hx&Hs&Hp). constructor; rewrite Em, ?Eo, ?Ep.
  - pose proof (final_exclusive ch new Hn Hx Hs Hp) as Hf. unfold exclusive in *.
    assert ((MODE_SECRET, "s"%char) ∈ canal_flags) as H1 by (apply in_canal_flags; by vm_compute).
    assert ((MODE_PRIVATE, "p"%char) ∈ canal_flags) as H2 by (apply in_canal_flags; by vm_compute).
    apply (merged_has old (final_mode ch new)) in H1, H2. cbn [fst] in *. by rewrite H1, H2.
  - intros x Hin Hw. rewrite merged_has by done. destruct (final_has ch new x Hin Hw) as (b&->&_). split.
    + by intros ->.
    + intros -> ->. by rewrite andb_false_r.
Qed.

(** What the waiting changes leave of the key and the limit that the record settles *)
Definition settled (ch ch' : chanmodes) : Prop :=
  (has (modos_obligatorios ch) MODE_KEY = true -> mkey (cmode ch) <> None -> mkey (cmode ch') = mkey (cmode ch)) /\
  (has (modos_prohibidos ch) MODE_KEY = true -> mkey (cmode ch) = None -> mkey (cmode ch') = None) /\
  (has (modos_obligatorios ch) MODE_LIMIT = true -> mlimit (cmode ch) <> 0 -> mlimit (cmode ch') <> 0) /\
  (has (modos_prohibidos ch) MODE_LIMIT = true -> mlimit (cmode ch') = mlimit (cmode ch) \/ mlimit (cmode ch') = 0).

Lemma settled_chops ch ch' p :
  parse_ok ch p ->
  (count is_key (chops p) = 0%nat -> mkey (cmode ch') = mkey (cmode ch)) ->
  (mlimit (cmode ch') = mlimit (cmode ch) \/ count is_limit (chops p) <> 0%nat /\ mlimit (cmode ch') = nusers p \/
   mlimit (cmode ch') = 0 /\ nusers p = 0 /\ limitset p = true) -> settled ch ch'.
Proof.
  intros Hp Hk Hl. pose proof (po_chops _ _ Hp) as Hc.
  assert (Hnk : (forall x, chop_wf ch p x -> is_key x = false) -> mkey (cmode ch') = mkey (cmode ch)).
  { intros H. apply Hk. by eapply count_none. }
  split_and!.
  - intros Ho Hne. apply Hnk. intros [| [] | |]; simpl; try done.
    + intros [H _]. by rewrite H in Hne.
    + intros [_ H]. by rewrite H in Ho.
  - intros Ho Hne. rewrite <- Hne. apply Hnk. intros [| [] | |]; simpl; try done.
    + intros (_&H&_). by rewrite H in Ho.
    + intros [H _]. by rewrite H in Hne.
  - intros Ho Hne. destruct Hl as [->|[[Hn ->]|(_&Hz&Hs)]]; [done| |].
    + intros Hz. destruct Hn. eapply count_none; [exact Hc|]. intros [| [] | |]; simpl; try done. intros (_&?&_). lia.
    + by rewrite (po_oblig _ _ Hp Hs Hz) in Ho.
  - intros Ho. destruct Hl as [->|[[Hn _]|(->&_)]]; [by left| |by right].
    destruct Hn. eapply count_none; [exact Hc|]. intros [| [] | |]; simpl; try done. intros (_&_&H). by rewrite H in Ho.
Qed.

(** C22. A MODE of a client of this server that is carried out (it is not sent back, and no
    parameter is the limit which is already set) leaves a registered channel that follows its record
    following it; set_mode_remoto() is not covered, it does not look at the record. A mode the record
    asks for stays set, a mode it forbids stays cleared, +s and +p are never both set, a key
    that is asked for is neither removed nor replaced and a forbidden one is not set, and the same holds of the
    limit. The modes the record asks for and forbids are those of the record. *)
Theorem set_mode_local_follows_record e names_of ch botmode args :
  env_ok e -> chan_ok e names_of ch -> request_ok e ch args -> accepted e ch botmode = true ->
  from_record ch -> follows ch ->
  exists ch' a, set_mode_local e ch botmode args = Ok (ch', a) /\ follows ch' /\ from_record ch' /\ settled ch ch'.
Proof.
  intros He Hch Hreq Hacc Hrec Hfo. destruct (set_mode_local_cases e ch botmode args Hreq) as (p&_&Hp&H1&H2&H3).
  assert (Hsame : forall ch', cmode ch' = cmode ch -> settled ch ch').
  { intros ch' E. unfold settled. rewrite !E. split_and!; try done; [by left|by left..]. }
  destruct (outsider e ch) eqn:Eo.
  { eexists _, _. rewrite (H1 eq_refl). by split_and!; try apply Hsame. }
  destruct (entitled e ch botmode) eqn:Ee.
  - rewrite (H3 eq_refl eq_refl), Hacc. cbn [negb].
    destruct (apply_modes_spec e names_of He (no_invites p ch) p (final_mode ch (newmode p)))
      as (a&ws&->&_&_&_&_&_&Hm&Hk&Hl); [by apply chan_ok_invites|by destruct Hp|apply final_wparas|].
    cbn [mbind result_bind]. eexists _, _. split; [done|]. split_and!.
    + eapply (final_follows ch); [|done|exact Hm|done|done]. apply (po_excl _ _ Hp), Hfo.
    + done.
    + by apply (settled_chops ch _ p).
  - destruct (H2 eq_refl eq_refl) as (r&_&->). eexists _, _. split; [done|]. split_and!; [by destruct Hfo|done|by apply Hsame].
Qed.

(** * Examples *)

(** Five clients on a channel that is registered with the modes +nt-s *)
Definition mode_names (u : nat) : cstring :=
  match u with 1%nat => str "ana" | 2%nat => str "Xan" | 3%nat => str "Yago" | 4%nat => str "Zoe" | _ => str "otro" end.
Definition mode_chasing (s : cstring) : option nat :=
  list_find (fun u => mode_names u = s) [1; 2; 3; 4; 5]%nat ≫= fun x => Some x.2.
Definition mode_env (u : nat) : env :=
  mkEnv u false false mode_chasing (fun _ => false) (fun _ => false) (fun _ => false) mode_names (fun _ => str "ABAAB") 100 50.
Definition mode_bans : bans :=
  mkBans [mkBan 1 (str "*!*@*.example.net") (str "op") 100 CHFL_BAN]
    [mkLink 1 CHFL_CHANOP; mkLink 2 0; mkLink 3 CHFL_CHANOP; mkLink 4 0; mkLink 5 CHFL_CHANOP] None None [].
Definition mode_record : Z * Z := mascara_canal_flags (str "+nt-s").
Definition mode_chan : chanmodes :=
  mkChan (str "#canal") (mkSMode (Z.lor (fst mode_record) MODE_REGCHAN) 0 None)
    (Z.lor (fst mode_record) MODE_REGCHAN) (clear (snd mode_record) MODE_REGCHAN) mode_bans [9%nat].
Definition mode_args : list cstring :=
  [str "-t+mso-o+bl-b"; str "Xan"; str "Yago"; str "*.com"; str "25"; str "*!*@*.example.net"].

(** What is announced, the modes and the flags of the members *)
Definition announced (r : result (chanmodes * answer)) : result (Z * (string * string) * (Z * Z) * list Z) :=
  '(ch, a) ← r;
  Ok (ret a, (string_of_list_ascii (r_mbuf a), string_of_list_ascii (r_pbuf a)), (mmode (cmode ch), mlimit (cmode ch)),
      map lflags (mems (cbans ch))).

(** -t and +s are not done: the record forbids them. *)
Example mode_example :
  announced (set_mode_local (mode_env 1) mode_chan false mode_args) =
  Ok (-1, ("+mo-o+bl-b"%string, "Xan Yago *!*@*.com 25 *!*@*.example.net "%string), (mmode (cmode mode_chan) + MODE_MODERATED, 25), [1; 1; 0; 0; 1]).
Proof. vm_compute. reflexivity. Qed.

Lemma mode_env_ok u : env_ok (mode_env u).
Proof.
  constructor; [|cbn; unfold NUMNICKLEN; lia]. intros [|[|[|[|[|v]]]]]; apply (bool_decide_unpack _); vm_compute; exact I.
Qed.

Lemma mode_chan_ok u : chan_ok (mode_env u) (fun _ => example_names) mode_chan.
Proof.
  constructor; [constructor|..].
  - apply (bool_decide_unpack _). vm_compute. exact I.
  - repeat constructor.
  - repeat (apply Forall_cons; split; [intros H; exfalso; revert H; vm_compute; discriminate|]). constructor.
  - done.
  - apply (bool_decide_unpack _). vm_compute. exact I.
  - split; [done|]. split; [vm_compute; split; [discriminate|done]|done].
Qed.

Lemma mode_request_ok u : request_ok (mode_env u) mode_chan mode_args.
Proof.
  constructor; [done|]. apply (bool_decide_unpack _). vm_compute. exact I.
Qed.



(** Witness of [set_mode_local_follows_record]. *)
Lemma set_mode_local_follows_record_witness :
  exists ch' a, set_mode_local (mode_env 1) mode_chan false mode_args = Ok (ch', a) /\
    follows ch' /\ from_record ch' /\ settled mode_chan ch'.
Proof.
  apply (set_mode_local_follows_record (mode_env 1) (fun _ => example_names) mode_chan false mode_args).
  - apply mode_env_ok.
  - apply mode_chan_ok.
  - apply mode_request_ok.
  - vm_compute. reflexivity.
  - exists (str "+nt-s"), (fst mode_record), (snd mode_record). by vm_compute.
  - constructor; [by vm_compute|].
    assert (Forall (fun x => has MODE_WPARAS (fst x) = false ->
      (has (modos_obligatorios mode_chan) (fst x) = true -> has (mmode (cmode mode_chan)) (fst x) = true) /\
      (has (modos_obligatorios mode_chan) (fst x) = false -> has (modos_prohibidos mode_chan) (fst x) = true ->
        has (mmode (cmode mode_chan)) (fst x) = false)) canal_flags) as H by (apply (bool_decide_unpack _); vm_compute; exact I).
    rewrite Forall_forall in H. exact H.
Defined.

(** * What goes wrong *)

(** A member without op who sends -i to a channel deletes the invitations that others have
    made: they are taken from the list before the code looks whether the client may
    change modes, although nothing is changed otherwise and nothing is announced. *)
Theorem uninvite_without_op e ch l :
  services_bot e = false -> IsOperOnLocalChannel e (sptr e) (cname ch) = false ->
  member (mems (cbans ch)) (sptr e) = Some l -> has (lflags l) CHFL_CHANOP = false ->
  exists r, set_mode_local e ch false [str "-i"] =
    Ok (mkChan (cname ch) (cmode ch) (modos_obligatorios ch) (modos_prohibidos ch) (cbans ch) [], mkAnswer r [] [] []).
Proof.
  intros Hb Hl Hm Ho. unfold set_mode_local. rewrite Hb, Hl, Hm. cbn [negb andb].
  rewrite (bool_decide_eq_false_2 (Some l = None)) by done. cbn [mbind result_bind].
  assert (exists p, parse_modes e ch [str "-i"] = Ok p /\ uninvited p = true) as (p&->&Hu) by by eexists.
  cbn [mbind result_bind]. rewrite Ho. cbn [negb andb]. eexists. unfold no_invites. by rewrite Hu.
Qed.

(** Witness of [uninvite_without_op]. *)
Lemma uninvite_without_op_witness :
  exists r, set_mode_local (mode_env 4) mode_chan false [str "-i"] =
    Ok (mkChan (cname mode_chan) (cmode mode_chan) (modos_obligatorios mode_chan) (modos_prohibidos mode_chan) (cbans mode_chan) [],
        mkAnswer r [] [] []).
Proof.
  apply (uninvite_without_op (mode_env 4) mode_chan (mkLink 4 0)); vm_compute; reflexivity.
Defined.

(** A channel that is moderated and has the limit 10 *)
Definition limit_chan : chanmodes := mkChan (str "#canal") (mkSMode MODE_MODERATED 10 None) 0 0 mode_bans [].

(** Why no parameter may be the limit that is set: it leaves a plus in the text, and the
    variables that remember the sign are wrong from then on. An operator can op somebody while
    the others are told that he was deopped; or op somebody in a text of one letter, which is not sent
    at all; or make the code read the byte before the buffer of the text. *)
Theorem repeated_limit_confuses :
  announced (set_mode_local (mode_env 1) limit_chan false [str "-m+l-o+oo"; str "10"; str "Xan"; str "Yago"; str "Zoe"]) =
    Ok (-1, ("-mo"%string, "Zoe "%string), (0, 10), [1; 0; 1; 1; 1]) /\
  announced (set_mode_local (mode_env 1) limit_chan false [str "+l-o+ov"; str "10"; str "Xan"; str "Yago"; str "Zoe"]) =
    Ok (-1, ("v"%string, "Zoe "%string), (MODE_MODERATED, 10), [1; 0; 1; CHFL_VOICE; 1]) /\
  set_mode_local (mode_env 1) limit_chan false [str "+l-o+oo"; str "10"; str "Xan"; str "Yago"; str "otro"] = Ub.
Proof. split; [vm_compute; reflexivity|]. split; vm_compute; reflexivity. Qed.
