(* ===== verification/Address.v ===== *)
(** Address: IP addresses as text, and tokens (ircd/support.c).

    An address is the list of its eight words in host order.  A text is read
    through the rest of it from the current position on, so that [*p] is the head or
    the terminator; the position itself is counted beside it, since it is the
    answer.  ipmask_parse() leaves the number of bits in [*pbits], if the pointer is not null
    ([pbits] below); in one case it writes nothing there, and the result is [None]. *)

From S2P Require Import Prelude Common Numnicks IPcheck.

Definition SOCKIPLEN : nat := 45.

(** * Writing an address *)

Definition IpQuadTab : list string := [
  "0"; "1"; "2"; "3"; "4"; "5"; "6"; "7"; "8"; "9"; "10"; "11"; "12"; "13"; "14"; "15";
  "16"; "17"; "18"; "19"; "20"; "21"; "22"; "23"; "24"; "25"; "26"; "27"; "28"; "29"; "30"; "31";
  "32"; "33"; "34"; "35"; "36"; "37"; "38"; "39"; "40"; "41"; "42"; "43"; "44"; "45"; "46"; "47";
  "48"; "49"; "50"; "51"; "52"; "53"; "54"; "55"; "56"; "57"; "58"; "59"; "60"; "61"; "62"; "63";
  "64"; "65"; "66"; "67"; "68"; "69"; "70"; "71"; "72"; "73"; "74"; "75"; "76"; "77"; "78"; "79";
  "80"; "81"; "82"; "83"; "84"; "85"; "86"; "87"; "88"; "89"; "90"; "91"; "92"; "93"; "94"; "95";
  "96"; "97"; "98"; "99"; "100"; "101"; "102"; "103"; "104"; "105"; "106"; "107"; "108"; "109"; "110"; "111";
  "112"; "113"; "114"; "115"; "116"; "117"; "118"; "119"; "120"; "121"; "122"; "123"; "124"; "125"; "126"; "127";
  "128"; "129"; "130"; "131"; "132"; "133"; "134"; "135"; "136"; "137"; "138"; "139"; "140"; "141"; "142"; "143";
  "144"; "145"; "146"; "147"; "148"; "149"; "150"; "151"; "152"; "153"; "154"; "155"; "156"; "157"; "158"; "159";
  "160"; "161"; "162"; "163"; "164"; "165"; "166"; "167"; "168"; "169"; "170"; "171"; "172"; "173"; "174"; "175";
  "176"; "177"; "178"; "179"; "180"; "181"; "182"; "183"; "184"; "185"; "186"; "187"; "188"; "189"; "190"; "191";
  "192"; "193"; "194"; "195"; "196"; "197"; "198"; "199"; "200"; "201"; "202"; "203"; "204"; "205"; "206"; "207";
  "208"; "209"; "210"; "211"; "212"; "213"; "214"; "215"; "216"; "217"; "218"; "219"; "220"; "221"; "222"; "223";
  "224"; "225"; "226"; "227"; "228"; "229"; "230"; "231"; "232"; "233"; "234"; "235"; "236"; "237"; "238"; "239";
  "240"; "241"; "242"; "243"; "244"; "245"; "246"; "247"; "248"; "249"; "250"; "251"; "252"; "253"; "254"; "255"
]%string.

Definition quad (b : Z) : result cstring := s ← of_option (IpQuadTab !! Z.to_nat b); Ok (str s).

Definition hexdigits : list ascii := str "0123456789abcdef".
Definition hexdigit (d : Z) : ascii := nth (Z.to_nat d) hexdigits NUL.

(** A word without its leading zeros *)
Definition hex (part : Z) : list ascii :=
  (if decide (0x1000 <= part) then [hexdigit (Z.shiftr part 12)] else []) ++
  (if decide (0x100 <= part) then [hexdigit (Z.land (Z.shiftr part 8) 15)] else []) ++
  (if decide (0x10 <= part) then [hexdigit (Z.land (Z.shiftr part 4) 15)] else []) ++
  [hexdigit (Z.land part 15)].

(** The loop that prints; [ii] jumps over the run of zeros. *)
Fixpoint print_loop (fuel : nat) (a : ip_addr) (max_start max_zeros ii : nat) (buf : list ascii) : result (list ascii) :=
  match fuel with
  | O => Fuel
  | S fuel =>
      if decide (ii < 8)%nat then
        if decide (0 < max_zeros /\ ii = max_start)%nat then
          print_loop fuel a max_start max_zeros (ii + max_zeros) (buf ++ [":"%char])
        else
          part ← seg a ii;
          print_loop fuel a max_start max_zeros (S ii)
            (buf ++ hex part ++ (if decide (ii < 7)%nat then [":"%char] else []))
      else Ok buf
  end.

(** The loop that looks for zeros is the one of iptobase64(), from the second word on. *)
Definition ircd_ntoa_r (a : ip_addr) : result cstring :=
  if irc_in_addr_is_ipv4 a then
    hi ← seg a 6; lo ← seg a 7;
    b0 ← quad (Z.shiftr hi 8); b1 ← quad (Z.land hi 255); b2 ← quad (Z.shiftr lo 8); b3 ← quad (Z.land lo 255);
    Ok (b0 ++ "."%char :: b1 ++ "."%char :: b2 ++ "."%char :: b3)
  else
    '(max_start, max_zeros) ← zero_run a 1;
    print_loop 9 a max_start max_zeros 0 [].

(** [part_init] and [part_final] of one word: the bits from [jmin] on *)
Fixpoint range_bits (j : nat) (jmin part : Z) (pi pf : Z) : Z * Z :=
  let go := if decide (Z.of_nat j < jmin) then (pi, pf)
            else (Z.land pi (Z.lnot part), Z.lor pf part) in
  match j with
  | O => go
  | S j => range_bits j jmin (part * 2) go.1 go.2
  end.

Fixpoint range_words (i : Z) (div bits : Z) (a : ip_addr) : ip_addr * ip_addr :=
  match a with
  | [] => ([], [])
  | x :: a =>
      let '(ini, fin) := range_words (i + 1) div bits a in
      if decide (i < div) then (x :: ini, x :: fin)
      else
        let jmin := if decide (i = div) then bits - div * 16 else 0 in
        let '(pi, pf) := range_bits 15 jmin 1 x x in
        (pi :: ini, pf :: fin)
  end.

(** [init] and [final] *)
Definition ipmask_range (a : ip_addr) (bits : Z) : ip_addr * ip_addr :=
  let bits := if irc_in_addr_is_ipv4 a then bits + 96 else bits in
  range_words 0 (bits / 16) bits a.

(** The default number of bits *)
Definition cidr_bits (a : ip_addr) (bits : Z) : Z :=
  if decide (bits = 0) then
    (if irc_in_addr_is_ipv4 a then 32 else if decide (nth 0 a 0 = 0x2002) then 48 else 64)
  else bits.

Definition ircd_ntoa_cidr_r (a : ip_addr) (bits : Z) : result cstring :=
  let is_ipv4 := irc_in_addr_is_ipv4 a in
  let bits := cidr_bits a bits in
  if (is_ipv4 && bool_decide (bits = 32)) || (negb is_ipv4 && bool_decide (bits = 128)) then ircd_ntoa_r a
  else t ← ircd_ntoa_r (ipmask_range a bits).1; Ok (t ++ "/"%char :: dec bits).

(** * Reading an address *)

(** [part << (24 - 8 * dots)], an unsigned shift *)
Definition shift_in (ip part dots : Z) : result Z :=
  let n := u32 (24 - 8 * dots) in
  if decide (n < 32) then Ok (Z.lor ip (u32 (Z.shiftl part n))) else Ub.

(** [while (input[++pos] == c || ...)]: what is left, and how many were passed *)
Fixpoint skip_while (f : ascii -> bool) (s : cstring) (pos : nat) : cstring * nat :=
  match s with
  | c :: s' => if f c then skip_while f s' (S pos) else (s, pos)
  | [] => ([], pos)
  end.

(** [for (bits = 0; isDigit(input[++pos]); ) bits = bits * 10 + input[pos] - '0';] *)
Fixpoint read_num (s : cstring) (pos : nat) (n : Z) : Z * cstring * nat :=
  match s with
  | c :: s' => if isDigit c then read_num s' (S pos) (u32 (n * 10 + schar c - 48)) else (n, s, pos)
  | [] => (n, [], pos)
  end.

Definition num_digit (c : ascii) : bool := bool_decide (48 <= uchar c <= 57).

(** The number of characters, the address and the bits; [None] when 0 is returned *)
Fixpoint aton_loop (s : cstring) (pbits : bool) (pos : nat) (dots part ip : Z) : result (option (nat * Z * Z)) :=
  match s with
  | [] =>
      if decide (dots < 3) then Ok None
      else ip ← shift_in ip part dots; Ok (Some (pos, ip, 32))
  | c :: s =>
      if decide (c = "."%char) then
        if decide (chr s = "."%char) then Ok None
        else
          ip ← shift_in ip part dots;
          let dots := dots + 1 in
          if decide (chr s = "*"%char) then
            let '(s, pos) := skip_while (fun c => bool_decide (c = "*"%char \/ c = "."%char)) (adv s) (pos + 2) in
            if decide (s <> []) then Ok None else Ok (Some (pos, ip, u8 (dots * 8)))
          else aton_loop s pbits (S pos) dots 0 ip
      else if decide (c = "/"%char) then
        if negb pbits || negb (isDigit (chr s)) then Ok None
        else
          let '(bits, s, pos) := read_num s (S pos) 0 in
          if decide (32 < bits) then Ok None
          else ip ← shift_in ip part dots; Ok (Some (pos, ip, bits))
      else if num_digit c then
        let part := part * 10 + (uchar c - 48) in
        if decide (255 < part) then Ok None else aton_loop s pbits (S pos) dots part ip
      else Ok None
  end.

Definition ircd_aton_ip4 (input : cstring) (pbits : bool) : result (option (nat * Z * Z)) :=
  if decide (chr input = "."%char) then Ok None else aton_loop input pbits 0 0 0 0.

(** ** The words after "::" are shifted up *)

Fixpoint shift_up (n jj : nat) (ii : nat) (ip : ip_addr) : result ip_addr :=
  match n with
  | O => Ok ip
  | S n => x ← rd ip (ii - jj - 1); ip ← wr ip (7 - jj) x; shift_up n (S jj) ii ip
  end.
Fixpoint zero_words (n jj : nat) (colon : nat) (ip : ip_addr) : result ip_addr :=
  match n with
  | O => Ok ip
  | S n => ip ← wr ip (colon + jj) 0; zero_words n (S jj) colon ip
  end.
Definition finish (colon ii : nat) (ip : ip_addr) : result ip_addr :=
  if decide (colon < 8)%nat then ip ← shift_up (ii - colon) 0 ii ip; zero_words (8 - ii) 0 colon ip
  else Ok ip.

Definition hexval (c : ascii) : option Z :=
  let u := uchar c in
  if decide (48 <= u <= 57) then Some (u - 48)
  else if decide (65 <= u <= 70) then Some (u - 65 + 10)
  else if decide (97 <= u <= 102) then Some (u - 97 + 10)
  else None.

(** [ps] is what is left from [part_start] on, with its position. *)
Fixpoint parse_loop (fuel : nat) (s : cstring) (pbits : bool) (pos : nat) (part : Z) (ii colon : nat)
    (ps : option (cstring * nat)) (ip : ip_addr) : result (option (nat * ip_addr * option Z)) :=
  match fuel with
  | O => Fuel
  | S fuel =>
      let done_ pos ii ip bits := ip ← finish colon ii ip; Ok (Some (pos, ip, bits)) in
      if decide (8 <= ii)%nat then done_ pos ii ip None
      else match s with
      | [] =>
          ip ← wr ip ii part;
          if decide (colon = 8 /\ S ii < 8)%nat then Ok None else done_ pos (S ii) ip (Some 128)
      | c :: s =>
          match hexval c with
          | Some v =>
              let part := Z.lor (u32 (Z.shiftl part 4)) v in
              if decide (0xffff < part) then Ok None else parse_loop fuel s pbits (S pos) part ii colon ps ip
          | None =>
              if decide (c = ":"%char) then
                if decide (chr s = "."%char) then Ok None
                else
                  ip ← wr ip ii part;
                  if decide (chr s = ":"%char) then
                    if decide (colon < 8)%nat then Ok None
                    else parse_loop fuel (adv s) pbits (pos + 2) 0 (S ii) (S ii) (Some (s, S pos)) ip
                  else parse_loop fuel s pbits (S pos) 0 (S ii) colon (Some (s, S pos)) ip
              else if decide (c = "."%char) then
                '(ps, start) ← of_option ps;
                r ← ircd_aton_ip4 ps pbits;
                match r with
                | None => Ok None
                | Some (len, ip4, bits) =>
                    if decide (6 < ii)%nat then Ok None
                    else
                      ip ← wr ip ii (Z.shiftr ip4 16); ip ← wr ip (S ii) (Z.land ip4 65535);
                      done_ (start + len)%nat (S (S ii)) ip (Some (u8 (bits + 96)))
                end
              else if decide (c = "/"%char) then
                if negb pbits || negb (isDigit (chr s)) then Ok None
                else
                  ip ← wr ip ii part;
                  let '(part, _, pos) := read_num s (S pos) 0 in
                  if decide (128 < part) then Ok None else done_ pos (S ii) ip (Some part)
              else if decide (c = "*"%char) then
                let '(s, pos) := skip_while (fun c => bool_decide (c = "*"%char \/ c = ":"%char)) s (S pos) in
                if decide (s <> [] \/ (colon < 8)%nat) then Ok None
                else Ok (Some (pos, ip, Some (u8 (Z.of_nat ii * 16))))
              else Ok None
          end
      end
  end.

(** [strchr]: the position of a character *)
Definition strchr (s : cstring) (c : ascii) : option nat := fst <$> list_find (fun d => d = c) s.

Definition ipmask_parse (input : cstring) (pbits : bool) : result (option (nat * ip_addr * option Z)) :=
  let zeros := replicate 8 0 in
  let dot := strchr input "."%char in
  if match strchr input ":"%char, dot with
     | Some c, Some d => bool_decide (c < d)%nat
     | Some _, None => true
     | None, _ => false
     end
  then
    if decide (chr input = ":"%char) then
      if decide (chr (adv input) <> ":"%char \/ chr (adv (adv input)) = ":"%char) then Ok None
      else parse_loop (S (length input)) (adv (adv input)) pbits 2 0 0 0 (Some (adv (adv input), 2%nat)) zeros
    else parse_loop (S (length input)) input pbits 0 0 0 8 None zeros
  else if bool_decide (dot <> None) || bool_decide (strchr input "/"%char <> None) then
    r ← ircd_aton_ip4 input pbits;
    match r with
    | None => Ok None
    | Some (len, ip4, bits) =>
        ip ← wr zeros 5 65535; ip ← wr ip 6 (Z.shiftr ip4 16); ip ← wr ip 7 (Z.land ip4 65535);
        Ok (Some (len, ip, Some (u8 (bits + 96))))
    end
  else if decide (chr input = "*"%char) then
    let '(s, pos) := skip_while (fun c => bool_decide (c = "*"%char)) (adv input) 1 in
    if decide (s <> []) then Ok None else Ok (Some (pos, zeros, Some 0))
  else Ok None.

(** * The text of an address *)

Lemma quad_spec b : 0 <= b < 256 -> quad b = Ok (dec b).
Proof.
  intros Hb. assert (forallb (fun n => bool_decide (quad (Z.of_nat n) = Ok (dec (Z.of_nat n)))) (seq 0 256) = true) as H
    by (vm_compute; reflexivity).
  rewrite forallb_forall in H. specialize (H (Z.to_nat b)). rewrite Z2Nat.id in H by lia.
  apply (bool_decide_eq_true (quad b = Ok (dec b))), H, in_seq. lia.
Qed.

(** The words with a colon behind each *)
Definition colons (l : ip_addr) : list ascii := concat (map (fun x => hex x ++ [":"%char]) l).

Lemma colons_app l l' : colons (l ++ l') = colons l ++ colons l'.
Proof. unfold colons. by rewrite map_app, concat_app. Qed.

Lemma colons_cons x l : colons (x :: l) = hex x ++ ":"%char :: colons l.
Proof. unfold colons. cbn [map concat]. by rewrite <- app_assoc. Qed.

(** The words up to the eighth, which has no colon *)
Definition last_words (l : ip_addr) : list ascii :=
  match l with [] => [] | _ => colons (removelast l) ++ hex (List.last l 0) end.

Lemma last_words_snoc l x : last_words (l ++ [x]) = colons l ++ hex x.
Proof. unfold last_words. rewrite removelast_last, last_last. by destruct l. Qed.

Definition v6_text (a : ip_addr) (ms mz : nat) : list ascii :=
  if decide (mz = 0)%nat then last_words a else colons (take ms a) ++ ":"%char :: last_words (drop (ms + mz) a).

Lemma print_colons fuel a ms mz l1 l2 l3 buf :
  a = l1 ++ l2 ++ l3 -> (length l1 + length l2 <= 7)%nat ->
  (forall k, (length l1 <= k < length l1 + length l2)%nat -> ~ (0 < mz /\ k = ms)%nat) ->
  print_loop (length l2 + fuel) a ms mz (length l1) buf = print_loop fuel a ms mz (length l1 + length l2) (buf ++ colons l2).
Proof.
  revert l1 buf. induction l2 as [|x l2 IH]; intros l1 buf -> Hl Hk; [by rewrite app_nil_r, Nat.add_0_r|].
  cbn [length Nat.add print_loop] in *. rewrite decide_True by lia. rewrite decide_False by (apply Hk; lia).
  unfold seg. rewrite (rd_middle _ l1 x (l2 ++ l3)) by done. cbn [mbind result_bind].
  rewrite decide_True by lia. assert (E : length (l1 ++ [x]) = S (length l1)) by (rewrite length_app; simpl; lia).
  specialize (IH (l1 ++ [x])). rewrite E in IH. rewrite IH; [|by rewrite <- app_assoc|lia|intros k Hk'; apply Hk; lia].
  rewrite colons_cons. f_equal; [lia|]. by rewrite <- !app_assoc.
Qed.

Lemma print_last fuel a ms mz l1 l2 buf :
  a = l1 ++ l2 -> length a = 8%nat -> (length l2 < fuel)%nat ->
  (forall k, (length l1 <= k < 8)%nat -> ~ (0 < mz /\ k = ms)%nat) ->
  print_loop fuel a ms mz (length l1) buf = Ok (buf ++ last_words l2).
Proof.
  intros -> Ha Hf Hk. rewrite length_app in Ha. destruct l2 as [|x l2 _] using rev_ind.
  - destruct fuel; [simpl in Hf; lia|]. cbn [print_loop length] in *. rewrite decide_False by lia. by rewrite app_nil_r.
  - rewrite length_app in Ha, Hf. cbn [length] in Ha, Hf.
    replace fuel with (length l2 + S (S (fuel - length l2 - 2)))%nat by lia.
    rewrite (print_colons _ (l1 ++ l2 ++ [x]) ms mz l1 l2 [x]); [|done|lia|intros k Hk'; apply Hk; lia].
    cbn [print_loop]. rewrite decide_True by lia. rewrite decide_False by (apply Hk; lia).
    unfold seg. rewrite (rd_middle _ (l1 ++ l2) x [] (length l1 + length l2)); [|by rewrite <- app_assoc|by rewrite length_app].
    cbn [mbind result_bind]. rewrite (decide_False (P := (_ < 7)%nat)) by lia.
    rewrite (decide_False (P := (_ < 8)%nat)) by lia. rewrite last_words_snoc, app_nil_r, <- !app_assoc. done.
Qed.

Lemma zeros_loop_run fuel a ms mz curr ii :
  length a = 8%nat -> (ii <= 8)%nat -> (8 - ii < fuel)%nat ->
  (1 <= ms)%nat -> (ms + mz <= ii)%nat -> (1 + curr <= ii)%nat ->
  exists ms' mz' curr', zeros_loop fuel a ms mz curr ii = Ok (ms', mz', curr') /\
    (1 <= ms' /\ ms' + mz' <= 8 /\ 1 + curr' <= 8)%nat.
Proof.
  intros Ha. revert ms mz curr ii. induction fuel as [|fuel IH]; intros ms mz curr ii Hii Hf H1 H2 H3; [lia|].
  cbn [zeros_loop]. case_decide as E.
  - unfold seg. destruct (rd_lt a ii) as (x&->&Hx); [lia|]. cbn [mbind result_bind]. repeat case_decide; apply IH; lia.
  - exists ms, mz, curr. split; [done|lia].
Qed.

(** The run of zeros that is left out; it never starts with the first word. *)
Lemma zero_run_1 a :
  length a = 8%nat -> exists ms mz, zero_run a 1 = Ok (ms, mz) /\ (1 <= ms /\ ms + mz <= 8)%nat.
Proof.
  intros Ha. unfold zero_run. destruct (zeros_loop_run 9 a 1 0 0 1) as (ms&mz&curr&->&?&?&?); [lia..|].
  cbn [mbind result_bind]. case_decide; eexists _, _; (split; [done|lia]).
Qed.

Lemma print_v6 a ms mz :
  length a = 8%nat -> (1 <= ms /\ ms + mz <= 8)%nat -> print_loop 9 a ms mz 0 [] = Ok (v6_text a ms mz).
Proof.
  intros Ha Hr. unfold v6_text. destruct (decide (mz = 0%nat)) as [->|Hz].
  - apply (print_last 9 a ms 0 [] a []); [done|done|lia|lia].
  - replace 9%nat with (length (take ms a) + S (8 - ms))%nat by (rewrite length_take; lia).
    rewrite (print_colons _ a ms mz [] (take ms a) (drop ms a) []); [|by rewrite take_drop|rewrite length_take; simpl; lia|].
    2: { intros k. rewrite length_take. cbn [length]. lia. }
    cbn [length Nat.add app]. rewrite length_take, Nat.min_l by lia. cbn [print_loop].
    rewrite decide_True by lia. rewrite decide_True by lia.
    assert (E : length (take (ms + mz) a) = (ms + mz)%nat) by (rewrite length_take; lia).
    rewrite <- E at 1. rewrite (print_last _ a ms mz (take (ms + mz) a) (drop (ms + mz) a)); [|by rewrite take_drop|done|rewrite length_drop; lia|].
    + by rewrite <- app_assoc.
    + rewrite E. lia.
Qed.

(** ** Hexadecimal *)

Lemma hexdigit_spec d : 0 <= d < 16 -> hexval (hexdigit d) = Some d /\ hexdigit d <> "."%char /\ hexdigit d <> ":"%char /\ hexdigit d <> NUL.
Proof.
  intros Hd. assert (forallb (fun n => bool_decide (hexval (hexdigit (Z.of_nat n)) = Some (Z.of_nat n) /\
    hexdigit (Z.of_nat n) <> "."%char /\ hexdigit (Z.of_nat n) <> ":"%char /\ hexdigit (Z.of_nat n) <> NUL)) (seq 0 16) = true) as H
    by (vm_compute; reflexivity).
  rewrite forallb_forall in H. specialize (H (Z.to_nat d)). rewrite Z2Nat.id in H by lia.
  apply (bool_decide_eq_true (hexval (hexdigit d) = Some d /\ _)), H, in_seq. lia.
Qed.

Lemma hex_digits x :
  0 <= x < 65536 -> exists ds, hex x = map hexdigit ds /\ Forall (fun d => 0 <= d < 16) ds /\ ds <> [] /\ (length ds <= 4)%nat /\
    foldl (fun n d => n * 16 + d) 0 ds = x.
Proof.
  intros Hx. unfold hex. change 15 with (Z.ones 4). rewrite !Z.land_ones, !Z.shiftr_div_pow2 by lia.
  change (2 ^ 4) with 16. change (2 ^ 8) with 256. change (2 ^ 12) with 4096.
  exists ((if decide (0x1000 <= x) then [x / 4096] else []) ++ (if decide (0x100 <= x) then [x / 256 mod 16] else []) ++
    (if decide (0x10 <= x) then [x / 16 mod 16] else []) ++ [x mod 16]).
  split; [by repeat destruct (decide _)|]. split_and!.
  - assert (0 <= x / 4096 < 16) by (split; [apply Z.div_pos; lia|apply Z.div_lt_upper_bound; lia]).
    assert (forall z, 0 <= z mod 16 < 16) as Hm by (intros z; by apply Z.mod_pos_bound).
    repeat apply Forall_app_2; repeat destruct (decide _); try apply Forall_nil_2; by apply Forall_singleton.
  - repeat destruct (decide _); done.
  - repeat destruct (decide _); simpl; lia.
  - repeat destruct (decide _); try lia; simpl; Z.to_euclidean_division_equations; lia.
Qed.

Lemma hex_head x : 0 <= x < 65536 -> exists c s, hex x = c :: s /\ c <> "."%char /\ c <> ":"%char /\ hexval c <> None.
Proof.
  intros Hx. destruct (hex_digits x Hx) as ([|d ds]&->&Hd&Hne&_); [done|]. apply Forall_cons in Hd as [Hd _].
  destruct (hexdigit_spec d Hd) as (?&?&?&_). exists (hexdigit d), (map hexdigit ds). split; [done|]. by split_and!; [..|congruence].
Qed.

(** * Reading the words back *)

Lemma parse_digit fuel c v s pbits pos part ii colon ps ip :
  (ii < 8)%nat -> hexval c = Some v -> 0 <= v < 16 -> 0 <= part < 4096 ->
  parse_loop (S fuel) (c :: s) pbits pos part ii colon ps ip = parse_loop fuel s pbits (S pos) (part * 16 + v) ii colon ps ip.
Proof.
  intros Hii Hc Hv Hp. cbn [parse_loop]. rewrite decide_False by lia. rewrite Hc.
  assert (u32 (Z.shiftl part 4) = part * 16) as ->.
  { rewrite Z.shiftl_mul_pow2 by done. unfold u32. apply Z.mod_small. lia. }
  assert (Z.lor (part * 16) v = part * 16 + v) as ->.
  { change (part * 16) with (part * 2 ^ 4) at 1. rewrite <- Z.shiftl_mul_pow2 by done. by apply (lor_shiftl_add part v 4). }
  by rewrite decide_False by lia.
Qed.

Lemma parse_digits fuel ds s pbits pos part ii colon ps ip :
  (ii < 8)%nat -> Forall (fun d => 0 <= d < 16) ds -> 0 <= part -> part * 16 ^ Z.of_nat (length ds) + 16 ^ Z.of_nat (length ds) <= 65536 ->
  parse_loop (length ds + fuel) (map hexdigit ds ++ s) pbits pos part ii colon ps ip =
  parse_loop fuel s pbits (pos + length ds) (foldl (fun n d => n * 16 + d) part ds) ii colon ps ip.
Proof.
  intros Hii Hds. revert pos part. induction Hds as [|d ds Hd Hds IH]; intros pos part Hp Hb; [by rewrite Nat.add_0_r|].
  cbn [length map app Nat.add foldl]. destruct (hexdigit_spec d Hd) as [Hc _].
  cbn [length] in Hb. rewrite Nat2Z.inj_succ, Z.pow_succ_r in Hb by lia. pose proof (Z.pow_pos_nonneg 16 (Z.of_nat (length ds))).
  rewrite (parse_digit _ _ d); [|done|done|done|nia]. rewrite IH; [f_equal; lia|lia|nia].
Qed.

Lemma parse_hex fuel x s pbits pos ii colon ps ip :
  (ii < 8)%nat -> 0 <= x < 65536 ->
  parse_loop (length (hex x) + fuel) (hex x ++ s) pbits pos 0 ii colon ps ip =
  parse_loop fuel s pbits (pos + length (hex x)) x ii colon ps ip.
Proof.
  intros Hii Hx. destruct (hex_digits x Hx) as (ds&->&Hds&_&Hl&<-). rewrite length_map. apply parse_digits; [done|done|lia|].
  assert (16 ^ Z.of_nat (length ds) <= 16 ^ 4) by (apply Z.pow_le_mono_r; lia). lia.
Qed.

(** The array while it is filled *)
Definition filled (l : ip_addr) : ip_addr := l ++ replicate (8 - length l) 0.

Lemma wr_filled l x ii : (ii < 8)%nat -> ii = length l -> wr (filled l) ii x = Ok (filled (l ++ [x])).
Proof.
  intros Hii ->. unfold filled. destruct (8 - length l)%nat as [|n] eqn:E; [lia|]. cbn [replicate].
  rewrite (wr_middle _ l 0 (replicate n 0)) by done. rewrite <- app_assoc, length_app. cbn [app length].
  by replace (8 - (length l + 1))%nat with n by lia.
Qed.

(** What may stand behind a colon *)
Definition good_head (s : list ascii) : Prop := chr s <> "."%char /\ chr s <> ":"%char.

Lemma parse_colon fuel s pbits pos part l colon ps :
  (length l < 8)%nat -> good_head s ->
  parse_loop (S fuel) (":"%char :: s) pbits pos part (length l) colon ps (filled l) =
  parse_loop fuel s pbits (S pos) 0 (S (length l)) colon (Some (s, S pos)) (filled (l ++ [part])).
Proof.
  intros Hl [H1 H2]. cbn [parse_loop]. rewrite decide_False by lia. cbn [hexval].
  rewrite (decide_False (P := chr s = "."%char)) by done. rewrite wr_filled by done. cbn [mbind result_bind].
  by rewrite (decide_False (P := chr s = ":"%char)) by done.
Qed.

Lemma parse_colons fuel l2 s pbits pos l1 colon ps :
  (length l1 + length l2 <= 8)%nat -> words l2 -> (l2 <> [] -> good_head s) ->
  exists ps', parse_loop (length (colons l2) + fuel) (colons l2 ++ s) pbits pos 0 (length l1) colon ps (filled l1) =
    parse_loop fuel s pbits (pos + length (colons l2)) 0 (length (l1 ++ l2)) colon ps' (filled (l1 ++ l2)).
Proof.
  revert l1 pos ps. induction l2 as [|x l2 IH]; intros l1 pos ps Hl Hw Hs.
  { exists ps. cbn. by rewrite app_nil_r, Nat.add_0_r. }
  apply Forall_cons in Hw as [Hx Hw]. cbn [length] in Hl. rewrite colons_cons, length_app. cbn [length]. rewrite <- app_assoc.
  destruct (IH (l1 ++ [x]) (S (pos + length (hex x))) (Some (colons l2 ++ s, S (pos + length (hex x))))) as (ps'&E);
    [rewrite length_app; simpl; lia|done|by intros; apply Hs|].
  exists ps'. replace (length (hex x) + S (length (colons l2)) + fuel)%nat with (length (hex x) + S (length (colons l2) + fuel))%nat by lia.
  rewrite parse_hex by (done || lia). cbn [app]. rewrite parse_colon; [|lia|].
  - rewrite length_app in E. cbn [length] in E. rewrite Nat.add_1_r in E. rewrite E, <- app_assoc. f_equal. lia.
  - destruct l2 as [|y l2]; [by apply Hs|]. apply Forall_cons in Hw as [Hy _].
    destruct (hex_head y Hy) as (c&t&E'&H1&H2&_). rewrite colons_cons, E'. by split.
Qed.

Lemma parse_double fuel s pbits pos part l ps :
  (length l < 8)%nat ->
  parse_loop (S fuel) (":"%char :: ":"%char :: s) pbits pos part (length l) 8 ps (filled l) =
  parse_loop fuel s pbits (pos + 2) 0 (S (length l)) (S (length l)) (Some (":"%char :: s, S pos)) (filled (l ++ [part])).
Proof.
  intros Hl. cbn [parse_loop]. rewrite decide_False by lia. cbn [hexval chr hd]. rewrite wr_filled by done. done.
Qed.

(** What ends an address: the end of the text, or the number of bits *)
Inductive tail_is (pbits : bool) : list ascii -> Z -> Prop :=
  | tail_end : tail_is pbits [] 128
  | tail_bits n : pbits = true -> 0 <= n <= 128 -> tail_is pbits ("/"%char :: dec n) n.

Lemma read_num_dec n pos :
  0 <= n <= 128 -> isDigit (chr (dec n)) = true /\ read_num (dec n) pos 0 = (n, [], (pos + length (dec n))%nat).
Proof.
  intros Hn.
  assert (Hshift : forall s p m, read_num s p m = let '(v, r, q) := read_num s 0 m in (v, r, (p + q)%nat)).
  { induction s as [|c s IH]; intros p m; cbn [read_num]; [by rewrite Nat.add_0_r|].
    destruct (isDigit c); [|by rewrite Nat.add_0_r]. rewrite (IH (S p)), (IH 1%nat).
    destruct (read_num s 0 _) as [[v r] q]. f_equal. lia. }
  assert (forallb (fun k => bool_decide (isDigit (chr (dec (Z.of_nat k))) = true /\
    read_num (dec (Z.of_nat k)) 0 0 = (Z.of_nat k, [], length (dec (Z.of_nat k))))) (seq 0 129) = true) as H by (vm_compute; reflexivity).
  rewrite forallb_forall in H. specialize (H (Z.to_nat n)). rewrite Z2Nat.id in H by lia.
  assert (In (Z.to_nat n) (seq 0 129)) as Hin by (apply in_seq; lia). apply H, bool_decide_eq_true in Hin as [H1 H2].
  split; [done|]. by rewrite Hshift, H2.
Qed.

Lemma parse_tail fuel t n pbits pos part l colon ps :
  tail_is pbits t n -> (length l < 8)%nat -> (colon < 8 \/ length l = 7 \/ t <> [])%nat -> (length t < fuel)%nat ->
  parse_loop fuel t pbits pos part (length l) colon ps (filled l) =
  (ip ← finish colon (S (length l)) (filled (l ++ [part])); Ok (Some ((pos + length t)%nat, ip, Some n))).
Proof.
  intros Ht Hl Hc Hf. destruct fuel as [|fuel]; [lia|]. cbn [parse_loop]. rewrite decide_False by lia.
  destruct Ht as [|n Hb Hn].
  - rewrite wr_filled by done. cbn [mbind result_bind length]. rewrite (decide_False (P := (colon = 8 /\ S (length l) < 8)%nat)) by (destruct Hc as [|[|]]; [lia|lia|done]).
    by rewrite Nat.add_0_r.
  - cbn [hexval]. destruct (read_num_dec n (S pos) Hn) as [Hd Hr]. rewrite Hb. cbn. rewrite Hd. cbn [negb].
    rewrite wr_filled by done. cbn [mbind result_bind]. rewrite Hr. rewrite (decide_False (P := 128 < n)) by lia. cbn [length].
    by replace (S pos + length (dec n))%nat with (pos + S (length (dec n)))%nat by lia.
Qed.

Lemma zeros_finish l1 l2 :
  (length l1 < 8)%nat -> (length l1 + length l2 <= 8)%nat ->
  finish (length l1) (length (l1 ++ l2)) (filled (l1 ++ l2)) = Ok (l1 ++ replicate (8 - length (l1 ++ l2)) 0 ++ l2).
Proof.
  intros H1 H2. do 8 (destruct l1 as [|? l1];
    [do 9 (destruct l2 as [|? l2]; [first [reflexivity|exfalso; simpl in *; lia]|]); exfalso; simpl in *; lia|]).
  exfalso; simpl in *; lia.
Qed.

Lemma finish_full l : length l = 8%nat -> finish 8 8 (filled l) = Ok l.
Proof. intros Hl. unfold filled, finish. rewrite Hl, decide_False by lia. by rewrite app_nil_r. Qed.

Lemma good_tail pbits t n : tail_is pbits t n -> good_head t.
Proof. by intros []. Qed.

Lemma good_hex x s : 0 <= x < 65536 -> good_head (hex x ++ s).
Proof. intros Hx. destruct (hex_head x Hx) as (c&r&->&?&?&_). done. Qed.

Lemma good_last l s : words l -> good_head s -> good_head (last_words l ++ s).
Proof.
  intros Hw Hs. destruct l as [|x l _] using rev_ind; [done|]. rewrite last_words_snoc.
  apply Forall_app in Hw as [Hl [Hx _]%Forall_cons]. rewrite <- app_assoc.
  destruct l as [|y l]; [cbn [colons map concat app]; by apply good_hex|].
  apply Forall_cons in Hl as [Hy _]. rewrite colons_cons, <- app_assoc. by apply good_hex.
Qed.

(** The words after the double colon, up to the end *)
Lemma parse_last fuel l2 t n pbits pos l1 ps :
  tail_is pbits t n -> (length l1 + length l2 < 8)%nat -> words l2 -> l1 <> [] -> (length t < fuel)%nat ->
  parse_loop (length (last_words l2) + fuel) (last_words l2 ++ t) pbits pos 0 (length l1) (length l1) ps (filled l1) =
  Ok (Some ((pos + length (last_words l2) + length t)%nat,
    l1 ++ replicate (8 - length l1 - length l2) 0 ++ l2, Some n)).
Proof.
  intros Ht Hl Hw Hne Hf. assert (length l1 <> 0)%nat by (destruct l1; simpl in *; [done|lia]).
  destruct l2 as [|x l2 _] using rev_ind; cbn [last_words length Nat.add app].
  - cbn [length] in Hl. rewrite (parse_tail fuel t n pbits pos 0 l1 (length l1) ps); [|done|lia|lia|done].
    replace (S (length l1)) with (length (l1 ++ [0])) by (rewrite length_app; simpl; lia).
    rewrite zeros_finish by (simpl; lia). cbn [mbind result_bind]. rewrite length_app, Nat.add_0_r. cbn [length]. do 4 f_equal.
    rewrite app_nil_r. replace (8 - length l1 - 0)%nat with (8 - (length l1 + 1) + 1)%nat by lia. by rewrite replicate_add.
  - rewrite length_app in Hl. cbn [length] in Hl. apply Forall_app in Hw as [Hw [Hx _]%Forall_cons].
    rewrite last_words_snoc, length_app, <- !app_assoc, <- Nat.add_assoc.
    destruct (parse_colons (length (hex x) + fuel) l2 (hex x ++ t) pbits pos l1 (length l1) ps) as (ps'&->); [lia|done|by intros; apply good_hex|].
    rewrite parse_hex by (rewrite ?length_app; done || lia).
    rewrite (parse_tail fuel t n pbits _ x (l1 ++ l2) (length l1) ps'); [|done|rewrite length_app; lia|lia|done].
    replace (S (length (l1 ++ l2))) with (length (l1 ++ (l2 ++ [x]))) by (rewrite !length_app; simpl; lia).
    rewrite <- app_assoc, zeros_finish by (rewrite ?length_app; simpl; lia). cbn [mbind result_bind]. rewrite !length_app. cbn [length].
    replace (8 - (length l1 + (length l2 + 1)))%nat with (8 - length l1 - (length l2 + 1))%nat by lia. do 4 f_equal. lia.
Qed.

Lemma parse_v6 a ms mz t n pbits :
  length a = 8%nat -> words a -> (1 <= ms /\ ms + mz <= 8)%nat -> tail_is pbits t n ->
  parse_loop (S (length (v6_text a ms mz ++ t))) (v6_text a ms mz ++ t) pbits 0 0 0 8 None (replicate 8 0) =
  Ok (Some (length (v6_text a ms mz ++ t), take ms a ++ replicate mz 0 ++ drop (ms + mz) a, Some n)).
Proof.
  intros Ha Hw Hr Ht. change (replicate 8 0) with (filled []). unfold v6_text. destruct (decide (mz = 0%nat)) as [->|Hz].
  - destruct a as [|x l _] using rev_ind; [done|]. rewrite length_app in Ha. cbn [length] in Ha.
    apply Forall_app in Hw as [Hl [Hx _]%Forall_cons]. rewrite last_words_snoc, <- app_assoc.
    assert (E : S (length (colons l ++ hex x ++ t)) = (length (colons l) + (length (hex x) + S (length t)))%nat) by (rewrite !length_app; lia).
    rewrite E. destruct (parse_colons (length (hex x) + S (length t)) l (hex x ++ t) pbits 0 [] 8 None) as (ps&E2);
      [simpl; lia|done|by intros; apply good_hex|]. cbn [length app] in E2. rewrite E2.
    rewrite parse_hex by (done || lia). rewrite (parse_tail _ t n); [|done|lia|right; left; lia|lia].
    replace (length l) with 7%nat by lia. rewrite finish_full by (rewrite length_app; simpl; lia). cbn [mbind result_bind replicate app].
    rewrite Nat.add_0_r, take_drop. do 4 f_equal. rewrite !length_app. lia.
  - assert (exists l y, take ms a = l ++ [y]) as (l&y&El).
    { destruct (take ms a) as [|y l _] eqn:E using rev_ind; [|by exists l, y]. apply (f_equal length) in E. rewrite length_take in E. simpl in E. lia. }
    assert (Hll : length (l ++ [y]) = ms) by (rewrite <- El, length_take; lia). set (r := drop (ms + mz) a).
    assert (Hrl : length r = (8 - ms - mz)%nat) by (unfold r; rewrite length_drop; lia).
    assert (words r) as Hwr by by apply Forall_drop. assert (words (l ++ [y])) as Hwl by (rewrite <- El; by apply Forall_take).
    apply Forall_app in Hwl as [Hwl [Hy _]%Forall_cons]. rewrite El, colons_app. unfold colons at 2 4. cbn [map concat].
    rewrite app_nil_r, <- !app_assoc. cbn [app]. rewrite length_app in Hll. cbn [length] in Hll.
    rewrite !length_app. cbn [length]. rewrite length_app.
    replace (S (length (colons l) + (length (hex y) + S (S (length (last_words r) + length t)))))%nat with
      (length (colons l) + (length (hex y) + S (length (last_words r) + S (S (length t)))))%nat by lia.
    destruct (parse_colons (length (hex y) + S (length (last_words r) + S (S (length t)))) l (hex y ++ ":"%char :: ":"%char :: last_words r ++ t) pbits 0 [] 8 None)
      as (ps&E2); [simpl; lia|done|by intros; apply good_hex|]. cbn [length app] in E2. rewrite E2.
    rewrite parse_hex by (done || lia). rewrite parse_double by lia.
    replace (S (length l)) with (length (l ++ [y])) by (rewrite length_app; simpl; lia).
    rewrite (parse_last _ r t n); [|done|rewrite length_app; simpl; lia|done|by destruct l|lia].
    rewrite length_app, Hrl. cbn [length]. replace (8 - (length l + 1) - (8 - ms - mz))%nat with mz by lia.
    assert (length (colons [y]) = S (length (hex y))) as Ey by (unfold colons; cbn [map concat]; rewrite app_nil_r, length_app; simpl; lia).
    rewrite <- app_assoc. do 4 f_equal. lia.
Qed.

(** ** Dotted quads *)

Fixpoint run_digits (part : Z) (ds : list ascii) : option Z :=
  match ds with
  | [] => Some part
  | c :: ds =>
      let part := part * 10 + (uchar c - 48) in
      if num_digit c && bool_decide (part <= 255) then run_digits part ds else None
  end.

Lemma run_dec b : 0 <= b < 256 -> run_digits 0 (dec b) = Some b /\ Forall (fun c => num_digit c = true) (dec b) /\ dec b <> [].
Proof.
  intros Hb. assert (forallb (fun k => bool_decide (run_digits 0 (dec (Z.of_nat k)) = Some (Z.of_nat k) /\
    Forall (fun c => num_digit c = true) (dec (Z.of_nat k)) /\ dec (Z.of_nat k) <> [])) (seq 0 256) = true) as H by (vm_compute; reflexivity).
  rewrite forallb_forall in H. specialize (H (Z.to_nat b)). rewrite Z2Nat.id in H by lia.
  assert (In (Z.to_nat b) (seq 0 256)) as Hin by (apply in_seq; lia). by apply H, bool_decide_eq_true in Hin.
Qed.

Lemma num_digit_not c : num_digit c = true -> c <> "."%char /\ c <> "/"%char /\ c <> ":"%char /\ c <> "*"%char.
Proof.
  unfold num_digit. rewrite bool_decide_eq_true. intros H.
  split_and!; intros ->; vm_compute in H; destruct H as [H1 H2]; first [by destruct H1|by destruct H2].
Qed.

Lemma aton_digits ds s pbits pos dots part ip v :
  run_digits part ds = Some v -> aton_loop (ds ++ s) pbits pos dots part ip = aton_loop s pbits (pos + length ds) dots v ip.
Proof.
  revert pos part. induction ds as [|c ds IH]; intros pos part H; cbn [run_digits] in H.
  - injection H as ->. by rewrite Nat.add_0_r.
  - destruct (num_digit c) eqn:Ec; [|done]. cbn [andb] in H. destruct (bool_decide _) eqn:Eb; [|done].
    apply bool_decide_eq_true in Eb. destruct (num_digit_not c Ec) as (H1&H2&_). cbn [app aton_loop].
    rewrite !decide_False, Ec by done. rewrite (decide_False (P := 255 < _)) by lia. rewrite IH by done. cbn [length]. f_equal. lia.
Qed.

Lemma shift_in_spec k part d :
  0 <= part < 256 -> 0 <= d < 4 -> shift_in (Z.shiftl k (32 - 8 * d)) part d = Ok (Z.shiftl (k * 256 + part) (24 - 8 * d)).
Proof.
  intros Hp Hd. unfold shift_in. assert (u32 (24 - 8 * d) = 24 - 8 * d) as -> by (unfold u32; apply Z.mod_small; lia).
  rewrite decide_True by lia. f_equal. assert (0 <= Z.shiftl part (24 - 8 * d) < 2 ^ (32 - 8 * d)) as Hs.
  { rewrite Z.shiftl_mul_pow2 by lia. replace (32 - 8 * d) with (8 + (24 - 8 * d)) by lia. rewrite Z.pow_add_r by lia.
    assert (0 < 2 ^ (24 - 8 * d)) by (apply Z.pow_pos_nonneg; lia). nia. }
  assert (2 ^ (32 - 8 * d) <= 2 ^ 32) by (apply Z.pow_le_mono_r; lia).
  unfold u32. rewrite Z.mod_small by lia. rewrite lor_shiftl_add by lia. rewrite !Z.shiftl_mul_pow2 by lia.
  replace (32 - 8 * d) with (8 + (24 - 8 * d)) by lia. rewrite Z.pow_add_r by lia. lia.
Qed.

Lemma aton_dot s pbits pos d part k :
  0 <= part < 256 -> 0 <= d < 4 -> chr s <> "."%char -> chr s <> "*"%char ->
  aton_loop ("."%char :: s) pbits pos d part (Z.shiftl k (32 - 8 * d)) =
  aton_loop s pbits (S pos) (d + 1) 0 (Z.shiftl (k * 256 + part) (32 - 8 * (d + 1))).
Proof.
  intros Hp Hd H1 H2. cbn [aton_loop]. rewrite (decide_False (P := chr s = "."%char)) by done.
  rewrite shift_in_spec by done. cbn [mbind result_bind]. rewrite (decide_False (P := chr s = "*"%char)) by done.
  by replace (32 - 8 * (d + 1)) with (24 - 8 * d) by lia.
Qed.

Inductive tail4_is (pbits : bool) : list ascii -> Z -> Prop :=
  | tail4_end : tail4_is pbits [] 32
  | tail4_bits n : pbits = true -> 0 <= n <= 32 -> tail4_is pbits ("/"%char :: dec n) n.

Lemma aton_tail t n pbits pos part k :
  tail4_is pbits t n -> 0 <= part < 256 ->
  aton_loop t pbits pos 3 part (Z.shiftl k 8) = Ok (Some ((pos + length t)%nat, k * 256 + part, n)).
Proof.
  intros Ht Hp. pose proof (shift_in_spec k part 3 Hp ltac:(lia)) as Hs. change (32 - 8 * 3) with 8 in Hs. change (24 - 8 * 3) with 0 in Hs.
  rewrite Z.shiftl_0_r in Hs. destruct Ht as [|n Hb Hn]; cbn [aton_loop].
  - rewrite Hs. cbn [length]. by rewrite Nat.add_0_r.
  - destruct (read_num_dec n (S pos)) as [Hd Hr]; [lia|]. rewrite Hb, Hd. cbn [negb orb]. rewrite Hr.
    rewrite (decide_False (P := 32 < n)) by lia. rewrite Hs. cbn [mbind result_bind length]. do 4 f_equal. lia.
Qed.

Definition v4_text (b0 b1 b2 b3 : Z) : list ascii :=
  dec b0 ++ "."%char :: dec b1 ++ "."%char :: dec b2 ++ "."%char :: dec b3.

Lemma dec_chr b s : 0 <= b < 256 -> num_digit (chr (dec b ++ s)) = true.
Proof. intros Hb. destruct (run_dec b Hb) as (_&Hd&Hne). destruct (dec b); [done|]. by apply Forall_cons in Hd as [? _]. Qed.

Lemma aton_v4 b0 b1 b2 b3 t n pbits :
  0 <= b0 < 256 -> 0 <= b1 < 256 -> 0 <= b2 < 256 -> 0 <= b3 < 256 -> tail4_is pbits t n ->
  ircd_aton_ip4 (v4_text b0 b1 b2 b3 ++ t) pbits =
  Ok (Some (length (v4_text b0 b1 b2 b3 ++ t), ((b0 * 256 + b1) * 256 + b2) * 256 + b3, n)).
Proof.
  intros H0 H1 H2 H3 Ht. unfold ircd_aton_ip4, v4_text. do 3 (rewrite <- !app_assoc; cbn [app]).
  assert (Hnd : forall b s, 0 <= b < 256 -> chr (dec b ++ s) <> "."%char /\ chr (dec b ++ s) <> "*"%char).
  { intros b s Hb. by destruct (num_digit_not _ (dec_chr b s Hb)) as (?&_&_&?). }
  rewrite decide_False by by apply Hnd. 
  match goal with |- aton_loop ?s ?b ?p ?d ?q 0 = ?r => change (aton_loop s b p d q (Z.shiftl 0 (32 - 8 * 0)) = r) end.
  rewrite (aton_digits (dec b0) _ _ _ _ _ _ b0) by by apply run_dec. rewrite aton_dot by (try apply Hnd; lia).
  rewrite (aton_digits (dec b1) _ _ _ _ _ _ b1) by by apply run_dec. rewrite aton_dot by (try apply Hnd; lia).
  rewrite (aton_digits (dec b2) _ _ _ _ _ _ b2) by by apply run_dec. rewrite aton_dot by (try apply Hnd; lia).
  rewrite (aton_digits (dec b3) _ _ _ _ _ _ b3) by by apply run_dec. change (32 - 8 * (0 + 1 + 1 + 1)) with 8. change (0 + 1 + 1 + 1) with 3.
  rewrite (aton_tail t n) by done. do 4 f_equal.
  do 4 (rewrite !length_app; cbn [length]). lia.
Qed.

Lemma strchr_None s c : strchr s c = None <-> Forall (fun d => d <> c) s.
Proof.
  unfold strchr. rewrite fmap_None. split.
  - intros H%list_find_None. done.
  - intros H. by apply list_find_None.
Qed.

Lemma v4_chars b0 b1 b2 b3 t n pbits :
  0 <= b0 < 256 -> 0 <= b1 < 256 -> 0 <= b2 < 256 -> 0 <= b3 < 256 -> tail4_is pbits t n ->
  strchr (v4_text b0 b1 b2 b3 ++ t) ":"%char = None /\ strchr (v4_text b0 b1 b2 b3 ++ t) "."%char <> None.
Proof.
  intros H0 H1 H2 H3 Ht.
  assert (Hd : forall b, 0 <= b < 256 -> Forall (fun c => c <> ":"%char) (dec b)).
  { intros b Hb. destruct (run_dec b Hb) as (_&Hf&_). eapply Forall_impl; [exact Hf|]. intros c Hc. by apply num_digit_not. }
  split.
  - apply strchr_None. unfold v4_text. rewrite !Forall_app, !Forall_cons, !Forall_app, !Forall_cons, !Forall_app, !Forall_cons.
    split_and!; try done; try by apply Hd. destruct Ht as [|n _ Hn]; [constructor|]. apply Forall_cons. split; [done|]. apply Hd. lia.
  - intros H%strchr_None. unfold v4_text in H. apply Forall_app in H as [[_ [H _]%Forall_cons]%Forall_app _]. done.
Qed.

Definition mapped (hi lo : Z) : ip_addr := [0; 0; 0; 0; 0; 65535; hi; lo].

Lemma parse_v4 hi lo t n pbits :
  0 <= hi < 65536 -> 0 <= lo < 65536 -> tail4_is pbits t n ->
  let text := v4_text (Z.shiftr hi 8) (Z.land hi 255) (Z.shiftr lo 8) (Z.land lo 255) in
  ipmask_parse (text ++ t) pbits = Ok (Some (length (text ++ t), mapped hi lo, Some (n + 96))).
Proof.
  intros Hhi Hlo Ht. change 255 with (Z.ones 8). rewrite !Z.land_ones, !Z.shiftr_div_pow2 by lia. change (2 ^ 8) with 256. cbv zeta.
  assert (Hq : forall x, 0 <= x < 65536 -> 0 <= x / 256 < 256 /\ 0 <= x mod 256 < 256).
  { intros x Hx. split; [|by apply Z.mod_pos_bound]. split; [apply Z.div_pos; lia|apply Z.div_lt_upper_bound; lia]. }
  destruct (Hq hi Hhi) as [Q0 Q1], (Hq lo Hlo) as [Q2 Q3]. unfold ipmask_parse.
  destruct (v4_chars _ _ _ _ t n pbits Q0 Q1 Q2 Q3 Ht) as [-> Hd]. rewrite (bool_decide_eq_true_2 _ Hd). cbn [orb].
  rewrite (aton_v4 _ _ _ _ t n) by done. cbn [mbind result_bind].
  set (ip4 := ((hi / 256 * 256 + hi mod 256) * 256 + lo / 256) * 256 + lo mod 256).
  assert (ip4 = hi * 65536 + lo) as -> by (subst ip4; pose proof (Z.div_mod hi 256); pose proof (Z.div_mod lo 256); lia).
  assert (forall x, Z.land x 65535 = x mod 65536) as El by (intros x; by apply (Z.land_ones x 16)).
  rewrite El, Z.shiftr_div_pow2 by lia. change (2 ^ 16) with 65536.
  rewrite (Z.div_add_l hi 65536 lo), (Z.div_small lo 65536), Z.add_0_r by lia. rewrite (Z.add_comm (hi * 65536)), (Z.mod_add lo hi 65536), (Z.mod_small lo 65536) by lia.
  assert (0 <= n <= 32) as Hn by by destruct Ht.
  assert (u8 (n + 96) = n + 96) as -> by (unfold u8; apply Z.mod_small; lia). done.
Qed.

(** ** The text of an address that is not an IPv4 one *)

Lemma hex_chars x : 0 <= x < 65536 -> Forall (fun c => c <> "."%char /\ c <> NUL) (hex x) /\ (length (hex x) <= 4)%nat.
Proof.
  intros Hx. destruct (hex_digits x Hx) as (ds&->&Hds&_&Hl&_). rewrite length_map. split; [|done].
  induction Hds as [|d ds Hd _ IH]; [constructor|]. cbn [map length] in *. constructor; [|apply IH; lia].
  destruct (hexdigit_spec d Hd) as (_&?&_&?). done.
Qed.

Lemma colons_chars l : words l -> Forall (fun c => c <> "."%char /\ c <> NUL) (colons l) /\ (length (colons l) <= 5 * length l)%nat.
Proof.
  induction 1 as [|x l Hx _ [IH1 IH2]]; [split; [constructor|done]|]. rewrite colons_cons, length_app. cbn [length].
  destruct (hex_chars x Hx) as [H1 H2]. split; [|lia]. apply Forall_app. split; [done|]. by constructor.
Qed.

Lemma last_words_chars l :
  words l -> Forall (fun c => c <> "."%char /\ c <> NUL) (last_words l) /\ (length (last_words l) <= 5 * length l)%nat.
Proof.
  intros Hl. destruct l as [|x l _] using rev_ind; [split; [constructor|simpl; lia]|]. rewrite last_words_snoc, !length_app.
  apply Forall_app in Hl as [Hl [Hx _]%Forall_cons]. destruct (hex_chars x Hx), (colons_chars l Hl). split; [by apply Forall_app|simpl; lia].
Qed.

Lemma v6_chars a ms mz :
  length a = 8%nat -> words a -> (1 <= ms /\ ms + mz <= 8)%nat ->
  Forall (fun c => c <> "."%char /\ c <> NUL) (v6_text a ms mz) /\ (length (v6_text a ms mz) <= 40)%nat /\
  ":"%char ∈ v6_text a ms mz /\ chr (v6_text a ms mz) <> ":"%char.
Proof.
  intros Ha Hw Hr. unfold v6_text. destruct (decide (mz = 0%nat)) as [->|Hz].
  - destruct (last_words_chars a Hw) as [H1 H2]. split; [done|]. split; [lia|].
    destruct a as [|x [|y l]]; [done..|]. destruct l as [|z l _] using rev_ind; [done|].
    change (x :: y :: l ++ [z]) with ((x :: y :: l) ++ [z]). rewrite last_words_snoc, colons_cons.
    apply Forall_cons in Hw as [Hx _]. destruct (hex_head x Hx) as (c&r&->&_&Hc&_). split; [|done].
    apply elem_of_app. left. apply elem_of_app. right. left.
  - destruct (colons_chars (take ms a)) as [H1 H2]; [by apply Forall_take|].
    destruct (last_words_chars (drop (ms + mz) a)) as [H3 H4]; [by apply Forall_drop|].
    rewrite length_app. cbn [length]. rewrite length_take in H2. rewrite length_drop in H4. split_and!.
    + apply Forall_app. split; [done|]. by constructor.
    + lia.
    + apply elem_of_app. right. left.
    + destruct a as [|x a]; [done|]. destruct ms as [|ms]; [lia|]. cbn [take]. rewrite colons_cons.
      apply Forall_cons in Hw as [Hx _]. by destruct (hex_head x Hx) as (c&r&->&_&Hc&_).
Qed.

Lemma parse_v6_text a ms mz t n pbits :
  length a = 8%nat -> words a -> (1 <= ms /\ ms + mz <= 8)%nat -> tail_is pbits t n ->
  ipmask_parse (v6_text a ms mz ++ t) pbits =
  Ok (Some (length (v6_text a ms mz ++ t), take ms a ++ replicate mz 0 ++ drop (ms + mz) a, Some n)).
Proof.
  intros Ha Hw Hr Ht. destruct (v6_chars a ms mz Ha Hw Hr) as (Hc&_&Hin&Hh). unfold ipmask_parse.
  assert (strchr (v6_text a ms mz ++ t) "."%char = None) as ->.
  { apply strchr_None, Forall_app. split; [eapply Forall_impl; [exact Hc|by intros c []]|].
    destruct Ht as [|n _ Hn]; [constructor|]. apply Forall_cons. split; [done|]. destruct (run_dec n) as (_&Hd&_); [lia|].
    eapply Forall_impl; [exact Hd|]. intros c Hcd. by apply num_digit_not. }
  destruct (strchr (v6_text a ms mz ++ t) ":"%char) as [k|] eqn:Ek.
  - rewrite (decide_False (P := chr _ = ":"%char)); [by apply parse_v6|]. by destruct (v6_text a ms mz); [apply elem_of_nil in Hin|].
  - apply strchr_None, Forall_app in Ek as [Ek _]. rewrite Forall_forall in Ek. by destruct (Ek _ Hin).
Qed.

(** ** What comes back *)

(** Does the run that is left out consist of zeros? *)
Definition skips_zeros (a : ip_addr) : bool :=
  match zero_run a 1 with
  | Ok (ms, mz) => bool_decide (take mz (drop ms a) = replicate mz 0)
  | _ => false
  end.

Lemma run_replaced a ms mz :
  length a = 8%nat -> (ms + mz <= 8)%nat ->
  take ms a ++ replicate mz 0 ++ drop (ms + mz) a = a <-> take mz (drop ms a) = replicate mz 0.
Proof.
  intros Ha Hm. assert (Ea : a = take ms a ++ take mz (drop ms a) ++ drop (ms + mz) a) by by rewrite <- drop_drop, !take_drop.
  split.
  - intros E. assert (E' := eq_trans E Ea). apply app_inv_head in E'. apply app_inj_1 in E' as [-> _]; [done|].
    rewrite length_replicate, length_take, length_drop. lia.
  - intros E. symmetry. etransitivity; [exact Ea|]. by rewrite E.
Qed.

Lemma skips_zeros_pattern a : skips_zeros (pattern a) = skips_zeros a.
Proof.
  unfold skips_zeros, zero_run. rewrite zeros_loop_pattern.
  destruct (zeros_loop 9 a _ _ _ _) as [[[ms mz] curr]| |]; [|done..]. cbn [mbind result_bind].
  case_decide; apply bool_decide_ext, take_pattern.
Qed.

Lemma single_run_skips_zeros a :
  length a = 8%nat -> (zero_runs false (tl a) <= 1)%nat -> skips_zeros a = true.
Proof.
  intros Hl Hr. rewrite <- skips_zeros_pattern. assert (zero_runs false (tl (pattern a)) <= 1)%nat as Hr'.
  { unfold pattern in *. destruct a as [|x a]; [done|]. cbn [map tl] in *. by rewrite zero_runs_pattern. }
  pose proof (pattern_check (fun p => negb (bool_decide (zero_runs false (tl p) <= 1)%nat) || skips_zeros p) a Hl) as H.
  cbv beta in H. rewrite bool_decide_true in H by done. apply H. by vm_compute.
Qed.

Lemma ntoa_text a :
  length a = 8%nat -> words a ->
  exists ms mz, zero_run a 1 = Ok (ms, mz) /\ (1 <= ms /\ ms + mz <= 8)%nat /\
    ircd_ntoa_r a = Ok (if irc_in_addr_is_ipv4 a then
      v4_text (Z.shiftr (nth 6 a 0) 8) (Z.land (nth 6 a 0) 255) (Z.shiftr (nth 7 a 0) 8) (Z.land (nth 7 a 0) 255)
      else v6_text a ms mz).
Proof.
  intros Ha Hw. destruct (zero_run_1 a Ha) as (ms&mz&Ez&Hr). exists ms, mz. split; [done|]. split; [done|]. unfold ircd_ntoa_r.
  destruct (irc_in_addr_is_ipv4 a).
  - do 8 (destruct a as [|? a]; [done|]). destruct a; [|done]. unfold words in Hw. rewrite !Forall_cons in Hw.
    destruct Hw as (_&_&_&_&_&_&H6&H7&_). cbn [seg rd lookup list_lookup of_option mbind result_bind nth].
    change 255 with (Z.ones 8). rewrite !Z.land_ones, !Z.shiftr_div_pow2 by lia. change (2 ^ 8) with 256.
    assert (Hq : forall x, 0 <= x < 65536 -> 0 <= x / 256 < 256) by (intros x Hx; split; [apply Z.div_pos; lia|apply Z.div_lt_upper_bound; lia]).
    cbn. rewrite !quad_spec by (try apply Z.mod_pos_bound; auto; lia). done.
  - rewrite Ez. cbn [mbind result_bind]. by apply print_v6.
Qed.

Lemma words_nth a i : words a -> 0 <= nth i a 0 < 65536.
Proof. intros Hw. destruct (nth_in_or_default i a 0) as [Hin| ->]; [|lia]. unfold words in Hw. rewrite Forall_forall in Hw. by apply Hw, list_elem_of_In. Qed.

Lemma v4_length b0 b1 b2 b3 :
  0 <= b0 < 256 -> 0 <= b1 < 256 -> 0 <= b2 < 256 -> 0 <= b3 < 256 ->
  (length (v4_text b0 b1 b2 b3) <= 15)%nat /\ is_cstr (v4_text b0 b1 b2 b3).
Proof.
  assert (Hl : forall b, 0 <= b < 256 -> (length (dec b) <= 3)%nat /\ is_cstr (dec b)).
  { intros b Hb. assert (forallb (fun k => bool_decide ((length (dec (Z.of_nat k)) <= 3)%nat /\ is_cstr (dec (Z.of_nat k)))) (seq 0 256) = true) as H
      by (vm_compute; reflexivity). rewrite forallb_forall in H. specialize (H (Z.to_nat b)). rewrite Z2Nat.id in H by lia.
    assert (In (Z.to_nat b) (seq 0 256)) as Hin by (apply in_seq; lia). by apply H, bool_decide_eq_true in Hin. }
  intros [? ?]%Hl [? ?]%Hl [? ?]%Hl [? ?]%Hl. unfold v4_text. split; [do 4 (rewrite ?length_app; cbn [length]); lia|].
  repeat (apply is_cstr_app; split; [done|]; apply is_cstr_cons; split; [done|]). done.
Qed.

Lemma byte_bounds x : 0 <= x < 65536 -> 0 <= Z.shiftr x 8 < 256 /\ 0 <= Z.land x 255 < 256.
Proof.
  intros Hx. change 255 with (Z.ones 8). rewrite Z.land_ones, Z.shiftr_div_pow2 by lia. change (2 ^ 8) with 256.
  split; [split; [apply Z.div_pos; lia|apply Z.div_lt_upper_bound; lia]|by apply Z.mod_pos_bound].
Qed.

(** The address a text of an address stands for *)
Definition comes_back (a a' : ip_addr) : Prop :=
  if irc_in_addr_is_ipv4 a then a' = mapped (nth 6 a 0) (nth 7 a 0)
  else (a' = a <-> skips_zeros a = true) /\ ((zero_runs false (tl a) <= 1)%nat -> a' = a).

Lemma ntoa_parse a :
  length a = 8%nat -> words a ->
  exists text a', ircd_ntoa_r a = Ok text /\ is_cstr text /\ (length text < SOCKIPLEN)%nat /\ comes_back a a' /\
    (irc_in_addr_is_ipv4 a = true -> forall t n, tail4_is true t n -> ipmask_parse (text ++ t) true = Ok (Some (length (text ++ t), a', Some (n + 96)))) /\
    (irc_in_addr_is_ipv4 a = false -> forall t n, tail_is true t n -> ipmask_parse (text ++ t) true = Ok (Some (length (text ++ t), a', Some n))).
Proof.
  intros Ha Hw. destruct (ntoa_text a Ha Hw) as (ms&mz&Ez&Hr&->). unfold comes_back. destruct (irc_in_addr_is_ipv4 a) eqn:E4.
  - eexists _, (mapped (nth 6 a 0) (nth 7 a 0)). split; [done|].
    pose proof (words_nth a 6 Hw) as H6. pose proof (words_nth a 7 Hw) as H7.
    destruct (byte_bounds _ H6), (byte_bounds _ H7), (v4_length (Z.shiftr (nth 6 a 0) 8) (Z.land (nth 6 a 0) 255) (Z.shiftr (nth 7 a 0) 8) (Z.land (nth 7 a 0) 255)); try done.
    split_and!; [done|unfold SOCKIPLEN; lia|done| |done]. intros _ t n Ht. by apply parse_v4.
  - eexists _, (take ms a ++ replicate mz 0 ++ drop (ms + mz) a). split; [done|].
    destruct (v6_chars a ms mz Ha Hw Hr) as (Hc&Hl&_).
    assert (Hiff : take ms a ++ replicate mz 0 ++ drop (ms + mz) a = a <-> skips_zeros a = true).
    { unfold skips_zeros. rewrite Ez, bool_decide_eq_true. apply run_replaced; [done|lia]. }
    split_and!; [eapply Forall_impl; [exact Hc|by intros c []]|unfold SOCKIPLEN; lia|done| |done|].
    + intros Hz. by apply Hiff, single_run_skips_zeros.
    + intros _ t n Ht. by apply parse_v6_text.
Qed.

(** C29. The text of an address fits into the buffer, and ipmask_parse() reads all of it
    as an address with all its bits. An IPv4 address comes back in its mapped form; another
    one comes back unchanged exactly when the run that was left out was one of zeros, in
    particular when there is at most one run of zeros behind the first word. *)
Theorem ntoa_roundtrip a :
  length a = 8%nat -> words a ->
  exists text a', ircd_ntoa_r a = Ok text /\ (length text < SOCKIPLEN)%nat /\
    ipmask_parse text true = Ok (Some (length text, a', Some 128)) /\ comes_back a a'.
Proof.
  intros Ha Hw. destruct (ntoa_parse a Ha Hw) as (text&a'&E&_&Hl&Hc&H4&H6). exists text, a'. split_and!; try done.
  destruct (irc_in_addr_is_ipv4 a).
  - specialize (H4 eq_refl [] 32 (tail4_end _)). by rewrite app_nil_r in H4.
  - specialize (H6 eq_refl [] 128 (tail_end _)). by rewrite app_nil_r in H6.
Qed.

(** Witness of [ntoa_roundtrip]. *)
Lemma ntoa_roundtrip_witness :
  exists text a', ircd_ntoa_r [0x2001; 0xdb8; 0; 0; 0; 0xa; 0; 0x1234] = Ok text /\ (length text < SOCKIPLEN)%nat /\
    ipmask_parse text true = Ok (Some (length text, a', Some 128)) /\ comes_back [0x2001; 0xdb8; 0; 0; 0; 0xa; 0; 0x1234] a'.
Proof.
  apply (ntoa_roundtrip [0x2001; 0xdb8; 0; 0; 0; 0xa; 0; 0x1234]); [reflexivity|].
  apply (bool_decide_unpack _). vm_compute. exact I.
Defined.

(** With a second, shorter run the count of zeros is not reset, and words that are not zero are
    left out: different addresses have the same text. *)
Theorem ntoa_loses_words :
  ircd_ntoa_r [1; 0; 0; 2; 0; 3; 0; 0] = Ok (str "1:0:0:2:0::") /\
  ircd_ntoa_r [1; 0; 0; 2; 0; 4; 0; 0] = Ok (str "1:0:0:2:0::").
Proof. split; vm_compute; reflexivity. Qed.

(** * Ranges *)

Definition num (a : ip_addr) : Z := foldl (fun n x => n * 65536 + x) 0 a.

Lemma foldl_num a n : foldl (fun n x => n * 65536 + x) n a = n * 2 ^ (16 * Z.of_nat (length a)) + num a.
Proof.
  unfold num. revert n. induction a as [|x a IH]; intros n; [simpl; lia|]. cbn [foldl length].
  rewrite IH, (IH (0 * 65536 + x)), Nat2Z.inj_succ. replace (16 * Z.succ (Z.of_nat (length a))) with (16 + 16 * Z.of_nat (length a)) by lia.
  rewrite Z.pow_add_r by lia. change (2 ^ 16) with 65536. lia.
Qed.

Lemma num_cons x a : num (x :: a) = x * 2 ^ (16 * Z.of_nat (length a)) + num a.
Proof. unfold num at 1. cbn [foldl]. by rewrite foldl_num, Z.mul_0_l, Z.add_0_l. Qed.

Lemma num_range a : words a -> 0 <= num a < 2 ^ (16 * Z.of_nat (length a)).
Proof.
  induction 1 as [|x a Hx _ IH]; [done|]. rewrite num_cons. cbn [length]. rewrite Nat2Z.inj_succ.
  replace (16 * Z.succ (Z.of_nat (length a))) with (16 + 16 * Z.of_nat (length a)) by lia. rewrite Z.pow_add_r by lia.
  change (2 ^ 16) with 65536. nia.
Qed.

(** The bits of the number are those of the words, from the last one on. *)
Lemma num_bit a k :
  words a -> 0 <= k < 16 * Z.of_nat (length a) -> Z.testbit (num a) (16 * Z.of_nat (length a) - 1 - k) = addr_bit a k.
Proof.
  intros Hw. revert k. induction Hw as [|x a Hx Hw IH]; intros k Hk; [simpl in Hk; lia|]. cbn [length] in *.
  rewrite Nat2Z.inj_succ in *. set (m := 16 * Z.of_nat (length a)) in *. rewrite num_cons. fold m.
  pose proof (num_range a Hw) as Hn. fold m in Hn. rewrite <- lor_shiftl_add by lia. rewrite Z.lor_spec.
  destruct (decide (k < 16)).
  - rewrite addr_bit_head by lia. rewrite Z.shiftl_spec by lia.
    replace (16 * Z.succ (Z.of_nat (length a)) - 1 - k - m) with (15 - k) by lia.
    assert (Z.testbit (num a) (16 * Z.succ (Z.of_nat (length a)) - 1 - k) = false) as ->; [|by rewrite orb_false_r].
    rewrite <- (Z.mod_small (num a) (2 ^ m)) by lia. apply Z.mod_pow2_bits_high. lia.
  - rewrite Z.shiftl_spec_low by lia. cbn [orb]. replace k with ((k - 16) + 16) at 2 by lia. rewrite addr_bit_tail by lia.
    rewrite <- IH by lia. f_equal. lia.
Qed.

Lemma range_bits_spec j jmin pi pf :
  (j <= 15)%nat -> 0 <= jmin -> 0 <= pi -> 0 <= pf ->
  let '(pi', pf') := range_bits j jmin (2 ^ (15 - Z.of_nat j)) pi pf in
  0 <= pi' /\ 0 <= pf' /\ forall k, 0 <= k ->
    Z.testbit pi' k = Z.testbit pi k && negb (bool_decide (15 - Z.of_nat j <= k <= 15 - jmin)) /\
    Z.testbit pf' k = Z.testbit pf k || bool_decide (15 - Z.of_nat j <= k <= 15 - jmin).
Proof.
  intros Hj Hm. revert pi pf.
  assert (Hstep : forall j pi pf, (j <= 15)%nat -> 0 <= pi -> 0 <= pf ->
    let go := if decide (Z.of_nat j < jmin) then (pi, pf) else (Z.land pi (Z.lnot (2 ^ (15 - Z.of_nat j))), Z.lor pf (2 ^ (15 - Z.of_nat j))) in
    0 <= go.1 /\ 0 <= go.2 /\ forall k, 0 <= k ->
      Z.testbit go.1 k = Z.testbit pi k && negb (bool_decide (k = 15 - Z.of_nat j /\ k <= 15 - jmin)) /\
      Z.testbit go.2 k = Z.testbit pf k || bool_decide (k = 15 - Z.of_nat j /\ k <= 15 - jmin)).
  { clear j Hj. intros j pi pf Hj Hpi Hpf. cbv zeta. destruct (decide (Z.of_nat j < jmin)); cbn [fst snd].
    - split_and!; [done|done|]. intros k Hk. rewrite bool_decide_eq_false_2 by lia. by rewrite andb_true_r, orb_false_r.
    - assert (0 <= 2 ^ (15 - Z.of_nat j)) by (apply Z.pow_nonneg; lia).
      split_and!; [apply Z.land_nonneg; by left|by apply Z.lor_nonneg|]. intros k Hk. rewrite Z.land_spec, Z.lor_spec, Z.lnot_spec by done.
      destruct (decide (k = 15 - Z.of_nat j)) as [->|Hne].
      + rewrite Z.pow2_bits_true by lia. rewrite bool_decide_eq_true_2 by lia. done.
      + rewrite Z.pow2_bits_false by lia. by rewrite bool_decide_eq_false_2 by lia. }
  induction j as [|j IH]; intros pi pf Hpi Hpf; cbn [range_bits].
  - destruct (Hstep O pi pf ltac:(lia) Hpi Hpf) as (H1&H2&H3). change (15 - Z.of_nat 0) with 15 in *.
    set (go := if decide _ then _ else _) in *. destruct go as [pi' pf']. cbn [fst snd] in *. split_and!; try done.
    intros k Hk. destruct (H3 k Hk) as [-> ->]. by rewrite (bool_decide_ext (15 <= k <= 15 - jmin) (k = 15 /\ k <= 15 - jmin)) by lia.
  - destruct (Hstep (S j) pi pf Hj Hpi Hpf) as (H1&H2&H3). set (go := if decide _ then _ else _) in *. clearbody go.
    replace (2 ^ (15 - Z.of_nat (S j)) * 2) with (2 ^ (15 - Z.of_nat j)).
    2: { replace (15 - Z.of_nat j) with (Z.succ (15 - Z.of_nat (S j))) by lia. rewrite Z.pow_succ_r by lia. lia. }
    specialize (IH ltac:(lia) go.1 go.2 H1 H2). destruct (range_bits j jmin _ go.1 go.2) as [pi' pf']. destruct IH as (G1&G2&G3).
    split_and!; try done. intros k Hk. destruct (G3 k Hk) as [-> ->], (H3 k Hk) as [-> ->].
    rewrite <- andb_assoc, <- orb_assoc, <- negb_orb.
    assert (bool_decide (k = 15 - Z.of_nat (S j) /\ k <= 15 - jmin) || bool_decide (15 - Z.of_nat j <= k <= 15 - jmin) =
      bool_decide (15 - Z.of_nat (S j) <= k <= 15 - jmin)) as ->; [|done].
    rewrite <- bool_decide_or. apply bool_decide_ext. lia.
Qed.

Lemma bits_below z n : 0 <= z -> 0 <= n -> (forall k, n <= k -> Z.testbit z k = false) -> z < 2 ^ n.
Proof.
  intros Hz Hn Hk. destruct (decide (z = 0)) as [->|]; [apply Z.pow_pos_nonneg; lia|].
  apply Z.log2_lt_pow2; [lia|]. destruct (decide (n <= Z.log2 z)) as [Hl|]; [|lia].
  specialize (Hk _ Hl). by rewrite Z.bit_log2 in Hk by lia.
Qed.

Lemma word_bits_above x k : 0 <= x < 65536 -> 16 <= k -> Z.testbit x k = false.
Proof. intros Hx Hk. rewrite <- (Z.mod_small x (2 ^ 16)) by lia. by apply Z.mod_pow2_bits_high. Qed.

Lemma range_words_spec a i bits :
  words a -> 0 <= i -> 0 <= bits ->
  let '(ini, fin) := range_words i (bits / 16) bits a in
  words ini /\ words fin /\ length ini = length a /\ length fin = length a /\
  forall k, 0 <= k < 16 * Z.of_nat (length a) ->
    addr_bit ini k = addr_bit a k && bool_decide (16 * i + k < bits) /\
    addr_bit fin k = addr_bit a k || negb (bool_decide (16 * i + k < bits)).
Proof.
  intros Hw. revert i. induction Hw as [|x a Hx Hw IH]; intros i Hi Hb.
  { cbn [range_words length]. split_and!; [constructor|constructor|done|done|]. intros k Hk. lia. }
  cbn [range_words]. specialize (IH (i + 1) ltac:(lia) Hb). destruct (range_words (i + 1) (bits / 16) bits a) as [ini fin].
  destruct IH as (H1&H2&H3&H4&H5). pose proof (Z.div_mod bits 16 ltac:(lia)) as Hdm. pose proof (Z.mod_pos_bound bits 16 ltac:(lia)) as Hmb.
  assert (Htail : forall y z k, 16 <= k < 16 * Z.of_nat (length (x :: a)) -> addr_bit (y :: ini) k = addr_bit (x :: a) k && bool_decide (16 * i + k < bits) /\
    addr_bit (z :: fin) k = addr_bit (x :: a) k || negb (bool_decide (16 * i + k < bits))).
  { intros y z k Hk. replace k with (k - 16 + 16) by lia. rewrite !addr_bit_tail by lia. cbn [length] in Hk.
    destruct (H5 (k - 16)) as [-> ->]; [lia|]. by rewrite (bool_decide_ext (16 * (i + 1) + (k - 16) < bits) (16 * i + (k - 16 + 16) < bits)) by lia. }
  destruct (decide (i < bits / 16)).
  - split_and!; [by constructor|by constructor|by simpl; rewrite H3|by simpl; rewrite H4|]. intros k Hk.
    destruct (decide (k < 16)); [|apply Htail; lia]. rewrite !addr_bit_head by lia. rewrite bool_decide_eq_true_2 by lia.
    by rewrite andb_true_r, orb_false_r.
  - set (jmin := if decide (i = bits / 16) then bits - bits / 16 * 16 else 0).
    assert (0 <= jmin /\ forall k, 0 <= k < 16 -> k < jmin <-> 16 * i + k < bits) as [Hj0 Hj] by (subst jmin; destruct (decide _); (split; [lia|intros k Hk; lia])).
    pose proof (range_bits_spec 15 jmin x x ltac:(lia) Hj0 ltac:(lia) ltac:(lia)) as Hr. change (2 ^ (15 - Z.of_nat 15)) with 1 in Hr.
    destruct (range_bits 15 jmin 1 x x) as [pi pf]. destruct Hr as (R1&R2&R3). change (15 - Z.of_nat 15) with 0 in R3.
    assert (0 <= pi < 65536 /\ 0 <= pf < 65536) as [Hpi Hpf].
    { split; (split; [done|]); apply (bits_below _ 16); try done; intros k Hk; destruct (R3 k) as [E1 E2]; try lia; rewrite ?E1, ?E2;
        rewrite (word_bits_above x k) by done; [done|]. by rewrite bool_decide_eq_false_2 by lia. }
    split_and!; [by constructor|by constructor|by simpl; rewrite H3|by simpl; rewrite H4|]. intros k Hk.
    destruct (decide (k < 16)) as [Hk16|]; [|apply Htail; lia]. rewrite !addr_bit_head by lia. destruct (R3 (15 - k)) as [-> ->]; [lia|].
    specialize (Hj k ltac:(lia)).
    assert (bool_decide (0 <= 15 - k <= 15 - jmin) = negb (bool_decide (16 * i + k < bits))) as ->.
    { rewrite <- bool_decide_not. apply bool_decide_ext. rewrite <- Hj. lia. }
    by rewrite negb_involutive.
Qed.

Lemma num_testbit a j : length a = 8%nat -> words a -> 0 <= j < 128 -> Z.testbit (num a) j = addr_bit a (127 - j).
Proof. intros Ha Hw Hj. rewrite <- num_bit by (done || lia). f_equal. lia. Qed.

Lemma num_high a j : length a = 8%nat -> words a -> 128 <= j -> Z.testbit (num a) j = false.
Proof.
  intros Ha Hw Hj. pose proof (num_range a Hw) as Hr. rewrite Ha in Hr. change (16 * Z.of_nat 8) with 128 in Hr.
  rewrite <- (Z.mod_small (num a) (2 ^ 128)) by done. by apply Z.mod_pow2_bits_high.
Qed.

(** The first [n] bits are equal, in terms of the numbers *)
Lemma same_bits_num a b n :
  length a = 8%nat -> words a -> length b = 8%nat -> words b -> 0 <= n <= 128 ->
  same_bits a b n <-> Z.shiftr (num a) (128 - n) = Z.shiftr (num b) (128 - n).
Proof.
  intros Ha Hwa Hb Hwb Hn. split.
  - intros H. apply Z.bits_inj'. intros j Hj. rewrite !Z.shiftr_spec by done.
    destruct (decide (j + (128 - n) < 128)); [|by rewrite !num_high by (done || lia)].
    rewrite !num_testbit by (done || lia). apply H. lia.
  - intros H i Hi. apply (f_equal (fun z => Z.testbit z (n - 1 - i))) in H. rewrite !Z.shiftr_spec in H by lia.
    rewrite !num_testbit in H by (done || lia). by replace (127 - (n - 1 - i + (128 - n))) with i in H by lia.
Qed.

Lemma range_num a n :
  length a = 8%nat -> words a -> 0 <= n <= 128 ->
  let '(ini, fin) := range_words 0 (n / 16) n a in
  words ini /\ words fin /\ length ini = 8%nat /\ length fin = 8%nat /\
  num ini = Z.shiftr (num a) (128 - n) * 2 ^ (128 - n) /\ num fin = num ini + (2 ^ (128 - n) - 1).
Proof.
  intros Ha Hw Hn. pose proof (range_words_spec a 0 n Hw ltac:(lia) ltac:(lia)) as H.
  destruct (range_words 0 (n / 16) n a) as [ini fin]. destruct H as (H1&H2&H3&H4&H5). rewrite Ha in *. set (m := 128 - n).
  assert (Hini : num ini = Z.shiftl (Z.shiftr (num a) m) m).
  { apply Z.bits_inj'. intros j Hj. rewrite Z.shiftl_spec by done. destruct (decide (j < 128)).
    - rewrite num_testbit by (done || lia). destruct (H5 (127 - j)) as [-> _]; [lia|]. destruct (decide (m <= j)).
      + rewrite Z.shiftr_spec by lia. rewrite bool_decide_eq_true_2 by lia. rewrite andb_true_r, <- num_testbit by (done || lia). f_equal. lia.
      + rewrite (Z.testbit_neg_r _ (j - m)) by lia. rewrite bool_decide_eq_false_2 by lia. by rewrite andb_false_r.
    - rewrite num_high by (done || lia). rewrite Z.shiftr_spec by lia. by rewrite num_high by (done || lia). }
  assert (Hfin : num fin = Z.lor (Z.shiftl (Z.shiftr (num a) m) m) (Z.ones m)).
  { rewrite <- Hini. apply Z.bits_inj'. intros j Hj. rewrite Z.lor_spec, Z.testbit_ones_nonneg by lia. destruct (decide (j < 128)).
    - rewrite !num_testbit by (done || lia). destruct (H5 (127 - j)) as [-> ->]; [lia|]. destruct (Z.ltb_spec j m).
      + rewrite bool_decide_eq_false_2 by lia. by rewrite !orb_true_r.
      + rewrite bool_decide_eq_true_2 by lia. cbn [negb]. by rewrite andb_true_r.
    - rewrite !num_high by (done || lia). destruct (Z.ltb_spec j m); [lia|done]. }
  split_and!; try done.
  - rewrite Hini. apply Z.shiftl_mul_pow2. lia.
  - assert (0 < 2 ^ m) by (apply Z.pow_pos_nonneg; lia). rewrite Hfin, Hini, lor_shiftl_add, Z.shiftl_mul_pow2, Z.ones_equiv by (rewrite ?Z.ones_equiv; lia). lia.
Qed.

(** C30. ipmask_range() and ipmask_check() agree: the addresses between the first and the last
    one of a range are those that the check accepts for the mask, whatever its number of
    bits, with 96 bits more for an IPv4 address. *)
Theorem ipmask_range_correct a b bits :
  length a = 8%nat -> words a -> length b = 8%nat -> words b ->
  0 <= bits <= (if irc_in_addr_is_ipv4 a then 32 else 128) ->
  let '(ini, fin) := ipmask_range a bits in
  words ini /\ words fin /\
  (num ini <= num b <= num fin <-> ipmask_check b a (if irc_in_addr_is_ipv4 a then bits + 96 else bits) = 1).
Proof.
  intros Ha Hwa Hb Hwb Hbits. unfold ipmask_range. set (n := if irc_in_addr_is_ipv4 a then bits + 96 else bits).
  assert (0 <= n <= 128) as Hn by (subst n; destruct (irc_in_addr_is_ipv4 a); lia). clearbody n.
  pose proof (range_num a n Ha Hwa Hn) as H. destruct (range_words 0 (n / 16) n a) as [ini fin].
  destruct H as (H1&H2&_&_&E1&E2). split; [done|]. split; [done|].
  destruct (ipmask_check_correct b a n Hb Ha Hwb Hwa Hn) as [-> _]. fold (same_bits b a n).
  rewrite (same_bits_num b a n) by done. rewrite E2, E1, !Z.shiftr_div_pow2 by lia.
  assert (0 < 2 ^ (128 - n)) as Hpos by (apply Z.pow_pos_nonneg; lia). set (p := 2 ^ (128 - n)) in *. split.
  - intros Hi. symmetry. apply (Z.div_unique_pos _ _ _ (num b - num a / p * p)); lia.
  - intros <-. pose proof (Z.div_mod (num b) p). pose proof (Z.mod_pos_bound (num b) p). lia.
Qed.

(** Witness of [ipmask_range_correct]. *)
Lemma ipmask_range_correct_witness :
  let '(ini, fin) := ipmask_range (mapped 0xc0a8 0x0107) 23 in
  words ini /\ words fin /\
  (num ini <= num (mapped 0xc0a8 0x00ff) <= num fin <-> ipmask_check (mapped 0xc0a8 0x00ff) (mapped 0xc0a8 0x0107) (23 + 96) = 1).
Proof.
  apply (ipmask_range_correct (mapped 0xc0a8 0x0107) (mapped 0xc0a8 0x00ff) 23); [reflexivity| |reflexivity| |].
  1-2: apply (bool_decide_unpack _); vm_compute; exact I.
  vm_compute. split; discriminate.
Defined.

Lemma range_words_full a i bits : i + Z.of_nat (length a) <= bits / 16 -> range_words i (bits / 16) bits a = (a, a).
Proof.
  revert i. induction a as [|x a IH]; intros i Hi; [done|]. cbn [range_words length] in *. rewrite IH by lia. by rewrite decide_True by lia.
Qed.

Definition full_bits (a : ip_addr) (bits : Z) : Z := if irc_in_addr_is_ipv4 a then cidr_bits a bits + 96 else cidr_bits a bits.

(** The text of a mask denotes the mask: ipmask_parse() reads all of it as the first address of
    the range with the number of bits of the mask, 32, 48 or 64 when none was given. This needs that the first
    address of the range is an IPv4 one just if the address is. *)
Theorem ntoa_cidr_roundtrip a bits :
  length a = 8%nat -> words a -> 0 <= bits <= (if irc_in_addr_is_ipv4 a then 32 else 128) ->
  let ini := (ipmask_range a (cidr_bits a bits)).1 in
  irc_in_addr_is_ipv4 ini = irc_in_addr_is_ipv4 a ->
  exists text a', ircd_ntoa_cidr_r a bits = Ok text /\ (length text < SOCKIPLEN + 4)%nat /\
    ipmask_parse text true = Ok (Some (length text, a', Some (full_bits a bits))) /\ comes_back ini a'.
Proof.
  intros Ha Hw Hb ini Hk. unfold full_bits, ircd_ntoa_cidr_r.
  assert (0 <= cidr_bits a bits <= (if irc_in_addr_is_ipv4 a then 32 else 128)) as Hc.
  { unfold cidr_bits. repeat destruct (decide _); destruct (irc_in_addr_is_ipv4 a); lia. }
  set (n := cidr_bits a bits) in *. clearbody n.
  assert (length ini = 8%nat /\ words ini /\ (n = (if irc_in_addr_is_ipv4 a then 32 else 128) -> ini = a)) as (Hli&Hwi&Hfull).
  { subst ini. unfold ipmask_range. set (m := if irc_in_addr_is_ipv4 a then n + 96 else n).
    assert (0 <= m <= 128) as Hm by (subst m; destruct (irc_in_addr_is_ipv4 a); lia).
    pose proof (range_num a m Ha Hw Hm) as H. pose proof (range_words_full a 0 m) as Hf. rewrite Ha in Hf.
    destruct (range_words 0 (m / 16) m a) as [ini fin]. destruct H as (?&_&?&_). split_and!; [done|done|]. intros En.
    assert (m = 128) as Em by (subst m; destruct (irc_in_addr_is_ipv4 a); lia). subst m. rewrite Em in Hf.
    specialize (Hf ltac:(vm_compute; discriminate)). by injection Hf. }
  destruct (ntoa_parse ini Hli Hwi) as (text&a'&E&Hcs&Hl&Hcb&H4&H6). rewrite Hk in H4, H6.
  assert (Hdec : (length (dec n) <= 3)%nat).
  { assert (forallb (fun k => bool_decide (length (dec (Z.of_nat k)) <= 3)%nat) (seq 0 129) = true) as Hall by (vm_compute; reflexivity).
    rewrite forallb_forall in Hall. specialize (Hall (Z.to_nat n)). rewrite Z2Nat.id in Hall by lia.
    apply (bool_decide_eq_true (length (dec n) <= 3)%nat), Hall, in_seq. destruct (irc_in_addr_is_ipv4 a); lia. }
  destruct (decide (n = (if irc_in_addr_is_ipv4 a then 32 else 128))) as [En|En].
  - exists text, a'. rewrite (Hfull En) in E. assert ((irc_in_addr_is_ipv4 a && bool_decide (n = 32)) || (negb (irc_in_addr_is_ipv4 a) && bool_decide (n = 128)) = true) as ->.
    { destruct (irc_in_addr_is_ipv4 a); rewrite En; done. }
    split; [done|]. split; [lia|]. split; [|done]. destruct (irc_in_addr_is_ipv4 a).
    + specialize (H4 eq_refl [] 32 (tail4_end _)). rewrite app_nil_r in H4. by rewrite En.
    + specialize (H6 eq_refl [] 128 (tail_end _)). rewrite app_nil_r in H6. by rewrite En.
  - exists (text ++ "/"%char :: dec n), a'.
    assert ((irc_in_addr_is_ipv4 a && bool_decide (n = 32)) || (negb (irc_in_addr_is_ipv4 a) && bool_decide (n = 128)) = false) as ->.
    { destruct (irc_in_addr_is_ipv4 a); cbn [andb negb orb]; rewrite ?orb_false_r; by apply bool_decide_eq_false_2. }
    change (ircd_ntoa_r (ipmask_range a n).1) with (ircd_ntoa_r ini). rewrite E. cbn [mbind result_bind].
    split; [done|]. split; [rewrite length_app; cbn [length]; lia|]. split; [|done]. destruct (irc_in_addr_is_ipv4 a).
    + apply H4; [done|]. by constructor.
    + apply H6; [done|]. by constructor.
Qed.

(** Witness of [ntoa_cidr_roundtrip]. *)
Lemma ntoa_cidr_roundtrip_witness :
  let ini := (ipmask_range [0x2001; 0xdb8; 0xffff; 1; 2; 3; 4; 5] (cidr_bits [0x2001; 0xdb8; 0xffff; 1; 2; 3; 4; 5] 33)).1 in
  exists text a', ircd_ntoa_cidr_r [0x2001; 0xdb8; 0xffff; 1; 2; 3; 4; 5] 33 = Ok text /\ (length text < SOCKIPLEN + 4)%nat /\
    ipmask_parse text true = Ok (Some (length text, a', Some (full_bits [0x2001; 0xdb8; 0xffff; 1; 2; 3; 4; 5] 33))) /\ comes_back ini a'.
Proof.
  apply (ntoa_cidr_roundtrip [0x2001; 0xdb8; 0xffff; 1; 2; 3; 4; 5] 33); [reflexivity| | |vm_compute; reflexivity].
  - apply (bool_decide_unpack _). vm_compute. exact I.
  - vm_compute. split; discriminate.
Defined.

(** * Every text is read safely *)

Definition dots (s : cstring) : Z := Z.of_nat (length (List.filter (fun c => bool_decide (c = "."%char)) s)).

Lemma dots_cons c s : dots (c :: s) = (if decide (c = "."%char) then 1 else 0) + dots s.
Proof. unfold dots. cbn [List.filter]. destruct (decide (c = "."%char)); [rewrite bool_decide_eq_true_2 by done|rewrite bool_decide_eq_false_2 by done]; cbn [length]; lia. Qed.

Lemma dots_nonneg s : 0 <= dots s.
Proof. unfold dots. lia. Qed.

Lemma skip_while_length f s pos s' pos' : skip_while f s pos = (s', pos') -> (pos' + length s' = pos + length s)%nat.
Proof.
  revert pos. induction s as [|c s IH]; intros pos; cbn [skip_while]; [by intros [= <- <-]|].
  destruct (f c); [intros H%IH; cbn [length]; lia|by intros [= <- <-]].
Qed.

Lemma u32_nonneg z : 0 <= u32 z < 2 ^ 32.
Proof. unfold u32. by apply Z.mod_pos_bound. Qed.

Lemma read_num_ok s pos n m s' pos' :
  read_num s pos n = (m, s', pos') -> 0 <= n -> 0 <= m /\ (pos <= pos' <= pos + length s)%nat.
Proof.
  revert pos n. induction s as [|c s IH]; intros pos n; cbn [read_num]; [intros [= <- <- <-] ?; simpl; split; [done|lia]|].
  destruct (isDigit c); [|intros [= <- <- <-] ?; cbn [length]; split; [done|lia]].
  intros H Hn. destruct (IH _ _ H) as [? ?]; [apply u32_nonneg|]. cbn [length]. split; [done|lia].
Qed.

Lemma shift_in_ok ip part d : 0 <= d <= 3 -> 0 <= ip < 2 ^ 32 -> exists ip', shift_in ip part d = Ok ip' /\ 0 <= ip' < 2 ^ 32.
Proof.
  intros Hd Hip. unfold shift_in. assert (u32 (24 - 8 * d) = 24 - 8 * d) as -> by (unfold u32; apply Z.mod_small; lia).
  rewrite decide_True by lia. eexists. split; [done|]. pose proof (u32_nonneg (Z.shiftl part (24 - 8 * d))).
  split; [apply Z.lor_nonneg; lia|]. apply bits_below; [apply Z.lor_nonneg; lia|lia|]. intros k Hk. rewrite Z.lor_spec.
  assert (Hb : forall z, 0 <= z < 2 ^ 32 -> Z.testbit z k = false).
  { intros z Hz. rewrite <- (Z.mod_small z (2 ^ 32)) by done. apply Z.mod_pow2_bits_high. lia. }
  by rewrite !Hb.
Qed.

Definition aton_fine (pos len : nat) (r : option (nat * Z * Z)) : Prop :=
  match r with Some (p, ip, b) => (pos <= p <= len)%nat /\ 0 <= ip < 2 ^ 32 /\ 0 <= b <= 32 | None => True end.

Lemma aton_loop_ok s pbits pos d part ip :
  0 <= d -> d + dots s <= 3 -> 0 <= ip < 2 ^ 32 ->
  exists r, aton_loop s pbits pos d part ip = Ok r /\ aton_fine pos (pos + length s) r.
Proof.
  revert pos d part ip. induction s as [|c s IH]; intros pos d part ip Hd Hn Hip; cbn [aton_loop].
  { destruct (decide (d < 3)); [by exists None|]. change (dots []) with 0 in Hn. destruct (shift_in_ok ip part d) as (ip'&->&?); [lia|done|].
    cbn [mbind result_bind]. eexists. split; [done|]. simpl. split_and!; try done; lia. }
  rewrite dots_cons in Hn. pose proof (dots_nonneg s). cbn [length]. destruct (decide (c = "."%char)).
  - destruct (decide _); [by exists None|]. destruct (shift_in_ok ip part d) as (ip'&->&?); [lia|done|]. cbn [mbind result_bind].
    destruct (decide (chr s = "*"%char)) as [Hs|].
    + destruct (skip_while _ (adv s) (pos + 2)) as [s' pos'] eqn:Es. apply skip_while_length in Es.
      destruct s as [|y s]; [done|]. cbn [adv tl length] in *. destruct (decide (s' <> [])) as [|Hs']; [by exists None|]. apply dec_stable in Hs' as ->. cbn [length] in Es.
      eexists. split; [done|].
      assert (u8 ((d + 1) * 8) = (d + 1) * 8) as -> by (unfold u8; apply Z.mod_small; lia). simpl. split_and!; try done; lia.
    + destruct (IH (S pos) (d + 1) 0 ip') as (r&->&Hr); [lia|lia|done|]. exists r. split; [done|]. destruct r as [[[p i] b]|]; [|done]. simpl in *. lia.
  - destruct (decide (c = "/"%char)).
    + destruct (negb pbits || _); [by exists None|]. destruct (read_num s (S pos) 0) as [[bits s'] pos'] eqn:Er.
      apply read_num_ok in Er as [? ?]; [|done]. destruct (decide (32 < bits)); [by exists None|].
      destruct (shift_in_ok ip part d) as (ip'&->&?); [lia|done|]. cbn [mbind result_bind]. eexists. split; [done|]. simpl. split_and!; try done; lia.
    + destruct (num_digit c); [|by exists None]. destruct (decide _); [by exists None|].
      destruct (IH (S pos) d (part * 10 + (uchar c - 48)) ip) as (r&->&Hr); [lia|lia|done|]. exists r. split; [done|].
      destruct r as [[[p i] b]|]; [|done]. simpl in *. lia.
Qed.

Lemma words_insert a i x : words a -> 0 <= x < 65536 -> words (<[i := x]> a).
Proof. intros Hw Hx. by apply Forall_insert. Qed.

Lemma wr_word a i x : length a = 8%nat -> words a -> (i < 8)%nat -> 0 <= x < 65536 ->
  exists a', wr a i x = Ok a' /\ length a' = 8%nat /\ words a'.
Proof. intros Ha Hw Hi Hx. rewrite wr_lt by lia. eexists. split; [done|]. rewrite length_insert. split; [done|by apply words_insert]. Qed.

Lemma shift_up_ok n jj ii ip :
  (jj + n <= ii)%nat -> (ii <= 8)%nat -> length ip = 8%nat -> words ip ->
  exists ip', shift_up n jj ii ip = Ok ip' /\ length ip' = 8%nat /\ words ip'.
Proof.
  revert jj ip. induction n as [|n IH]; intros jj ip Hn Hi Hl Hw; [by exists ip|]. cbn [shift_up].
  destruct (rd_lt ip (ii - jj - 1)) as (x&->&Hx); [lia|]. cbn [mbind result_bind].
  assert (0 <= x < 65536) as Hxr by (unfold words in Hw; rewrite Forall_forall in Hw; by eapply Hw, list_elem_of_lookup_2).
  destruct (wr_word ip (7 - jj) x) as (ip'&->&?&?); [done|done|lia|done|]. cbn [mbind result_bind]. apply IH; (done || lia).
Qed.

Lemma zero_words_ok n jj colon ip :
  (colon + jj + n <= 8)%nat -> length ip = 8%nat -> words ip -> exists ip', zero_words n jj colon ip = Ok ip' /\ length ip' = 8%nat /\ words ip'.
Proof.
  revert jj ip. induction n as [|n IH]; intros jj ip Hn Hl Hw; [by exists ip|]. cbn [zero_words].
  destruct (wr_word ip (colon + jj) 0) as (ip'&->&?&?); [done|done|lia|lia|]. cbn [mbind result_bind]. apply IH; (done || lia).
Qed.

Lemma finish_total colon ii ip :
  (colon = 8 \/ colon <= ii)%nat -> (ii <= 8)%nat -> length ip = 8%nat -> words ip ->
  exists ip', finish colon ii ip = Ok ip' /\ length ip' = 8%nat /\ words ip'.
Proof.
  intros Hc Hi Hl Hw. unfold finish. destruct (decide _); [|by exists ip].
  destruct (shift_up_ok (ii - colon) 0 ii ip) as (ip'&->&?&?); [lia..|done|done|]. cbn [mbind result_bind]. apply zero_words_ok; (done || lia).
Qed.

(** The result of ipmask_parse() *)
Definition parse_fine (len : nat) (r : option (nat * ip_addr * option Z)) : Prop :=
  match r with
  | Some (p, ip, b) => (p <= len)%nat /\ length ip = 8%nat /\ words ip /\ match b with Some n => 0 <= n <= 128 | None => True end
  | None => True
  end.

(** A colon comes before any full stop. *)
Fixpoint colon_first (s : cstring) : Prop :=
  match s with [] => False | c :: s => c = ":"%char \/ (c <> "."%char /\ colon_first s) end.

Lemma strchr_colon_first s :
  match strchr s ":"%char, strchr s "."%char with
  | Some c, Some d => bool_decide (c < d)%nat | Some _, None => true | None, _ => false end = true -> colon_first s.
Proof.
  unfold strchr. induction s as [|c s IH]; [done|]. cbn [list_find colon_first].
  destruct (decide (c = ":"%char)) as [|Hc]; [by left|]. intros H. right. destruct (decide (c = "."%char)) as [->|Hd].
  - cbn [fmap option_fmap option_map fst] in H. destruct (list_find _ s) as [[i x]|]; [|done]. cbn in H. apply bool_decide_eq_true in H. lia.
  - split; [done|]. apply IH. destruct (list_find (fun d => d = ":"%char) s) as [[i x]|], (list_find (fun d => d = "."%char) s) as [[j y]|]; try done.
    cbn in *. apply bool_decide_eq_true in H. apply bool_decide_eq_true. lia.
Qed.

Lemma parse_done colon total pos ii ip bits :
  (colon = 8 \/ colon <= ii)%nat -> (ii <= 8)%nat -> length ip = 8%nat -> words ip -> (pos <= total)%nat ->
  match bits with Some n => 0 <= n <= 128 | None => True end ->
  exists r, (ip ← finish colon ii ip; Ok (Some (pos, ip, bits))) = Ok r /\ parse_fine total r.
Proof.
  intros Hc Hi Hl Hw Hp Hb. destruct (finish_total colon ii ip) as (ip'&->&?&?); try done. cbn [mbind result_bind].
  eexists. split; [done|]. done.
Qed.

Lemma hexval_range c v : hexval c = Some v -> 0 <= v < 16 /\ c <> "."%char /\ c <> ":"%char.
Proof.
  intros H. split.
  - unfold hexval in H. pose proof (uchar_range c). repeat destruct (decide _); simplify_eq; lia.
  - split; by intros ->.
Qed.

Lemma parse_loop_ok pbits total fuel s pos part ii colon ps ip :
  (length s < fuel)%nat -> (ii <= 8)%nat -> (colon = 8 \/ colon <= ii)%nat -> length ip = 8%nat -> words ip -> 0 <= part < 65536 ->
  dots s <= 3 -> match ps with Some (q, st) => dots q <= 3 /\ (st + length q <= total)%nat | None => colon_first s end ->
  (pos + length s = total)%nat ->
  exists r, parse_loop fuel s pbits pos part ii colon ps ip = Ok r /\ parse_fine total r.
Proof.
  revert s pos part ii colon ps ip. induction fuel as [|fuel IH]; intros s pos part ii colon ps ip Hf Hii Hc Hl Hw Hp Hd Hps Hpos; [lia|].
  cbn [parse_loop]. destruct (decide (8 <= ii)%nat); [apply parse_done; try done; lia|].
  destruct s as [|c s].
  { destruct (wr_word ip ii part) as (ip'&->&?&?); [done|done|lia|done|]. cbn [mbind result_bind].
    destruct (decide _); [by exists None|]. apply parse_done; try done; simpl in *; lia. }
  rewrite dots_cons in Hd. pose proof (dots_nonneg s). cbn [length] in *.
  assert (dots s <= 3) as Hds by (destruct (decide (c = "."%char)); lia).
  destruct (hexval c) as [v|] eqn:Ev.
  { destruct (hexval_range c v Ev) as (Hv&Hnd&Hnc). set (part' := Z.lor _ _). destruct (decide (65535 < part')) as [|Hpart]; [by exists None|].
    assert (0 <= part') by (apply Z.lor_nonneg; split; [apply u32_nonneg|lia]).
    apply IH; try done; try lia. destruct ps as [[q st]|]; [exact Hps|]. by destruct Hps as [|[_ ?]]. }
  destruct (decide (c = ":"%char)) as [->|Hnc].
  { destruct (decide (chr s = "."%char)); [by exists None|].
    destruct (wr_word ip ii part) as (ip'&->&?&?); [done|done|lia|done|]. cbn [mbind result_bind].
    destruct (decide (chr s = ":"%char)) as [Hs|].
    - destruct (decide (colon < 8)%nat); [by exists None|]. destruct s as [|y s]; [done|]. simpl in Hs. subst y. cbn [adv tl length] in *.
      rewrite dots_cons in *. apply IH; try done; try lia. split; [rewrite dots_cons; lia|cbn [length]; lia].
    - apply IH; try done; try lia. }
  destruct (decide (c = "."%char)) as [->|Hnd].
  { destruct ps as [[q st]|]; [|by destruct Hps as [|[]]]. destruct Hps as [Hdq Hq]. cbn [of_option mbind result_bind].
    assert (exists r, ircd_aton_ip4 q pbits = Ok r /\ aton_fine 0 (length q) r) as (r&->&Hr).
    { unfold ircd_aton_ip4. destruct (decide _); [by exists None|]. apply aton_loop_ok; lia. }
    cbn [mbind result_bind]. destruct r as [[[len ip4] bits]|]; [|by exists None]. destruct Hr as (Hlen&Hip&Hb).
    destruct (decide (6 < ii)%nat); [by exists None|].
    assert (0 <= Z.shiftr ip4 16 < 65536 /\ 0 <= Z.land ip4 65535 < 65536) as [H1 H2].
    { change 65535 with (Z.ones 16). rewrite Z.land_ones, Z.shiftr_div_pow2 by lia. change (2 ^ 16) with 65536.
      split; [split; [apply Z.div_pos; lia|apply Z.div_lt_upper_bound; lia]|by apply Z.mod_pos_bound]. }
    destruct (wr_word ip ii (Z.shiftr ip4 16)) as (ip1&->&?&?); [done|done|lia|done|]. cbn [mbind result_bind].
    destruct (wr_word ip1 (S ii) (Z.land ip4 65535)) as (ip2&->&?&?); [done|done|lia|done|]. cbn [mbind result_bind].
    apply parse_done; try done; try lia. unfold u8. rewrite Z.mod_small by lia. lia. }
  destruct (decide (c = "/"%char)).
  { destruct (negb pbits || _); [by exists None|]. destruct (wr_word ip ii part) as (ip'&->&?&?); [done|done|lia|done|]. cbn [mbind result_bind].
    destruct (read_num s (S pos) 0) as [[n' s'] pos'] eqn:Er. apply read_num_ok in Er as [? ?]; [|done].
    destruct (decide (128 < n')); [by exists None|]. apply parse_done; try done; lia. }
  destruct (decide (c = "*"%char)); [|by exists None].
  destruct (skip_while _ s (S pos)) as [s' pos'] eqn:Es. apply skip_while_length in Es.
  destruct (decide _) as [|Hn]; [by exists None|]. eexists. split; [done|]. simpl.
  assert (u8 (Z.of_nat ii * 16) = Z.of_nat ii * 16) as -> by (unfold u8; apply Z.mod_small; lia). split_and!; try done; lia.
Qed.

(** C31. With three full stops at most, every text is read within its bounds and the array of the address is
    written within its own. When it is not refused, the answer counts no more characters than the text has,
    the address is one, and the bits are 128 at most. *)
Theorem ipmask_parse_safe input pbits :
  dots input <= 3 -> exists r, ipmask_parse input pbits = Ok r /\ parse_fine (length input) r.
Proof.
  intros Hd. unfold ipmask_parse. pose proof (strchr_colon_first input) as Hcf.
  assert (Hz : length (replicate 8 0) = 8%nat /\ words (replicate 8 0)) by (split; [done|by apply Forall_replicate]). destruct Hz as [Hz1 Hz2].
  destruct (match strchr input ":"%char with Some _ => _ | None => _ end) eqn:Eb.
  - specialize (Hcf eq_refl). destruct (decide (chr input = ":"%char)) as [Hc|Hc].
    + destruct (decide _) as [|Hn]; [by exists None|]. destruct input as [|a [|b s]]; [done|exfalso; apply Hn; by left|].
      cbn [adv tl length] in *. rewrite !dots_cons in Hd. pose proof (dots_nonneg s).
      assert (dots s <= 3) as Hds by (repeat destruct (decide _); lia).
      apply parse_loop_ok; try done; try lia.
    + apply parse_loop_ok; try done; lia.
  - destruct (bool_decide _ || bool_decide _).
    + assert (exists r, ircd_aton_ip4 input pbits = Ok r /\ aton_fine 0 (length input) r) as (r&->&Hr).
      { unfold ircd_aton_ip4. destruct (decide _); [by exists None|]. apply aton_loop_ok; lia. }
      cbn [mbind result_bind]. destruct r as [[[len ip4] bits]|]; [|by exists None]. destruct Hr as (Hlen&Hip&Hb).
      assert (0 <= Z.shiftr ip4 16 < 65536 /\ 0 <= Z.land ip4 65535 < 65536) as [H1 H2].
      { change 65535 with (Z.ones 16). rewrite Z.land_ones, Z.shiftr_div_pow2 by lia. change (2 ^ 16) with 65536.
        split; [split; [apply Z.div_pos; lia|apply Z.div_lt_upper_bound; lia]|by apply Z.mod_pos_bound]. }
      destruct (wr_word (replicate 8 0) 5 65535) as (ip0&->&?&?); [done|done|lia|lia|]. cbn [mbind result_bind].
      destruct (wr_word ip0 6 (Z.shiftr ip4 16)) as (ip1&->&?&?); [done|done|lia|done|]. cbn [mbind result_bind].
      destruct (wr_word ip1 7 (Z.land ip4 65535)) as (ip2&->&?&?); [done|done|lia|done|]. cbn [mbind result_bind].
      eexists. split; [done|]. assert (u8 (bits + 96) = bits + 96) as -> by (unfold u8; apply Z.mod_small; lia). simpl. split_and!; try done; lia.
    + destruct (decide (chr input = "*"%char)) as [Hc|]; [|by exists None]. destruct (skip_while _ (adv input) 1) as [s' pos'] eqn:Es.
      apply skip_while_length in Es. destruct (decide _) as [|Hn]; [by exists None|]. eexists. split; [done|].
      destruct input; [done|]. simpl in *. split_and!; try done; lia.
Qed.

(** Witness of [ipmask_parse_safe]. *)
Lemma ipmask_parse_safe_witness :
  exists r, ipmask_parse (str "2001:db8::ffff:10.0.0.1/100") true = Ok r /\ parse_fine (length (str "2001:db8::ffff:10.0.0.1/100")) r.
Proof. apply (ipmask_parse_safe (str "2001:db8::ffff:10.0.0.1/100") true). vm_compute. discriminate. Defined.

(** * What goes wrong *)

(** The part of an IPv4 address behind a double colon is refused unless the text begins with
    the double colon, a fifth number of a dotted address is shifted by 4294967288 places, a
    number of bits wraps around, and what follows an eighth word is not looked at, nor are the bits set then. *)
Theorem ipmask_parse_defects :
  ipmask_parse (str "::10.0.0.1") true = Ok (Some (10%nat, [0; 0; 0; 0; 0; 0; 2560; 1], Some 128)) /\
  ipmask_parse (str "fec0::10.0.0.1") true = Ok None /\
  ipmask_parse (str "10.0.0.1.5") true = Ub /\
  ipmask_parse (str "10.0.0.1/4294967304") true = Ok (Some (19%nat, mapped 2560 1, Some 104)) /\
  ipmask_parse (str "1:2:3:4:5:6:7:8:example.org") true = Ok (Some (16%nat, [1; 2; 3; 4; 5; 6; 7; 8], None)).
Proof. split_and!; vm_compute; reflexivity. Qed.
