(* ===== verification/Parse.v ===== *)
(** Parse: from the bytes of a connection to the command and its parameters
    (ircd/parse.c and dopacket() of ircd/packet.c).

    A pointer into the buffer of a line is what is left of it, with the terminator and whatever stands
    behind it, because the code looks past the terminator in places.  What a command
    then does is not part of this file: a line ends as a [verdict]. *)

From S2P Require Import Prelude Common Numnicks.

(** * Commands *)

Definition MAXPARA : nat := 15.
Definition MFLG_SLOW : Z := 0x01.
Definition MFLG_UNREG : Z := 0x02.
Definition SLOW_UNREG : Z := Z.lor MFLG_SLOW MFLG_UNREG.

(** struct Message; the function of a command is known by its name, and the counters are left out. *)
Record Message := mkMessage { cmd : string; tok : string; parameters : nat; mflags : Z }.
#[export] Instance Message_eq_dec : EqDecision Message.
Proof. solve_decision. Defined.

Definition CONFIG : Message := mkMessage "CONFIG" "CONFIG" MAXPARA SLOW_UNREG.

(** CONFIG is there only when the server is built for the dynamic negotiation of links. *)
Definition msgtab (esnet_neg : bool) : list Message := [
  mkMessage "PRIVMSG" "P" MAXPARA MFLG_SLOW;
  mkMessage "NICK" "N" MAXPARA SLOW_UNREG;
  mkMessage "NOTICE" "O" MAXPARA MFLG_SLOW;
  mkMessage "WALLCHOPS" "WC" MAXPARA MFLG_SLOW;
  mkMessage "CPRIVMSG" "CP" MAXPARA MFLG_SLOW;
  mkMessage "CNOTICE" "CN" MAXPARA MFLG_SLOW;
  mkMessage "JOIN" "J" MAXPARA MFLG_SLOW;
  mkMessage "MODE" "M" MAXPARA MFLG_SLOW;
  mkMessage "BURST" "B" MAXPARA MFLG_SLOW;
  mkMessage "CREATE" "C" MAXPARA MFLG_SLOW;
  mkMessage "DESTRUCT" "DE" MAXPARA MFLG_SLOW;
  mkMessage "QUIT" "Q" MAXPARA SLOW_UNREG;
  mkMessage "PART" "L" MAXPARA MFLG_SLOW;
  mkMessage "TOPIC" "T" MAXPARA MFLG_SLOW;
  mkMessage "INVITE" "I" MAXPARA MFLG_SLOW;
  mkMessage "KICK" "K" MAXPARA MFLG_SLOW;
  mkMessage "WALLOPS" "WA" MAXPARA MFLG_SLOW;
  mkMessage "DESYNCH" "DS" MAXPARA MFLG_SLOW;
  mkMessage "PING" "G" MAXPARA MFLG_SLOW;
  mkMessage "PONG" "Z" MAXPARA SLOW_UNREG;
  mkMessage "ERROR" "Y" MAXPARA SLOW_UNREG;
  mkMessage "KILL" "D" MAXPARA MFLG_SLOW;
  mkMessage "USER" "USER" MAXPARA SLOW_UNREG;
  mkMessage "AWAY" "A" MAXPARA MFLG_SLOW;
  mkMessage "ISON" "ISON" 1 MFLG_SLOW;
  mkMessage "SERVER" "S" MAXPARA SLOW_UNREG;
  mkMessage "SQUIT" "SQ" MAXPARA MFLG_SLOW;
  mkMessage "WHOIS" "W" MAXPARA MFLG_SLOW;
  mkMessage "WHO" "H" MAXPARA MFLG_SLOW;
  mkMessage "WHOWAS" "X" MAXPARA MFLG_SLOW;
  mkMessage "LIST" "LIST" MAXPARA MFLG_SLOW;
  mkMessage "NAMES" "E" MAXPARA MFLG_SLOW;
  mkMessage "USERHOST" "USERHOST" 1 MFLG_SLOW;
  mkMessage "USERIP" "USERIP" 1 MFLG_SLOW;
  mkMessage "TRACE" "TR" MAXPARA MFLG_SLOW;
  mkMessage "PASS" "PA" MAXPARA SLOW_UNREG;
  mkMessage "LUSERS" "LU" MAXPARA MFLG_SLOW;
  mkMessage "USERS" "UU" MAXPARA MFLG_SLOW;
  mkMessage "TIME" "TI" MAXPARA MFLG_SLOW;
  mkMessage "SETTIME" "SE" MAXPARA MFLG_SLOW;
  mkMessage "RPING" "RI" MAXPARA MFLG_SLOW;
  mkMessage "RPONG" "RO" MAXPARA MFLG_SLOW;
  mkMessage "OPER" "OPER" MAXPARA MFLG_SLOW;
  mkMessage "CONNECT" "CO" MAXPARA MFLG_SLOW;
  mkMessage "UPING" "UP" MAXPARA MFLG_SLOW;
  mkMessage "MAP" "MAP" MAXPARA MFLG_SLOW;
  mkMessage "VERSION" "V" MAXPARA SLOW_UNREG;
  mkMessage "STATS" "R" MAXPARA MFLG_SLOW;
  mkMessage "LINKS" "LI" MAXPARA MFLG_SLOW;
  mkMessage "ADMIN" "AD" MAXPARA SLOW_UNREG;
  mkMessage "HELP" "HELP" MAXPARA MFLG_SLOW;
  mkMessage "INFO" "F" MAXPARA MFLG_SLOW;
  mkMessage "MOTD" "MO" MAXPARA MFLG_SLOW;
  mkMessage "CLOSE" "CLOSE" MAXPARA MFLG_SLOW;
  mkMessage "SILENCE" "U" MAXPARA MFLG_SLOW;
  mkMessage "GLINE" "GL" MAXPARA MFLG_SLOW;
  mkMessage "END_OF_BURST" "EB" MAXPARA MFLG_SLOW;
  mkMessage "EOB_ACK" "EA" MAXPARA 1;
  mkMessage "HASH" "HASH" MAXPARA SLOW_UNREG;
  mkMessage "DNS" "DNS" MAXPARA MFLG_SLOW;
  mkMessage "REHASH" "RH" MAXPARA MFLG_SLOW;
  mkMessage "RESTART" "RS" MAXPARA MFLG_SLOW;
  mkMessage "DIE" "DI" MAXPARA MFLG_SLOW;
  mkMessage "DB" "DB" MAXPARA MFLG_SLOW;
  mkMessage "DBQ" "DBQ" MAXPARA MFLG_SLOW;
  mkMessage "BMODE" "BM" MAXPARA MFLG_SLOW;
  mkMessage "OPMODE" "OM" MAXPARA MFLG_SLOW;
  mkMessage "GHOST" "GHOST" MAXPARA MFLG_SLOW
]%string ++ (if esnet_neg then [CONFIG] else []) ++ [
  mkMessage "SVSNICK" "SN" MAXPARA MFLG_SLOW;
  mkMessage "SVSMODE" "SM" MAXPARA MFLG_SLOW;
  mkMessage "SVSJOIN" "SJ" MAXPARA MFLG_SLOW;
  mkMessage "SVSPART" "SL" MAXPARA MFLG_SLOW;
  mkMessage "WATCH" "WATCH" 1 MFLG_SLOW;
  mkMessage "WEBIRC" "WEBIRC" MAXPARA SLOW_UNREG;
  mkMessage "PROXY" "PROXY" MAXPARA SLOW_UNREG;
  mkMessage "PRIVS" "PR" MAXPARA MFLG_SLOW;
  mkMessage "SPAM" "SP" MAXPARA MFLG_SLOW
]%string.

(** * The trees of commands *)

(** struct MessageTree, with the 26 pointers in a list *)
Inductive mtree := Node (final : option cstring) (msg : option Message) (pointers : list (option mtree)).

Definition entry : Type := cstring * Message.

(** [!strncmp(w, prefix, lp)] for the length [lp] of the prefix *)
Fixpoint starts (prefix w : cstring) : bool :=
  match prefix with
  | [] => true
  | c :: prefix => match w with d :: w => bool_decide (c = d) && starts prefix w | [] => false end
  end.

(** What is left does not begin with the prefix, or there is nothing left. *)
Definition block_ends (prefix : cstring) (l : list entry) : bool :=
  match l with [] => true | (w, _) :: _ => negb (starts prefix w) end.

Definition letter_of (c : nat) : ascii := ascii_of_nat (65 + c).

(** do_msg_tree_cmd() and do_msg_tree_tok(): the tree, and the entries after those of the prefix.
    A prefix that does not fit ends the server. *)
Fixpoint do_msg_tree (fuel : nat) (prefix : cstring) (l : list entry) : result (mtree * list entry) :=
  match fuel with
  | O => Fuel
  | S fuel =>
      match l with
      | [] => Ub
      | (w, m) :: rest =>
          if starts prefix w then
            if match rest with
               | [] => true
               | _ => bool_decide (prefix <> []) && block_ends prefix rest
               end
            then Ok (Node (Some (drop (length prefix) w)) (Some m) (replicate 26 None), rest)
            else
              let '(final, msg, l) :=
                if decide (strCasediff w prefix = 0) then (Some [], Some m, rest) else (None, None, l) in
              '(ptrs, l) ←
                (fix letters (n c : nat) (l : list entry) (ptrs : list (option mtree)) : result (list (option mtree) * list entry) :=
                   match n with
                   | O => Ok (ptrs, l)
                   | S n =>
                       match l with
                       | [] => Ub
                       | (w, _) :: _ =>
                           if decide (nth (length prefix) w NUL = letter_of c) then
                             '(t, l) ← do_msg_tree fuel (prefix ++ [letter_of c]) l;
                             if block_ends prefix l then Ok (ptrs ++ [Some t] ++ replicate n None, l)
                             else letters n (S c) l (ptrs ++ [Some t])
                           else letters n (S c) l (ptrs ++ [None])
                       end
                   end) 26%nat 0%nat l [];
              Ok (Node final msg ptrs, l)
          else Ub
      end
  end.

(** [strcmp] and the sorting of the names *)
Fixpoint strcmp_le (a b : cstring) : bool :=
  match a, b with
  | [], _ => true
  | _ :: _, [] => false
  | c :: a, d :: b => bool_decide (uchar c < uchar d) || (bool_decide (c = d) && strcmp_le a b)
  end.
Fixpoint insert_entry (x : entry) (l : list entry) : list entry :=
  match l with
  | [] => [x]
  | y :: l => if strcmp_le (fst x) (fst y) then x :: y :: l else y :: insert_entry x l
  end.
Definition sort_entries (l : list entry) : list entry := foldr insert_entry [] l.

(** initmsgtree(); no name is longer than 64. *)
Definition tree_of (names : Message -> string) (esnet_neg : bool) : result mtree :=
  '(t, _) ← do_msg_tree 64 [] (sort_entries (map (fun m => (str (names m), m)) (msgtab esnet_neg))); Ok t.
Definition msg_tree_cmd : bool -> result mtree := tree_of cmd.
Definition msg_tree_tok : bool -> result mtree := tree_of tok.

(** [0xdf & c], and the pointer it leads to *)
Definition masked (c : ascii) : Z := Z.land 0xdf (uchar c).
Definition child (t : mtree) (c : ascii) : option mtree :=
  let '(Node _ _ ptrs) := t in
  let r := u8 (masked c - 65) in
  if decide (25 < r) then None else match ptrs !! Z.to_nat r with Some (Some t) => Some t | _ => None end.

(** The loop, with the test that ends it *)
Fixpoint tree_walk (stop : cstring -> cstring -> bool) (t : mtree) (s : cstring) : option Message :=
  match s with
  | [] => None
  | c :: s =>
      match child t c with
      | None => None
      | Some (Node final msg _ as t) =>
          if match final with Some f => stop f s | None => false end then msg else tree_walk stop t s
      end
  end.

(** [*mtree->final == r] looks at one character only. *)
Definition msg_tree_parse : mtree -> cstring -> option Message :=
  tree_walk (fun f s => bool_decide (uchar (chr f) = masked (chr s))).
Definition msg_tree_parse_client : mtree -> cstring -> option Message :=
  tree_walk (fun f s => bool_decide (strCasediff f s = 0)).

(** * Splitting a line *)

Fixpoint skip_blanks (s : cstring) : cstring :=
  match s with c :: s' => if decide (c = " "%char) then skip_blanks s' else s | [] => [] end.

(** The text up to the first blank, and what is left from the blank on *)
Fixpoint word_of (s : cstring) : cstring * cstring :=
  match s with
  | c :: s' => if decide (c = " "%char) then ([], s) else let '(w, r) := word_of s' in (c :: w, r)
  | [] => ([], [])
  end.

(** The loop that fills [para]: the last parameter is the rest of the line. *)
Fixpoint split_params (fuel : nat) (paramcount i : nat) (s : cstring) : result (list cstring) :=
  match fuel with
  | O => Fuel
  | S fuel =>
      match skip_blanks s with
      | [] => Ok []
      | (c :: s') as s =>
          if decide (c = ":"%char) then Ok [s']
          else if decide (paramcount <= S i)%nat then Ok [s]
          else let '(w, r) := word_of s in ps ← split_params fuel paramcount (S i) r; Ok (w :: ps)
      end
  end.

Definition params (paramcount : nat) (s : option cstring) : result (list cstring) :=
  match s with
  | None => Ok []
  | Some s => split_params (S (length s)) (min paramcount MAXPARA) 0 s
  end.

(** [s = strchr(ch, ' ')], with the blank overwritten: the command, and what follows the blank *)
Definition cut_command (ch : cstring) : cstring * option cstring :=
  let '(w, r) := word_of ch in (w, match r with [] => None | _ :: r => Some r end).

(** * A line *)

(** What becomes of a line. [VEmpty], [VUnknown] and [VRegister] are an answer of -1, [VIgnored]
    one of 0; the others hand the line on, with the client it comes from, the
    text of [para[0]] and the parameters. *)
Inductive verdict :=
  | VEmpty | VUnknown | VRegister | VIgnored | VGarbage
  | VNumeric (numeric : Z) (has_prefix : bool) (from : nat) (sender : cstring) (ps : list cstring)
  | VRun (m : Message) (from : nat) (sender : cstring) (ps : list cstring).

(** What the code asks about the clients: FindClient(), FindNServer(), findNUser(), whose link a client is behind
    ([from->from]), and its name, empty when it has none. *)
Class Directory := {
  FindClient : cstring -> option nat;
  FindNServer_ : list ascii -> result (option nat);
  findNUser_ : list ascii -> result (option nat);
  from_link : nat -> nat;
  client_name : nat -> cstring }.

(** The numerics are those of numnicks.c. *)
#[export] Instance numeric_directory (st : Numnicks.state) (find : cstring -> option nat) (link : nat -> nat)
    (nm : nat -> cstring) : Directory := {
  FindClient := find;
  FindNServer_ := FindNServer st;
  findNUser_ := findNUser st;
  from_link := link;
  client_name := nm }.

Section lines.
Context (tree_cmd tree_tok : mtree) `{Directory}.

(** parse_client(): the line and its verdict, with what is added to [cptr->since]. *)
Definition parse_client (cptr : nat) (dead is_user : bool) (line : list ascii) : result (verdict * Z) :=
  if dead then Ok (VIgnored, 0) else
  let buffer := c_text (line ++ [NUL]) in
  let ch := skip_blanks buffer in
  let ch := match ch with
            | c :: r => if decide (c = ":"%char) then skip_blanks (snd (word_of r)) else ch
            | [] => []
            end in
  match ch with
  | [] => Ok (VEmpty, 0)
  | _ =>
      let '(w, s) := cut_command ch in
      match msg_tree_parse_client tree_cmd w with
      | None => Ok (VUnknown, 0)
      | Some m =>
          let off := (length buffer - length (match s with Some s => s | None => ch end))%nat in
          let i := Z.of_nat (length line) - Z.of_nat off in
          let since := if decide (Z.land (mflags m) MFLG_SLOW <> 0) then 2 + i / 120 else 0 in
          ps ← params (parameters m) s;
          if negb is_user && bool_decide (Z.land (mflags m) MFLG_UNREG = 0) then Ok (VRegister, since)
          else Ok (VRun m cptr (client_name cptr) ps, since)
      end
  end.

(** [while ( *ch == ' ') ch++;] in the memory of the buffer *)
Fixpoint skip_mem (p : list ascii) : result (list ascii) :=
  match p with
  | [] => Ub
  | c :: p' => if decide (c = " "%char) then skip_mem p' else Ok p
  end.

(** [numeric_prefix], without its terminator *)
Fixpoint prefix_of (n : nat) (p : list ascii) : cstring :=
  match n, p with
  | S n, c :: p => if decide (c = NUL \/ c = " "%char) then [] else c :: prefix_of n p
  | _, _ => []
  end.

(** [do ++ch; while ( *ch != ' ' && *ch);] *)
Fixpoint to_blank (p : list ascii) : result (list ascii) :=
  match p with
  | [] => Ub
  | c :: p' => if decide (c = " "%char \/ c = NUL) then Ok p else to_blank p'
  end.

Definition is_kill_or_quit (ch : list ascii) : result bool :=
  c0 ← deref ch; c1 ← rd ch 1;
  if decide (c1 = "Q"%char \/ (c0 = "D"%char /\ c1 = " "%char)) then Ok true
  else if decide (c0 = "K"%char) then c2 ← rd ch 2; Ok (bool_decide (c2 = "L"%char)) else Ok false.

(** The sender of a line of a server: a verdict, or the client, its name and the rest of the line.
    [past] is what stands behind the terminator in the buffer, [past'] behind [numeric_prefix]. *)
Definition server_prefix (cptr : nat) (prot : Z) (buffer past' : list ascii) : result (verdict + nat * cstring * list ascii) :=
  match buffer with
  | [] => Ub
  | c :: p =>
      if decide (c = ":"%char) then
        let text := c_text p in
        let '(w, r) := word_of text in
        match r with
        | [] => Ok (inl VEmpty)
        | _ :: _ =>
            let ch := drop (S (length w)) p in
            match (if decide (w = []) then None else FindClient w) with
            | None =>
                ch ← skip_mem ch;
                c1 ← rd ch 1;
                if decide (c1 = "Q"%char) then Ok (inr (cptr, client_name cptr, ch)) else Ok (inl VIgnored)
            | Some from => if decide (from_link from = cptr) then Ok (inr (from, w, ch)) else Ok (inl VIgnored)
            end
        end
      else if decide (9 < prot) then
        let np := prefix_of 5 buffer in
        if decide (np = []) then Ok (inl VGarbage)
        else
          c1 ← rd buffer 1;
          short ← (if decide (c1 = " "%char) then Ok true else c2 ← rd buffer 2; Ok (bool_decide (c2 = " "%char)));
          from ← (if short : bool then FindNServer_ (np ++ NUL :: past') else findNUser_ (np ++ NUL :: past'));
          ch ← to_blank p;
          match from with
          | None =>
              ch ← skip_mem ch;
              b ← is_kill_or_quit ch;
              if b : bool then
                if decide (from_link cptr = cptr) then Ok (inr (cptr, client_name cptr, ch)) else Ok (inl VIgnored)
              else Ok (inl VIgnored)
          | Some from => if decide (from_link from = cptr) then Ok (inr (from, client_name from, ch)) else Ok (inl VIgnored)
          end
      else Ok (inr (cptr, client_name cptr, buffer))
  end.

(** Tokens come before commands. *)
Definition server_command (w : cstring) : option Message :=
  match msg_tree_parse tree_tok w with Some m => Some m | None => msg_tree_parse tree_cmd w end.

(** parse_server(); [mptr->count++] follows a null pointer when the number of a numeric is 0. *)
Definition parse_server (cptr : nat) (dead : bool) (prot : Z) (buffer past' : list ascii) : result verdict :=
  if dead then Ok VIgnored else
  r ← server_prefix cptr prot buffer past';
  match r with
  | inl v => Ok v
  | inr (from, sender, ch) =>
      ch ← skip_mem ch;
      let ch := c_text ch in
      match ch with
      | [] => Ok VEmpty
      | c0 :: _ =>
          let '(w, s) := cut_command ch in
          if bool_decide (s <> None) && bool_decide (length w = 3%nat) && isDigit c0 then
            let numeric := (schar c0 - 48) * 100 + (schar (nth 1 ch NUL) - 48) * 10 + (schar (nth 2 ch NUL) - 48) in
            ps ← params MAXPARA s;
            if decide (numeric = 0) then Ub
            else Ok (VNumeric numeric (bool_decide (hd NUL buffer <> ":"%char)) from sender ps)
          else
            match server_command w with
            | None => Ok VUnknown
            | Some m => ps ← params (parameters m) s; Ok (VRun m from sender ps)
            end
      end
  end.
End lines.

(** * Bytes to lines *)

Definition BUFSIZE : nat := 512.

(** The loop of dopacket(): [buf] is what stands before [ch1] in [cptr->buffer]. [handle] is what is done with
    a line; it answers false when the client is gone, and then nothing more is read. *)
Fixpoint dopacket_loop {S : Type} (handle : list ascii -> S -> S * bool) (data buf : list ascii) (s : S) : list ascii * S * bool :=
  match data with
  | [] => (buf, s, true)
  | g :: data =>
      if decide (g = "010"%char \/ g = "013"%char) then
        if decide (buf = []) then dopacket_loop handle data buf s
        else
          let '(s, alive) := handle buf s in
          if alive : bool then dopacket_loop handle data [] s else (buf, s, false)
      else if decide (length buf < Nat.pred BUFSIZE)%nat then dopacket_loop handle data (buf ++ [g]) s
      else dopacket_loop handle data buf s
  end.

(** * Commands are found by their names *)

(** The number of the pointer that a character leads to *)
Definition slot (c : ascii) : option nat := let r := u8 (masked c - 65) in if decide (25 < r) then None else Some (Z.to_nat r).

Lemma child_slot t c : child t c = match slot c with Some i => let '(Node _ _ ptrs) := t in match ptrs !! i with Some (Some t) => Some t | _ => None end | None => None end.
Proof. unfold child, slot. destruct t. by destruct (decide _). Qed.

Lemma slot_toLower c : slot c = slot (toLower c).
Proof. revert c. apply (forall_ascii_dec (fun c => slot c = slot (toLower c))). by vm_compute. Qed.

Lemma slot_ok c : match slot c with Some n => bool_decide (toLower (letter_of n) = toLower c) | None => true end = true.
Proof. revert c. apply forall_ascii. by vm_compute. Qed.

Lemma slot_letter c i : slot c = Some i -> toLower (letter_of i) = toLower c.
Proof. intros E. pose proof (slot_ok c) as H. rewrite E in H. by apply bool_decide_eq_true in H. Qed.

Lemma case_cons c a s : case_equiv (c :: a) s -> exists d b, s = d :: b /\ toLower c = toLower d /\ case_equiv a b.
Proof. unfold case_equiv. destruct s as [|d b]; [done|]. simpl. intros [= E1 E2]. by exists d, b. Qed.

(** The walk does not see the case. *)
Lemma tree_walk_case stop t a b :
  (forall f x y, is_cstr x -> is_cstr y -> case_equiv x y -> stop f x = stop f y) ->
  is_cstr a -> is_cstr b -> case_equiv a b -> tree_walk stop t a = tree_walk stop t b.
Proof.
  intros Hs Ha. revert t b. induction Ha as [|c a Hc Ha IH]; intros t b Hb E; [by destruct b|].
  destruct (case_cons c a b E) as (d&b'&->&Ecd&E'). apply is_cstr_cons in Hb as [_ Hb]. cbn [tree_walk]. rewrite !child_slot.
  rewrite (slot_toLower c), (slot_toLower d), Ecd. destruct (slot (toLower d)); [|done].
  destruct t as [? ? ptrs]. destruct (ptrs !! _) as [[[f m p]|]|]; [|done..]. rewrite (IH (Node f m p) b') by done.
  destruct f as [f|]; [|done]. by rewrite (Hs f a b').
Qed.

Lemma client_stop_case f x y :
  is_cstr x -> is_cstr y -> case_equiv x y -> bool_decide (strCasediff f x = 0) = bool_decide (strCasediff f y = 0).
Proof.
  intros Hx Hy E. assert (H : forall f x y, is_cstr x -> is_cstr y -> case_equiv x y -> strCasediff f x = 0 -> strCasediff f y = 0).
  { clear. intros f. induction f as [|c f IH]; intros x y Hx Hy E; cbn [strCasediff].
    - destruct x as [|a x], y as [|b y]; try done. simpl. intros H. apply case_cons in E as (?&?&[= <- <-]&<-&_). done.
    - destruct x as [|a x].
      + destruct y; [done|done].
      + apply case_cons in E as (b&y'&->&Eab&E'). apply is_cstr_cons in Hx as [_ Hx]. apply is_cstr_cons in Hy as [_ Hy].
        cbn [chr hd adv tl]. rewrite Eab. destruct (decide _); [|done]. by apply IH. }
  apply bool_decide_ext. split; apply H; done.
Qed.

(** What the nodes of a tree stand for *)
Fixpoint check_tree (tab : list Message) (names : Message -> string) (p : cstring) (t : mtree) : bool :=
  let '(Node final msg ptrs) := t in
  match final, msg with
  | Some f, Some m => bool_decide (m ∈ tab) && bool_decide (str (names m) = p ++ f) && bool_decide (is_cstr f)
  | None, _ => true
  | _, None => false
  end &&
  (fix go (i : nat) (l : list (option mtree)) : bool :=
     match l with
     | [] => true
     | None :: l => go (S i) l
     | Some t :: l => check_tree tab names (p ++ [letter_of i]) t && go (S i) l
     end) 0%nat ptrs.

Lemma check_node tab names p f m ptrs :
  check_tree tab names p (Node f m ptrs) = true ->
  match f, m with Some f, Some m => m ∈ tab /\ str (names m) = p ++ f /\ is_cstr f | None, _ => True | _, None => False end /\
  forall i t, ptrs !! i = Some (Some t) -> check_tree tab names (p ++ [letter_of i]) t = true.
Proof.
  cbn [check_tree]. intros [H1 H2]%andb_true_iff. split.
  - destruct f, m; try done. apply andb_true_iff in H1 as [[H1 H3]%andb_true_iff H4]. by rewrite !bool_decide_eq_true in *.
  - intros i t. clear H1. revert H2. change i with (0 + i)%nat at 2. generalize 0%nat as k. revert i.
    induction ptrs as [|[x|] l IH]; intros i k H2 Hi; [done|..].
    + apply andb_true_iff in H2 as [H2 H3]. destruct i as [|i]; simpl in Hi; [injection Hi as ->; by rewrite Nat.add_0_r|].
      rewrite <- Nat.add_succ_comm. by apply IH.
    + destruct i as [|i]; simpl in Hi; [done|]. rewrite <- Nat.add_succ_comm. by apply IH.
Qed.

Lemma tree_walk_sound tab names p t w m :
  check_tree tab names p t = true -> is_cstr w ->
  tree_walk (fun f s => bool_decide (strCasediff f s = 0)) t w = Some m -> m ∈ tab /\ case_equiv (str (names m)) (p ++ w).
Proof.
  revert p t. induction w as [|c w IH]; intros p t Ht Hw; [done|]. apply is_cstr_cons in Hw as [Hc Hw].
  cbn [tree_walk]. rewrite child_slot. destruct (slot c) as [i|] eqn:Ei; [|done]. destruct t as [f0 m0 ptrs].
  apply check_node in Ht as [_ Hch]. destruct (ptrs !! i) as [[t'|]|] eqn:Ep; [|done..]. specialize (Hch i t' Ep).
  assert (Hgo : forall s, case_equiv s ((p ++ [letter_of i]) ++ w) -> case_equiv s (p ++ c :: w)).
  { unfold case_equiv. intros s ->. rewrite !map_app, <- app_assoc. simpl. by rewrite (slot_letter c i Ei). }
  destruct t' as [f' m' ptrs']. destruct f' as [f'|]; [|intros H; destruct (IH _ _ Hch Hw H); auto].
  destruct (bool_decide (strCasediff f' w = 0)) eqn:Es; [|intros H; destruct (IH _ _ Hch Hw H); auto].
  apply bool_decide_eq_true in Es. intros ->. apply check_node in Hch as [(Hin&En&Hf) _]. split; [done|]. apply Hgo. rewrite En.
  apply strCasediff_0 in Es; [|done|done]. unfold case_equiv in *. by rewrite !map_app, Es.
Qed.

Lemma names_cstr esnet_neg : Forall (fun m => is_cstr (str (cmd m)) /\ is_cstr (str (tok m))) (msgtab esnet_neg).
Proof. destruct esnet_neg; apply (bool_decide_unpack _); vm_compute; exact I. Qed.

(** The trees, computed *)
Definition the_tree (names : Message -> string) (esnet_neg : bool) : mtree :=
  match tree_of names esnet_neg with Ok t => t | _ => Node None None [] end.

Lemma trees_built esnet_neg :
  msg_tree_cmd esnet_neg = Ok (the_tree cmd esnet_neg) /\ msg_tree_tok esnet_neg = Ok (the_tree tok esnet_neg).
Proof. destruct esnet_neg; vm_compute; done. Qed.

Lemma cmd_tree_checked esnet_neg : check_tree (msgtab esnet_neg) cmd [] (the_tree cmd esnet_neg) = true.
Proof. destruct esnet_neg; vm_compute; reflexivity. Qed.

Lemma client_finds_all esnet_neg :
  forall m, m ∈ msgtab esnet_neg -> msg_tree_parse_client (the_tree cmd esnet_neg) (str (cmd m)) = Some m.
Proof.
  assert (forallb (fun m => bool_decide (msg_tree_parse_client (the_tree cmd esnet_neg) (str (cmd m)) = Some m)) (msgtab esnet_neg) = true) as H
    by (destruct esnet_neg; vm_compute; reflexivity).
  rewrite forallb_forall in H. intros m Hm. apply (bool_decide_eq_true (_ = _)), H. by apply list_elem_of_In.
Qed.

Lemma client_walk_case t a b :
  is_cstr a -> is_cstr b -> case_equiv a b -> msg_tree_parse_client t a = msg_tree_parse_client t b.
Proof. apply tree_walk_case, client_stop_case. Qed.

Lemma client_sound tab t w m :
  check_tree tab cmd [] t = true -> is_cstr w -> msg_tree_parse_client t w = Some m -> m ∈ tab /\ case_equiv (str (cmd m)) w.
Proof. apply (tree_walk_sound tab cmd []). Qed.

Lemma cmd_tree_sound esnet_neg w m :
  is_cstr w -> msg_tree_parse_client (the_tree cmd esnet_neg) w = Some m -> m ∈ msgtab esnet_neg /\ case_equiv (str (cmd m)) w.
Proof. exact (client_sound _ _ w m (cmd_tree_checked esnet_neg)). Qed.

Lemma cmd_tree_complete esnet_neg w m :
  is_cstr w -> m ∈ msgtab esnet_neg -> case_equiv (str (cmd m)) w -> msg_tree_parse_client (the_tree cmd esnet_neg) w = Some m.
Proof.
  intros Hw Hm E. pose proof (names_cstr esnet_neg) as Hn. rewrite Forall_forall in Hn. destruct (Hn m Hm) as [Hc _].
  rewrite <- (client_walk_case _ _ w Hc Hw E). exact (client_finds_all esnet_neg m Hm).
Qed.

(** C10. The tree of the commands is built, and a client finds in it exactly the command whose
    name it writes, in any case: no prefix of a name and nothing longer is taken for it. *)
Theorem client_commands esnet_neg w :
  is_cstr w -> exists t, msg_tree_cmd esnet_neg = Ok t /\
    forall m, msg_tree_parse_client t w = Some m <-> m ∈ msgtab esnet_neg /\ case_equiv (str (cmd m)) w.
Proof.
  intros Hw. exists (the_tree cmd esnet_neg). split; [exact (proj1 (trees_built esnet_neg))|]. intros m.
  exact (conj (cmd_tree_sound esnet_neg w m Hw) (fun H => cmd_tree_complete esnet_neg w m Hw (proj1 H) (proj2 H))).
Qed.

(** Witness of [client_commands]. *)
Lemma client_commands_witness :
  exists t, msg_tree_cmd true = Ok t /\
    forall m, msg_tree_parse_client t (str "PrivMsg") = Some m <-> m ∈ msgtab true /\ case_equiv (str (cmd m)) (str "PrivMsg").
Proof. apply (client_commands true (str "PrivMsg")). apply (bool_decide_unpack _). vm_compute. exact I. Defined.


(** * The commands of servers *)

Lemma masked_toLower c : masked c = masked (toLower c).
Proof. revert c. apply (forall_ascii_dec (fun c => masked c = masked (toLower c))). by vm_compute. Qed.

Lemma server_stop_case f x y :
  is_cstr x -> is_cstr y -> case_equiv x y -> bool_decide (uchar (chr f) = masked (chr x)) = bool_decide (uchar (chr f) = masked (chr y)).
Proof.
  intros _ _ E. destruct x as [|c x]; [by destruct y|]. apply case_cons in E as (d&y'&->&E&_).
  cbn [chr hd]. by rewrite (masked_toLower c), E, <- masked_toLower.
Qed.

Lemma server_walk_case t a b : is_cstr a -> is_cstr b -> case_equiv a b -> msg_tree_parse t a = msg_tree_parse t b.
Proof. apply tree_walk_case, server_stop_case. Qed.

Lemma server_command_case t t' a b : is_cstr a -> is_cstr b -> case_equiv a b -> server_command t t' a = server_command t t' b.
Proof. intros Ha Hb E. unfold server_command. by rewrite (server_walk_case t' a b Ha Hb E), (server_walk_case t a b Ha Hb E). Qed.

Lemma server_finds_all esnet_neg m :
  m ∈ msgtab esnet_neg ->
  server_command (the_tree cmd esnet_neg) (the_tree tok esnet_neg) (str (cmd m)) = Some m /\
  server_command (the_tree cmd esnet_neg) (the_tree tok esnet_neg) (str (tok m)) = Some m.
Proof.
  assert (forallb (fun m =>
    bool_decide (server_command (the_tree cmd esnet_neg) (the_tree tok esnet_neg) (str (cmd m)) = Some m) &&
    bool_decide (server_command (the_tree cmd esnet_neg) (the_tree tok esnet_neg) (str (tok m)) = Some m)) (msgtab esnet_neg) = true) as H
    by (destruct esnet_neg; vm_compute; reflexivity).
  rewrite forallb_forall in H. intros Hm. apply list_elem_of_In, H, andb_true_iff in Hm as [H1 H2].
  split; [exact (bool_decide_eq_true_1 _ H1)|exact (bool_decide_eq_true_1 _ H2)].
Qed.

(** Both trees are built, and a server that writes the name of a command or its token, in any case, gets that
    command: no token hides a name. *)
Theorem server_commands esnet_neg m w :
  m ∈ msgtab esnet_neg -> is_cstr w -> case_equiv (str (cmd m)) w \/ case_equiv (str (tok m)) w ->
  exists t t', msg_tree_cmd esnet_neg = Ok t /\ msg_tree_tok esnet_neg = Ok t' /\ server_command t t' w = Some m.
Proof.
  intros Hm Hw E. exists (the_tree cmd esnet_neg), (the_tree tok esnet_neg). pose proof (names_cstr esnet_neg) as Hn.
  rewrite Forall_forall in Hn. destruct (Hn m Hm) as [Hc Ht]. destruct (server_finds_all esnet_neg m Hm) as [Fc Ft].
  split; [exact (proj1 (trees_built esnet_neg))|]. split; [exact (proj2 (trees_built esnet_neg))|].
  destruct E as [E|E]; [rewrite <- (server_command_case _ _ _ w Hc Hw E)|rewrite <- (server_command_case _ _ _ w Ht Hw E)]; assumption.
Qed.

(** Witness of [server_commands]. *)
Lemma server_commands_witness :
  exists t t', msg_tree_cmd true = Ok t /\ msg_tree_tok true = Ok t' /\
    server_command t t' (str "wc") = Some (mkMessage "WALLCHOPS" "WC" MAXPARA MFLG_SLOW).
Proof.
  apply (server_commands true); [apply (bool_decide_unpack _); vm_compute; exact I..|].
  right. apply (bool_decide_unpack _). vm_compute. exact I.
Defined.

(** Only the beginning of a word is looked at there. *)
Example server_commands_loose :
  server_command (the_tree cmd true) (the_tree tok true) (str "CONFUSED") = Some CONFIG.
Proof. vm_compute. reflexivity. Qed.

(** * The parameters of a line *)

(** A parameter that needs no colon *)
Definition is_word (w : cstring) : Prop := w <> [] /\ Forall (fun c => c <> " "%char) w /\ hd NUL w <> ":"%char.
#[export] Instance is_word_dec w : Decision (is_word w).
Proof. unfold is_word. apply _. Defined.

(** How a line is written *)
Definition write_params (ws : list cstring) (last : cstring) : cstring :=
  concat (map (fun w => w ++ [" "%char]) ws) ++ ":"%char :: last.

Lemma word_of_spec s : s = (word_of s).1 ++ (word_of s).2 /\ Forall (fun c => c <> " "%char) (word_of s).1 /\
  match (word_of s).2 with c :: _ => c = " "%char | [] => True end.
Proof.
  induction s as [|c s IH]; [done|]. cbn [word_of]. destruct (decide (c = " "%char)) as [->|N]; [done|].
  destruct (word_of s) as [w r]. simpl in *. destruct IH as (->&Hw&Hr). split_and!; [done|by constructor|done].
Qed.

Lemma word_of_app w r : Forall (fun c => c <> " "%char) w -> word_of (w ++ " "%char :: r) = (w, " "%char :: r).
Proof. induction 1 as [|c w N _ IH]; cbn [app word_of]; [done|]. rewrite decide_False by done. by rewrite IH. Qed.

Lemma word_of_all w : Forall (fun c => c <> " "%char) w -> word_of w = (w, []).
Proof. induction 1 as [|c w N _ IH]; cbn [app word_of]; [done|]. rewrite decide_False by done. by rewrite IH. Qed.

Lemma skip_blanks_length s : (length (skip_blanks s) <= length s)%nat.
Proof. induction s as [|c s IH]; [done|]. cbn [skip_blanks]. destruct (decide _); simpl; lia. Qed.

Lemma skip_blanks_head s : match skip_blanks s with c :: _ => c <> " "%char | [] => True end.
Proof. induction s as [|c s IH]; [done|]. cbn [skip_blanks]. by destruct (decide _). Qed.

Lemma word_of_length s c s' : s = c :: s' -> c <> " "%char -> (length (word_of s).2 < length s)%nat.
Proof.
  intros -> N. cbn [word_of]. rewrite decide_False by done. destruct (word_of_spec s') as [E _]. apply (f_equal length) in E.
  rewrite length_app in E. destruct (word_of s') as [w r]. simpl in *. lia.
Qed.

(** The splitting ends, gives no more than it should, and every parameter but the last is a word. *)
Lemma split_params_spec fuel n i s :
  (length s < fuel)%nat -> (i < n)%nat ->
  exists ps, split_params fuel n i s = Ok ps /\ (i + length ps <= n)%nat /\ Forall is_word (removelast ps).
Proof.
  revert i s. induction fuel as [|fuel IH]; intros i s Hf Hi; [lia|]. cbn [split_params].
  pose proof (skip_blanks_length s) as Hl. pose proof (skip_blanks_head s) as Hh. destruct (skip_blanks s) as [|c s'] eqn:Es.
  { exists []. split_and!; [done|simpl; lia|constructor]. }
  destruct (decide (c = ":"%char)) as [->|Nc]; [exists [s']; split_and!; [done|simpl; lia|constructor]|].
  destruct (decide (n <= S i)%nat) as [Hn|Hn]; [exists [c :: s']; split_and!; [done|simpl; lia|constructor]|].
  pose proof (word_of_length (c :: s') c s' eq_refl Hh) as Hr. destruct (word_of_spec (c :: s')) as (E&Hw&_).
  destruct (word_of (c :: s')) as [w r]. cbn [fst snd] in *. destruct (IH (S i) r) as (ps&->&Hc&Hps); [simpl in *; lia|lia|].
  exists (w :: ps). cbn [mbind result_bind length]. split_and!; [done|lia|].
  destruct ps as [|p ps]; [constructor|]. cbn [removelast]. constructor; [|done].
  destruct w as [|d w]; [simpl in E; subst r; simpl in *; lia|]. injection E as <- _. by split_and!.
Qed.

Lemma params_spec n s : exists ps, params n s = Ok ps /\ (length ps <= max 1 (min n MAXPARA))%nat /\ Forall is_word (removelast ps).
Proof.
  destruct s as [s|]; [|by exists []; split_and!; [|simpl; lia|constructor]]. unfold params.
  destruct (decide (0 < min n MAXPARA)%nat) as [Hn|Hn].
  - destruct (split_params_spec (S (length s)) (min n MAXPARA) 0 s) as (ps&->&Hl&Hw); [lia|done|]. exists ps. split_and!; [done|simpl in *; lia|done].
  - cbn [split_params]. destruct (skip_blanks s) as [|c s']; [by exists []; split_and!; [|simpl; lia|constructor]|].
    destruct (decide (c = ":"%char)); [by exists [s']; split_and!; [|simpl; lia|constructor]|].
    rewrite (decide_True (P := (min n MAXPARA <= 1)%nat)) by lia. by exists [c :: s']; split_and!; [|simpl; lia|constructor].
Qed.

Lemma skip_blanks_word w r : is_word w -> skip_blanks (w ++ r) = w ++ r.
Proof. intros (N&Hw&_). destruct w as [|c w]; [done|]. apply Forall_cons in Hw as [Hc _]. cbn [app skip_blanks]. by rewrite decide_False. Qed.

Lemma split_params_last fuel n i s : split_params (S fuel) n i (":"%char :: s) = Ok [s].
Proof. reflexivity. Qed.

Lemma split_params_blank fuel n i s : split_params fuel n i (" "%char :: s) = split_params fuel n i s.
Proof. destruct fuel; reflexivity. Qed.

Lemma split_params_word fuel n i w r :
  is_word w -> (S i < n)%nat ->
  split_params (S fuel) n i (w ++ " "%char :: r) = ps ← split_params fuel n (S i) r; Ok (w :: ps).
Proof.
  intros Hw Hi. cbn [split_params]. rewrite skip_blanks_word by done. pose proof (word_of_app w r (proj1 (proj2 Hw))) as E.
  destruct Hw as (N&_&Hc). destruct w as [|c w]; [done|]. cbn [app] in *. rewrite decide_False by done.
  rewrite (decide_False (P := (n <= S i)%nat)) by lia. rewrite E. by rewrite split_params_blank.
Qed.

Lemma write_params_cons w ws last : write_params (w :: ws) last = w ++ " "%char :: write_params ws last.
Proof. unfold write_params. simpl. by rewrite <- !app_assoc. Qed.

Lemma split_params_write fuel n i ws last :
  Forall is_word ws -> (i + length ws < n)%nat -> (length ws < fuel)%nat ->
  split_params fuel n i (write_params ws last) = Ok (ws ++ [last]).
Proof.
  intros Hws. revert fuel i. induction Hws as [|w ws Hw Hws IH]; intros [|fuel] i Hn Hf; cbn [length] in *; [lia|apply split_params_last|lia|].
  rewrite write_params_cons, split_params_word by first [done|lia]. rewrite IH by lia. done.
Qed.

Lemma write_params_length ws last : Forall is_word ws -> (length ws < length (write_params ws last))%nat.
Proof.
  induction 1 as [|w ws (N&_) _ IH]; [simpl; lia|]. rewrite write_params_cons, length_app. simpl. destruct w; [done|simpl; lia].
Qed.

Lemma params_write n ws last :
  Forall is_word ws -> (length ws < min n MAXPARA)%nat -> params n (Some (write_params ws last)) = Ok (ws ++ [last]).
Proof. intros Hw Hn. pose proof (write_params_length ws last Hw). apply split_params_write; [done|lia|lia]. Qed.

Lemma write_params_cstr ws last : Forall is_cstr ws -> is_cstr last -> is_cstr (write_params ws last).
Proof.
  intros Hw Hl. induction Hw as [|w ws Hw _ IH]; [by apply is_cstr_cons|]. rewrite write_params_cons. apply is_cstr_app. split; [done|].
  by apply is_cstr_cons.
Qed.

Lemma names_words esnet_neg m : m ∈ msgtab esnet_neg -> (parameters m <= MAXPARA)%nat /\ Forall is_word [str (cmd m); str (tok m)].
Proof.
  assert (forallb (fun m => bool_decide ((parameters m <= MAXPARA)%nat /\ Forall is_word [str (cmd m); str (tok m)])) (msgtab esnet_neg) = true) as H
    by (destruct esnet_neg; vm_compute; reflexivity).
  rewrite forallb_forall in H. intros Hm. apply list_elem_of_In, H in Hm. exact (bool_decide_eq_true_1 _ Hm).
Qed.

Lemma toLower_blank d c : c = " "%char \/ c = ":"%char -> toLower d = toLower c -> d = c.
Proof.
  intros Hc. revert d. apply (forall_ascii_dec (fun d => toLower d = toLower c -> d = c)). destruct Hc as [-> | ->]; by vm_compute.
Qed.

(** A word stays a word in any case. *)
Lemma case_equiv_word a w : is_word a -> case_equiv a w -> is_word w.
Proof.
  intros (N&Ha&Hh) E. destruct a as [|c a]; [done|]. apply Forall_cons in Ha as [Hc Ha].
  apply case_cons in E as (d&b&->&Ecd&E). split; [done|]. split; [constructor|].
  - intros ->. apply Hc. by apply toLower_blank; [left|].
  - clear -Ha E. revert b E. induction Ha as [|c a Hc _ IH]; intros w E; [destruct w; [constructor|done]|].
    apply case_cons in E as (d&b&->&Ecd&E). constructor; [|by apply IH]. intros ->. apply Hc. by apply toLower_blank; [left|].
  - simpl in *. intros ->. apply Hh. by apply toLower_blank; [right|].
Qed.

Lemma c_text_cstr s : is_cstr (c_text s).
Proof. induction s as [|c s IH]; [constructor|]. simpl. destruct (decide _); [constructor|by constructor]. Qed.

Lemma skip_blanks_cstr s : is_cstr s -> is_cstr (skip_blanks s).
Proof. induction 1 as [|c s N Hs IH]; [constructor|]. cbn [skip_blanks]. destruct (decide _); [done|by constructor]. Qed.

(** * Lines of clients *)

Section clients.
Context `{Directory} (esnet_neg : bool) (t : mtree) (Ht : msg_tree_cmd esnet_neg = Ok t).

Lemma client_tree : t = the_tree cmd esnet_neg.
Proof. pose proof (proj1 (trees_built esnet_neg)) as E. rewrite Ht in E. by injection E. Qed.

(** What a client may make the server run *)
Definition allowed (is_user : bool) (m : Message) : Prop := is_user = true \/ Z.land (mflags m) MFLG_UNREG <> 0.

Lemma parse_client_word cptr is_user m w s ps :
  m ∈ msgtab esnet_neg -> is_word w -> is_cstr w -> case_equiv (str (cmd m)) w -> allowed is_user m ->
  is_cstr s -> params (parameters m) (Some s) = Ok ps ->
  parse_client t cptr false is_user (w ++ " "%char :: s) =
    Ok (VRun m cptr (client_name cptr) ps, if decide (Z.land (mflags m) MFLG_SLOW <> 0) then 2 + Z.of_nat (length s) / 120 else 0).
Proof.
  intros Hm Hw Hc E Ha Hs Hps. unfold parse_client.
  rewrite c_text_app by (apply is_cstr_app; split; [done|by apply is_cstr_cons]).
  rewrite skip_blanks_word by done. pose proof (word_of_app w s (proj1 (proj2 Hw))) as Ew.
  assert (Hh : hd NUL w <> ":"%char) by apply Hw. assert (N : w <> []) by apply Hw.
  destruct w as [|c w]; [done|]. simpl in Hh. cbn [app] in *. rewrite decide_False by done. unfold cut_command. rewrite Ew.
  rewrite client_tree, (cmd_tree_complete esnet_neg (c :: w) m) by done. rewrite Hps. cbn [mbind result_bind].
  assert ((negb is_user && bool_decide (Z.land (mflags m) MFLG_UNREG = 0)) = false) as ->.
  { destruct Ha as [->|Ha]; [done|]. rewrite bool_decide_eq_false_2 by done. apply andb_false_r. }
  do 3 f_equal. destruct (decide _); [|done]. do 2 f_equal. cbn [length]. rewrite length_app. cbn [length]. lia.
Qed.
End clients.

(** C19. Writing a command and reading it back: the name, in any case, the parameters that
    are words, and the last one after a colon, which may hold anything.  It is charged to the client by its length. *)
Theorem client_line_roundtrip `{Directory} esnet_neg t cptr is_user m w ws last :
  msg_tree_cmd esnet_neg = Ok t -> m ∈ msgtab esnet_neg -> is_cstr w -> case_equiv (str (cmd m)) w -> allowed is_user m ->
  Forall is_word ws -> Forall is_cstr ws -> is_cstr last -> (length ws < parameters m)%nat ->
  parse_client t cptr false is_user (w ++ " "%char :: write_params ws last) =
    Ok (VRun m cptr (client_name cptr) (ws ++ [last]),
        if decide (Z.land (mflags m) MFLG_SLOW <> 0) then 2 + Z.of_nat (length (write_params ws last)) / 120 else 0).
Proof.
  intros Ht Hm Hc E Ha Hws Hwc Hl Hn. destruct (names_words esnet_neg m Hm) as [Hp [Hcw _]%Forall_cons].
  apply (parse_client_word esnet_neg); [done|done| |done|done|done|by apply write_params_cstr|apply params_write; [done|lia]].
  by apply (case_equiv_word (str (cmd m))).
Qed.

(** C18. Whatever bytes a client sends as a line, an answer comes: the client speaks for
    itself only, runs a command of the table by its whole name, cannot run before it registers what
    is for the registered, and never fills more parameters than there is room for. *)
Theorem client_line_safe `{Directory} esnet_neg t cptr dead is_user line :
  msg_tree_cmd esnet_neg = Ok t ->
  exists v since, parse_client t cptr dead is_user line = Ok (v, since) /\
    match v with
    | VRun m from sender ps =>
        dead = false /\ m ∈ msgtab esnet_neg /\ allowed is_user m /\ from = cptr /\ sender = client_name cptr /\
        (length ps <= MAXPARA)%nat /\ Forall is_word (removelast ps)
    | VNumeric _ _ _ _ _ | VGarbage => False
    | VRegister => is_user = false
    | _ => since = 0
    end.
Proof.
  intros Ht. rewrite (client_tree esnet_neg t Ht). unfold parse_client. destruct dead; [by eexists _, _|].
  pose proof (c_text_cstr (line ++ [NUL])) as Hb. revert Hb. generalize (c_text (line ++ [NUL])) as buffer. intros buffer Hb.
  pose proof (skip_blanks_cstr _ Hb) as Hc0.
  match goal with |- context [cut_command ?c] => set (ch := c) end.
  assert (Hc : is_cstr ch).
  { subst ch. destruct (skip_blanks buffer) as [|c r]; [done|]. destruct (decide _); [|done].
    apply is_cstr_cons in Hc0 as [_ Hr]. apply skip_blanks_cstr. pose proof (word_of_spec r) as (E&_). rewrite E in Hr. by apply is_cstr_app in Hr as [_ ?]. }
  clearbody ch. destruct ch as [|c0 ch0] eqn:Ech; [by eexists _, _|]. rewrite <- Ech in *. clear Ech.
  unfold cut_command. pose proof (word_of_spec ch) as (E&_). destruct (word_of ch) as [w r]. cbn [fst snd] in E.
  assert (Hw : is_cstr w) by (rewrite E in Hc; by apply is_cstr_app in Hc as [? _]).
  destruct (msg_tree_parse_client _ w) as [m|] eqn:Em; [|by eexists _, _].
  apply cmd_tree_sound in Em as [Hm _]; [|done].
  match goal with |- context [params _ ?s] => destruct (params_spec (parameters m) s) as (ps&->&Hl&Hps) end.
  cbn [mbind result_bind]. destruct (negb is_user && _) eqn:Eb.
  - eexists _, _. split; [done|]. by destruct is_user.
  - eexists _, _. split; [done|]. split_and!; try done; [|unfold MAXPARA in *; lia]. unfold allowed.
    destruct is_user; [by left|right]. by apply bool_decide_eq_false in Eb.
Qed.

(** A small network for the examples: clients 1 (a link) and 7 (behind it), and 8 behind another link *)
Definition example_directory : Directory := {|
  FindClient := fun w => if decide (w = str "deep.space") then Some 7%nat else if decide (w = str "far.away") then Some 8%nat else None;
  FindNServer_ := fun _ => Ok None;
  findNUser_ := fun _ => Ok None;
  from_link := fun i => if decide (i = 8)%nat then 2%nat else 1%nat;
  client_name := fun i => if decide (i = 1)%nat then str "hub" else str "deep.space" |}.

(** Witness of [client_line_roundtrip]. *)
Lemma client_line_roundtrip_witness :
  parse_client (the_tree cmd false) (H := example_directory) 1 false true
    (str "PrivMsg" ++ " "%char :: write_params [str "#ircd"] (str "hola : a todos")) =
  Ok (VRun (mkMessage "PRIVMSG" "P" MAXPARA MFLG_SLOW) 1 (str "hub") [str "#ircd"; str "hola : a todos"], 2).
Proof.
  refine (client_line_roundtrip (H := example_directory) false _ 1 true _ (str "PrivMsg") [str "#ircd"] (str "hola : a todos") _ _ _ _ _ _ _ _ _);
    [exact (proj1 (trees_built false))|try (apply (bool_decide_unpack _); vm_compute; exact I)..].
Defined.

(** Witness of [client_line_safe]. *)
Lemma client_line_safe_witness :
  exists v since, parse_client (the_tree cmd false) (H := example_directory) 1 false false (str ":other JOIN #ircd") = Ok (v, since) /\
    match v with
    | VRun m from sender ps =>
        false = false /\ m ∈ msgtab false /\ allowed false m /\ from = 1%nat /\ sender = str "hub" /\
        (length ps <= MAXPARA)%nat /\ Forall is_word (removelast ps)
    | VNumeric _ _ _ _ _ | VGarbage => False
    | VRegister => false = false
    | _ => since = 0
    end.
Proof. apply (client_line_safe (H := example_directory) false). exact (proj1 (trees_built false)). Defined.

(** * Lines of servers *)

Lemma tree_walk_in tab names p t stop w m :
  check_tree tab names p t = true -> tree_walk stop t w = Some m -> m ∈ tab.
Proof.
  revert p t. induction w as [|c w IH]; intros p t Ht; [done|]. cbn [tree_walk]. rewrite child_slot.
  destruct (slot c) as [i|] eqn:Ei; [|done]. destruct t as [f0 m0 ptrs]. apply check_node in Ht as [_ Hch].
  destruct (ptrs !! i) as [[t'|]|] eqn:Ep; [|done..]. specialize (Hch i t' Ep). destruct t' as [[f|] m' ptrs'].
  - destruct (stop f w); [|by apply (IH _ _ Hch)]. intros ->. by apply check_node in Hch as [(Hin&_) _].
  - by apply (IH _ _ Hch).
Qed.

Lemma tok_tree_checked esnet_neg : check_tree (msgtab esnet_neg) tok [] (the_tree tok esnet_neg) = true.
Proof. destruct esnet_neg; vm_compute; reflexivity. Qed.

Lemma server_command_in esnet_neg w m :
  server_command (the_tree cmd esnet_neg) (the_tree tok esnet_neg) w = Some m -> m ∈ msgtab esnet_neg.
Proof.
  unfold server_command, msg_tree_parse. destruct (tree_walk _ (the_tree tok esnet_neg) w) as [m'|] eqn:E.
  - intros [= ->]. exact (tree_walk_in _ _ _ _ _ _ _ (tok_tree_checked esnet_neg) E).
  - intros E'. exact (tree_walk_in _ _ _ _ _ _ _ (cmd_tree_checked esnet_neg) E').
Qed.

Section servers.
Context `{Directory}.

Lemma server_prefix_link cptr prot buffer past from sender ch :
  from_link cptr = cptr -> server_prefix cptr prot buffer past = Ok (inr (from, sender, ch)) ->
  from_link from = cptr /\ (sender = client_name from \/ exists p, buffer = ":"%char :: p /\ FindClient sender = Some from).
Proof.
  intros Hl. unfold server_prefix. destruct buffer as [|c p]; [done|]. destruct (decide (c = ":"%char)) as [->|Nc].
  { destruct (word_of (c_text p)) as [w r]. destruct r as [|d r]; [done|].
    destruct (if decide (w = []) then None else FindClient w) as [fr|] eqn:Ef.
    - destruct (decide (from_link fr = cptr)) as [E|]; [|done]. intros [= <- <- <-]. split; [done|right]. exists p. split; [done|].
      by destruct (decide (w = [])).
    - intros (x&_&Hx)%bind_Ok. apply bind_Ok in Hx as (c1&_&Hx). destruct (decide (c1 = "Q"%char)); [|done]. injection Hx as <- <- <-. auto. }
  destruct (decide (9 < prot)); [|intros [= <- <- <-]; auto]. destruct (decide (prefix_of 5 (c :: p) = [])); [done|].
  intros (c1&_&Hx)%bind_Ok. apply bind_Ok in Hx as (sh&_&Hx). apply bind_Ok in Hx as (fr&_&Hx). apply bind_Ok in Hx as (ch1&_&Hx).
  destruct fr as [fr|].
  - destruct (decide (from_link fr = cptr)); [|done]. injection Hx as <- <- <-. auto.
  - apply bind_Ok in Hx as (ch2&_&Hx). apply bind_Ok in Hx as (b&_&Hx). destruct b; [|done].
    destruct (decide (from_link cptr = cptr)); [|done]. injection Hx as <- <- <-. auto.
Qed.

Lemma server_prefix_verdict cptr prot buffer past v :
  server_prefix cptr prot buffer past = Ok (inl v) -> match v with VEmpty | VIgnored | VGarbage => True | _ => False end.
Proof.
  unfold server_prefix. destruct buffer as [|c p]; [done|]. destruct (decide (c = ":"%char)) as [->|Nc].
  { destruct (word_of (c_text p)) as [w r]. destruct r as [|d r]; [by intros [= <-]|].
    destruct (if decide (w = []) then None else FindClient w) as [fr|].
    - destruct (decide (from_link fr = cptr)); [done|]. by intros [= <-].
    - intros (x&_&Hx)%bind_Ok. apply bind_Ok in Hx as (c1&_&Hx). destruct (decide (c1 = "Q"%char)); [done|]. by injection Hx as <-. }
  destruct (decide (9 < prot)); [|done]. destruct (decide (prefix_of 5 (c :: p) = [])); [by intros [= <-]|].
  intros (c1&_&Hx)%bind_Ok. apply bind_Ok in Hx as (sh&_&Hx). apply bind_Ok in Hx as (fr&_&Hx). apply bind_Ok in Hx as (ch1&_&Hx).
  destruct fr as [fr|].
  - destruct (decide (from_link fr = cptr)); [done|]. by injection Hx as <-.
  - apply bind_Ok in Hx as (ch2&_&Hx). apply bind_Ok in Hx as (b&_&Hx). destruct b; [|by injection Hx as <-].
    destruct (decide (from_link cptr = cptr)); [done|]. by injection Hx as <-.
Qed.
End servers.

(** C9. Whatever a server writes as a line, it can only speak for a client behind its own link: a line that
    claims to come from elsewhere runs nothing.  What runs is a command of the table, and there is room for its parameters. *)
Theorem server_line_safe `{Directory} esnet_neg t t' cptr dead prot buffer past v :
  msg_tree_cmd esnet_neg = Ok t -> msg_tree_tok esnet_neg = Ok t' -> from_link cptr = cptr ->
  parse_server t t' cptr dead prot buffer past = Ok v ->
  match v with
  | VRun m from sender ps =>
      m ∈ msgtab esnet_neg /\ from_link from = cptr /\ (sender = client_name from \/ FindClient sender = Some from) /\ (length ps <= MAXPARA)%nat
  | VNumeric n _ from sender ps =>
      n <> 0 /\ from_link from = cptr /\ (sender = client_name from \/ FindClient sender = Some from) /\ (length ps <= MAXPARA)%nat
  | VRegister => False
  | _ => True
  end.
Proof.
  intros Ht Ht' Hl. rewrite (client_tree esnet_neg t Ht).
  assert (t' = the_tree tok esnet_neg) as -> by (pose proof (proj2 (trees_built esnet_neg)) as E; rewrite Ht' in E; by injection E).
  unfold parse_server. destruct dead; [by intros [= <-]|]. intros (r&Hr&Hx)%bind_Ok.
  destruct r as [v0|[[from sender] ch]].
  { injection Hx as <-. apply server_prefix_verdict in Hr. by destruct v0. }
  apply server_prefix_link in Hr as (Hf&Hs); [|done].
  assert (Hs' : sender = client_name from \/ FindClient sender = Some from) by (destruct Hs as [?|(?&?&?)]; auto). clear Hs.
  apply bind_Ok in Hx as (ch1&_&Hx). destruct (c_text ch1) as [|c0 rest]; [by injection Hx as <-|].
  unfold cut_command in Hx. destruct (word_of (c0 :: rest)) as [w r] eqn:Ew.
  set (s := match r with [] => None | _ :: r => Some r end) in *. cbn beta iota zeta in Hx.
  match type of Hx with (if ?b then _ else _) = _ => destruct b end.
  - destruct (params_spec MAXPARA s) as (ps&Eps&Hn&_). rewrite Eps in Hx. cbn [mbind result_bind] in Hx.
    destruct (decide _); [done|]. injection Hx as <-. split_and!; [done..|unfold MAXPARA in *; lia].
  - destruct (server_command _ _ w) as [m|] eqn:Em; [|by injection Hx as <-]. apply server_command_in in Em.
    destruct (params_spec (parameters m) s) as (ps&Eps&Hn&_). rewrite Eps in Hx. injection Hx as <-.
    split_and!; [done..|unfold MAXPARA in *; lia].
Qed.

(** Witness of [server_line_safe]. *)
Lemma server_line_safe_witness :
  let v := VRun (mkMessage "PRIVMSG" "P" MAXPARA MFLG_SLOW) 7 (str "deep.space") [str "#ircd"; str "hola a todos"] in
  parse_server (the_tree cmd true) (the_tree tok true) (H := example_directory) 1 false 10 (str ":deep.space P #ircd :hola a todos" ++ [NUL]) [] = Ok v /\
  match v with
  | VRun m from sender ps =>
      m ∈ msgtab true /\ from_link (Directory := example_directory) from = 1%nat /\
      (sender = client_name (Directory := example_directory) from \/ FindClient (Directory := example_directory) sender = Some from) /\ (length ps <= MAXPARA)%nat
  | _ => True
  end.
Proof.
  intros v. assert (E : parse_server (the_tree cmd true) (the_tree tok true) (H := example_directory) 1 false 10
    (str ":deep.space P #ircd :hola a todos" ++ [NUL]) [] = Ok v) by (vm_compute; reflexivity).
  split; [exact E|].
  exact (server_line_safe (H := example_directory) true _ _ 1 false 10 _ [] v (proj1 (trees_built true)) (proj2 (trees_built true)) eq_refl E).
Defined.

(** A line that claims to come from behind another link *)
Example fake_direction :
  parse_server (the_tree cmd true) (the_tree tok true) (H := example_directory) 1 false 10 (str ":far.away P #ircd :hola" ++ [NUL]) [] = Ok VIgnored.
Proof. vm_compute. reflexivity. Qed.

Lemma c_text_more s r : is_cstr s -> c_text (s ++ r) = s ++ c_text r.
Proof. induction 1 as [|c s N _ IH]; [done|]. simpl. rewrite decide_False by done. by rewrite IH. Qed.

(** A numeric whose three digits are 0 is counted among the commands through a pointer that was never set. *)
Theorem numeric_zero_crash `{Directory} t t' cptr prot w rest past from :
  is_cstr w -> w <> [] -> Forall (fun c => c <> " "%char) w -> FindClient w = Some from -> from_link from = cptr ->
  parse_server t t' cptr false prot (":"%char :: w ++ str " 000 " ++ rest) past = Ub.
Proof.
  intros Hw N Hb Hf Hl. unfold parse_server, server_prefix. rewrite decide_True by done.
  rewrite c_text_more by done. change (c_text (str " 000 " ++ rest)) with (str " 000 " ++ c_text rest).
  cbn [str list_ascii_of_string app]. rewrite word_of_app by done. rewrite decide_False by done. rewrite Hf.
  rewrite decide_True by done. cbn [mbind result_bind]. replace (drop (S (length w)) (w ++ " "%char :: "0"%char :: "0"%char :: "0"%char :: " "%char :: rest))
    with ("0"%char :: "0"%char :: "0"%char :: " "%char :: rest).
  2: { change (w ++ ?x :: ?l) with (w ++ [x] ++ l). rewrite app_assoc. replace (S (length w)) with (length (w ++ [" "%char])) by (rewrite length_app; simpl; lia).
       by rewrite drop_app_length. }
  cbn [skip_mem]. rewrite decide_False by done. cbn [mbind result_bind].
  change (c_text ("0"%char :: "0"%char :: "0"%char :: " "%char :: rest)) with (str "000" ++ " "%char :: c_text rest).
  unfold cut_command. rewrite word_of_app by (apply (bool_decide_unpack _); vm_compute; exact I).
  cbn [str list_ascii_of_string app]. cbv beta iota zeta. match goal with |- (if ?b then _ else _) = _ => assert (b = true) as -> by done end.
  match goal with |- context [params MAXPARA ?s] => destruct (params_spec MAXPARA s) as (ps&->&_) end. done.
Qed.

(** Witness of [numeric_zero_crash]. *)
Lemma numeric_zero_crash_witness :
  parse_server (the_tree cmd true) (the_tree tok true) (H := example_directory) 1 false 10
    (":"%char :: str "deep.space" ++ str " 000 " ++ (str "x" ++ [NUL])) [] = Ub.
Proof.
  apply (numeric_zero_crash (H := example_directory)) with (from := 7%nat);
    [apply (bool_decide_unpack _); vm_compute; exact I..|reflexivity|reflexivity].
Defined.

(** * Lines do not depend on how the bytes arrive *)

Definition is_eol (g : ascii) : bool := bool_decide (g = "010"%char \/ g = "013"%char).

(** The reference: the lines that end in what has arrived, however long, and what follows the last *)
Fixpoint lines_of (cur data : list ascii) : list (list ascii) * list ascii :=
  match data with
  | [] => ([], cur)
  | g :: data =>
      if is_eol g then let '(ls, r) := lines_of [] data in (if decide (cur = []) then ls else cur :: ls, r)
      else lines_of (cur ++ [g]) data
  end.

Section bytes.
Context {S : Type} (handle : list ascii -> S -> S * bool).

(** One line after the other, until the client is gone *)
Fixpoint handle_all (ls : list (list ascii)) (s : S) : S * bool :=
  match ls with
  | [] => (s, true)
  | l :: ls => match handle l s with (s, true) => handle_all ls s | (s, false) => (s, false) end
  end.

(** One read after the other *)
Fixpoint dopacket_reads (reads : list (list ascii)) (buf : list ascii) (s : S) : list ascii * S * bool :=
  match reads with
  | [] => (buf, s, true)
  | d :: reads => match dopacket_loop handle d buf s with (buf, s, true) => dopacket_reads reads buf s | r => r end
  end.

Lemma dopacket_app d1 d2 buf s :
  dopacket_loop handle (d1 ++ d2) buf s =
  match dopacket_loop handle d1 buf s with (buf, s, true) => dopacket_loop handle d2 buf s | r => r end.
Proof.
  revert buf s. induction d1 as [|g d1 IH]; intros buf s; [done|]. cbn [app dopacket_loop].
  destruct (decide (g = "010"%char \/ g = "013"%char)); [destruct (decide (buf = [])); [apply IH|]|destruct (decide (length buf < _)%nat); apply IH].
  destruct (handle buf s) as [s' []]; [apply IH|done].
Qed.

Lemma dopacket_reads_concat reads buf s : dopacket_reads reads buf s = dopacket_loop handle (concat reads) buf s.
Proof.
  revert buf s. induction reads as [|d reads IH]; intros buf s; [done|]. cbn [dopacket_reads concat]. rewrite dopacket_app.
  destruct (dopacket_loop handle d buf s) as [[b s'] []]; [apply IH|done].
Qed.

Definition cut_line (l : list ascii) : list ascii := take (Nat.pred BUFSIZE) l.

Lemma cut_line_snoc cur g :
  cut_line (cur ++ [g]) = if decide (length (cut_line cur) < Nat.pred BUFSIZE)%nat then cut_line cur ++ [g] else cut_line cur.
Proof.
  unfold cut_line. rewrite take_app, length_take. destruct (decide _) as [H|H].
  - rewrite (take_ge [g]); [done|]. cbn [length]. lia.
  - replace (Nat.pred BUFSIZE - length cur)%nat with 0%nat by lia. by rewrite take_0, app_nil_r.
Qed.

Lemma cut_line_nil cur : cut_line cur = [] <-> cur = [].
Proof. by destruct cur. Qed.

Lemma dopacket_lines data cur s :
  let '(ls, r) := lines_of cur data in
  let '(b, s', alive) := dopacket_loop handle data (cut_line cur) s in
  handle_all (map cut_line ls) s = (s', alive) /\ (alive = true -> b = cut_line r).
Proof.
  revert cur s. induction data as [|g data IH]; intros cur s; [done|]. cbn [lines_of dopacket_loop]. unfold is_eol.
  destruct (decide (g = "010"%char \/ g = "013"%char)) as [E|E].
  - rewrite bool_decide_eq_true_2 by done. destruct (decide (cur = [])) as [->|Nc].
    + rewrite decide_True by done. specialize (IH [] s). by destruct (lines_of [] data).
    + rewrite decide_False by (by rewrite cut_line_nil). destruct (handle (cut_line cur) s) as [s1 [|]] eqn:Eh.
      * specialize (IH [] s1). destruct (lines_of [] data) as [ls r]. cbn [map handle_all]. rewrite Eh. exact IH.
      * destruct (lines_of [] data) as [ls r]. cbn [map handle_all]. rewrite Eh. by split.
  - rewrite bool_decide_eq_false_2 by done. specialize (IH (cur ++ [g]) s). rewrite cut_line_snoc in IH. by destruct (decide (length _ < _)%nat).
Qed.
End bytes.

(** C20. The lines a connection is served do not depend on how its bytes are cut into reads: they are the
    non-empty pieces between carriage returns and line feeds, cut to the size of the buffer, in order, up to the
    one after which the client is gone; what follows the last end of line waits in the buffer. *)
Theorem dopacket_by_lines {S} (handle : list ascii -> S -> S * bool) reads s :
  let '(ls, r) := lines_of [] (concat reads) in
  let '(b, s', alive) := dopacket_reads handle reads [] s in
  (s', alive) = handle_all handle (map cut_line ls) s /\ (alive = true -> b = cut_line r).
Proof.
  pose proof (dopacket_lines handle (concat reads) [] s) as E. rewrite dopacket_reads_concat.
  destruct (lines_of [] (concat reads)) as [ls r]. change (cut_line []) with (@nil ascii) in E.
  destruct (dopacket_loop handle (concat reads) [] s) as [[b s'] alive]. destruct E as [E Hb]. by split.
Qed.

Example two_reads :
  dopacket_reads (fun l (s : list (list ascii)) => (s ++ [l], true)) [str "NICK a" ++ ["013"%char]; "010"%char :: str "PI"; str "NG" ++ ["010"%char] ++ str "JO"] [] [] =
  (str "JO", [str "NICK a"; str "PING"], true).
Proof. vm_compute. reflexivity. Qed.
