(* ===== verification/Umode.v ===== *)
(** Umode: the modes of users (ircd/s_user.c, with the bits of include/s_bsd.h).

    A user has two words of modes, [flags] and [hmodes], a mask of the notices of the server,
    and what the database gives.  m_umode() and m_svsumode() are whole; the server is built with BDD_VIP and
    BDD_VIP2, as config/config-sh.in proposes.  The database, the users found by their names and the
    lines of the configuration are arguments. *)

From S2P Require Import Prelude Common.

(** * Bits *)

Definition FLAGS_OPER : Z := 0x0008.
Definition FLAGS_LOCOP : Z := 0x0010.
Definition FLAGS_INVISIBLE : Z := 0x0020.
Definition FLAGS_WALLOP : Z := 0x0040.
Definition FLAGS_SERVNOTICE : Z := 0x0080.
Definition FLAGS_DEAF : Z := 0x02000000.
Definition FLAGS_CHSERV : Z := 0x04000000.
Definition FLAGS_DEBUG : Z := 0x20000000.
Definition MODE_ISWATCH : Z := 0x80000000.
Definition FLAGS_OPERCMD : Z := 0x100000000.
Definition ANOPER : Z := Z.lor FLAGS_OPER FLAGS_LOCOP.
Definition SEND_UMODES : Z :=
  foldr Z.lor 0 [FLAGS_INVISIBLE; FLAGS_OPER; FLAGS_WALLOP; FLAGS_DEAF; FLAGS_CHSERV; FLAGS_DEBUG].
Definition ALL_UMODES : Z := Z.lor SEND_UMODES (Z.lor FLAGS_SERVNOTICE FLAGS_LOCOP).

Definition HMODE_NICKREGISTERED : Z := 0x00000001.
Definition HMODE_HIDDENVIEWER : Z := 0x00000002.
Definition HMODE_NICKSUSPENDED : Z := 0x00000004.
Definition HMODE_MSGONLYREG : Z := 0x00000008.
Definition HMODE_HELPOP : Z := 0x00000010.
Definition HMODE_SERVICESBOT : Z := 0x00000020.
Definition HMODE_HIDDEN : Z := 0x00000040.
Definition HMODE_VHOSTPERSO : Z := 0x00000080.
Definition HMODE_STRIPCOLOR : Z := 0x00000100.
Definition HMODE_NOCHAN : Z := 0x00000200.
Definition HMODE_SSL : Z := 0x00000400.
Definition HMODE_ADMIN : Z := 0x00000800.
Definition HMODE_CODER : Z := 0x00001000.
Definition HMODE_NOIDLE : Z := 0x00002000.
Definition HMODE_WHOIS : Z := 0x00004000.
Definition HMODE_USERDEAF : Z := 0x00008000.
Definition HMODE_USERBITCH : Z := 0x00010000.
Definition HMODE_USERNOJOIN : Z := 0x00020000.
Definition HMODE_PENDVALIDATION : Z := 0x00040000.
Definition HMODE_DOCKING : Z := 0x00080000.
Definition HMODE_NOCTCP : Z := 0x00100000.
Definition SEND_HMODES : Z :=
  foldr Z.lor 0 [HMODE_NICKREGISTERED; HMODE_HELPOP; HMODE_SERVICESBOT; HMODE_HIDDEN; HMODE_HIDDENVIEWER; HMODE_VHOSTPERSO;
    HMODE_NICKSUSPENDED; HMODE_MSGONLYREG; HMODE_STRIPCOLOR; HMODE_NOCHAN; HMODE_SSL;
    HMODE_ADMIN; HMODE_CODER; HMODE_NOIDLE; HMODE_WHOIS; HMODE_USERDEAF; HMODE_USERBITCH; HMODE_USERNOJOIN;
    HMODE_PENDVALIDATION; HMODE_DOCKING; HMODE_NOCTCP].
Definition ALL_HMODES : Z := SEND_HMODES.
Definition HMODES_HIDDEN_USER : Z :=
  foldr Z.lor 0 [HMODE_NOIDLE; HMODE_USERDEAF; HMODE_USERBITCH; HMODE_USERNOJOIN; HMODE_PENDVALIDATION].
Definition HMODES_HIDDEN_OPER : Z := HMODE_WHOIS.

Definition SNO_OPER : Z := 0x4000 + 0x2000 + 0x8000.
Definition SNO_ALL : Z := 0x1ffff.
Definition SNO_USER : Z := clear SNO_ALL SNO_OPER.
Definition SNO_DEFAULT : Z := 0x400 + 0x4 + 0x200.
Definition SNO_OPERDEFAULT : Z := foldr Z.lor 0 [SNO_DEFAULT; 0x8; 0x100; 0x1000; 0x1].

Definition PRIV_CHANSERV : Z := 0x200000000.
Definition PRIV_HIDDEN_VIEWER : Z := 0x400000000.
Definition PRIV_WHOIS_NOTICE : Z := 0x800000000.
Definition PRIV_HIDE_IDLE : Z := 0x1000000000.

Definition user_modes : list (Z * ascii) := [
  (FLAGS_OPER, "o"%char); (FLAGS_LOCOP, "O"%char); (FLAGS_INVISIBLE, "i"%char); (FLAGS_WALLOP, "w"%char);
  (FLAGS_SERVNOTICE, "s"%char); (FLAGS_DEAF, "d"%char); (FLAGS_CHSERV, "k"%char); (FLAGS_DEBUG, "g"%char)].
Definition user_hmodes : list (Z * ascii) := [
  (HMODE_NICKREGISTERED, "r"%char); (HMODE_NICKSUSPENDED, "S"%char); (HMODE_ADMIN, "a"%char); (HMODE_CODER, "C"%char);
  (HMODE_HELPOP, "h"%char); (HMODE_HIDDEN, "x"%char); (HMODE_HIDDENVIEWER, "X"%char); (HMODE_VHOSTPERSO, "v"%char);
  (HMODE_SERVICESBOT, "B"%char); (HMODE_MSGONLYREG, "R"%char); (HMODE_STRIPCOLOR, "c"%char); (HMODE_NOCHAN, "n"%char);
  (HMODE_SSL, "z"%char); (HMODE_DOCKING, "K"%char); (HMODE_NOIDLE, "I"%char); (HMODE_WHOIS, "W"%char); (HMODE_NOCTCP, "T"%char);
  (HMODE_USERDEAF, "D"%char); (HMODE_USERBITCH, "P"%char); (HMODE_USERNOJOIN, "J"%char); (HMODE_PENDVALIDATION, "V"%char)].

(** * Users *)

(** [vhostperso]: the user has a virtual host of its own. *)
Record user := mkUser { flags : Z; hmodes : Z; snomask : Z; privs : Z; vhostperso : bool }.

(** Both words are an [unsigned int]. *)
Definition with_flags (f : Z) (u : user) : user := mkUser (u32 f) (hmodes u) (snomask u) (privs u) (vhostperso u).
Definition with_hmodes (h : Z) (u : user) : user := mkUser (flags u) (u32 h) (snomask u) (privs u) (vhostperso u).
Definition with_snomask (m : Z) (u : user) : user := mkUser (flags u) (hmodes u) m (privs u) (vhostperso u).
Definition with_vhostperso (b : bool) (u : user) : user := mkUser (flags u) (hmodes u) (snomask u) (privs u) b.

Definition IsOper (u : user) : bool := has (flags u) FLAGS_OPER.
Definition IsLocOp (u : user) : bool := has (flags u) FLAGS_LOCOP.
Definition IsAnOper (u : user) : bool := has (flags u) ANOPER.
Definition IsInvisible (u : user) : bool := has (flags u) FLAGS_INVISIBLE.
Definition IsOperCmd (u : user) : bool := has (flags u) FLAGS_OPERCMD.
Definition SetOperCmd (u : user) : user := with_flags (Z.lor (flags u) FLAGS_OPERCMD) u.
Definition ClearOperCmd (u : user) : user := with_flags (clear (flags u) FLAGS_OPERCMD) u.
Definition IsNickRegistered (u : user) : bool := has (hmodes u) HMODE_NICKREGISTERED.
Definition IsHelpOp (u : user) : bool := has (hmodes u) HMODE_HELPOP.
Definition IsVhostPerso (u : user) : bool := has (hmodes u) HMODE_VHOSTPERSO.
Definition IsHidden (u : user) : bool := has (hmodes u) HMODE_HIDDEN.

(** HasPriv(), for a user of this server or not *)
Definition HasPriv (my : bool) (u : user) (priv : Z) : bool := my && IsAnOper u && has (privs u) priv.

(** The counters of [nrof], and the lists of the clients that get a kind of notice *)
Record state := mkState { usr : user; opsarray : list (list nat); opers : Z; helpers : Z; inv_clients : Z }.
Definition with_usr (f : user -> user) (st : state) : state :=
  mkState (f (usr st)) (opsarray st) (opers st) (helpers st) (inv_clients st).
Definition count_opers (d : Z) (st : state) : state := mkState (usr st) (opsarray st) (opers st + d) (helpers st) (inv_clients st).
Definition count_helpers (d : Z) (st : state) : state := mkState (usr st) (opsarray st) (opers st) (helpers st + d) (inv_clients st).
Definition count_invisible (d : Z) (st : state) : state := mkState (usr st) (opsarray st) (opers st) (helpers st) (inv_clients st + d).

(** * Masks of notices *)

Definition SNO_ADD : Z := 1.
Definition SNO_DEL : Z := 2.
Definition SNO_SET : Z := 3.

Fixpoint is_snomask (word : cstring) : bool :=
  match word with
  | [] => false
  | c :: word => if isDigit c then true else if isAlpha c then false else is_snomask word
  end.

(** [add] stands for [what == MODE_ADD]. *)
Definition umode_make_snomask (oldmask : Z) (arg : cstring) (add : bool) : Z :=
  let '(sno_what, arg) :=
    if decide (chr arg = "+"%char) then (if add then SNO_ADD else SNO_DEL, adv arg)
    else if decide (chr arg = "-"%char) then (if add then SNO_DEL else SNO_ADD, adv arg)
    else (if add then SNO_SET else SNO_DEL, arg) in
  let newmask := u32 (atoi arg) in
  if decide (sno_what = SNO_DEL) then clear oldmask newmask
  else if decide (sno_what = SNO_ADD) then Z.lor newmask oldmask else newmask.

(** delfrom_list(): the first link of the client goes. *)
Fixpoint delfrom_list (cptr : nat) (l : list nat) : list nat :=
  match l with [] => [] | x :: l => if decide (x = cptr) then l else x :: delfrom_list cptr l end.

Definition set_snomask (cptr : nat) (newmask what : Z) (st : state) : state :=
  let oldmask := snomask (usr st) in
  let newmask := if decide (what = SNO_ADD) then Z.lor newmask oldmask
                 else if decide (what = SNO_DEL) then clear oldmask newmask else newmask in
  let newmask := if IsAnOper (usr st) then Z.land newmask SNO_ALL else 0 in
  let diffmask := Z.lxor oldmask newmask in
  let lists := imap (fun i l =>
    if Z.testbit diffmask (Z.of_nat i) then
      if Z.testbit newmask (Z.of_nat i) then cptr :: l else delfrom_list cptr l
    else l) (opsarray st) in
  mkState (with_snomask newmask (usr st)) lists (opers st) (helpers st) (inv_clients st).

(** * The record of an operator *)

(** What the library says about a text that begins with a brace: the text of "modes", when it has one, or an error. *)
Definition json_modes : Type := cstring -> option (option cstring).

Fixpoint status_of (modes : cstring) (add : bool) (status : Z) : Z :=
  match modes with
  | [] => status
  | c :: p =>
      let put f := status_of p add (if add then Z.lor status f else status) in
      if decide (c = " "%char \/ c = "009"%char) then status
      else if decide (c = "+"%char) then status_of p true status
      else if decide (c = "-"%char) then status_of p false status
      else if decide (c = "a"%char) then put HMODE_ADMIN
      else if decide (c = "C"%char) then put HMODE_CODER
      else if decide (c = "h"%char) then put HMODE_HELPOP
      else if decide (c = "o"%char) then put FLAGS_OPER
      else if decide (c = "O"%char) then put FLAGS_LOCOP
      else if decide (c = "B"%char) then put HMODE_SERVICESBOT
      else status_of p add status
  end.

Definition get_status (json : json_modes) (reg : option cstring) : Z :=
  match reg with
  | None => 0
  | Some valor =>
      let c := chr valor in
      if decide (c = "{"%char) then
        match json valor with Some (Some modes) => status_of modes true 0 | _ => 0 end
      else if decide (c = "a"%char) then Z.lor HMODE_ADMIN FLAGS_OPER
      else if decide (c = "c"%char) then Z.lor HMODE_CODER FLAGS_OPER
      else if decide (c = "b"%char) then Z.lor HMODE_SERVICESBOT FLAGS_OPER
      else if decide (c = "h"%char \/ c = "o"%char) then Z.lor FLAGS_OPER HMODE_HELPOP
      else if decide (c = "p"%char) then HMODE_HELPOP
      else 0
  end.

(** * Modes as text *)

Definition MODE_NULL : Z := 0.
Definition MODE_ADD : Z := 0x40000000.
Definition MODE_DEL : Z := 0x20000000.

(** The loop of send_umode() over one table; [my] stands for [MyUser(sptr)]. *)
Fixpoint mode_changes (my : bool) (mask old new what : Z) (tab : list (Z * ascii)) : list ascii * Z :=
  match tab with
  | [] => ([], what)
  | (flag, c) :: tab =>
      if my && negb (has flag mask) then mode_changes my mask old new what tab
      else if has flag old && negb (has new flag) then
        let '(t, w) := mode_changes my mask old new MODE_DEL tab in
        ((if decide (what = MODE_DEL) then [c] else ["-"%char; c]) ++ t, w)
      else if negb (has flag old) && has new flag then
        let '(t, w) := mode_changes my mask old new MODE_ADD tab in
        ((if decide (what = MODE_ADD) then [c] else ["+"%char; c]) ++ t, w)
      else mode_changes my mask old new what tab
  end.

(** What send_umode() leaves in [umode_buf] *)
Definition send_umode (my : bool) (u : user) (old sendmask oldh sendhmask : Z) : cstring :=
  let '(t, what) := mode_changes my sendmask old (flags u) MODE_NULL user_modes in
  t ++ fst (mode_changes my sendhmask oldh (hmodes u) what user_hmodes).
Definition umode_buf_size : nat := 2 * (2 * (length user_modes + 1) + 2 * (length user_hmodes + 1)).

(** send_umode_out(): the text for the other servers, and the text for [cptr] when it is a user of this server;
    [same] tells whether that is [sptr] itself. *)
Definition send_umode_out (my : bool) (u : user) (old oldh : Z) (registrado : bool) (cptr : option bool) : cstring * option cstring :=
  let out := if registrado then send_umode my u old SEND_UMODES oldh SEND_HMODES else [] in
  (out,
   match cptr with
   | None => None
   | Some same =>
       let HMODES :=
         if IsAnOper u then
           if has (hmodes u) HMODE_ADMIN || has (hmodes u) HMODE_CODER || same then ALL_HMODES else clear ALL_HMODES HMODES_HIDDEN_OPER
         else clear ALL_HMODES (Z.lor HMODES_HIDDEN_USER HMODES_HIDDEN_OPER) in
       let t := send_umode my u old ALL_UMODES oldh HMODES in
       if decide (t = []) then None else Some t
   end).

(** umode_str(): what is seen by [viewer], or all of it *)
Definition umode_str (u : user) (viewer : option (user * bool)) : cstring :=
  let c_hmodes := Z.land (hmodes u) SEND_HMODES in
  let c_flags := Z.land (flags u) SEND_UMODES in
  let shown_h flag := match viewer with
    | None => true
    | Some (v, same) =>
        if has flag HMODES_HIDDEN_OPER then has (hmodes v) HMODE_ADMIN || has (hmodes v) HMODE_CODER || same
        else if has flag HMODES_HIDDEN_USER then IsAnOper v else true
    end in
  let shown flag := match viewer with
    | None => true
    | Some (v, same) => if has flag FLAGS_INVISIBLE || has flag FLAGS_WALLOP || has flag FLAGS_DEBUG then IsAnOper v || same else true
    end in
  map snd (filter (fun x => has c_hmodes (fst x) && shown_h (fst x)) user_hmodes) ++
  map snd (filter (fun x => has c_flags (fst x) && shown (fst x)) user_modes).

(** mask_user_flags(); [on] stands for [modof] and [modoh], which are all ones or zero together. *)
Definition find_mode (tab : list (Z * ascii)) (c : ascii) : option Z :=
  fst <$> find (fun x => bool_decide (snd x = c)) tab.
Fixpoint mask_user_flags (modes : cstring) (on : bool) (addf addh : Z) : Z * Z :=
  match modes with
  | [] => (addf, addh)
  | c :: p =>
      if decide (c = " "%char \/ c = "009"%char) then (addf, addh)
      else if decide (c = "+"%char) then mask_user_flags p true addf addh
      else if decide (c = "-"%char) then mask_user_flags p false addf addh
      else
        let put tab acc := match find_mode tab c with Some i => if on then Z.lor acc i else acc | None => acc end in
        mask_user_flags p on (put user_modes addf) (put user_hmodes addh)
  end.

(** The loop over the modes in the NICK of another server (m_nick_remoto()), and what
    it reads from [parv[6]]: the modes, or the address of a user without modes.  The new
    client starts without any. *)
Fixpoint nick_letters (modes : cstring) (newf newh : Z) : Z * Z :=
  match modes with
  | [] => (newf, newh)
  | c :: p =>
      let put tab acc := match find_mode tab c with Some flag => Z.lor acc flag | None => acc end in
      nick_letters p (put user_modes newf) (put user_hmodes newh)
  end.
Definition nick_modes (protocol parc : Z) (parv6 : cstring) : Z * Z :=
  if bool_decide (9 < protocol) && bool_decide (7 < parc) && bool_decide (chr parv6 = "+"%char) then nick_letters (adv parv6) 0 0 else (0, 0).

(** What register_user() and the greeting of a server send there: "+%s", or nothing, and
    the address [ip] comes in its place.  The line has a prefix, nick, distance, time,
    names of user and host, the modes if any, address, numeric and description. *)
Definition nick_parv6 (u : user) (ip : cstring) : cstring :=
  match umode_str u None with [] => ip | s => "+"%char :: s end.
Definition nick_parc (u : user) : Z := match umode_str u None with [] => 9 | _ => 10 end.

(** * Reading the letters *)

(** [tmpmask] and [snomask_given] of m_umode() beside the user *)
Record parsing := mkParsing { pu : user; tmpmask : Z; snomask_given : bool }.

(** The default case. [my] stands for [MyConnect(sptr)]. *)
Definition letter (my : bool) (c : ascii) (add : bool) (p : parsing) : parsing :=
  let u := pu p in
  match find_mode user_modes c with
  | Some flag =>
      if add then mkParsing (with_flags (Z.lor (flags u) flag) u) (tmpmask p) (snomask_given p)
      else if has flag ANOPER then
        let u := with_flags (clear (flags u) ANOPER) u in
        if my then mkParsing (ClearOperCmd u) (clear (snomask u) SNO_OPER) (snomask_given p)
        else mkParsing u (tmpmask p) (snomask_given p)
      else mkParsing (with_flags (clear (flags u) flag) u) (tmpmask p) (snomask_given p)
  | None =>
      match find_mode user_hmodes c with
      | Some flag =>
          mkParsing (with_hmodes (if add then Z.lor (hmodes u) flag else clear (hmodes u) flag) u) (tmpmask p) (snomask_given p)
      | None => p
      end
  end.

Definition is_blank (c : ascii) : bool := bool_decide (c ∈ [" "; "010"; "013"; "009"]%char).

(** The case of s: the mask, the parameters that are left and whether one was a mask *)
Definition notices (add : bool) (rest : list cstring) (p : parsing) : Z * list cstring * bool :=
  let default := if add then if IsAnOper (pu p) then SNO_OPERDEFAULT else SNO_DEFAULT else 0 in
  match rest with
  | q :: rest' =>
      if is_snomask q then
        (Z.land (umode_make_snomask (tmpmask p) q add) (if IsAnOper (pu p) then SNO_ALL else SNO_USER), rest', true)
      else (default, rest, snomask_given p)
  | [] => (default, rest, snomask_given p)
  end.

(** One parameter; the letter s may take the next one, and what is left is the second component. *)
Fixpoint letters (my : bool) (m : cstring) (rest : list cstring) (add : bool) (p : parsing) : parsing * list cstring * bool :=
  match m with
  | [] => (p, rest, add)
  | c :: m =>
      if decide (c = "+"%char) then letters my m rest true p
      else if decide (c = "-"%char) then letters my m rest false p
      else if decide (c = "s"%char) then
        let '(t, rest, given) := notices add rest p in
        let f := flags (pu p) in
        letters my m rest add
          (mkParsing (with_flags (if decide (t <> 0) then Z.lor f FLAGS_SERVNOTICE else clear f FLAGS_SERVNOTICE) (pu p)) t given)
      else if is_blank c then letters my m rest add p
      else letters my m rest add (letter my c add p)
  end.

(** The loop over the parameters *)
Fixpoint read_modes (fuel : nat) (my : bool) (ps : list cstring) (add : bool) (p : parsing) : result parsing :=
  match ps with
  | [] => Ok p
  | m :: rest =>
      match fuel with
      | O => Fuel
      | S fuel => let '(p, rest, add) := letters my m rest add p in read_modes fuel my rest add p
      end
  end.

(** The bits that a table knows *)
Definition known (tab : list (Z * ascii)) (f : Z) : Z :=
  foldr (fun x acc => if has f (fst x) then Z.lor (fst x) acc else acc) 0 tab.

(** * What the server allows *)

(** [serv]: the line came from a server; [my]: the user is one of this server. *)
Record env := mkEnv { serv : bool; my : bool; status : Z; ipvirtual : bool; uline : bool }.

(** The [Clear] and [Set] macros, and [if (b) f;] *)
Definition clear_flag (m : Z) : state -> state := with_usr (fun u => with_flags (clear (flags u) m) u).
Definition clear_hmode (m : Z) : state -> state := with_usr (fun u => with_hmodes (clear (hmodes u) m) u).
Definition set_hmode (m : Z) : state -> state := with_usr (fun u => with_hmodes (Z.lor (hmodes u) m) u).
Definition when (b : state -> bool) (f : state -> state) (st : state) : state := if b st then f st else st.
Definition keep_hmode (old m : Z) (st : state) : state := if has old m then set_hmode m st else clear_hmode m st.
Definition BorraIpVirtualPerso (st : state) : state := clear_hmode HMODE_VHOSTPERSO (with_usr (with_vhostperso false) st).

Section settle.
Context (e : env) (cptr : nat) (setflags sethmodes : Z).

(** The modes of operators, and those that only a server may change *)
Definition own_operator (st : state) : state :=
  let st := when (fun st => my e && negb (has setflags FLAGS_OPER) && IsOper (usr st) && negb (has (status e) FLAGS_OPER)) (clear_flag FLAGS_OPER) st in
  when (fun st => negb (has setflags FLAGS_LOCOP) && IsLocOp (usr st) && negb (serv e)) (clear_flag FLAGS_LOCOP) st.

Definition only_servers (st : state) : state :=
  if serv e then st else
  let st := keep_hmode sethmodes HMODE_NICKREGISTERED st in
  let st := keep_hmode sethmodes HMODE_NICKSUSPENDED st in
  let st := keep_hmode sethmodes HMODE_VHOSTPERSO st in
  let st := keep_hmode sethmodes HMODE_SSL st in
  let st := keep_hmode sethmodes HMODE_DOCKING st in
  let st := when (fun _ => negb (has sethmodes HMODE_USERDEAF)) (clear_hmode HMODE_USERDEAF) st in
  let st := when (fun _ => negb (has sethmodes HMODE_USERBITCH)) (clear_hmode HMODE_USERBITCH) st in
  let st := when (fun _ => negb (has sethmodes HMODE_USERNOJOIN)) (clear_hmode HMODE_USERNOJOIN) st in
  keep_hmode sethmodes HMODE_PENDVALIDATION st.

(** A mode of the staff, for a user whose nick is registered *)
Definition staff (m : Z) : state -> state :=
  when (fun st => negb (has sethmodes m) && has (hmodes (usr st)) m && negb (has (status e) m)) (clear_hmode m).

Definition registered (st : state) : state :=
  let st := staff HMODE_CODER (staff HMODE_ADMIN (staff HMODE_HELPOP st)) in
  let st := when (fun _ => negb (ipvirtual e)) (clear_hmode HMODE_VHOSTPERSO) st in
  when (fun _ => negb (has sethmodes HMODE_NICKREGISTERED))
    (if ipvirtual e then set_hmode HMODE_VHOSTPERSO else BorraIpVirtualPerso) st.

Definition unregistered (st : state) : state :=
  let st := clear_hmode HMODE_MSGONLYREG st in
  let st := clear_hmode HMODE_NOCHAN st in
  let st := clear_hmode HMODE_DOCKING st in
  let st := when (fun st => IsHelpOp (usr st)) (count_helpers (-1)) st in
  let st := clear_hmode HMODE_HELPOP st in
  let st := clear_hmode HMODE_ADMIN st in
  let st := clear_hmode HMODE_CODER st in
  let st := when (fun st => IsOper (usr st)) (count_opers (-1)) st in
  let st := clear_flag FLAGS_OPER st in
  let st := clear_hmode HMODE_SERVICESBOT st in
  let st := when (fun _ => negb (ipvirtual e)) (clear_hmode HMODE_VHOSTPERSO) st in
  when (fun st => negb (IsOperCmd (usr st))) (fun st => clear_hmode HMODE_NOIDLE (clear_hmode HMODE_HIDDENVIEWER st)) st.

Definition by_registration (st : state) : state :=
  if my e then if IsNickRegistered (usr st) then registered st else unregistered st else st.

Definition lazy_vhost : state -> state :=
  when (fun st => has sethmodes HMODE_HIDDEN && negb (IsHidden (usr st)) && IsVhostPerso (usr st)) BorraIpVirtualPerso.

(** A mode that asks for a privilege *)
Definition privileged (m priv : Z) : state -> state :=
  when (fun st => my e && negb (has sethmodes m) && has (hmodes (usr st)) m && negb (HasPriv (my e) (usr st) priv)) (clear_hmode m).

Definition by_status (st : state) : state :=
  let no_ircop st := negb (serv e) && negb (IsOper (usr st)) in
  let st := when no_ircop (keep_hmode sethmodes HMODE_USERDEAF) st in
  let st := when no_ircop (keep_hmode sethmodes HMODE_USERBITCH) st in
  let st := when (fun st => negb (has setflags FLAGS_CHSERV) && negb (serv e) && negb (HasPriv (my e) (usr st) PRIV_CHANSERV)) (clear_flag FLAGS_CHSERV) st in
  let st := when (fun st => negb (has setflags FLAGS_SERVNOTICE) && negb (serv e) && negb (IsAnOper (usr st)))
              (fun st => set_snomask cptr 0 SNO_SET (clear_flag FLAGS_SERVNOTICE st)) st in
  let st := when (fun _ => negb (has sethmodes HMODE_SERVICESBOT) && negb (serv e) && negb (has (status e) HMODE_SERVICESBOT) && negb (uline e))
              (clear_hmode HMODE_SERVICESBOT) st in
  let st := when (fun st => my e && negb (has sethmodes HMODE_NOCHAN) && has (hmodes (usr st)) HMODE_NOCHAN && negb (IsNickRegistered (usr st)))
              (clear_hmode HMODE_NOCHAN) st in
  let st := privileged HMODE_HIDDENVIEWER PRIV_HIDDEN_VIEWER st in
  let st := privileged HMODE_WHOIS PRIV_WHOIS_NOTICE st in
  privileged HMODE_NOIDLE PRIV_HIDE_IDLE st.

(** The counters, from the comparison of the old bits with the new ones *)
Definition delta (before after : bool) : Z := if before && negb after then -1 else if negb before && after then 1 else 0.
Definition recount (st : state) : state :=
  let st := count_opers (delta (has setflags FLAGS_OPER) (IsOper (usr st))) st in
  let st := count_helpers (delta (has sethmodes HMODE_HELPOP) (IsHelpOp (usr st))) st in
  count_invisible (delta (has setflags FLAGS_INVISIBLE) (IsInvisible (usr st))) st.

Definition settle (st : state) : state := recount (by_status (lazy_vhost (by_registration (only_servers st)))).
End settle.

(** * Commands *)

(** What is sent, and what else happens: the lines of the configuration for operators are taken off, and those who
    watch the nick are told. *)
Record outs := mkOuts { to_servers : cstring; to_client : option cstring; detached : bool; announced : bool }.

(** m_umode() from the point where the user is known to be the sender, with the parameters from [parv[2]] on *)
Definition m_umode_change (e : env) (cptr : nat) (ps : list cstring) (st : state) : result (state * outs) :=
  let setflags := known user_modes (flags (usr st)) in
  let sethmodes := known user_hmodes (hmodes (usr st)) in
  let tmp := if my e then snomask (usr st) else 0 in
  p ← read_modes (length ps) (my e) ps true (mkParsing (usr st) tmp false);
  let e := mkEnv (serv e) (my e) (if my e then status e else 0) (ipvirtual e) (uline e) in
  let st := with_usr (fun _ => pu p) st in
  let st := own_operator e setflags st in
  let detach := has setflags ANOPER && negb (IsAnOper (usr st)) && my e in
  let st := settle e cptr setflags sethmodes st in
  let '(out, back) := send_umode_out (my e) (usr st) setflags sethmodes true (if serv e then None else Some true) in
  let st := if my e && bool_decide (tmpmask p <> snomask (usr st)) then set_snomask cptr (tmpmask p) SNO_SET st else st in
  let watch := has (flags (usr st)) MODE_ISWATCH in
  Ok (when (fun _ => watch) (clear_flag MODE_ISWATCH) st, mkOuts out back detach watch).

Inductive umode_answer :=
  | UNeedMoreParams | UNoSuchUser | UDontMatch | UModeIs (modes : cstring) | UChanged (st : state) (o : outs).

Definition modes_text (u : user) : cstring :=
  "+"%char :: map snd (filter (fun x => has (flags u) (fst x)) user_modes) ++
    map snd (filter (fun x => has (hmodes u) (fst x)) user_hmodes).

(** m_umode(): [parv] without the sender; [find] is FindUser(), [sptr] the sender, a server or not. *)
Definition m_umode (e : env) (find : cstring -> option nat) (sptr_server : bool) (sptr cptr : nat) (parv : list cstring) (st : state) : result umode_answer :=
  match parv with
  | [] => Ok UNeedMoreParams
  | name :: ps =>
      match find name with
      | None => Ok UNoSuchUser
      | Some acptr =>
          if decide (sptr_server = true \/ sptr <> acptr) then Ok UDontMatch
          else match ps with
               | [] => Ok (UModeIs (modes_text (usr st)))
               | _ => '(st, o) ← m_umode_change e cptr ps st; Ok (UChanged st o)
               end
      end
  end.

(** The letters of m_svsumode(), which has no case for s *)
Definition svs_letter (my : bool) (c : ascii) (add : bool) (p : parsing) : parsing :=
  let u := pu p in
  match find_mode user_modes c with
  | Some flag =>
      if add then mkParsing (with_flags (Z.lor (flags u) flag) u) (tmpmask p) (snomask_given p)
      else if has flag ANOPER then
        let u := with_flags (clear (flags u) ANOPER) u in
        mkParsing u (if my then clear (snomask u) SNO_OPER else tmpmask p) (snomask_given p)
      else mkParsing (with_flags (clear (flags u) flag) u) (tmpmask p) (snomask_given p)
  | None => letter my c add p
  end.
Fixpoint svs_letters (my : bool) (m : cstring) (add : bool) (p : parsing) : parsing * bool :=
  match m with
  | [] => (p, add)
  | c :: m =>
      if decide (c = "+"%char) then svs_letters my m true p
      else if decide (c = "-"%char) then svs_letters my m false p
      else if is_blank c then svs_letters my m add p
      else svs_letters my m add (svs_letter my c add p)
  end.

(** m_svsumode(), for a user that is found: the new state, and the text for a user of this server *)
Definition m_svsumode (e : env) (acptr : nat) (ps : list cstring) (st : state) : state * cstring :=
  let setflags := known user_modes (flags (usr st)) in
  let sethmodes := known user_hmodes (hmodes (usr st)) in
  let '(p, _) := fold_left (fun x m => let '(p, add) := x in svs_letters (my e) m add p) ps (mkParsing (usr st) 0 false, true) in
  let st := recount setflags sethmodes (with_usr (fun _ => pu p) st) in
  let st := when (fun _ => negb (ipvirtual e)) (clear_hmode HMODE_VHOSTPERSO) st in
  let st := if my e && bool_decide (tmpmask p <> snomask (usr st)) then set_snomask acptr (tmpmask p) SNO_SET st else st in
  (st, if my e then send_umode true (usr st) setflags SEND_UMODES sethmodes
                      (if IsAnOper (usr st) then SEND_HMODES else clear SEND_HMODES HMODES_HIDDEN_USER) else []).

(** * Lemmas: bits *)

(** The masks of one bit of a word of 32 *)
Class Bit32 (F : Z) : Prop := bit32 : (0 < F /\ 2 ^ Z.log2 F = F) /\ F < 2 ^ 32.
#[export] Instance Bit32_dec F : Decision (Bit32 F).
Proof. unfold Bit32. apply _. Defined.
#[export] Hint Extern 0 (Bit32 ?F) => (assert_fails (is_var F); apply (bool_decide_unpack _); vm_compute; exact I) : typeclass_instances.

#[export] Instance bit32_one F : Bit32 F -> OneBit F.
Proof. by intros []. Qed.

Lemma has_comm a b : has a b = has b a.
Proof. unfold has. by rewrite Z.land_comm. Qed.

Lemma has_u32 F a `{HF : Bit32 F} : has (u32 a) F = has a F.
Proof.
  destruct HF as [H1 H2]. assert (OneBit F) by exact H1. rewrite !(has_testbit F). unfold u32. apply Z.mod_pow2_bits_low.
  apply (Z.log2_lt_pow2 F 32); [exact (proj1 H1)|exact H2].
Qed.

Lemma has_self F G : OneBit F -> OneBit G -> has F G = bool_decide (F = G).
Proof.
  intros HF HG. rewrite (has_testbit G). destruct HF as [HF EF], HG as [HG EG]. rewrite <- EF at 1.
  rewrite Z.pow2_bits_eqb by apply Z.log2_nonneg. apply eq_true_iff_eq. rewrite Z.eqb_eq, bool_decide_eq_true. split; [|by intros ->].
  intros E. by rewrite <- EF, <- EG, E.
Qed.

Lemma has_or F a b `{Bit32 F} : has (Z.lor a b) F = has a F || has b F.
Proof. apply has_union, _. Qed.
Lemma has_but F a b `{Bit32 F} : has (clear a b) F = has a F && negb (has b F).
Proof. apply has_without, _. Qed.
Lemma has_same F G `{Bit32 F, Bit32 G} : has F G = bool_decide (F = G).
Proof. apply has_self; apply _. Qed.

Definition bits_of (tab : list (Z * ascii)) : Prop := Forall (fun x => Bit32 (fst x)) tab.
Lemma user_modes_bits : bits_of user_modes.
Proof. unfold bits_of. apply (bool_decide_unpack _). vm_compute. exact I. Qed.
Lemma user_hmodes_bits : bits_of user_hmodes.
Proof. unfold bits_of. apply (bool_decide_unpack _). vm_compute. exact I. Qed.

Lemma has_known tab f F : bits_of tab -> Bit32 F -> F ∈ tab.*1 -> has (known tab f) F = has f F.
Proof.
  intros Ht HF. assert (Hg : has (known tab f) F = has f F && bool_decide (F ∈ tab.*1)).
  { induction Ht as [|[x c] tab Hx Ht IH]; [by rewrite andb_false_r|]. change (Bit32 x) in Hx. cbn [known foldr fst fmap list_fmap].
    fold (known tab f). destruct (has f x) eqn:E.
    - rewrite has_or, IH, (has_same x F) by exact HF. destruct (decide (x = F)) as [->|N].
      + rewrite (bool_decide_eq_true_2 (F = F)), E by done. cbn [orb andb]. symmetry. apply bool_decide_eq_true_2. by left.
      + rewrite (bool_decide_eq_false_2 (x = F)) by done. cbn [orb]. f_equal. apply bool_decide_ext. rewrite elem_of_cons. naive_solver.
    - rewrite IH. destruct (decide (x = F)) as [->|N]; [by rewrite E|]. f_equal. apply bool_decide_ext. rewrite elem_of_cons. naive_solver. }
  intros Hin. by rewrite Hg, bool_decide_eq_true_2, andb_true_r.
Qed.

(** A bit is in its table: decided. *)
Ltac in_table := apply (bool_decide_unpack _); vm_compute; exact I.

Lemma has_setflags F f `{Bit32 F} : F ∈ user_modes.*1 -> has (known user_modes f) F = has f F.
Proof. by apply (has_known _ _ _ user_modes_bits). Qed.
Lemma has_sethmodes F f `{Bit32 F} : F ∈ user_hmodes.*1 -> has (known user_hmodes f) F = has f F.
Proof. by apply (has_known _ _ _ user_hmodes_bits). Qed.

(** * Lemmas: the steps on one bit *)

Section steps.
Context (F : Z) `{Bit32 F}.
Implicit Types (m : Z) (st : state).

Lemma flags_clear_flag m st : has (flags (usr (clear_flag m st))) F = has (flags (usr st)) F && negb (has m F).
Proof. cbn -[has]. by rewrite (has_u32 F), (has_but F). Qed.
Lemma hmodes_clear_hmode m st : has (hmodes (usr (clear_hmode m st))) F = has (hmodes (usr st)) F && negb (has m F).
Proof. cbn -[has]. by rewrite (has_u32 F), (has_but F). Qed.
Lemma hmodes_set_hmode m st : has (hmodes (usr (set_hmode m st))) F = has (hmodes (usr st)) F || has m F.
Proof. cbn -[has]. by rewrite (has_u32 F), (has_or F). Qed.
Lemma hmodes_keep_hmode old m st `{Bit32 m} :
  has (hmodes (usr (keep_hmode old m st))) F = if decide (m = F) then has old F else has (hmodes (usr st)) F.
Proof.
  unfold keep_hmode. destruct (has old m) eqn:E.
  - rewrite hmodes_set_hmode, (has_same m F). destruct (decide (m = F)) as [->|N].
    + by rewrite bool_decide_eq_true_2, orb_true_r.
    + by rewrite bool_decide_eq_false_2, orb_false_r.
  - rewrite hmodes_clear_hmode, (has_same m F). destruct (decide (m = F)) as [->|N].
    + by rewrite bool_decide_eq_true_2, andb_false_r.
    + by rewrite bool_decide_eq_false_2, andb_true_r.
Qed.
End steps.

(** What a step leaves alone *)
Section same.
Context (m : Z) (d : Z) (c : nat) (b : bool) (st : state).
Lemma hmodes_clear_flag : hmodes (usr (clear_flag m st)) = hmodes (usr st). Proof. done. Qed.
Lemma hmodes_count_opers : hmodes (usr (count_opers d st)) = hmodes (usr st). Proof. done. Qed.
Lemma hmodes_count_helpers : hmodes (usr (count_helpers d st)) = hmodes (usr st). Proof. done. Qed.
Lemma hmodes_set_snomask : hmodes (usr (set_snomask c m d st)) = hmodes (usr st). Proof. done. Qed.
Lemma hmodes_with_vhostperso : hmodes (usr (with_usr (with_vhostperso b) st)) = hmodes (usr st). Proof. done. Qed.
Lemma flags_count_opers : flags (usr (count_opers d st)) = flags (usr st). Proof. done. Qed.
Lemma flags_count_helpers : flags (usr (count_helpers d st)) = flags (usr st). Proof. done. Qed.
Lemma flags_set_snomask : flags (usr (set_snomask c m d st)) = flags (usr st). Proof. done. Qed.
Lemma flags_clear_hmode : flags (usr (clear_hmode m st)) = flags (usr st). Proof. done. Qed.
Lemma flags_set_hmode : flags (usr (set_hmode m st)) = flags (usr st). Proof. done. Qed.
Lemma privs_clear_hmode : privs (usr (clear_hmode m st)) = privs (usr st). Proof. done. Qed.
Lemma privs_set_hmode : privs (usr (set_hmode m st)) = privs (usr st). Proof. done. Qed.
Lemma privs_clear_flag : privs (usr (clear_flag m st)) = privs (usr st). Proof. done. Qed.
Lemma privs_count_opers : privs (usr (count_opers d st)) = privs (usr st). Proof. done. Qed.
Lemma privs_count_helpers : privs (usr (count_helpers d st)) = privs (usr st). Proof. done. Qed.
Lemma privs_BorraIpVirtualPerso : privs (usr (BorraIpVirtualPerso st)) = privs (usr st). Proof. done. Qed.
Lemma privs_when f b' : privs (usr (f st)) = privs (usr st) -> privs (usr (when b' f st)) = privs (usr st).
Proof. unfold when. by destruct (b' st). Qed.
Lemma flags_BorraIpVirtualPerso : flags (usr (BorraIpVirtualPerso st)) = flags (usr st). Proof. done. Qed.
End same.
Lemma when_same {X} (g : state -> X) b f st : g (f st) = g st -> g (when b f st) = g st.
Proof. unfold when. by destruct (b st). Qed.
Lemma flags_keep_hmode old m st : flags (usr (keep_hmode old m st)) = flags (usr st).
Proof. unfold keep_hmode. by destruct (has old m). Qed.

Lemma IsAnOper_eq u : IsAnOper u = has (flags u) FLAGS_OPER || has (flags u) FLAGS_LOCOP.
Proof.
  unfold IsAnOper, ANOPER, has. apply eq_true_iff_eq. rewrite orb_true_iff, !bool_decide_eq_true.
  rewrite Z.land_lor_distr_r, Z.lor_eq_0_iff. destruct (decide (Z.land (flags u) FLAGS_OPER = 0)); tauto.
Qed.

(** * Nobody gives himself what is not his *)

(** What holds of every user that has a bit after a step; steps that only take bits away keep it. *)
Definition guard_h (F : Z) (A : Prop) (st : state) : Prop := has (hmodes (usr st)) F = true -> A.
Definition guard_f (F : Z) (A : Prop) (st : state) : Prop := has (flags (usr st)) F = true -> A.
Definition fixed (F : Z) (b : bool) (st : state) : Prop := has (hmodes (usr st)) F = b.

Section guards.
Context (F : Z) `{Bit32 F} (A : Prop).
Implicit Types (m : Z) (st : state).

Lemma guard_h_usr st st' : hmodes (usr st') = hmodes (usr st) -> guard_h F A st -> guard_h F A st'.
Proof. unfold guard_h. by intros ->. Qed.
Lemma guard_f_usr st st' : flags (usr st') = flags (usr st) -> guard_f F A st -> guard_f F A st'.
Proof. unfold guard_f. by intros ->. Qed.
Lemma guard_h_when b f st : (guard_h F A st -> guard_h F A (f st)) -> guard_h F A st -> guard_h F A (when b f st).
Proof. unfold when. destruct (b st); auto. Qed.
Lemma guard_f_when b f st : (guard_f F A st -> guard_f F A (f st)) -> guard_f F A st -> guard_f F A (when b f st).
Proof. unfold when. destruct (b st); auto. Qed.
Lemma guard_h_clear m st : guard_h F A st -> guard_h F A (clear_hmode m st).
Proof. unfold guard_h. rewrite hmodes_clear_hmode by done. intros HA [? _]%andb_true_iff. auto. Qed.
Lemma guard_f_clear m st : guard_f F A st -> guard_f F A (clear_flag m st).
Proof. unfold guard_f. rewrite flags_clear_flag by done. intros HA [? _]%andb_true_iff. auto. Qed.
Lemma guard_h_keep old m st `{Bit32 m} : (m = F -> has old F = true -> A) -> guard_h F A st -> guard_h F A (keep_hmode old m st).
Proof. unfold guard_h. rewrite (hmodes_keep_hmode F) by done. intros Hm Hst. destruct (decide (m = F)); auto. Qed.
Lemma guard_h_put m st `{Bit32 m} : m <> F -> guard_h F A st -> guard_h F A (set_hmode m st).
Proof.
  unfold guard_h. rewrite (hmodes_set_hmode F), (has_same m F). intros N Hst. rewrite bool_decide_eq_false_2, orb_false_r by done. done.
Qed.
(** The step that takes the bit away unless the condition for it holds *)
Lemma guard_h_cleared st : guard_h F A (clear_hmode F st).
Proof. unfold guard_h. rewrite (hmodes_clear_hmode F), (has_same F F), bool_decide_eq_true_2, andb_false_r by done. done. Qed.
Lemma guard_f_cleared st : guard_f F A (clear_flag F st).
Proof. unfold guard_f. rewrite (flags_clear_flag F), (has_same F F), bool_decide_eq_true_2, andb_false_r by done. done. Qed.
Lemma guard_h_only b st : (b st = false -> has (hmodes (usr st)) F = true -> A) -> guard_h F A (when b (clear_hmode F) st).
Proof. unfold when. intros HA. destruct (b st); [apply guard_h_cleared|unfold guard_h; auto]. Qed.
Lemma guard_f_only b st : (b st = false -> has (flags (usr st)) F = true -> A) -> guard_f F A (when b (clear_flag F) st).
Proof. unfold when. intros HA. destruct (b st); [apply guard_f_cleared|unfold guard_f; auto]. Qed.

Context (v : bool).
Lemma fixed_usr st st' : hmodes (usr st') = hmodes (usr st) -> fixed F v st -> fixed F v st'.
Proof. unfold fixed. by intros ->. Qed.
Lemma fixed_when b f st : (fixed F v st -> fixed F v (f st)) -> fixed F v st -> fixed F v (when b f st).
Proof. unfold when. destruct (b st); auto. Qed.
Lemma fixed_clear m st `{Bit32 m} : m <> F -> fixed F v st -> fixed F v (clear_hmode m st).
Proof.
  unfold fixed. rewrite (hmodes_clear_hmode F), (has_same m F). intros N. by rewrite bool_decide_eq_false_2, andb_true_r by done.
Qed.
Lemma fixed_put m st `{Bit32 m} : m <> F -> fixed F v st -> fixed F v (set_hmode m st).
Proof.
  unfold fixed. rewrite (hmodes_set_hmode F), (has_same m F). intros N. by rewrite bool_decide_eq_false_2, orb_false_r by done.
Qed.
Lemma fixed_keep old m st `{Bit32 m} : m <> F -> fixed F v st -> fixed F v (keep_hmode old m st).
Proof. unfold fixed. rewrite (hmodes_keep_hmode F) by done. intros N. by rewrite decide_False. Qed.
Lemma fixed_kept old st : has old F = v -> fixed F v (keep_hmode old F st).
Proof. unfold fixed. rewrite (hmodes_keep_hmode F) by done. by rewrite decide_True. Qed.
End guards.

(** The step before is found by its name: bits of another kind stay, taking away is harmless. *)
Ltac guard_step :=
  lazymatch goal with
  | |- guard_h _ _ (when _ _ _) => apply guard_h_when; [intros ?; cbv beta|]
  | |- guard_h _ _ (clear_hmode _ _) => apply guard_h_clear; [apply _|]
  | |- guard_h _ _ (set_hmode _ _) => apply guard_h_put; [apply _|apply _|done|]
  | |- guard_h _ _ (keep_hmode _ _ _) => apply guard_h_keep; [apply _|apply _|try discriminate|]
  | |- guard_h _ _ (staff _ _ _ _) => unfold staff
  | |- guard_h _ _ (privileged _ _ _ _ _) => unfold privileged
  | |- guard_h _ _ (BorraIpVirtualPerso _) => unfold BorraIpVirtualPerso
  | |- guard_h _ _ (count_opers _ ?st) => apply (guard_h_usr _ _ st); [apply hmodes_count_opers|]
  | |- guard_h _ _ (count_helpers _ ?st) => apply (guard_h_usr _ _ st); [apply hmodes_count_helpers|]
  | |- guard_h _ _ (set_snomask _ _ _ ?st) => apply (guard_h_usr _ _ st); [apply hmodes_set_snomask|]
  | |- guard_h _ _ (clear_flag _ ?st) => apply (guard_h_usr _ _ st); [apply hmodes_clear_flag|]
  | |- guard_h _ _ (with_usr (with_vhostperso _) ?st) => apply (guard_h_usr _ _ st); [apply hmodes_with_vhostperso|]
  | |- guard_f _ _ (when _ _ _) => apply guard_f_when; [intros ?; cbv beta|]
  | |- guard_f _ _ (clear_flag _ _) => apply guard_f_clear; [apply _|]
  | |- guard_f _ _ (keep_hmode _ _ ?st) => apply (guard_f_usr _ _ st); [apply flags_keep_hmode|]
  | |- guard_f _ _ (staff _ _ _ _) => unfold staff
  | |- guard_f _ _ (privileged _ _ _ _ _) => unfold privileged
  | |- guard_f _ _ (BorraIpVirtualPerso ?st) => apply (guard_f_usr _ _ st); [apply flags_BorraIpVirtualPerso|]
  | |- guard_f _ _ (count_opers _ ?st) => apply (guard_f_usr _ _ st); [apply flags_count_opers|]
  | |- guard_f _ _ (count_helpers _ ?st) => apply (guard_f_usr _ _ st); [apply flags_count_helpers|]
  | |- guard_f _ _ (set_snomask _ _ _ ?st) => apply (guard_f_usr _ _ st); [apply flags_set_snomask|]
  | |- guard_f _ _ (clear_hmode _ ?st) => apply (guard_f_usr _ _ st); [apply flags_clear_hmode|]
  | |- guard_f _ _ (set_hmode _ ?st) => apply (guard_f_usr _ _ st); [apply flags_set_hmode|]
  | |- fixed _ _ (when _ _ _) => apply fixed_when; [intros ?; cbv beta|]
  | |- fixed _ _ (clear_hmode _ _) => apply fixed_clear; [apply _|apply _|done|]
  | |- fixed _ _ (set_hmode _ _) => apply fixed_put; [apply _|apply _|done|]
  | |- fixed _ _ (keep_hmode _ _ _) => apply fixed_keep; [apply _|apply _|done|]
  | |- fixed _ _ (staff _ _ _ _) => unfold staff
  | |- fixed _ _ (privileged _ _ _ _ _) => unfold privileged
  | |- fixed _ _ (BorraIpVirtualPerso _) => unfold BorraIpVirtualPerso
  | |- fixed _ _ (count_opers _ ?st) => apply (fixed_usr _ _ st); [apply hmodes_count_opers|]
  | |- fixed _ _ (count_helpers _ ?st) => apply (fixed_usr _ _ st); [apply hmodes_count_helpers|]
  | |- fixed _ _ (set_snomask _ _ _ ?st) => apply (fixed_usr _ _ st); [apply hmodes_set_snomask|]
  | |- fixed _ _ (clear_flag _ ?st) => apply (fixed_usr _ _ st); [apply hmodes_clear_flag|]
  | |- fixed _ _ (with_usr (with_vhostperso _) ?st) => apply (fixed_usr _ _ st); [apply hmodes_with_vhostperso|]
  end; try (match goal with H : ?G |- ?G' => constr_eq G G'; exact H end).
Ltac guard_steps := repeat guard_step.

Section own.
Context (e : env) (c : nat) (sf sh : Z).

Lemma guard_registration F A st :
  Bit32 F -> F <> HMODE_VHOSTPERSO -> guard_h F A st -> guard_h F A (by_registration e sh st).
Proof.
  intros HF N Hst. unfold by_registration, registered, unregistered; cbv zeta. destruct (my e); [|done]. destruct (IsNickRegistered (usr st)).
  - destruct (ipvirtual e); guard_steps.
  - guard_steps.
Qed.

Lemma guard_recount F A st : guard_h F A st -> guard_h F A (recount sf sh st).
Proof. by apply guard_h_usr. Qed.

Lemma guard_lazy F A st : Bit32 F -> guard_h F A st -> guard_h F A (lazy_vhost sh st).
Proof. intros HF Hst. unfold lazy_vhost. guard_steps. Qed.

Lemma guard_status F A st : Bit32 F -> (F = HMODE_USERDEAF \/ F = HMODE_USERBITCH -> has sh F = true -> A) -> guard_h F A st -> guard_h F A (by_status e c sf sh st).
Proof. intros HF Ho Hst. unfold by_status; cbv zeta. guard_steps; intros <-; auto. Qed.
End own.

(** Operators and privileges through the last steps *)
Definition standing (u : user) : bool * bool * Z := (IsOper u, IsAnOper u, privs u).

Lemma anoper_clear_flag m st : has m FLAGS_OPER = false -> has m FLAGS_LOCOP = false -> standing (usr (clear_flag m st)) = standing (usr st).
Proof.
  intros H1 H2. unfold standing. rewrite !IsAnOper_eq. unfold IsOper. rewrite !flags_clear_flag, H1, H2 by apply _. by rewrite !andb_true_r.
Qed.
Lemma standing_hmodes u u' : flags u' = flags u -> privs u' = privs u -> standing u' = standing u.
Proof. unfold standing, IsAnOper, IsOper. by intros -> ->. Qed.
Lemma standing_clear_hmode m st : standing (usr (clear_hmode m st)) = standing (usr st).
Proof. by apply standing_hmodes. Qed.

Lemma standing_IsOper x y : standing x = standing y -> IsOper x = IsOper y.
Proof. by intros [= -> _ _]. Qed.
Lemma standing_IsAnOper x y : standing x = standing y -> IsAnOper x = IsAnOper y.
Proof. by intros [= _ -> _]. Qed.
Lemma standing_privs x y : standing x = standing y -> privs x = privs y.
Proof. by intros [= _ _ ->]. Qed.

Section own2.
Context (e : env) (c : nat) (sf sh : Z).

Lemma standing_privileged m p st : standing (usr (privileged e sh m p st)) = standing (usr st).
Proof. unfold privileged. apply (when_same (fun st => standing (usr st))), standing_clear_hmode. Qed.

Lemma standing_keep old m st : standing (usr (keep_hmode old m st)) = standing (usr st).
Proof. unfold keep_hmode. by destruct (has old m); apply standing_hmodes. Qed.

Lemma standing_status st : standing (usr (by_status e c sf sh st)) = standing (usr st).
Proof.
  unfold by_status; cbv zeta. rewrite !standing_privileged.
  repeat (rewrite (when_same (fun st => standing (usr st)));
    [|first [apply standing_clear_hmode|apply standing_keep|by apply anoper_clear_flag|
             etransitivity; [by apply standing_hmodes|by apply anoper_clear_flag]]]).
  done.
Qed.

Lemma guard_privileged F A p st :
  Bit32 F -> my e = true -> (has sh F = true \/ has (privs (usr st)) p = true /\ IsAnOper (usr st) = true -> A) ->
  guard_h F A (privileged e sh F p st).
Proof.
  intros HF Hm HA. apply guard_h_only; [done|]. intros Hb Hh. apply HA. rewrite Hm, Hh in Hb. destruct (has sh F); [by left|right].
  cbn in Hb. unfold HasPriv in Hb. destruct (IsAnOper (usr st)); [|done]. by destruct (has (privs (usr st)) p).
Qed.

Lemma guard_privileged_more F A m p st : Bit32 F -> guard_h F A st -> guard_h F A (privileged e sh m p st).
Proof. intros HF Hst. unfold privileged. guard_steps. Qed.

Lemma guard_by_privilege F p st :
  my e = true -> (F, p) ∈ [(HMODE_HIDDENVIEWER, PRIV_HIDDEN_VIEWER); (HMODE_WHOIS, PRIV_WHOIS_NOTICE); (HMODE_NOIDLE, PRIV_HIDE_IDLE)] ->
  guard_h F (has sh F = true \/ has (privs (usr st)) p = true /\ IsAnOper (usr st) = true) (by_status e c sf sh st).
Proof.
  intros Hm Hin. pose proof (standing_status st) as Hst. unfold by_status in *; cbv zeta in *.
  match goal with |- context [privileged _ _ HMODE_HIDDENVIEWER _ ?x] => set (s := x) in * end.
  rewrite !standing_privileged in Hst. unfold standing in Hst. injection Hst as _ Ho Hp.
  rewrite list_elem_of_In in Hin. destruct Hin as [E|[E|[E|[]]]]; injection E as <- <-.
  - do 2 (apply guard_privileged_more; [apply _|]). apply guard_privileged; [apply _|done|]. by rewrite Ho, Hp.
  - apply guard_privileged_more; [apply _|]. apply guard_privileged; [apply _|done|]. pose proof (standing_privileged HMODE_HIDDENVIEWER PRIV_HIDDEN_VIEWER s) as E.
    unfold standing in E. injection E as _ -> ->. by rewrite Ho, Hp.
  - apply guard_privileged; [apply _|done|].
    pose proof (eq_trans (standing_privileged HMODE_WHOIS PRIV_WHOIS_NOTICE (privileged e sh HMODE_HIDDENVIEWER PRIV_HIDDEN_VIEWER s))
      (standing_privileged HMODE_HIDDENVIEWER PRIV_HIDDEN_VIEWER s)) as E. unfold standing in E. injection E as _ -> ->. by rewrite Ho, Hp.
Qed.
End own2.

(** * What a user may change by himself *)

(** [u] is the user before, [u'] after; [e] what the server knows of him. *)
Record may_change (e : env) (u u' : user) : Prop := {
  by_servers_only F : F ∈ [HMODE_NICKREGISTERED; HMODE_NICKSUSPENDED; HMODE_SSL; HMODE_PENDVALIDATION] ->
    has (hmodes u') F = has (hmodes u) F;
  never_set F : F ∈ [HMODE_VHOSTPERSO; HMODE_DOCKING; HMODE_USERDEAF; HMODE_USERBITCH; HMODE_USERNOJOIN] ->
    has (hmodes u') F = true -> has (hmodes u) F = true;
  never_cleared F : F ∈ [HMODE_USERDEAF; HMODE_USERBITCH] -> IsOper u' = false -> has (hmodes u') F = has (hmodes u) F;
  of_the_staff F : F ∈ [HMODE_HELPOP; HMODE_ADMIN; HMODE_CODER] -> has (hmodes u') F = true ->
    IsNickRegistered u = true /\ (has (hmodes u) F = true \/ has (status e) F = true);
  of_the_registered F : F ∈ [HMODE_NOCHAN; HMODE_MSGONLYREG] -> has (hmodes u') F = true -> IsNickRegistered u = true;
  of_bots : has (hmodes u') HMODE_SERVICESBOT = true ->
    has (hmodes u) HMODE_SERVICESBOT = true \/ has (status e) HMODE_SERVICESBOT = true \/ uline e = true;
  of_the_privileged F p : (F, p) ∈ [(HMODE_HIDDENVIEWER, PRIV_HIDDEN_VIEWER); (HMODE_WHOIS, PRIV_WHOIS_NOTICE); (HMODE_NOIDLE, PRIV_HIDE_IDLE)] ->
    has (hmodes u') F = true -> has (hmodes u) F = true \/ has (privs u) p = true /\ IsAnOper u' = true;
  of_operators : IsOper u' = true -> IsNickRegistered u = true /\ (IsOper u = true \/ has (status e) FLAGS_OPER = true);
  of_local_operators : IsLocOp u' = true -> IsLocOp u = true;
  of_services : has (flags u') FLAGS_CHSERV = true -> has (flags u) FLAGS_CHSERV = true \/ has (privs u) PRIV_CHANSERV = true /\ IsAnOper u' = true;
  of_notices : has (flags u') FLAGS_SERVNOTICE = true -> has (flags u) FLAGS_SERVNOTICE = true \/ IsAnOper u' = true
}.

Section user_settle.
Context (e : env) (c : nat) (sf sh : Z) (Hs : serv e = false) (Hm : my e = true).

(** After [only_servers] the registration is the one of before. *)
Lemma only_servers_registered st : IsNickRegistered (usr (only_servers e sh st)) = has sh HMODE_NICKREGISTERED.
Proof.
  change (fixed HMODE_NICKREGISTERED (has sh HMODE_NICKREGISTERED) (only_servers e sh st)). unfold only_servers; rewrite Hs; cbv zeta.
  do 8 guard_step. by apply fixed_kept; [apply _|].
Qed.
End user_settle.

Section user_guards.
Context (e : env) (c : nat) (sf sh : Z).

Lemma guard_f_tail F A st : Bit32 F -> guard_f F A st -> guard_f F A (recount sf sh (by_status e c sf sh (lazy_vhost sh st))).
Proof.
  intros HF Hst. apply (guard_f_usr _ _ (by_status e c sf sh (lazy_vhost sh st))); [done|]. unfold by_status, lazy_vhost; cbv zeta. guard_steps.
Qed.
Lemma flags_only_servers st : flags (usr (only_servers e sh st)) = flags (usr st).
Proof.
  unfold only_servers. destruct (serv e); [done|]. cbv zeta. rewrite flags_keep_hmode.
  do 3 rewrite (when_same (fun st => flags (usr st))) by done. by rewrite !flags_keep_hmode.
Qed.
Lemma privs_only_servers st : privs (usr (only_servers e sh st)) = privs (usr st).
Proof.
  assert (Hk : forall old m s, privs (usr (keep_hmode old m s)) = privs (usr s)) by (intros old m s; unfold keep_hmode; by destruct (has old m)).
  unfold only_servers. destruct (serv e); [done|]. cbv zeta. rewrite Hk.
  do 3 rewrite (when_same (fun st => privs (usr st))) by done. by rewrite !Hk.
Qed.
Lemma guard_f_registration F A st : Bit32 F -> guard_f F A st -> guard_f F A (by_registration e sh st).
Proof.
  intros HF Hst. unfold by_registration, registered, unregistered; cbv zeta. destruct (my e); [|done]. destruct (IsNickRegistered (usr st)).
  - destruct (ipvirtual e); guard_steps.
  - guard_steps.
Qed.
Lemma guard_f_own F A st : Bit32 F -> guard_f F A st -> guard_f F A (own_operator e sf st).
Proof. intros HF Hst. unfold own_operator; cbv zeta. guard_steps. Qed.
Lemma guard_h_tail F A st : Bit32 F -> (F = HMODE_USERDEAF \/ F = HMODE_USERBITCH -> has sh F = true -> A) -> guard_h F A st -> guard_h F A (recount sf sh (by_status e c sf sh (lazy_vhost sh st))).
Proof. intros HF Ho Hst. apply (guard_h_usr _ _ (by_status e c sf sh (lazy_vhost sh st))); [done|]. apply guard_status; [done|done|]. by apply guard_lazy. Qed.
Lemma fixed_tail F v st : Bit32 F -> F ∈ [HMODE_NICKREGISTERED; HMODE_NICKSUSPENDED; HMODE_SSL; HMODE_PENDVALIDATION] ->
  fixed F v st -> fixed F v (recount sf sh (by_status e c sf sh (lazy_vhost sh st))).
Proof.
  intros HF Hin Hst. apply (fixed_usr _ _ (by_status e c sf sh (lazy_vhost sh st))); [done|]. unfold by_status, lazy_vhost; cbv zeta.
  rewrite list_elem_of_In in Hin. destruct Hin as [<-|[<-|[<-|[<-|[]]]]]; guard_steps.
Qed.
Lemma fixed_registration F v st : Bit32 F -> F ∈ [HMODE_NICKREGISTERED; HMODE_NICKSUSPENDED; HMODE_SSL; HMODE_PENDVALIDATION; HMODE_USERDEAF; HMODE_USERBITCH] ->
  fixed F v st -> fixed F v (by_registration e sh st).
Proof.
  intros HF Hin Hst. unfold by_registration, registered, unregistered; cbv zeta. destruct (my e); [|done].
  rewrite list_elem_of_In in Hin. destruct (IsNickRegistered (usr st)); [destruct (ipvirtual e)|];
    destruct Hin as [<-|[<-|[<-|[<-|[<-|[<-|[]]]]]]]; guard_steps.
Qed.
End user_guards.

Lemma settle_usr e c sf sh st :
  usr (settle e c sf sh st) = usr (by_status e c sf sh (lazy_vhost sh (by_registration e sh (only_servers e sh st)))).
Proof. reflexivity. Qed.

Ltac privs_same := repeat first
  [rewrite privs_clear_hmode|rewrite privs_set_hmode|rewrite privs_clear_flag|rewrite privs_count_opers|rewrite privs_count_helpers
  |rewrite privs_BorraIpVirtualPerso|rewrite privs_when by (cbv beta; privs_same)]; reflexivity.

Lemma privs_registration e sh st : privs (usr (by_registration e sh st)) = privs (usr st).
Proof.
  unfold by_registration, registered, unregistered, staff; cbv zeta. destruct (my e); [|done].
  destruct (IsNickRegistered (usr st)); [destruct (ipvirtual e)|]; privs_same.
Qed.
Lemma privs_own e sf st : privs (usr (own_operator e sf st)) = privs (usr st).
Proof. unfold own_operator; cbv zeta. privs_same. Qed.

Section user_change.
Context (e : env) (c : nat) (u : user) (st : state) (Hs : serv e = false) (Hm : my e = true) (Hp : privs (usr st) = privs u).
Notation sf := (known user_modes (flags u)).
Notation sh := (known user_hmodes (hmodes u)).
Notation st' := (settle e c sf sh (own_operator e sf st)).
Notation pre := (only_servers e sh (own_operator e sf st)).

Lemma pre_registered : IsNickRegistered (usr pre) = IsNickRegistered u.
Proof. rewrite only_servers_registered by done. apply has_sethmodes; [apply _|in_table]. Qed.

(** What only a server may change *)
Lemma change_by_servers F :
  F ∈ [HMODE_NICKREGISTERED; HMODE_NICKSUSPENDED; HMODE_SSL; HMODE_PENDVALIDATION] -> has (hmodes (usr st')) F = has (hmodes u) F.
Proof.
  intros Hin. assert (HF : Bit32 F) by (rewrite list_elem_of_In in Hin; destruct Hin as [<-|[<-|[<-|[<-|[]]]]]; apply _).
  transitivity (has sh F); [|apply has_sethmodes; [done|rewrite list_elem_of_In in Hin; destruct Hin as [<-|[<-|[<-|[<-|[]]]]]; in_table]].
  apply (fixed_tail e c sf sh F); [done|done|]. apply fixed_registration; [done|set_solver|].
  unfold only_servers; rewrite Hs; cbv zeta.
  rewrite list_elem_of_In in Hin. destruct Hin as [<-|[<-|[<-|[<-|[]]]]].
  - do 8 guard_step. apply fixed_kept; [apply _|done].
  - do 7 guard_step. apply fixed_kept; [apply _|done].
  - do 5 guard_step. apply fixed_kept; [apply _|done].
  - apply fixed_kept; [apply _|done].
Qed.

(** What he has after [only_servers] he had before, for the bits that are never set *)
Lemma change_never_set F :
  F ∈ [HMODE_VHOSTPERSO; HMODE_DOCKING; HMODE_USERDEAF; HMODE_USERBITCH; HMODE_USERNOJOIN] -> Bit32 F -> F ∈ user_hmodes.*1 ->
  guard_h F (has (hmodes u) F = true) pre.
Proof.
  intros Hin HF Ht. assert (Hk : has sh F = true -> has (hmodes u) F = true) by (by rewrite has_sethmodes).
  unfold only_servers; rewrite Hs; cbv zeta.
  rewrite list_elem_of_In in Hin. destruct Hin as [<-|[<-|[<-|[<-|[<-|[]]]]]].
  - do 6 guard_step; try solve [guard_steps]. unfold guard_h. rewrite (hmodes_keep_hmode HMODE_VHOSTPERSO) by apply _. by rewrite decide_True.
  - do 4 guard_step; try solve [guard_steps]. unfold guard_h. rewrite (hmodes_keep_hmode HMODE_DOCKING) by apply _. by rewrite decide_True.
  - do 3 guard_step; try solve [guard_steps]. apply guard_h_only; [apply _|]. intros Hb _. by apply Hk, negb_false_iff.
  - do 2 guard_step; try solve [guard_steps]. apply guard_h_only; [apply _|]. intros Hb _. by apply Hk, negb_false_iff.
  - guard_step; try solve [guard_steps]. apply guard_h_only; [apply _|]. intros Hb _. by apply Hk, negb_false_iff.
Qed.

Lemma change_never_set_end F :
  F ∈ [HMODE_VHOSTPERSO; HMODE_DOCKING; HMODE_USERDEAF; HMODE_USERBITCH; HMODE_USERNOJOIN] ->
  has (hmodes (usr st')) F = true -> has (hmodes u) F = true.
Proof.
  intros Hin. assert (HF : Bit32 F /\ F ∈ user_hmodes.*1)
    by (rewrite list_elem_of_In in Hin; destruct Hin as [<-|[<-|[<-|[<-|[<-|[]]]]]]; split; [apply _|in_table|apply _|in_table|apply _|in_table|apply _|in_table|apply _|in_table]).
  destruct HF as [HF Ht]. pose proof (change_never_set F Hin HF Ht) as Hg.
  apply (guard_h_tail e c sf sh F); [done|by rewrite has_sethmodes|].
  destruct (decide (F = HMODE_VHOSTPERSO)) as [->|N]; [|by apply guard_registration].
  unfold by_registration. rewrite Hm, pre_registered. destruct (IsNickRegistered u) eqn:Er.
  - unfold registered; cbv zeta. assert (has sh HMODE_NICKREGISTERED = true) as -> by (rewrite has_sethmodes; [exact Er|apply _|in_table]).
    unfold when at 1. cbn [negb]. guard_steps.
  - unfold unregistered; cbv zeta. guard_steps.
Qed.

Lemma standing_lazy x : standing (usr (lazy_vhost sh x)) = standing (usr x).
Proof. unfold lazy_vhost. by rewrite (when_same (fun st => standing (usr st))). Qed.
Lemma standing_tail x : standing (usr (recount sf sh (by_status e c sf sh (lazy_vhost sh x)))) = standing (usr x).
Proof. exact (eq_trans (standing_status e c sf sh (lazy_vhost sh x)) (standing_lazy x)). Qed.
(** Whoever is no IRCop in the end keeps what is set against him. *)
Lemma change_never_cleared F :
  F ∈ [HMODE_USERDEAF; HMODE_USERBITCH] -> IsOper (usr st') = false -> has (hmodes (usr st')) F = has (hmodes u) F.
Proof.
  intros Hin Ho. assert (HF : Bit32 F) by (rewrite list_elem_of_In in Hin; destruct Hin as [<-|[<-|[]]]; apply _).
  transitivity (has sh F); [|apply has_sethmodes; [done|rewrite list_elem_of_In in Hin; destruct Hin as [<-|[<-|[]]]; in_table]].
  unfold settle in Ho. rewrite (standing_IsOper _ _ (standing_tail _)) in Ho. unfold settle.
  set (x := by_registration e sh pre) in *. change (fixed F (has sh F) (by_status e c sf sh (lazy_vhost sh x))).
  assert (Hx : IsOper (usr (lazy_vhost sh x)) = false) by (rewrite (standing_IsOper _ _ (standing_lazy x)); exact Ho).
  unfold by_status; cbv zeta. set (y := lazy_vhost sh x) in *.
  assert (Hk : forall m, IsOper (usr (keep_hmode sh m y)) = false) by (intros; rewrite (standing_IsOper _ _ (standing_keep sh _ y)); exact Hx).
  rewrite list_elem_of_In in Hin. destruct Hin as [<-|[<-|[]]].
  - do 9 guard_step; try solve [guard_steps]. unfold when. rewrite Hs, Hx. apply fixed_kept; [apply _|done].
  - do 8 guard_step; try solve [guard_steps]. unfold when at 1. rewrite Hs. cbn [negb andb].
    assert (IsOper (usr (when (fun st => negb (IsOper (usr st))) (keep_hmode sh HMODE_USERDEAF) y)) = false) as Hw
      by (unfold when; destruct (negb (IsOper (usr y))); [apply Hk|exact Hx]).
    rewrite Hw. apply fixed_kept; [apply _|done].
Qed.

Lemma privs_before : privs (usr (lazy_vhost sh (by_registration e sh pre))) = privs u.
Proof. rewrite (standing_privs _ _ (standing_lazy _)), privs_registration, privs_only_servers, privs_own. exact Hp. Qed.

(** A mode of the staff is taken from the unregistered, and given to the others only by the record. *)
Lemma guard_staff_more F A m x : Bit32 F -> guard_h F A x -> guard_h F A (staff e sh m x).
Proof. intros HF Hx. unfold staff. guard_steps. Qed.

Ltac cleared_step :=
  match goal with
  | |- guard_h ?F _ (clear_hmode ?G _) => constr_eq F G; apply guard_h_cleared; apply _
  | |- guard_f ?F _ (clear_flag ?G _) => constr_eq F G; apply guard_f_cleared; apply _
  | Hw : forall x, guard_h ?F _ (staff _ _ ?F x) |- guard_h ?F' _ (staff _ _ ?G _) => constr_eq F' G; apply Hw
  | |- guard_h _ _ (staff _ _ _ _) => apply guard_staff_more; [apply _|]
  | _ => guard_step
  end.
Ltac cleared_steps := repeat cleared_step.

Lemma guard_tail_plain F A x : Bit32 F -> F <> HMODE_USERDEAF -> F <> HMODE_USERBITCH -> guard_h F A x ->
  guard_h F A (recount sf sh (by_status e c sf sh (lazy_vhost sh x))).
Proof. intros HF N1 N2 Hx. apply guard_h_tail; [done|by intros [?|?]|done]. Qed.

Lemma change_staff F :
  F ∈ [HMODE_HELPOP; HMODE_ADMIN; HMODE_CODER] -> has (hmodes (usr st')) F = true ->
  IsNickRegistered u = true /\ (has (hmodes u) F = true \/ has (status e) F = true).
Proof.
  intros Hin. assert (HF : Bit32 F /\ F ∈ user_hmodes.*1 /\ F <> HMODE_USERDEAF /\ F <> HMODE_USERBITCH)
    by (rewrite list_elem_of_In in Hin; destruct Hin as [<-|[<-|[<-|[]]]]; (split; [apply _|split; [in_table|done]])).
  destruct HF as (HF&Ht&N1&N2). pose proof (has_sethmodes F (hmodes u) Ht) as Hk.
  apply (guard_tail_plain F); [done..|]. unfold by_registration. rewrite Hm, pre_registered. destruct (IsNickRegistered u) eqn:Er.
  - assert (Hw : forall x, guard_h F (true = true /\ (has (hmodes u) F = true \/ has (status e) F = true)) (staff e sh F x)).
    { intros x. unfold staff. apply guard_h_only; [done|]. intros Hb Hh. split; [done|]. rewrite Hh, andb_true_r in Hb.
      rewrite <- Hk. destruct (has sh F); [by left|right]. by destruct (has (status e) F). }
    unfold registered; cbv zeta. rewrite list_elem_of_In in Hin.
    destruct Hin as [<-|[<-|[<-|[]]]]; destruct (ipvirtual e); cleared_steps.
  - unfold unregistered; cbv zeta. rewrite list_elem_of_In in Hin. destruct Hin as [<-|[<-|[<-|[]]]]; cleared_steps.
Qed.

Lemma change_registered F :
  F ∈ [HMODE_NOCHAN; HMODE_MSGONLYREG] -> has (hmodes (usr st')) F = true -> IsNickRegistered u = true.
Proof.
  intros Hin. assert (HF : Bit32 F /\ F <> HMODE_USERDEAF /\ F <> HMODE_USERBITCH)
    by (rewrite list_elem_of_In in Hin; destruct Hin as [<-|[<-|[]]]; (split; [apply _|done])).
  destruct HF as (HF&N1&N2). apply (guard_tail_plain F); [done..|]. unfold by_registration. rewrite Hm, pre_registered.
  destruct (IsNickRegistered u) eqn:Er; [by intros _|].
  unfold unregistered; cbv zeta. rewrite list_elem_of_In in Hin. destruct Hin as [<-|[<-|[]]]; cleared_steps.
Qed.

Lemma change_bots :
  has (hmodes (usr st')) HMODE_SERVICESBOT = true ->
  has (hmodes u) HMODE_SERVICESBOT = true \/ has (status e) HMODE_SERVICESBOT = true \/ uline e = true.
Proof.
  rewrite <- (has_sethmodes HMODE_SERVICESBOT (hmodes u)) by in_table.
  change (guard_h HMODE_SERVICESBOT (has sh HMODE_SERVICESBOT = true \/ has (status e) HMODE_SERVICESBOT = true \/ uline e = true)
    (by_status e c sf sh (lazy_vhost sh (by_registration e sh pre)))).
  unfold by_status; cbv zeta. do 3 (apply guard_privileged_more; [apply _|]). guard_step; try solve [guard_steps].
  apply guard_h_only; [apply _|]. intros Hb _. rewrite Hs in Hb. destruct (has sh _); [by left|]. destruct (has (status e) _); [by right; left|].
  destruct (uline e); [by right; right|done].
Qed.

Lemma change_privileged F p :
  (F, p) ∈ [(HMODE_HIDDENVIEWER, PRIV_HIDDEN_VIEWER); (HMODE_WHOIS, PRIV_WHOIS_NOTICE); (HMODE_NOIDLE, PRIV_HIDE_IDLE)] ->
  has (hmodes (usr st')) F = true -> has (hmodes u) F = true \/ has (privs u) p = true /\ IsAnOper (usr st') = true.
Proof.
  intros Hin. assert (HF : Bit32 F /\ F ∈ user_hmodes.*1).
  { clear Hm Hs Hp. rewrite list_elem_of_In in Hin. destruct Hin as [E|[E|[E|[]]]]; injection E as <- <-; (split; [apply _|in_table]). }
  destruct HF as [HF Ht]. intros Hh. pose proof (guard_by_privilege e c sf sh F p (lazy_vhost sh (by_registration e sh pre)) Hm Hin) as H.
  specialize (H Hh). rewrite (has_sethmodes F (hmodes u) Ht) in H. rewrite privs_before in H.
  destruct H as [H|[H1 H2]]; [by left|right]. split; [done|]. rewrite <- H2, settle_usr.
  apply standing_IsAnOper, standing_status.
Qed.

Lemma change_operators : IsOper (usr st') = true -> IsNickRegistered u = true /\ (IsOper u = true \/ has (status e) FLAGS_OPER = true).
Proof.
  set (A := IsNickRegistered u = true /\ (IsOper u = true \/ has (status e) FLAGS_OPER = true)).
  change (guard_f FLAGS_OPER A st'). unfold settle. apply guard_f_tail; [apply _|]. unfold by_registration. rewrite Hm, pre_registered.
  destruct (IsNickRegistered u) eqn:Er; [|unfold unregistered; cbv zeta; cleared_steps].
  assert (Hg : guard_f FLAGS_OPER A pre).
  { apply (guard_f_usr _ _ (own_operator e sf st)); [apply flags_only_servers|]. unfold own_operator; cbv zeta. guard_step; try solve [guard_steps].
    apply guard_f_only; [apply _|]. intros Hb Ho. split; [done|]. unfold IsOper in *. rewrite Hm, Ho, has_setflags in Hb by in_table.
    destruct (has (flags u) FLAGS_OPER); [by left|right]. by destruct (has (status e) FLAGS_OPER). }
  revert Hg. generalize pre as x. intros x Hg. unfold registered; cbv zeta. destruct (ipvirtual e); guard_steps.
Qed.

Lemma change_local_operators : IsLocOp (usr st') = true -> IsLocOp u = true.
Proof.
  change (guard_f FLAGS_LOCOP (IsLocOp u = true) st'). unfold settle. apply guard_f_tail; [apply _|]. apply guard_f_registration; [apply _|].
  apply (guard_f_usr _ _ (own_operator e sf st)); [apply flags_only_servers|]. unfold own_operator; cbv zeta.
  apply guard_f_only; [apply _|]. intros Hb Ho. unfold IsLocOp in *. rewrite Hs, Ho, has_setflags in Hb by in_table. by destruct (has (flags u) FLAGS_LOCOP).
Qed.

Lemma change_services :
  has (flags (usr st')) FLAGS_CHSERV = true -> has (flags u) FLAGS_CHSERV = true \/ has (privs u) PRIV_CHANSERV = true /\ IsAnOper (usr st') = true.
Proof.
  rewrite settle_usr. set (y := lazy_vhost sh (by_registration e sh pre)). pose proof privs_before as Hy. fold y in Hy.
  rewrite (standing_IsAnOper _ _ (standing_status e c sf sh y)). clearbody y.
  match goal with |- _ -> ?A => change (guard_f FLAGS_CHSERV A (by_status e c sf sh y)) end.
  unfold by_status; cbv zeta. set (z := when _ (keep_hmode sh HMODE_USERBITCH) _).
  assert (Hz : standing (usr z) = standing (usr y)).
  { subst z. rewrite (when_same (fun st => standing (usr st))) by apply standing_keep. apply (when_same (fun st => standing (usr st))), standing_keep. }
  clearbody z. do 9 (try (lazymatch goal with |- guard_f _ _ (when _ (clear_flag FLAGS_CHSERV) _) => fail | _ => guard_step end)); try solve [guard_steps].
  apply guard_f_only; [apply _|]. intros Hb _. rewrite Hs, has_setflags in Hb by in_table.
  destruct (has (flags u) FLAGS_CHSERV); [by left|right]. cbn [negb andb] in Hb. unfold HasPriv in Hb.
  rewrite Hm, (standing_IsAnOper _ _ Hz), (standing_privs _ _ Hz), Hy in Hb. destruct (IsAnOper (usr y)), (has (privs u) PRIV_CHANSERV); done.
Qed.

Lemma change_notices : has (flags (usr st')) FLAGS_SERVNOTICE = true -> has (flags u) FLAGS_SERVNOTICE = true \/ IsAnOper (usr st') = true.
Proof.
  rewrite settle_usr. set (y := lazy_vhost sh (by_registration e sh pre)).
  rewrite (standing_IsAnOper _ _ (standing_status e c sf sh y)). clearbody y.
  match goal with |- _ -> ?A => change (guard_f FLAGS_SERVNOTICE A (by_status e c sf sh y)) end.
  unfold by_status; cbv zeta. set (z := when _ (clear_flag FLAGS_CHSERV) _).
  assert (Hz : standing (usr z) = standing (usr y)).
  { subst z. rewrite (when_same (fun st => standing (usr st))) by (apply anoper_clear_flag; reflexivity).
    rewrite (when_same (fun st => standing (usr st))) by apply standing_keep. apply (when_same (fun st => standing (usr st))), standing_keep. }
  clearbody z. set (w := when _ _ z).
  assert (Hw : guard_f FLAGS_SERVNOTICE (has (flags u) FLAGS_SERVNOTICE = true \/ IsAnOper (usr y) = true) w).
  { subst w. unfold when. rewrite Hs, (standing_IsAnOper _ _ Hz), has_setflags by in_table.
    destruct (has (flags u) FLAGS_SERVNOTICE) eqn:Ef; [unfold guard_f; auto|]. destruct (IsAnOper (usr y)) eqn:Eo; [unfold guard_f; auto|]. cbn [negb andb].
    guard_step. apply guard_f_cleared, _. }
  clearbody w. guard_steps.
Qed.

Lemma settle_may_change : may_change e u (usr st').
Proof.
  constructor; [apply change_by_servers|apply change_never_set_end|apply change_never_cleared|apply change_staff|apply change_registered
    |apply change_bots|apply change_privileged|apply change_operators|apply change_local_operators|apply change_services|apply change_notices].
Qed.
End user_change.

(** Reading ends, and touches neither the privileges, the mask nor the virtual host. *)
Definition same_rest (u v : user) : Prop := privs u = privs v /\ snomask u = snomask v /\ vhostperso u = vhostperso v.

Lemma letter_rest m c add p : same_rest (pu (letter m c add p)) (pu p).
Proof.
  unfold letter. destruct (find_mode user_modes c) as [f|]; [destruct add; [done|]; destruct (has f ANOPER); [by destruct m|done]|].
  by destruct (find_mode user_hmodes c).
Qed.

Lemma same_rest_trans u v w : same_rest u v -> same_rest v w -> same_rest u w.
Proof. unfold same_rest. intuition congruence. Qed.

Lemma letters_rest mine m rest add p :
  let '(p', rest', _) := letters mine m rest add p in same_rest (pu p') (pu p) /\ (length rest' <= length rest)%nat.
Proof.
  revert rest add p. induction m as [|c m IH]; intros rest add p; [by split; [split_and!|]|]. cbn [letters].
  destruct (decide (c = "+"%char)); [apply IH|]. destruct (decide (c = "-"%char)); [apply IH|]. destruct (decide (c = "s"%char)).
  - assert (Hy : (length (snd (fst (notices add rest p))) <= length rest)%nat)
      by (unfold notices; destruct rest as [|q rest]; [done|]; destruct (is_snomask q); simpl; lia).
    destruct (notices add rest p) as [[t r] g]. cbn [fst snd] in Hy.
    match goal with |- context [letters mine m r add ?q] => specialize (IH r add q); destruct (letters mine m r add q) as [[p' r'] a'] end.
    destruct IH as [IH1 IH2]. split; [exact IH1|lia].
  - destruct (is_blank c); [apply IH|]. specialize (IH rest add (letter mine c add p)).
    destruct (letters mine m rest add (letter mine c add p)) as [[p' r'] a']. destruct IH as [IH1 IH2]. split; [|done].
    eapply same_rest_trans; [exact IH1|apply letter_rest].
Qed.

Lemma read_modes_ends fuel mine ps add p :
  (length ps <= fuel)%nat -> exists p', read_modes fuel mine ps add p = Ok p' /\ same_rest (pu p') (pu p).
Proof.
  revert ps add p. induction fuel as [|fuel IH]; intros ps add p Hf.
  - destruct ps; [|simpl in *; lia]. exists p. by split; [|split_and!].
  - destruct ps as [|m rest]; [exists p; by split; [|split_and!]|]. cbn [read_modes]. pose proof (letters_rest mine m rest add p) as Hl.
    destruct (letters mine m rest add p) as [[p1 rest1] add1]. destruct Hl as [H1 H2].
    destruct (IH rest1 add1 p1) as (p'&E&H3); [simpl in *; lia|]. exists p'. split; [done|]. by eapply same_rest_trans.
Qed.

Lemma may_change_ext e u u' v :
  hmodes v = hmodes u' -> (forall F, F ∈ [FLAGS_OPER; FLAGS_LOCOP; FLAGS_CHSERV; FLAGS_SERVNOTICE] -> has (flags v) F = has (flags u') F) ->
  may_change e u u' -> may_change e u v.
Proof.
  intros Eh Ef H. assert (Eo : IsOper v = IsOper u') by (apply Ef; set_solver).
  assert (El : IsLocOp v = IsLocOp u') by (apply Ef; set_solver).
  assert (Ea : IsAnOper v = IsAnOper u') by (rewrite !IsAnOper_eq; exact (f_equal2 orb Eo El)).
  destruct H. constructor; rewrite ?Eh, ?Eo, ?El, ?Ea; try assumption.
  - rewrite Ef by set_solver. assumption.
  - rewrite Ef by set_solver. assumption.
Qed.

(** The environment that m_umode() works with *)
Definition with_status (e : env) : env := mkEnv (serv e) (my e) (if my e then status e else 0) (ipvirtual e) (uline e).
Lemma with_status_my e : my e = true -> with_status e = e.
Proof. destruct e. unfold with_status. simpl. by intros ->. Qed.

(** The end of m_umode(): what happens to the mask and to the bit of WATCH does not touch the modes. *)
Definition finish (e : env) (cptr : nat) (mask : Z) (st : state) : state :=
  let st' := if my e && bool_decide (mask <> snomask (usr st)) then set_snomask cptr mask SNO_SET st else st in
  when (fun _ => has (flags (usr st')) MODE_ISWATCH) (clear_flag MODE_ISWATCH) st'.

Lemma finish_modes e cptr mask st :
  hmodes (usr (finish e cptr mask st)) = hmodes (usr st) /\
  forall F, Bit32 F -> F <> MODE_ISWATCH -> has (flags (usr (finish e cptr mask st))) F = has (flags (usr st)) F.
Proof.
  unfold finish. set (b := my e && _). assert (E : forall x, hmodes (usr (if b : bool then set_snomask cptr x SNO_SET st else st)) = hmodes (usr st) /\
    flags (usr (if b : bool then set_snomask cptr x SNO_SET st else st)) = flags (usr st)) by (intros x; by destruct b).
  destruct (E mask) as [Eh Ef]. clear E. set (st1 := if b then _ else _) in *. clearbody st1. split.
  - rewrite <- Eh. unfold when. by destruct (has _ _).
  - intros F HF N. unfold when. rewrite <- Ef. destruct (has (flags (usr st1)) MODE_ISWATCH); [|done].
    rewrite flags_clear_flag, (has_same MODE_ISWATCH F) by done. by rewrite bool_decide_eq_false_2, andb_true_r.
Qed.

Lemma Ok_pair {A B} (a a' : A) (b b' : B) : Ok (a, b) = Ok (a', b') -> a = a' /\ b = b'.
Proof. by intros [= -> ->]. Qed.

Lemma m_umode_change_eq e cptr ps st p :
  let sf := known user_modes (flags (usr st)) in let sh := known user_hmodes (hmodes (usr st)) in
  read_modes (length ps) (my e) ps true (mkParsing (usr st) (if my e then snomask (usr st) else 0) false) = Ok p ->
  let st1 := settle (with_status e) cptr sf sh (own_operator (with_status e) sf (with_usr (fun _ => pu p) st)) in
  exists d w, m_umode_change e cptr ps st =
    Ok (finish e cptr (tmpmask p) st1,
        mkOuts (fst (send_umode_out (my e) (usr st1) sf sh true (if serv e then None else Some true)))
               (snd (send_umode_out (my e) (usr st1) sf sh true (if serv e then None else Some true))) d w).
Proof.
  intros sf sh Hr. unfold m_umode_change. fold sf sh. rewrite Hr. cbn [mbind result_bind]. fold (with_status e).
  set (st1 := settle _ _ _ _ _). unfold finish.
  destruct e as [se me sta ip ul]. cbn [my serv with_status].
  destruct (send_umode_out _ _ _ _ _ _) as [out back]. eexists _, _. reflexivity.
Qed.

(** C4. MODE of a user of this server ends, and whatever letters he writes, he changes only what he may: what belongs
    to the network stays, the modes of the staff, of bots and of services need the record, the privilege or the
    line for it, and no letter makes an operator that the record does not name. *)
Theorem umode_safe e cptr ps st :
  serv e = false -> my e = true ->
  exists st' o, m_umode_change e cptr ps st = Ok (st', o) /\ may_change e (usr st) (usr st').
Proof.
  intros Hs Hm.
  destruct (read_modes_ends (length ps) (my e) ps true (mkParsing (usr st) (if my e then snomask (usr st) else 0) false)) as (p&Hr&Hp&_); [done|].
  destruct (m_umode_change_eq e cptr ps st p Hr) as (d&w&E). eexists _, _. split; [exact E|]. rewrite with_status_my by done.
  pose proof (settle_may_change e cptr (usr st) (with_usr (fun _ => pu p) st) Hs Hm Hp) as H. revert H.
  generalize (settle e cptr (known user_modes (flags (usr st))) (known user_hmodes (hmodes (usr st)))
    (own_operator e (known user_modes (flags (usr st))) (with_usr (fun _ => pu p) st))) as st1. intros st1 H.
  destruct (finish_modes e cptr (tmpmask p) st1) as [Eh Ef]. apply (may_change_ext _ _ (usr st1)); [exact Eh| |exact H].
  intros F HF. rewrite list_elem_of_In in HF. destruct HF as [<-|[<-|[<-|[<-|[]]]]]; apply Ef; (apply _ || done).
Qed.

Definition plain_user : user := mkUser FLAGS_INVISIBLE HMODE_HIDDEN 0 0 false.
Definition plain_state : state := mkState plain_user (replicate 32 []) 3 2 7.
Definition plain_env : env := mkEnv false true 0 false false.

(** Witness of [umode_safe]. *)
Lemma umode_safe_witness :
  exists st' o, m_umode_change plain_env 1 [str "+okaBrS"; str "-i"] plain_state = Ok (st', o) /\ may_change plain_env plain_user (usr st').
Proof. apply (umode_safe plain_env 1 [str "+okaBrS"; str "-i"] plain_state); reflexivity. Defined.

(** * Other servers follow *)

(** The modes that are told to other servers *)
Definition sent (h : bool) : list (Z * ascii) :=
  if h then filter (fun x => has (fst x) SEND_HMODES) user_hmodes else filter (fun x => has (fst x) SEND_UMODES) user_modes.
Definition word (h : bool) (u : user) : Z := if h then hmodes u else flags u.
(** Two servers have the same idea of a user. *)
Definition agree (u v : user) : Prop := forall h F, F ∈ (sent h).*1 -> has (word h v) F = has (word h u) F.

Definition table (h : bool) : list (Z * ascii) := if h then user_hmodes else user_modes.
Lemma sent_flags_ok : Forall (fun x => Bit32 (fst x) /\ fst x ∈ user_modes.*1 /\ fst x <> MODE_ISWATCH /\ find_mode user_modes (snd x) = Some (fst x) /\
  (has (fst x) ANOPER = true -> fst x = FLAGS_OPER) /\ has ANOPER (fst x) = bool_decide (FLAGS_OPER = fst x)) (sent false).
Proof. apply (bool_decide_unpack _). vm_compute. exact I. Qed.
Lemma sent_hmodes_ok : Forall (fun x => Bit32 (fst x) /\ fst x ∈ user_hmodes.*1 /\ find_mode user_modes (snd x) = None /\
  find_mode user_hmodes (snd x) = Some (fst x)) (sent true).
Proof. apply (bool_decide_unpack _). vm_compute. exact I. Qed.
Lemma sent_letters h : Forall (fun x => snd x <> "+"%char /\ snd x <> "-"%char /\ snd x <> "s"%char /\ is_blank (snd x) = false) (sent h).
Proof. destruct h; apply (bool_decide_unpack _); vm_compute; exact I. Qed.
Lemma sent_nodup h : NoDup (sent h).*1.
Proof. destruct h; apply (bool_decide_unpack _); vm_compute; exact I. Qed.

Lemma sent_bits h F : F ∈ (sent h).*1 -> Bit32 F /\ F ∈ (table h).*1.
Proof.
  intros (x&->&Hx)%list_elem_of_fmap. destruct h.
  - pose proof sent_hmodes_ok as H. rewrite Forall_forall in H. destruct (H x Hx) as (?&?&_). done.
  - pose proof sent_flags_ok as H. rewrite Forall_forall in H. destruct (H x Hx) as (?&?&_). done.
Qed.

(** What one letter from a server does to the modes that are told *)
Lemma letter_word h flag c add p : (flag, c) ∈ sent h ->
  (forall F, F ∈ (sent h).*1 -> has (word h (pu (letter false c add p))) F = if decide (F = flag) then add else has (word h (pu p)) F) /\
  word (negb h) (pu (letter false c add p)) = word (negb h) (pu p).
Proof.
  intros Hin. destruct h.
  - pose proof sent_hmodes_ok as H. rewrite Forall_forall in H. destruct (H _ Hin) as (HB&_&E1&E2). cbn [fst snd] in *.
    unfold letter. rewrite E1, E2. split; [|done]. intros F HF. destruct (sent_bits true F HF) as [HBF _]. cbn [word pu with_hmodes hmodes].
    rewrite (has_u32 F) by done. destruct add; [rewrite (has_or F) by done|rewrite (has_but F) by done]; rewrite (has_same flag F) by done.
    + destruct (decide (F = flag)) as [->|N]; [by rewrite bool_decide_eq_true_2, orb_true_r|by rewrite bool_decide_eq_false_2, orb_false_r].
    + destruct (decide (F = flag)) as [->|N]; [by rewrite bool_decide_eq_true_2, andb_false_r|by rewrite bool_decide_eq_false_2, andb_true_r].
  - pose proof sent_flags_ok as H. rewrite Forall_forall in H. destruct (H _ Hin) as (HB&_&_&E&Ho&_). cbn [fst snd] in *.
    unfold letter. rewrite E. split; [|destruct add; [done|]; by destruct (has flag ANOPER)].
    intros F HF. destruct (sent_bits false F HF) as [HBF _]. destruct add.
    { cbn [word pu with_flags flags]. rewrite (has_u32 F), (has_or F), (has_same flag F) by done.
      destruct (decide (F = flag)) as [->|N]; [by rewrite bool_decide_eq_true_2, orb_true_r|by rewrite bool_decide_eq_false_2, orb_false_r]. }
    destruct (has flag ANOPER) eqn:Ea; cbn [word pu with_flags flags]; rewrite (has_u32 F), (has_but F) by done.
    + apply list_elem_of_fmap in HF as (x&->&Hx). destruct (H _ Hx) as (_&_&_&_&_&->). rewrite (Ho eq_refl).
      destruct (decide (fst x = FLAGS_OPER)) as [->|N]; [by rewrite bool_decide_eq_true_2, andb_false_r|by rewrite bool_decide_eq_false_2, andb_true_r by congruence].
    + rewrite (has_same flag F) by done. destruct (decide (F = flag)) as [->|N]; [by rewrite bool_decide_eq_true_2, andb_false_r|by rewrite bool_decide_eq_false_2, andb_true_r].
Qed.

(** The sign that has been written is the one that the reader has seen. *)
Definition seen (what : Z) (add : bool) : Prop := (what = MODE_ADD -> add = true) /\ (what = MODE_DEL -> add = false).

Lemma letters_one c m rest add p :
  c <> "+"%char -> c <> "-"%char -> c <> "s"%char -> is_blank c = false ->
  letters false (c :: m) rest add p = letters false m rest add (letter false c add p).
Proof. intros H1 H2 H3 H4. cbn [letters]. rewrite !decide_False by done. by rewrite H4. Qed.

(** A reader of the text has the new bits of the table; the others are as they were. *)
Lemma letters_changes h tab mask what add p old new m rest :
  (forall x, x ∈ tab -> x ∈ sent h) -> NoDup tab.*1 -> seen what add ->
  (forall F, F ∈ tab.*1 -> has (word h (pu p)) F = has old F) ->
  exists p' add', letters false (fst (mode_changes false mask old new what tab) ++ m) rest add p = letters false m rest add' p' /\
    seen (snd (mode_changes false mask old new what tab)) add' /\
    (forall F, F ∈ (sent h).*1 -> has (word h (pu p')) F = if decide (F ∈ tab.*1) then has new F else has (word h (pu p)) F) /\
    word (negb h) (pu p') = word (negb h) (pu p).
Proof.
  revert what add p. induction tab as [|[flag c] tab IH]; intros what add p Hsub Hnd Hseen Hold.
  { exists p, add. split; [done|]. split; [exact Hseen|]. split; [|done]. intros F _. by rewrite decide_False by (by apply not_elem_of_nil). }
  cbn [fmap list_fmap fst] in Hnd, Hold. apply NoDup_cons in Hnd as [Hni Hnd].
  assert (Hc : (flag, c) ∈ sent h) by (apply Hsub; by left). pose proof (sent_letters h) as Hl. rewrite Forall_forall in Hl.
  destruct (Hl _ Hc) as (Hc1&Hc2&Hc3&Hc4). cbn [snd] in *.
  assert (Hskip : has old flag = has new flag -> exists p' add',
    letters false (fst (mode_changes false mask old new what tab) ++ m) rest add p = letters false m rest add' p' /\
    seen (snd (mode_changes false mask old new what tab)) add' /\
    (forall F, F ∈ (sent h).*1 -> has (word h (pu p')) F = if decide (F ∈ flag :: tab.*1) then has new F else has (word h (pu p)) F) /\
    word (negb h) (pu p') = word (negb h) (pu p)).
  { intros E. destruct (IH what add p) as (p'&add'&H1&H2&H3&H4); [by intros x Hx; apply Hsub; right|done|done|by intros F HF; apply Hold; right|].
    exists p', add'. split; [done|]. split; [exact H2|]. split; [|done]. intros F HF. rewrite H3 by done.
    destruct (decide (F ∈ tab.*1)); [by rewrite decide_True by by right|]. destruct (decide (F = flag)) as [->|N].
    - rewrite decide_True by by left. rewrite Hold by by left. done.
    - by rewrite decide_False by (by apply not_elem_of_cons). }
  assert (Hdo : forall b pre what', (what' = if b : bool then MODE_ADD else MODE_DEL) -> has new flag = b ->
    (forall m' q, letters false (pre ++ c :: m') rest add q = letters false m' rest b (letter false c b q)) ->
    exists p' add',
    letters false ((pre ++ c :: fst (mode_changes false mask old new what' tab)) ++ m) rest add p = letters false m rest add' p' /\
    seen (snd (mode_changes false mask old new what' tab)) add' /\
    (forall F, F ∈ (sent h).*1 -> has (word h (pu p')) F = if decide (F ∈ flag :: tab.*1) then has new F else has (word h (pu p)) F) /\
    word (negb h) (pu p') = word (negb h) (pu p)).
  { intros b pre what' Ew En Hpre. destruct (letter_word h flag c b p Hc) as [Hw1 Hw2].
    destruct (IH what' b (letter false c b p)) as (p'&add'&H1&H2&H3&H4); [by intros x Hx; apply Hsub; right|done|by subst what'; destruct b| |].
    { intros F HF. rewrite Hw1; [|apply list_elem_of_fmap in HF as (x&->&Hx); apply list_elem_of_fmap_2, Hsub; by right].
      rewrite decide_False by (intros ->; done). apply Hold. by right. }
    exists p', add'. rewrite <- app_assoc. cbn [app]. rewrite Hpre. split; [exact H1|]. split; [exact H2|]. split; [|congruence].
    intros F HF. rewrite H3, Hw1 by done. destruct (decide (F ∈ tab.*1)); [by rewrite decide_True by by right|].
    destruct (decide (F = flag)) as [->|N]; [by rewrite decide_True by by left|by rewrite decide_False by (by apply not_elem_of_cons)]. }
  cbn [mode_changes andb]. cbn [fmap list_fmap fst]. rewrite (has_comm flag old). destruct Hseen as [Hs1 Hs2].
  destruct (has old flag) eqn:Eo, (has new flag) eqn:En; cbn [negb andb]; [by apply Hskip| | |by apply Hskip].
  - specialize (Hdo false (if decide (what = MODE_DEL) then [] else ["-"%char]) MODE_DEL eq_refl eq_refl).
    destruct (mode_changes false mask old new MODE_DEL tab) as [t w]. cbn [fst snd] in *.
    destruct (decide (what = MODE_DEL)) as [Ew|_]; apply Hdo; intros m' q; [cbn [app]; rewrite (Hs2 Ew); by apply letters_one|].
    cbn [app letters]. rewrite (decide_False (P := "-"%char = "+"%char)) by done. rewrite (decide_True (P := "-"%char = "-"%char)) by done. by apply letters_one.
  - specialize (Hdo true (if decide (what = MODE_ADD) then [] else ["+"%char]) MODE_ADD eq_refl eq_refl).
    destruct (mode_changes false mask old new MODE_ADD tab) as [t w]. cbn [fst snd] in *.
    destruct (decide (what = MODE_ADD)) as [Ew|_]; apply Hdo; intros m' q; [cbn [app]; rewrite (Hs1 Ew); by apply letters_one|].
    cbn [app letters]. rewrite (decide_True (P := "+"%char = "+"%char)) by done. by apply letters_one.
Qed.

Lemma mode_changes_filter mask old new what tab :
  mode_changes true mask old new what tab = mode_changes false mask old new what (filter (fun x => has (fst x) mask) tab).
Proof.
  revert what. induction tab as [|[flag c] tab IH]; intros what; [done|]. cbn [mode_changes andb]. rewrite filter_cons. cbn [fst].
  destruct (decide (has flag mask)) as [E|E]; destruct (has flag mask); try done; cbn [negb]; [|apply IH]. cbn [mode_changes andb].
  by rewrite !IH.
Qed.

(** The text for other servers, read by one of them *)
Lemma read_sent old oldh u p :
  (forall F, F ∈ (sent false).*1 -> has (flags (pu p)) F = has old F) -> (forall F, F ∈ (sent true).*1 -> has (hmodes (pu p)) F = has oldh F) ->
  exists p', read_modes 1 false [send_umode true u old SEND_UMODES oldh SEND_HMODES] true p = Ok p' /\ agree u (pu p').
Proof.
  intros H1 H2. unfold send_umode. rewrite !mode_changes_filter. fold (sent false) (sent true).
  destruct (letters_changes false (sent false) SEND_UMODES MODE_NULL true p old (flags u)
    (fst (mode_changes true SEND_HMODES oldh (hmodes u) (snd (mode_changes false SEND_UMODES old (flags u) MODE_NULL (sent false))) user_hmodes)) [])
    as (p1&a1&E1&Hs1&Hw1&Ho1); [done|apply sent_nodup|by split|exact H1|].
  destruct (mode_changes false SEND_UMODES old (flags u) MODE_NULL (sent false)) as [t1 what]. cbn [fst snd] in *.
  rewrite mode_changes_filter in E1. fold (sent true) in E1.
  destruct (letters_changes true (sent true) SEND_HMODES what a1 p1 oldh (hmodes u) [] []) as (p2&a2&E2&_&Hw2&Ho2);
    [done|apply sent_nodup|exact Hs1|intros F HF; change (has (word (negb false) (pu p1)) F = has oldh F); rewrite Ho1; by apply H2|].
  cbn [read_modes]. rewrite mode_changes_filter. fold (sent true). rewrite app_nil_r in E2. rewrite E1, E2. cbn [letters]. exists p2. split; [done|].
  intros [] F HF.
  - rewrite Hw2 by done. by rewrite decide_True.
  - change (has (word (negb true) (pu p2)) F = has (flags u) F). rewrite Ho2. cbn [negb]. rewrite Hw1 by done. by rewrite decide_True.
Qed.

(** A server does what another one says. *)
Lemma settle_server e c sf sh st :
  serv e = true -> my e = false -> usr (settle e c sf sh (own_operator e sf st)) = usr (lazy_vhost sh st).
Proof.
  intros Hs Hm. rewrite settle_usr. unfold own_operator, only_servers, by_registration; cbv zeta. rewrite Hs, Hm.
  assert (Hw : forall b f x, (forall y, b y = false) -> when b f x = x) by (intros b f x E; unfold when; by rewrite E).
  rewrite (Hw _ (clear_flag FLAGS_LOCOP)) by (intros; apply andb_false_r). rewrite (Hw _ (clear_flag FLAGS_OPER)) by done.
  unfold by_status, privileged; cbv zeta. rewrite Hs, Hm.
  repeat (rewrite Hw by (intros; cbv beta; rewrite ?andb_false_r; reflexivity)). reflexivity.
Qed.

(** Whoever hides no more has no virtual host of his own. *)
Lemma settled_vhost e c sf sh st :
  has sh HMODE_HIDDEN = true -> has (hmodes (usr (settle e c sf sh st))) HMODE_HIDDEN = false ->
  has (hmodes (usr (settle e c sf sh st))) HMODE_VHOSTPERSO = false.
Proof.
  intros Hh. rewrite settle_usr. generalize (by_registration e sh (only_servers e sh st)) as x. intros x.
  assert (Hf : forall F v y, F = HMODE_HIDDEN \/ F = HMODE_VHOSTPERSO -> fixed F v y -> fixed F v (by_status e c sf sh y)).
  { intros F v y HF Hy. unfold by_status; cbv zeta. destruct HF as [-> | ->]; guard_steps. }
  rewrite (Hf HMODE_HIDDEN _ _ (or_introl eq_refl) eq_refl), (Hf HMODE_VHOSTPERSO _ _ (or_intror eq_refl) eq_refl).
  unfold lazy_vhost, when. rewrite Hh. unfold IsHidden, IsVhostPerso. cbn [andb].
  destruct (has (hmodes (usr x)) HMODE_HIDDEN) eqn:E1; cbn [negb andb]; [by rewrite E1|].
  destruct (has (hmodes (usr x)) HMODE_VHOSTPERSO) eqn:E2; [|done]. intros _. unfold BorraIpVirtualPerso. by rewrite hmodes_clear_hmode, andb_false_r by apply _.
Qed.

Lemma agree_finish e c mask st : agree (usr st) (usr (finish e c mask st)) /\ agree (usr (finish e c mask st)) (usr st).
Proof.
  destruct (finish_modes e c mask st) as [Eh Ef]. assert (H : forall h F, F ∈ (sent h).*1 -> has (word h (usr (finish e c mask st))) F = has (word h (usr st)) F).
  { intros [] F HF; cbn [word]; [by rewrite Eh|]. apply list_elem_of_fmap in HF as (x&->&Hx). pose proof sent_flags_ok as Hs. rewrite Forall_forall in Hs.
    destruct (Hs x Hx) as (?&_&?&_). by apply Ef. }
  split; intros h F HF; [|symmetry]; by apply H.
Qed.

Lemma agree_known u v h F : agree u v -> F ∈ (sent h).*1 -> has (word h v) F = has (known (table h) (word h u)) F.
Proof.
  intros Ha HF. rewrite (Ha h F HF). destruct (sent_bits h F HF) as [HB Ht]. symmetry. destruct h; [by apply has_sethmodes|by apply has_setflags].
Qed.

(** C5. Another server that has the same idea of a user, and is sent the text that his MODE leaves for it, has the same
    idea of him afterwards. *)
Theorem umode_synchronised e e2 cptr c2 ps st st' o st2 :
  serv e = false -> my e = true -> serv e2 = true -> my e2 = false ->
  m_umode_change e cptr ps st = Ok (st', o) -> agree (usr st) (usr st2) ->
  exists st2' o2, m_umode_change e2 c2 [to_servers o] st2 = Ok (st2', o2) /\ agree (usr st') (usr st2').
Proof.
  intros Hs Hm Hs2 Hm2 E Ha.
  destruct (read_modes_ends (length ps) (my e) ps true (mkParsing (usr st) (if my e then snomask (usr st) else 0) false)) as (p&Hr&_); [done|].
  destruct (m_umode_change_eq e cptr ps st p Hr) as (d&w&E'). rewrite E in E'. apply Ok_pair in E' as [-> ->]. rewrite with_status_my by done.
  set (sf := known user_modes (flags (usr st))). set (sh := known user_hmodes (hmodes (usr st))).
  set (st0 := own_operator e sf (with_usr (fun _ => pu p) st)). pose proof (settled_vhost e cptr sf sh st0) as Hv.
  set (st1 := settle e cptr sf sh st0) in *. clearbody st1. rewrite Hm. cbn [to_servers send_umode_out fst].
  destruct (read_sent sf sh (usr st1) (mkParsing (usr st2) 0 false)) as (q&Hq&Hag);
    [intros F HF; exact (agree_known _ _ false F Ha HF)|intros F HF; exact (agree_known _ _ true F Ha HF)|].
  destruct (m_umode_change_eq e2 c2 [send_umode true (usr st1) sf SEND_UMODES sh SEND_HMODES] st2 q) as (d2&w2&E2); [by rewrite Hm2|].
  eexists _, _. split; [exact E2|]. clear E2. set (sh2 := known user_hmodes (hmodes (usr st2))).
  match goal with |- agree _ (usr (finish _ _ _ ?x)) => set (st3 := x) end.
  assert (E3 : usr st3 = pu q).
  { subst st3. rewrite settle_server by (destruct e2; done). unfold lazy_vhost, when. cbn [with_usr usr].
    assert (has sh2 HMODE_HIDDEN = has sh HMODE_HIDDEN) as ->.
    { unfold sh2, sh. rewrite !has_sethmodes by in_table. apply (Ha true). in_table. }
    unfold IsHidden, IsVhostPerso. destruct (has sh HMODE_HIDDEN) eqn:Eh; [|done]. cbn [andb].
    assert (has (hmodes (pu q)) HMODE_HIDDEN = has (hmodes (usr st1)) HMODE_HIDDEN) as -> by (apply (Hag true); in_table).
    assert (has (hmodes (pu q)) HMODE_VHOSTPERSO = has (hmodes (usr st1)) HMODE_VHOSTPERSO) as -> by (apply (Hag true); in_table).
    destruct (has (hmodes (usr st1)) HMODE_HIDDEN); [done|]. by rewrite Hv. }
  clearbody st3. intros h F HF. rewrite (proj1 (agree_finish e2 c2 (tmpmask q) st3) h F HF), E3, (Hag h F HF).
  symmetry. exact (proj1 (agree_finish e cptr (tmpmask p) st1) h F HF).
Qed.

Definition server_env : env := mkEnv true false 0 false false.

Lemma plain_change : exists st' o, m_umode_change plain_env 1 [str "+wcR-i"] plain_state = Ok (st', o) /\ to_servers o = str "-i+wc".
Proof. eexists _, _. split; [vm_compute; reflexivity|reflexivity]. Qed.

(** Witness of [umode_synchronised]. *)
Lemma umode_synchronised_witness :
  exists st' o, m_umode_change plain_env 1 [str "+wcR-i"] plain_state = Ok (st', o) /\
  exists st2' o2, m_umode_change server_env 5 [to_servers o] plain_state = Ok (st2', o2) /\ agree (usr st') (usr st2').
Proof.
  destruct plain_change as (st'&o&E&_). exists st', o. split; [exact E|].
  exact (umode_synchronised plain_env server_env 1 5 [str "+wcR-i"] plain_state st' o plain_state eq_refl eq_refl eq_refl eq_refl E (fun h F _ => eq_refl)).
Defined.

(** * The counters of the network *)

Definition counts (st : state) : Z * Z * Z := (opers st, helpers st, inv_clients st).

Lemma counts_keep old m st : counts (keep_hmode old m st) = counts st.
Proof. unfold keep_hmode. by destruct (has old m). Qed.
Lemma counts_when b f st : counts (f st) = counts st -> counts (when b f st) = counts st.
Proof. unfold when. by destruct (b st). Qed.
Lemma counts_with_usr f st : counts (with_usr f st) = counts st.
Proof. done. Qed.
Lemma counts_clear_hmode m st : counts (clear_hmode m st) = counts st.
Proof. done. Qed.
Lemma counts_set_hmode m st : counts (set_hmode m st) = counts st.
Proof. done. Qed.
Lemma counts_clear_flag m st : counts (clear_flag m st) = counts st.
Proof. done. Qed.
Lemma counts_Borra st : counts (BorraIpVirtualPerso st) = counts st.
Proof. done. Qed.
Lemma counts_set_snomask c m w st : counts (set_snomask c m w st) = counts st.
Proof. done. Qed.

Ltac counts_same := repeat first
  [rewrite counts_keep|rewrite counts_clear_hmode|rewrite counts_set_hmode|rewrite counts_clear_flag|rewrite counts_set_snomask
  |rewrite counts_Borra|rewrite counts_when by (cbv beta; counts_same)]; reflexivity.

Section counting.
Context (e : env) (c : nat) (sf sh : Z).
Lemma counts_own st : counts (own_operator e sf st) = counts st.
Proof. unfold own_operator; cbv zeta. counts_same. Qed.
Lemma counts_only_servers st : counts (only_servers e sh st) = counts st.
Proof. unfold only_servers; cbv zeta. destruct (serv e); counts_same. Qed.
Lemma counts_registered st : counts (registered e sh st) = counts st.
Proof. unfold registered, staff; cbv zeta. destruct (ipvirtual e); counts_same. Qed.
Lemma counts_lazy st : counts (lazy_vhost sh st) = counts st.
Proof. unfold lazy_vhost. counts_same. Qed.
Lemma counts_status st : counts (by_status e c sf sh st) = counts st.
Proof. unfold by_status, privileged; cbv zeta. counts_same. Qed.
Lemma counts_finish mask st : counts (finish e c mask st) = counts st.
Proof. unfold finish. rewrite counts_when by apply counts_clear_flag. by destruct (my e && _). Qed.

Lemma counts_recount st :
  counts (recount sf sh st) =
  (opers st + delta (has sf FLAGS_OPER) (IsOper (usr st)), helpers st + delta (has sh HMODE_HELPOP) (IsHelpOp (usr st)),
   inv_clients st + delta (has sf FLAGS_INVISIBLE) (IsInvisible (usr st))).
Proof. done. Qed.
End counting.

Lemma counts_helpers x y : counts x = counts y -> helpers x = helpers y.
Proof. by intros [= _ -> _]. Qed.

(** What goes wrong: the unregistered are taken off the helpers although nobody counted them. *)
Lemma unregistered_helpers e st : helpers (unregistered e st) = helpers st - (if IsHelpOp (usr st) then 1 else 0).
Proof.
  unfold unregistered; cbv zeta. set (a := clear_hmode HMODE_DOCKING _).
  assert (Ha : counts a = counts st) by (subst a; counts_same).
  assert (Hh : IsHelpOp (usr a) = IsHelpOp (usr st)) by (subst a; unfold IsHelpOp; by rewrite !hmodes_clear_hmode, !andb_true_r by apply _).
  rewrite <- Hh, <- (counts_helpers _ _ Ha). clearbody a. clear Ha Hh.
  set (b := when (fun st => IsHelpOp (usr st)) (count_helpers (-1)) a).
  assert (helpers b = helpers a - (if IsHelpOp (usr a) then 1 else 0)) as <-.
  { subst b. unfold when. destruct (IsHelpOp (usr a)); [done|]. by rewrite Z.sub_0_r. }
  clearbody b. set (d := when (fun st => IsOper (usr st)) (count_opers (-1)) _).
  assert (Hd : helpers d = helpers b) by (subst d; unfold when; by destruct (IsOper _)). rewrite <- Hd. clearbody d.
  apply counts_helpers. rewrite counts_when by (cbv beta; counts_same). rewrite counts_when by apply counts_clear_hmode. counts_same.
Qed.

(** The counters after m_umode(), when the steps in the middle count nothing *)
Lemma counts_settle e c sf sh st x :
  usr (settle e c sf sh st) = usr x -> counts (by_registration e sh (only_servers e sh st)) = counts st ->
  counts (settle e c sf sh st) =
  (opers st + delta (has sf FLAGS_OPER) (IsOper (usr x)), helpers st + delta (has sh HMODE_HELPOP) (IsHelpOp (usr x)),
   inv_clients st + delta (has sf FLAGS_INVISIBLE) (IsInvisible (usr x))).
Proof.
  intros Hu Hc. unfold settle. rewrite counts_recount. set (y := by_status e c sf sh _).
  assert (Hy : counts y = counts st) by (subst y; rewrite counts_status, counts_lazy; exact Hc).
  assert (usr y = usr x) as -> by (rewrite <- Hu; symmetry; apply settle_usr).
  unfold counts in Hy. injection Hy as -> -> ->. done.
Qed.

(** For a user whose nick is registered, and for what a server says, the counts of operators, of helpers and of invisible users follow the
    modes. *)
Theorem umode_counts e cptr ps st st' o :
  serv e = false /\ my e = true /\ IsNickRegistered (usr st) = true \/ serv e = true /\ my e = false ->
  m_umode_change e cptr ps st = Ok (st', o) ->
  counts st' = (opers st + delta (IsOper (usr st)) (IsOper (usr st')), helpers st + delta (IsHelpOp (usr st)) (IsHelpOp (usr st')),
    inv_clients st + delta (IsInvisible (usr st)) (IsInvisible (usr st'))).
Proof.
  intros He E.
  destruct (read_modes_ends (length ps) (my e) ps true (mkParsing (usr st) (if my e then snomask (usr st) else 0) false)) as (p&Hr&_); [done|].
  destruct (m_umode_change_eq e cptr ps st p Hr) as (d&w&E'). rewrite E in E'. apply Ok_pair in E' as [-> _].
  set (sf := known user_modes (flags (usr st))). set (sh := known user_hmodes (hmodes (usr st))).
  set (st0 := own_operator (with_status e) sf (with_usr (fun _ => pu p) st)).
  assert (H0 : counts st0 = counts st) by (subst st0; by rewrite counts_own).
  pose proof (counts_settle (with_status e) cptr sf sh st0 (settle (with_status e) cptr sf sh st0) eq_refl) as Hc.
  rewrite counts_finish, Hc.
  - destruct (finish_modes e cptr (tmpmask p) (settle (with_status e) cptr sf sh st0)) as [Eh Ef].
    set (st1 := settle _ _ _ _ _) in *. clearbody st1. unfold counts in H0. injection H0 as -> -> ->.
    unfold IsOper, IsHelpOp, IsInvisible. rewrite Eh, !Ef by (apply _ || done). unfold sf, sh. by rewrite !has_setflags, has_sethmodes by in_table.
  - destruct He as [(Hs&Hm&Hreg)|[Hs Hm]].
    + assert (Hsh : has sh HMODE_NICKREGISTERED = true) by (unfold sh; rewrite has_sethmodes by in_table; exact Hreg).
      rewrite with_status_my by done. clearbody st0 sh. unfold by_registration. rewrite Hm, only_servers_registered, Hsh by done.
      rewrite counts_registered. apply counts_only_servers.
    + clearbody st0 sh. unfold by_registration. change (my (with_status e)) with (my e). rewrite Hm. apply counts_only_servers.
Qed.

(** Witness of [umode_counts]. *)
Lemma umode_counts_witness :
  exists st' o, m_umode_change server_env 1 [str "+oh-i"] plain_state = Ok (st', o) /\
    counts st' = (3 + delta false (IsOper (usr st')), 2 + delta false (IsHelpOp (usr st')), 7 + delta true (IsInvisible (usr st'))).
Proof.
  eexists _, _. split; [vm_compute; reflexivity|].
  eapply (umode_counts server_env 1 [str "+oh-i"] plain_state); [by right|vm_compute; reflexivity].
Defined.

(** A user whose nick is not registered and who asks for the mode of helpers does not get it, but is counted off
    the helpers that he never was one of. *)
Theorem helpers_drift e cptr st :
  serv e = false -> my e = true -> IsNickRegistered (usr st) = false -> IsHelpOp (usr st) = false ->
  exists st' o, m_umode_change e cptr [str "+h"] st = Ok (st', o) /\ IsHelpOp (usr st') = false /\ helpers st' = helpers st - 1.
Proof.
  intros Hs Hm Hreg Hh.
  set (p := mkParsing (with_hmodes (Z.lor (hmodes (usr st)) HMODE_HELPOP) (usr st)) (if my e then snomask (usr st) else 0) false).
  destruct (m_umode_change_eq e cptr [str "+h"] st p) as (d&w&E); [reflexivity|]. eexists _, _. split; [exact E|]. clear E.
  rewrite with_status_my by done. set (sf := known user_modes (flags (usr st))). set (sh := known user_hmodes (hmodes (usr st))).
  set (st0 := own_operator e sf (with_usr (fun _ => pu p) st)). assert (H0 : counts st0 = counts st) by (subst st0; by rewrite counts_own).
  pose proof (settle_may_change e cptr (usr st) (with_usr (fun _ => pu p) st) Hs Hm eq_refl) as Hmay. fold sf sh st0 in Hmay.
  assert (Hf : IsHelpOp (usr (settle e cptr sf sh st0)) = false).
  { destruct (IsHelpOp (usr (settle e cptr sf sh st0))) eqn:Eh; [|done].
    destruct (of_the_staff _ _ _ Hmay HMODE_HELPOP) as [Hx _]; [by left|exact Eh|by rewrite Hreg in Hx]. }
  destruct (finish_modes e cptr (tmpmask p) (settle e cptr sf sh st0)) as [Eh Ef].
  split; [unfold IsHelpOp in *; by rewrite Eh|].
  assert (Hc : helpers (finish e cptr (tmpmask p) (settle e cptr sf sh st0)) = helpers (settle e cptr sf sh st0))
    by apply counts_helpers, counts_finish.
  rewrite Hc. clear Hc Eh Ef. pose proof (settle_usr e cptr sf sh st0) as Hu.
  unfold settle. set (y := by_status e cptr sf sh _) in *. change (helpers (recount sf sh y)) with (helpers y + delta (has sh HMODE_HELPOP) (IsHelpOp (usr y))).
  rewrite <- Hu, Hf. unfold sh at 1. rewrite has_sethmodes by in_table. unfold IsHelpOp in Hh. rewrite Hh. cbn [delta andb negb].
  set (pre := only_servers e sh st0) in *. assert (Hpre : IsHelpOp (usr pre) = true).
  { change (fixed HMODE_HELPOP true pre). subst pre. unfold only_servers; rewrite Hs; cbv zeta. guard_steps. subst st0. unfold own_operator; cbv zeta.
    guard_steps. unfold fixed. cbn -[has]. by rewrite (has_u32 HMODE_HELPOP), (has_or HMODE_HELPOP), orb_true_r. }
  assert (Hcp : helpers pre = helpers st) by (apply counts_helpers; subst pre; by rewrite counts_only_servers).
  assert (Hr : IsNickRegistered (usr pre) = false).
  { subst pre. rewrite only_servers_registered by done. unfold sh. by rewrite has_sethmodes by in_table. }
  assert (Hy : helpers y = helpers (by_registration e sh pre)) by (apply counts_helpers; subst y; by rewrite counts_status, counts_lazy).
  rewrite Hy. unfold by_registration. rewrite Hm, Hr, unregistered_helpers, Hpre, Hcp. lia.
Qed.

(** Witness of [helpers_drift]. *)
Lemma helpers_drift_witness :
  exists st' o, m_umode_change plain_env 1 [str "+h"] plain_state = Ok (st', o) /\ IsHelpOp (usr st') = false /\ helpers st' = 2 - 1.
Proof. apply (helpers_drift plain_env 1 plain_state); reflexivity. Defined.

(** * The lists of those who get notices *)

Lemma delfrom_elem cptr l d : NoDup l -> d ∈ delfrom_list cptr l <-> d ∈ l /\ d <> cptr.
Proof.
  induction l as [|x l IH]; intros Hnd; [split; [by intros ?%not_elem_of_nil|by intros [?%not_elem_of_nil _]]|].
  apply NoDup_cons in Hnd as [Hx Hl]. cbn [delfrom_list]. destruct (decide (x = cptr)) as [->|N].
  - rewrite elem_of_cons. split; [intros Hd; split; [by right|intros ->; done]|by intros [[->|] ?]].
  - rewrite !elem_of_cons, IH by done. split; [intros [->|[? ?]]; auto|intros [[->|?] ?]; auto].
Qed.
Lemma delfrom_nodup cptr l : NoDup l -> NoDup (delfrom_list cptr l).
Proof.
  induction l as [|x l IH]; [done|]. intros Hnd. pose proof Hnd as [Hx Hl]%NoDup_cons. cbn [delfrom_list]. destruct (decide (x = cptr)); [done|].
  apply NoDup_cons. split; [|by apply IH]. rewrite delfrom_elem by done. tauto.
Qed.

(** [cptr] is once on the lists of the bits of its mask, and on no other. *)
Definition listed (cptr : nat) (st : state) : Prop :=
  forall i l, opsarray st !! i = Some l -> NoDup l /\ (cptr ∈ l <-> Z.testbit (snomask (usr st)) (Z.of_nat i) = true).
(** The lists are the same but for [cptr]. *)
Definition others (cptr : nat) (st st' : state) : Prop :=
  length (opsarray st') = length (opsarray st) /\
  forall i l l', opsarray st !! i = Some l -> opsarray st' !! i = Some l' -> forall d, d <> cptr -> d ∈ l' <-> d ∈ l.

Lemma set_snomask_listed cptr m what st : listed cptr st -> listed cptr (set_snomask cptr m what st) /\ others cptr st (set_snomask cptr m what st).
Proof.
  intros HL. unfold set_snomask, listed, others. cbn [opsarray usr with_snomask snomask].
  set (m' := if IsAnOper (usr st) then _ else 0). clearbody m'. set (old := snomask (usr st)).
  assert (Hi : forall i l, opsarray st !! i = Some l -> NoDup l /\ (cptr ∈ l <-> Z.testbit old (Z.of_nat i) = true)) by apply HL.
  split.
  - intros i l'. rewrite list_lookup_imap. destruct (opsarray st !! i) as [l|] eqn:E; [|done]. cbn [fmap option_fmap option_map]. intros [= <-].
    destruct (Hi i l E) as [Hnd Hc]. rewrite Z.lxor_spec.
    destruct (Z.testbit old (Z.of_nat i)) eqn:Eo, (Z.testbit m' (Z.of_nat i)) eqn:Em; cbn [xorb].
    + split; [done|tauto].
    + split; [by apply delfrom_nodup|]. rewrite delfrom_elem by done. split; [by intros []|done].
    + split; [apply NoDup_cons; split; [|done]; rewrite Hc; done|]. split; [done|by left].
    + split; [done|tauto].
  - split; [by rewrite length_imap|]. intros i l l' E. rewrite list_lookup_imap, E. cbn [fmap option_fmap option_map]. intros [= <-] d Hd.
    destruct (Hi i l E) as [Hnd Hc]. rewrite Z.lxor_spec.
    destruct (Z.testbit old (Z.of_nat i)), (Z.testbit m' (Z.of_nat i)); cbn [xorb]; [done| | |done].
    + rewrite delfrom_elem by done. tauto.
    + rewrite elem_of_cons. naive_solver.
Qed.

Lemma svs_letters_snomask mine m add p : snomask (pu (fst (svs_letters mine m add p))) = snomask (pu p).
Proof.
  revert add p. induction m as [|c m IH]; intros add p; [done|]. cbn [svs_letters].
  destruct (decide (c = "+"%char)); [apply IH|]. destruct (decide (c = "-"%char)); [apply IH|]. destruct (is_blank c); [apply IH|].
  rewrite IH. unfold svs_letter. destruct (find_mode user_modes c) as [f|]; [|exact (proj1 (proj2 (letter_rest mine c add p)))].
  destruct add; [done|]. by destruct (has f ANOPER).
Qed.
Lemma svs_fold_snomask mine ps x :
  snomask (pu (fst (fold_left (fun x m => let '(p, add) := x in svs_letters mine m add p) ps x))) = snomask (pu (fst x)).
Proof.
  revert x. induction ps as [|m ps IH]; intros [p a]; [done|]. cbn [fold_left]. rewrite IH. apply svs_letters_snomask.
Qed.

(** Both at once, for a sequence of steps that starts in [s0] *)
Definition kept (cptr : nat) (s0 st : state) : Prop := listed cptr st /\ others cptr s0 st.

Lemma kept_refl cptr st : listed cptr st -> kept cptr st st.
Proof. intros H. split; [done|]. split; [done|]. intros i l l' E E' d _. by simplify_eq. Qed.
Lemma kept_set cptr m what s0 st : kept cptr s0 st -> kept cptr s0 (set_snomask cptr m what st).
Proof.
  intros [HL [Ho1 Ho2]]. destruct (set_snomask_listed cptr m what st HL) as [HL' [Hp1 Hp2]]. split; [done|]. split; [congruence|].
  intros i l l' E E' d Hd. destruct (opsarray st !! i) as [l1|] eqn:E1.
  - rewrite (Hp2 i l1 l' E1 E' d Hd). by apply (Ho2 i l l1).
  - apply lookup_ge_None in E1. apply lookup_lt_Some in E. lia.
Qed.
Lemma kept_same cptr s0 st st' :
  opsarray st' = opsarray st -> snomask (usr st') = snomask (usr st) -> kept cptr s0 st -> kept cptr s0 st'.
Proof. unfold kept, listed, others. intros -> ->. done. Qed.
Lemma kept_when cptr b f s0 st : (kept cptr s0 st -> kept cptr s0 (f st)) -> kept cptr s0 st -> kept cptr s0 (when b f st).
Proof. unfold when. destruct (b st); auto. Qed.
Lemma kept_clear_hmode cptr m s0 st : kept cptr s0 st -> kept cptr s0 (clear_hmode m st).
Proof. by apply kept_same. Qed.
Lemma kept_set_hmode cptr m s0 st : kept cptr s0 st -> kept cptr s0 (set_hmode m st).
Proof. by apply kept_same. Qed.
Lemma kept_clear_flag cptr m s0 st : kept cptr s0 st -> kept cptr s0 (clear_flag m st).
Proof. by apply kept_same. Qed.
Lemma kept_keep_hmode cptr old m s0 st : kept cptr s0 st -> kept cptr s0 (keep_hmode old m st).
Proof. unfold keep_hmode. destruct (has old m); [apply kept_set_hmode|apply kept_clear_hmode]. Qed.
Lemma kept_Borra cptr s0 st : kept cptr s0 st -> kept cptr s0 (BorraIpVirtualPerso st).
Proof. by apply kept_same. Qed.
Lemma kept_opers cptr d s0 st : kept cptr s0 st -> kept cptr s0 (count_opers d st).
Proof. by apply kept_same. Qed.
Lemma kept_helpers cptr d s0 st : kept cptr s0 st -> kept cptr s0 (count_helpers d st).
Proof. by apply kept_same. Qed.
Lemma kept_recount cptr sf sh s0 st : kept cptr s0 st -> kept cptr s0 (recount sf sh st).
Proof. by apply kept_same. Qed.

Ltac kept_step :=
  lazymatch goal with
  | |- kept _ _ (when _ _ _) => apply kept_when; [intros ?; cbv beta|]
  | |- kept _ _ (clear_hmode _ _) => apply kept_clear_hmode
  | |- kept _ _ (set_hmode _ _) => apply kept_set_hmode
  | |- kept _ _ (clear_flag _ _) => apply kept_clear_flag
  | |- kept _ _ (keep_hmode _ _ _) => apply kept_keep_hmode
  | |- kept _ _ (BorraIpVirtualPerso _) => apply kept_Borra
  | |- kept _ _ (count_opers _ _) => apply kept_opers
  | |- kept _ _ (count_helpers _ _) => apply kept_helpers
  | |- kept _ _ (set_snomask _ _ _ _) => apply kept_set
  | |- kept _ _ (recount _ _ _) => apply kept_recount
  end; try (match goal with H : ?G |- ?G' => constr_eq G G'; exact H end).
Ltac kept_steps := repeat kept_step.

Lemma kept_settle e cptr sf sh s0 st : kept cptr s0 st -> kept cptr s0 (settle e cptr sf sh st).
Proof.
  intros HK. unfold settle. apply kept_recount.
  assert (H1 : kept cptr s0 (only_servers e sh st)) by (unfold only_servers; cbv zeta; destruct (serv e); [exact HK|kept_steps]).
  revert H1. generalize (only_servers e sh st) as x. clear st HK. intros x H1.
  assert (H2 : kept cptr s0 (by_registration e sh x)).
  { unfold by_registration, registered, unregistered, staff; cbv zeta. destruct (my e); [|exact H1].
    destruct (IsNickRegistered (usr x)); [destruct (ipvirtual e)|]; kept_steps. }
  revert H2. generalize (by_registration e sh x) as y. clear x H1. intros y H2.
  unfold by_status, privileged, lazy_vhost; cbv zeta. kept_steps.
Qed.

(** The lists of the clients that get the notices of the server stay in step with the masks of the users: after MODE and after SVSMODE
    a user is, once, on the lists of its mask and on no other, and for everybody else nothing has changed. *)
Theorem notices_in_step e cptr ps st :
  listed cptr st ->
  kept cptr st (fst (m_svsumode e cptr ps st)) /\
  exists st' o, m_umode_change e cptr ps st = Ok (st', o) /\ kept cptr st st'.
Proof.
  intros HL. split.
  - unfold m_svsumode. set (x := fold_left _ ps _).
    assert (Hx : snomask (pu (fst x)) = snomask (usr st)).
    { subst x. apply (svs_fold_snomask (my e) ps (mkParsing (usr st) 0 false, true)). }
    destruct x as [p a]. cbn [fst] in *.
    assert (H1 : kept cptr st (with_usr (fun _ => pu p) st)) by (apply (kept_same _ _ st); [done|exact Hx|by apply kept_refl]).
    revert H1. generalize (with_usr (fun _ => pu p) st) as y. intros y H1. cbn [fst].
    match goal with |- kept _ _ (if ?b then _ else _) => destruct b end; kept_steps.
  - destruct (read_modes_ends (length ps) (my e) ps true (mkParsing (usr st) (if my e then snomask (usr st) else 0) false)) as (p&Hr&Hp1&Hp2&_); [done|].
    destruct (m_umode_change_eq e cptr ps st p Hr) as (d&w&E). eexists _, _. split; [exact E|]. clear E.
    unfold finish. apply kept_when; [apply kept_clear_flag|]. set (st1 := settle _ _ _ _ _).
    assert (H1 : kept cptr st st1).
    { subst st1. apply kept_settle. unfold own_operator; cbv zeta. kept_steps; apply (kept_same _ _ st); [done|exact Hp2|by apply kept_refl]. }
    clearbody st1. destruct (my e && _); [by apply kept_set|done].
Qed.

Lemma plain_listed : listed 1 plain_state.
Proof.
  intros i l. cbn [plain_state opsarray usr plain_user snomask]. intros [-> _]%lookup_replicate.
  split; [constructor|]. rewrite Z.bits_0. split; [by intros ?%not_elem_of_nil|done].
Qed.

(** Witness of [notices_in_step]. *)
Lemma notices_in_step_witness :
  kept 1 plain_state (fst (m_svsumode plain_env 1 [str "+o"] plain_state)) /\
  exists st' o, m_umode_change plain_env 1 [str "+s"; str "+8"] plain_state = Ok (st', o) /\ kept 1 plain_state st'.
Proof.
  split.
  - exact (proj1 (notices_in_step plain_env 1 [str "+o"] plain_state plain_listed)).
  - exact (proj2 (notices_in_step plain_env 1 [str "+s"; str "+8"] plain_state plain_listed)).
Defined.

(** An operator that gives up his mode keeps his notices, when none of them is for operators only. *)
Example notices_kept :
  let u := mkUser (Z.lor FLAGS_OPER FLAGS_SERVNOTICE) HMODE_NICKREGISTERED SNO_DEFAULT 0 false in
  match m_umode_change plain_env 1 [str "-o"] (mkState u (replicate 32 [1%nat]) 1 0 0) with
  | Ok (st, _) => IsAnOper (usr st) = false /\ snomask (usr st) = SNO_DEFAULT
  | _ => False
  end.
Proof. vm_compute. done. Qed.

(** Any SVSMODE takes all the notices of an operator. *)
Example notices_lost :
  let u := mkUser (Z.lor FLAGS_OPER FLAGS_SERVNOTICE) HMODE_NICKREGISTERED SNO_OPERDEFAULT 0 false in
  let st := fst (m_svsumode plain_env 1 [str "+R"] (mkState u (replicate 32 []) 1 0 0)) in
  IsAnOper (usr st) = true /\ has (flags (usr st)) FLAGS_SERVNOTICE = true /\ snomask (usr st) = 0.
Proof. vm_compute. done. Qed.

(** A nick that is not registered loses +o with any MODE, and two operators are taken off the count. *)
Example opers_drift :
  match m_umode_change plain_env 1 [str "+i"] (mkState (mkUser FLAGS_OPER 0 0 0 false) (replicate 32 []) 5 0 0) with
  | Ok (st, _) => IsOper (usr st) = false /\ opers st = 3
  | _ => False
  end.
Proof. vm_compute. done. Qed.

(** The bit that remembers that somebody became operator by OPER lies beyond the word it is kept in: after setting it nobody has it. *)
Theorem OperCmd_lost u : IsOperCmd (SetOperCmd u) = false.
Proof.
  unfold IsOperCmd, SetOperCmd, with_flags, FLAGS_OPERCMD. cbn [flags]. change 0x100000000 with (2 ^ 32).
  rewrite has_bit by done. unfold u32. by rewrite Z.mod_pow2_bits_high.
Qed.

(** The letter of a local operator in the record of the database has the bit of the helpers. *)
Example locop_may_help : has (get_status (fun _ => Some (Some (str "+O"))) (Some (str "{"))) HMODE_HELPOP = true.
Proof. vm_compute. reflexivity. Qed.

(** * Modes in a BURST *)

Lemma mask_letters h l modes addf addh :
  (forall x, x ∈ l -> x ∈ sent h) ->
  mask_user_flags (map snd l ++ modes) true addf addh =
  if h then mask_user_flags modes true addf (foldr (fun x a => Z.lor (fst x) a) addh l)
  else mask_user_flags modes true (foldr (fun x a => Z.lor (fst x) a) addf l) addh.
Proof.
  intros Hl. revert addf addh. induction l as [|[flag c] l IH]; intros addf addh; [by destruct h|]. cbn [map app mask_user_flags].
  assert (Hc : (flag, c) ∈ sent h) by (apply Hl; by left). pose proof (sent_letters h) as Hs. rewrite Forall_forall in Hs.
  destruct (Hs _ Hc) as (Hc1&Hc2&_&Hb). cbn [snd] in *. unfold is_blank in Hb. apply bool_decide_eq_false in Hb.
  rewrite (decide_False (P := c = " "%char \/ c = "009"%char)) by (intros [-> | ->]; apply Hb; set_solver).
  rewrite !decide_False by done.
  assert (Hfold : forall a, foldr (fun x a => Z.lor (fst x) a) (Z.lor a flag) l = Z.lor flag (foldr (fun x a => Z.lor (fst x) a) a l)).
  { intros a. clear. induction l as [|x l IHl]; [apply Z.lor_comm|]. cbn [foldr]. rewrite IHl, !Z.lor_assoc. f_equal. apply Z.lor_comm. }
  rewrite IH by (intros x Hx; apply Hl; by right). destruct h.
  - pose proof sent_hmodes_ok as H. rewrite Forall_forall in H. destruct (H _ Hc) as (_&_&E1&E2). cbn [snd fst] in *. rewrite E1, E2. cbn [foldr fst].
    by rewrite Hfold.
  - pose proof sent_flags_ok as H. rewrite Forall_forall in H. destruct (H _ Hc) as (_&_&_&E1&_). cbn [snd fst] in *. rewrite E1.
    assert (Forall (fun x => find_mode user_hmodes (snd x) = None) (sent false)) as H2 by (apply (bool_decide_unpack _); vm_compute; exact I).
    rewrite Forall_forall in H2. pose proof (H2 _ Hc) as E2. cbn [snd] in E2. rewrite E2. cbn [foldr fst]. by rewrite Hfold.
Qed.

Lemma known_filter tab f : foldr (fun x a => Z.lor (fst x) a) 0 (filter (fun x => has f (fst x)) tab) = known tab f.
Proof.
  induction tab as [|x tab IH]; [done|]. rewrite filter_cons. cbn [known foldr]. fold (known tab f).
  destruct (decide (has f (fst x))) as [E|E]; destruct (has f (fst x)); try done. cbn [foldr]. by rewrite IH.
Qed.

Lemma nick_letters_mask modes a b :
  Forall (fun c => c <> " "%char /\ c <> "009"%char /\ c <> "+"%char /\ c <> "-"%char) modes ->
  nick_letters modes a b = mask_user_flags modes true a b.
Proof.
  intros H. revert a b. induction H as [|c p (H1&H2&H3&H4) _ IH]; intros a b; [done|].
  cbn [nick_letters mask_user_flags]. rewrite decide_False by (by intros [|]). rewrite !decide_False by done. apply IH.
Qed.

Lemma umode_str_mask u :
  mask_user_flags (umode_str u None) true 0 0 = (known (sent false) (flags u), known (sent true) (hmodes u)).
Proof.
  assert (Hf : forall mask tab f, Forall (fun x => Bit32 (fst x)) tab ->
    filter (fun x : Z * ascii => has (Z.land f mask) (fst x) && true) tab = filter (fun x => has f (fst x)) (filter (fun x => has (fst x) mask) tab)).
  { intros mask tab f Ht. induction Ht as [|x tab Hx Ht IH]; [done|]. rewrite !filter_cons. rewrite (has_inter (fst x)) by apply bit32_one, Hx.
    rewrite andb_true_r, (has_comm mask (fst x)). destruct (has f (fst x)) eqn:E1, (has (fst x) mask) eqn:E2; cbn [andb].
    - rewrite !decide_True by done. rewrite filter_cons, decide_True by (by rewrite E1). by rewrite IH.
    - rewrite !decide_False by (by intros []). apply IH.
    - rewrite (decide_False (P := Is_true false)) by (by intros []). rewrite decide_True by done. rewrite filter_cons, decide_False by (rewrite E1; by intros []). apply IH.
    - rewrite !decide_False by (by intros []). apply IH. }
  unfold umode_str. rewrite (Hf SEND_HMODES user_hmodes (hmodes u)) by apply user_hmodes_bits. rewrite (Hf SEND_UMODES user_modes (flags u)) by apply user_modes_bits.
  fold (sent true) (sent false). rewrite (mask_letters true) by (by intros x [_ ?]%list_elem_of_filter).
  rewrite <- (app_nil_r (map snd _)), (mask_letters false) by (by intros x [_ ?]%list_elem_of_filter).
  by rewrite !known_filter.
Qed.

Lemma umode_str_letters u : Forall (fun c => c <> " "%char /\ c <> "009"%char /\ c <> "+"%char /\ c <> "-"%char) (umode_str u None).
Proof.
  assert (H : forall tab p, Forall (fun x => snd x <> " "%char /\ snd x <> "009"%char /\ snd x <> "+"%char /\ snd x <> "-"%char) tab ->
    Forall (fun c => c <> " "%char /\ c <> "009"%char /\ c <> "+"%char /\ c <> "-"%char) (map snd (filter (fun x : Z * ascii => Is_true (p x)) tab))).
  { intros tab p Ht. induction Ht as [|x tab Hx Ht IH]; [constructor|]. rewrite filter_cons. destruct (decide _); [by constructor|done]. }
  unfold umode_str. apply Forall_app. split; apply (H _ (fun x => _)); apply (bool_decide_unpack _); vm_compute; exact I.
Qed.

(** C37. The modes that the NICK of a new user carries, in a BURST and when he signs on,
    are read by the server that gets it over a link of protocol 10 as the modes that are
    told to other servers, all of them and no others; also of a user without modes, whose
    address, which does not start with a plus, stands in their place. *)
Theorem umode_str_roundtrip u protocol (ip : cstring) :
  9 < protocol -> chr ip <> "+"%char ->
  nick_modes protocol (nick_parc u) (nick_parv6 u ip) = (known (sent false) (flags u), known (sent true) (hmodes u)).
Proof.
  intros Hp Hip. rewrite <- umode_str_mask, <- nick_letters_mask by apply umode_str_letters.
  unfold nick_modes, nick_parc, nick_parv6. rewrite bool_decide_eq_true_2 by done. cbn [andb].
  destruct (umode_str u None) as [|c s]; [by rewrite (bool_decide_eq_false_2 (chr ip = _))|done].
Qed.

Definition some_user_modes : user := mkUser (Z.lor FLAGS_INVISIBLE FLAGS_WALLOP) HMODE_NICKREGISTERED 0 0 false.

Lemma umode_str_roundtrip_witness :
  9 < 10 /\ nick_modes 10 (nick_parc some_user_modes) (nick_parv6 some_user_modes (str "CAAAAB")) =
    (known (sent false) (flags some_user_modes), known (sent true) (hmodes some_user_modes)).
Proof. split; [lia|]. apply umode_str_roundtrip; [lia|discriminate]. Defined.
