(* ===== verification/Watch.v ===== *)
(** The lists of nicks that a client watches: ircd/m_watch.c, with strtoken() of
    ircd/support.c and the blocks of ircd/list.c.

    A watched nick has one block, in the table of watched nicks (through the
    interface of Nametable.v), with the chain of the clients that watch it; every
    client has the chain of the blocks that it watches, and their number.  Both
    chains belong to their owner, so that they are lists here; the blocks are
    shared by all clients that watch the nick, so that they are on a heap.  A
    block without clients is freed. *)

From S2P Require Import Prelude Common Nametable Hash.

(** * Tokens *)

(** [strchr(fs, c) != NULL], of a character that is not the terminator *)
Definition among (fs : cstring) (c : ascii) : bool := bool_decide (c ∈ fs).

Fixpoint skip_separators (fs pos : cstring) : cstring :=
  match pos with
  | [] => []
  | c :: pos' => if among fs c then skip_separators fs pos' else pos
  end.

(** The token, and what follows it: [NULL] at the end of the string, else the
    text after the first separator. *)
Fixpoint skip_token (fs pos : cstring) : cstring * option cstring :=
  match pos with
  | [] => ([], None)
  | c :: pos' =>
      if among fs c then ([], Some pos')
      else let '(t, save) := skip_token fs pos' in (c :: t, save)
  end.

(** strtoken(&p, NULL, fs) with [p] in [save]; with a string for the second
    argument, [save] is that string. *)
Definition strtoken (save : option cstring) (fs : cstring) : option (cstring * option cstring) :=
  match save with
  | None => None
  | Some pos => match skip_separators fs pos with [] => None | pos => Some (skip_token fs pos) end
  end.

(** [for (s = strtoken(&p, text, fs); s; s = strtoken(&p, NULL, fs))] *)
Fixpoint tokens_loop (fuel : nat) (fs : cstring) (p : option cstring) : result (list cstring) :=
  match fuel with
  | O => Fuel
  | S fuel =>
      match strtoken p fs with
      | None => Ok []
      | Some (s, p) => l ← tokens_loop fuel fs p; Ok (s :: l)
      end
  end.

Definition tokens (fs text : cstring) : result (list cstring) :=
  tokens_loop (S (length text)) fs (Some text).

(** * Constants *)

Definition MAXWATCH : Z := 96.
Definition MAXLEN : nat := 490.
Definition NICKLEN : nat := 30.

Definition RPL_LOGON : Z := 600.
Definition RPL_LOGOFF : Z := 601.
Definition RPL_WATCHOFF : Z := 602.
Definition RPL_NOWON : Z := 604.
Definition RPL_NOWOFF : Z := 605.

(** * Blocks and replies *)

Record aWatch := mkWatch { nick : cstring; lasttime : Z; watch : list nat }.

(** The fields of [sptr->user] *)
Record aUser := mkUser { uwatch : list nat; cwatch : Z }.

(** What FindClient() finds under a nick; the host depends on who asks. *)
Record person := mkPerson {
  pname : cstring; pusername : cstring; phost : nat -> cstring; lastnick : Z }.

(** The lines sent; the first argument is the client that gets them.
    [Ops_error] is "entrada watch sin link a cliente", which goes to the
    operators. *)
Inductive reply : Type :=
  | Status (to : nat) (raw : Z) (nick username host : cstring) (time : Z)
  | Too_many (to : nat) (nick : cstring) (max : Z)
  | Watch_stat (to : nat) (count : Z)
  | Watch_list (to : nat) (linea : cstring)
  | End_of_list (to : nat) (c : ascii)
  | Ops_error.

Definition set_lasttime (t : Z) (wp : aWatch) : aWatch := mkWatch (nick wp) t (watch wp).
Definition set_watch (l : list nat) (wp : aWatch) : aWatch := mkWatch (nick wp) (lasttime wp) l.

(** * The nick of an argument *)

(** What m_watch() makes of the text after the sign: [None] when it goes on with
    the next argument. *)
Definition watched_nick (nicklen : nat) (s : cstring) : option cstring :=
  let nick := match strtoken (Some s) (str "!") with Some (t, _) => t | None => s end in
  if existsb (among (str "*.@")) nick then None
  else match take nicklen nick with [] => None | nick => Some nick end.

(** * The lines of the status *)

(** [char linea[MAXLEN * 2]] holds [l] and its terminator. *)
Definition in_linea (l : cstring) : result cstring :=
  if decide (length l < MAXLEN * 2)%nat then Ok l else Ub.

(** The loop over the rest of the chain; [base] is
    [strlen(parv[0]) + strlen(me.name) + 10]. *)
Fixpoint status_loop (base : nat) (linea : cstring) (count : nat) (l : list cstring)
    : result (list cstring) :=
  match l with
  | [] => Ok [linea]
  | n :: l =>
      let full := bool_decide (MAXLEN < count + length n + 1)%nat in
      let start := if full then [] else linea in
      let count := if full then base else count in
      next ← in_linea (start ++ " "%char :: n);
      rest ← status_loop base next (count + (length n + 1)) l;
      Ok (if full then linea :: rest else rest)
  end.

Definition status_lines (base : nat) (l : list cstring) : result (list cstring) :=
  match l with
  | [] => Ok []
  | n :: l => linea ← in_linea n; status_loop base linea (base + length n) l
  end.

(** * The state *)

Section operations.
Context {T : Type} `{NT : NameTable T}.

(** The block that the allocation gives *)
Variable malloc : gmap nat aWatch -> nat.

Record state := mkState { watchTable : T; watches : gmap nat aWatch; users : gmap nat aUser }.

Definition get_watch (st : state) (w : nat) : result aWatch := of_option (watches st !! w).

(** A server has no [user]: the pointer is null. *)
Definition get_user (st : state) (u : nat) : result aUser := of_option (users st !! u).

Definition put_watch (w : nat) (wp : aWatch) (st : state) : state :=
  mkState (watchTable st) (<[w := wp]> (watches st)) (users st).
Definition put_user (u : nat) (us : aUser) (st : state) : state :=
  mkState (watchTable st) (watches st) (<[u := us]> (users st)).
Definition set_table (t : T) (st : state) : state := mkState t (watches st) (users st).

(** The search moves the block to the head of its chain. *)
Definition FindWatch (st : state) (nick : cstring) : result (state * option nat) :=
  match nick with
  | [] => Ok (st, None)
  | _ => '(t, o) ← nt_find (watchTable st) nick; Ok (set_table t st, o)
  end.

Definition make_watch (st : state) (nick : cstring) : result (state * option nat) :=
  match nick with
  | [] => Ok (st, None)
  | _ =>
      let w := malloc (watches st) in
      t ← nt_add (watchTable st) w nick;
      Ok (set_table t (put_watch w (mkWatch nick 0 []) st), Some w)
  end.

Definition free_watch (st : state) (w : nat) : result state :=
  t ← nt_del (watchTable st) w;
  Ok (mkState t (delete w (watches st)) (users st)).

(** * Adding and removing *)

Definition link_watch (st : state) (u w : nat) : result state :=
  wp ← get_watch st w;
  if decide (u ∈ watch wp) then Ok st
  else
    let st := put_watch w (set_watch (u :: watch wp) wp) st in
    us ← get_user st u;
    Ok (put_user u (mkUser (w :: uwatch us) (cwatch us + 1)) st).

Definition agrega_nick_watch (st : state) (now : Z) (sptr : nat) (nick : cstring) : result state :=
  '(st, o) ← FindWatch st nick;
  '(st, o) ← match o with
    | Some w => Ok (st, Some w)
    | None =>
        '(st, o) ← make_watch st nick;
        match o with
        | None => Ok (st, None)
        | Some w => wp ← get_watch st w; Ok (put_watch w (set_lasttime now wp) st, Some w)
        end
    end;
  match o with None => Ok st | Some w => link_watch st sptr w end.

Definition no_link (b : bool) : list reply := if b then [] else [Ops_error].

(** The link of the client goes from the chain of the block. *)
Definition off_watch (st : state) (u w : nat) : result state :=
  wp ← get_watch st w; Ok (put_watch w (set_watch (unlink id u (watch wp)) wp) st).

(** [if (!wptr->watch) free_watch(wptr);] *)
Definition free_if_empty (st : state) (w : nat) : result state :=
  wp ← get_watch st w;
  if decide (watch wp = []) then free_watch st w else Ok st.

Definition borra_nick_watch (st : state) (sptr : nat) (nick : cstring)
    : result (state * list reply) :=
  '(st, o) ← FindWatch st nick;
  match o with
  | None => Ok (st, [])
  | Some w =>
      wp ← get_watch st w;
      if decide (sptr ∈ watch wp) then
        st ← off_watch st sptr w;
        us ← get_user st sptr;
        let out := no_link (bool_decide (w ∈ uwatch us)) in
        let st := put_user sptr (mkUser (unlink id w (uwatch us)) (cwatch us)) st in
        st ← free_if_empty st w;
        us ← get_user st sptr;
        Ok (put_user sptr (mkUser (uwatch us) (cwatch us - 1)) st, out)
      else Ok (st, [])
  end.

Fixpoint borra_loop (st : state) (sptr : nat) (l : list nat) : result (state * list reply) :=
  match l with
  | [] => Ok (st, [])
  | w :: l =>
      wp ← get_watch st w;
      let there := bool_decide (sptr ∈ watch wp) in
      st ← (if there then st ← off_watch st sptr w; free_if_empty st w else Ok st);
      '(st, out) ← borra_loop st sptr l;
      Ok (st, no_link there ++ out)
  end.

Definition borra_lista_watch (st : state) (sptr : nat) : result (state * list reply) :=
  us ← get_user st sptr;
  match uwatch us with
  | [] => Ok (st, [])
  | l => '(st, out) ← borra_loop st sptr l; Ok (put_user sptr (mkUser [] 0) st, out)
  end.

(** * Telling *)

(** A client [sptr] with these names comes or goes; [user] is IsUser(). *)
Definition chequea_estado_watch (st : state) (now : Z) (user : bool) (sptr : person) (raw : Z)
    : result (state * list reply) :=
  if negb user then Ok (st, [])
  else
    '(st, o) ← FindWatch st (pname sptr);
    match o with
    | None => Ok (st, [])
    | Some w =>
        wp ← get_watch st w;
        Ok (put_watch w (set_lasttime now wp) st,
          map (fun u => Status u raw (pname sptr) (pusername sptr) (phost sptr u) now) (watch wp))
    end.

Definition muestra_estado_watch (FindClient : cstring -> option person) (sptr : nat)
    (nick : cstring) (raw1 raw2 : Z) : reply :=
  match FindClient nick with
  | Some p => Status sptr raw1 (pname p) (pusername p) (phost p sptr) (lastnick p)
  | None => Status sptr raw2 nick (str "*") (str "*") 0
  end.

(** * The command *)

(** What the command reads of the server: the clients, the time, the length of
    nicks, and [strlen(parv[0]) + strlen(me.name) + 10]. *)
Record env := mkEnv {
  FindClient : cstring -> option person; now : Z; nicklen : nat; base : nat }.

(** [lp->value.wptr->nick] along a chain *)
Fixpoint nicks_of (st : state) (l : list nat) : result (list cstring) :=
  match l with
  | [] => Ok []
  | w :: l => wp ← get_watch st w; ns ← nicks_of st l; Ok (nick wp :: ns)
  end.

Definition watch_nick (e : env) (st : state) (cptr sptr : nat) (c : ascii) (nick : cstring)
    : result (state * list reply) :=
  if decide (c = "+"%char) then
    us ← get_user st cptr;
    if decide (MAXWATCH <= cwatch us) then Ok (st, [Too_many cptr nick MAXWATCH])
    else
      st ← agrega_nick_watch st (now e) cptr nick;
      Ok (st, [muestra_estado_watch (FindClient e) sptr nick RPL_NOWON RPL_NOWOFF])
  else
    '(st, out) ← borra_nick_watch st cptr nick;
    Ok (st, out ++ [muestra_estado_watch (FindClient e) sptr nick RPL_WATCHOFF RPL_WATCHOFF]).

Definition watch_status (e : env) (st : state) (sptr : nat) (c : ascii) : result (list reply) :=
  us ← get_user st sptr;
  ns ← nicks_of st (uwatch us);
  lines ← status_lines (base e) ns;
  Ok (Watch_stat sptr (cwatch us) :: map (Watch_list sptr) lines ++ [End_of_list sptr c]).

(** One block of the chain of [sptr]; the line of an absent nick goes to [cptr]. *)
Definition list_one (e : env) (cptr sptr : nat) (all : bool) (wp : aWatch) : list reply :=
  match FindClient e (nick wp) with
  | Some p => [Status sptr RPL_NOWON (pname p) (pusername p) (phost p cptr) (lastnick p)]
  | None => if all then [Status cptr RPL_NOWOFF (nick wp) (str "*") (str "*") (lasttime wp)] else []
  end.

Fixpoint list_loop (e : env) (st : state) (cptr sptr : nat) (all : bool) (l : list nat)
    : result (list reply) :=
  match l with
  | [] => Ok []
  | w :: l =>
      wp ← get_watch st w;
      out ← list_loop e st cptr sptr all l;
      Ok (list_one e cptr sptr all wp ++ out)
  end.

Definition watch_list (e : env) (st : state) (cptr sptr : nat) (c : ascii) : result (list reply) :=
  us ← get_user st sptr;
  out ← list_loop e st cptr sptr (bool_decide (c = "L"%char)) (uwatch us);
  Ok (out ++ [End_of_list sptr c]).

(** One argument; tokens are not empty. *)
Definition watch_token (e : env) (st : state) (cptr sptr : nat) (s : cstring)
    : result (state * list reply) :=
  let c := chr s in
  if decide (c = "+"%char \/ c = "-"%char) then
    match watched_nick (nicklen e) (adv s) with
    | None => Ok (st, [])
    | Some nick => watch_nick e st cptr sptr c nick
    end
  else if decide (c = "C"%char \/ c = "c"%char) then borra_lista_watch st cptr
  else if decide (c = "S"%char \/ c = "s"%char) then out ← watch_status e st sptr c; Ok (st, out)
  else if decide (c = "L"%char \/ c = "l"%char) then out ← watch_list e st cptr sptr c; Ok (st, out)
  else Ok (st, []).

Fixpoint watch_tokens (e : env) (st : state) (cptr sptr : nat) (l : list cstring)
    : result (state * list reply) :=
  match l with
  | [] => Ok (st, [])
  | s :: l =>
      '(st, out) ← watch_token e st cptr sptr s;
      '(st, out') ← watch_tokens e st cptr sptr l;
      Ok (st, out ++ out')
  end.

(** [user] is IsUser(sptr), [parv] the first argument.  The text of the rest of
    the arguments is not touched by an iteration, so that they can be cut before. *)
Definition m_watch (e : env) (st : state) (cptr sptr : nat) (user : bool) (parv : option cstring)
    : result (state * list reply) :=
  if negb user then Ok (st, [])
  else l ← tokens (str ", ") (default (str "l") parv); watch_tokens e st cptr sptr l.

(** * Clients that come and go *)

(** A user structure appears, with everything zero. *)
Definition new_user (st : state) (u : nat) : state := put_user u (mkUser [] 0) st.

(** exit_one_client(): the list goes, then those who watch the client are told,
    then the client goes. *)
Definition exit_user (st : state) (now : Z) (u : nat) (p : person) : result (state * list reply) :=
  '(st, out) ← borra_lista_watch st u;
  '(st, out') ← chequea_estado_watch st now true p RPL_LOGOFF;
  Ok (mkState (watchTable st) (watches st) (delete u (users st)), out ++ out').

Definition init : state := mkState nt_empty ∅ ∅.

End operations.

(** * Histories *)

(** [Command]: a local user sends WATCH; [New]: a user appears; [Exit]: a user
    leaves; [Change]: a client comes, goes or takes a nick, wherever it is. *)
Inductive event : Type :=
  | Command (e : env) (u : nat) (parv : option cstring)
  | New (u : nat)
  | Exit (time : Z) (u : nat) (p : person)
  | Change (time : Z) (p : person) (raw : Z).

Section histories.
Context {T : Type} `{NT : NameTable T}.
Variable malloc : gmap nat aWatch -> nat.

Definition step (st : state (T := T)) (ev : event) : result (state * list reply) :=
  match ev with
  | Command e u parv => m_watch malloc e st u u true parv
  | New u => Ok (new_user st u, [])
  | Exit time u p => exit_user st time u p
  | Change time p raw => chequea_estado_watch st time true p raw
  end.

Fixpoint run (st : state) (evs : list event) : result (state * list reply) :=
  match evs with
  | [] => Ok (st, [])
  | ev :: evs =>
      '(st, out) ← step st ev;
      '(st, out') ← run st evs;
      Ok (st, out ++ out')
  end.

End histories.

(** * Words: what strtoken() iterates over *)

Fixpoint split_at (fs s : cstring) : list cstring :=
  match s with
  | [] => [[]]
  | c :: s =>
      if among fs c then [] :: split_at fs s
      else match split_at fs s with w :: ws => (c :: w) :: ws | [] => [[c]] end
  end.

(** The longest pieces without separators *)
Definition words (fs s : cstring) : list cstring := filter (fun w => w <> []) (split_at fs s).

Lemma words_skip fs pos : words fs (skip_separators fs pos) = words fs pos.
Proof.
  induction pos as [|c pos IH]; [done|]. simpl. destruct (among fs c) eqn:E; [|done].
  unfold words. simpl. rewrite E. by rewrite filter_cons_False by (intros H; by apply H).
Qed.

Lemma skip_separators_head fs pos c r : skip_separators fs pos = c :: r -> among fs c = false.
Proof. induction pos as [|d pos IH]; [done|]. simpl. destruct (among fs d) eqn:E; [done|]. by intros [= <- _]. Qed.

Lemma skip_separators_length fs pos : (length (skip_separators fs pos) <= length pos)%nat.
Proof. induction pos as [|c pos IH]; [done|]. simpl. destruct (among fs c); simpl; lia. Qed.

Lemma skip_token_split fs pos t save :
  skip_token fs pos = (t, save) ->
  split_at fs pos = t :: match save with Some r => split_at fs r | None => [] end /\
  match save with Some r => (length t + length r < length pos)%nat | None => True end.
Proof.
  revert t save. induction pos as [|c pos IH]; intros t save; simpl; [by intros [= <- <-]|].
  destruct (among fs c) eqn:E.
  - intros [= <- <-]. simpl. split; [done|lia].
  - destruct (skip_token fs pos) as [t' save'] eqn:Es. intros [= <- <-].
    destruct (IH t' save' eq_refl) as [-> Hl]. split; [done|]. destruct save'; simpl; [lia|done].
Qed.

(** One call: nothing is left, or the first word, and the others are in the rest. *)
Lemma strtoken_spec fs pos :
  match strtoken (Some pos) fs with
  | None => words fs pos = []
  | Some (t, save) =>
      t <> [] /\ words fs pos = t :: match save with Some r => words fs r | None => [] end /\
      match save with Some r => (length r < length pos)%nat | None => pos <> [] end
  end.
Proof.
  unfold strtoken. destruct (skip_separators fs pos) as [|c r] eqn:Es.
  - by rewrite <- words_skip, Es.
  - destruct (skip_token fs (c :: r)) as [t save] eqn:Et.
    assert (Hc := skip_separators_head _ _ _ _ Es).
    assert (Ht : t <> []).
    { simpl in Et. rewrite Hc in Et. destruct (skip_token fs r). by injection Et as <- _. }
    assert (Hl := skip_separators_length fs pos). rewrite Es in Hl. simpl in Hl.
    destruct (skip_token_split _ _ _ _ Et) as [Hs Hr]. split_and!; [done|..].
    + rewrite <- words_skip, Es. unfold words. rewrite Hs, filter_cons_True by done. by destruct save.
    + destruct save; [simpl in Hr; lia|]. intros ->. simpl in Hl. lia.
Qed.

Lemma tokens_loop_words fuel fs (pos : cstring) :
  (length pos < fuel)%nat -> tokens_loop fuel fs (Some pos) = Ok (words fs pos).
Proof.
  revert pos. induction fuel as [|fuel IH]; intros pos Hf; [lia|]. cbn [tokens_loop].
  assert (Hs := strtoken_spec fs pos). destruct (strtoken (Some pos) fs) as [[t save]|]; [|by rewrite Hs].
  destruct Hs as (_&->&Hl). destruct save as [r|].
  - rewrite IH by lia. done.
  - destruct fuel; [|done]. destruct pos; [done|]. simpl in Hf. lia.
Qed.

Lemma tokens_ok fs text : tokens fs text = Ok (words fs text).
Proof. apply tokens_loop_words. lia. Qed.

Lemma split_at_elem fs s w : w ∈ split_at fs s -> Forall (fun c => among fs c = false /\ c ∈ s) w.
Proof.
  revert w. induction s as [|c s IH]; intros w; simpl; [by intros ->%list_elem_of_singleton|].
  assert (W : forall w, Forall (fun d => among fs d = false /\ d ∈ s) w ->
    Forall (fun d => among fs d = false /\ d ∈ c :: s) w).
  { intros w' H. eapply Forall_impl; [exact H|]. intros d [??]. split; [done|by right]. }
  destruct (among fs c) eqn:E.
  - intros [->|H]%elem_of_cons; [done|]. by apply W, IH.
  - destruct (split_at fs s) as [|v ws].
    + intros ->%list_elem_of_singleton. constructor; [|done]. split; [done|left].
    + intros [->|H]%elem_of_cons; [|apply W, IH; by right].
      constructor; [split; [done|left]|]. apply W, IH. left.
Qed.

(** * Facts about nicks *)

(** The nicks that blocks carry *)
Definition nick_ok (n : cstring) : Prop :=
  name_ok n /\ (length n <= NICKLEN)%nat /\ Forall (fun c => among (str " ,*.@") c = false) n.

#[export] Instance nick_ok_dec n : Decision (nick_ok n).
Proof. unfold nick_ok. apply _. Defined.

Lemma words_elem fs s w :
  w ∈ words fs s -> w <> [] /\ Forall (fun c => among fs c = false /\ c ∈ s) w.
Proof. intros [Hn Hw]%list_elem_of_filter. split; [done|by apply split_at_elem]. Qed.

Lemma among_app fs gs c : among (fs ++ gs) c = among fs c || among gs c.
Proof. unfold among. rewrite <- bool_decide_or. apply bool_decide_ext, elem_of_app. Qed.

Lemma existsb_false {A} (f : A -> bool) l : existsb f l = false <-> Forall (fun x => f x = false) l.
Proof.
  induction l as [|x l IH]; [done|]. simpl. rewrite orb_false_iff, IH. split.
  - intros []. by constructor.
  - by intros [? ?]%Forall_cons.
Qed.

Lemma watched_nick_ok nl (s : cstring) n :
  is_cstr s -> Forall (fun c => among (str ", ") c = false) s -> (nl <= NICKLEN)%nat ->
  watched_nick nl s = Some n -> nick_ok n.
Proof.
  intros Hs Hf Hn. unfold watched_nick.
  set (t := match strtoken (Some s) (str "!") with Some (t, _) => t | None => s end).
  assert (Ht : Forall (fun c => c ∈ s) t).
  { unfold t. assert (H := strtoken_spec (str "!") s). destruct (strtoken (Some s) (str "!")) as [[v sv]|].
    - destruct H as (_&Hw&_).
      destruct (words_elem (str "!") s v) as [_ Hv]; [rewrite Hw; left|].
      eapply Forall_impl; [exact Hv|]. by intros c [_ ?].
    - by apply Forall_forall. }
  clearbody t. destruct (existsb _ t) eqn:E; [done|]. apply existsb_false in E.
  intros H. assert (Hn' : n = take nl t /\ n <> []) by (destruct (take nl t); [done|by injection H as <-]).
  destruct Hn' as [-> Hne]. rewrite Forall_forall in Ht, E, Hf. 
  unfold is_cstr in Hs. rewrite Forall_forall in Hs.
  assert (Hsub : forall c, c ∈ take nl t -> c ∈ t) by (intros c Hc; by apply subseteq_take in Hc).
  split_and!; [split; [|done]| |].
  - apply Forall_forall. intros c Hc. apply Hs, Ht, Hsub, Hc.
  - rewrite length_take. lia.
  - apply Forall_forall. intros c Hc.
    change (str " ,*.@") with (str " ," ++ str "*.@"). rewrite among_app. apply orb_false_iff.
    split; [|by apply E, Hsub]. assert (Hw := Hf c (Ht c (Hsub c Hc))). revert Hw. clear.
    unfold among. intros H%bool_decide_eq_false. apply bool_decide_eq_false. intros Hc. apply H.
    revert Hc. cbn [str list_ascii_of_string]. rewrite !elem_of_cons. naive_solver.
Qed.

(** * The invariant *)

(** The nick of a block, without regard to case *)
Definition key (M : gmap nat aWatch) (w : nat) : cstring :=
  match M !! w with Some wp => map toLower (nick wp) | None => [] end.

Section invariant.
Context {T : Type} `{NT : NameTable T}.

(** Table, blocks and users agree.  The block [e], if any, may be without
    clients. *)
Record Book (e : option nat) (t : T) (M : gmap nat aWatch) (U : gmap nat aUser) : Prop := {
  b_table : nt_rep t (nick <$> M);
  b_nick w wp : M !! w = Some wp -> nick_ok (nick wp);
  b_one w w' wp wp' :
    M !! w = Some wp -> M !! w' = Some wp' -> case_equiv (nick wp) (nick wp') -> w = w';
  b_nodup w wp : M !! w = Some wp -> NoDup (watch wp);
  b_used w wp : M !! w = Some wp -> e <> Some w -> watch wp <> [];
  b_mutual w wp u us :
    M !! w = Some wp -> U !! u = Some us -> u ∈ watch wp <-> w ∈ uwatch us;
  b_users w wp u : M !! w = Some wp -> u ∈ watch wp -> is_Some (U !! u);
  b_blocks u us w : U !! u = Some us -> w ∈ uwatch us -> is_Some (M !! w);
  b_unodup u us : U !! u = Some us -> NoDup (uwatch us);
  b_count u us : U !! u = Some us ->
    cwatch us = Z.of_nat (length (uwatch us)) /\ cwatch us <= MAXWATCH }.

Lemma Book_empty : Book None nt_empty ∅ ∅.
Proof.
  split; try (intros *; rewrite lookup_empty; done).
  rewrite fmap_empty. apply nt_empty_spec.
Qed.

(** A weaker exception *)
Lemma Book_weaken e t M U : Book None t M U -> Book e t M U.
Proof. intros []. split; try done. intros w wp Hw _. by apply (b_used0 w wp). Qed.

Lemma Book_close w wp t M U : Book (Some w) t M U -> M !! w = Some wp -> watch wp <> [] -> Book None t M U.
Proof.
  intros [] Hw Hne. split; try done. intros v vp Hv _.
  destruct (decide (v = w)) as [->|]; [by simplify_eq|]. apply (b_used0 v vp Hv). congruence.
Qed.

Lemma Book_key_inj e t M U w w' :
  Book e t M U -> is_Some (M !! w) -> is_Some (M !! w') -> key M w = key M w' -> w = w'.
Proof.
  intros B [wp Hw] [wp' Hw']. unfold key. rewrite Hw, Hw'. by apply (b_one _ _ _ _ B).
Qed.

(** The changes: a new block, a new time, a pair of links, and a block less *)
Lemma Book_make t M U w n lt :
  Book None t M U -> M !! w = None -> nick_ok n -> (forall v, is_Some (M !! v) -> key M v <> map toLower n) ->
  exists t', nt_add t w n = Ok t' /\ Book (Some w) t' (<[w := mkWatch n lt []]> M) U.
Proof.
  intros B Hw Hn Hk. destruct B.
  destruct (nt_add_spec t (nick <$> M) w n) as (t'&Ht&Hr); [done|by rewrite lookup_fmap, Hw|by apply Hn|].
  exists t'. split; [done|].
  assert (K : forall v vp, M !! v = Some vp -> v <> w) by (intros v vp Hv ->; congruence).
  split.
  - by rewrite fmap_insert.
  - intros v vp [[<- <-]|[? ?]]%lookup_insert_Some; [done|by eapply b_nick0].
  - intros v v' vp vp' [[<- <-]|[? Hv]]%lookup_insert_Some [[<- <-]|[? Hv']]%lookup_insert_Some; simpl; try done.
    + intros E. destruct (Hk v'); [by exists vp'|]. unfold key. by rewrite Hv'.
    + intros E. destruct (Hk v); [by exists vp|]. unfold key. by rewrite Hv.
    + by apply (b_one0 v v' vp vp').
  - intros v vp [[<- <-]|[? ?]]%lookup_insert_Some; [constructor|by eapply b_nodup0].
  - intros v vp [[<- <-]|[? Hv]]%lookup_insert_Some Hne; [done|by apply (b_used0 v vp Hv)].
  - intros v vp u us [[<- <-]|[? Hv]]%lookup_insert_Some Hu; [|by apply (b_mutual0 v vp u us)]. simpl.
    split; [by intros ?%not_elem_of_nil|]. intros Hin. destruct (b_blocks0 u us w Hu Hin) as [? ?]. congruence.
  - intros v vp u [[<- <-]|[? Hv]]%lookup_insert_Some Hin; [by apply not_elem_of_nil in Hin|by apply (b_users0 v vp)].
  - intros u us v Hu Hin. apply lookup_insert_is_Some'. right. by apply (b_blocks0 u us).
  - done.
  - done.
Qed.

(** Only the time of a block changes. *)
Lemma Book_time e t M U w wp lt :
  Book e t M U -> M !! w = Some wp -> Book e t (<[w := set_lasttime lt wp]> M) U.
Proof.
  intros [] Hw.
  assert (L : forall v vp, <[w := set_lasttime lt wp]> M !! v = Some vp ->
    exists vp', M !! v = Some vp' /\ nick vp' = nick vp /\ watch vp' = watch vp).
  { intros v vp [[<- <-]|[? ?]]%lookup_insert_Some; eauto. }
  split; try done.
  - by rewrite fmap_insert, insert_id by (by rewrite lookup_fmap, Hw).
  - intros v vp (vp'&Hv&<-&_)%L. by eapply b_nick0.
  - intros v v' vp vp' (x&Hv&<-&_)%L (x'&Hv'&<-&_)%L. by apply (b_one0 v v' x x').
  - intros v vp (vp'&Hv&_&<-)%L. by eapply b_nodup0.
  - intros v vp (vp'&Hv&_&<-)%L. by eapply b_used0.
  - intros v vp u us (vp'&Hv&_&<-)%L. by apply b_mutual0.
  - intros v vp u (vp'&Hv&_&<-)%L. by apply (b_users0 v vp' u).
  - intros u us v Hu Hin. apply lookup_insert_is_Some'. right. by apply (b_blocks0 u us).
Qed.

(** The links between [w] and [u] change on both sides. *)
Lemma Book_links e e' t M U w wp u us l l' c :
  Book e t M U -> M !! w = Some wp -> U !! u = Some us ->
  NoDup l -> NoDup l' -> (e' <> Some w -> l <> []) -> (e = e' \/ e = Some w \/ e = None) ->
  c = Z.of_nat (length l') /\ c <= MAXWATCH -> (u ∈ l <-> w ∈ l') ->
  (forall x, x <> u -> x ∈ l <-> x ∈ watch wp) -> (forall x, x <> w -> x ∈ l' <-> x ∈ uwatch us) ->
  Book e' t (<[w := set_watch l wp]> M) (<[u := mkUser l' c]> U).
Proof.
  intros [] Hw Hu Nl Nl' He Ee Hc Huw Hl Hl'. split.
  - by rewrite fmap_insert, insert_id by (by rewrite lookup_fmap, Hw).
  - intros v vp [[<- <-]|[? ?]]%lookup_insert_Some; simpl; by eapply b_nick0.
  - intros v v' vp vp' [[<- <-]|[? Hv]]%lookup_insert_Some [[<- <-]|[? Hv']]%lookup_insert_Some; simpl; try done;
      by eapply b_one0.
  - intros v vp [[<- <-]|[? ?]]%lookup_insert_Some; [done|by eapply b_nodup0].
  - intros v vp [[<- <-]|[? Hv]]%lookup_insert_Some Hne; [by apply He|]. apply (b_used0 v vp Hv).
    destruct Ee as [E|[E|E]]; congruence.
  - intros v vp x xs [[<- <-]|[? Hv]]%lookup_insert_Some [[<- <-]|[? Hx]]%lookup_insert_Some; simpl.
    + done.
    + rewrite Hl by done. by apply b_mutual0.
    + rewrite Hl' by done. by apply b_mutual0.
    + by apply b_mutual0.
  - intros v vp x Hv Hin. apply lookup_insert_is_Some'. destruct (decide (u = x)) as [|Hne]; [by left|right].
    apply lookup_insert_Some in Hv as [[<- <-]|[? Hv]]; [|by apply (b_users0 v vp)].
    apply (b_users0 w wp); [done|]. apply Hl; [congruence|done].
  - intros x xs v Hx Hin. apply lookup_insert_is_Some'. destruct (decide (w = v)) as [|Hne]; [by left|right].
    apply lookup_insert_Some in Hx as [[<- <-]|[? Hx]]; [|by apply (b_blocks0 x xs)].
    apply (b_blocks0 u us); [done|]. apply Hl'; [congruence|done].
  - intros x xs [[<- <-]|[? ?]]%lookup_insert_Some; [done|by eapply b_unodup0].
  - intros x xs [[<- <-]|[? ?]]%lookup_insert_Some; [done|by eapply b_count0].
Qed.

Lemma Book_free t M U w wp :
  Book (Some w) t M U -> M !! w = Some wp -> watch wp = [] ->
  exists t', nt_del t w = Ok t' /\ Book None t' (delete w M) U.
Proof.
  intros [] Hw Hl.
  destruct (nt_del_spec t (nick <$> M) w (nick wp)) as (t'&Ht&Hr); [done|by rewrite lookup_fmap, Hw|].
  exists t'. split; [done|]. split; try done.
  - by rewrite fmap_delete.
  - intros v vp [? ?]%lookup_delete_Some. by eapply b_nick0.
  - intros v v' vp vp' [? Hv]%lookup_delete_Some [? Hv']%lookup_delete_Some. by eapply b_one0.
  - intros v vp [? ?]%lookup_delete_Some. by eapply b_nodup0.
  - intros v vp [? Hv]%lookup_delete_Some _. apply (b_used0 v vp Hv). congruence.
  - intros v vp u us [? Hv]%lookup_delete_Some. by apply b_mutual0.
  - intros v vp u [? Hv]%lookup_delete_Some. by eapply b_users0.
  - intros u us v Hu Hin. destruct (decide (v = w)) as [->|]; [|rewrite lookup_delete_ne by done; by eapply b_blocks0].
    apply (b_mutual0 w wp u us Hw Hu) in Hin. rewrite Hl in Hin. by apply not_elem_of_nil in Hin.
Qed.

(** A user appears, or goes with an empty list. *)
Lemma Book_new t M U u : Book None t M U -> U !! u = None -> Book None t M (<[u := mkUser [] 0]> U).
Proof.
  intros [] Hu. split; try done.
  - intros w wp x xs Hw [[<- <-]|[? Hx]]%lookup_insert_Some; [|by apply b_mutual0]. simpl.
    split; [|by intros ?%not_elem_of_nil]. intros Hin. destruct (b_users0 w wp u Hw Hin). congruence.
  - intros w wp x Hw Hin. apply lookup_insert_is_Some'. right. by apply (b_users0 w wp).
  - intros x xs w [[<- <-]|[? Hx]]%lookup_insert_Some; [by intros ?%not_elem_of_nil|by eapply b_blocks0].
  - intros x xs [[<- <-]|[? ?]]%lookup_insert_Some; [constructor|by eapply b_unodup0].
  - intros x xs [[<- <-]|[? ?]]%lookup_insert_Some; [done|by eapply b_count0].
Qed.

Lemma Book_drop t M U u us :
  Book None t M U -> U !! u = Some us -> uwatch us = [] -> Book None t M (delete u U).
Proof.
  intros [] Hu Hl. split; try done.
  - intros w wp x xs Hw [? Hx]%lookup_delete_Some. by apply b_mutual0.
  - intros w wp x Hw Hin. destruct (decide (x = u)) as [->|]; [|rewrite lookup_delete_ne by done; by eapply b_users0].
    apply (b_mutual0 w wp u us Hw Hu) in Hin. rewrite Hl in Hin. by apply not_elem_of_nil in Hin.
  - intros x xs w [? Hx]%lookup_delete_Some. by eapply b_blocks0.
  - intros x xs [? ?]%lookup_delete_Some. by eapply b_unodup0.
  - intros x xs [? ?]%lookup_delete_Some. by eapply b_count0.
Qed.

End invariant.

(** * What the lists promise

    For every user the nicks that it watches, the last one first, in lower case. *)

Definition watch_add (l : list cstring) (n : cstring) : list cstring :=
  if decide (n ∈ l) then l else n :: l.
Definition watch_remove (l : list cstring) (n : cstring) : list cstring := filter (fun m => m <> n) l.

Lemma watch_remove_absent l n : (n ∉ l) -> watch_remove l n = l.
Proof.
  unfold watch_remove. induction l as [|m l IH]; [done|]. intros [Hne Hn]%not_elem_of_cons.
  rewrite filter_cons_True by done. by rewrite IH.
Qed.

(** One argument of the command *)
Definition spec_token (nicklen : nat) (l : list cstring) (s : cstring) : list cstring :=
  if decide (chr s = "+"%char \/ chr s = "-"%char) then
    match watched_nick nicklen (adv s) with
    | None => l
    | Some n =>
        if decide (chr s = "+"%char) then
          if decide (MAXWATCH <= Z.of_nat (length l)) then l else watch_add l (map toLower n)
        else watch_remove l (map toLower n)
    end
  else if decide (chr s = "C"%char \/ chr s = "c"%char) then []
  else l.

Definition spec_command (nicklen : nat) (l : list cstring) (text : cstring) : list cstring :=
  fold_left (spec_token nicklen) (words (str ", ") text) l.

Definition absm (M : gmap nat aWatch) (U : gmap nat aUser) : gmap nat (list cstring) :=
  (fun us => map (key M) (uwatch us)) <$> U.

Section steps.
Context {T : Type} `{NT : NameTable T}.
Variable malloc : gmap nat aWatch -> nat.
Hypothesis malloc_fresh : forall M, M !! malloc M = None.

Definition Good (st : state (T := T)) : Prop := Book None (watchTable st) (watches st) (users st).
Definition abs (st : state (T := T)) : gmap nat (list cstring) := absm (watches st) (users st).

Lemma get_user_Ok (st : state (T := T)) u us : users st !! u = Some us -> get_user st u = Ok us.
Proof. unfold get_user. by intros ->. Qed.

Lemma absm_keys M M' U :
  (forall u us v, U !! u = Some us -> v ∈ uwatch us -> key M' v = key M v) -> absm M' U = absm M U.
Proof.
  intros H. apply map_fmap_ext. intros u us Hu. apply list_fmap_ext. intros i v Hv.
  apply (H u us v Hu). by eapply list_elem_of_lookup_2.
Qed.

Lemma absm_insert M U u us : absm M (<[u := us]> U) = <[u := map (key M) (uwatch us)]> (absm M U).
Proof. unfold absm. by rewrite fmap_insert. Qed.

Lemma absm_lookup M U u us : U !! u = Some us -> absm M U !! u = Some (map (key M) (uwatch us)).
Proof. intros Hu. unfold absm. by rewrite lookup_fmap, Hu. Qed.

Lemma key_same M w wp wp' v : M !! w = Some wp -> nick wp' = nick wp -> key (<[w := wp']> M) v = key M v.
Proof.
  intros Hw Hn. unfold key. destruct (decide (v = w)) as [->|]; [|by rewrite lookup_insert_ne].
  by rewrite lookup_insert_eq, Hw, Hn.
Qed.

Lemma FindWatch_spec e st n U :
  Book e (watchTable st) (watches st) U -> is_cstr n ->
  exists t o, FindWatch st n = Ok (set_table t st, o) /\ Book e t (watches st) U /\
    match o with
    | Some w => is_Some (watches st !! w) /\ key (watches st) w = map toLower n
    | None => forall v, is_Some (watches st !! v) -> key (watches st) v <> map toLower n
    end.
Proof.
  intros B Hn. destruct n as [|c n].
  - exists (watchTable st), None. split_and!; [by destruct st|done|].
    intros v [wp Hv]. unfold key. rewrite Hv. destruct (b_nick _ _ _ _ B v wp Hv) as [[_ Hne] _].
    by destruct (nick wp).
  - destruct (nt_find_spec (watchTable st) (nick <$> watches st) (c :: n)) as (t&o&Hf&Hr&Ho);
      [apply B|by split|].
    exists t, o. split_and!.
    + unfold FindWatch. by rewrite Hf.
    + destruct B. by split.
    + destruct o as [w|].
      * destruct Ho as (n'&Hw&He). rewrite lookup_fmap in Hw. apply fmap_Some in Hw as (wp&Hw&->).
        split; [by exists wp|]. unfold key. by rewrite Hw.
      * intros v [wp Hv]. unfold key. rewrite Hv. intros E. apply (Ho v (nick wp)); [|by unfold case_equiv].
        by rewrite lookup_fmap, Hv.
Qed.

Lemma mem_keys e t M U u us w :
  Book e t M U -> U !! u = Some us -> is_Some (M !! w) ->
  key M w ∈ map (key M) (uwatch us) <-> w ∈ uwatch us.
Proof.
  intros B Hu Hw. split.
  - intros (v&E&Hv)%list_elem_of_fmap. assert (w = v) as ->; [|done].
    eapply (Book_key_inj _ _ _ _ _ _ B); [done|by apply (b_blocks _ _ _ _ B u us)|done].
  - intros Hin. by apply list_elem_of_fmap_2.
Qed.

Lemma link_watch_spec st u w wp us :
  Book (Some w) (watchTable st) (watches st) (users st) -> watches st !! w = Some wp ->
  users st !! u = Some us -> cwatch us < MAXWATCH ->
  exists st', link_watch st u w = Ok st' /\ Good st' /\
    abs st' = <[u := watch_add (map (key (watches st)) (uwatch us)) (key (watches st) w)]> (abs st).
Proof.
  intros B Hw Hu Hc. unfold link_watch, get_watch. rewrite Hw. cbn [of_option mbind result_bind].
  assert (Hm := b_mutual _ _ _ _ B w wp u us Hw Hu).
  assert (Hk := mem_keys _ _ _ _ u us w B Hu ltac:(by exists wp)).
  unfold watch_add. destruct (decide (u ∈ watch wp)) as [Hin|Hn].
  - exists st. split_and!; [done|eapply Book_close; [done..|by intros E; rewrite E in Hin; apply not_elem_of_nil in Hin]|].
    rewrite decide_True by (by apply Hk, Hm). symmetry. apply insert_id. by apply absm_lookup.
  - unfold get_user. cbn [users put_watch]. rewrite Hu. cbn [of_option mbind result_bind].
    eexists. split; [reflexivity|].
    destruct (b_count _ _ _ _ B u us Hu) as [Hl _].
    split.
    + unfold Good. cbn [put_user put_watch watchTable watches users].
      apply (Book_links (Some w) None _ _ _ _ wp _ us); try done; try (by right; left).
      * constructor; [done|by eapply (b_nodup _ _ _ _ B)].
      * constructor; [by rewrite <- Hm|by eapply (b_unodup _ _ _ _ B)].
      * cbn [length]. lia.
      * split; intros _; left.
      * intros x Hx. rewrite elem_of_cons. naive_solver.
      * intros x Hx. rewrite elem_of_cons. naive_solver.
    + unfold abs. cbn [put_user put_watch watchTable watches users]. rewrite absm_insert. cbn [uwatch].
      rewrite decide_False by (by rewrite Hk, <- Hm).
      rewrite (absm_keys (watches st)) by (intros; by apply (key_same _ _ wp)).
      f_equal. cbn [map]. f_equal; [by apply (key_same _ _ wp)|].
      apply list_fmap_ext. intros. by apply (key_same _ _ wp).
Qed.

Lemma agrega_spec st u us n time :
  Good st -> users st !! u = Some us -> nick_ok n -> cwatch us < MAXWATCH ->
  exists st', agrega_nick_watch malloc st time u n = Ok st' /\ Good st' /\
    abs st' = <[u := watch_add (map (key (watches st)) (uwatch us)) (map toLower n)]> (abs st).
Proof.
  intros B Hu Hn Hc. unfold agrega_nick_watch.
  destruct (FindWatch_spec None st n (users st) B) as (t&o&->&Bt&Ho); [apply Hn|].
  cbn [mbind result_bind]. destruct o as [w|].
  - destruct Ho as [[wp Hw] <-]. cbn [mbind result_bind].
    apply (link_watch_spec (set_table t st) u w wp us); try done. by apply Book_weaken.
  - set (w := malloc (watches st)).
    destruct (Book_make t (watches st) (users st) w n time Bt (malloc_fresh _) Hn Ho) as (t'&Ha&B').
    assert (Hmk : make_watch malloc (set_table t st) n =
      Ok (set_table t' (put_watch w (mkWatch n 0 []) (set_table t st)), Some w)).
    { unfold make_watch. destruct n; [by destruct Hn as [[_ ?] _]|]. cbn [watches watchTable set_table].
      fold w. by rewrite Ha. }
    rewrite Hmk. cbn [mbind result_bind]. unfold get_watch at 1. cbn [watches set_table put_watch].
    rewrite lookup_insert_eq. cbn [of_option mbind result_bind].
    set (st1 := put_watch w _ _).
    assert (E1 : st1 = mkState t' (<[w := mkWatch n time []]> (watches st)) (users st)).
    { unfold st1, put_watch, set_table, set_lasttime. cbn. by rewrite insert_insert_eq. }
    rewrite E1.
    destruct (link_watch_spec (mkState t' (<[w := mkWatch n time []]> (watches st)) (users st)) u w
      (mkWatch n time []) us) as (st'&->&G'&A'); cbn [watches users watchTable]; try done.
    { apply lookup_insert_eq. }
    exists st'. split_and!; [done..|]. rewrite A'. unfold abs. cbn [watches users].
    assert (K : forall x xs v, users st !! x = Some xs -> v ∈ uwatch xs ->
      key (<[w := mkWatch n time []]> (watches st)) v = key (watches st) v).
    { intros x xs v Hx Hv. destruct (b_blocks _ _ _ _ B x xs v Hx Hv) as [vp Hvp].
      unfold key. rewrite lookup_insert_ne; [done|]. intros E. unfold w in E. rewrite <- E, malloc_fresh in Hvp. done. }
    rewrite (absm_keys (watches st)) by done. f_equal. f_equal.
    + apply list_fmap_ext. intros i v Hv. apply (K u us); [done|]. by eapply list_elem_of_lookup_2.
    + unfold key. by rewrite lookup_insert_eq.
Qed.

Lemma map_unlink (f : nat -> cstring) w l :
  NoDup l -> (forall v, v ∈ l -> f v = f w -> v = w) ->
  map f (unlink id w l) = watch_remove (map f l) (f w).
Proof.
  unfold watch_remove. induction l as [|v l IH]; [done|]. intros [Hv Hnd]%NoDup_cons Hinj. simpl. unfold id at 1.
  assert (Hl : forall x, x ∈ l -> f x = f w -> x = w) by (intros x Hx; apply Hinj; by right).
  specialize (IH Hnd Hl). destruct (decide (v = w)) as [->|Hne].
  - rewrite filter_cons_False by (by intros H). rewrite <- IH. by rewrite unlink_absent.
  - rewrite filter_cons_True by (intros E; apply Hne, Hinj; [left|done]). simpl. by f_equal.
Qed.

(** Both links of a pair go. *)
Lemma Book_unlink t M U w wp u us :
  Book None t M U -> M !! w = Some wp -> U !! u = Some us -> w ∈ uwatch us ->
  Book (Some w) t (<[w := set_watch (unlink id u (watch wp)) wp]> M)
    (<[u := mkUser (unlink id w (uwatch us)) (cwatch us - 1)]> U).
Proof.
  intros B Hw Hu Hin. assert (Hm := proj2 (b_mutual _ _ _ _ B w wp u us Hw Hu) Hin).
  assert (N := b_nodup _ _ _ _ B w wp Hw). assert (N' := b_unodup _ _ _ _ B u us Hu).
  assert (E : forall p q (l : list nat), NoDup l -> q ∈ unlink id p l <-> q ∈ l /\ q <> p).
  { intros p q l Hl. assert (H := unlink_elem id p q l). rewrite !list_fmap_id in H. by apply H. }
  assert (ND : forall p (l : list nat), NoDup l -> NoDup (unlink id p l)).
  { intros p l Hl. assert (H := unlink_NoDup id p l). rewrite !list_fmap_id in H. by apply H. }
  apply (Book_links None (Some w) _ _ _ _ wp _ us); try done; try (by right; right).
  - by apply ND.
  - by apply ND.
  - destruct (b_count _ _ _ _ B u us Hu) as [Hc Hl].
    assert (H := unlink_length id w (uwatch us)). rewrite !list_fmap_id in H. specialize (H N' Hin). lia.
  - rewrite !E by done. naive_solver.
  - intros x Hx. rewrite E by done. naive_solver.
  - intros x Hx. rewrite E by done. naive_solver.
Qed.

Lemma free_if_empty_spec st w wp U :
  Book (Some w) (watchTable st) (watches st) U -> watches st !! w = Some wp ->
  exists t M, free_if_empty st w = Ok (mkState t M (users st)) /\ Book None t M U /\
    (forall v, is_Some (M !! v) -> key M v = key (watches st) v).
Proof.
  intros B Hw. unfold free_if_empty, get_watch. rewrite Hw. cbn [of_option mbind result_bind].
  destruct (decide (watch wp = [])) as [He|Hne].
  - destruct (Book_free _ _ _ w wp B Hw He) as (t&Ht&B').
    exists t, (delete w (watches st)). unfold free_watch. rewrite Ht. split_and!; [done..|].
    intros v [vp Hv]. assert (Hv' := Hv). apply lookup_delete_Some in Hv' as [_ Hv']. unfold key. by rewrite Hv, Hv'.
  - exists (watchTable st), (watches st). destruct st. split_and!; [done| |done]. by eapply Book_close.
Qed.

Lemma borra_spec st u us n :
  Good st -> users st !! u = Some us -> is_cstr n ->
  exists st', borra_nick_watch st u n = Ok (st', []) /\ Good st' /\
    abs st' = <[u := watch_remove (map (key (watches st)) (uwatch us)) (map toLower n)]> (abs st).
Proof.
  intros B Hu Hn. unfold borra_nick_watch.
  destruct (FindWatch_spec None st n (users st) B Hn) as (t&o&->&Bt&Ho). cbn [mbind result_bind].
  assert (Hsame : (forall v, v ∈ uwatch us -> key (watches st) v <> map toLower n) ->
    abs (set_table t st) = <[u := watch_remove (map (key (watches st)) (uwatch us)) (map toLower n)]> (abs st)).
  { intros H. symmetry. apply insert_id. unfold abs. rewrite (absm_lookup _ _ u us Hu). f_equal. symmetry.
    apply watch_remove_absent. intros (v&E&Hv)%list_elem_of_fmap. by apply (H v). }
  destruct o as [w|].
  2: { exists (set_table t st). split_and!; [done..|]. apply Hsame. intros v Hv. apply Ho.
       by apply (b_blocks _ _ _ _ B u us). }
  destruct Ho as [[wp Hw] Hkey]. unfold get_watch at 1. cbn [watches set_table]. rewrite Hw.
  cbn [of_option mbind result_bind]. assert (Hm := b_mutual _ _ _ _ B w wp u us Hw Hu).
  destruct (decide (u ∈ watch wp)) as [Hin|Hnin].
  - unfold off_watch, get_watch at 1. cbn [watches set_table]. rewrite Hw. cbn [of_option mbind result_bind].
    rewrite (get_user_Ok _ u us) by done. cbn [mbind result_bind].
    assert (B' := Book_unlink t _ _ w wp u us Bt Hw Hu (proj1 Hm Hin)).
    destruct (free_if_empty_spec (put_user u (mkUser (unlink id w (uwatch us)) (cwatch us))
      (put_watch w (set_watch (unlink id u (watch wp)) wp) (set_table t st))) w
      (set_watch (unlink id u (watch wp)) wp) _ B') as (t'&M'&->&B''&K).
    { cbn. apply lookup_insert_eq. }
    cbn [mbind result_bind].
    rewrite (get_user_Ok _ u (mkUser (unlink id w (uwatch us)) (cwatch us))) by (cbn; apply lookup_insert_eq).
    cbn [mbind result_bind uwatch cwatch].
    rewrite bool_decide_eq_true_2 by (by apply Hm). eexists. split; [reflexivity|].
    unfold Good, abs, put_user. cbn [watchTable watches users].
    rewrite insert_insert_eq. split; [done|]. rewrite absm_insert. cbn [uwatch].
    assert (K' : forall x xs v, <[u := mkUser (unlink id w (uwatch us)) (cwatch us - 1)]> (users st) !! x = Some xs ->
      v ∈ uwatch xs -> key M' v = key (watches st) v).
    { intros x xs v Hx Hv. rewrite K by (by eapply (b_blocks _ _ _ _ B'')).
      cbn [watches put_user put_watch set_table]. by apply (key_same _ _ wp). }
    assert (Hlist : map (key M') (unlink id w (uwatch us)) =
      watch_remove (map (key (watches st)) (uwatch us)) (map toLower n)).
    { rewrite <- Hkey, <- map_unlink.
      - apply list_fmap_ext. intros i v Hv. eapply K'; [apply lookup_insert_eq|]. by eapply list_elem_of_lookup_2.
      - by eapply (b_unodup _ _ _ _ B).
      - intros v Hv E. eapply (Book_key_inj _ _ _ _ _ _ B); [|by exists wp|done].
        by apply (b_blocks _ _ _ _ B u us). }
    rewrite Hlist. apply map_eq. intros x. destruct (decide (x = u)) as [->|Hx]; [by rewrite !lookup_insert_eq|].
    rewrite !lookup_insert_ne by done. cbn [users put_watch set_table]. unfold absm. rewrite !lookup_fmap.
    destruct (users st !! x) as [xs|] eqn:Ex; [|done]. simpl. f_equal. apply list_fmap_ext.
    intros i v Hv. apply (K' x xs); [by rewrite lookup_insert_ne|by eapply list_elem_of_lookup_2].
  - exists (set_table t st). split_and!; [done..|]. apply Hsame. intros v Hv E. apply Hnin, Hm.
    assert (v = w) as <-; [|done]. eapply (Book_key_inj _ _ _ _ _ _ B); [by apply (b_blocks _ _ _ _ B u us)|by exists wp|].
    congruence.
Qed.

(** The loop, when the user is seen with the rest of its chain *)
Lemma borra_loop_spec st u l U :
  Book None (watchTable st) (watches st) (<[u := mkUser l (Z.of_nat (length l))]> U) ->
  exists t M, borra_loop st u l = Ok (mkState t M (users st), []) /\
    Book None t M (<[u := mkUser [] 0]> U) /\ (forall v, is_Some (M !! v) -> key M v = key (watches st) v).
Proof.
  revert st. induction l as [|w l IH]; intros st B.
  { exists (watchTable st), (watches st). destruct st. by split_and!. }
  assert (Hu := lookup_insert_eq U u (mkUser (w :: l) (Z.of_nat (length (w :: l))))).
  destruct (b_blocks _ _ _ _ B u _ w Hu) as [wp Hw]; [left|].
  assert (Hin : u ∈ watch wp) by (apply (b_mutual _ _ _ _ B w wp u _ Hw Hu); left).
  assert (B' := Book_unlink _ _ _ w wp u _ B Hw Hu ltac:(left)).
  rewrite insert_insert_eq in B'. cbn [uwatch cwatch unlink] in B'. rewrite decide_True in B' by done.
  replace (Z.of_nat (length (w :: l)) - 1) with (Z.of_nat (length l)) in B' by (cbn [length]; lia).
  cbn [borra_loop]. unfold get_watch at 1. rewrite Hw. cbn [of_option mbind result_bind].
  rewrite bool_decide_eq_true_2 by done. unfold off_watch, get_watch at 1. rewrite Hw. cbn [of_option mbind result_bind].
  destruct (free_if_empty_spec (put_watch w (set_watch (unlink id u (watch wp)) wp) st) w
    (set_watch (unlink id u (watch wp)) wp) _ B') as (t&M&->&B''&K); [apply lookup_insert_eq|].
  cbn [mbind result_bind users put_watch]. destruct (IH (mkState t M (users st)) B'') as (t'&M'&->&G&K').
  cbn [mbind result_bind users]. exists t', M'. split_and!; [done..|]. intros v Hv. rewrite K' by done. cbn [watches].
  rewrite K; [by apply (key_same _ _ wp)|]. destruct Hv as [vp Hv].
  (* the blocks of the end are blocks of the start *)
  assert (HK := K' v ltac:(by exists vp)). unfold key in HK. cbn [watches] in HK. rewrite Hv in HK.
  destruct (M !! v); [by eexists|]. destruct (b_nick _ _ _ _ G v vp Hv) as [[_ Hne] _]. by destruct (nick vp).
Qed.

Lemma borra_lista_spec st u us :
  Good st -> users st !! u = Some us ->
  exists st' us', borra_lista_watch st u = Ok (st', []) /\ Good st' /\ abs st' = <[u := []]> (abs st) /\
    users st' !! u = Some us' /\ uwatch us' = [].
Proof.
  intros B Hu. unfold borra_lista_watch, get_user. rewrite Hu. cbn [of_option mbind result_bind].
  destruct (uwatch us) as [|w l] eqn:El.
  { exists st, us. split_and!; [done..| |done|done]. symmetry. apply insert_id. unfold abs.
    rewrite (absm_lookup _ _ u us Hu). by rewrite El. }
  destruct (b_count _ _ _ _ B u us Hu) as [Hc _]. rewrite El in Hc.
  destruct (borra_loop_spec st u (w :: l) (users st)) as (t&M&->&B'&K).
  { rewrite insert_id; [done|]. rewrite Hu. f_equal. destruct us. cbn [uwatch cwatch] in *. by subst. }
  cbn [mbind result_bind]. eexists _, (mkUser [] 0). split; [reflexivity|].
  unfold put_user. cbn [users watchTable watches]. split_and!; [done| |by apply lookup_insert_eq|done].
  unfold abs. cbn [users watches]. rewrite absm_insert. cbn [uwatch map]. apply map_eq. intros x.
  destruct (decide (x = u)) as [->|Hx]; [by rewrite !lookup_insert_eq|]. rewrite !lookup_insert_ne by done.
  unfold absm. rewrite !lookup_fmap. destruct (users st !! x) as [xs|] eqn:Ex; [|done]. simpl. f_equal.
  apply list_fmap_ext. intros i v Hv. apply K. eapply (b_blocks _ _ _ _ B' x xs); [by rewrite lookup_insert_ne|].
  by eapply list_elem_of_lookup_2.
Qed.

(** The readers *)
Lemma nicks_of_spec st u us :
  Good st -> users st !! u = Some us ->
  exists ns, nicks_of st (uwatch us) = Ok ns /\ Forall nick_ok ns /\
    map (map toLower) ns = map (key (watches st)) (uwatch us).
Proof.
  intros B Hu. assert (H : forall w, w ∈ uwatch us -> is_Some (watches st !! w)) by (intros w; by eapply (b_blocks _ _ _ _ B)).
  induction (uwatch us) as [|w l IH]; [by exists []|].
  destruct (H w) as [wp Hw]; [left|]. destruct IH as (ns&E&F&K); [intros v Hv; apply H; by right|].
  cbn [nicks_of]. unfold get_watch. rewrite Hw. cbn [of_option mbind result_bind]. rewrite E. cbn [mbind result_bind].
  exists (nick wp :: ns). split_and!; [done| |].
  - constructor; [by eapply (b_nick _ _ _ _ B)|done].
  - cbn [map]. rewrite K. f_equal. unfold key. by rewrite Hw.
Qed.

Lemma list_loop_Ok e st c s all u us :
  Good st -> users st !! u = Some us ->
  exists out, list_loop e st c s all (uwatch us) = Ok out /\ Ops_error ∉ out.
Proof.
  intros B Hu. assert (H : forall w, w ∈ uwatch us -> is_Some (watches st !! w)) by (intros w; by eapply (b_blocks _ _ _ _ B)).
  induction (uwatch us) as [|w l IH]; [exists []; split; [done|apply not_elem_of_nil]|].
  destruct (H w) as [wp Hw]; [left|]. destruct IH as (out&E&No); [intros v Hv; apply H; by right|].
  cbn [list_loop]. unfold get_watch. rewrite Hw. cbn [of_option mbind result_bind]. rewrite E. cbn [mbind result_bind].
  eexists. split; [reflexivity|]. rewrite elem_of_app. intros [Hl|Hl]; [|done]. revert Hl. unfold list_one.
  destruct (FindClient e (nick wp)); [by intros ?%list_elem_of_singleton|].
  destruct all; [by intros ?%list_elem_of_singleton|by intros ?%not_elem_of_nil].
Qed.

(** * The lines of the status: lemmas *)

Lemma split_at_nonempty fs s : split_at fs s <> [].
Proof. destruct s as [|c s]; [done|]. simpl. destruct (among fs c); [done|]. by destruct (split_at fs s). Qed.

Lemma split_at_app fs s c r :
  among fs c = true -> split_at fs (s ++ c :: r) = split_at fs s ++ split_at fs r.
Proof.
  intros Hc. induction s as [|d s IH]; simpl; [by rewrite Hc|]. rewrite IH.
  destruct (among fs d); [done|]. assert (H := split_at_nonempty fs s). by destruct (split_at fs s).
Qed.

Lemma split_at_one fs n : Forall (fun c => among fs c = false) n -> split_at fs n = [n].
Proof. induction 1 as [|c n Hc _ IH]; [done|]. simpl. by rewrite Hc, IH. Qed.

Lemma tokens_snoc fs s c n :
  among fs c = true -> n <> [] -> Forall (fun d => among fs d = false) n ->
  words fs (s ++ c :: n) = words fs s ++ [n].
Proof.
  intros Hc Hn Hf. unfold words. rewrite split_at_app, filter_app, (split_at_one fs n) by done.
  by rewrite filter_cons_True.
Qed.

Lemma nick_ok_spaces n : nick_ok n -> Forall (fun c => among (str " ") c = false) n.
Proof.
  intros (_&_&H). eapply Forall_impl; [exact H|]. intros c Hc.
  assert (E : among (str " " ++ str ",*.@") c = false) by exact Hc. rewrite among_app in E.
  apply orb_false_iff in E as [E _]. exact E.
Qed.

Lemma status_loop_spec base linea l :
  (base + NICKLEN + 1 <= MAXLEN)%nat -> (base + length linea <= MAXLEN)%nat -> Forall nick_ok l ->
  exists lines, status_loop base linea (base + length linea) l = Ok lines /\
    Forall (fun s => (base + length s <= MAXLEN)%nat) lines /\
    concat (map (words (str " ")) lines) = words (str " ") linea ++ l.
Proof.
  intros Hb. revert linea. induction l as [|n l IH]; intros linea Hl Hn.
  { exists [linea]. split_and!; [done|by constructor|]. simpl. by rewrite !app_nil_r. }
  apply Forall_cons_iff in Hn as [Hn Hn']. cbn [status_loop].
  assert (W : forall s : cstring, words (str " ") (s ++ " "%char :: n) = words (str " ") s ++ [n]).
  { intros s. apply tokens_snoc; [done|apply Hn|by apply nick_ok_spaces]. }
  assert (Len := proj1 (proj2 Hn)).
  assert (G : forall s : cstring, (base + length s + (length n + 1) <= MAXLEN)%nat ->
    exists rest, (next ← in_linea (s ++ " "%char :: n);
      status_loop base next (base + length s + (length n + 1)) l) = Ok rest /\
    in_linea (s ++ " "%char :: n) = Ok (s ++ " "%char :: n) /\
    status_loop base (s ++ " "%char :: n) (base + length s + (length n + 1)) l = Ok rest /\
    Forall (fun s => (base + length s <= MAXLEN)%nat) rest /\
    concat (map (words (str " ")) rest) = words (str " ") s ++ n :: l).
  { intros s Hs. destruct (IH (s ++ " "%char :: n)) as (rest&E&F&C); [rewrite length_app; simpl; lia|done|].
    rewrite length_app in E. cbn [length] in E.
    replace (base + (length s + S (length n)))%nat with (base + length s + (length n + 1))%nat in E by lia.
    assert (El : in_linea (s ++ " "%char :: n) = Ok (s ++ " "%char :: n)).
    { unfold in_linea. rewrite decide_True; [done|]. rewrite length_app. cbn [length].
      unfold MAXLEN in *. lia. }
    exists rest. rewrite El. cbn [mbind result_bind]. split_and!; try done. rewrite C, W, <- app_assoc. done. }
  case_bool_decide as Hf; cbv zeta.
  - destruct (G []) as (rest&_&E1&E2&F&C); [simpl; lia|]. cbn [app] in *. rewrite E1. cbn [mbind result_bind].
    cbn [length] in E2. rewrite Nat.add_0_r in E2. rewrite E2. cbn [mbind result_bind].
    exists (linea :: rest). split_and!; [done|by constructor|]. cbn [map concat]. by rewrite C.
  - destruct (G linea) as (rest&_&E1&E2&F&C); [lia|]. rewrite E1. cbn [mbind result_bind].
    rewrite E2. exists rest. by split_and!.
Qed.

Lemma status_lines_spec base l :
  (base + NICKLEN + 1 <= MAXLEN)%nat -> Forall nick_ok l ->
  exists lines, status_lines base l = Ok lines /\
    Forall (fun s => (base + length s <= MAXLEN)%nat) lines /\
    concat (map (words (str " ")) lines) = l.
Proof.
  intros Hb Hn. destruct l as [|n l]; [by exists []|]. apply Forall_cons_iff in Hn as [Hn Hn'].
  assert (Len := proj1 (proj2 Hn)). unfold status_lines, in_linea.
  rewrite decide_True by (unfold MAXLEN, NICKLEN in *; lia). cbn [mbind result_bind].
  destruct (status_loop_spec base n l) as (lines&E&F&C); [done|lia|done|].
  exists lines. split_and!; [done..|]. rewrite C. unfold words.
  rewrite split_at_one by (by apply nick_ok_spaces). rewrite filter_cons_True by (by apply Hn). done.
Qed.

(** * One argument, one command *)

(** What holds of the environment: the length of nicks may be set, up to the
    longest one; names of servers have at most HOSTLEN characters. *)
Definition HOSTLEN : nat := 63.
Definition env_ok (e : env) : Prop :=
  (nicklen e <= NICKLEN)%nat /\ (base e <= NICKLEN + HOSTLEN + 10)%nat.

#[local] Instance env_ok_dec e : Decision (env_ok e).
Proof. unfold env_ok. apply _. Defined.

Lemma muestra_no_error f u n r1 r2 : muestra_estado_watch f u n r1 r2 <> Ops_error.
Proof. unfold muestra_estado_watch. by destruct (f n). Qed.

Lemma watch_token_spec e st u us s :
  Good st -> env_ok e -> users st !! u = Some us -> is_cstr s ->
  Forall (fun c => among (str ", ") c = false) s ->
  exists st' out, watch_token malloc e st u u s = Ok (st', out) /\ Good st' /\ (Ops_error ∉ out) /\
    abs st' = <[u := spec_token (nicklen e) (map (key (watches st)) (uwatch us)) s]> (abs st).
Proof.
  intros B [Hnl Hba] Hu Hs Hf. unfold watch_token, spec_token.
  assert (Hid : abs st = <[u := map (key (watches st)) (uwatch us)]> (abs st))
    by (symmetry; apply insert_id; by apply absm_lookup).
  assert (Hstay : forall out : list reply, (Ops_error ∉ out) -> exists st' out', Ok (st, out) = Ok (st', out') /\ Good st' /\
    (Ops_error ∉ out') /\ abs st' = <[u := map (key (watches st)) (uwatch us)]> (abs st)).
  { intros out Ho. exists st, out. by split_and!. }
  destruct (decide (chr s = "+"%char \/ chr s = "-"%char)) as [_|_];
    [|destruct (decide (chr s = "C"%char \/ chr s = "c"%char)) as [_|_];
      [|destruct (decide (chr s = "S"%char \/ chr s = "s"%char)) as [_|_];
        [|destruct (decide (chr s = "L"%char \/ chr s = "l"%char)) as [_|_]]]].
  - assert (Hn : forall n, watched_nick (nicklen e) (adv s) = Some n -> nick_ok n).
    { intros n. apply watched_nick_ok; [by apply is_cstr_adv| |done]. by destruct Hf. }
    destruct (watched_nick (nicklen e) (adv s)) as [n|]; [|by apply Hstay, not_elem_of_nil].
    specialize (Hn n eq_refl). unfold watch_nick. destruct (b_count _ _ _ _ B u us Hu) as [Hc _].
    rewrite length_map. destruct (decide (chr s = "+"%char)) as [_|_].
    + rewrite (get_user_Ok _ u us Hu). cbn [mbind result_bind]. rewrite <- Hc.
      destruct (decide (MAXWATCH <= cwatch us)) as [_|Hlt].
      { apply Hstay. by intros ?%list_elem_of_singleton. }
      destruct (agrega_spec st u us n (now e)) as (st'&->&G&A); [done..|lia|]. cbn [mbind result_bind].
      eexists _, _. split_and!; [reflexivity|done| |done].
      intros H%list_elem_of_singleton. symmetry in H. by apply muestra_no_error in H.
    + destruct (borra_spec st u us n) as (st'&->&G&A); [done..|by apply Hn|]. cbn [mbind result_bind].
      eexists _, _. split_and!; [reflexivity|done| |done].
      intros H%list_elem_of_singleton. symmetry in H. by apply muestra_no_error in H.
  - destruct (borra_lista_spec st u us) as (st'&us'&->&G&A&_); [done..|].
    exists st', []. split_and!; [done..|apply not_elem_of_nil|done].
  - unfold watch_status. rewrite (get_user_Ok _ u us Hu). cbn [mbind result_bind].
    destruct (nicks_of_spec st u us B Hu) as (ns&->&Hns&_). cbn [mbind result_bind].
    destruct (status_lines_spec (base e) ns) as (lines&->&_); [unfold NICKLEN, HOSTLEN, MAXLEN in *; lia|done|].
    cbn [mbind result_bind]. apply Hstay. rewrite elem_of_cons, elem_of_app, list_elem_of_singleton.
    intros [?|[(?&?&?)%list_elem_of_fmap|?]]; done.
  - unfold watch_list. rewrite (get_user_Ok _ u us Hu). cbn [mbind result_bind].
    destruct (list_loop_Ok e st u u (bool_decide (chr s = "L"%char)) u us B Hu) as (out&->&Ho).
    cbn [mbind result_bind]. apply Hstay. rewrite elem_of_app, list_elem_of_singleton. by intros [?|?].
  - by apply Hstay, not_elem_of_nil.
Qed.

Lemma Good_user st u l : abs st !! u = Some l -> exists us, users st !! u = Some us /\ map (key (watches st)) (uwatch us) = l.
Proof. unfold abs, absm. rewrite lookup_fmap. intros (us&?&->)%fmap_Some. by exists us. Qed.

Lemma watch_tokens_spec e st u l ws :
  Good st -> env_ok e -> abs st !! u = Some l ->
  Forall (fun s => is_cstr s /\ Forall (fun c => among (str ", ") c = false) s) ws ->
  exists st' out, watch_tokens malloc e st u u ws = Ok (st', out) /\ Good st' /\ (Ops_error ∉ out) /\
    abs st' = <[u := fold_left (spec_token (nicklen e)) ws l]> (abs st).
Proof.
  intros B He. revert st l B. induction ws as [|s ws IH]; intros st l B Hl Hw.
  { exists st, []. split_and!; [done..|apply not_elem_of_nil|]. symmetry. by apply insert_id. }
  apply Forall_cons_iff in Hw as [[Hs Hf] Hw]. cbn [watch_tokens fold_left].
  destruct (Good_user st u l Hl) as (us&Hu&El).
  destruct (watch_token_spec e st u us s) as (st1&o1&->&G1&No1&A1); [done..|]. cbn [mbind result_bind].
  rewrite El in A1. destruct (IH st1 (spec_token (nicklen e) l s)) as (st2&o2&->&G2&No2&A2); [done| |done|].
  { rewrite A1. apply lookup_insert_eq. }
  cbn [mbind result_bind]. exists st2, (o1 ++ o2). split_and!; [done..| |].
  - rewrite elem_of_app. by intros [|].
  - by rewrite A2, A1, insert_insert_eq.
Qed.

Lemma m_watch_spec e st u l parv :
  Good st -> env_ok e -> abs st !! u = Some l -> is_cstr (default (str "l") parv) ->
  exists st' out, m_watch malloc e st u u true parv = Ok (st', out) /\ Good st' /\ (Ops_error ∉ out) /\
    abs st' = <[u := spec_command (nicklen e) l (default (str "l") parv)]> (abs st).
Proof.
  intros B He Hl Hc. unfold m_watch, spec_command. cbn [negb]. rewrite tokens_ok. cbn [mbind result_bind].
  apply watch_tokens_spec; [done..|]. apply Forall_forall. intros s Hs.
  destruct (words_elem _ _ _ Hs) as [_ Hw]. split.
  - eapply Forall_impl; [exact Hw|]. intros c [_ Hin]. unfold is_cstr in Hc. rewrite Forall_forall in Hc. by apply Hc.
  - eapply Forall_impl; [exact Hw|]. by intros c [? _].
Qed.

(** Who is told *)
Lemma chequea_spec st time p raw :
  Good st -> is_cstr (pname p) ->
  exists st' l, chequea_estado_watch st time true p raw =
      Ok (st', map (fun u => Status u raw (pname p) (pusername p) (phost p u) time) l) /\
    Good st' /\ abs st' = abs st /\ users st' = users st /\ NoDup l /\
    (forall u, u ∈ l <-> exists ns, abs st !! u = Some ns /\ map toLower (pname p) ∈ ns).
Proof.
  intros B Hp. unfold chequea_estado_watch. cbn [negb].
  destruct (FindWatch_spec None st (pname p) (users st) B Hp) as (t&o&->&Bt&Ho). cbn [mbind result_bind].
  destruct o as [w|].
  - destruct Ho as [[wp Hw] Hkey]. unfold get_watch. cbn [watches set_table]. rewrite Hw. cbn [of_option mbind result_bind].
    eexists _, (watch wp). split; [reflexivity|]. unfold Good, abs. cbn [watches users watchTable put_watch set_table].
    split_and!; [by apply Book_time| |done|by eapply (b_nodup _ _ _ _ B)|].
    { apply absm_keys. intros. by apply (key_same _ _ wp). }
    intros u. split.
    + intros Hin. destruct (b_users _ _ _ _ B w wp u Hw Hin) as [us Hu].
      exists (map (key (watches st)) (uwatch us)). split; [by apply absm_lookup|].
      rewrite <- Hkey. apply list_elem_of_fmap_2. by apply (b_mutual _ _ _ _ B w wp u us).
    + intros (ns&Hns&Hin). destruct (Good_user st u ns Hns) as (us&Hu&<-).
      apply (b_mutual _ _ _ _ B w wp u us Hw Hu). rewrite <- Hkey in Hin.
      apply (mem_keys _ _ _ _ u us w B Hu) in Hin; [done|by exists wp].
  - exists (set_table t st), []. split_and!; [done..|constructor|]. intros u. split; [by intros ?%not_elem_of_nil|].
    intros (ns&Hns&Hin). exfalso. destruct (Good_user st u ns Hns) as (us&Hu&<-).
    apply list_elem_of_fmap in Hin as (v&E&Hv). symmetry in E.
    by apply (Ho v (b_blocks _ _ _ _ B u us v Hu Hv)).
Qed.

End steps.

(** * Histories: the specification *)

Definition spec_step (S : gmap nat (list cstring)) (ev : event) : gmap nat (list cstring) :=
  match ev with
  | Command e u parv => alter (fun l => spec_command (nicklen e) l (default (str "l") parv)) u S
  | New u => <[u := []]> S
  | Exit _ u _ => delete u S
  | Change _ _ _ => S
  end.

(** Commands and departures are of users that are there, arguments and names are
    C strings. *)
Definition event_ok (S : gmap nat (list cstring)) (ev : event) : Prop :=
  match ev with
  | Command e u parv => is_Some (S !! u) /\ env_ok e /\ is_cstr (default (str "l") parv)
  | New u => S !! u = None
  | Exit _ u p => is_Some (S !! u) /\ is_cstr (pname p)
  | Change _ p _ => is_cstr (pname p)
  end.

Fixpoint events_ok (S : gmap nat (list cstring)) (evs : list event) : Prop :=
  match evs with
  | [] => True
  | ev :: evs => event_ok S ev /\ events_ok (spec_step S ev) evs
  end.

#[export] Instance watch_event_dec S ev : Decision (event_ok S ev).
Proof. destruct ev; simpl; apply _. Defined.
#[export] Instance watch_events_dec S evs : Decision (events_ok S evs).
Proof. revert S. induction evs as [|ev evs IH]; intros S; simpl; apply _. Defined.

Definition spec_run (evs : list event) : gmap nat (list cstring) := fold_left spec_step evs ∅.

Section histories_spec.
Context {T : Type} `{NT : NameTable T}.
Variable malloc : gmap nat aWatch -> nat.
Hypothesis malloc_fresh : forall M, M !! malloc M = None.

Lemma no_status_error (l : list nat) raw n us h t :
  Ops_error ∉ map (fun u => Status u raw n us (h u) t) l.
Proof. by intros (?&?&?)%list_elem_of_fmap. Qed.

Lemma exit_user_spec st time u p us :
  Good st -> users st !! u = Some us -> is_cstr (pname p) ->
  exists st' out, exit_user st time u p = Ok (st', out) /\ Good (T := T) st' /\ (Ops_error ∉ out) /\
    abs st' = delete u (abs st).
Proof.
  intros B Hu Hp. unfold exit_user.
  destruct (borra_lista_spec st u us B Hu) as (st1&us1&->&G1&A1&Hu1&El). cbn [mbind result_bind].
  destruct (chequea_spec st1 time p RPL_LOGOFF G1 Hp) as (st2&l&->&G2&A2&EU&_). cbn [mbind result_bind].
  eexists _, _. split_and!; [reflexivity| | |].
  - unfold Good. cbn [watchTable watches users]. rewrite EU. apply (Book_drop _ _ _ u us1); [|done..].
    unfold Good in G2. by rewrite EU in G2.
  - apply no_status_error.
  - unfold abs. cbn [watches users]. unfold absm. rewrite fmap_delete. fold (absm (watches st2) (users st2)).
    change (absm (watches st2) (users st2)) with (abs st2). by rewrite A2, A1, delete_insert_eq.
Qed.

Lemma watch_step_spec st ev :
  Good st -> event_ok (abs st) ev ->
  exists st' out, step malloc st ev = Ok (st', out) /\ Good (T := T) st' /\ (Ops_error ∉ out) /\
    abs st' = spec_step (abs st) ev.
Proof.
  intros B. destruct ev as [e u parv|u|time u p|time p raw]; cbn [event_ok step spec_step].
  - intros ([l Hl]&He&Hc).
    destruct (m_watch_spec malloc malloc_fresh e st u l parv B He Hl Hc) as (st'&out&->&G&No&A).
    exists st', out. split_and!; [done..|]. rewrite A. apply map_eq. intros x.
    destruct (decide (x = u)) as [->|Hx]; [by rewrite lookup_insert_eq, lookup_alter_eq, Hl|].
    by rewrite lookup_insert_ne, lookup_alter_ne.
  - intros Hn. exists (new_user st u), []. split_and!; [done| |apply not_elem_of_nil|].
    + apply Book_new; [done|]. unfold abs, absm in Hn. rewrite lookup_fmap in Hn. by apply fmap_None in Hn.
    + apply absm_insert.
  - intros ([l Hl]&Hp). destruct (Good_user st u l Hl) as (us&Hu&_). by apply (exit_user_spec _ _ _ _ us).
  - intros Hp. destruct (chequea_spec st time p raw B Hp) as (st'&l&->&G&A&_).
    eexists _, _. split_and!; [reflexivity|done|apply no_status_error|done].
Qed.

Lemma watch_run_spec st evs :
  Good st -> events_ok (abs st) evs ->
  exists st' out, run malloc st evs = Ok (st', out) /\ Good (T := T) st' /\ (Ops_error ∉ out) /\
    abs st' = fold_left spec_step evs (abs st).
Proof.
  revert st. induction evs as [|ev evs IH]; intros st B.
  { intros _. exists st, []. split_and!; [done..|apply not_elem_of_nil|done]. }
  intros [Hev Hevs]. cbn [run fold_left].
  destruct (watch_step_spec st ev B Hev) as (st1&o1&->&G1&No1&A1). cbn [mbind result_bind].
  destruct (IH st1 G1) as (st2&o2&->&G2&No2&A2); [by rewrite A1|]. cbn [mbind result_bind].
  exists st2, (o1 ++ o2). split_and!; [done..| |by rewrite A2, A1]. rewrite elem_of_app. by intros [|].
Qed.

Lemma Good_init : Good (T := T) init.
Proof. apply Book_empty. Qed.

Lemma abs_init : abs (T := T) init = ∅.
Proof. unfold abs, absm. apply fmap_empty. Qed.

Lemma run_init evs :
  events_ok ∅ evs ->
  exists st out, run malloc init evs = Ok (st, out) /\ Good (T := T) st /\ (Ops_error ∉ out) /\
    abs st = spec_run evs.
Proof.
  intros H. destruct (watch_run_spec init evs Good_init) as (st&out&E&G&No&A); [by rewrite abs_init|].
  exists st, out. split_and!; [done..|]. by rewrite A, abs_init.
Qed.

End histories_spec.

(** * Correctness *)

Lemma concat_words fs (s : list ascii) : concat (words fs s) = filter (fun c => among fs c = false) s.
Proof.
  assert (H : forall l : list cstring, concat (filter (fun w => w <> []) l) = concat l).
  { induction l as [|w l IH]; [done|]. destruct (decide (w = [])) as [->|Hw].
    - rewrite filter_cons_False by (by intros H). done.
    - rewrite filter_cons_True by done. cbn [concat]. by f_equal. }
  unfold words. rewrite H. clear H. induction s as [|c s IH]; [done|]. cbn [split_at].
  destruct (among fs c) eqn:E.
  - rewrite filter_cons_False by (by rewrite E). done.
  - rewrite filter_cons_True by done. rewrite <- IH. assert (N := split_at_nonempty fs s).
    by destruct (split_at fs s).
Qed.

(** C38. The loop over strtoken() ends, for every text and every set of separators:
    it goes over the longest pieces of the text without separators, in their
    order; none is empty, and together they are the text without its separators. *)
Theorem strtoken_words fs (text : list ascii) :
  tokens fs text = Ok (words fs text) /\
  Forall (fun w => w <> [] /\ Forall (fun c => among fs c = false) w) (words fs text) /\
  concat (words fs text) = filter (fun c => among fs c = false) text.
Proof.
  split_and!; [apply tokens_ok| |apply concat_words].
  apply Forall_forall. intros w Hw. destruct (words_elem _ _ _ Hw) as [Hn Hf]. split; [done|].
  eapply Forall_impl; [exact Hf|]. by intros c [? _].
Qed.

Section correctness.
Context {T : Type} `{NT : NameTable T}.
Variable malloc : gmap nat aWatch -> nat.
Hypothesis malloc_fresh : forall M, M !! malloc M = None.

(** C11. Whatever clients do, the shared blocks with their links implement one list
    of nicks per user: every command, arrival and departure ends without touching
    a freed block, and leaves the lists that the specification says.  The message
    about a missing link is never sent, the counter of a user is the length of
    its list, at most MAXWATCH, and no block is left that nobody watches. *)
Theorem watch_refines evs :
  events_ok ∅ evs ->
  exists (st : state (T := T)) out, run malloc init evs = Ok (st, out) /\ abs st = spec_run evs /\
    (Ops_error ∉ out) /\
    (forall u us, users st !! u = Some us ->
      cwatch us = Z.of_nat (length (uwatch us)) /\ cwatch us <= MAXWATCH) /\
    (forall w wp, watches st !! w = Some wp ->
      exists u ns, spec_run evs !! u = Some ns /\ map toLower (nick wp) ∈ ns).
Proof using All.
  intros H. destruct (run_init malloc malloc_fresh evs H) as (st&out&E&B&No&A).
  exists st, out. split_and!; [done..|by intros u us; apply (b_count _ _ _ _ B)|].
  intros w wp Hw. destruct (watch wp) as [|u l] eqn:El; [by destruct (b_used _ _ _ _ B w wp Hw)|].
  assert (Hin : u ∈ watch wp) by (rewrite El; left).
  destruct (b_users _ _ _ _ B w wp u Hw Hin) as [us Hu].
  exists u, (map (key (watches st)) (uwatch us)). rewrite <- A. split; [by apply absm_lookup|].
  assert (Hk : key (watches st) w = map toLower (nick wp)) by (unfold key; by rewrite Hw).
  rewrite <- Hk. apply list_elem_of_fmap_2. by apply (b_mutual _ _ _ _ B w wp u us).
Qed.

(** C17. When a client comes, goes or takes a nick, exactly the users who watch that
    nick are told, each of them once. *)
Theorem watch_notifies evs time p raw :
  events_ok ∅ evs -> is_cstr (pname p) ->
  exists (st : state (T := T)) out st' l, run malloc init evs = Ok (st, out) /\
    chequea_estado_watch st time true p raw =
      Ok (st', map (fun u => Status u raw (pname p) (pusername p) (phost p u) time) l) /\
    NoDup l /\
    (forall u, u ∈ l <-> exists ns, spec_run evs !! u = Some ns /\ map toLower (pname p) ∈ ns).
Proof using All.
  intros H Hp. destruct (run_init malloc malloc_fresh evs H) as (st&out&E&B&_&A).
  destruct (chequea_spec st time p raw B Hp) as (st'&l&E'&_&_&_&Hnd&Hl).
  exists st, out, st', l. by rewrite <- A.
Qed.

(** The answer to "WATCH S" fits: the buffer of a line is never overrun, every
    line with its prefix has at most MAXLEN characters, and the words of the
    lines are the nicks of the list, each one once and in order. *)
Theorem watch_status_fits evs e u ns :
  events_ok ∅ evs -> env_ok e -> spec_run evs !! u = Some ns ->
  exists (st : state (T := T)) out us lines, run malloc init evs = Ok (st, out) /\
    watch_status e st u "S"%char =
      Ok (Watch_stat u (cwatch us) :: map (Watch_list u) lines ++ [End_of_list u "S"%char]) /\
    cwatch us = Z.of_nat (length ns) /\
    Forall (fun s => (base e + length s <= MAXLEN)%nat) lines /\
    map (map toLower) (concat (map (words (str " ")) lines)) = ns.
Proof using All.
  intros H [Hnl Hb] Hns. destruct (run_init malloc malloc_fresh evs H) as (st&out&E&B&_&A).
  rewrite <- A in Hns. destruct (Good_user st u ns Hns) as (us&Hu&El).
  destruct (nicks_of_spec st u us B Hu) as (l&Hl&Hok&Hlow).
  destruct (status_lines_spec (base e) l) as (lines&Ls&F&C); [unfold NICKLEN, HOSTLEN, MAXLEN in *; lia|done|].
  exists st, out, us, lines. unfold watch_status. rewrite (get_user_Ok _ u us Hu). cbn [mbind result_bind].
  rewrite Hl. cbn [mbind result_bind]. rewrite Ls. split_and!; [done..| |done|by rewrite C, Hlow].
  rewrite <- El, length_map. by apply (b_count _ _ _ _ B u us).
Qed.

Lemma words_one fs w : w <> [] -> Forall (fun c => among fs c = false) w -> words fs w = [w].
Proof. intros Hw Hf. unfold words. rewrite split_at_one by done. by rewrite filter_cons_True. Qed.

(** A server that passes on the WATCH of one of its users makes this server
    follow a null pointer: the command uses the list of the link that the line
    came on, and a server has none. *)
Theorem watch_from_server e (st : state (T := T)) cptr sptr n nk :
  users st !! cptr = None -> Forall (fun c => among (str ", ") c = false) n ->
  watched_nick (nicklen e) n = Some nk ->
  m_watch malloc e st cptr sptr true (Some ("+"%char :: n)) = Ub /\
  m_watch malloc e st cptr sptr true (Some (str "C")) = Ub.
Proof.
  intros Hu Hn Hk. unfold m_watch. cbn [negb default from_option id]. split.
  - rewrite tokens_ok, words_one; [|done|by constructor]. cbn [mbind result_bind watch_tokens].
    unfold watch_token. cbn [chr hd adv tl]. rewrite decide_True by (by left). rewrite Hk.
    unfold watch_nick, get_user. rewrite decide_True by done. by rewrite Hu.
  - rewrite tokens_ok. change (words (str ", ") (str "C")) with [str "C"].
    cbn [mbind result_bind watch_tokens]. unfold watch_token, borra_lista_watch, get_user.
    cbn [chr str list_ascii_of_string hd]. rewrite decide_False by (by intros [|]).
    rewrite decide_True by (by left). by rewrite Hu.
Qed.

End correctness.

(** * A run *)

(** The blocks of an allocator that never gives a block again *)
Definition next_block (M : gmap nat aWatch) : nat := map_fold (fun k _ n => max (S k) n) O M.

Lemma next_block_fresh M : M !! next_block M = None.
Proof.
  assert (H : forall k, is_Some (M !! k) -> (k < next_block M)%nat).
  { unfold next_block. revert M. apply (map_fold_weak_ind (fun n (M : gmap nat aWatch) => forall k, is_Some (M !! k) -> (k < n)%nat)).
    - intros k. by rewrite lookup_empty, is_Some_alt.
    - intros i x M n Hi IH k Hk. apply lookup_insert_is_Some in Hk as [->|[Hne Hk]]; [lia|].
      specialize (IH k Hk). lia. }
  destruct (M !! next_block M) eqn:E; [|done]. assert (H' := H (next_block M) ltac:(by eexists)). lia.
Qed.

Definition nobody : env := mkEnv (fun _ => None) 100 30 24.
Definition pepe : person := mkPerson (str "PEPE") (str "pepe") (fun _ => str "host") 90.

Definition story : list event :=
  [New 1; New 2; Command nobody 1 (Some (str "+Pepe,+juan -ana +pepe"));
   Command nobody 2 (Some (str "+pEPE!x@y,+*.es s L"));
   Change 110 pepe RPL_LOGON; Command nobody 1 (Some (str "-JUAN")); Exit 120 2 pepe].

Example story_lists : spec_run (take 5 story) = {[1%nat := [str "juan"; str "pepe"]; 2%nat := [str "pepe"]]}.
Proof. apply (bool_decide_unpack _). vm_compute. exact I. Qed.

(** An argument that is nothing but the separator of nick and user is a nick. *)
Example bangs_are_a_nick : watched_nick 30 (str "!!") = Some (str "!!").
Proof. reflexivity. Qed.

Lemma story_ok : events_ok ∅ story.
Proof. apply (bool_decide_unpack _). vm_compute. exact I. Qed.

Lemma watch_refines_witness :
  events_ok ∅ story /\
  exists (st : state (T := table)) out, run next_block init story = Ok (st, out) /\ abs st = spec_run story /\
    (Ops_error ∉ out) /\
    (forall u us, users st !! u = Some us ->
      cwatch us = Z.of_nat (length (uwatch us)) /\ cwatch us <= MAXWATCH) /\
    (forall w wp, watches st !! w = Some wp ->
      exists u ns, spec_run story !! u = Some ns /\ map toLower (nick wp) ∈ ns).
Proof. split; [apply story_ok|]. apply (watch_refines next_block next_block_fresh), story_ok. Defined.

Lemma watch_notifies_witness :
  is_cstr (pname pepe) /\
  exists (st : state (T := table)) out st' l, run next_block init story = Ok (st, out) /\
    chequea_estado_watch st 130 true pepe RPL_LOGOFF =
      Ok (st', map (fun u => Status u RPL_LOGOFF (pname pepe) (pusername pepe) (phost pepe u) 130) l) /\
    NoDup l /\
    (forall u, u ∈ l <-> exists ns, spec_run story !! u = Some ns /\ map toLower (pname pepe) ∈ ns).
Proof.
  assert (H : is_cstr (pname pepe)) by (apply (bool_decide_unpack _); vm_compute; exact I).
  split; [exact H|]. apply (watch_notifies next_block next_block_fresh); [apply story_ok|exact H].
Defined.

Lemma watch_status_fits_witness :
  spec_run (take 5 story) !! 1%nat = Some [str "juan"; str "pepe"] /\
  exists (st : state (T := table)) out us lines, run next_block init (take 5 story) = Ok (st, out) /\
    watch_status nobody st 1 "S"%char =
      Ok (Watch_stat 1 (cwatch us) :: map (Watch_list 1) lines ++ [End_of_list 1 "S"%char]) /\
    cwatch us = Z.of_nat (length [str "juan"; str "pepe"]) /\
    Forall (fun s => (base nobody + length s <= MAXLEN)%nat) lines /\
    map (map toLower) (concat (map (words (str " ")) lines)) = [str "juan"; str "pepe"].
Proof.
  assert (H : spec_run (take 5 story) !! 1%nat = Some [str "juan"; str "pepe"]) by (rewrite story_lists; reflexivity).
  split; [exact H|]. apply (watch_status_fits next_block next_block_fresh); [| |exact H];
    apply (bool_decide_unpack _); vm_compute; exact I.
Defined.

Lemma watch_from_server_witness :
  watched_nick (nicklen nobody) (str "pepe") = Some (str "pepe") /\
  m_watch next_block nobody (init (T := table)) 7 8 true (Some ("+"%char :: str "pepe")) = Ub /\
  m_watch next_block nobody (init (T := table)) 7 8 true (Some (str "C")) = Ub.
Proof.
  split; [reflexivity|]. apply (watch_from_server next_block nobody init 7 8 (str "pepe") (str "pepe"));
    [reflexivity| |reflexivity]. apply (bool_decide_unpack _). vm_compute. exact I.
Defined.
