(* ===== verification/Targets.v ===== *)
(** The targets of a client: add_target() and check_target_limit() of
    ircd/s_user.c.

    A local client may send to everybody it sent to lately, and to who wrote to
    it; the addresses of these targets are remembered as bytes in a table that
    does not grow.  A new target costs TARGET_DELAY seconds of a credit, and who
    has none left is refused, and has to wait longer when he tries again. *)

From S2P Require Import Prelude Common IPcheck.

(** * Constants; STARTTARGETS and TARGET_DELAY are in IPcheck.v *)

Definition MAXTARGETS : nat := 20.
Definition RESERVEDTARGETS : nat := 12.

(** * The table *)

(** [exempt] is IsChannelService() || IsAnOper() || IsDocking(). *)
Record aClient := mkClient { exempt : bool; nexttarget : Z; targets : list Z }.

Definition set_targets (l : list Z) (cl : aClient) : aClient := mkClient (exempt cl) (nexttarget cl) l.
Definition set_nexttarget (t : Z) (cl : aClient) : aClient := mkClient (exempt cl) t (targets cl).

(** The address of the target as a byte *)
Definition target_hash (target : Z) : Z :=
  let tmp := Z.shiftr (Z.land target 0xffff00) 8 in u8 (Z.shiftr (u32 (tmp * tmp)) 12).

(** memmove(&mem[dst], &mem[src], n) *)
Definition memmove (mem : list Z) (dst src n : nat) : result (list Z) :=
  if decide (dst + n <= length mem /\ src + n <= length mem)%nat
  then Ok (take dst mem ++ take n (drop src mem) ++ drop (dst + n) mem) else Ub.

(** [for (p = targets; p < &targets[MAXTARGETS - 1];) if ( *++p == hash)] *)
Fixpoint find_target (fuel : nat) (mem : list Z) (p : nat) (hash : Z) : result (option nat) :=
  match fuel with
  | O => Fuel
  | S fuel =>
      if decide (p < MAXTARGETS - 1)%nat then
        h ← rd mem (S p);
        if decide (h = hash) then Ok (Some (S p)) else find_target fuel mem (S p) hash
      else Ok None
  end.

Definition in_table (mem : list Z) (hash : Z) : result (option nat) := find_target MAXTARGETS mem 0 hash.

Definition add_target (sptr : aClient) (target : Z) : result aClient :=
  let hash := target_hash target in
  h ← rd (targets sptr) 0;
  if decide (h = hash) then Ok sptr
  else
    p ← in_table (targets sptr) hash;
    match p with
    | Some _ => Ok sptr
    | None =>
        mem ← memmove (targets sptr) (RESERVEDTARGETS + 1) RESERVEDTARGETS (MAXTARGETS - RESERVEDTARGETS - 1);
        mem ← wr mem RESERVEDTARGETS hash;
        Ok (set_targets mem sptr)
    end.

(** [Refused told]: too many targets, with the seconds that the client is told.
    [Charged]: a new target was paid for. *)
Inductive answer : Type := Free | Charged | Refused (told : option Z).

(** The hash moves to the front; [p] is the number of entries before its place. *)
Definition to_front (sptr : aClient) (p : nat) (hash : Z) : result aClient :=
  mem ← memmove (targets sptr) 1 0 p;
  mem ← wr mem 0 hash;
  Ok (set_targets mem sptr).

(** The credit: [None] when the client is let in. *)
Definition pay (now : Z) (sptr : aClient) : aClient * option (option Z) :=
  if decide (now < nexttarget sptr) then
    if decide (nexttarget sptr - now < TARGET_DELAY + 8) then
      let sptr := set_nexttarget (nexttarget sptr + 2) sptr in
      (sptr, Some (Some (nexttarget sptr - now)))
    else (sptr, Some None)
  else
    let least := now - TARGET_DELAY * (Z.of_nat MAXTARGETS - 1) in
    let next := nexttarget sptr + TARGET_DELAY in
    (set_nexttarget (if decide (next < least) then least else next) sptr, None).

(** The answer is [true] in C just for [Refused]. *)
Definition check_target_limit (now : Z) (sptr : aClient) (target : Z) (created : bool)
    : result (aClient * answer) :=
  let hash := target_hash target in
  if exempt sptr then Ok (sptr, Free)
  else
    h ← rd (targets sptr) 0;
    if decide (h = hash) then Ok (sptr, Free)
    else
      p ← in_table (targets sptr) hash;
      match p with
      | Some p => sptr ← to_front sptr p hash; Ok (sptr, Free)
      | None =>
          if created then sptr ← to_front sptr (MAXTARGETS - 1) hash; Ok (sptr, Free)
          else
            match pay now sptr with
            | (sptr, Some told) => Ok (sptr, Refused told)
            | (sptr, None) => sptr ← to_front sptr (MAXTARGETS - 1) hash; Ok (sptr, Charged)
            end
      end.

(** * Histories of a client *)

(** [Send]: after [wait] seconds the client sends to a target, or joins a channel
    that is [created] for it.  [Get]: it gets a message from [source]. *)
Inductive event : Type :=
  | Send (wait : nat) (target : Z) (created : bool)
  | Get (source : Z).

Definition step (now : Z) (cl : aClient) (ev : event) : result (Z * aClient * list answer) :=
  match ev with
  | Send wait target created =>
      let now := now + Z.of_nat wait in
      '(cl, a) ← check_target_limit now cl target created; Ok (now, cl, [a])
  | Get source => cl ← add_target cl source; Ok (now, cl, [])
  end.

Fixpoint run (now : Z) (cl : aClient) (evs : list event) : result (Z * aClient * list answer) :=
  match evs with
  | [] => Ok (now, cl, [])
  | ev :: evs =>
      '(now, cl, a) ← step now cl ev;
      '(now, cl, as_) ← run now cl evs;
      Ok (now, cl, a ++ as_)
  end.

(** * What the table remembers *)

(** Without the first occurrence of [h] *)
Fixpoint forget (h : Z) (l : list Z) : list Z :=
  match l with
  | [] => []
  | x :: l => if decide (x = h) then l else x :: forget h l
  end.

(** The last target is the first of the table. *)
Definition remember (h : Z) (l : list Z) : list Z := take MAXTARGETS (h :: forget h l).

(** Who wrote to the client comes after the reserved entries. *)
Definition remember_source (h : Z) (l : list Z) : list Z :=
  if decide (h ∈ l) then l
  else take RESERVEDTARGETS l ++ h :: take (MAXTARGETS - RESERVEDTARGETS - 1) (drop RESERVEDTARGETS l).

Definition table_ok (cl : aClient) : Prop := length (targets cl) = MAXTARGETS.

#[export] Instance table_ok_dec cl : Decision (table_ok cl).
Proof. unfold table_ok. apply _. Defined.

(** ** The search *)

Lemma find_target_spec fuel mem p hash :
  length mem = MAXTARGETS -> (p < MAXTARGETS)%nat -> (MAXTARGETS <= p + fuel)%nat ->
  exists o, find_target fuel mem p hash = Ok o /\
    match o with
    | Some q => (p < q < MAXTARGETS)%nat /\ mem !! q = Some hash /\
        (forall i, (p < i < q)%nat -> mem !! i <> Some hash)
    | None => forall i, (p < i)%nat -> mem !! i <> Some hash
    end.
Proof.
  intros Hm. revert p. induction fuel as [|fuel IH]; intros p Hp Hf; [lia|]. cbn [find_target].
  destruct (decide (p < MAXTARGETS - 1)%nat) as [Hlt|Hge].
  - destruct (rd_lt mem (S p)) as (h&->&Hh); [rewrite Hm; unfold MAXTARGETS in *; lia|]. cbn [mbind result_bind].
    destruct (decide (h = hash)) as [->|Hne].
    + exists (Some (S p)). split_and!; [done|lia|unfold MAXTARGETS in *; lia|done|]. intros i Hi. lia.
    + destruct (IH (S p)) as (o&->&Ho); [unfold MAXTARGETS in *; lia|lia|]. exists o. split; [done|].
      assert (Hstep : forall i, (p < i)%nat -> i = S p \/ (S p < i)%nat) by (intros; lia).
      destruct o as [q|].
      * destruct Ho as (?&?&Ho). split_and!; [lia|lia|done|]. intros i Hi.
        destruct (Hstep i) as [->|]; [lia|congruence|apply Ho; lia].
      * intros i Hi. destruct (Hstep i Hi) as [->|]; [congruence|by apply Ho].
  - exists None. split; [done|]. intros i Hi. rewrite lookup_ge_None_2; [done|]. rewrite Hm. lia.
Qed.

Lemma in_table_spec mem hash h :
  length mem = MAXTARGETS -> mem !! 0%nat = Some h -> h <> hash ->
  exists o, in_table mem hash = Ok o /\
    match o with
    | Some q => (q < MAXTARGETS)%nat /\ mem !! q = Some hash /\ (forall i, (i < q)%nat -> mem !! i <> Some hash)
    | None => (hash ∉ mem)
    end.
Proof.
  intros Hm H0 Hne. destruct (find_target_spec MAXTARGETS mem 0 hash Hm) as (o&E&Ho); [unfold MAXTARGETS; lia..|].
  exists o. split; [done|].
  assert (Hi : forall i, i = O \/ (0 < i)%nat) by (intros; lia).
  destruct o as [q|].
  - destruct Ho as (?&?&Ho). split_and!; [lia|done|]. intros i Hq.
    destruct (Hi i) as [->|]; [congruence|apply Ho; lia].
  - intros (i&Hl)%list_elem_of_lookup_1. destruct (Hi i) as [->|]; [congruence|by apply (Ho i)].
Qed.

Lemma forget_absent h l : (h ∉ l) -> forget h l = l.
Proof.
  induction l as [|x l IH]; [done|]. intros [Hne Hn]%not_elem_of_cons. simpl.
  rewrite decide_False by done. by rewrite IH.
Qed.

Lemma forget_at h l q :
  l !! q = Some h -> (forall i, (i < q)%nat -> l !! i <> Some h) -> forget h l = take q l ++ drop (S q) l.
Proof.
  revert q. induction l as [|x l IH]; intros q Hq Hbefore; [done|]. destruct q as [|q].
  - injection Hq as ->. simpl. by rewrite decide_True.
  - assert (Hx : x <> h) by (intros ->; by apply (Hbefore O); [lia|]).
    simpl. rewrite decide_False by done. f_equal. apply IH; [done|]. intros i Hi. apply (Hbefore (S i)). lia.
Qed.

(** Both memmove() calls of the front stay inside the table. *)
Lemma to_front_spec cl q h x rest :
  targets cl = x :: rest -> (q < length (targets cl))%nat ->
  to_front cl q h = Ok (set_targets (h :: take q (targets cl) ++ drop (S q) (targets cl)) cl).
Proof.
  intros E Hq. unfold to_front, memmove. rewrite decide_True by lia. cbn [mbind result_bind].
  rewrite drop_0. rewrite E at 1. cbn [take app]. unfold wr. rewrite decide_True by (cbn [length]; lia).
  cbn [mbind result_bind]. done.
Qed.

(** ** Both functions *)

Lemma table_head cl : table_ok cl -> exists h rest, targets cl = h :: rest /\ rd (targets cl) 0 = Ok h.
Proof. intros Hl. unfold table_ok in Hl. destruct (targets cl) as [|h rest]; [done|]. by exists h, rest. Qed.

Lemma remember_present h l q :
  length l = MAXTARGETS -> l !! q = Some h -> (forall i, (i < q)%nat -> l !! i <> Some h) ->
  remember h l = h :: take q l ++ drop (S q) l.
Proof.
  intros Hl Hq Hb. unfold remember. rewrite (forget_at h l q Hq Hb). apply take_ge.
  apply lookup_lt_Some in Hq. cbn [length]. rewrite length_app, length_take, length_drop. lia.
Qed.

Lemma remember_absent h l :
  length l = MAXTARGETS -> (h ∉ l) -> remember h l = h :: take (MAXTARGETS - 1) l ++ drop MAXTARGETS l.
Proof.
  intros Hl Hn. unfold remember. rewrite forget_absent by done. rewrite drop_ge by lia. rewrite app_nil_r. done.
Qed.

Lemma check_known now cl target created :
  table_ok cl -> (target_hash target ∈ targets cl) ->
  check_target_limit now cl target created =
    Ok (if exempt cl then cl else set_targets (remember (target_hash target) (targets cl)) cl, Free).
Proof.
  intros Hl Hin. unfold check_target_limit. set (h := target_hash target) in *.
  destruct (exempt cl) eqn:Ee; [done|].
  destruct (table_head cl Hl) as (x&rest&E&->). cbn [mbind result_bind].
  destruct (decide (x = h)) as [->|Hne].
  - rewrite (remember_present h (targets cl) 0); [|done|by rewrite E|intros; lia].
    rewrite E. cbn [take drop app]. unfold set_targets. destruct cl. cbn in *. by subst.
  - destruct (in_table_spec (targets cl) h x Hl) as (o&->&Ho); [by rewrite E|done|]. cbn [mbind result_bind].
    destruct o as [q|]; [|done]. destruct Ho as (Hq&Hh&Hb).
    rewrite (to_front_spec cl q h x rest E) by (by rewrite Hl). cbn [mbind result_bind].
    by rewrite (remember_present h (targets cl) q).
Qed.

Lemma check_new now cl target created :
  table_ok cl -> exempt cl = false -> (target_hash target ∉ targets cl) ->
  check_target_limit now cl target created =
    let known := remember (target_hash target) (targets cl) in
    if created then Ok (set_targets known cl, Free)
    else Ok match pay now cl with
            | (cl, Some told) => (cl, Refused told)
            | (cl, None) => (set_targets known cl, Charged)
            end.
Proof.
  intros Hl He Hn. unfold check_target_limit. set (h := target_hash target) in *. rewrite He.
  destruct (table_head cl Hl) as (x&rest&E&->). cbn [mbind result_bind].
  destruct (decide (x = h)) as [->|Hne]; [by destruct Hn; rewrite E; left|].
  destruct (in_table_spec (targets cl) h x Hl) as (o&->&Ho); [by rewrite E|done|]. cbn [mbind result_bind].
  destruct o as [q|]; [destruct Ho as (_&Hh&_); by apply list_elem_of_lookup_2 in Hh|].
  rewrite remember_absent by done.
  assert (F : forall c, targets c = targets cl ->
    to_front c (MAXTARGETS - 1) h = Ok (set_targets (h :: take (MAXTARGETS - 1) (targets cl) ++ drop MAXTARGETS (targets cl)) c)).
  { intros c Hc. rewrite (to_front_spec c (MAXTARGETS - 1) h x rest); rewrite Hc; [|done|].
    - done.
    - rewrite Hl. unfold MAXTARGETS. lia. }
  destruct created; [by rewrite F|]. unfold pay. cbv zeta.
  destruct (decide (now < nexttarget cl)); [by destruct (decide _)|].
  rewrite F by done. done.
Qed.

Lemma add_target_spec cl source :
  table_ok cl -> add_target cl source = Ok (set_targets (remember_source (target_hash source) (targets cl)) cl).
Proof.
  intros Hl. unfold add_target, remember_source. set (h := target_hash source).
  assert (Hsame : Ok cl = Ok (set_targets (targets cl) cl)) by (by destruct cl).
  destruct (table_head cl Hl) as (x&rest&E&->). cbn [mbind result_bind].
  destruct (decide (x = h)) as [->|Hne]; [by rewrite decide_True by (rewrite E; left)|].
  destruct (in_table_spec (targets cl) h x Hl) as (o&->&Ho); [by rewrite E|done|]. cbn [mbind result_bind].
  destruct o as [q|].
  - destruct Ho as (_&Hh&_). by rewrite decide_True by (by eapply list_elem_of_lookup_2).
  - rewrite decide_False by done. unfold table_ok in Hl. unfold memmove.
    rewrite decide_True by (rewrite Hl; unfold MAXTARGETS, RESERVEDTARGETS; lia). cbn [mbind result_bind].
    change (RESERVEDTARGETS + 1)%nat with (S RESERVEDTARGETS).
    destruct (lookup_lt_is_Some_2 (targets cl) RESERVEDTARGETS) as [y Hy];
      [rewrite Hl; unfold MAXTARGETS, RESERVEDTARGETS; lia|].
    rewrite (take_S_r _ _ y Hy), (drop_ge _ (S RESERVEDTARGETS + (MAXTARGETS - RESERVEDTARGETS - 1))) by (rewrite Hl; unfold MAXTARGETS, RESERVEDTARGETS; lia).
    rewrite app_nil_r, <- app_assoc.
    assert (Ht : length (take RESERVEDTARGETS (targets cl)) = RESERVEDTARGETS)
      by (rewrite length_take, Hl; unfold MAXTARGETS, RESERVEDTARGETS; lia).
    rewrite wr_lt by (rewrite length_app, Ht; cbn [app length]; lia). cbn [mbind result_bind].
    rewrite insert_app_r_alt by (rewrite Ht; lia). by rewrite Ht, Nat.sub_diag.
Qed.

(** ** Lengths and places *)

Lemma length_forget h l : (length (forget h l) <= length l <= S (length (forget h l)))%nat.
Proof. induction l as [|x l IH]; simpl; [lia|]. destruct (decide (x = h)); simpl; lia. Qed.

Lemma length_remember h l : length l = MAXTARGETS -> length (remember h l) = MAXTARGETS.
Proof.
  intros Hl. unfold remember. rewrite length_take. cbn [length].
  assert (H := length_forget h l). unfold MAXTARGETS in *. lia.
Qed.

Lemma length_remember_source h l : length l = MAXTARGETS -> length (remember_source h l) = MAXTARGETS.
Proof.
  intros Hl. unfold remember_source. destruct (decide (h ∈ l)); [done|].
  rewrite length_app. cbn [length]. rewrite !length_take, length_drop, Hl. unfold MAXTARGETS, RESERVEDTARGETS. lia.
Qed.

Lemma remember_in h l : h ∈ remember h l.
Proof. unfold remember, MAXTARGETS. cbn [take]. left. Qed.

Lemma remember_source_reserved h l :
  length l = MAXTARGETS -> take RESERVEDTARGETS (remember_source h l) = take RESERVEDTARGETS l.
Proof.
  intros Hl. unfold remember_source. destruct (decide (h ∈ l)); [done|].
  rewrite take_app_length'; [done|]. rewrite length_take, Hl. unfold MAXTARGETS, RESERVEDTARGETS. lia.
Qed.

(** A source moves one place for every other source that comes. *)
Lemma remember_source_shift h g l m :
  length l = MAXTARGETS -> (RESERVEDTARGETS <= m < MAXTARGETS)%nat ->
  h ∈ take m l -> h ∈ take (S m) (remember_source g l).
Proof.
  intros Hl Hm Hin. unfold remember_source. destruct (decide (g ∈ l)).
  - assert (E : take m (take (S m) l) = take m l) by (rewrite take_take; f_equal; lia).
    rewrite <- E in Hin. by apply subseteq_take in Hin.
  - assert (Ht : length (take RESERVEDTARGETS l) = RESERVEDTARGETS)
      by (rewrite length_take, Hl; unfold MAXTARGETS, RESERVEDTARGETS; lia).
    rewrite take_app_ge by (rewrite Ht; lia). rewrite Ht.
    replace (S m - RESERVEDTARGETS)%nat with (S (m - RESERVEDTARGETS)) by lia. cbn [take].
    rewrite take_take, Nat.min_l by (unfold MAXTARGETS, RESERVEDTARGETS in *; lia).
    assert (E : take m l = take RESERVEDTARGETS l ++ take (m - RESERVEDTARGETS) (drop RESERVEDTARGETS l)).
    { rewrite <- (take_drop RESERVEDTARGETS (take m l)) at 1. rewrite take_take, Nat.min_l by lia.
      by rewrite skipn_firstn_comm. }
    rewrite E in Hin. apply elem_of_app in Hin as [?|?]; apply elem_of_app; [by left|right; by right].
Qed.

Lemma remember_source_in h l : h ∈ remember_source h l.
Proof. unfold remember_source. destruct (decide (h ∈ l)); [done|]. apply elem_of_app. right. left. Qed.

(** ** Histories *)

Lemma pay_nexttarget now cl :
  match pay now cl with
  | (cl', None) => nexttarget cl <= now /\ nexttarget cl' = Z.max (nexttarget cl + 128) (now - 2432)
  | (cl', Some told) => now < nexttarget cl /\ targets cl' = targets cl /\ exempt cl' = exempt cl /\
      nexttarget cl' = (if decide (nexttarget cl - now < 136) then nexttarget cl + 2 else nexttarget cl) /\
      told = (if decide (nexttarget cl - now < 136) then Some (nexttarget cl + 2 - now) else None)
  end.
Proof.
  unfold pay. change TARGET_DELAY with 128. unfold MAXTARGETS.
  change (128 * (Z.of_nat 20 - 1)) with 2432. change (128 + 8) with 136.
  destruct (decide (now < nexttarget cl)) as [Hlt|Hge].
  - destruct (decide _); by split_and!.
  - cbv zeta. destruct (decide (nexttarget cl + 128 < now - 2432)); cbn [nexttarget set_nexttarget]; lia.
Qed.

(** What an attempt does, by its answer *)
Lemma check_spec now cl target created :
  table_ok cl ->
  exists cl' a, check_target_limit now cl target created = Ok (cl', a) /\ table_ok cl' /\ exempt cl' = exempt cl /\
    match a with
    | Refused told =>
        exempt cl = false /\ created = false /\ (target_hash target ∉ targets cl) /\ now < nexttarget cl /\
        targets cl' = targets cl /\
        nexttarget cl' = (if decide (nexttarget cl - now < 136) then nexttarget cl + 2 else nexttarget cl) /\
        told = (if decide (nexttarget cl - now < 136) then Some (nexttarget cl + 2 - now) else None)
    | Charged =>
        exempt cl = false /\ created = false /\ (target_hash target ∉ targets cl) /\ nexttarget cl <= now /\
        targets cl' = remember (target_hash target) (targets cl) /\
        nexttarget cl' = Z.max (nexttarget cl + 128) (now - 2432)
    | Free =>
        (exempt cl = true \/ created = true \/ target_hash target ∈ targets cl) /\
        targets cl' = (if exempt cl then targets cl else remember (target_hash target) (targets cl)) /\
        nexttarget cl' = nexttarget cl
    end.
Proof.
  intros Hl. destruct (decide (target_hash target ∈ targets cl)) as [Hin|Hn].
  { rewrite check_known by done. eexists _, _. split; [reflexivity|].
    destruct (exempt cl) eqn:Ee; [split_and!; try done; by left|].
    split_and!; [by apply length_remember|done|by right; right|done|done]. }
  destruct (exempt cl) eqn:Ee.
  { exists cl, Free. unfold check_target_limit. rewrite Ee. split_and!; try done. by left. }
  rewrite check_new by done. cbv zeta. destruct created.
  - eexists _, _. split; [reflexivity|]. split_and!; [by apply length_remember|done|by right; left|done|done].
  - assert (Hp := pay_nexttarget now cl). assert (Hx : exempt (pay now cl).1 = false /\ targets (pay now cl).1 = targets cl).
    { unfold pay. cbv zeta. repeat (destruct (decide _)); (split; [exact Ee|reflexivity]). }
    destruct (pay now cl) as [cl' [told|]]; cbn [fst] in Hx; destruct Hx as [Hx Ht].
    + destruct Hp as (?&_&_&?&?). exists cl', (Refused told). unfold table_ok. rewrite Ht. by split_and!.
    + destruct Hp as (?&?). eexists _, Charged. split; [reflexivity|].
      split_and!; try done. by apply length_remember.
Qed.

Definition charged (a : answer) : bool := match a with Charged => true | _ => false end.
Definition refused (a : answer) : bool := match a with Refused _ => true | _ => false end.
Definition charges (l : list answer) : Z := Z.of_nat (length (filter (fun a => charged a = true) l)).

Lemma charges_app l l' : charges (l ++ l') = charges l + charges l'.
Proof. unfold charges. rewrite filter_app, length_app. lia. Qed.

Lemma targets_step_spec now cl ev :
  table_ok cl ->
  exists now' cl' a, step now cl ev = Ok (now', cl', a) /\ table_ok cl' /\ now <= now' /\
    nexttarget cl <= nexttarget cl' /\
    (charges a = 0 \/ charges a = 1 /\ nexttarget cl <= now' /\
       nexttarget cl + 128 <= nexttarget cl' /\ now' - 2432 <= nexttarget cl') /\
    (nexttarget cl <= now + 137 -> nexttarget cl' <= now' + 137).
Proof.
  intros Hl. destruct ev as [wait target created|source]; cbn [step].
  - destruct (check_spec (now + Z.of_nat wait) cl target created Hl) as (cl'&a&->&Hl'&_&Ha).
    cbn [mbind result_bind]. eexists _, cl', [a]. split; [reflexivity|].
    destruct a as [| |told].
    + destruct Ha as (_&_&E). split_and!; [done|lia|lia|by left|lia].
    + destruct Ha as (_&_&_&?&_&E). split_and!; [done|lia|lia| |lia]. right. split_and!; [done|lia..].
    + destruct Ha as (_&_&_&?&_&E&_). destruct (decide _) in E; (split_and!; [done|lia|lia|by left|lia]).
  - rewrite add_target_spec by done. cbn [mbind result_bind]. eexists _, _, []. split; [reflexivity|].
    split_and!; [by apply length_remember_source|lia|done|by left|done].
Qed.

Lemma targets_run_spec now cl evs :
  table_ok cl ->
  exists now' cl' l, run now cl evs = Ok (now', cl', l) /\ table_ok cl' /\ now <= now' /\
    (1 <= charges l -> nexttarget cl + 128 * (charges l - 1) <= now') /\
    (2 <= charges l -> now - 2432 + 128 * (charges l - 2) <= now') /\
    (nexttarget cl <= now + 137 -> nexttarget cl' <= now' + 137).
Proof.
  revert now cl. induction evs as [|ev evs IH]; intros now cl Hl.
  { exists now, cl, []. change (charges []) with 0. split_and!; [done|done|lia..]. }
  cbn [run]. destruct (targets_step_spec now cl ev Hl) as (now1&cl1&a&->&Hl1&Hn&Hm&Hc&Hw). cbn [mbind result_bind].
  destruct (IH now1 cl1 Hl1) as (now2&cl2&l&->&Hl2&Hn2&H1&H2&Hw2). cbn [mbind result_bind].
  exists now2, cl2, (a ++ l). rewrite charges_app. assert (Hpos : 0 <= charges l) by (unfold charges; lia).
  split_and!; [done|done|lia| | |lia].
  - destruct Hc as [->|(->&?&?&?)]; [lia|]. destruct (decide (charges l = 0)); lia.
  - destruct Hc as [->|(->&?&?&?)]; lia.
Qed.

Lemma targets_run_app now cl evs evs' :
  run now cl (evs ++ evs') =
    ('(now, cl, l) ← run now cl evs; '(now, cl, l') ← run now cl evs'; Ok (now, cl, l ++ l')).
Proof.
  revert now cl. induction evs as [|ev evs IH]; intros now cl.
  - cbn [run app mbind result_bind]. by destruct (run now cl evs') as [[[? ?] ?]| |].
  - cbn [run app]. destruct (step now cl ev) as [[[now1 cl1] a]| |]; [|done..]. cbn [mbind result_bind].
    rewrite IH. destruct (run now1 cl1 evs) as [[[now2 cl2] l]| |]; [|done..]. cbn [mbind result_bind].
    destruct (run now2 cl2 evs') as [[[now3 cl3] l']| |]; [|done..]. cbn [mbind result_bind]. by rewrite app_assoc.
Qed.

(** The same target again and again *)
Definition retries (n wait : nat) (target : Z) : list event := replicate n (Send wait target false).

Lemma retries_S n wait target : retries (S n) wait target = Send wait target false :: retries n wait target.
Proof. reflexivity. Qed.

Lemma retries_patient now cl wait target :
  table_ok cl -> (3 <= wait)%nat ->
  exists n now' cl' l a, (n <= Z.to_nat (nexttarget cl - now))%nat /\
    run now cl (retries (S n) wait target) = Ok (now', cl', l ++ [a]) /\
    length l = n /\ Forall (fun a => refused a = true) l /\ refused a = false.
Proof.
  intros Hl Hw. remember (Z.to_nat (nexttarget cl - now)) as g eqn:Eg.
  revert now cl Hl Eg. induction g as [g IH] using (well_founded_induction lt_wf). intros now cl Hl ->.
  destruct (check_spec (now + Z.of_nat wait) cl target false Hl) as (cl1&a&E&Hl1&_&Ha).
  destruct (refused a) eqn:Er.
  - destruct a as [| |told]; try done. destruct Ha as (_&_&_&Hlt&_&Hn&_).
    assert (Hg : (Z.to_nat (nexttarget cl1 - (now + Z.of_nat wait)) < Z.to_nat (nexttarget cl - now))%nat)
      by (destruct (decide _) in Hn; lia).
    destruct (IH _ Hg (now + Z.of_nat wait) cl1 Hl1 eq_refl) as (n&now'&cl'&l&a&Hn'&Hr&Hlen&Hall&Hlast).
    exists (S n), now', cl', (Refused told :: l), a. split_and!; [lia| |by f_equal/=|by constructor|done].
    rewrite retries_S. cbn [run step]. rewrite E. cbn [mbind result_bind]. by rewrite Hr.
  - exists O, (now + Z.of_nat wait), cl1, [], a. split_and!; [lia| |done|constructor|done].
    rewrite retries_S. cbn [run step]. by rewrite E.
Qed.

Lemma retries_hasty n now cl wait target :
  table_ok cl -> (wait <= 2)%nat -> exempt cl = false -> (target_hash target ∉ targets cl) ->
  now + Z.of_nat wait < nexttarget cl ->
  exists now' cl' l, run now cl (retries n wait target) = Ok (now', cl', l) /\ length l = n /\
    Forall (fun a => refused a = true) l.
Proof.
  intros Hl Hw. revert now cl Hl. induction n as [|n IH]; intros now cl Hl He Hn Hlt; [by exists now, cl, []|].
  destruct (check_spec (now + Z.of_nat wait) cl target false Hl) as (cl1&a&E&Hl1&He1&Ha).
  rewrite retries_S. cbn [run step]. rewrite E. cbn [mbind result_bind].
  destruct a as [| |told]; [exfalso; destruct Ha as ([?|[?|?]]&_); [congruence|congruence|done]|lia|].
  destruct Ha as (_&_&_&_&Ht&Hnx&_).
  destruct (IH (now + Z.of_nat wait) cl1 Hl1) as (now'&cl'&l&E'&Hlen&Hall);
    [congruence|by rewrite Ht|destruct (decide _) in Hnx; lia|].
  rewrite E'. exists now', cl', (Refused told :: l). split_and!; [done|by f_equal/=|by constructor].
Qed.

Lemma run_gets now cl l m h :
  table_ok cl -> (RESERVEDTARGETS <= m)%nat -> (m + length l <= MAXTARGETS)%nat \/ m = RESERVEDTARGETS ->
  exists cl', run now cl (map Get l) = Ok (now, cl', []) /\ table_ok cl' /\ exempt cl' = exempt cl /\
    nexttarget cl' = nexttarget cl /\ take RESERVEDTARGETS (targets cl') = take RESERVEDTARGETS (targets cl) /\
    (h ∈ take m (targets cl) -> (m + length l <= MAXTARGETS)%nat -> h ∈ take (m + length l) (targets cl')).
Proof.
  revert cl m. induction l as [|s l IH]; intros cl m Hl Hm Hb.
  { exists cl. split_and!; try done. intros ? _. by rewrite Nat.add_0_r. }
  cbn [map run step]. rewrite add_target_spec by done. cbn [mbind result_bind].
  assert (Hl1 := length_remember_source (target_hash s) (targets cl) Hl).
  set (cl1 := set_targets _ cl).
  destruct (decide (m + length (s :: l) <= MAXTARGETS)%nat) as [Hfit|Hno].
  - cbn [length] in Hfit. destruct (IH cl1 (S m)) as (cl'&->&T&X&N&R&P); [done|lia|left; lia|].
    cbn [mbind result_bind]. exists cl'. split_and!; [done..| |].
    + rewrite R. by apply remember_source_reserved.
    + intros Hin _. cbn [length]. replace (m + S (length l))%nat with (S m + length l)%nat by lia.
      apply P; [|lia]. apply remember_source_shift; [done|lia|done].
  - destruct Hb as [Hb|Hb]; [done|]. destruct (IH cl1 m) as (cl'&->&T&X&N&R&P); [done|lia|by right|].
    cbn [mbind result_bind]. exists cl'. split_and!; [done..| |by intros _ ?].
    rewrite R. by apply remember_source_reserved.
Qed.

(** * Correctness *)

(** An attempt never leaves the table and keeps its size.  It is refused just
    when the client is not exempt, the target is not in the table, its channel is
    not created by the attempt, and the credit is used up; then the table stays.
    Otherwise the target is the first of the table afterwards, and a new one is
    paid for with TARGET_DELAY seconds of a credit of at most MAXTARGETS - 1
    times that. *)
Theorem check_target_limit_correct now cl target created :
  table_ok cl ->
  exists cl' a, check_target_limit now cl target created = Ok (cl', a) /\ table_ok cl' /\
    (refused a = true <-> exempt cl = false /\ created = false /\
       (target_hash target ∉ targets cl) /\ now < nexttarget cl) /\
    targets cl' = (if exempt cl || refused a then targets cl
                   else remember (target_hash target) (targets cl)) /\
    (charged a = true -> nexttarget cl <= now /\
       nexttarget cl' = Z.max (nexttarget cl + TARGET_DELAY) (now - TARGET_DELAY * (Z.of_nat MAXTARGETS - 1))) /\
    (charged a = false -> refused a = false -> nexttarget cl' = nexttarget cl).
Proof.
  intros Hl. destruct (check_spec now cl target created Hl) as (cl'&a&->&Hl'&_&Ha).
  change (TARGET_DELAY * (Z.of_nat MAXTARGETS - 1)) with 2432. change TARGET_DELAY with 128.
  exists cl', a. destruct a as [| |told]; cbn [refused charged]; rewrite ?orb_false_r, ?orb_true_r.
  - destruct Ha as (Hw&->&->). split_and!; [done|done| |done|done|done].
    split; [done|]. intros (He&Hc&Hn&_). destruct Hw as [?|[?|?]]; [congruence|congruence|done].
  - destruct Ha as (->&->&Hn&Hle&->&->). split_and!; [done|done| |done|done|done].
    split; [done|]. intros (_&_&_&?). lia.
  - destruct Ha as (He&Hc&Hn&Hlt&->&_). by split_and!.
Qed.

(** C14. Whatever a client does, and from any credit: in every stretch of time it
    gets at most one new target for every TARGET_DELAY seconds, and MAXTARGETS + 1
    besides; and at most one, besides those that its credit was good for. *)
Theorem target_rate now cl evs :
  table_ok cl ->
  exists now' cl' l, run now cl evs = Ok (now', cl', l) /\ now <= now' /\
    charges l <= Z.of_nat MAXTARGETS + 1 + (now' - now) / TARGET_DELAY /\
    charges l <= Z.max 0 (1 + (now' - nexttarget cl) / TARGET_DELAY).
Proof.
  intros Hl. destruct (targets_run_spec now cl evs Hl) as (now'&cl'&l&->&_&Hn&H1&H2&_).
  exists now', cl', l. change TARGET_DELAY with 128. change (Z.of_nat MAXTARGETS) with 20.
  split_and!; [done|done| |].
  - destruct (decide (2 <= charges l)) as [H|H]; [specialize (H2 H)|]; [|pose proof (Z.div_pos (now' - now) 128); lia].
    assert (charges l - 21 <= (now' - now) / 128) by (apply Z.div_le_lower_bound; lia). lia.
  - destruct (decide (1 <= charges l)) as [H|H]; [specialize (H1 H)|lia].
    assert (charges l - 1 <= (now' - nexttarget cl) / 128) by (apply Z.div_le_lower_bound; lia). lia.
Qed.

(** C12. A client that tries again, waiting three seconds or more each time, gets
    in: whatever it and others did before, at most 137 tries are refused. *)
Theorem patient_client_served now cl evs wait target :
  table_ok cl -> nexttarget cl <= now + 137 -> (3 <= wait)%nat ->
  exists n now' cl' l l' a, (n <= 137)%nat /\
    run now cl (evs ++ retries (S n) wait target) = Ok (now', cl', l ++ l' ++ [a]) /\
    length l' = n /\ Forall (fun a => refused a = true) l' /\ refused a = false.
Proof.
  intros Hl Hb Hw. destruct (targets_run_spec now cl evs Hl) as (now1&cl1&l&E&Hl1&_&_&_&Hb1).
  destruct (retries_patient now1 cl1 wait target Hl1 Hw) as (n&now2&cl2&l'&a&Hn&E'&Hlen&Hall&Ha).
  exists n, now2, cl2, l, l', a. split_and!; [lia| |done|done|done].
  rewrite targets_run_app, E. cbn [mbind result_bind]. by rewrite E'.
Qed.

(** A client that tries again every two seconds or faster is refused for ever:
    every refusal makes it wait two seconds more. *)
Theorem hasty_client_starves n now cl wait target :
  table_ok cl -> (wait <= 2)%nat -> exempt cl = false -> (target_hash target ∉ targets cl) ->
  now + Z.of_nat wait < nexttarget cl ->
  exists now' cl' l, run now cl (retries n wait target) = Ok (now', cl', l) /\ length l = n /\
    Forall (fun a => refused a = true) l.
Proof. apply retries_hasty. Qed.

(** C15. Who writes to a client does not cost it anything: its credit and its last
    RESERVEDTARGETS targets stay, however many write.  An answer at once is free,
    and so is one after up to seven other writers, if the first was not in the
    table before. *)
Theorem writers_harmless now cl source sources :
  table_ok cl ->
  exists cl1 cl2, run now cl [Get source] = Ok (now, cl1, []) /\
    run now cl1 (map Get sources) = Ok (now, cl2, []) /\
    nexttarget cl2 = nexttarget cl /\
    take RESERVEDTARGETS (targets cl2) = take RESERVEDTARGETS (targets cl) /\
    (forall t created, exists cl', check_target_limit t cl1 source created = Ok (cl', Free)) /\
    ((target_hash source ∉ targets cl) -> (length sources <= MAXTARGETS - RESERVEDTARGETS - 1)%nat ->
     forall t created, exists cl', check_target_limit t cl2 source created = Ok (cl', Free)).
Proof.
  intros Hl. set (h := target_hash source).
  set (cl1 := set_targets (remember_source h (targets cl)) cl).
  assert (Hl1 : table_ok cl1) by (by apply length_remember_source).
  assert (E1 : run now cl [Get source] = Ok (now, cl1, []))
    by (cbn [run step]; rewrite add_target_spec by done; done).
  assert (F : forall c, table_ok c -> h ∈ targets c ->
    forall t created, exists cl', check_target_limit t c source created = Ok (cl', Free)).
  { intros c Hc Hin t created. rewrite check_known by done. by eexists. }
  assert (R1 := remember_source_reserved h (targets cl) Hl).
  destruct (decide (S RESERVEDTARGETS + length sources <= MAXTARGETS)%nat) as [Hfit|Hno].
  - destruct (run_gets now cl1 sources (S RESERVEDTARGETS) h) as (cl2&E2&T2&_&N2&R2&P2); [done|lia|by left|].
    exists cl1, cl2. split_and!; [done..|by rewrite R2|apply F; [done|apply remember_source_in]|].
    intros Hn _. apply F; [done|].
    assert (Hin : h ∈ take (S RESERVEDTARGETS) (targets cl1)).
    { cbn [cl1 targets set_targets]. unfold remember_source. rewrite decide_False by done.
      assert (Ht : length (take RESERVEDTARGETS (targets cl)) = RESERVEDTARGETS)
        by (rewrite length_take, Hl; unfold MAXTARGETS, RESERVEDTARGETS; lia).
      rewrite take_app_ge by (rewrite Ht; lia). rewrite Ht. apply elem_of_app. right.
      replace (S RESERVEDTARGETS - RESERVEDTARGETS)%nat with 1%nat by lia. left. }
    specialize (P2 Hin Hfit). by apply subseteq_take in P2.
  - destruct (run_gets now cl1 sources RESERVEDTARGETS h) as (cl2&E2&T2&_&N2&R2&P2); [done|lia|by right|].
    exists cl1, cl2. split_and!; [done..|by rewrite R2|apply F; [done|apply remember_source_in]|].
    intros _ Hs. unfold MAXTARGETS, RESERVEDTARGETS in *. lia.
Qed.

(** * Concrete clients *)

(** A client that registered now, with the credit of IPcheck_local_connect(), and
    one that was silent for a day *)
Definition newcomer : aClient := mkClient false (1000 - TARGET_DELAY * (STARTTARGETS - 1)) (replicate MAXTARGETS 0).
Definition silent : aClient := mkClient false (1000 - 86400) (replicate MAXTARGETS 0).

Definition burst (n : nat) : list event := map (fun i => Send 0 (Z.of_nat i * 0x4000) false) (seq 64 n).
Definition outcome (r : result (Z * aClient * list answer)) : result Z :=
  '(_, _, l) ← r; Ok (charges l).

(** The bound of [target_rate] is met: MAXTARGETS + 1 new targets at once for the
    one, STARTTARGETS for the other. *)
Example silent_burst : outcome (run 1000 silent (burst 40)) = Ok 21.
Proof. vm_compute. reflexivity. Qed.
Example newcomer_burst : outcome (run 1000 newcomer (burst 40)) = Ok STARTTARGETS.
Proof. vm_compute. reflexivity. Qed.

Lemma check_target_limit_correct_witness :
  table_ok newcomer /\
  exists cl' a, check_target_limit 1000 newcomer 0x123456 false = Ok (cl', a) /\ table_ok cl' /\
    (refused a = true <-> exempt newcomer = false /\ false = false /\
       (target_hash 0x123456 ∉ targets newcomer) /\ 1000 < nexttarget newcomer) /\
    targets cl' = (if exempt newcomer || refused a then targets newcomer
                   else remember (target_hash 0x123456) (targets newcomer)) /\
    (charged a = true -> nexttarget newcomer <= 1000 /\
       nexttarget cl' = Z.max (nexttarget newcomer + TARGET_DELAY) (1000 - TARGET_DELAY * (Z.of_nat MAXTARGETS - 1))) /\
    (charged a = false -> refused a = false -> nexttarget cl' = nexttarget newcomer).
Proof. split; [reflexivity|]. apply check_target_limit_correct. reflexivity. Defined.

Lemma target_rate_witness :
  table_ok silent /\
  exists now' cl' l, run 1000 silent (burst 40) = Ok (now', cl', l) /\ 1000 <= now' /\
    charges l <= Z.of_nat MAXTARGETS + 1 + (now' - 1000) / TARGET_DELAY /\
    charges l <= Z.max 0 (1 + (now' - nexttarget silent) / TARGET_DELAY).
Proof. split; [reflexivity|]. apply target_rate. reflexivity. Defined.

Lemma patient_client_served_witness :
  table_ok newcomer /\
  exists n now' cl' l l' a, (n <= 137)%nat /\
    run 1000 newcomer (burst 30 ++ retries (S n) 3 0x7fffff) = Ok (now', cl', l ++ l' ++ [a]) /\
    length l' = n /\ Forall (fun a => refused a = true) l' /\ refused a = false.
Proof. split; [reflexivity|]. apply patient_client_served; [reflexivity|vm_compute; discriminate|lia]. Defined.

Definition spent : aClient := mkClient false 1005 (replicate MAXTARGETS 0).

Lemma hasty_client_starves_witness :
  table_ok spent /\
  exists now' cl' l, run 1000 spent (retries 500 2 0x7fffff) = Ok (now', cl', l) /\ length l = 500%nat /\
    Forall (fun a => refused a = true) l.
Proof.
  split; [reflexivity|]. apply hasty_client_starves;
    [reflexivity|lia|reflexivity| |reflexivity]. apply (bool_decide_unpack _). vm_compute. exact I.
Defined.

Lemma writers_harmless_witness :
  table_ok spent /\
  exists cl1 cl2, run 1000 spent [Get 0x7fffff] = Ok (1000, cl1, []) /\
    run 1000 cl1 (map Get [0x400000; 0x500000]) = Ok (1000, cl2, []) /\
    nexttarget cl2 = nexttarget spent /\
    take RESERVEDTARGETS (targets cl2) = take RESERVEDTARGETS (targets spent) /\
    (forall t created, exists cl', check_target_limit t cl1 0x7fffff created = Ok (cl', Free)) /\
    ((target_hash 0x7fffff ∉ targets spent) -> (length [0x400000; 0x500000] <= MAXTARGETS - RESERVEDTARGETS - 1)%nat ->
     forall t created, exists cl', check_target_limit t cl2 0x7fffff created = Ok (cl', Free)).
Proof. split; [reflexivity|]. apply writers_harmless. reflexivity. Defined.
