(* ===== verification/Silence.v ===== *)
(** The masks that a user silences others with: is_silenced(), del_silence(),
    add_silence() and m_silence() of ircd/s_user.c, over Match.v, Mmatch.v and the
    masks of Bans.v.

    The texts of the masks are on the heap, since del_silence() reads the mask
    that it is given while it frees masks.  The links of a list belong to their
    user, so that the list is a list here. *)

From S2P Require Import Prelude Common Match Mmatch Chantext Channel Bans.

Definition CHFL_SILENCE_IPMASK : Z := 0x2000.
Definition MAXSILES : Z := 25.
Definition MAXSILELENGTH : Z := 40 * 25.

Record Silence := mkSilence { cp : nat; sflags : Z }.

(** The masks of one user *)
Record silences := mkSilences { heap : gmap nat cstring; silence : list Silence }.

(** A [char *] argument: a buffer of the caller, or a text of the heap *)
Inductive pointer : Type := Buf (s : cstring) | Ptr (p : nat).

Definition text (h : gmap nat cstring) (p : pointer) : result cstring :=
  match p with Buf s => Ok s | Ptr p => of_option (h !! p) end.

(** * The functions *)

(** The loop of del_silence(); the last answer is whether [ret] is 0. *)
Fixpoint del_loop (h : gmap nat cstring) (mask : pointer) (l : list Silence)
    : result (gmap nat cstring * list Silence * bool) :=
  match l with
  | [] => Ok (h, [], false)
  | x :: l =>
      m ← text h mask; t ← text h (Ptr (cp x));
      r ← mmatch m t;
      if decide (r = 0) then
        '(h, l, _) ← del_loop (delete (cp x) h) mask l; Ok (h, l, true)
      else '(h, l, ret) ← del_loop h mask l; Ok (h, x :: l, ret)
  end.

Definition del_silence (st : silences) (mask : pointer) : result (silences * bool) :=
  '(h, l, ret) ← del_loop (heap st) mask (silence st); Ok (mkSilences h l, ret).

(** Why the loop of add_silence() ends: at the end of the list, or by a return *)
Inductive verdict : Type := Room | Known | Full | Covered.

Fixpoint add_loop (my : bool) (mask : cstring) (h : gmap nat cstring) (l : list Silence) (len cnt : Z)
    : result (gmap nat cstring * list Silence * verdict) :=
  match l with
  | [] => Ok (h, [], Room)
  | x :: l =>
      t ← text h (Ptr (cp x));
      if decide (strCasediff mask t = 0) then Ok (h, x :: l, Known)
      else
        r ← mmatch mask t;
        if decide (r = 0) then add_loop my mask (delete (cp x) h) l len cnt
        else if my then
          let len := len + Z.of_nat (length t) in
          let cnt := cnt + 1 in
          if decide (MAXSILELENGTH < len \/ MAXSILES <= cnt) then Ok (h, x :: l, Full)
          else
            r ← mmatch t mask;
            if decide (r = 0) then Ok (h, x :: l, Covered)
            else '(h, l, v) ← add_loop my mask h l len cnt; Ok (h, x :: l, v)
        else '(h, l, v) ← add_loop my mask h l len cnt; Ok (h, x :: l, v)
  end.

(** [(ip_start = strrchr(mask, '@')) && check_if_ipmask(ip_start + 1)] *)
Definition is_ipmask (mask : cstring) : bool :=
  match rsplit_at mask with Some (_, host) => bool_decide (check_if_ipmask host <> 0) | None => false end.

(** [p] is the block that the allocation gives; the answer of C is 0 for [Room]. *)
Definition add_silence (st : silences) (my : bool) (mask : cstring) (p : nat) : result (silences * verdict) :=
  '(h, l, v) ← add_loop my mask (heap st) (silence st) (Z.of_nat (length mask)) 0;
  match v with
  | Room =>
      let x := mkSilence p (if is_ipmask mask then CHFL_SILENCE_IPMASK else 0) in
      Ok (mkSilences (<[p := mask]> h) (x :: l), v)
  | _ => Ok (mkSilences h l, v)
  end.

(** The static buffers of is_silenced() *)
Record senders := mkSenders { sender : list ascii; senderip : list ascii; sendervirtual : list ascii }.
Definition SOCKIPLEN : nat := 45.
Definition SENDERLEN : nat := HOSTLEN + NICKLEN + USERLEN + 5.
Definition SENDERIPLEN : nat := SOCKIPLEN + NICKLEN + USERLEN + 5.
Definition SENDERVIRTUALLEN : nat := 100 + HOSTLEN + NICKLEN + USERLEN + 5.
Definition no_senders : senders :=
  mkSenders (replicate SENDERLEN NUL) (replicate SENDERIPLEN NUL) (replicate SENDERVIRTUALLEN NUL).

Definition set_senders (w : names) (bs : senders) : result senders :=
  b1 ← compose (sender bs) (n_host w);
  b2 ← compose (senderip bs) (n_ip w);
  b3 ← compose (sendervirtual bs) (n_vhost w);
  Ok (mkSenders b1 b2 b3).

(** One mask of the list against the names of the sender *)
Definition silence_hit (bs : senders) (h : gmap nat cstring) (x : Silence) : result bool :=
  t ← text h (Ptr (cp x));
  if has (sflags x) CHFL_SILENCE_IPMASK then match_name match_ t (senderip bs)
  else
    r ← match_name match_ t (sender bs);
    if r : bool then Ok true else match_name match_ t (sendervirtual bs).

(** The first mask that hits; C answers 1 then, and sends it upstream for a sender
    that is not local. *)
Fixpoint is_silenced_loop (bs : senders) (h : gmap nat cstring) (l : list Silence) : result (option nat) :=
  match l with
  | [] => Ok None
  | x :: l => r ← silence_hit bs h x; if r : bool then Ok (Some (cp x)) else is_silenced_loop bs h l
  end.

Definition is_silenced (w : names) (st : silences) (bs : senders) : result (option nat * senders) :=
  match silence st with
  | [] => Ok (None, bs)
  | _ => bs ← set_senders w bs; o ← is_silenced_loop bs (heap st) (silence st); Ok (o, bs)
  end.

(** ** The command *)

Inductive reply : Type :=
  | Sile_list (masks : list cstring)
  | Sile_cant_be_shown
  | Sile_list_full (mask : cstring)
  | Sile_changed (c : ascii) (mask : cstring)
  | To_servers (mask : cstring).

Fixpoint masks (h : gmap nat cstring) (l : list Silence) : result (list cstring) :=
  match l with
  | [] => Ok []
  | x :: l => t ← text h (Ptr (cp x)); ts ← masks h l; Ok (t :: ts)
  end.

(** [strchr(cp, '@') || strchr(cp, '.') || strchr(cp, '!') || strchr(cp, '*')] *)
Definition a_mask (cp : cstring) : bool :=
  existsb (fun c => bool_decide (c ∈ cp)) ["@"%char; "."%char; "!"%char; "*"%char].

Definition change_silence (st : silences) (c : ascii) (cp : cstring) (p : nat) : result (silences * list reply) :=
  cp ← pretty_mask cp;
  if decide (c = "-"%char) then
    '(st, found) ← del_silence st (Buf cp);
    Ok (st, if found : bool then [Sile_changed c cp; To_servers cp] else [])
  else
    '(st, v) ← add_silence st true cp p;
    Ok (st, match v with Room => [Sile_changed c cp] | Full => [Sile_list_full cp] | _ => [] end).

(** m_silence() of a local user called [name] *)
Definition m_silence (st : silences) (name : cstring) (parv : option cstring) (p : nat)
    : result (silences * list reply) :=
  let own := match parv with None => true | Some s => bool_decide (s = []) || bool_decide (strCasecmp name s = 0) end in
  if own then ts ← masks (heap st) (silence st); Ok (st, [Sile_list ts])
  else
    let cp := default [] parv in
    let c := chr cp in
    if decide (c = "-"%char \/ c = "+"%char) then change_silence st c (adv cp) p
    else if negb (a_mask cp) then Ok (st, [Sile_cant_be_shown])
    else change_silence st "+"%char cp p.

(** m_silence() of another server; the answers are whether the message goes to all
    servers, and whether it goes on to the server of the client it names. *)
Definition m_silence_remote (st : silences) (parv : cstring) (to_server : bool) (p : nat)
    : result (silences * (bool * bool)) :=
  if decide (chr parv = "-"%char) then
    '(st, found) ← del_silence st (Buf (adv parv)); Ok (st, (found, false))
  else '(st, _) ← add_silence st false parv p; Ok (st, (false, to_server)).

(** [while ((lp = bcptr->user->silence)) del_silence(bcptr, lp->value.cp);] *)
Fixpoint exit_silences (fuel : nat) (st : silences) : result silences :=
  match fuel with
  | O => Fuel
  | S fuel =>
      match silence st with
      | [] => Ok st
      | x :: _ => '(st, _) ← del_silence st (Ptr (cp x)); exit_silences fuel st
      end
  end.

(** * What the masks say *)

(** mmatch() on masks of users *)
Definition covered (m t : cstring) : bool := bool_decide (mmatch m t = Ok 0).

(** A mask with its kind *)
Notation entry := (cstring * bool)%type.
Definition entry_of (m : cstring) : entry := (m, is_ipmask m).

(** The senders that a mask stands for, and those that match() may answer for with
    something behind the name in its buffer *)
Definition silences_by (m : cstring -> cstring -> Prop) (w : names) (t : entry) : Prop :=
  if t.2 then m t.1 (n_ip w) else m t.1 (n_host w) \/ m t.1 (n_vhost w).
Definition silences_hits : names -> entry -> Prop := silences_by (fun mask => glob toLower (tokens mask)).
Definition may_silence : names -> entry -> Prop :=
  silences_by (fun mask name => exists tail, match_ mask (name ++ NUL :: tail) = Ok 0).

Definition w_ok (w : names) : Prop :=
  name_fits SENDERLEN (n_host w) /\ name_fits SENDERIPLEN (n_ip w) /\ name_fits SENDERVIRTUALLEN (n_vhost w).
#[export] Instance w_ok_dec w : Decision (w_ok w).
Proof. unfold w_ok. apply _. Defined.

Definition senders_ok (bs : senders) : Prop :=
  buf_ok SENDERLEN (sender bs) /\ buf_ok SENDERIPLEN (senderip bs) /\ buf_ok SENDERVIRTUALLEN (sendervirtual bs).

(** No mask of the list covers another. *)
Fixpoint apart (ts : list entry) : Prop :=
  match ts with
  | [] => True
  | t :: ts => Forall (fun u => covered t.1 u.1 = false /\ covered u.1 t.1 = false) ts /\ apart ts
  end.
#[export] Instance apart_dec ts : Decision (apart ts).
Proof. induction ts; simpl; apply _. Defined.

Definition total (ts : list entry) : Z := fold_right (fun t n => Z.of_nat (length t.1) + n) 0 ts.

Definition entries_ok (ts : list entry) : Prop :=
  Forall (fun t => user_mask t.1 /\ t.2 = is_ipmask t.1) ts.
#[export] Instance entries_ok_dec ts : Decision (entries_ok ts).
Proof. unfold entries_ok. apply _. Defined.

(** The lists of a local user *)
Definition list_ok (ts : list entry) : Prop :=
  entries_ok ts /\ apart ts /\ Z.of_nat (length ts) <= MAXSILES /\ total ts <= MAXSILELENGTH.
#[export] Instance list_ok_dec ts : Decision (list_ok ts).
Proof. unfold list_ok. apply _. Defined.

(** What the mask [m] takes out of a list *)
Definition without (m : cstring) (ts : list entry) : list entry := filter (fun t => covered m t.1 = false) ts.

(** ** The heap *)

Definition holds (h : gmap nat cstring) (x : Silence) (t : entry) : Prop :=
  h !! cp x = Some t.1 /\ has (sflags x) CHFL_SILENCE_IPMASK = t.2.

(** Every text of the heap belongs to one link. *)
Record repr (st : silences) (ts : list entry) : Prop := {
  r_nodup : NoDup (cp <$> silence st);
  r_owned p : is_Some (heap st !! p) -> p ∈ cp <$> silence st;
  r_texts : Forall2 (holds (heap st)) (silence st) ts }.

(** * Lemmas *)

Lemma mmatch_covered m t :
  user_mask m -> is_cstr t ->
  exists r, mmatch m t = Ok r /\ (r = 0 <-> covered m t = true) /\
    (covered m t = true <-> covers (tokens m) (tokens t)).
Proof.
  intros [Hm Hb] Ht. assert (Hl := bang_lit m Hb).
  destruct (mmatch_spec m t Hm Ht) as (r&Hr&H1&H2); [left; intros ->; by apply not_elem_of_nil in Hb|].
  exists r. unfold covered. rewrite bool_decide_eq_true, Hr.
  assert (E : r = 0 <-> Ok r = Ok 0) by (split; [by intros ->|by intros [= ->]]).
  split_and!; [done|done|]. rewrite <- E. naive_solver.
Qed.

Lemma covered_refl m : user_mask m -> covered m m = true.
Proof. intros Hm. destruct (mmatch_covered m m Hm) as (r&_&_&H); [apply Hm|]. apply H, covers_refl. Qed.

Lemma covered_trans a b c :
  user_mask a -> user_mask b -> is_cstr c -> covered a b = true -> covered b c = true -> covered a c = true.
Proof.
  intros Ha Hb Hc H1 H2. destruct (mmatch_covered a b Ha) as (_&_&_&E1); [apply Hb|].
  destruct (mmatch_covered b c Hb Hc) as (_&_&_&E2). destruct (mmatch_covered a c Ha Hc) as (_&_&_&E3).
  apply E3. eapply covers_trans; [by apply E1|by apply E2].
Qed.

Lemma covered_includes m t s :
  user_mask m -> is_cstr t -> covered m t = true -> glob toLower (tokens t) s -> glob toLower (tokens m) s.
Proof. intros Hm Ht Hc. destruct (mmatch_covered m t Hm Ht) as (_&_&_&E). by apply covers_includes, E. Qed.

(** The frame of a loop over the links [l] that leaves [l'] *)
Definition freed (h h' : gmap nat cstring) (l l' : list Silence) : Prop :=
  sublist l' l /\
  forall p, h' !! p = if decide (p ∈ cp <$> l /\ p ∉ cp <$> l') then None else h !! p.

Lemma freed_refl h l : freed h h l l.
Proof. split; [done|]. intros p. by rewrite decide_False by tauto. Qed.

Lemma sublist_cp l l' p : sublist l' l -> p ∈ cp <$> l' -> p ∈ cp <$> l.
Proof. intros Hs (x&->&Hx)%list_elem_of_fmap. apply list_elem_of_fmap_2. eapply elem_of_submseteq; [exact Hx|by apply sublist_submseteq]. Qed.

(** One link is freed, or kept. *)
Lemma freed_drop h h' x l l' :
  (cp x ∉ cp <$> l) -> freed (delete (cp x) h) h' l l' -> freed h h' (x :: l) l'.
Proof.
  intros Hx [Hs Hf]. split; [by apply sublist_cons|]. intros p. rewrite Hf.
  assert (Hc : p ∈ cp <$> x :: l <-> p = cp x \/ p ∈ cp <$> l) by (by rewrite fmap_cons, elem_of_cons).
  destruct (decide (p = cp x)) as [->|Hne].
  - rewrite lookup_delete_eq, (decide_True (P := (cp x ∈ cp <$> x :: l /\ _))); [by destruct (decide _)|].
    split; [apply Hc; by left|]. intros H. by apply Hx, (sublist_cp l l').
  - rewrite lookup_delete_ne by done. apply decide_ext. naive_solver.
Qed.

Lemma freed_keep h h' x l l' : (cp x ∉ cp <$> l) -> freed h h' l l' -> freed h h' (x :: l) (x :: l').
Proof.
  intros Hx [Hs Hf]. split; [by apply sublist_skip|]. intros p. rewrite Hf. apply decide_ext.
  rewrite !fmap_cons, !elem_of_cons. destruct (decide (p = cp x)) as [->|Hne]; [|naive_solver].
  split; [by intros []|]. intros [_ []]. by left.
Qed.

(** What is outside the links of the loop stays. *)
Lemma holds_delete h x l ts : (cp x ∉ cp <$> l) -> Forall2 (holds h) l ts -> Forall2 (holds (delete (cp x) h)) l ts.
Proof.
  intros Hx H. induction H as [|y t l ts [Hy Ht] H IH]; [constructor|].
  apply not_elem_of_cons in Hx as [Hne Hx]. constructor; [|by apply IH].
  split; [|done]. by rewrite lookup_delete_ne.
Qed.

Lemma holds_insert h p m l ts : (p ∉ cp <$> l) -> Forall2 (holds h) l ts -> Forall2 (holds (<[p := m]> h)) l ts.
Proof.
  intros Hp H. induction H as [|y t l ts [Hy Ht] H IH]; [constructor|].
  apply not_elem_of_cons in Hp as [Hne Hp]. constructor; [|by apply IH].
  split; [|done]. by rewrite lookup_insert_ne.
Qed.

Lemma holds_keep h h' x l l' t :
  (cp x ∉ cp <$> l) -> freed h h' l l' -> holds h x t -> holds h' x t.
Proof. intros Hx [_ Hf] [Hh Ht]. split; [|done]. rewrite Hf. rewrite decide_False; [done|]. by intros []. Qed.

Lemma del_loop_spec h m l ts :
  user_mask m -> entries_ok ts -> NoDup (cp <$> l) -> Forall2 (holds h) l ts ->
  exists h' l', del_loop h (Buf m) l = Ok (h', l', existsb (fun t => covered m t.1) ts) /\
    freed h h' l l' /\ Forall2 (holds h') l' (without m ts).
Proof.
  intros Hm Hok Hnd H. revert h l Hnd H. induction ts as [|t ts IH]; intros h l Hnd H.
  { apply Forall2_nil_inv_r in H as ->. exists h, []. split_and!; [done|apply freed_refl|constructor]. }
  apply Forall2_cons_inv_r in H as (x&l0&[Hx Hxf]&H&->). apply Forall_cons_iff in Hok as [[Ht _] Hok].
  rewrite fmap_cons in Hnd. apply NoDup_cons in Hnd as [Hnx Hnd]. cbn [del_loop text mbind result_bind].
  rewrite Hx. cbn [of_option mbind result_bind].
  destruct (mmatch_covered m t.1 Hm (proj1 Ht)) as (r&->&Hr&_). cbn [mbind result_bind existsb].
  unfold without. rewrite filter_cons.
  destruct (decide (r = 0)) as [E|Hne].
  - apply Hr in E. rewrite E. destruct (IH Hok (delete (cp x) h) l0 Hnd) as (h'&l'&->&F&T); [by apply holds_delete|].
    cbn [mbind result_bind orb]. exists h', l'. rewrite decide_False by done.
    split_and!; [done|by apply freed_drop|done].
  - destruct (covered m t.1) eqn:Ec; [by destruct Hne; apply Hr|].
    destruct (IH Hok h l0 Hnd H) as (h'&l'&->&F&T). cbn [mbind result_bind orb].
    exists h', (x :: l'). rewrite decide_True by done. split_and!; [done|by apply freed_keep|].
    constructor; [|done]. eapply holds_keep; [exact Hnx|exact F|done].
Qed.

(** Where the loop of add_silence() stopped: what came before has lost the masks
    that [m] covers. *)
Definition stopped (m : cstring) (ts ts' pre post : list entry) : Prop :=
  ts = pre ++ post /\ ts' = without m pre ++ post.

Definition added (my : bool) (m : cstring) (ts ts' : list entry) (len cnt : Z) (v : verdict) : Prop :=
  match v with
  | Room => ts' = without m ts /\ (my = true -> Forall (fun t => covered t.1 m = false) ts' /\
      (ts' <> [] -> len + total ts' <= MAXSILELENGTH /\ cnt + Z.of_nat (length ts') < MAXSILES))
  | Known => exists pre t post, stopped m ts ts' pre (t :: post) /\ case_equiv m t.1
  | Full => my = true /\ exists pre post, stopped m ts ts' pre post
  | Covered => my = true /\ exists pre t post, stopped m ts ts' pre (t :: post) /\ covered t.1 m = true
  end.

Lemma stopped_drop m t ts ts' pre post :
  covered m t.1 = true -> stopped m ts ts' pre post -> stopped m (t :: ts) ts' (t :: pre) post.
Proof. intros Hc [-> ->]. split; [done|]. unfold without. by rewrite filter_cons_False by (by rewrite Hc). Qed.

Lemma stopped_keep m t ts ts' pre post :
  covered m t.1 = false -> stopped m ts ts' pre post -> stopped m (t :: ts) (t :: ts') (t :: pre) post.
Proof. intros Hc [-> ->]. split; [done|]. unfold without. by rewrite filter_cons_True. Qed.

Lemma added_drop my m t ts ts' len cnt v :
  covered m t.1 = true -> added my m ts ts' len cnt v -> added my m (t :: ts) ts' len cnt v.
Proof.
  intros Hc. assert (D := fun pre post => stopped_drop m t ts ts' pre post Hc). destruct v; cbn [added].
  - intros [-> H]. split; [|done]. unfold without. by rewrite filter_cons_False by (by rewrite Hc).
  - intros (pre&u&post&Hs&He). by exists (t :: pre), u, post; split; [apply D|].
  - intros (Hmy&pre&post&Hs). split; [done|]. by exists (t :: pre), post; apply D.
  - intros (Hmy&pre&u&post&Hs&He). split; [done|]. by exists (t :: pre), u, post; split; [apply D|].
Qed.

Lemma added_keep my m t ts ts' len cnt len' cnt' v :
  covered m t.1 = false ->
  (my = true -> covered t.1 m = false /\ len' = len + Z.of_nat (length t.1) /\ cnt' = cnt + 1 /\
     len' <= MAXSILELENGTH /\ cnt' < MAXSILES) ->
  added my m ts ts' len' cnt' v -> added my m (t :: ts) (t :: ts') len cnt v.
Proof.
  intros Hc Hmy. assert (K := fun pre post => stopped_keep m t ts ts' pre post Hc). destruct v; cbn [added].
  - intros [-> H]. split; [unfold without; by rewrite filter_cons_True|]. intros Ht.
    destruct (Hmy Ht) as (Hcov&->&->&Hl&Hn). destruct (H Ht) as [HF HB]. split; [by constructor|]. intros _.
    change (total (t :: without m ts)) with (Z.of_nat (length t.1) + total (without m ts)). cbn [length].
    destruct (decide (without m ts = [])) as [->|Hne]; [|specialize (HB Hne); lia].
    change (total []) with 0. cbn [length]. lia.
  - intros (pre&u&post&Hs&He). by exists (t :: pre), u, post; split; [apply K|].
  - intros (Hm&pre&post&Hs). split; [done|]. by exists (t :: pre), post; apply K.
  - intros (Hm&pre&u&post&Hs&He). split; [done|]. by exists (t :: pre), u, post; split; [apply K|].
Qed.

Lemma silence_loop_spec my h m l ts len cnt :
  user_mask m -> entries_ok ts -> NoDup (cp <$> l) -> Forall2 (holds h) l ts ->
  exists h' l' v ts', add_loop my m h l len cnt = Ok (h', l', v) /\
    freed h h' l l' /\ Forall2 (holds h') l' ts' /\ added my m ts ts' len cnt v.
Proof.
  intros Hm Hok Hnd H. revert h l len cnt Hnd H. induction ts as [|t ts IH]; intros h l len cnt Hnd H.
  { apply Forall2_nil_inv_r in H as ->. exists h, [], Room, []. split_and!; [done|apply freed_refl|constructor|].
    split; [done|]. intros _. by split; [constructor|]. }
  apply Forall2_cons_inv_r in H as (x&l0&[Hx Hxf]&H&->). apply Forall_cons_iff in Hok as [[Ht _] Hok].
  rewrite fmap_cons in Hnd. apply NoDup_cons in Hnd as [Hnx Hnd]. cbn [add_loop text].
  rewrite Hx. cbn [of_option mbind result_bind].
  assert (Hstop : Forall2 (holds h) (x :: l0) (t :: ts)) by (by constructor).
  assert (S0 : stopped m (t :: ts) (t :: ts) [] (t :: ts)) by done.
  destruct (decide (strCasediff m t.1 = 0)) as [E|_].
  { exists h, (x :: l0), Known, (t :: ts). split_and!; [done|apply freed_refl|done|].
    exists [], t, ts. split; [done|]. by apply strCasediff_0 in E; [|apply Hm|apply Ht]. }
  destruct (mmatch_covered m t.1 Hm (proj1 Ht)) as (r&->&Hr&_). cbn [mbind result_bind].
  destruct (decide (r = 0)) as [E|Hne].
  { apply Hr in E. destruct (IH Hok (delete (cp x) h) l0 len cnt Hnd) as (h'&l'&v&ts'&->&F&T&A);
      [by apply holds_delete|].
    exists h', l', v, ts'. split_and!; [done|by apply freed_drop|done|by apply added_drop]. }
  assert (Ec : covered m t.1 = false) by (destruct (covered m t.1) eqn:Ec; [by destruct Hne; apply Hr|done]).
  assert (Rest : forall len' cnt',
    (my = true -> covered t.1 m = false /\ len' = len + Z.of_nat (length t.1) /\ cnt' = cnt + 1 /\
       len' <= MAXSILELENGTH /\ cnt' < MAXSILES) ->
    exists h' l' v ts', ('(h, l, v) ← add_loop my m h l0 len' cnt'; Ok (h, x :: l, v)) = Ok (h', l', v) /\
      freed h h' (x :: l0) l' /\ Forall2 (holds h') l' ts' /\ added my m (t :: ts) ts' len cnt v).
  { intros len' cnt' Hmy. destruct (IH Hok h l0 len' cnt' Hnd H) as (h'&l'&v&ts'&->&F&T&A).
    exists h', (x :: l'), v, (t :: ts'). split_and!; [done|by apply freed_keep| |by eapply added_keep].
    constructor; [|done]. eapply holds_keep; [exact Hnx|exact F|done]. }
  destruct my; [|by apply Rest]. cbv zeta.
  destruct (decide _) as [Hfull|Hroom].
  { exists h, (x :: l0), Full, (t :: ts). split_and!; [done|apply freed_refl|done|]. split; [done|].
    by exists [], (t :: ts). }
  destruct (mmatch_covered t.1 m Ht (proj1 Hm)) as (r'&->&Hr'&_). cbn [mbind result_bind].
  destruct (decide (r' = 0)) as [E|Hne'].
  { exists h, (x :: l0), Covered, (t :: ts). split_and!; [done|apply freed_refl|done|]. split; [done|].
    exists [], t, ts. split; [done|]. by apply Hr'. }
  apply Rest. intros _. split_and!; [|done|done|lia|lia].
  destruct (covered t.1 m) eqn:E; [by destruct Hne'; apply Hr'|done].
Qed.

(** ** Lists of masks *)

Lemma apart_sublist ts ts' : sublist ts' ts -> apart ts -> apart ts'.
Proof.
  induction 1 as [|t ts' ts Hs IH|t ts' ts Hs IH]; simpl; [done| |naive_solver].
  intros [HF HA]. split; [|by apply IH]. rewrite Forall_forall in HF |- *. intros u Hu. apply HF.
  eapply elem_of_submseteq; [exact Hu|by apply sublist_submseteq].
Qed.

Lemma total_nonneg ts : 0 <= total ts.
Proof. induction ts as [|t ts IH]; [done|]. change (total (t :: ts)) with (Z.of_nat (length t.1) + total ts). lia. Qed.

Lemma total_sublist ts ts' : sublist ts' ts -> total ts' <= total ts.
Proof.
  induction 1 as [|t ts' ts Hs IH|t ts' ts Hs IH]; [done|..];
    change (total (t :: ts)) with (Z.of_nat (length t.1) + total ts).
  - change (total (t :: ts')) with (Z.of_nat (length t.1) + total ts'). lia.
  - lia.
Qed.

Lemma list_ok_sublist ts ts' : sublist ts' ts -> list_ok ts -> list_ok ts'.
Proof.
  intros Hs (He&Ha&Hn&Ht). assert (Hl := sublist_length _ _ Hs). assert (Hm := total_sublist _ _ Hs).
  split_and!; [|by eapply apart_sublist|lia|lia]. unfold entries_ok in *. rewrite Forall_forall in He |- *.
  intros t Hin. apply He. eapply elem_of_submseteq; [exact Hin|by apply sublist_submseteq].
Qed.

Lemma without_sublist m ts : sublist (without m ts) ts.
Proof.
  unfold without. induction ts as [|t ts IH]; [done|]. rewrite filter_cons.
  destruct (decide _); [by apply sublist_skip|by apply sublist_cons].
Qed.

Lemma stopped_sublist m ts ts' pre post : stopped m ts ts' pre post -> sublist ts' ts.
Proof. intros [-> ->]. apply sublist_app; [apply without_sublist|done]. Qed.

Lemma without_id m ts : Forall (fun t => covered m t.1 = false) ts -> without m ts = ts.
Proof. unfold without. induction 1 as [|t ts Ht _ IH]; [done|]. rewrite filter_cons_True by done. by rewrite IH. Qed.

(** A mask that is covered by one of the list covers none of the list before it. *)
Lemma covered_stays m pre t post :
  user_mask m -> entries_ok (pre ++ t :: post) -> apart (pre ++ t :: post) -> covered t.1 m = true ->
  without m pre = pre.
Proof.
  intros Hm He Ha Hc. apply without_id.
  assert (Ht : user_mask t.1) by (unfold entries_ok in He; rewrite Forall_forall in He; apply He, elem_of_app; right; left).
  induction pre as [|u pre IH]; [constructor|]. apply Forall_cons_iff in He as [[Hu _] He].
  destruct Ha as [HF HA]. constructor; [|by apply IH].
  destruct (covered m u.1) eqn:E; [|done]. rewrite Forall_forall in HF.
  destruct (HF t) as [_ Hn]; [apply elem_of_app; right; left|].
  by rewrite (covered_trans t.1 m u.1 Ht Hm (proj1 Hu) Hc E) in Hn.
Qed.

(** ** The heap after a call *)

Lemma repr_freed st h' l' ts ts' :
  repr st ts -> freed (heap st) h' (silence st) l' -> Forall2 (holds h') l' ts' -> repr (mkSilences h' l') ts'.
Proof.
  intros [Hnd Ho _] [Hs Hf] HT. split; cbn [heap silence]; [| |done].
  - apply (sublist_NoDup _ (cp <$> silence st)); [done|]. by apply fmap_sublist.
  - intros p. rewrite Hf. destruct (decide _) as [|Hn]; [by intros [? ?]|]. intros Hp. specialize (Ho p Hp).
    destruct (decide (p ∈ cp <$> l')); [done|tauto].
Qed.

Lemma del_silence_spec st ts m :
  repr st ts -> entries_ok ts -> user_mask m ->
  exists st', del_silence st (Buf m) = Ok (st', existsb (fun t => covered m t.1) ts) /\ repr st' (without m ts).
Proof.
  intros R He Hm. destruct (del_loop_spec (heap st) m (silence st) ts Hm He) as (h'&l'&E&F&T); [apply R|apply R|].
  unfold del_silence. rewrite E. eexists. split; [reflexivity|]. by eapply repr_freed.
Qed.

Definition mask_max : nat := NICKLEN + USERLEN + HOSTLEN + 2.

Lemma add_silence_spec st ts m p :
  repr st ts -> list_ok ts -> user_mask m -> (length m <= mask_max)%nat -> heap st !! p = None ->
  exists st' v ts', add_silence st true m p = Ok (st', v) /\ repr st' ts' /\ list_ok ts' /\
    match v with
    | Room => ts' = entry_of m :: without m ts
    | Known => sublist ts' ts /\ Exists (fun t => case_equiv m t.1) ts
    | Full => sublist ts' ts
    | Covered => ts' = ts /\ Exists (fun t => covered t.1 m = true) ts
    end.
Proof.
  intros R Hok Hm Hlen Hp. assert (Hok' := Hok). destruct Hok' as (He&Ha&Hn&Ht).
  destruct (silence_loop_spec true (heap st) m (silence st) ts (Z.of_nat (length m)) 0 Hm He) as (h'&l'&v&ts'&E&F&T&A);
    [apply R|apply R|].
  unfold add_silence. rewrite E. cbn [mbind result_bind].
  assert (R' : repr (mkSilences h' l') ts') by (by eapply repr_freed).
  destruct v; cbn [added] in A.
  - destruct A as [-> A]. destruct (A eq_refl) as [HF HB].
    eexists _, Room, (entry_of m :: without m ts). split_and!; [reflexivity| | |done].
    + destruct R' as [Hnd Ho HT]. cbn [heap silence] in *.
      assert (Hp' : p ∉ cp <$> l').
      { intros Hin. destruct F as [Hs _]. apply (sublist_cp _ _ _ Hs) in Hin.
        apply list_elem_of_fmap in Hin as (x&->&Hx). assert (HR := r_texts _ _ R).
        apply list_elem_of_lookup_1 in Hx as [i Hi]. destruct (Forall2_lookup_l _ _ _ _ _ HR Hi) as (t&_&[Hh _]).
        congruence. }
      split; cbn [heap silence].
      * rewrite fmap_cons. by constructor.
      * intros q [<-|[Hne Hq]]%lookup_insert_is_Some; [rewrite fmap_cons; left|].
        rewrite fmap_cons. right. by apply Ho.
      * constructor.
        -- split; cbn [cp sflags entry_of fst snd]; [apply lookup_insert_eq|]. by destruct (is_ipmask m).
        -- apply holds_insert; done.
    + split_and!.
      * constructor; [done|]. by eapply (list_ok_sublist ts), Hok; apply without_sublist.
      * cbn [apart]. split; [|eapply apart_sublist; [apply without_sublist|done]].
        rewrite Forall_forall in HF |- *. intros t Hin. split; [|by apply HF].
        unfold without in Hin. by apply list_elem_of_filter in Hin as [? _].
      * cbn [length]. destruct (decide (without m ts = [])) as [->|Hne]; [done|].
        destruct (HB Hne) as [_ ?]. unfold MAXSILES in *. lia.
      * change (total (entry_of m :: without m ts)) with (Z.of_nat (length m) + total (without m ts)).
        destruct (decide (without m ts = [])) as [->|Hne]; [|by destruct (HB Hne)].
        change (total []) with 0. unfold mask_max, NICKLEN, USERLEN, HOSTLEN, MAXSILELENGTH in *. lia.
  - destruct A as (pre&t&post&Hs&Hc). assert (Hsub := stopped_sublist _ _ _ _ _ Hs).
    eexists _, Known, ts'. split_and!; [reflexivity|done|by eapply list_ok_sublist|done|].
    destruct Hs as [-> _]. apply Exists_app. right. by left.
  - destruct A as (_&pre&post&Hs). assert (Hsub := stopped_sublist _ _ _ _ _ Hs).
    eexists _, Full, ts'. split_and!; [reflexivity|done|by eapply list_ok_sublist|done].
  - destruct A as (_&pre&t&post&[-> ->]&Hc). rewrite (covered_stays m pre t post Hm He Ha Hc) in *.
    eexists _, Covered, _. split_and!; [reflexivity|done|done|done|]. apply Exists_app. right. by left.
Qed.

(** ** Who is silenced *)

Lemma no_senders_ok : senders_ok no_senders.
Proof.
  split_and!; (split; [done|]); [exists (replicate 106 NUL)|exists (replicate 88 NUL)|exists (replicate 206 NUL)]; reflexivity.
Qed.

(** What the buffers hold once they are set *)
Definition senders_of (w : names) (bs : senders) : Prop :=
  (exists tail, sender bs = n_host w ++ NUL :: tail) /\ (exists tail, senderip bs = n_ip w ++ NUL :: tail) /\
  (exists tail, sendervirtual bs = n_vhost w ++ NUL :: tail).

Lemma set_senders_spec w bs :
  w_ok w -> senders_ok bs -> exists bs', set_senders w bs = Ok bs' /\ senders_ok bs' /\ senders_of w bs'.
Proof.
  intros (Hh&Hi&Hv) (H1&H2&H3). unfold set_senders.
  destruct (compose_spec _ _ _ Hh H1) as (b1&t1&->&?&?). cbn [mbind result_bind].
  destruct (compose_spec _ _ _ Hi H2) as (b2&t2&->&?&?). cbn [mbind result_bind].
  destruct (compose_spec _ _ _ Hv H3) as (b3&t3&->&?&?). cbn [mbind result_bind].
  eexists. split; [done|]. split; [done|]. split_and!; [by exists t1|by exists t2|by exists t3].
Qed.

Lemma silence_hit_spec w bs h x t :
  w_ok w -> senders_ok bs -> senders_of w bs -> user_mask t.1 -> holds h x t ->
  exists r, silence_hit bs h x = Ok r /\ (silences_hits w t -> r = true) /\ (r = true -> may_silence w t).
Proof.
  intros ([Hh _]&[Hi _]&[Hv _]) (Hb1&Hb2&Hb3) ((t1&E1)&(t2&E2)&(t3&E3)) [Hm _] [Hx Hf].
  unfold silence_hit, silences_hits, may_silence, silences_by, match_. cbn [text]. rewrite Hx, Hf.
  cbn [of_option mbind result_bind]. destruct t as [m k]. cbn [fst snd] in *.
  rewrite E1 in Hb1 |- *. rewrite E2 in Hb2 |- *. rewrite E3 in Hb3 |- *.
  destruct k; [exact (ban_name_spec toLower m (n_ip w) t2 _ toLower_eq_NUL Hm Hi Hb2)|].
  destruct (ban_name_spec toLower m (n_host w) t1 _ toLower_eq_NUL Hm Hh Hb1) as (r1&->&H1&H1').
  destruct (ban_name_spec toLower m (n_vhost w) t3 _ toLower_eq_NUL Hm Hv Hb3) as (r2&E&H2&H2').
  cbn [mbind result_bind]. destruct r1; [exists true; naive_solver|].
  rewrite E. exists r2. split; [done|]. naive_solver.
Qed.

Lemma is_silenced_spec w st bs ts :
  w_ok w -> senders_ok bs -> repr st ts -> entries_ok ts ->
  exists o bs', is_silenced w st bs = Ok (o, bs') /\ senders_ok bs' /\
    (Exists (silences_hits w) ts -> is_Some o) /\ (is_Some o -> Exists (may_silence w) ts).
Proof.
  intros Hw Hbs [_ _ HT] He. unfold is_silenced.
  assert (Hloop : forall bs, senders_ok bs -> senders_of w bs -> exists o, is_silenced_loop bs (heap st) (silence st) = Ok o /\
    (Exists (silences_hits w) ts -> is_Some o) /\ (is_Some o -> Exists (may_silence w) ts)).
  { clear bs Hbs. intros bs Hbs Hof. induction HT as [|x t l ts Hx HT IH].
    { exists None. split; [done|]. split; [by intros ?%Exists_nil|by intros []]. }
    apply Forall_cons_iff in He as [[Ht _] He]. cbn [is_silenced_loop].
    destruct (silence_hit_spec w bs (heap st) x t Hw Hbs Hof Ht Hx) as (r&->&Hr&Hr'). cbn [mbind result_bind].
    destruct r; [exists (Some (cp x)); split; [done|]; split; [done|intros _; left; by apply Hr']|].
    destruct (IH He) as (o&->&Ho&Ho'). exists o. rewrite !Exists_cons. naive_solver. }
  destruct (set_senders_spec w bs Hw Hbs) as (bs'&E&Hbs'&Hof). destruct (Hloop bs' Hbs' Hof) as (o&Ho&H1&H2).
  destruct (silence st) as [|x l] eqn:El.
  - exists None, bs. split_and!; [done|done| |by intros []]. cbn [is_silenced_loop] in Ho. by injection Ho as <-.
  - rewrite E. cbn [mbind result_bind]. rewrite Ho. by exists o, bs'.
Qed.

(** ** The command *)

Lemma masks_spec h l ts : Forall2 (holds h) l ts -> masks h l = Ok (map fst ts).
Proof.
  induction 1 as [|x t l ts [Hx _] _ IH]; [done|]. cbn [masks text]. rewrite Hx. cbn [of_option mbind result_bind].
  by rewrite IH.
Qed.

Lemma pretty_user_mask m :
  is_cstr m -> pretty_mask m = Ok (pretty_spec m) /\ user_mask (pretty_spec m) /\
    (length (pretty_spec m) <= mask_max)%nat.
Proof.
  intros Hm. split_and!; [by apply pretty_mask_spec|split; [by apply pretty_spec_Forall|apply pretty_spec_bang]|].
  assert (H := pretty_spec_length m). unfold mask_max. lia.
Qed.

Lemma change_silence_spec st ts c m p :
  repr st ts -> list_ok ts -> is_cstr m -> heap st !! p = None ->
  exists st' out ts', change_silence st c m p = Ok (st', out) /\ repr st' ts' /\ list_ok ts'.
Proof.
  intros R Hok Hm Hp. destruct (pretty_user_mask m Hm) as (E&Hu&Hlen). unfold change_silence. rewrite E.
  cbn [mbind result_bind]. destruct (decide (c = "-"%char)).
  - destruct (del_silence_spec st ts (pretty_spec m) R) as (st'&->&R'); [apply Hok|done|]. cbn [mbind result_bind].
    eexists _, _, _. split_and!; [reflexivity|exact R'|]. by eapply list_ok_sublist; [apply without_sublist|].
  - destruct (add_silence_spec st ts (pretty_spec m) p R Hok Hu Hlen Hp) as (st'&v&ts'&->&R'&Hok'&_).
    cbn [mbind result_bind]. by eexists _, _, ts'.
Qed.

Lemma m_silence_spec st ts name parv p :
  repr st ts -> list_ok ts -> is_cstr (default [] parv) -> heap st !! p = None ->
  exists st' out ts', m_silence st name parv p = Ok (st', out) /\ repr st' ts' /\ list_ok ts'.
Proof.
  intros R Hok Hm Hp. unfold m_silence.
  cbv zeta. match goal with |- context [if ?own then _ ≫= _ else _] => destruct own end.
  { rewrite (masks_spec _ _ ts (r_texts _ _ R)). cbn [mbind result_bind]. by eexists _, _, ts. }
  destruct (decide _); [by eapply change_silence_spec, Hp; [..|by apply is_cstr_adv]|].
  destruct (negb _); [by eexists _, _, ts|by eapply change_silence_spec].
Qed.

Lemma repr_empty : repr (mkSilences ∅ []) [].
Proof. split; [constructor| |constructor]. intros p. cbn. rewrite lookup_empty. by intros []. Qed.

Lemma list_ok_empty : list_ok [].
Proof. split_and!; [constructor|done..]. Qed.

(** * Correctness *)

(** A user called [name] sends these commands. *)
Section histories.
Variable malloc : gmap nat cstring -> nat.

Fixpoint run (st : silences) (name : cstring) (cmds : list (option cstring)) : result silences :=
  match cmds with
  | [] => Ok st
  | parv :: cmds => '(st, _) ← m_silence st name parv (malloc (heap st)); run st name cmds
  end.

(** C13. Whatever masks a user sends, every command ends without touching a freed
    text, no text is lost or shared, and the list keeps its promises: no mask
    covers another, there are at most MAXSILES, of together at most MAXSILELENGTH
    characters. *)
Theorem silence_invariant name cmds :
  (forall h, h !! malloc h = None) -> Forall (fun parv => is_cstr (default [] parv)) cmds ->
  exists st ts, run (mkSilences ∅ []) name cmds = Ok st /\ repr st ts /\ list_ok ts.
Proof.
  intros Hf. assert (H := repr_empty). assert (Hok := list_ok_empty). revert H Hok.
  generalize (mkSilences ∅ []) as st, (@nil entry) as ts.
  induction cmds as [|parv cmds IH]; intros st ts R Hok Hc; [by exists st, ts|].
  apply Forall_cons_iff in Hc as [Hc Hcs]. cbn [run].
  destruct (m_silence_spec st ts name parv (malloc (heap st)) R Hok Hc (Hf _)) as (st'&out&ts'&->&R'&Hok').
  by apply (IH st' ts').
Qed.

End histories.

(** A mask that is added takes the place of the masks that it covers: then those
    senders are silenced whom it or one of the others stands for, among them those whom
    a mask of the same kind stood for before, and nobody else but by what an earlier
    name has left in a buffer.  It is not added when one of the list covers it, and then
    nothing changes. *)
Theorem silence_added st ts m p w bs :
  repr st ts -> list_ok ts -> user_mask m -> (length m <= mask_max)%nat -> heap st !! p = None -> w_ok w -> senders_ok bs ->
  exists st' v ts' o bs', add_silence st true m p = Ok (st', v) /\ repr st' ts' /\ list_ok ts' /\
    is_silenced w st' bs = Ok (o, bs') /\
    (Exists (silences_hits w) ts' -> is_Some o) /\ (is_Some o -> Exists (may_silence w) ts') /\
    match v with
    | Room => ts' = entry_of m :: without m ts /\
        (forall t, t ∈ ts -> t.2 = is_ipmask m -> silences_hits w t -> is_Some o)
    | Covered => ts' = ts /\ Exists (fun t => covered t.1 m = true) ts
    | Known => sublist ts' ts /\ Exists (fun t => case_equiv m t.1) ts
    | Full => sublist ts' ts
    end.
Proof.
  intros R Hok Hm Hlen Hp Hw Hbs.
  destruct (add_silence_spec st ts m p R Hok Hm Hlen Hp) as (st'&v&ts'&->&R'&Hok'&Hv).
  destruct (is_silenced_spec w st' bs ts' Hw Hbs R' (proj1 Hok')) as (o&bs'&Ho&_&Hs&Hs').
  exists st', v, ts', o, bs'. split_and!; [done..|]. destruct v; try done. split; [done|]. subst ts'.
  intros t Hin Hk Hh. apply Hs. destruct (covered m t.1) eqn:Ec.
  - left. assert (Ht : user_mask t.1).
    { destruct Hok as [He _]. unfold entries_ok in He. rewrite Forall_forall in He. by apply He. }
    unfold silences_hits, silences_by in *. cbn [entry_of fst snd]. rewrite Hk in Hh.
    destruct (is_ipmask m); [by eapply covered_includes; [..|exact Hh]; [|apply Ht|]|].
    destruct Hh as [Hh|Hh]; [left|right]; by eapply covered_includes; [..|exact Hh]; [|apply Ht|].
  - right. apply Exists_exists. exists t. split; [|done]. unfold without. by apply list_elem_of_filter.
Qed.

(** "-mask" takes out exactly the masks that it covers, and the answer is
    whether there were any. *)
Theorem silence_removed st ts m w bs :
  repr st ts -> list_ok ts -> user_mask m -> w_ok w -> senders_ok bs ->
  exists st' o bs', del_silence st (Buf m) = Ok (st', existsb (fun t => covered m t.1) ts) /\
    repr st' (without m ts) /\ list_ok (without m ts) /\
    is_silenced w st' bs = Ok (o, bs') /\ (Exists (silences_hits w) (without m ts) -> is_Some o) /\
    (is_Some o -> Exists (may_silence w) (without m ts)).
Proof.
  intros R Hok Hm Hw Hbs. destruct (del_silence_spec st ts m R (proj1 Hok) Hm) as (st'&E&R').
  assert (Hok' := list_ok_sublist _ _ (without_sublist m ts) Hok).
  destruct (is_silenced_spec w st' bs (without m ts) Hw Hbs R' (proj1 Hok')) as (o&bs'&Ho&_&Hs). by exists st', o, bs'.
Qed.

(** C39. When a user leaves who silences others with two masks or more, the server
    reads a mask that it has freed: del_silence() is given the text of the first
    link, frees it with that link, and goes on comparing with it. *)
Theorem exit_reads_freed_mask st ts fuel :
  repr st ts -> entries_ok ts ->
  ((length ts <= 1)%nat -> exists l, exit_silences 2 st = Ok (mkSilences l []) /\ l = ∅) /\
  ((2 <= length ts)%nat -> exit_silences (S fuel) st = Ub).
Proof.
  intros R He. assert (R' := R). destruct R' as [Hnd Ho HT]. destruct st as [h l]. cbn [heap silence] in *.
  destruct HT as [|x t l ts [Hx _] HT].
  { split; [intros _|simpl; lia]. exists h. split; [done|]. apply map_eq. intros p. rewrite lookup_empty.
    destruct (h !! p) eqn:E; [|done]. by destruct (not_elem_of_nil p); apply (Ho p); eexists. }
  apply Forall_cons_iff in He as [[Ht _] He].
  assert (E0 : mmatch t.1 t.1 = Ok 0).
  { destruct (mmatch_covered t.1 t.1 Ht (proj1 Ht)) as (r&Hr&H&_). rewrite Hr. f_equal. by apply H, covered_refl. }
  cbn [exit_silences silence]. unfold del_silence. cbn [silence heap del_loop text]. rewrite Hx.
  cbn [of_option mbind result_bind]. rewrite E0. cbn [mbind result_bind]. rewrite decide_True by done.
  destruct HT as [|y u l ts [Hy _] HT].
  - split; [intros _|simpl; lia]. cbn [del_loop mbind result_bind]. eexists. split; [reflexivity|].
    apply map_eq. intros p. rewrite lookup_empty. destruct (decide (p = cp x)) as [->|Hne]; [by rewrite lookup_delete_eq|].
    rewrite lookup_delete_ne by done. destruct (h !! p) eqn:E; [|done].
    assert (Hin := Ho p ltac:(by eexists)). by apply list_elem_of_singleton in Hin.
  - split; [simpl; lia|intros _]. cbn [del_loop text]. by rewrite lookup_delete_eq.
Qed.

(** * A user *)

Definition some_names : names :=
  mkNames (str "bob!b@host.example.org") (str "bob!b@10.0.0.1") (str "bob!b@Ab12.virtual") None.

Definition two : silences :=
  mkSilences {[1%nat := str "*!*@10.*"; 2%nat := str "eve!*@*"]}
    [mkSilence 1 CHFL_SILENCE_IPMASK; mkSilence 2 0].
Definition two_entries : list entry := [entry_of (str "*!*@10.*"); entry_of (str "eve!*@*")].

Lemma two_repr : repr two two_entries.
Proof.
  split.
  - apply (bool_decide_unpack _). vm_compute. exact I.
  - intros p [t Hp]. unfold two in Hp. cbn [heap] in Hp. apply lookup_insert_Some in Hp as [[<- _]|[_ Hp]]; [left|].
    apply lookup_singleton_Some in Hp as [<- _]. right. left.
  - repeat constructor.
Qed.

Lemma two_ok : list_ok two_entries.
Proof. apply (bool_decide_unpack _). vm_compute. exact I. Qed.

(** A mask of hosts takes out a mask of addresses, which hit other senders. *)
Example kinds_mixed :
  let w := mkNames (str "bob!b@localhost") (str "bob!b@10.0.0.1") (str "bob!b@hidden") None in
  ('(o, _) ← is_silenced w two no_senders; Ok o) = Ok (Some 1%nat) /\
  ('(st, _) ← add_silence two true (str "*!*@*.*") 3; '(o, _) ← is_silenced w st no_senders; Ok o) = Ok None.
Proof. split; vm_compute; reflexivity. Qed.

Definition next_text (h : gmap nat cstring) : nat := map_fold (fun k _ n => max (S k) n) O h.

Lemma next_text_fresh h : h !! next_text h = None.
Proof.
  assert (H : forall k, is_Some (h !! k) -> (k < next_text h)%nat).
  { unfold next_text. revert h. apply (map_fold_weak_ind (fun n (h : gmap nat cstring) => forall k, is_Some (h !! k) -> (k < n)%nat)).
    - intros k. rewrite lookup_empty. by intros [].
    - intros i x M n Hi IH k Hk. apply lookup_insert_is_Some in Hk as [->|[Hne Hk]]; [lia|].
      specialize (IH k Hk). lia. }
  destruct (h !! next_text h) eqn:E; [|done]. assert (H' := H (next_text h) ltac:(by eexists)). lia.
Qed.

Lemma silence_invariant_witness :
  Forall (fun parv => is_cstr (default [] parv)) [Some (str "+eve"); Some (str "*.es"); Some (str "-eve"); None] /\
  exists st ts, run next_text (mkSilences ∅ []) (str "ana")
    [Some (str "+eve"); Some (str "*.es"); Some (str "-eve"); None] = Ok st /\ repr st ts /\ list_ok ts.
Proof.
  assert (H : Forall (fun parv => is_cstr (default [] parv)) [Some (str "+eve"); Some (str "*.es"); Some (str "-eve"); None])
    by (apply (bool_decide_unpack _); vm_compute; exact I).
  split; [exact H|]. apply silence_invariant; [apply next_text_fresh|exact H].
Defined.

Lemma silence_added_witness :
  user_mask (str "eve!*@*.org") /\
  exists st' v ts' o bs', add_silence two true (str "eve!*@*.org") 3 = Ok (st', v) /\ repr st' ts' /\ list_ok ts' /\
    is_silenced some_names st' no_senders = Ok (o, bs') /\
    (Exists (silences_hits some_names) ts' -> is_Some o) /\ (is_Some o -> Exists (may_silence some_names) ts') /\
    match v with
    | Room => ts' = entry_of (str "eve!*@*.org") :: without (str "eve!*@*.org") two_entries /\
        (forall t, t ∈ two_entries -> t.2 = is_ipmask (str "eve!*@*.org") -> silences_hits some_names t -> is_Some o)
    | Covered => ts' = two_entries /\ Exists (fun t => covered t.1 (str "eve!*@*.org") = true) two_entries
    | Known => sublist ts' two_entries /\ Exists (fun t => case_equiv (str "eve!*@*.org") t.1) two_entries
    | Full => sublist ts' two_entries
    end.
Proof.
  assert (H : user_mask (str "eve!*@*.org")) by (apply (bool_decide_unpack _); vm_compute; exact I).
  split; [exact H|].
  apply silence_added; [apply two_repr|apply two_ok|exact H|apply Nat.leb_le; reflexivity|reflexivity| |apply no_senders_ok].
  apply (bool_decide_unpack _). vm_compute. exact I.
Defined.

Lemma silence_removed_witness :
  user_mask (str "*!*@*") /\
  exists st' o bs', del_silence two (Buf (str "*!*@*")) = Ok (st', existsb (fun t => covered (str "*!*@*") t.1) two_entries) /\
    repr st' (without (str "*!*@*") two_entries) /\ list_ok (without (str "*!*@*") two_entries) /\
    is_silenced some_names st' no_senders = Ok (o, bs') /\
    (Exists (silences_hits some_names) (without (str "*!*@*") two_entries) -> is_Some o) /\
    (is_Some o -> Exists (may_silence some_names) (without (str "*!*@*") two_entries)).
Proof.
  assert (H : user_mask (str "*!*@*")) by (apply (bool_decide_unpack _); vm_compute; exact I).
  split; [exact H|]. apply silence_removed; [apply two_repr|apply two_ok|exact H| |apply no_senders_ok].
  apply (bool_decide_unpack _). vm_compute. exact I.
Defined.

Lemma exit_reads_freed_mask_witness :
  repr two two_entries /\
  ((length two_entries <= 1)%nat -> exists l, exit_silences 2 two = Ok (mkSilences l []) /\ l = ∅) /\
  ((2 <= length two_entries)%nat -> exit_silences 5 two = Ub).
Proof.
  split; [apply two_repr|]. apply (exit_reads_freed_mask two two_entries 4); [apply two_repr|apply two_ok].
Defined.
