(* ===== verification/Nick.v ===== *)
(** Nicks that another server sends, and their collisions: do_nick_name() and
    m_nick_remoto() of ircd/s_user.c.

    The nick is checked, compared with the clients that are here, and either side or
    both lose.  Netjoin.v puts two such servers at the ends of a link.

    What hSeekClient() finds (Hash.v) is found in a finite map here.  The modes of
    the client, its channels and the texts of KILL are not part of the model. *)

From S2P Require Import Prelude Common.

Definition NICKLEN : nat := 30.
Definition HOSTLEN : nat := 63.
Definition USERLEN : nat := 10.

(** * The characters of a nick *)

(** The loop of do_nick_name(): the longest valid start *)
Fixpoint nick_start (fuel : nat) (ch : cstring) : cstring :=
  match fuel, ch with
  | S fuel, c :: ch => if isIrcNk c then c :: nick_start fuel ch else []
  | _, _ => []
  end.

(** What is left in the buffer, and the length that is returned *)
Definition do_nick_name (nick : cstring) : cstring * nat :=
  if bool_decide (chr nick = "-"%char) || isDigit (chr nick) then (nick, O)
  else let n := nick_start NICKLEN nick in (n, length n).

(** * Clients *)

(** [user] is [cptr->user] with username and host, if there is one; [from] is the
    link behind which the client is, [None] for a local client; [unknown] is
    IsUnknown(). *)
Record aClient := mkClient {
  name : cstring; lastnick : Z; user : option (cstring * cstring); from : option nat; unknown : bool }.

Definition MyConnect (c : aClient) : bool := match from c with None => true | Some _ => false end.
Definition set_nick (nm : cstring) (ts : Z) (c : aClient) : aClient :=
  mkClient nm ts (user c) (from c) (unknown c).

Notation clients := (gmap nat aClient).

Definition FindClient (st : clients) (nick : cstring) : option nat :=
  match nick with
  | [] => None
  | _ => fst <$> (snd <$> list_find (fun p => strCasediff nick (name p.2) = 0) (map_to_list st))
  end.

(** The lines sent, and the ends of links *)
Inductive out : Type :=
  | Need_more_params
  | Kill_bad_nick (link : nat)          (* to [cptr], about the nick as it came *)
  | Kill_to (link who : nat)            (* KILL to [link] *)
  | Kill_others (link who : nat)        (* KILL to all servers but [link] *)
  | Quit_to (link who : nat)            (* QUIT of a local client to [link] *)
  | Collision (who : nat)               (* ERR_NICKCOLLISION *)
  | New_others (link who : nat)         (* NICK of a new client to all servers but [link] *)
  | Nick_others (link who : nat).       (* NICK change to all servers but [link] *)

(** The message: who is introduced, by the number it gets here, or which client
    changes its nick *)
Inductive message : Type :=
  | Introduce (server who : nat) (nick : cstring) (ts : Z) (username host : cstring)
  | Change (who : nat) (nick : cstring) (ts : Z).

Definition msg_nick (m : message) : cstring :=
  match m with Introduce _ _ nick _ _ _ => nick | Change _ nick _ => nick end.
Definition msg_ts (m : message) : Z :=
  match m with Introduce _ _ _ ts _ _ => ts | Change _ _ ts => ts end.
Definition from_server (m : message) : bool :=
  match m with Introduce _ _ _ _ _ _ => true | Change _ _ _ => false end.

Definition exit_client (who : nat) (st : clients) : clients := delete who st.

(** * m_nick_remoto() *)

(** [strncpy(nick, parv[1], NICKLEN + 1)], do_nick_name(), strcmp() *)
Definition nick_refused (parv : cstring) : bool :=
  let '(nick, n) := do_nick_name (take (NICKLEN + 1) parv) in
  bool_decide (n = O) || bool_decide (nick <> parv).

Definition strdiffer (a b : cstring) : bool := bool_decide (strCasediff a b <> 0).

(** Whether the two have different users or hosts; [acptr->user] must be there, and
    for a change of nick [sptr->user] too. *)
Definition differs (st : clients) (acptr : aClient) (m : message) : result bool :=
  '(u, h) ← of_option (user acptr);
  '(u', h') ← match m with
    | Introduce _ _ _ _ username host => Ok (username, host)
    | Change who _ _ => sptr ← of_option (st !! who); of_option (user sptr)
    end;
  Ok (strdiffer u u' || strdiffer h h').

(** From nickkilldone on.  register_user() is taken to accept the new client: its server
    is behind the same link, and fewer than 65536 clients have its address. *)
Definition nickkilldone (st : clients) (cptr : nat) (m : message) : result (clients * list out) :=
  match m with
  | Introduce _ who nick ts username host =>
      let c := mkClient nick ts (Some (take USERLEN username, take HOSTLEN host)) (Some cptr) false in
      Ok (<[who := c]> st, [New_others cptr who])
  | Change who nick ts =>
      sptr ← of_option (st !! who);
      let ts := if decide (strCasediff (name sptr) nick <> 0) then ts else lastnick sptr in
      match user sptr with
      | None => Ok (<[who := set_nick (name sptr) ts sptr]> st, [])
      | Some _ => Ok (<[who := set_nick nick ts sptr]> st, [Nick_others cptr who])
      end
  end.

(** The collision of [m] with [acptr].  [freed] is what the block of a freed client
    holds for [lastnick]: the field is read after exit_client(). *)
Definition collide (st : clients) (cptr : nat) (m : message) (who : nat) (acptr : aClient) (freed : Z)
    : result (clients * list out) :=
  let last := msg_ts m in
  differ ← differs st acptr m;
  let drop_new := bool_decide (from acptr <> Some cptr) &&
    (if differ : bool then bool_decide (lastnick acptr <= last) else bool_decide (last <= lastnick acptr)) in
  let '(st, out) := match m with
    | Change sptr _ _ => if drop_new then (exit_client sptr st, [Kill_others cptr sptr]) else (st, [])
    | Introduce _ _ _ _ _ _ => (st, [])
    end in
  if drop_new && bool_decide (last <> lastnick acptr) then Ok (st, out)
  else
    let out := out ++ (if decide (from acptr <> Some cptr) then [Collision who] else []) ++
      Kill_others cptr who :: (if MyConnect acptr then [Quit_to cptr who] else []) in
    let st := exit_client who st in
    if decide (last = freed) then Ok (st, out)
    else if negb (from_server m) && drop_new then Ok (st, out)
    else '(st, out') ← nickkilldone st cptr m; Ok (st, out ++ out').

(** [enough] tells whether there were enough parameters, [FindServer] is the server
    of a name. *)
Definition m_nick_remoto (FindServer : cstring -> option nat) (st : clients) (cptr : nat) (enough : bool)
    (m : message) (freed : Z) : result (clients * list out) :=
  if negb enough then Ok (st, [Need_more_params])
  else if nick_refused (msg_nick m) then
    match m with
    | Introduce _ _ _ _ _ _ => Ok (st, [Kill_bad_nick cptr])
    | Change who _ _ => Ok (exit_client who st, [Kill_bad_nick cptr; Kill_others cptr who])
    end
  else
    match FindServer (msg_nick m) with
    | Some _ =>
        (* NumNick() of a server, which has no user; then the server would be let go *)
        match m with
        | Introduce _ _ _ _ _ _ => Ub
        | Change who _ _ => Ok (exit_client who st, [Kill_to cptr who])
        end
    | None =>
        match FindClient st (msg_nick m) with
        | None => nickkilldone st cptr m
        | Some a =>
            acptr ← of_option (st !! a);
            let same := match m with Change who _ _ => bool_decide (who = a) | _ => false end in
            if same then
              if decide (name acptr <> msg_nick m) then nickkilldone st cptr m else Ok (st, [])
            else if unknown acptr && MyConnect acptr then nickkilldone (exit_client a st) cptr m
            else collide st cptr m a acptr freed
        end
    end.

(** * Lemmas *)

(** Names are C strings, and no two clients have the same name but for case. *)
Definition names_ok (st : clients) : Prop := forall a c, st !! a = Some c -> is_cstr (name c).
Definition names_unique (st : clients) : Prop :=
  forall a b c d, st !! a = Some c -> st !! b = Some d -> case_equiv (name c) (name d) -> a = b.

Lemma FindClient_spec st nick :
  names_ok st -> is_cstr nick -> nick <> [] ->
  match FindClient st nick with
  | Some a => exists c, st !! a = Some c /\ case_equiv nick (name c)
  | None => forall a c, st !! a = Some c -> ~ case_equiv nick (name c)
  end.
Proof.
  intros Hn Hc Hne. unfold FindClient. destruct nick as [|x nick]; [done|].
  destruct (list_find _ (map_to_list st)) as [[i [a c]]|] eqn:E; cbn [fmap option_fmap option_map fst snd].
  - apply list_find_Some in E as (Hi&Hd&_). apply list_elem_of_lookup_2, elem_of_map_to_list in Hi.
    exists c. split; [done|]. apply strCasediff_0; [done|by eapply Hn|done].
  - apply list_find_None in E. intros a c Hac He. rewrite Forall_forall in E.
    apply (E (a, c)); [by apply elem_of_map_to_list|]. apply strCasediff_0; [done|by eapply Hn|done].
Qed.

Lemma isIrcNk_not_nul c : isIrcNk c = true -> c <> NUL.
Proof. intros H ->. vm_compute in H. done. Qed.

Lemma nick_start_prefix fuel ch : (length (nick_start fuel ch) <= fuel)%nat /\ Forall (fun c => isIrcNk c = true) (nick_start fuel ch).
Proof.
  revert ch. induction fuel as [|fuel IH]; intros ch; [by split; [simpl; lia|constructor]|].
  destruct ch as [|c ch]; cbn [nick_start]; [by split; [simpl; lia|constructor]|].
  destruct (isIrcNk c) eqn:E; [|by split; [simpl; lia|constructor]].
  destruct (IH ch). split; [simpl; lia|by constructor].
Qed.

Lemma nick_start_all fuel ch :
  (length ch <= fuel)%nat -> Forall (fun c => isIrcNk c = true) ch -> nick_start fuel ch = ch.
Proof.
  revert ch. induction fuel as [|fuel IH]; intros ch Hl H; destruct H as [|c ch Hc H]; try done; simpl in Hl; [lia|].
  cbn [nick_start]. rewrite Hc. by rewrite IH by (try done; lia).
Qed.

(** The nicks that servers accept of each other *)
Definition nick_valid (nick : cstring) : Prop :=
  nick <> [] /\ (length nick <= NICKLEN)%nat /\ Forall (fun c => isIrcNk c = true) nick /\
  chr nick <> "-"%char /\ isDigit (chr nick) = false.
#[export] Instance nick_valid_dec nick : Decision (nick_valid nick).
Proof. unfold nick_valid. apply _. Defined.

Lemma nick_refused_spec nick : nick_refused nick = false <-> nick_valid nick.
Proof.
  unfold nick_refused, do_nick_name, nick_valid.
  assert (Hh : chr (take (NICKLEN + 1) nick) = chr nick) by by destruct nick.
  rewrite Hh. destruct (bool_decide (chr nick = "-"%char) || isDigit (chr nick)) eqn:E.
  { cbn [bool_decide orb]. rewrite bool_decide_eq_true_2 by done. split; [done|].
    intros (_&_&_&H1&H2). by rewrite bool_decide_eq_false_2, H2 in E. }
  apply orb_false_iff in E as [E1 E2]. apply bool_decide_eq_false in E1.
  destruct (nick_start_prefix NICKLEN (take (NICKLEN + 1) nick)) as [Hl HF].
  rewrite orb_false_iff, !bool_decide_eq_false. split.
  - intros [Hne Heq]. apply dec_stable in Heq. rewrite Heq in *. split_and!; [|done..]. by intros ->.
  - intros (Hne&Hlen&Hall&_&_). rewrite take_ge by lia. rewrite nick_start_all by done.
    split; [by destruct nick|]. intros H. by apply H.
Qed.

Lemma nick_valid_cstr nick : nick_valid nick -> is_cstr nick.
Proof. intros (_&_&H&_). eapply Forall_impl; [exact H|]. intros c. apply isIrcNk_not_nul. Qed.

(** ** What m_nick_remoto() keeps *)

(** Everybody has a user but local clients that are signing on. *)
Definition users_ok (st : clients) : Prop :=
  forall a c, st !! a = Some c -> is_Some (user c) \/ (unknown c = true /\ from c = None).

Record nicks_ok (st : clients) : Prop := { ok_names : names_ok st; ok_unique : names_unique st; ok_users : users_ok st }.

Lemma nicks_ok_exit st who : nicks_ok st -> nicks_ok (exit_client who st).
Proof.
  intros [H1 H2 H3]. unfold exit_client. split.
  - intros a c [_ H]%lookup_delete_Some. by apply (H1 a).
  - intros a b c d [_ Ha]%lookup_delete_Some [_ Hb]%lookup_delete_Some. by apply (H2 a b c d).
  - intros a c [_ H]%lookup_delete_Some. by apply (H3 a).
Qed.

(** Another client, or the same one, takes a nick that nobody else has. *)
Lemma nicks_ok_insert st who c :
  nicks_ok st -> is_cstr (name c) -> is_Some (user c) ->
  (forall a d, st !! a = Some d -> case_equiv (name c) (name d) -> a = who) -> nicks_ok (<[who := c]> st).
Proof.
  intros [H1 H2 H3] Hc Hu Hn. split.
  - intros a d [[<- <-]|[_ H]]%lookup_insert_Some; [done|by apply (H1 a)].
  - intros a b x y [[<- <-]|[Ha Hx]]%lookup_insert_Some [[<- <-]|[Hb Hy]]%lookup_insert_Some He; try done.
    + symmetry. by apply (Hn b y).
    + apply (Hn a x Hx). by symmetry.
    + by apply (H2 a b x y).
  - intros a d [[<- <-]|[_ H]]%lookup_insert_Some; [by left|by apply (H3 a)].
Qed.

(** Who may send the message: a number that is free, a user behind the link *)
Definition message_ok (st : clients) (cptr : nat) (m : message) : Prop :=
  is_cstr (msg_nick m) /\
  match m with
  | Introduce _ who _ _ _ _ => st !! who = None
  | Change who _ _ => match st !! who with Some c => is_Some (user c) /\ from c = Some cptr | None => False end
  end.

Definition sender (m : message) : nat := match m with Introduce _ who _ _ _ _ => who | Change who _ _ => who end.

Lemma nickkilldone_ok st cptr m :
  nicks_ok st -> message_ok st cptr m ->
  (forall a d, st !! a = Some d -> case_equiv (msg_nick m) (name d) -> a = sender m) ->
  exists st' out, nickkilldone st cptr m = Ok (st', out) /\ nicks_ok st' /\
    exists c, st' !! sender m = Some c /\ name c = msg_nick m /\ from c = Some cptr.
Proof.
  intros Hok [Hc Hm] Hn. destruct m as [server who nick ts u h|who nick ts]; cbn [nickkilldone msg_nick sender] in *.
  - eexists _, _. split_and!; [reflexivity|by apply nicks_ok_insert|]. eexists. by rewrite lookup_insert_eq.
  - destruct (st !! who) as [c|] eqn:Hw; [|done]. destruct Hm as [[x Hu] Hf]. cbn [of_option mbind result_bind].
    rewrite Hu. eexists _, _. split_and!; [reflexivity|by apply nicks_ok_insert|]. eexists. by rewrite lookup_insert_eq.
Qed.

Lemma message_ok_exit st cptr m a :
  message_ok st cptr m -> a <> sender m -> message_ok (exit_client a st) cptr m.
Proof.
  intros [Hc Hm] Ha. split; [done|]. unfold exit_client.
  destruct m; cbn [sender] in Ha; by rewrite lookup_delete_ne.
Qed.

Lemma nick_taken_once st nick a c who :
  names_unique st -> st !! a = Some c -> case_equiv nick (name c) ->
  forall b d, exit_client a st !! b = Some d -> case_equiv nick (name d) -> b = who.
Proof.
  unfold exit_client. intros Hu Ha He b d [Hne Hb]%lookup_delete_Some Hd. destruct Hne. apply (Hu a b c d); [done..|].
  transitivity nick; [by symmetry|done].
Qed.

Lemma message_user st cptr m :
  message_ok st cptr m -> exists u h, match m with
    | Introduce _ _ _ _ username host => Ok (username, host)
    | Change who _ _ => sptr ← of_option (st !! who); of_option (user sptr)
    end = Ok (u, h).
Proof.
  intros [_ Hm]. destruct m as [server who nick ts u h|who nick ts]; [by exists u, h|].
  destruct (st !! who) as [c|]; [|done]. destruct Hm as [[[u h] Hu] _]. exists u, h. cbn. by rewrite Hu.
Qed.

Lemma collide_ok st cptr m a c freed :
  nicks_ok st -> message_ok st cptr m -> st !! a = Some c -> is_Some (user c) ->
  case_equiv (msg_nick m) (name c) -> a <> sender m ->
  exists st' out, collide st cptr m a c freed = Ok (st', out) /\ nicks_ok st'.
Proof.
  intros Hok Hm Ha [[u h] Hu] He Hne. unfold collide, differs. rewrite Hu. cbn [of_option mbind result_bind].
  destruct (message_user st cptr m Hm) as (u'&h'&E). rewrite E. cbn [mbind result_bind].
  set (d := strdiffer u u' || _). clearbody d.
  set (drop := bool_decide (from c <> Some cptr) && _). clearbody drop.
  assert (Hdone : nicks_ok (exit_client a st) -> exists st' out,
    nickkilldone (exit_client a st) cptr m = Ok (st', out) /\ nicks_ok st').
  { intros Hok'. destruct (nickkilldone_ok (exit_client a st) cptr m) as (st'&out&E'&H&_); [done|by apply message_ok_exit| |].
    - apply (nick_taken_once _ _ _ c); [apply Hok|done..].
    - by exists st', out. }
  destruct m as [server who nick ts mu mh|who nick ts]; cbn [from_server negb andb].
  - destruct (drop && _); [by eexists _, _|].
    destruct (decide _); [eexists _, _; split; [reflexivity|by apply nicks_ok_exit]|].
    destruct Hdone as (st'&out&->&H); [by apply nicks_ok_exit|]. cbn [mbind result_bind]. by eexists _, _.
  - destruct drop; cbn [andb].
    + destruct (bool_decide _); [eexists _, _; split; [reflexivity|by apply nicks_ok_exit]|].
      destruct (decide _); eexists _, _; (split; [reflexivity|by repeat apply nicks_ok_exit]).
    + destruct (decide _); [eexists _, _; split; [reflexivity|by apply nicks_ok_exit]|].
      destruct Hdone as (st'&out&->&H); [by apply nicks_ok_exit|]. cbn [mbind result_bind]. by eexists _, _.
Qed.

(** C16. The nicks stay apart, and the handler never reads what is not there: for every
    NICK of another server, a new user with a number that is free or a change of a
    user behind the link, whatever the times say and whatever the block of a freed
    client holds, there is a result in which no two clients have the same nick but for
    case. *)
Theorem nick_invariant FindServer st cptr enough m freed :
  nicks_ok st -> message_ok st cptr m -> FindServer (msg_nick m) = None ->
  exists st' out, m_nick_remoto FindServer st cptr enough m freed = Ok (st', out) /\ nicks_ok st'.
Proof.
  intros Hok Hm HS. unfold m_nick_remoto. destruct enough; cbn [negb]; [|by eexists _, _].
  destruct (nick_refused (msg_nick m)) eqn:Er.
  { destruct m; eexists _, _; (split; [reflexivity|]); [done|by apply nicks_ok_exit]. }
  apply nick_refused_spec in Er. rewrite HS.
  assert (HF := FindClient_spec st (msg_nick m) (ok_names _ Hok) (proj1 Hm) (proj1 Er)).
  destruct (FindClient st (msg_nick m)) as [a|].
  2: { destruct (nickkilldone_ok st cptr m) as (st'&out&E&H&_); [done..| |by exists st', out].
       intros a d Ha He. by destruct (HF a d Ha). }
  destruct HF as (c&Ha&He). rewrite Ha. cbn [of_option mbind result_bind].
  destruct (decide (a = sender m)) as [Has|Has].
  - destruct m as [server who nick ts u h|who nick ts]; cbn [sender msg_nick] in *; subst a.
    { destruct Hm as [_ Hm]. congruence. }
    rewrite bool_decide_eq_true_2 by done. destruct (decide _); [|by eexists _, _].
    destruct (nickkilldone_ok st cptr (Change who nick ts)) as (st'&out&E&H&_); [done..| |by exists st', out].
    intros b d Hb Hd. apply (ok_unique _ Hok b who d c); [done..|]. by transitivity nick; [symmetry|].
  - assert (Esame : match m with Change who _ _ => bool_decide (who = a) | _ => false end = false).
    { destruct m; [done|]. apply bool_decide_eq_false_2. cbn [sender] in Has. congruence. }
    rewrite Esame. destruct (unknown c && MyConnect c) eqn:Eu.
    + destruct (nickkilldone_ok (exit_client a st) cptr m) as (st'&out&E&H&_);
        [by apply nicks_ok_exit|by apply message_ok_exit| |by exists st', out].
      apply (nick_taken_once _ _ _ c); [apply Hok|done..].
    + apply collide_ok; try done. destruct (ok_users _ Hok a c Ha) as [|[H1 H2]]; [done|].
      unfold MyConnect in Eu. by rewrite H1, H2 in Eu.
Qed.

(** C40. Whether a collision with equal times takes both users is left to chance: the
    time of the old one is read after exit_client() has freed it, and the new user is
    registered here instead of refused, unless the freed block still holds the time of
    the message. *)
Theorem collision_reads_freed st cptr server who nick ts u h a c x freed :
  nick_valid nick -> st !! who = None -> FindClient st nick = Some a -> st !! a = Some c ->
  user c = Some x -> unknown c = false -> from c <> Some cptr -> lastnick c = ts ->
  exists st' out, m_nick_remoto (fun _ => None) st cptr true (Introduce server who nick ts u h) freed = Ok (st', out) /\
    Kill_others cptr who ∉ out /\ st' !! a = None /\ (st' !! who = None <-> freed = ts).
Proof.
  intros Hv Hw HF Ha Hu Hk Hf Ht. unfold m_nick_remoto. cbn [negb msg_nick].
  rewrite (proj2 (nick_refused_spec nick) Hv), HF, Ha. cbn [of_option mbind result_bind]. rewrite Hk. cbn [andb].
  assert (Haw : a <> who) by congruence.
  unfold collide, differs. rewrite Hu. destruct x as [cu ch]. cbn [of_option mbind result_bind msg_ts from_server].
  rewrite Ht. rewrite (bool_decide_eq_false_2 (ts <> ts)) by (by intros H). rewrite andb_false_r.
  rewrite (decide_True (P := from c <> Some cptr)) by done. cbn [negb andb app]. unfold exit_client.
  destruct (decide (ts = freed)) as [->|Hne]; cbn [nickkilldone mbind result_bind]; eexists _, _;
    (split; [reflexivity|]); (split; [destruct (MyConnect c); cbn [app]; repeat (apply not_elem_of_cons; split); try apply not_elem_of_nil; congruence|]);
    (split; [|split; intros H]); rewrite ?lookup_insert_ne, ?lookup_insert_eq, ?lookup_delete_ne, ?lookup_delete_eq in * by done;
    congruence.
Qed.

(** ** Examples *)

Definition here : clients :=
  <[1%nat := mkClient (str "ana") 100 (Some (str "ana", str "one.es")) None false]>
    (<[2%nat := mkClient (str "pepe") 80 (Some (str "pepe", str "two.es")) (Some 7%nat) false]> ∅).

Lemma here_ok : nicks_ok here.
Proof.
  assert (H : forall a c, here !! a = Some c -> (a = 1%nat \/ a = 2%nat) /\ is_cstr (name c) /\ is_Some (user c) /\
    (a = 1%nat -> name c = str "ana") /\ (a = 2%nat -> name c = str "pepe")).
  { unfold here. intros a c [[<- <-]|[_ [[<- <-]|[_ H]]%lookup_insert_Some]]%lookup_insert_Some; [..|done];
      (split_and!; [tauto|apply (bool_decide_unpack _); vm_compute; exact I|done|done|done]). }
  split.
  - intros a c Ha. by apply (H a c).
  - intros a b c d Ha Hb He. destruct (H a c Ha) as ([-> | ->]&_&_&H1&H2), (H b d Hb) as ([-> | ->]&_&_&H3&H4); try done;
      [rewrite H1, H4 in He by done|rewrite H2, H3 in He by done];
      (apply strCasediff_0 in He; [by vm_compute in He|apply (bool_decide_unpack _); vm_compute; exact I..]).
  - intros a c Ha. left. by apply (H a c).
Qed.

Lemma nick_invariant_witness :
  message_ok here 7 (Change 2 (str "ANA") 100) /\
  exists st' out, m_nick_remoto (fun _ => None) here 7 true (Change 2 (str "ANA") 100) 5 = Ok (st', out) /\ nicks_ok st'.
Proof.
  assert (H : message_ok here 7 (Change 2 (str "ANA") 100))
    by (split; [apply (bool_decide_unpack _); vm_compute; exact I|vm_compute; split; [by eexists|done]]).
  split; [exact H|]. apply nick_invariant; [apply here_ok|exact H|reflexivity].
Defined.

Lemma collision_reads_freed_witness :
  exists st' out, m_nick_remoto (fun _ => None) here 7 true (Introduce 0 3 (str "Ana") 100 (str "eve") (str "x.es")) 5 = Ok (st', out) /\
    Kill_others 7 3 ∉ out /\ st' !! 1%nat = None /\ (st' !! 3%nat = None <-> 5 = 100).
Proof.
  eapply (collision_reads_freed here 7 0 3 (str "Ana") 100 (str "eve") (str "x.es") 1%nat).
  - apply (bool_decide_unpack _). vm_compute. exact I.
  - reflexivity.
  - vm_compute. reflexivity.
  - reflexivity.
  - reflexivity.
  - reflexivity.
  - discriminate.
  - reflexivity.
Defined.
