(* ===== verification/Netjoin.v ===== *)
(** Two servers at the ends of a link, each with m_nick_remoto() of Nick.v: users
    sign on and leave on both sides while the messages about the others are still
    on their way, in order.  Whatever happens meanwhile, neither side ever has two
    users under a nick, and when all messages have arrived both sides have the same
    users under the same nicks; for the latter no freed block that the handler reads
    may hold by chance the time of the newcomer ([freed_by_chance]). *)

From S2P Require Import Prelude Common Nick.

(** * The system *)

(** What the other side is told about a user *)
Record card := mkCard { c_nick : cstring; c_ts : Z; c_user : cstring; c_host : cstring }.

Inductive packet : Type := Intro (who : nat) (k : card) | Quit (who : nat).

(** Of both sides the clients they know and the packets they sent that have not
    arrived; [home] records on which side a number was used, ever. *)
Record net := mkNet { view : bool -> clients; queue : bool -> list packet; home : gmap nat bool }.

Definition upd {A} (f : bool -> A) (s : bool) (x : A) : bool -> A :=
  fun s' => if Bool.eqb s s' then x else f s'.

(** The only link of either side *)
Definition the_link : nat := 0.

Definition local_client (k : card) : aClient := mkClient (c_nick k) (c_ts k) (Some (c_user k, c_host k)) None false.

Definition quits (out : list out) : list packet :=
  flat_map (fun o => match o with Quit_to _ who => [Quit who] | _ => [] end) out.

(** [freed] is what the block of a client holds that was freed meanwhile. *)
Definition receive (st : clients) (p : packet) (freed : Z) : result (clients * list packet) :=
  match p with
  | Intro who k =>
      '(st, out) ← m_nick_remoto (fun _ => None) st the_link true
        (Introduce 0 who (c_nick k) (c_ts k) (c_user k) (c_host k)) freed;
      Ok (st, quits out)
  | Quit who => Ok (exit_client who st, [])
  end.

(** [Sign_on s who k]: a user with these names gets the number [who] on the side [s].
    [Leave s who]: he leaves.  [Deliver s freed]: the side [s] reads a packet. *)
Inductive event : Type :=
  | Sign_on (s : bool) (who : nat) (k : card)
  | Leave (s : bool) (who : nat)
  | Deliver (s : bool) (freed : Z).

Definition step (n : net) (ev : event) : result net :=
  match ev with
  | Sign_on s who k =>
      Ok (mkNet (upd (view n) s (<[who := local_client k]> (view n s)))
        (upd (queue n) s (queue n s ++ [Intro who k])) (<[who := s]> (home n)))
  | Leave s who =>
      Ok (mkNet (upd (view n) s (exit_client who (view n s)))
        (upd (queue n) s (queue n s ++ [Quit who])) (home n))
  | Deliver s freed =>
      match queue n (negb s) with
      | [] => Ok n
      | p :: ps =>
          '(st, out) ← receive (view n s) p freed;
          Ok (mkNet (upd (view n) s st) (upd (upd (queue n) (negb s) ps) s (queue n s ++ out)) (home n))
      end
  end.

Fixpoint run (n : net) (evs : list event) : result net :=
  match evs with
  | [] => Ok n
  | ev :: evs => n ← step n ev; run n evs
  end.

Definition init : net := mkNet (fun _ => ∅) (fun _ => []) ∅.

(** ** What may happen *)

(** Names as they are stored, and a nick that servers accept *)
Definition card_ok (k : card) : Prop :=
  nick_valid (c_nick k) /\ is_cstr (c_user k) /\ is_cstr (c_host k) /\
  (length (c_user k) <= USERLEN)%nat /\ (length (c_host k) <= HOSTLEN)%nat.
#[export] Instance card_ok_dec k : Decision (card_ok k).
Proof. unfold card_ok. apply _. Defined.

(** A user takes a number that was never used, and a nick that is free on his
    side; only local users leave. *)
Definition event_ok (n : net) (ev : event) : Prop :=
  match ev with
  | Sign_on s who k => home n !! who = None /\ card_ok k /\ FindClient (view n s) (c_nick k) = None
  | Leave s who => match view n s !! who with Some c => from c = None | None => False end
  | Deliver _ _ => True
  end.
#[export] Instance net_event_dec n ev : Decision (event_ok n ev).
Proof. destruct ev; cbn [event_ok]; [apply _|destruct (view n s !! who); apply _|apply _]. Defined.

(** ** What a freed block may hold

    The handler reads the time of the holder of the nick after it has freed him.  The
    block holds what it held, or at least not the time of the newcomer by chance;
    [freed_by_chance] below shows what happens otherwise. *)
Definition freed_ok (st : clients) (k : card) (freed : Z) : Prop :=
  freed = c_ts k ->
  match FindClient st (c_nick k) with Some a => lastnick <$> st !! a = Some freed | None => True end.
#[export] Instance freed_ok_dec st k freed : Decision (freed_ok st k freed).
Proof. unfold freed_ok. destruct (FindClient st (c_nick k)); apply _. Defined.

Definition block_ok (n : net) (ev : event) : Prop :=
  match ev with
  | Deliver s freed => match queue n (negb s) with Intro _ k :: _ => freed_ok (view n s) k freed | _ => True end
  | _ => True
  end.
#[export] Instance net_block_dec n ev : Decision (block_ok n ev).
Proof. destruct ev; cbn [block_ok]; [apply _|apply _|]. destruct (queue n (negb _)) as [|[] ?]; apply _. Defined.

(** [ok] of every event of a history, at its time *)
Section histories.
Context (ok : net -> event -> Prop) `{ok_dec : forall n ev, Decision (ok n ev)}.

Fixpoint all_ok (n : net) (evs : list event) : Prop :=
  match evs with
  | [] => True
  | ev :: evs => ok n ev /\ match step n ev with Ok n' => all_ok n' evs | _ => True end
  end.
#[export] Instance all_ok_dec n evs : Decision (all_ok n evs).
Proof.
  revert n. induction evs as [|ev evs IH]; intros n; cbn [all_ok]; [apply _|].
  apply and_dec; [apply _|]. destruct (step n ev); [apply IH|apply _..].
Defined.
End histories.

Definition events_ok : net -> list event -> Prop := all_ok event_ok.
Definition blocks_ok : net -> list event -> Prop := all_ok block_ok.
#[export] Instance net_events_dec n evs : Decision (events_ok n evs).
Proof. unfold events_ok. apply _. Defined.
#[export] Instance net_blocks_dec n evs : Decision (blocks_ok n evs).
Proof. unfold blocks_ok. apply _. Defined.

(** * Who wins *)

Definition differ (k k' : card) : bool :=
  strdiffer (c_user k) (c_user k') || strdiffer (c_host k) (c_host k').

(** The older one of two users, the younger one of two entries of the same user *)
Definition beats (k k' : card) : Prop :=
  if differ k k' then c_ts k < c_ts k' else c_ts k' < c_ts k.
#[export] Instance beats_dec k k' : Decision (beats k k').
Proof. unfold beats. destruct (differ k k'); apply _. Defined.

Definition tie (k k' : card) : Prop := c_ts k = c_ts k'.
#[export] Instance tie_dec k k' : Decision (tie k k').
Proof. unfold tie. apply _. Defined.

Definition same_nick (k k' : card) : Prop := case_equiv (c_nick k) (c_nick k').

Lemma strdiffer_sym a b : is_cstr a -> is_cstr b -> strdiffer a b = strdiffer b a.
Proof.
  intros Ha Hb. unfold strdiffer. apply bool_decide_ext. rewrite (strCasediff_0 a b), (strCasediff_0 b a) by done.
  split; intros H E; by apply H.
Qed.

Lemma differ_sym k k' : card_ok k -> card_ok k' -> differ k k' = differ k' k.
Proof.
  intros (_&Hu&Hh&_) (_&Hu'&Hh'&_). unfold differ.
  by rewrite (strdiffer_sym (c_user k)), (strdiffer_sym (c_host k)).
Qed.

(** Exactly one of three *)
Lemma beats_cases k k' : card_ok k -> card_ok k' -> beats k k' \/ beats k' k \/ tie k k'.
Proof. intros H H'. unfold beats, tie. rewrite (differ_sym k' k) by done. destruct (differ k k'); lia. Qed.

Lemma beats_one k k' :
  card_ok k -> card_ok k' ->
  ~ (beats k k' /\ beats k' k) /\ ~ (beats k k' /\ tie k k') /\ ~ (beats k' k /\ tie k k').
Proof. intros H H'. unfold beats, tie. rewrite (differ_sym k' k) by done. destruct (differ k k'); lia. Qed.

Lemma tie_sym k k' : tie k k' -> tie k' k.
Proof. unfold tie. done. Qed.

(** * One packet *)

Definition card_of (c : aClient) : option card :=
  match user c with Some (u, h) => Some (mkCard (name c) (lastnick c) u h) | None => None end.

Definition locals (st : clients) : gmap nat card :=
  omap (fun c => if MyConnect c then card_of c else None) st.
Definition remotes (st : clients) : gmap nat card :=
  omap (fun c => if MyConnect c then None else card_of c) st.

(** The clients of a side: users with proper names, local or behind the link *)
Definition clients_ok (st : clients) : Prop :=
  forall w c, st !! w = Some c -> exists k, card_of c = Some k /\ card_ok k /\ unknown c = false /\
    (from c = None \/ from c = Some the_link).

Lemma card_of_names c k : card_of c = Some k -> user c = Some (c_user k, c_host k) /\ name c = c_nick k /\ lastnick c = c_ts k.
Proof. unfold card_of. destruct (user c) as [[u h]|] eqn:E; [|done]. by intros [= <-]. Qed.

Lemma card_of_client k f : card_of (mkClient (c_nick k) (c_ts k) (Some (c_user k, c_host k)) f false) = Some k.
Proof. by destruct k. Qed.

Lemma clients_names st : clients_ok st -> names_ok st.
Proof.
  intros H w c Hc. destruct (H w c Hc) as (k&Hk&(Hn&_)&_). destruct (card_of_names c k Hk) as (_&->&_).
  by apply nick_valid_cstr.
Qed.

Definition remote_client (k : card) : aClient :=
  mkClient (c_nick k) (c_ts k) (Some (c_user k, c_host k)) (Some the_link) false.

(** What becomes of a packet about a new user: nobody has the nick here, or [a] has it *)
Lemma receive_free st who k freed :
  clients_ok st -> card_ok k -> FindClient st (c_nick k) = None ->
  receive st (Intro who k) freed = Ok (<[who := remote_client k]> st, []).
Proof.
  intros Hst (Hv&Hu&Hh&Hulen&Hlen) HF. unfold receive, m_nick_remoto. cbn [negb msg_nick].
  assert (Hr : nick_refused (c_nick k) = false) by (by apply nick_refused_spec). rewrite Hr, HF.
  unfold nickkilldone. by rewrite !take_ge.
Qed.

Lemma receive_taken st who k freed a c ka :
  clients_ok st -> card_ok k -> FindClient st (c_nick k) = Some a -> st !! a = Some c -> card_of c = Some ka ->
  receive st (Intro who k) freed =
    if MyConnect c && (if differ ka k then bool_decide (c_ts ka <= c_ts k) else bool_decide (c_ts k <= c_ts ka)) &&
       bool_decide (c_ts k <> c_ts ka)
    then Ok (st, [])
    else Ok (if decide (c_ts k = freed) then delete a st else <[who := remote_client k]> (delete a st),
             if MyConnect c then [Quit a] else []).
Proof.
  intros Hst (Hv&Hu&Hh&Hulen&Hlen) HF Ha Hka. unfold receive, m_nick_remoto. cbn [negb msg_nick].
  assert (Hr : nick_refused (c_nick k) = false) by (by apply nick_refused_spec). rewrite Hr, HF, Ha.
  assert (Hdone : forall st, nickkilldone st the_link (Introduce 0 who (c_nick k) (c_ts k) (c_user k) (c_host k)) =
    Ok (<[who := remote_client k]> st, [New_others the_link who])).
  { intros s. unfold nickkilldone. by rewrite !take_ge. }
  cbn [of_option mbind result_bind].
  destruct (Hst a c Ha) as (ka'&Hka'&_&Hunk&Hfrom). rewrite Hka in Hka'. injection Hka' as <-.
  destruct (card_of_names c ka Hka) as (Eu&En&Et).
  rewrite Hunk. cbn [andb]. unfold collide, differs. cbn [msg_ts from_server]. rewrite Eu.
  cbn [of_option mbind result_bind].
  change (strdiffer (c_user ka) (c_user k) || strdiffer (c_host ka) (c_host k)) with (differ ka k). rewrite Et.
  assert (Efrom : bool_decide (from c <> Some the_link) = MyConnect c).
  { unfold MyConnect. destruct Hfrom as [-> | ->]; [by apply bool_decide_eq_true_2|by apply bool_decide_eq_false_2; intros H]. }
  rewrite Efrom. destruct (_ && bool_decide (c_ts k <> c_ts ka)); [done|].
  destruct (decide (c_ts k = freed)); cbn [negb andb]; rewrite ?Hdone; cbn [mbind result_bind];
    unfold quits; rewrite ?flat_map_app; cbn [flat_map];
    destruct (decide (from c <> Some the_link)), (MyConnect c); reflexivity.
Qed.

(** By who has the nick here *)
Lemma receive_intro st who k freed :
  clients_ok st -> card_ok k -> freed_ok st k freed ->
  exists st' ps, receive st (Intro who k) freed = Ok (st', ps) /\
    match FindClient st (c_nick k) with
    | None => st' = <[who := remote_client k]> st /\ ps = []
    | Some a =>
        exists c ka, st !! a = Some c /\ card_of c = Some ka /\ same_nick k ka /\
          if MyConnect c then
            (beats ka k -> st' = st /\ ps = []) /\
            (beats k ka -> st' = <[who := remote_client k]> (delete a st) /\ ps = [Quit a]) /\
            (tie k ka -> (st' = delete a st \/ st' = <[who := remote_client k]> (delete a st)) /\ ps = [Quit a])
          else True
    end.
Proof.
  intros Hst Hk Hfr. unfold freed_ok in Hfr.
  assert (Hc := nick_valid_cstr _ (proj1 Hk)). assert (Hne : c_nick k <> []) by apply (proj1 Hk).
  assert (HF := FindClient_spec st (c_nick k) (clients_names st Hst) Hc Hne).
  destruct (FindClient st (c_nick k)) as [a|] eqn:EF; [|rewrite receive_free by done; by eexists _, _].
  destruct HF as (c&Ha&He). rewrite Ha in Hfr. cbn [fmap option_fmap option_map] in Hfr.
  destruct (Hst a c Ha) as (ka&Hka&Hkao&_). destruct (card_of_names c ka Hka) as (_&En&Et). rewrite Et in Hfr.
  rewrite (receive_taken st who k freed a c ka) by done.
  assert (Hn : same_nick k ka) by (unfold same_nick; by rewrite <- En).
  assert (X := beats_one k ka Hk Hkao). destruct (MyConnect c) eqn:Em; cbn [andb].
  2: { eexists _, _. split; [done|]. exists c, ka. by rewrite Em. }
  assert (Hw : forall r, (exists st' ps, r = Ok (st', ps) /\ (beats ka k -> st' = st /\ ps = []) /\
      (beats k ka -> st' = <[who := remote_client k]> (delete a st) /\ ps = [Quit a]) /\
      (tie k ka -> (st' = delete a st \/ st' = <[who := remote_client k]> (delete a st)) /\ ps = [Quit a])) ->
    exists st' ps, r = Ok (st', ps) /\ exists c0 ka0, st !! a = Some c0 /\ card_of c0 = Some ka0 /\ same_nick k ka0 /\
      if MyConnect c0 then (beats ka0 k -> st' = st /\ ps = []) /\
      (beats k ka0 -> st' = <[who := remote_client k]> (delete a st) /\ ps = [Quit a]) /\
      (tie k ka0 -> (st' = delete a st \/ st' = <[who := remote_client k]> (delete a st)) /\ ps = [Quit a]) else True).
  { intros r (st'&ps&->&H). exists st', ps. split; [done|]. exists c, ka. by rewrite Em. }
  apply Hw. destruct (beats_cases ka k Hkao Hk) as [Hb|[Hb|Hb%tie_sym]].
  - assert (E : (if differ ka k then bool_decide (c_ts ka <= c_ts k) else bool_decide (c_ts k <= c_ts ka)) = true /\ c_ts k <> c_ts ka)
      by (unfold beats in Hb; destruct (differ ka k); split; [apply bool_decide_eq_true_2| |apply bool_decide_eq_true_2|]; lia).
    destruct E as [-> E]. rewrite bool_decide_eq_true_2 by done. eexists _, _. split; [done|]. tauto.
  - assert (E : (if differ ka k then bool_decide (c_ts ka <= c_ts k) else bool_decide (c_ts k <= c_ts ka)) = false /\ c_ts k <> c_ts ka).
    { unfold beats in Hb. rewrite (differ_sym k ka) in Hb by done.
      destruct (differ ka k); split; [apply bool_decide_eq_false_2| |apply bool_decide_eq_false_2|]; lia. }
    destruct E as [-> E]. cbn [andb].
    rewrite decide_False by (intros Ef; rewrite <- Ef in Hfr; specialize (Hfr eq_refl); congruence).
    eexists _, _. split; [done|]. tauto.
  - assert (E : c_ts k = c_ts ka) by exact Hb. rewrite (bool_decide_eq_false_2 (c_ts k <> c_ts ka)) by (by intros H).
    rewrite andb_false_r. eexists _, _. split; [done|]. split_and!; [intros H; tauto|intros H; tauto|intros _].
    split; [|done]. destruct (decide _); [by left|by right].
Qed.

(** * Views *)

Lemma locals_Some st w k : locals st !! w = Some k <-> exists c, st !! w = Some c /\ from c = None /\ card_of c = Some k.
Proof.
  unfold locals. rewrite lookup_omap, bind_Some. unfold MyConnect.
  split; intros (c&Hc&H); exists c; (split; [done|]); destruct (from c) eqn:E; naive_solver.
Qed.

Lemma remotes_Some st w k :
  remotes st !! w = Some k <-> exists c, st !! w = Some c /\ from c <> None /\ card_of c = Some k.
Proof.
  unfold remotes. rewrite lookup_omap, bind_Some. unfold MyConnect.
  split; intros (c&Hc&H); exists c; (split; [done|]); destruct (from c) eqn:E; naive_solver.
Qed.

Lemma locals_delete (st : gmap nat aClient) w : locals (delete w st) = delete w (locals st).
Proof. apply omap_delete. Qed.
Lemma remotes_delete (st : gmap nat aClient) w : remotes (delete w st) = delete w (remotes st).
Proof. apply omap_delete. Qed.

Lemma locals_local (st : gmap nat aClient) w k : locals (<[w := local_client k]> st) = <[w := k]> (locals st).
Proof. apply omap_insert_Some, card_of_client. Qed.
Lemma remotes_local (st : gmap nat aClient) w k : remotes (<[w := local_client k]> st) = delete w (remotes st).
Proof. by apply omap_insert_None. Qed.
Lemma locals_remote (st : gmap nat aClient) w k : locals (<[w := remote_client k]> st) = delete w (locals st).
Proof. by apply omap_insert_None. Qed.
Lemma remotes_remote (st : gmap nat aClient) w k : remotes (<[w := remote_client k]> st) = <[w := k]> (remotes st).
Proof. apply omap_insert_Some, card_of_client. Qed.

Lemma clients_ok_delete st w : clients_ok st -> clients_ok (delete w st).
Proof. intros H v c [_ Hc]%lookup_delete_Some. by apply (H v). Qed.

Lemma clients_ok_insert st w k f :
  clients_ok st -> card_ok k -> (f = None \/ f = Some the_link) ->
  clients_ok (<[w := mkClient (c_nick k) (c_ts k) (Some (c_user k, c_host k)) f false]> st).
Proof.
  intros H Hk Hf v c [[<- <-]|[_ Hc]]%lookup_insert_Some; [|by apply (H v)].
  exists k. split_and!; [apply card_of_client|done..].
Qed.

Lemma unique_delete st w : names_unique st -> names_unique (delete w st).
Proof. intros H a b c d [_ Ha]%lookup_delete_Some [_ Hb]%lookup_delete_Some. by apply (H a b c d). Qed.

Lemma unique_insert st w c :
  names_unique st -> (forall a d, st !! a = Some d -> ~ case_equiv (name c) (name d)) -> names_unique (<[w := c]> st).
Proof.
  intros H Hn a b x y [[<- <-]|[? Ha]]%lookup_insert_Some [[<- <-]|[? Hb]]%lookup_insert_Some He; try done.
  - by destruct (Hn b y Hb).
  - destruct (Hn a x Ha). by symmetry.
  - by apply (H a b x y).
Qed.

(** A client here and its card *)
Lemma view_card st w c : clients_ok st -> st !! w = Some c -> exists k, card_of c = Some k /\ name c = c_nick k /\ card_ok k.
Proof.
  intros H Hc. destruct (H w c Hc) as (k&Hk&Hok&_). exists k. destruct (card_of_names c k Hk) as (_&?&_). done.
Qed.

Definition nick_free (K : gmap nat card) (nick : cstring) : Prop :=
  forall w k, K !! w = Some k -> ~ case_equiv nick (c_nick k).

(** * What a side knows of the other, when it has read all that was sent *)

Inductive replay : gmap nat card -> list packet -> gmap nat card -> Prop :=
  | replay_nil K : replay K [] K
  | replay_intro K w k ps L :
      K !! w = None -> nick_free K (c_nick k) -> replay (<[w := k]> K) ps L -> replay K (Intro w k :: ps) L
  | replay_quit K w ps L : replay (delete w K) ps L -> replay K (Quit w :: ps) L.

Definition intros_of (ps : list packet) : list nat :=
  flat_map (fun p => match p with Intro w _ => [w] | Quit _ => [] end) ps.
Definition ids_of (ps : list packet) : list nat :=
  map (fun p => match p with Intro w _ => w | Quit w => w end) ps.

Lemma replay_snoc_intro K ps L w k :
  replay K ps L -> L !! w = None -> nick_free L (c_nick k) -> replay K (ps ++ [Intro w k]) (<[w := k]> L).
Proof. induction 1; intros; cbn [app]; constructor; auto using replay_nil. Qed.

Lemma replay_snoc_quit K ps L w : replay K ps L -> replay K (ps ++ [Quit w]) (delete w L).
Proof. induction 1; cbn [app]; repeat constructor; auto. Qed.

Lemma replay_source K ps L w k : replay K ps L -> L !! w = Some k -> K !! w = Some k \/ Intro w k ∈ ps.
Proof.
  induction 1 as [K|K v kv ps L Hv Hn H IH|K v ps L H IH]; intros Hw; [by left|..]; destruct (IH Hw) as [Hk|Hin].
  - apply lookup_insert_Some in Hk as [[-> ->]|[_ Hk]]; [right; left|by left].
  - right. by right.
  - apply lookup_delete_Some in Hk as [_ Hk]. by left.
  - right. by right.
Qed.

Lemma intros_elem ps w k : Intro w k ∈ ps -> w ∈ intros_of ps.
Proof.
  induction ps as [|p ps IH]; [by intros ?%not_elem_of_nil|]. intros [<-|H]%elem_of_cons; [left|].
  cbn. apply elem_of_app. right. by apply IH.
Qed.

Lemma replay_absent K ps L w : replay K ps L -> K !! w = None -> (w ∉ intros_of ps) -> L !! w = None.
Proof.
  induction 1 as [K|K v kv ps L Hv Hn H IH|K v ps L H IH]; intros Hw Hi; [done|..].
  - cbn in Hi. apply not_elem_of_cons in Hi as [Hne Hi]. apply IH; [by rewrite lookup_insert_ne|done].
  - apply IH; [|done]. rewrite lookup_delete. by destruct (decide (v = w)).
Qed.

(** Who had the nick of a later packet is gone. *)
Lemma replay_later K ps L w k r kr :
  replay K ps L -> K !! w = Some k -> (w ∉ intros_of ps) -> Intro r kr ∈ ps -> same_nick k kr -> L !! w = None.
Proof.
  intros H. revert k. induction H as [K|K v kv ps L Hv Hn H IH|K v ps L H IH]; intros k Hw Hi Hin Hs.
  - by apply not_elem_of_nil in Hin.
  - cbn in Hi. apply not_elem_of_cons in Hi as [Hne Hi]. apply elem_of_cons in Hin as [[= -> ->]|Hin].
    + destruct (Hn w k Hw). symmetry. exact Hs.
    + apply (IH k); [by rewrite lookup_insert_ne|done..].
  - apply elem_of_cons in Hin as [|Hin]; [done|]. destruct (decide (v = w)) as [->|Hne].
    + eapply replay_absent; [exact H|apply lookup_delete_eq|exact Hi].
    + apply (IH k); [by rewrite lookup_delete_ne|done..].
Qed.

(** * What holds whatever a freed block contains *)

(** Proper clients, one under a nick, and proper names on their way *)
Record sound (n : net) : Prop := {
  so_clients s : clients_ok (view n s);
  so_unique s : names_unique (view n s);
  so_cards s w k : Intro w k ∈ queue n s -> card_ok k }.

Lemma sound_insert st w k f :
  clients_ok st -> names_unique st -> card_ok k -> (f = None \/ f = Some the_link) ->
  FindClient st (c_nick k) = None ->
  let st' := <[w := mkClient (c_nick k) (c_ts k) (Some (c_user k, c_host k)) f false]> st in
  clients_ok st' /\ names_unique st'.
Proof.
  intros Hc Hu Hk Hf E st'. split; [by apply clients_ok_insert|]. apply unique_insert; [done|].
  assert (HF := FindClient_spec st (c_nick k) (clients_names st Hc) (nick_valid_cstr _ (proj1 Hk)) (proj1 (proj1 Hk))).
  by rewrite E in HF.
Qed.

(** The nick of who was removed is free. *)
Lemma FindClient_delete st a nick :
  clients_ok st -> names_unique st -> is_cstr nick -> nick <> [] ->
  FindClient st nick = Some a -> FindClient (delete a st) nick = None.
Proof.
  intros Hc Hu Hn Hne E. assert (HF := FindClient_spec st nick (clients_names st Hc) Hn Hne). rewrite E in HF.
  destruct HF as (c&Ha&He).
  assert (HD := FindClient_spec _ nick (clients_names _ (clients_ok_delete st a Hc)) Hn Hne).
  destruct (FindClient (delete a st) nick) as [b|]; [|done]. destruct HD as (d&[Hab Hd]%lookup_delete_Some&Hed).
  destruct Hab. apply (Hu a b c d); [done..|]. transitivity nick; [by symmetry|done].
Qed.

Lemma sound_receive st p freed :
  clients_ok st -> names_unique st -> match p with Intro _ k => card_ok k | Quit _ => True end ->
  exists st' out, receive st p freed = Ok (st', out) /\ clients_ok st' /\ names_unique st' /\
    forall w k, Intro w k ∉ out.
Proof.
  intros Hc Hu Hp. destruct p as [who k|who].
  2: { eexists _, []. split_and!; [reflexivity|by apply clients_ok_delete|by apply unique_delete|].
       intros w k. apply not_elem_of_nil. }
  assert (Hcs := nick_valid_cstr _ (proj1 Hp)). assert (Hne : c_nick k <> []) by apply (proj1 Hp).
  destruct (FindClient st (c_nick k)) as [a|] eqn:EF.
  - assert (HF := FindClient_spec st (c_nick k) (clients_names st Hc) Hcs Hne). rewrite EF in HF.
    destruct HF as (c&Ha&_). destruct (Hc a c Ha) as (ka&Hka&_).
    rewrite (receive_taken st who k freed a c ka) by done.
    destruct (_ && _ && _); eexists _, _; (split; [reflexivity|]).
    + split_and!; [done..|]. intros w kw. apply not_elem_of_nil.
    + assert (Hd := clients_ok_delete st a Hc). assert (Hdu := unique_delete st a Hu). split_and!.
      * destruct (decide _); [done|]. apply sound_insert; try done; [by right|by apply FindClient_delete].
      * destruct (decide _); [done|]. apply sound_insert; try done; [by right|by apply FindClient_delete].
      * intros w kw H. destruct (MyConnect c); [by apply list_elem_of_singleton in H|by apply not_elem_of_nil in H].
  - rewrite receive_free by done. eexists _, _. split; [reflexivity|].
    destruct (sound_insert st who k (Some the_link)) as [H1 H2]; try done; [by right|].
    split_and!; [done..|]. intros w kw. apply not_elem_of_nil.
Qed.

(** * The invariant *)

Definition kills (k k' : card) : Prop := beats k k' \/ tie k k'.

(** [K s] are the users of the side [s] as the packets that have arrived tell.  Who
    was told of and is not known at the other side will be killed at home by a
    packet that is on its way. *)
Record Inv (n : net) (K : bool -> gmap nat card) : Prop := {
  i_clients s : clients_ok (view n s);
  i_unique s : names_unique (view n s);
  i_replay s : replay (K s) (queue n s) (locals (view n s));
  i_known s w k : remotes (view n (negb s)) !! w = Some k -> K s !! w = Some k;
  i_home s w : is_Some (K s !! w) \/ is_Some (locals (view n s) !! w) \/ w ∈ ids_of (queue n s) ->
    home n !! w = Some s;
  i_new s : NoDup (intros_of (queue n s));
  i_new_K s w : w ∈ intros_of (queue n s) -> K s !! w = None;
  i_cards s w k : Intro w k ∈ queue n s -> card_ok k;
  i_dropped s w k :
    K s !! w = Some k -> locals (view n s) !! w = Some k -> remotes (view n (negb s)) !! w = None ->
    exists r kr, Intro r kr ∈ queue n (negb s) /\ same_nick k kr /\ kills kr k /\
      (tie kr k -> locals (view n (negb s)) !! r = None) }.

Lemma upd_same {A} (f : bool -> A) s x : upd f s x s = x.
Proof. unfold upd. by rewrite eqb_reflx. Qed.
Lemma upd_other {A} (f : bool -> A) s x : upd f s x (negb s) = f (negb s).
Proof. by destruct s. Qed.
Lemma upd_negb {A} (f : bool -> A) s x : upd f (negb s) x s = f s.
Proof. by destruct s. Qed.
Create Rewrite HintDb upd.
#[local] Hint Rewrite @upd_same @upd_other @upd_negb negb_involutive : upd.

(** To show something of both sides is to show it of [s] and of the other. *)
Lemma both (P : bool -> Prop) s : P s -> P (negb s) -> forall s', P s'.
Proof. intros H1 H2 []; by destruct s. Qed.

Ltac sides s :=
  match goal with |- forall s', @?P s' => refine (both P s _ _); cbv beta; autorewrite with upd end.

Lemma intros_ids ps w : w ∈ intros_of ps -> w ∈ ids_of ps.
Proof.
  induction ps as [|p ps IH]; [done|]. cbn. rewrite elem_of_app, elem_of_cons.
  intros [H|H]; [|right; by apply IH]. left. destruct p; [by apply list_elem_of_singleton in H|by apply not_elem_of_nil in H].
Qed.

(** Nobody here is known under a number of the other side, and the other way round. *)
Lemma Inv_absent n K s w :
  Inv n K -> home n !! w <> Some s -> home n !! w <> Some (negb s) -> view n s !! w = None.
Proof.
  intros I H1 H2. destruct (view n s !! w) as [c|] eqn:E; [|done]. exfalso.
  destruct (i_clients _ _ I s w c E) as (k&Hk&_&_&Hf). destruct (from c) eqn:Ef.
  - apply H2. apply (i_home _ _ I). left. exists k. apply (i_known _ _ I). rewrite negb_involutive.
    apply remotes_Some. exists c. by rewrite Ef.
  - apply H1. apply (i_home _ _ I). right. left. exists k. apply locals_Some. by exists c.
Qed.

Lemma Inv_not_local n K s w : Inv n K -> home n !! w = Some (negb s) -> locals (view n s) !! w = None.
Proof.
  intros I H. destruct (locals (view n s) !! w) eqn:E; [|done]. exfalso.
  assert (H' : home n !! w = Some s) by (apply (i_home _ _ I); right; left; by eexists). rewrite H in H'.
  injection H'. by destruct s.
Qed.

Lemma Inv_init : Inv init (fun _ => ∅).
Proof.
  split; cbn [view queue home init]; intros s.
  - intros w c. by rewrite lookup_empty.
  - intros a b c d. by rewrite lookup_empty.
  - unfold locals. rewrite omap_empty. constructor.
  - intros w k. unfold remotes. by rewrite omap_empty, lookup_empty.
  - intros w. unfold locals. rewrite omap_empty, !lookup_empty.
    intros [[? H]|[[? H]|H]]; [done|done|by apply not_elem_of_nil in H].
  - constructor.
  - done.
  - intros w k H. by apply not_elem_of_nil in H.
  - intros w k. by rewrite lookup_empty.
Qed.

(** ** The steps *)

Lemma intros_app ps qs : intros_of (ps ++ qs) = intros_of ps ++ intros_of qs.
Proof. apply flat_map_app. Qed.
Lemma ids_app ps qs : ids_of (ps ++ qs) = ids_of ps ++ ids_of qs.
Proof. apply map_app. Qed.

Lemma home_ne n K s w v :
  Inv n K -> home n !! v = None ->
  is_Some (K s !! w) \/ is_Some (locals (view n s) !! w) \/ w ∈ ids_of (queue n s) -> w <> v.
Proof. intros I Hv H ->. rewrite (i_home _ _ I s v H) in Hv. done. Qed.

Lemma free_of_FindClient st nick :
  clients_ok st -> is_cstr nick -> nick <> [] -> FindClient st nick = None -> nick_free (locals st) nick.
Proof.
  intros H Hc Hne E w k (c&Hw&_&Hk)%locals_Some. destruct (card_of_names c k Hk) as (_&<-&_).
  assert (HF := FindClient_spec st nick (clients_names st H) Hc Hne). rewrite E in HF. by apply (HF w).
Qed.

Lemma Inv_sign_on n K s w k :
  Inv n K -> event_ok n (Sign_on s w k) -> exists n', step n (Sign_on s w k) = Ok n' /\ Inv n' K.
Proof.
  intros I (Hw&Hk&Hfree). eexists. split; [reflexivity|].
  assert (Hv : view n s !! w = None) by (apply (Inv_absent n K s); [done|by rewrite Hw..]).
  assert (Hc := nick_valid_cstr _ (proj1 Hk)). assert (Hne : c_nick k <> []) by apply (proj1 Hk).
  assert (Hnf := free_of_FindClient _ _ (i_clients _ _ I s) Hc Hne Hfree).
  assert (HF := FindClient_spec _ _ (clients_names _ (i_clients _ _ I s)) Hc Hne). rewrite Hfree in HF.
  assert (Hl : locals (view n s) !! w = None).
  { destruct (locals (view n s) !! w) eqn:E; [|done]. apply locals_Some in E as (?&?&_). congruence. }
  assert (Hne' := fun s' v => home_ne n K s' v w I Hw).
  split; cbn [view queue home].
  - sides s; [|apply I]. apply clients_ok_insert; [apply I|done|by left].
  - sides s; [|apply I]. apply unique_insert; [apply I|exact HF].
  - sides s; [|apply I].
    rewrite locals_local. apply replay_snoc_intro; [apply I|done|exact Hnf].
  - sides s; [apply I|]. intros v kv.
    rewrite remotes_local. intros [_ Hr]%lookup_delete_Some. apply (i_known _ _ I). by rewrite negb_involutive.
  - sides s; intros v Hvs.
    + destruct (decide (v = w)) as [->|Hvw]; [apply lookup_insert_eq|]. rewrite lookup_insert_ne by done.
      apply (i_home _ _ I). destruct Hvs as [?|[Hvs|Hvs]]; [by left|right; left|right; right].
      * by rewrite locals_local, lookup_insert_ne in Hvs.
      * rewrite ids_app in Hvs. apply elem_of_app in Hvs as [?|Hvs]; [done|]. by apply list_elem_of_singleton in Hvs.
    + rewrite lookup_insert_ne by (intros E; by apply (Hne' (negb s) v)). by apply (i_home _ _ I).
  - sides s; [|apply I]. rewrite intros_app. apply NoDup_app.
    split_and!; [apply I| |apply NoDup_singleton]. intros v Hv' ->%list_elem_of_singleton.
    apply (Hne' s w); [|done]. right; right. by apply intros_ids.
  - sides s; [|apply I]. intros v. rewrite intros_app, elem_of_app.
    intros [?| ->%list_elem_of_singleton]; [by apply I|]. destruct (K s !! w) eqn:E; [|done].
    destruct (Hne' s w); [left; by eexists|done].
  - sides s; [|apply I]. intros v kv [?|[= -> ->]%list_elem_of_singleton]%elem_of_app;
      [by eapply (i_cards _ _ I)|done].
  - sides s; intros v kv HK Hlo Hre.
    + assert (Hvw : v <> w) by (apply (Hne' s); left; by eexists).
      rewrite locals_local, lookup_insert_ne in Hlo by done. by apply (i_dropped _ _ I s v kv).
    + assert (Hvw : v <> w) by (apply (Hne' (negb s)); left; by eexists).
      rewrite remotes_local, lookup_delete_ne in Hre by done.
      destruct (i_dropped _ _ I (negb s) v kv HK Hlo) as (r&kr&Hin&Hs&Hki&Ht); [by rewrite negb_involutive|].
      rewrite negb_involutive in Hin, Ht. exists r, kr. split_and!; [apply elem_of_app; by left|done|done|].
      intros HT. rewrite locals_local, lookup_insert_ne; [by apply Ht|]. intros E. apply (Hne' s r); [|done].
      right; right. by apply intros_ids, (intros_elem _ r kr).
Qed.

Lemma Inv_leave n K s w :
  Inv n K -> event_ok n (Leave s w) -> exists n', step n (Leave s w) = Ok n' /\ Inv n' K.
Proof.
  intros I Hev. eexists. split; [reflexivity|]. unfold exit_client.
  cbn [event_ok] in Hev. destruct (view n s !! w) as [c|] eqn:Hw; [|done].
  destruct (i_clients _ _ I s w c Hw) as (k&Hk&_).
  assert (Hh : home n !! w = Some s).
  { apply (i_home _ _ I). right; left. exists k. apply locals_Some. by exists c. }
  clear Hev Hk. split; cbn [view queue home].
  - sides s; [|apply I]. apply clients_ok_delete, I.
  - sides s; [|apply I]. apply unique_delete, I.
  - sides s; [|apply I]. rewrite locals_delete. apply replay_snoc_quit, I.
  - sides s; [apply I|]. intros v kv.
    rewrite remotes_delete. intros [_ Hr]%lookup_delete_Some. apply (i_known _ _ I). by rewrite negb_involutive.
  - sides s; intros v Hvs; [|by apply (i_home _ _ I)].
    destruct (decide (v = w)) as [->|Hvw]; [done|].
    apply (i_home _ _ I). destruct Hvs as [?|[Hvs|Hvs]]; [by left|right; left|right; right].
    + by rewrite locals_delete, lookup_delete_ne in Hvs.
    + rewrite ids_app in Hvs. apply elem_of_app in Hvs as [?|Hvs]; [done|]. by apply list_elem_of_singleton in Hvs.
  - sides s; [|apply I]. rewrite intros_app. cbn. rewrite app_nil_r. apply I.
  - sides s; [|apply I]. intros v. rewrite intros_app. cbn. rewrite app_nil_r. apply I.
  - sides s; [|apply I]. intros v kv [?|?%list_elem_of_singleton]%elem_of_app;
      [by eapply (i_cards _ _ I)|done].
  - sides s; intros v kv HK Hlo Hre.
    + rewrite locals_delete in Hlo. apply lookup_delete_Some in Hlo as [_ Hlo]. by apply (i_dropped _ _ I s v kv).
    + assert (Hvw : v <> w).
      { intros ->. assert (H : home n !! w = Some (negb s)) by (apply (i_home _ _ I); left; by eexists).
        rewrite Hh in H. injection H. by destruct s. }
      rewrite remotes_delete, lookup_delete_ne in Hre by done.
      destruct (i_dropped _ _ I (negb s) v kv HK Hlo) as (r&kr&Hin&Hs&Hki&Ht); [by rewrite negb_involutive|].
      rewrite negb_involutive in Hin, Ht. exists r, kr. split_and!; [apply elem_of_app; by left|done|done|].
      intros HT. rewrite locals_delete, lookup_delete. destruct (decide _); [done|by apply Ht].
Qed.

(** Reading a packet [p]: what the new clients [st] of the side [s], its answer
    [out] and the new [K'] for the other side must satisfy. *)
Lemma Inv_read n K s p ps st out K' :
  Inv n K -> queue n (negb s) = p :: ps ->
  clients_ok st -> names_unique st ->
  locals st ⊆ locals (view n s) ->
  replay (K s) (queue n s ++ out) (locals st) ->
  intros_of out = [] -> (forall v, v ∈ ids_of out -> home n !! v = Some s) ->
  replay K' ps (locals (view n (negb s))) ->
  remotes st ⊆ K' ->
  (forall v, is_Some (K' !! v) -> home n !! v = Some (negb s)) ->
  (forall v, v ∈ intros_of ps -> K' !! v = None) ->
  (forall v kv w k, locals st !! v = Some kv -> p = Intro w k -> same_nick kv k -> kills k kv -> False) ->
  (forall v kv, K' !! v = Some kv -> locals (view n (negb s)) !! v = Some kv -> remotes st !! v = None ->
    exists r kr, Intro r kr ∈ queue n s /\ same_nick kv kr /\ kills kr kv /\ (tie kr kv -> locals st !! r = None)) ->
  Inv (mkNet (upd (view n) s st) (upd (upd (queue n) (negb s) ps) s (queue n s ++ out)) (home n)) (upd K (negb s) K').
Proof.
  intros I Hq Hc Hu Hsub Hr Ho Hoh Hr' Hre Hh Hi Hd Hd'.
  assert (Hsubset : forall r kr, Intro r kr ∈ ps -> Intro r kr ∈ queue n (negb s)) by (rewrite Hq; by right).
  assert (Hin : forall v, v ∈ intros_of ps -> v ∈ intros_of (queue n (negb s))).
  { intros v H. rewrite Hq. cbn. apply elem_of_app. by right. }
  split; cbn [view queue home].
  - sides s; [done|apply I].
  - sides s; [done|apply I].
  - sides s; done.
  - sides s; [apply (i_known _ _ I)|]. intros v kv H. by eapply lookup_weaken.
  - sides s; intros v H.
    + destruct H as [H|[H|H]]; [apply (i_home _ _ I); by left| |].
      * apply (i_home _ _ I). right; left. destruct H as [kv H]. exists kv. by eapply lookup_weaken.
      * rewrite ids_app in H. apply elem_of_app in H as [H|H]; [|by apply Hoh]. apply (i_home _ _ I). by right; right.
    + destruct H as [H|[H|H]]; [by apply Hh|apply (i_home _ _ I); by right; left|].
      apply (i_home _ _ I). right; right. rewrite Hq. by right.
  - sides s.
    + rewrite intros_app, Ho, app_nil_r. apply I.
    + assert (H := i_new _ _ I (negb s)). rewrite Hq in H. cbn in H. by apply NoDup_app in H as (_&_&?).
  - sides s; [|exact Hi]. intros v. rewrite intros_app, Ho, app_nil_r. apply I.
  - sides s.
    + intros v kv [H|H]%elem_of_app; [by eapply (i_cards _ _ I)|].
      apply intros_elem in H. rewrite Ho in H. by apply not_elem_of_nil in H.
    + intros v kv H. by apply (i_cards _ _ I (negb s) v), Hsubset.
  - sides s; intros v kv HK Hlo Hrem.
    + assert (Hlo' : locals (view n s) !! v = Some kv) by by eapply lookup_weaken.
      destruct (i_dropped _ _ I s v kv HK Hlo' Hrem) as (r&kr&H&Hs&Hk&Ht).
      rewrite Hq in H. apply elem_of_cons in H as [H|H]; [|by exists r, kr].
      destruct (Hd v kv r kr Hlo); done.
    + destruct (Hd' v kv HK Hlo Hrem) as (r&kr&H&Hs&Hk&Ht). exists r, kr. split_and!; [|done..].
      apply elem_of_app. by left.
Qed.

Lemma Inv_deliver_quit n K s freed w ps :
  Inv n K -> queue n (negb s) = Quit w :: ps ->
  exists n', step n (Deliver s freed) = Ok n' /\ Inv n' (upd K (negb s) (delete w (K (negb s)))) /\ queue n' s = queue n s /\
    queue n' (negb s) = ps /\ view n' (negb s) = view n (negb s) /\ locals (view n' s) = locals (view n s).
Proof.
  intros I Hq. eexists. cbn [step]. rewrite Hq. split; [reflexivity|]. cbn [queue].
  assert (Hw : home n !! w = Some (negb s)) by (apply (i_home _ _ I); right; right; rewrite Hq; left).
  assert (Hlo := Inv_not_local _ _ _ _ I Hw).
  assert (El : locals (delete w (view n s)) = locals (view n s)) by (by rewrite locals_delete, delete_id).
  split; [|cbn [view]; autorewrite with upd; by rewrite app_nil_r].
  apply (Inv_read n K s (Quit w) ps); [done|done|..]; unfold exit_client; rewrite ?El, ?app_nil_r.
  - apply clients_ok_delete, I.
  - apply unique_delete, I.
  - done.
  - apply I.
  - done.
  - intros v H. by apply not_elem_of_nil in H.
  - assert (H := i_replay _ _ I (negb s)). rewrite Hq in H. by inversion H.
  - rewrite remotes_delete. apply delete_mono. apply map_subseteq_spec. intros v kv H.
    apply (i_known _ _ I). by rewrite negb_involutive.
  - intros v [kv [_ H]%lookup_delete_Some]. apply (i_home _ _ I). left. by exists kv.
  - intros v H. rewrite lookup_delete. destruct (decide (w = v)); [done|].
    apply (i_new_K _ _ I). rewrite Hq. exact H.
  - done.
  - intros v kv [Hne HK]%lookup_delete_Some Hv Hre. rewrite remotes_delete, lookup_delete_ne in Hre by done.
    destruct (i_dropped _ _ I (negb s) v kv HK Hv) as (r&kr&H); [by rewrite negb_involutive|].
    rewrite negb_involutive in H. by exists r, kr.
Qed.

(** ** A new user *)

Section Reading.
Context (n : net) (K : bool -> gmap nat card) (s : bool) (w : nat) (k : card) (ps : list packet).
Context (I : Inv n K) (Hq : queue n (negb s) = Intro w k :: ps).

Notation o := (negb s).

Lemma reading_head :
  card_ok k /\ home n !! w = Some o /\ K o !! w = None /\ nick_free (K o) (c_nick k) /\
  replay (<[w := k]> (K o)) ps (locals (view n o)) /\ (w ∉ intros_of ps).
Proof.
  assert (H := i_replay _ _ I o). rewrite Hq in H. inversion H; subst.
  assert (Hnd := i_new _ _ I o). rewrite Hq in Hnd. cbn in Hnd. apply NoDup_cons in Hnd as [Hnd _].
  split_and!; try done.
  - apply (i_cards _ _ I o w). rewrite Hq. left.
  - apply (i_home _ _ I). right; right. rewrite Hq. left.
Qed.

(** A remote client does not have the nick. *)
Lemma reading_holder_local a c ka :
  view n s !! a = Some c -> card_of c = Some ka -> same_nick k ka -> MyConnect c = true.
Proof.
  intros Ha Hka Hs. destruct reading_head as (_&_&_&Hf&_).
  unfold MyConnect. destruct (from c) eqn:E; [|done]. destruct (Hf a ka); [|exact Hs].
  apply (i_known _ _ I). rewrite negb_involutive. apply remotes_Some. exists c. by rewrite E.
Qed.

Lemma reading_same a ka v kv :
  locals (view n s) !! a = Some ka -> locals (view n s) !! v = Some kv ->
  same_nick k ka -> same_nick kv k -> v = a /\ kv = ka.
Proof.
  intros Ha Hv H1 H2. assert (v = a) as ->; [|by simplify_eq].
  apply locals_Some in Ha as (c&Ha&_&Hc), Hv as (d&Hv&_&Hd).
  apply (i_unique _ _ I s v a d c); [done..|]. destruct (card_of_names _ _ Hc) as (_&->&_).
  destruct (card_of_names _ _ Hd) as (_&->&_). by transitivity (c_nick k).
Qed.

(** If the newcomer does not win against [a] but is there at home, then the message
    about [a] is on its way to him. *)
Lemma reading_killer a ka :
  locals (view n s) !! a = Some ka -> same_nick k ka -> ~ beats k ka ->
  locals (view n o) !! w = Some k -> Intro a ka ∈ queue n s.
Proof.
  intros Ha Hs Hb Hw. destruct reading_head as (_&Hho&_&Hf&Hr&Hnw).
  assert (Hha : home n !! a = Some s) by (apply (i_home _ _ I); right; left; by eexists).
  destruct (replay_source _ _ _ _ _ (i_replay _ _ I s) Ha) as [HK|H]; [|done]. exfalso.
  destruct (remotes (view n o) !! a) as [kk|] eqn:Er.
  - assert (HK' := i_known _ _ I s a kk Er). rewrite HK in HK'. injection HK' as <-.
    apply remotes_Some in Er as (c&Hc&_&Hcc). apply locals_Some in Hw as (d&Hd&_&Hdd).
    assert (a = w); [|subst a; rewrite Hha in Hho; injection Hho; by destruct s].
    apply (i_unique _ _ I o a w c d); [done..|]. destruct (card_of_names _ _ Hcc) as (_&->&_).
    destruct (card_of_names _ _ Hdd) as (_&->&_). by symmetry.
  - destruct (i_dropped _ _ I s a ka HK Ha Er) as (r&kr&Hin&Hsr&Hk&Ht).
    rewrite Hq in Hin. apply elem_of_cons in Hin as [[= -> ->]|Hin].
    + destruct Hk as [Hk|Hk]; [done|]. rewrite Ht in Hw by done. done.
    + rewrite (replay_later _ _ _ w k r kr Hr) in Hw; [done|apply lookup_insert_eq|done|done|].
      unfold same_nick. by transitivity (c_nick ka).
Qed.

(** What holds whatever becomes of the newcomer *)
Lemma Inv_read_intro st out :
  clients_ok st -> names_unique st ->
  locals st ⊆ locals (view n s) ->
  replay (K s) (queue n s ++ out) (locals st) ->
  intros_of out = [] -> (forall v, v ∈ ids_of out -> home n !! v = Some s) ->
  remotes st = remotes (view n s) \/ remotes st = <[w := k]> (remotes (view n s)) ->
  (forall v kv, locals st !! v = Some kv -> same_nick kv k -> kills k kv -> False) ->
  (locals (view n o) !! w = Some k -> remotes st !! w = None ->
    exists r kr, Intro r kr ∈ queue n s /\ same_nick k kr /\ kills kr k /\ (tie kr k -> locals st !! r = None)) ->
  Inv (mkNet (upd (view n) s st) (upd (upd (queue n) o ps) s (queue n s ++ out)) (home n))
    (upd K o (<[w := k]> (K o))).
Proof.
  intros Hc Hu Hsub Hr Ho Hoh Hre Hd Hd'. destruct reading_head as (Hk&Hho&HKw&Hf&Hr'&Hnw).
  assert (Hsubr : remotes (view n s) ⊆ K o).
  { apply map_subseteq_spec. intros v kv H. apply (i_known _ _ I). by rewrite negb_involutive. }
  apply (Inv_read n K s (Intro w k) ps); try done.
  - destruct Hre as [->| ->]; [|by apply insert_mono]. etransitivity; [exact Hsubr|]. by apply insert_subseteq.
  - intros v [kv [[<- <-]|[_ H]]%lookup_insert_Some]; [done|]. apply (i_home _ _ I). left. by exists kv.
  - intros v H. rewrite lookup_insert_ne by (by intros ->). apply (i_new_K _ _ I). rewrite Hq. by right.
  - intros v kv w' k' H [= <- <-]. by apply (Hd v kv).
  - intros v kv [[<- <-]|[Hne HK]]%lookup_insert_Some Hv Hrem; [by apply Hd'|].
    assert (Hrv : remotes (view n s) !! v = None).
    { destruct Hre as [E|E]; rewrite E in Hrem; [done|]. by rewrite lookup_insert_ne in Hrem. }
    destruct (i_dropped _ _ I o v kv HK Hv) as (r&kr&H&Hs&Hki&Ht); [by rewrite negb_involutive|].
    rewrite negb_involutive in H, Ht. exists r, kr. split_and!; try done. intros HT. specialize (Ht HT).
    destruct (locals st !! r) as [x|] eqn:E; [|done]. by rewrite (lookup_weaken _ _ _ _ E Hsub) in Ht.
Qed.
End Reading.

Ltac deliver_rest :=
  split; [simpl; lia|]; split; [done|]; intros v kv Hv Hnot;
  rewrite ?locals_remote, ?locals_delete, ?lookup_delete_ne; eauto; congruence.

Lemma Inv_deliver_intro n K s freed w k ps :
  Inv n K -> queue n (negb s) = Intro w k :: ps -> freed_ok (view n s) k freed ->
  exists n' out, step n (Deliver s freed) = Ok n' /\ Inv n' (upd K (negb s) (<[w := k]> (K (negb s)))) /\
    queue n' s = queue n s ++ out /\ queue n' (negb s) = ps /\ (length out <= 1)%nat /\ intros_of out = [] /\
    view n' (negb s) = view n (negb s) /\
    (forall v kv, locals (view n s) !! v = Some kv -> ~ same_nick kv k -> locals (view n' s) !! v = Some kv).
Proof.
  intros I Hq Hfr. destruct (reading_head n K s w k ps I Hq) as (Hk&Hho&_&_&_&_).
  destruct (receive_intro (view n s) w k freed (i_clients _ _ I s) Hk Hfr) as (st&out&E&H).
  assert (Hn := nick_valid_cstr _ (proj1 Hk)). assert (Hne : c_nick k <> []) by apply (proj1 Hk).
  assert (HF := FindClient_spec _ _ (clients_names _ (i_clients _ _ I s)) Hn Hne).
  assert (Hlw := Inv_not_local _ _ _ _ I Hho).
  cbn [step]. rewrite Hq, E. cbn [mbind result_bind].
  eexists _, out. split; [reflexivity|]. cbn [queue view]. autorewrite with upd.
  enough (Inv (mkNet (upd (view n) s st) (upd (upd (queue n) (negb s) ps) s (queue n s ++ out)) (home n))
      (upd K (negb s) (<[w := k]> (K (negb s)))) /\ (length out <= 1)%nat /\ intros_of out = [] /\
      (forall v kv, locals (view n s) !! v = Some kv -> ~ same_nick kv k -> locals st !! v = Some kv)) by tauto.
  destruct (FindClient (view n s) (c_nick k)) as [a|].
  - destruct H as (c&ka&Ha&Hka&Hs&H). rewrite (reading_holder_local n K s w k ps I Hq a c ka Ha Hka Hs) in H.
    assert (Hloc := reading_holder_local n K s w k ps I Hq a c ka Ha Hka Hs).
    assert (Hkao : card_ok ka) by (destruct (i_clients _ _ I s a c Ha) as (k'&E1&E2&_); rewrite Hka in E1; by injection E1 as ->).
    assert (Hla : locals (view n s) !! a = Some ka).
    { apply locals_Some. exists c. split_and!; [done| |done]. unfold MyConnect in Hloc. by destruct (from c). }
    assert (Hha : home n !! a = Some s) by (apply (i_home _ _ I); right; left; by eexists).
    assert (Haw : a <> w) by (intros ->; rewrite Hho in Hha; injection Hha; by destruct s).
    assert (Hrem : remotes (delete a (view n s)) = remotes (view n s)).
    { rewrite remotes_delete. apply delete_id. destruct (remotes _ !! a) as [x|] eqn:Er; [|done].
      apply remotes_Some in Er as (d&Hd&Hf&_). simplify_eq. unfold MyConnect in Hloc. by destruct (from c). }
    assert (Hlos : forall v kv, locals (view n s) !! v = Some kv -> ~ same_nick kv k -> v <> a).
    { intros v kv Hv Hnot ->. rewrite Hla in Hv. injection Hv as <-. apply Hnot. by symmetry. }
    assert (X := beats_one k ka Hk Hkao). destruct H as (H1&H2&H3).
    assert (Hwin : st = <[w := remote_client k]> (delete a (view n s)) /\ out = [Quit a] ->
      Inv (mkNet (upd (view n) s st) (upd (upd (queue n) (negb s) ps) s (queue n s ++ out)) (home n))
      (upd K (negb s) (<[w := k]> (K (negb s)))) /\ (length out <= 1)%nat /\ intros_of out = [] /\
      (forall v kv, locals (view n s) !! v = Some kv -> ~ same_nick kv k -> locals st !! v = Some kv)).
    { intros [-> ->]. split; [|deliver_rest]. apply (Inv_read_intro n K s w k ps I Hq); try done.
      * apply clients_ok_insert; [apply clients_ok_delete, I|done|by right].
      * apply unique_insert; [apply unique_delete, I|]. intros b d [Hba Hd]%lookup_delete_Some He. apply Hba. symmetry.
        apply (i_unique _ _ I s b a d c); [done..|]. destruct (card_of_names _ _ Hka) as (_&->&_). by transitivity (c_nick k).
      * rewrite locals_remote, locals_delete. etransitivity; [apply delete_subseteq|apply delete_subseteq].
      * rewrite locals_remote, locals_delete, (delete_id _ w) by by rewrite lookup_delete_ne. apply replay_snoc_quit, I.
      * intros v Hv%list_elem_of_singleton. by subst v.
      * right. rewrite remotes_remote. by rewrite Hrem.
      * intros v kv Hv Hsv _. rewrite locals_remote, locals_delete in Hv.
        apply lookup_delete_Some in Hv as [_ [Hva Hv]%lookup_delete_Some].
        destruct (reading_same n K s k I a ka v kv) as [-> _]; done.
      * intros _ Hr. by rewrite remotes_remote, lookup_insert_eq in Hr. }
    destruct (beats_cases ka k Hkao Hk) as [Hb|[Hb|Hb]].
    + destruct (H1 Hb) as [-> ->]. split; [|deliver_rest]. apply (Inv_read_intro n K s w k ps I Hq); rewrite ?app_nil_r; try done;
        [apply I|apply I|apply I|..].
      * intros v Hv. by apply not_elem_of_nil in Hv.
      * by left.
      * intros v kv Hv Hsv Hki. destruct (reading_same n K s k I a ka v kv) as [-> ->]; try done.
        destruct Hki; tauto.
      * intros Hw Hr. exists a, ka. split_and!; [|done|by left|].
        -- apply (reading_killer n K s w k ps I Hq); try done. tauto.
        -- intros HT%tie_sym. tauto.
    + by apply Hwin, H2.
    + apply tie_sym in Hb. destruct (H3 Hb) as [[-> |Est] ->]; [|by apply Hwin]. split; [|deliver_rest].
      apply (Inv_read_intro n K s w k ps I Hq); try done; rewrite ?locals_delete.
      * apply clients_ok_delete, I.
      * apply unique_delete, I.
      * apply delete_subseteq.
      * apply replay_snoc_quit, I.
      * intros v Hv%list_elem_of_singleton. by subst v.
      * by left.
      * intros v kv [Hva Hv]%lookup_delete_Some Hsv _.
        destruct (reading_same n K s k I a ka v kv) as [-> _]; done.
      * intros Hw Hr. exists a, ka. split_and!; [|done|right; by apply tie_sym|intros _; apply lookup_delete_eq].
        apply (reading_killer n K s w k ps I Hq); try done. tauto.
  - destruct H as [-> ->]. split; [|deliver_rest]. apply (Inv_read_intro n K s w k ps I Hq); rewrite ?app_nil_r; try done;
      rewrite ?locals_remote, ?(delete_id _ w) by done.
    + apply clients_ok_insert; [apply I|done|by right].
    + apply unique_insert; [apply I|exact HF].
    + done.
    + apply I.
    + intros v Hv. by apply not_elem_of_nil in Hv.
    + right. apply remotes_remote.
    + intros v kv Hv Hsv _. apply locals_Some in Hv as (d&Hd&_&Hkd). apply (HF v d Hd).
      destruct (card_of_names _ _ Hkd) as (_&->&_). symmetry. exact Hsv.
    + intros _ Hr. by rewrite remotes_remote, lookup_insert_eq in Hr.
Qed.

(** ** All steps *)

Definition weigh (ps : list packet) : nat :=
  foldr (fun p acc => match p with Intro _ _ => 2 + acc | Quit _ => 1 + acc end)%nat O ps.
(** How many packets can still be read: each new user may be answered. *)
Definition pending (n : net) : nat := weigh (queue n true) + weigh (queue n false).

Lemma weigh_app ps qs : weigh (ps ++ qs) = (weigh ps + weigh qs)%nat.
Proof. induction ps as [|[]]; simpl; lia. Qed.

Lemma weigh_quits out : intros_of out = [] -> weigh out = length out.
Proof. induction out as [|[] out IH]; simpl; [done..|]. intros H. by rewrite IH. Qed.

Lemma pending_side n s : pending n = (weigh (queue n s) + weigh (queue n (negb s)))%nat.
Proof. unfold pending. destruct s; simpl; lia. Qed.

Definition quiet (n : net) : Prop := forall s, queue n s = [].

Lemma pending_quiet n : pending n = O -> quiet n.
Proof. intros H s. rewrite (pending_side n s) in H. by destruct (queue n s) as [|[]]. Qed.

(** A local user whose nick no new user on his way to him has *)
Definition unrivalled (n : net) (s : bool) (w : nat) (k : card) : Prop :=
  locals (view n s) !! w = Some k /\ forall r kr, Intro r kr ∈ queue n (negb s) -> ~ same_nick k kr.

Lemma Inv_deliver n K s freed :
  Inv n K -> block_ok n (Deliver s freed) -> exists n' K', step n (Deliver s freed) = Ok n' /\ Inv n' K' /\
    (queue n (negb s) = [] -> n' = n) /\ (queue n (negb s) <> [] -> (pending n' < pending n)%nat) /\
    (forall s' w k, unrivalled n s' w k -> unrivalled n' s' w k).
Proof.
  intros I Hev. cbn [block_ok] in Hev. destruct (queue n (negb s)) as [|[w k|w] ps] eqn:Hq.
  - exists n, K. cbn [step]. rewrite Hq. by split_and!.
  - destruct (Inv_deliver_intro n K s freed w k ps I Hq Hev) as (n'&out&E&I'&H1&H2&Hl&Ho&Hv&Hlo).
    eexists n', _. split_and!; [exact E|exact I'|done|intros _|].
    + rewrite !(pending_side _ s), H1, H2, Hq, weigh_app, (weigh_quits out) by done. simpl. lia.
    + unfold unrivalled. sides s; intros v kv [Hloc Hin].
      * rewrite Hq in Hin. split; [apply Hlo; [done|apply (Hin w); left]|].
        rewrite H2. intros r kr Hr. apply (Hin r). by right.
      * rewrite Hv, H1. split; [done|]. intros r kr [Hr|Hr]%elem_of_app; [by apply (Hin r)|].
        apply intros_elem in Hr. rewrite Ho in Hr. by apply not_elem_of_nil in Hr.
  - destruct (Inv_deliver_quit n K s freed w ps I Hq) as (n'&E&I'&H1&H2&Hv&Hlo).
    eexists n', _. split_and!; [exact E|exact I'|done|intros _|].
    + rewrite !(pending_side _ s), H1, H2, Hq. simpl. lia.
    + unfold unrivalled. sides s; intros v kv [Hloc Hin].
      * rewrite Hq in Hin. rewrite Hlo, H2. split; [done|]. intros r kr Hr. apply (Hin r). by right.
      * rewrite Hv, H1. done.
Qed.

Lemma net_Inv_run evs n K :
  Inv n K -> events_ok n evs -> blocks_ok n evs -> exists n' K', run n evs = Ok n' /\ Inv n' K'.
Proof.
  unfold events_ok, blocks_ok. revert n K. induction evs as [|ev evs IH]; intros n K I H Hb; [by exists n, K|].
  cbn [all_ok run] in *. destruct H as [Hev H], Hb as [Hbl Hb].
  assert (X : exists n' K', step n ev = Ok n' /\ Inv n' K').
  { destruct ev as [s w k|s w|s freed].
    - destruct (Inv_sign_on n K s w k I Hev) as (n'&?&?). by exists n', K.
    - destruct (Inv_leave n K s w I Hev) as (n'&?&?). by exists n', K.
    - destruct (Inv_deliver n K s freed I Hbl) as (n'&K'&?&?&_). by exists n', K'. }
  destruct X as (n'&K'&E&I'). rewrite E in H, Hb |- *. cbn [mbind result_bind]. by apply (IH n' K').
Qed.

Lemma sound_step n ev : sound n -> event_ok n ev -> exists n', step n ev = Ok n' /\ sound n'.
Proof.
  intros Hs Hev. destruct ev as [s w k|s w|s freed].
  - destruct Hev as (_&Hk&Hfree). eexists. split; [reflexivity|].
    destruct (sound_insert (view n s) w k None) as [H1 H2]; [apply Hs|apply Hs|done|by left|done|].
    split; cbn [view queue].
    + sides s; [exact H1|apply Hs].
    + sides s; [exact H2|apply Hs].
    + sides s; [|apply Hs]. intros v kv [?|[= -> ->]%list_elem_of_singleton]%elem_of_app; [by eapply so_cards|done].
  - eexists. split; [reflexivity|]. split; cbn [view queue]; unfold exit_client.
    + sides s; [apply clients_ok_delete|]; apply Hs.
    + sides s; [apply unique_delete|]; apply Hs.
    + sides s; [|apply Hs]. intros v kv [?|?%list_elem_of_singleton]%elem_of_app; [by eapply so_cards|done].
  - cbn [step]. destruct (queue n (negb s)) as [|p ps] eqn:Hq; [by exists n|].
    destruct (sound_receive (view n s) p freed) as (st&out&E&H1&H2&H3); [apply Hs|apply Hs|..].
    { destruct p as [w k|w]; [|done]. apply (so_cards _ Hs (negb s) w). rewrite Hq. left. }
    rewrite E. cbn [mbind result_bind]. eexists. split; [reflexivity|]. split; cbn [view queue].
    + sides s; [exact H1|apply Hs].
    + sides s; [exact H2|apply Hs].
    + sides s.
      * intros v kv [H|H]%elem_of_app; [by eapply so_cards|]. by destruct (H3 v kv).
      * intros v kv H. apply (so_cards _ Hs (negb s) v). rewrite Hq. by right.
Qed.

Lemma sound_run evs n : sound n -> events_ok n evs -> exists n', run n evs = Ok n' /\ sound n'.
Proof.
  unfold events_ok. revert n. induction evs as [|ev evs IH]; intros n Hs H; [by exists n|].
  cbn [all_ok run] in *. destruct H as [Hev H]. destruct (sound_step n ev Hs Hev) as (n'&E&Hs').
  rewrite E in H |- *. cbn [mbind result_bind]. by apply IH.
Qed.

Lemma sound_init : sound init.
Proof.
  split; cbn [view queue init]; intros s.
  - intros w c. by rewrite lookup_empty.
  - intros a b c d. by rewrite lookup_empty.
  - intros w k H. by apply not_elem_of_nil in H.
Qed.

(** One reading on both sides *)
Definition round (freed : Z * Z) : list event := [Deliver true freed.1; Deliver false freed.2].

Lemma net_run_app n evs evs' : run n (evs ++ evs') = n ← run n evs; run n evs'.
Proof.
  revert n. induction evs as [|ev evs IH]; intros n; [done|]. cbn [app run].
  destruct (step n ev); cbn [mbind result_bind]; [apply IH|done..].
Qed.

Lemma blocks_ok_app n evs evs' :
  blocks_ok n (evs ++ evs') -> blocks_ok n evs /\ match run n evs with Ok n' => blocks_ok n' evs' | _ => True end.
Proof.
  unfold blocks_ok. revert n. induction evs as [|ev evs IH]; intros n; [done|]. cbn [app all_ok run]. intros [H1 H2].
  destruct (step n ev); cbn [mbind result_bind]; [|by split_and!..]. destruct (IH _ H2). done.
Qed.

Lemma Inv_round n K freed :
  Inv n K -> blocks_ok n (round freed) -> exists n' K', run n (round freed) = Ok n' /\ Inv n' K' /\ (pending n' <= pending n - 1)%nat /\
    (forall s w k, unrivalled n s w k -> unrivalled n' s w k).
Proof.
  intros I [He1 He2]. destruct (Inv_deliver n K true freed.1 I He1) as (n1&K1&E1&I1&H1&H1'&U1).
  rewrite E1 in He2. destruct He2 as [He2 _].
  destruct (Inv_deliver n1 K1 false freed.2 I1 He2) as (n2&K2&E2&I2&H2&H2'&U2). exists n2, K2.
  unfold round. cbn [run]. rewrite E1. cbn [mbind result_bind]. rewrite E2. cbn [mbind result_bind].
  split_and!; [done..| |by intros; apply U2, U1]. cbn [negb] in *.
  assert (X1 : n1 = n \/ (pending n1 < pending n)%nat) by (destruct (queue n false); [left; by apply H1|right; by apply H1']).
  destruct (queue n1 true) as [|p1 q1] eqn:Q1.
  - rewrite H2 by done. destruct X1 as [->|?]; [|lia].
    destruct (queue n false) as [|p2 q2] eqn:Q2; [|specialize (H1' ltac:(done)); lia].
    unfold pending. rewrite Q1, Q2. simpl. lia.
  - specialize (H2' ltac:(done)). destruct X1 as [->|?]; lia.
Qed.

Lemma Inv_rounds rs n K :
  Inv n K -> blocks_ok n (flat_map round rs) -> exists n' K', run n (flat_map round rs) = Ok n' /\ Inv n' K' /\ (pending n' <= pending n - length rs)%nat /\
    (forall s w k, unrivalled n s w k -> unrivalled n' s w k).
Proof.
  revert n K. induction rs as [|freed rs IH]; intros n K I Hev; cbn [flat_map length] in *.
  - exists n, K. split_and!; [done..|lia|done].
  - rewrite net_run_app. apply blocks_ok_app in Hev as [He1 He2].
    destruct (Inv_round n K freed I He1) as (n1&K1&E&I1&H1&U1). rewrite E in He2 |- *. cbn [mbind result_bind].
    destruct (IH n1 K1 I1 He2) as (n2&K2&E2&I2&H2&U2). exists n2, K2.
    split_and!; [done..|lia|by intros; apply U2, U1].
Qed.

(** ** Agreement *)

(** All users a side knows, local or not *)
Definition users (st : clients) : gmap nat card := omap card_of st.

Lemma users_Some st w k : users st !! w = Some k <-> locals st !! w = Some k \/ remotes st !! w = Some k.
Proof.
  unfold users. rewrite lookup_omap, bind_Some, locals_Some, remotes_Some. split.
  - intros (c&Hc&Hk). destruct (from c) eqn:E; [right|left]; exists c; by rewrite E.
  - intros [(c&?&_&?)|(c&?&_&?)]; by exists c.
Qed.

Lemma Inv_quiet_side n K s w k :
  Inv n K -> quiet n -> locals (view n s) !! w = Some k <-> remotes (view n (negb s)) !! w = Some k.
Proof.
  intros I Hq. assert (Hr := i_replay _ _ I s). rewrite (Hq s) in Hr. assert (EK : K s = locals (view n s)) by by inversion Hr. clear Hr.
  split; intros H.
  - destruct (remotes (view n (negb s)) !! w) as [k'|] eqn:E.
    + apply (i_known _ _ I) in E. congruence.
    + destruct (i_dropped _ _ I s w k) as (r&kr&Hin&_); [congruence|done..|]. rewrite (Hq (negb s)) in Hin.
      by apply not_elem_of_nil in Hin.
  - apply (i_known _ _ I) in H. congruence.
Qed.

Lemma Inv_quiet n K : Inv n K -> quiet n -> users (view n true) = users (view n false).
Proof.
  intros I Hq. apply map_eq. intros w. apply option_eq. intros k. rewrite !users_Some.
  rewrite (Inv_quiet_side n K true w k I Hq), <- (Inv_quiet_side n K false w k I Hq). cbn [negb]. tauto.
Qed.

(** * The theorems *)

(** C6. Two servers on a link never break the rules of nicks: through any history of
    users signing on with a nick free at their server, users leaving and messages
    read in order, however late, each server knows at most one user under a nick,
    whatever the blocks of freed clients hold that m_nick_remoto() reads after a
    collision.  If none of these blocks holds by chance the time of the newcomer, then
    both servers know the same users, local or remote, with the same nicks, times and
    hosts, whenever no message is on its way ([freed_by_chance] below: otherwise they
    may not). *)
Theorem servers_agree evs :
  events_ok init evs ->
  exists n, run init evs = Ok n /\ (forall s, names_unique (view n s)) /\
    (blocks_ok init evs -> quiet n -> users (view n true) = users (view n false)).
Proof.
  intros H. destruct (sound_run evs init sound_init H) as (n&E&Hs).
  exists n. split_and!; [done|apply Hs|]. intros Hb Hq.
  destruct (net_Inv_run evs init (fun _ => ∅) Inv_init H Hb) as (n'&K&E'&I).
  rewrite E in E'. injection E' as <-. by eapply Inv_quiet.
Qed.

(** C7. They do agree in the end, as long as no freed block holds by chance the time
    of the newcomer: from any point of such a history a number of readings on both
    sides, one per message on its way and one more per new user, empties the link, and
    then both servers know the same users.  Nobody is lost but by a collision: a user
    stays whose nick no new user on his way has. *)
Theorem messages_arrive evs n rounds :
  events_ok init evs -> blocks_ok init evs -> run init evs = Ok n ->
  blocks_ok n (flat_map round rounds) -> (pending n <= length rounds)%nat ->
  exists n', run n (flat_map round rounds) = Ok n' /\ quiet n' /\
    users (view n' true) = users (view n' false) /\
    forall s w k, unrivalled n s w k -> forall s', users (view n' s') !! w = Some k.
Proof.
  intros H Hb Hr Hevs Hm. destruct (net_Inv_run evs init (fun _ => ∅) Inv_init H Hb) as (n0&K&E&I).
  rewrite Hr in E. injection E as <-. destruct (Inv_rounds rounds n K I Hevs) as (n'&K'&E&I'&Hp&HU).
  assert (Hq : quiet n') by (apply pending_quiet; lia). assert (Ha := Inv_quiet n' K' I' Hq).
  exists n'. split_and!; [done..|]. intros s w k HUn s'.
  assert (Hu : users (view n' s) !! w = Some k) by (apply users_Some; left; by apply HU).
  destruct s, s'; congruence.
Qed.

(** ** Examples *)

Definition ana : card := mkCard (str "ana") 100 (str "ana") (str "one.es").
Definition older_ana : card := mkCard (str "Ana") 90 (str "eve") (str "two.es").
Definition pepe : card := mkCard (str "pepe") 80 (str "pepe") (str "two.es").

(** Two users take the nick before their servers know of each other. *)
Definition both_sign_on : list event :=
  [Sign_on true 1 ana; Sign_on false 2 older_ana; Sign_on false 3 pepe].

Definition after (evs : list event) : net := match run init evs with Ok n => n | _ => init end.

(** If the block of the freed client holds the time of the newcomer by chance, he is
    not registered here and stays registered there, and nobody is told. *)
Example freed_by_chance :
  let n := after (both_sign_on ++ [Deliver true 90; Deliver true 0; Deliver false 0; Deliver false 0]) in
  queue n true = [] /\ queue n false = [] /\
  users (view n true) !! 2%nat = None /\ users (view n false) !! 2%nat = Some older_ana.
Proof. vm_compute. done. Qed.

(** Both users are told of, and the older one wins on both sides. *)
Definition all_read : list event :=
  both_sign_on ++ flat_map round (repeat (0, 0) 3).

Lemma servers_agree_witness :
  (events_ok init all_read /\ blocks_ok init all_read /\ quiet (after all_read)) /\
  exists n, run init all_read = Ok n /\ (forall s, names_unique (view n s)) /\
    (blocks_ok init all_read -> quiet n -> users (view n true) = users (view n false)).
Proof.
  assert (H : events_ok init all_read) by (apply (bool_decide_unpack _); vm_compute; exact I).
  split; [split_and!; [exact H|apply (bool_decide_unpack _); vm_compute; exact I|]|apply servers_agree, H].
  intros s. destruct s; vm_compute; reflexivity.
Defined.

Lemma messages_arrive_witness :
  let n := after both_sign_on in
  let rounds := repeat (0, 0) 6 in
  exists n', run n (flat_map round rounds) = Ok n' /\ quiet n' /\
    users (view n' true) = users (view n' false) /\
    forall s w k, unrivalled n s w k -> forall s', users (view n' s') !! w = Some k.
Proof.
  apply (messages_arrive both_sign_on).
  - apply (bool_decide_unpack _). vm_compute. exact I.
  - apply (bool_decide_unpack _). vm_compute. exact I.
  - vm_compute. reflexivity.
  - apply (bool_decide_unpack _). vm_compute. exact I.
  - apply Nat.leb_le. vm_compute. reflexivity.
Defined.
